(* ===== verification/_CoqProject ===== *)
-Q . S2P
Prelude.v
Heap.v
GoStrings.v
FabricRef.v
Framing.v
Wire.v
Events.v
FabricModel.v
Stream.v
Patch.v
Manifest.v
ManifestProps.v
Engine.v
EngineProps.v
LocalBus.v
SqlTx.v
Durable.v
DurableInv.v
DurableProps.v
Ingress.v
Worker.v
Ledger.v
LedgerInv.v
LedgerProps.v
Encodings.v
Continuation.v
ContinuationInv.v
ContinuationProps.v
EngineStream.v
Recorder.v
RecorderProps.v
FileStore.v
Sender.v
SenderEngine.v
SenderInv.v
SenderMachine.v
SenderProps.v
Authority.v
AuthorityTx.v
AuthorityInv.v
AuthorityHistory.v
AuthorityProps.v
AuthorityClients.v
Control.v
ControlProps.v
Launch.v
LaunchProps.v
LaunchMemory.v
