(* ===== verification/Prelude.v ===== *)
(** * pagnet: verification of the agent-network client core

    pagnet (src/, Go) connects coding agents to an agent network. Its core is a
    set of libraries under src/fabric (references, signed frames, envelopes,
    checked streams, events, deferred execution) and the private SQLite stores
    under src/fabric and src/internal that make the network's promises durable.
    This development models that core and proves what its parts promise.

    ** Parts of the program and the files that model them

    - [Prelude]: results of fallible functions with the [let?] notation, machine
      integers, instants, sums over finite maps (SQL aggregates), the tactics
      [rinv] and [case_if], the hint database [pagnet]. [GoStrings]: the string,
      hexadecimal, base64, UTF-8 and big-endian functions of the Go library.
      [Encodings]: the strict base64 decoder and the RFC3339Nano layout, with
      their round trips. [Heap]: container/heap. [SqlTx]: transactions under an
      adversarial driver.
    - [FabricRef]: src/fabric/error.go, version.go, ref.go (bounded errors,
      namespaced names, canonical endpoint and offer references).
    - [Framing]: src/fabric/framing.go, control_frame.go (signing frames and
      their parsers).
    - [Wire]: src/fabric/wire.go (the bounded JSON boundary). [WireSpec] is the
      reference definition: which JSON trees are acceptable.
    - [FabricModel]: src/fabric/model.go, identity.go, reference_handle.go
      (envelopes and requests, authenticated contexts, compact handles).
    - [Patch]: src/fabric/extension/patch.go (mutations sent by extensions), with
      the reference semantics [Rfc6902] of the patch library.
    - [Stream]: src/fabric/stream.go, replay.go (checked invocation streams).
    - [Events]: src/fabric/events/event.go over the CloudEvents SDK.
    - [LocalBus]: src/fabric/events/local.go, the volatile bus, as a machine
      whose steps are the critical sections of its goroutines.
    - [Durable], [DurableInv], [DurableProps]: src/fabric/events/durable
      types.go, store.go, delivery.go, the durable event store. [Ingress] is its
      ingress.go, the bounded queue in front of a publisher (the class
      [Publisher], which the store implements); [Worker] its worker.go.
    - [Ledger], [LedgerInv], [LedgerProps]: src/internal/textbridge/ledger, the
      sealed job ledger and provider budget of the text bridge, and the abstract
      job machine it refines.
    - [Continuation], [ContinuationInv], [ContinuationProps]:
      src/fabric/extension/continuation, single-use deferred executions.
    - [Manifest], [ManifestProps]: src/fabric/extension/manifest.go (extension
      manifests and the compiled plan: Kahn's algorithm over a heap).
    - [Engine], [EngineProps]: src/fabric/extension protocol.go, remote.go,
      output_patch.go, engine.go, resume.go (decisions of interceptors and the
      pipeline that runs them around an endpoint). [EngineStream]:
      engine_stream.go and the frame projections, interceptors around streams.
    - [Recorder], [RecorderProps]: src/fabric/node/continuations, which composes
      the engine with the continuation store: durable deferrals.
    - [FileStore], [Sender], [SenderEngine], [SenderInv], [SenderMachine],
      [SenderProps]: src/internal/textbridge/sender. [FileStore] is a disk that
      distinguishes what is visible from what power loss leaves, with the atomic
      replacement of a file; [Sender] the sealed operation store of store.go;
      [SenderEngine] engine.go and controller.go as programs over the store, the
      SDK and the controller's state; [SenderMachine] their interleavings.
    - [Authority], [AuthorityTx], [AuthorityInv], [AuthorityHistory],
      [AuthorityProps]: the native authority ledger of src/fabric/registry
      (native_authority.go, purpose_generation.go, native_authority_recovery.go,
      original_dispatch.go, native_target.go, deferred_admission.go,
      current_actor.go, current_native_caller.go): signed, hash-chained revisions
      written by compare-and-set inside transactions whose callbacks are programs
      over the transaction's methods. [AuthorityClients] is what its clients rely
      on: which rows a callback may write, and that rows never disappear.
    - [Control], [ControlProps]: src/fabric/identity controller.go, current.go and
      their part of types.go, a client of the authority ledger: the controllers of a
      worker slot and the worker bound to it.
    - [Launch], [LaunchProps], [LaunchMemory]: src/internal/nativeauthority/scope.go and
      src/internal/fabricnative/launch_claim.go, another client: scopes of physical
      ownership and the launch of a worker process.

    ** How code becomes definitions

    A Go function that may fail is a function into [result]; a method that
    changes its receiver returns the new state beside its result, on errors too.
    Every table is a finite map, every SELECT, INSERT, UPDATE or DELETE a
    function on the tables, and a transaction a [Tx] computation: [run_tx] lets
    the driver fail at begin, at any statement, or at commit, where the failed
    commit may or may not have persisted. Goroutines are step machines over
    their critical sections; a mutex makes a method one step. Code that calls
    out between its own steps (the sender's engine, the callbacks of the authority
    ledger) is a program: a tree of calls, each followed by a function of its
    answer, so that a theorem covers every answer. Clock readings,
    entropy and the outcomes of file-system calls are arguments. Where int64 or
    uint64 arithmetic can overflow it is wrapped ([wrap64], [wrapu64]).

    Parameters, with their laws where a theorem needs them: SHA-256 ([Sha256]),
    the JSON tokenizer and encoding/json of the named structs ([JsonDecoder],
    [EnvelopeJson], [DurableJson], [LedgerJson], [ContinuationJson]), the
    CloudEvents SDK ([CloudEvents]), the json-patch library ([PatchJson], which
    implements RFC 6902), the operator's data protector
    ([DataProtector], which opens what it sealed) and the AEAD of the ledger
    ([Aead]); the structs of the extension packages ([ManifestJson],
    [InterceptJson], [EngineJson], [OutputJson], [RecorderJson]), media types
    ([MediaTypes]), the order in which Go enumerates a map ([MapOrder]); what the
    engine calls ([Host]: handlers, resolver, validator, endpoint, contexts, clock
    and continuation recorder) and what the recorder calls ([Ports]); for the sender
    UUIDs, URLs, AES-GCM and its JSON ([Uuid], [UrlParser], [AesGcm], [SenderJson]);
    for the authority ledger ed25519 and its documents ([Ed25519], [AuthorityJson],
    [AuthorityDocuments]) and the documents of its clients ([ControlJson],
    [LaunchJson]). Every theorem with such a law, or with any other
    hypothesis, has a witness that runs it on a concrete instance.

    ** What the theorems show

    - Durable events: after any history of operations, statement failures and
      ambiguous commits the store verifies on reopen; publishing is idempotent
      and fans out atomically; a claim grants the longest waiting delivery and
      always makes progress; a settled or superseded claim never settles again;
      purge and expiry touch only what they may; all counters stay in bounds.
      Ingress accounts for every admitted event, commits only what the store
      holds, and shuts down; a worker acknowledges only deliveries accepted
      within their lease and settles each turn once.
    - Ledger: the sealed tables refine the abstract job machine under any
      interleaving of its two-statement updates; the provider budget is never
      exceeded; recorded ASKs are immutable and deduplicated; it reopens.
    - Continuations: over any history, including lost commit reports and
      restarts, each is executed at most once and its row only advances; claims
      need the current capability; accounting is exact; creation is idempotent;
      a fresh capability does execute, provided its snapshot is within the JSON
      limits of its readers ([unreadable_snapshot_is_issued] shows what happens
      otherwise); the outbox discloses only the current
      capability; tokens have one spelling.
    - Extensions: the compiled plan is the reference linearization of the
      declared order, whatever order Go enumerates its maps in; the engine
      refines the pipeline step relation in its calls and in its result, and a
      selection holds exactly the interceptors that apply: the endpoint runs behind every
      interceptor of the plan, as the original caller, redirects are bounded,
      resuming a suspended run continues it, permits are single-use and only
      outages fail open. Frames of a stream reach the consumer only
      through its hooks, and stay well framed. A durably deferred invocation
      executes at most once, as its original caller and under the plan configured at
      its resumption, and is settled.
    - Sender: under any interleaving, failing system calls, ambiguous writes,
      restarts and power loss an ASK is prepared at most once; an operation a
      method acknowledged survives power loss and only advances; a disabled sender
      starts nothing.
    - Authority ledger: after any history of transactions with arbitrary callbacks
      the ledger verifies on reopen; an original invocation gets at most one signed
      dispatch; the head determines the whole ledger up to SHA-256 collisions, which
      are exhibited, never excluded; CAS refines a map of revisions with final
      tombstones, and refuses only for the listed reasons. A transaction in which
      the driver failed a statement is taken not to commit:
      [ignored_read_error_breaks_ledger] shows a place where the code needs this.
    - Native workers: in any history of the ledger, shared with any other
      transactions, the epochs of the controllers of a slot strictly increase and a
      replaced controller never takes effect again; a worker of a physical slot is
      launched at most once, across ambiguous commits and restarts, renewing its
      binding keeps the slot, and a launch is found again with its ownership,
      directory and observed process.
    - Fabric: the JSON validator accepts exactly the bounded well-spelled trees;
      references, handles and signing frames round-trip with one spelling, and
      signing bytes bind purpose and fields; a caller cannot forge identity or
      lineage; an extension's patch changes nothing but the payload and the
      extension's own metadata, and its test operation is exact JSON equality;
      checked streams deliver well-framed executions, replayed ones
      only of the original execution; the local bus is FIFO with atomic fan-out,
      exact accounting and bounded retries.

    ** Bounds and fuel

    [validateJSONValue] runs on fuel [wire_fuel], twice the number of tokens
    plus two, which the equivalence theorem shows to be enough; the type walks
    of [Wire] are bounded by the size of the type table. [print_uint] has fuel
    20, the digits of a uint64. The plan's work list is drained with fuel the
    number of nodes and the engine makes at most [passes], the redirects left
    plus one; both are shown to be enough (the results are never out of fuel),
    and the sift loops of [Heap] run on the length of the array. The waiting loops
    of the sender take any number of rounds: one that runs out is a run that is
    still waiting, and the theorems hold at every number. All other recursion is
    structural. The instants
    of [Stamp.format] round-trip for four-digit years, the range of the layout.

    ** Not modelled

    Files other than the sender's, directories, locks, PRAGMAs and the SQLite file
    format (outcome flags); HTTP, WebSocket and process management; key custody,
    HPKE and signature algorithms (external libraries); the JSON forms of
    references; ForwardFrame, whose provenance digest is a JSON digest; descriptor
    and search documents and floating point ranking; the HTTP handler of the
    extension engine, its tracing spans and the capacity accounting of its
    executor; the settlement of streamed resumptions and source capture; the
    creation of the sender's directory path, file modes and the cleanup of its
    OnReady callback; the compilation of JSON schemas before an authority
    transaction, and the descriptor log, the reference handle table and the peer
    pins of the same registry; admissions, origins and checkpoints of native
    invocations behind the configured fence; the inbox store, the extension registry, federation
    and end-to-end encryption, which are further stores and protocols beside these;
    the daemon, runtimes, terminal user interface and command line, which compose
    these parts. *)
From stdpp Require Export base gmap strings list sorting relations.
From Stdlib Require Export ZArith Lia ZifyBool.
#[local] Open Scope Z_scope.

(** ** Results of fallible Go functions

    A Go function returning [(T, error)] is modelled by [result E T]: the
    value when the error is nil, the error otherwise. *)
Inductive result (E A : Type) : Type :=
| Ok (a : A)
| Err (e : E).
Arguments Ok {E A} a.
Arguments Err {E A} e.

Definition rbind {E A B} (c : result E A) (k : A -> result E B) : result E B :=
  match c with
  | Ok a => k a
  | Err e => Err e
  end.

Definition is_ok {E A} (c : result E A) : bool :=
  match c with Ok _ => true | Err _ => false end.

(** Early return: [guard cond err] is [if !cond { return err }]. *)
Definition guard {E} (b : bool) (e : E) : result E unit :=
  if b then Ok tt else Err e.

Definition of_option {E A} (o : option A) (e : E) : result E A :=
  match o with Some a => Ok a | None => Err e end.

Declare Scope go_scope.
Delimit Scope go_scope with go.
Notation "'let?' x ':=' c 'in' k" := (rbind c (fun x => k))
  (at level 10, x name, c at level 100, k at level 200) : go_scope.
Notation "'let?' ' p ':=' c 'in' k" := (rbind c (fun p => k))
  (at level 10, p strict pattern, c at level 100, k at level 200) : go_scope.
#[global] Open Scope go_scope.

Lemma rbind_Ok {E A B} (c : result E A) (k : A -> result E B) b :
  rbind c k = Ok b <-> exists a, c = Ok a /\ k a = Ok b.
Proof.
  destruct c; simpl; split; [eauto | intros (? & [= ->] & ?); done | done |].
  by intros (? & ? & ?).
Qed.

Lemma rbind_Err {E A B} (c : result E A) (k : A -> result E B) e :
  rbind c k = Err e <-> c = Err e \/ exists a, c = Ok a /\ k a = Err e.
Proof.
  destruct c; simpl; split; [eauto | | intros [= ->]; auto |].
  - intros [?|(? & [= ->] & ?)]; done.
  - intros [[= ->]|(? & ? & ?)]; done.
Qed.

Lemma guard_Ok {E} b (e : E) u : guard b e = Ok u <-> b = true.
Proof. by destruct b, u. Qed.

Lemma guard_Err {E} b (e e' : E) : guard b e = Err e' <-> b = false /\ e' = e.
Proof. destruct b; simpl; split; [done | by intros [? _] | by intros [= ->] | by intros [_ ->]]. Qed.

#[export] Instance result_eq_dec {E A} `{EqDecision E, EqDecision A} : EqDecision (result E A).
Proof. solve_decision. Defined.

(** Opens successful binds and guards in the hypotheses. *)
Ltac rinv1 :=
  match goal with
  | H : rbind _ _ = Ok _ |- _ => apply rbind_Ok in H as (? & ? & H); cbv beta zeta in H
  | H : guard _ _ = Ok _ |- _ => apply guard_Ok in H
  | H : Ok _ = Ok _ |- _ => injection H as H
  | H : Err _ = Err _ |- _ => injection H as H
  | H : Ok _ = Err _ |- _ => discriminate H
  | H : Err _ = Ok _ |- _ => discriminate H
  | H : _ && _ = true |- _ => apply andb_true_iff in H as [? ?]
  | H : _ || _ = false |- _ => apply orb_false_iff in H as [? ?]
  | H : negb _ = true |- _ => apply negb_true_iff in H
  | H : negb _ = false |- _ => apply negb_false_iff in H
  | H : bool_decide _ = true |- _ => apply bool_decide_eq_true_1 in H
  | H : bool_decide _ = false |- _ => apply bool_decide_eq_false_1 in H
  | x : unit |- _ => destruct x
  end.
Ltac rinv := repeat (rinv1; simplify_eq).

(** Decides the conditional the goal or a hypothesis is stuck on. *)
Ltac case_if :=
  match goal with
  | |- context [if ?b then _ else _] => let E := fresh "E" in destruct b eqn:E
  | H : context [if ?b then _ else _] |- _ => let E := fresh "E" in destruct b eqn:E
  end.

(** ** Machine integers: Go's int64 and uint64 *)
Definition max_int64 : Z := 2 ^ 63 - 1.
Definition min_int64 : Z := - 2 ^ 63.
Definition max_uint64 : Z := 2 ^ 64 - 1.

(** Two's complement wrap-around of an int64 result. *)
Definition wrap64 (z : Z) : Z := (z + 2 ^ 63) mod 2 ^ 64 - 2 ^ 63.
Definition wrapu64 (z : Z) : Z := z mod 2 ^ 64.

Definition in_int64 (z : Z) : Prop := min_int64 <= z <= max_int64.

Lemma wrap64_small z : in_int64 z -> wrap64 z = z.
Proof.
  unfold in_int64, min_int64, max_int64, wrap64. intros.
  rewrite Z.mod_small; lia.
Qed.

Lemma wrap64_range z : in_int64 (wrap64 z).
Proof.
  unfold in_int64, min_int64, max_int64, wrap64.
  pose proof (Z.mod_pos_bound (z + 2 ^ 63) (2 ^ 64)). lia.
Qed.

(** Congruence of uint64 counters. *)
Lemma wrapu64_eq z : exists k, wrapu64 z = z + k * 2 ^ 64.
Proof. exists (- (z / 2 ^ 64)). unfold wrapu64. pose proof (Z.div_mod z (2 ^ 64)). lia. Qed.

Lemma wrapu64_cong x y k : x = y + k * 2 ^ 64 -> wrapu64 x = wrapu64 y.
Proof. intros ->. unfold wrapu64. apply Z_mod_plus_full. Qed.

(** ** time.Time and time.Duration

    An instant is the number of nanoseconds since the Unix epoch (time.Time
    covers far more than the int64 range); [UnixNano] truncates it to int64
    as the Go method does, and the zero Time is January 1 of year 1 UTC. *)
Definition Time := Z.
Definition Duration := Z.
Definition zero_time : Time := -62135596800 * 10 ^ 9.
Definition IsZero (t : Time) : bool := Z.eqb t zero_time.
Definition UnixNano (t : Time) : Z := wrap64 t.

Lemma UnixNano_add (t : Time) (d : Duration) :
  in_int64 (UnixNano t + d) -> UnixNano (t + d) = UnixNano t + d.
Proof.
  unfold UnixNano. intros Hr. rewrite <- (wrap64_small (wrap64 t + d)) by done.
  unfold wrap64. f_equal.
  replace ((t + 2 ^ 63) mod 2 ^ 64 - 2 ^ 63 + d + 2 ^ 63) with ((t + 2 ^ 63) mod 2 ^ 64 + d) by lia.
  rewrite Zplus_mod_idemp_l. f_equal. lia.
Qed.

Lemma UnixNano_range t : in_int64 (UnixNano t).
Proof. apply wrap64_range. Qed.

Lemma wrap64_idem t : wrap64 (wrap64 t) = wrap64 t.
Proof. apply wrap64_small, wrap64_range. Qed.

Definition time_Millisecond : Duration := 10 ^ 6.
Definition time_Second : Duration := 10 ^ 9.
Definition time_Minute : Duration := 60 * time_Second.
Definition time_Hour : Duration := 60 * time_Minute.

(** ** Sums and counts over finite maps

    SQL aggregates and retained-byte counters are sums over a table. *)
Section msum.
Context {K V : Type} `{Countable K}.
Implicit Types (m : gmap K V) (f g : K -> V -> Z).

Definition msum f m : Z := map_fold (fun k v acc => f k v + acc) 0 m.

Lemma msum_empty f : msum f ∅ = 0.
Proof. apply map_fold_empty. Qed.

Lemma msum_insert f m k v :
  m !! k = None -> msum f (<[k:=v]> m) = f k v + msum f m.
Proof.
  intros Hk. unfold msum. rewrite map_fold_insert_L; [done | | done].
  intros; lia.
Qed.

Lemma msum_delete f m k v :
  m !! k = Some v -> msum f (delete k m) = msum f m - f k v.
Proof.
  intros Hk. rewrite <- (insert_delete_id m k v Hk) at 2.
  rewrite msum_insert by apply lookup_delete_eq. lia.
Qed.

Lemma msum_update f m k v w :
  m !! k = Some v -> msum f (<[k:=w]> m) = msum f m - f k v + f k w.
Proof.
  intros Hk. rewrite <- insert_delete_eq.
  rewrite msum_insert by apply lookup_delete_eq.
  rewrite (msum_delete f m k v Hk). lia.
Qed.

Lemma msum_ext f g m :
  (forall k v, m !! k = Some v -> f k v = g k v) -> msum f m = msum g m.
Proof.
  induction m as [|k v m Hk IH] using map_ind; intros Hfg.
  - by rewrite !msum_empty.
  - rewrite !msum_insert by done. rewrite (Hfg k v) by apply lookup_insert_eq.
    rewrite IH; [done|]. intros j w Hj. apply Hfg.
    rewrite lookup_insert_ne; congruence.
Qed.

Lemma msum_nonneg f m :
  (forall k v, m !! k = Some v -> 0 <= f k v) -> 0 <= msum f m.
Proof.
  induction m as [|k v m Hk IH] using map_ind; intros Hf.
  - by rewrite msum_empty.
  - rewrite msum_insert by done.
    assert (0 <= f k v) by (apply Hf, lookup_insert_eq).
    enough (0 <= msum f m) by lia. apply IH.
    intros j w Hj. apply Hf. rewrite lookup_insert_ne; congruence.
Qed.

Lemma msum_zero f m :
  (forall k v, m !! k = Some v -> f k v = 0) -> msum f m = 0.
Proof.
  intros Hf. rewrite (msum_ext f (fun _ _ => 0)) by done.
  induction m as [|k v m Hk IH] using map_ind; [apply msum_empty|].
  rewrite msum_insert by done. rewrite IH; [lia|].
  intros j w Hj. apply (Hf j w). rewrite lookup_insert_ne; congruence.
Qed.

Lemma msum_const c m : msum (fun _ _ => c) m = c * Z.of_nat (size m).
Proof.
  induction m as [|k v m Hk IH] using map_ind.
  - rewrite msum_empty, map_size_empty. lia.
  - rewrite msum_insert by done. rewrite map_size_insert_None by done. lia.
Qed.

Lemma msum_lookup_le f m k v :
  (forall k v, m !! k = Some v -> 0 <= f k v) -> m !! k = Some v -> f k v <= msum f m.
Proof.
  intros Hf Hk. pose proof (msum_delete f m k v Hk) as Hd.
  enough (0 <= msum f (delete k m)) by lia. apply msum_nonneg.
  intros j w Hj. apply lookup_delete_Some in Hj as [_ Hj]. eauto.
Qed.

Lemma msum_plus f g m : msum (fun k v => f k v + g k v) m = msum f m + msum g m.
Proof.
  induction m as [|k v m Hk IH] using map_ind; [by rewrite !msum_empty|].
  rewrite !msum_insert by done. lia.
Qed.

Lemma msum_filter (P : K * V -> Prop) `{!forall kv, Decision (P kv)} f m :
  msum f (filter P m) = msum (fun k v => if bool_decide (P (k, v)) then f k v else 0) m.
Proof.
  induction m as [|k v m Hk IH] using map_ind; [by rewrite map_filter_empty, !msum_empty|].
  rewrite (msum_insert (fun k v => if bool_decide (P (k, v)) then f k v else 0)) by done.
  destruct (decide (P (k, v))) as [Hp|Hp].
  - rewrite map_filter_insert_True by done. rewrite bool_decide_eq_true_2 by done.
    rewrite msum_insert; [by rewrite IH|]. apply map_lookup_filter_None. by left.
  - rewrite map_filter_insert_not' by (try done; intros ? Hk'; congruence).
    rewrite bool_decide_eq_false_2 by done. by rewrite IH.
Qed.

Lemma msum_imap (h : K -> V -> V) f m :
  msum f (map_imap (fun k v => Some (h k v)) m) = msum (fun k v => f k (h k v)) m.
Proof.
  induction m as [|k v m Hk IH] using map_ind; [by rewrite map_imap_empty, !msum_empty|].
  rewrite (map_imap_insert_Some _ _ _ _ (h k v)) by done.
  rewrite !msum_insert; [by rewrite IH | done | by rewrite map_lookup_imap, Hk].
Qed.

Lemma msum_list f m :
  msum f m = foldr (fun kv acc => f kv.1 kv.2 + acc) 0 (map_to_list m).
Proof.
  unfold msum. rewrite map_fold_foldr. induction (map_to_list m) as [|[k v] l IH]; [done|].
  simpl. by rewrite IH.
Qed.

Lemma size_msum m : Z.of_nat (size m) = msum (fun _ _ => 1) m.
Proof. rewrite msum_const. lia. Qed.
End msum.

(** [SELECT count] of the rows satisfying a predicate. *)
Definition b2z (b : bool) : Z := if b then 1 else 0.

Definition mcount {K V} `{Countable K} (p : K -> V -> bool) (m : gmap K V) : Z :=
  msum (fun k v => b2z (p k v)) m.

Lemma b2z_range b : 0 <= b2z b <= 1.
Proof. destruct b; simpl; lia. Qed.

Lemma mcount_nonneg {K V} `{Countable K} (p : K -> V -> bool) m : 0 <= mcount p m.
Proof. apply msum_nonneg. intros k v _. pose proof (b2z_range (p k v)). lia. Qed.

Lemma mcount_zero {K V} `{Countable K} (p : K -> V -> bool) (m : gmap K V) :
  mcount p m = 0 <-> forall k v, m !! k = Some v -> p k v = false.
Proof.
  split.
  - intros H0 k v Hk. destruct (p k v) eqn:Hp; [|done].
    assert (b2z (p k v) <= mcount p m) as Hle.
    { apply (msum_lookup_le (fun k v => b2z (p k v))); [|done].
      intros j w _. apply b2z_range. }
    rewrite Hp in Hle. simpl in Hle. lia.
  - intros Hall. apply msum_zero. intros k v Hk. by rewrite (Hall k v Hk).
Qed.

(** ** Lists *)
Lemma list_filter_iff_in {A} (P Q : A -> Prop) `{!forall x, Decision (P x), !forall x, Decision (Q x)} (l : list A) :
  (forall x, x ∈ l -> P x <-> Q x) -> filter P l = filter Q l.
Proof.
  induction l as [|x l IH]; intros Hi; [done|]. rewrite !filter_cons.
  rewrite IH by (intros y Hy; apply Hi; by right).
  destruct (Hi x) as [H1 H2]; [by left|]. repeat case_decide; tauto.
Qed.

Lemma NoDup_pivot {A} (l1 l2 k1 k2 : list A) x :
  NoDup (l1 ++ x :: l2) -> l1 ++ x :: l2 = k1 ++ x :: k2 -> l1 = k1.
Proof.
  revert k1. induction l1 as [|y l1 IH]; intros [|z k1] Hnd E; simplify_list_eq; [done| | |].
  - apply NoDup_cons in Hnd as [Hx _]. set_solver.
  - apply NoDup_cons in Hnd as [Hx _]. set_solver.
  - apply NoDup_cons in Hnd as [_ Hnd]. f_equal. by apply IH.
Qed.

Create HintDb pagnet.
#[export] Hint Resolve mcount_nonneg b2z_range wrap64_range : pagnet.
