(* ===== verification/Heap.v ===== *)
(** * container/heap

    The binary heap of Go's standard library over a slice, as heap.Push and
    heap.Pop run it with the Len, Less, Swap, Push and Pop methods of the slice.
    For a [less] that is a strict total order on the elements, popping yields the
    least element and leaves the others. *)
From S2P Require Import Prelude.
#[local] Open Scope nat_scope.

Section swap.
Context {A : Type}.
Implicit Types (h : list A) (i j k : nat).

(** [h.Swap(i, j)] *)
Definition swap i j h : list A :=
  match h !! i, h !! j with
  | Some x, Some y => <[i := y]> (<[j := x]> h)
  | _, _ => h
  end.

Lemma length_swap i j h : length (swap i j h) = length h.
Proof. unfold swap. repeat case_match; by rewrite ?length_insert. Qed.

Lemma lookup_swap i j h k : i < length h -> j < length h ->
  swap i j h !! k = h !! (if decide (k = i) then j else if decide (k = j) then i else k).
Proof.
  intros [x Hx]%lookup_lt_is_Some [y Hy]%lookup_lt_is_Some. unfold swap. rewrite Hx, Hy.
  pose proof (lookup_lt_Some _ _ _ Hx). pose proof (lookup_lt_Some _ _ _ Hy).
  rewrite list_lookup_insert, length_insert. rewrite list_lookup_insert.
  repeat (case_decide; destruct_and?; subst; try done; try tauto).
Qed.

Lemma swap_Permutation i j h : swap i j h ≡ₚ h.
Proof.
  destruct (decide (i < length h /\ j < length h)) as [[Hi Hj]|Hn].
  - apply Permutation_inj. split; [apply length_swap|].
    exists (fun k => if decide (k = i) then j else if decide (k = j) then i else k).
    split; [|intros k; by apply lookup_swap].
    intros a b. repeat case_decide; congruence.
  - unfold swap. destruct (h !! i) eqn:E1; [|done]. destruct (h !! j) eqn:E2; [|done].
    exfalso. apply Hn. eauto using lookup_lt_Some.
Qed.
End swap.

Section heap.
Context {A : Type} (less : A -> A -> bool).
Implicit Types (h : list A) (i j k n : nat) (x y : A).

(** [h.Less(i, j)] *)
Definition less_at h i j : bool :=
  match h !! i, h !! j with
  | Some x, Some y => less x y
  | _, _ => false
  end.

Definition parent j : nat := (j - 1) / 2.

(** The sift-up loop; the index halves, so [j] iterations are enough. *)
Fixpoint up (fuel : nat) h j : list A :=
  match fuel with
  | O => h
  | S fuel =>
      let i := parent j in
      if (i =? j) || negb (less_at h j i) then h else up fuel (swap i j h) i
  end.

(** The lesser child of [i] among the first [n] elements. *)
Definition lesser_child h i n : nat :=
  let j1 := 2 * i + 1 in
  let j2 := j1 + 1 in
  if (j2 <? n) && less_at h j2 j1 then j2 else j1.

(** The sift-down loop on the first [n] elements; the index grows, so [n]
    iterations are enough. *)
Fixpoint down (fuel : nat) h i n : list A :=
  match fuel with
  | O => h
  | S fuel =>
      if n <=? 2 * i + 1 then h
      else
        let j := lesser_child h i n in
        if negb (less_at h j i) then h else down fuel (swap i j h) j n
  end.

(** heap.Push: append, then sift the new last element up. *)
Definition heap_push h x : list A := up (S (length h)) (h ++ [x]) (length h).

(** heap.Pop of a non-empty heap: swap the first and last elements, sift the new
    first element down among the others, remove the last element. *)
Definition heap_pop h : option (A * list A) :=
  match h with
  | [] => None
  | _ =>
      let n := length h - 1 in
      let h := down n (swap 0 n h) 0 n in
      x ← h !! n; Some (x, take n h)
  end.

(** ** Sifting permutes *)
Lemma up_Permutation fuel h j : up fuel h j ≡ₚ h.
Proof.
  revert h j. induction fuel as [|fuel IH]; intros; simpl; [done|].
  case_if; [done|]. by rewrite IH, swap_Permutation.
Qed.

Lemma down_Permutation fuel h i n : down fuel h i n ≡ₚ h.
Proof.
  revert h i. induction fuel as [|fuel IH]; intros; simpl; [done|].
  repeat case_if; try done; by rewrite IH, swap_Permutation.
Qed.

Lemma heap_push_Permutation h x : heap_push h x ≡ₚ x :: h.
Proof. unfold heap_push. rewrite up_Permutation. by rewrite Permutation_app_comm. Qed.

Lemma lesser_child_range h i n : 2 * i + 1 < n ->
  i < lesser_child h i n < n /\ (lesser_child h i n = 2 * i + 1 \/ lesser_child h i n = 2 * i + 2).
Proof.
  intros. unfold lesser_child. destruct (Nat.ltb_spec (2 * i + 1 + 1) n); cbn [andb]; [case_if|]; lia.
Qed.

(** Elements from [n] on stay where they are. *)
Lemma lookup_down fuel h i n k : i < n -> n <= k -> n <= length h -> down fuel h i n !! k = h !! k.
Proof.
  revert h i. induction fuel as [|fuel IH]; intros h i Hi Hk Hl; cbn -[Nat.mul]; [done|].
  destruct (Nat.leb_spec n (2 * i + 1)); [done|].
  pose proof (lesser_child_range h i n ltac:(lia)).
  case_if; [done|]. rewrite IH by (rewrite ?length_swap; lia).
  rewrite lookup_swap by lia. repeat case_decide; lia || done.
Qed.

End heap.

(** ** Heap order *)
Definition le {A} (less : A -> A -> bool) (x y : A) : Prop := less y x = false.

(** [less] is a strict order whose complement is transitive. *)
Class TotalLess {A} (less : A -> A -> bool) : Prop := {
  less_irrefl : forall x, less x x = false;
  less_trans : forall x y z, less x y = true -> less y z = true -> less x z = true;
  le_trans' : forall x y z, le less x y -> le less y z -> le less x z;
}.

Section order.
Context {A : Type} (less : A -> A -> bool) `{!TotalLess less}.
Implicit Types (h : list A) (i j k n : nat) (x y : A).
Notation le := (le less).
Notation less_at := (less_at less).
Notation lesser_child := (lesser_child less).
Notation up := (up less).
Notation down := (down less).
Notation heap_push := (heap_push less).
Notation heap_pop := (heap_pop less).

(** The order along one edge of the tree, and along all edges among the first
    [n] elements. *)
Definition edge_ok h i k : Prop :=
  forall x y, h !! i = Some x -> h !! k = Some y -> le x y.
Definition ordered n h : Prop := forall k, 0 < k -> k < n -> edge_ok h (parent k) k.

Lemma le_refl x : le x x.
Proof. apply less_irrefl. Qed.

Lemma less_le x y : less x y = true -> le x y.
Proof.
  intros Hl. unfold le. destruct (less y x) eqn:E; [|done].
  pose proof (less_trans _ _ _ Hl E) as Hx. by rewrite less_irrefl in Hx.
Qed.

Lemma parent_lt k : 0 < k -> parent k < k.
Proof. intros. unfold parent. pose proof (Nat.Div0.div_le_upper_bound (k - 1) 2 (k - 1)). lia. Qed.

Lemma parent_child k i : 0 < k -> parent k = i <-> k = 2 * i + 1 \/ k = 2 * i + 2.
Proof.
  intros Hk. unfold parent. pose proof (Nat.div_mod_eq (k - 1) 2).
  pose proof (Nat.mod_upper_bound (k - 1) 2 ltac:(lia)). lia.
Qed.

Lemma ordered_root n h k x y : ordered n h -> n <= length h -> k < n ->
  h !! 0 = Some x -> h !! k = Some y -> le x y.
Proof.
  intros Ho Hn. revert y. induction k as [k IH] using lt_wf_ind. intros y Hk Hx Hy.
  destruct (decide (k = 0)) as [->|]; [simplify_eq; apply le_refl|].
  pose proof (parent_lt k ltac:(lia)).
  destruct (lookup_lt_is_Some_2 h (parent k)) as [z Hz]; [lia|].
  apply le_trans' with z; [apply (IH (parent k)); eauto; lia|].
  by apply (Ho k ltac:(lia) Hk).
Qed.

(** ** Sifting restores the order *)
Lemma edge_swap h i j a b : i < length h -> j < length h ->
  edge_ok h (if decide (a = i) then j else if decide (a = j) then i else a)
            (if decide (b = i) then j else if decide (b = j) then i else b) ->
  edge_ok (swap i j h) a b.
Proof. intros Hi Hj He x y. rewrite !lookup_swap by done. apply He. Qed.

Lemma edge_less h i j : less_at h j i = true -> edge_ok h j i.
Proof.
  unfold less_at. intros Hl x y Hx Hy. rewrite Hx, Hy in Hl. by apply less_le.
Qed.

Lemma edge_not_less h i j : less_at h j i = false -> edge_ok h i j.
Proof. unfold less_at. intros Hl x y Hx Hy. by rewrite Hx, Hy in Hl. Qed.

Lemma edge_trans h i j k : is_Some (h !! j) -> edge_ok h i j -> edge_ok h j k -> edge_ok h i k.
Proof. intros [z Hz] H1 H2 x y Hx Hy. apply le_trans' with z; eauto. Qed.

(** Only the edge above [j] may be out of order, and the children of [j] are
    in order with the parent of [j]. *)
Definition up_inv h j : Prop :=
  (forall k, 0 < k -> k < length h -> k <> j -> edge_ok h (parent k) k) /\
  (forall k, 0 < k -> k < length h -> parent k = j -> 0 < j -> edge_ok h (parent j) k).

Lemma up_step h j : 0 < j -> j < length h -> up_inv h j -> less_at h j (parent j) = true ->
  up_inv (swap (parent j) j h) (parent j).
Proof.
  intros Hj Hl [H1 H2] Hless. pose proof (parent_lt j Hj) as Hp.
  assert (edge_ok h j (parent j)) as Hd by by apply edge_less.
  assert (forall k, 0 < k -> k <> j -> k < length h -> parent k = parent j -> edge_ok h j k) as Hside.
  { intros k Hk Hkj Hkl Hpk. apply edge_trans with (parent j); [apply lookup_lt_is_Some; lia | done |].
    rewrite <- Hpk. by apply H1. }
  split; intros k Hk; rewrite length_swap; intros Hkl.
  - intros Hkp. pose proof (parent_lt k Hk). apply edge_swap; [lia..|].
    repeat (case_decide; subst; try lia); eauto.
  - intros Hpk Hp0. pose proof (parent_lt k Hk). pose proof (parent_lt (parent j) Hp0).
    assert (edge_ok h (parent (parent j)) (parent j)) by (apply H1; lia).
    apply edge_swap; [lia..|]. repeat (case_decide; subst; try lia); [done|].
    apply edge_trans with (parent j); [apply lookup_lt_is_Some; lia | done |].
    rewrite <- Hpk. apply H1; lia.
Qed.

Lemma up_ordered fuel h j : j < fuel -> j < length h -> up_inv h j ->
  ordered (length h) (up fuel h j).
Proof.
  revert h j. induction fuel as [|fuel IH]; intros h j Hf Hl Hi; [lia|]. cbn [up].
  destruct (decide (j = 0)) as [->|Hj].
  { intros k Hk Hkl. apply Hi; lia. }
  pose proof (parent_lt j ltac:(lia)).
  destruct (Nat.eqb_spec (parent j) j); [lia|]. cbn [orb].
  destruct (less_at h j (parent j)) eqn:Hless; cbn [negb].
  - rewrite <- (length_swap (parent j) j h). apply IH; rewrite ?length_swap; [lia..|].
    by apply up_step; [lia|..].
  - intros k Hk Hkl. destruct (decide (k = j)) as [->|]; [by apply edge_not_less | by apply Hi].
Qed.

(** Only the edges below [i] may be out of order, and the children of [i] are in
    order with the parent of [i]. *)
Definition down_inv n h i : Prop :=
  (forall k, 0 < k -> k < n -> parent k <> i -> edge_ok h (parent k) k) /\
  (forall k, 0 < k -> k < n -> parent k = i -> 0 < i -> edge_ok h (parent i) k).

Lemma lesser_child_le h i n k : 2 * i + 1 < n -> n <= length h -> 0 < k -> k < n -> parent k = i ->
  edge_ok h (lesser_child h i n) k.
Proof.
  intros Hc Hn Hk Hkn Hp. apply parent_child in Hp; [|done]. unfold lesser_child.
  destruct (Nat.ltb_spec (2 * i + 1 + 1) n); cbn [andb].
  - destruct (less_at h (2 * i + 1 + 1) (2 * i + 1)) eqn:Hless.
    + destruct Hp as [->| ->]; [by apply edge_less|].
      replace (2 * i + 1 + 1) with (2 * i + 2) by lia. intros x y Hx Hy. simplify_eq. apply le_refl.
    + destruct Hp as [->| ->]; [intros x y Hx Hy; simplify_eq; apply le_refl|].
      replace (2 * i + 2) with (2 * i + 1 + 1) by lia. by apply edge_not_less.
  - replace k with (2 * i + 1) by lia. intros x y Hx Hy. simplify_eq. apply le_refl.
Qed.

Lemma down_step n h i : 2 * i + 1 < n -> n <= length h -> down_inv n h i ->
  less_at h (lesser_child h i n) i = true ->
  down_inv n (swap i (lesser_child h i n) h) (lesser_child h i n).
Proof.
  intros Hc Hn [H1 H2] Hless. pose proof (lesser_child_le h i n) as Hmin.
  destruct (lesser_child_range less h i n Hc) as [Hr Hj]. set (j := lesser_child h i n) in *.
  assert (parent j = i) as Hpj by (apply parent_child; lia).
  apply edge_less in Hless. clearbody j.
  split; intros k Hk Hkn Hp; pose proof (parent_lt k Hk).
  - apply edge_swap; [lia..|]. repeat (case_decide; subst; try lia); eauto.
    apply H2; lia.
  - intros _. apply edge_swap; [lia..|]. repeat (case_decide; subst; try lia).
    apply H1; lia.
Qed.

Lemma down_ordered fuel n h i : n <= i + fuel -> i < n -> n <= length h -> down_inv n h i ->
  ordered n (down fuel h i n).
Proof.
  revert h i. induction fuel as [|fuel IH]; intros h i Hf Hi Hn Hinv; [lia|]. cbn [down].
  destruct (Nat.leb_spec n (2 * i + 1)).
  { intros k Hk Hkn. apply Hinv; [done..|]. intros Hp%parent_child; lia. }
  pose proof (lesser_child_range less h i n ltac:(lia)).
  destruct (less_at h (lesser_child h i n) i) eqn:Hless; cbn [negb].
  - apply IH; rewrite ?length_swap; [lia..|]. by apply down_step.
  - intros k Hk Hkn. destruct (decide (parent k = i)) as [Hp|]; [|by apply Hinv].
    rewrite Hp. apply edge_trans with (lesser_child h i n).
    + apply lookup_lt_is_Some. lia.
    + by apply edge_not_less.
    + by apply lesser_child_le.
Qed.

(** ** heap.Push and heap.Pop *)
Definition heap_ok h : Prop := ordered (length h) h.

Lemma heap_ok_nil : heap_ok [].
Proof. intros k _ Hk. simpl in Hk. lia. Qed.

Lemma heap_push_ok h x : heap_ok h -> heap_ok (heap_push h x).
Proof.
  intros Ho. unfold heap_ok, heap_push. rewrite (Permutation_length (up_Permutation _ _ _ _)).
  apply up_ordered; rewrite ?length_app; simpl; [lia..|]. split; intros k Hk; rewrite length_app; simpl; intros Hl.
  - intros Hne. pose proof (parent_lt k Hk). intros a b Ha Hb.
    rewrite lookup_app_l in Ha by lia. rewrite lookup_app_l in Hb by lia. eapply Ho; [..|done|done]; lia.
  - intros Hp _. pose proof (parent_lt k Hk). lia.
Qed.

Lemma pop_last h n x : length h = S n -> heap_ok h -> down n (swap 0 n h) 0 n !! n = Some x ->
  h !! 0 = Some x.
Proof.
  intros Hlen Ho Hz. destruct (decide (n = 0)) as [->|].
  - cbn [down] in Hz. rewrite lookup_swap in Hz by (rewrite Hlen; lia). by destruct (decide _).
  - rewrite lookup_down in Hz by (rewrite ?length_swap; lia).
    rewrite lookup_swap in Hz by lia. by repeat case_decide.
Qed.

Lemma pop_rest h n : length h = S n -> heap_ok h -> ordered n (down n (swap 0 n h) 0 n).
Proof.
  intros Hlen Ho. destruct (decide (n = 0)) as [->|]; [intros k; lia|].
  apply down_ordered; rewrite ?length_swap; [lia..|].
  split; [|lia]. intros j Hj Hjn Hpj. apply edge_swap; [lia..|].
  pose proof (parent_lt j Hj). repeat (case_decide; try lia). apply Ho; lia.
Qed.

(** Popping yields a least element and leaves the others in heap order. *)
Lemma heap_pop_spec h x h' : heap_ok h -> heap_pop h = Some (x, h') ->
  h ≡ₚ x :: h' /\ heap_ok h' /\ Forall (le x) h'.
Proof.
  intros Ho Hpop. assert (exists n, length h = S n /\ down n (swap 0 n h) 0 n !! n = Some x /\
    h' = take n (down n (swap 0 n h) 0 n)) as (n & Hlen & Hz & ->).
  { unfold heap_pop in Hpop. destruct h as [|r t]; [done|]. exists (length (r :: t) - 1).
    split; [simpl; lia|]. destruct (down _ _ _ _ !! _); by simplify_option_eq. }
  clear Hpop. pose proof (pop_last _ _ _ Hlen Ho Hz) as Hroot. pose proof (pop_rest _ _ Hlen Ho) as Hg.
  set (g := down n (swap 0 n h) 0 n) in *.
  assert (g ≡ₚ h) as Hperm by (subst g; by rewrite down_Permutation, swap_Permutation).
  pose proof (Permutation_length Hperm) as Hgl.
  assert (h ≡ₚ x :: take n g) as Hp.
  { rewrite <- Hperm, <- (take_drop n g) at 1. rewrite (drop_S g x n Hz), drop_ge by lia.
    by rewrite Permutation_app_comm. }
  split_and!; [done | | ].
  - intros k Hk Hkn. rewrite length_take in Hkn. pose proof (parent_lt k Hk). intros a b Ha Hb.
    rewrite lookup_take_lt in Ha, Hb by lia. eapply Hg; [..|done|done]; lia.
  - apply Forall_forall. intros y Hy. assert (y ∈ h) as Hyh by (rewrite Hp; by right).
    apply list_elem_of_lookup in Hyh as [k Hk]. pose proof (lookup_lt_Some _ _ _ Hk).
    by eapply ordered_root with (n := length h) (k := k).
Qed.

Lemma heap_pop_Some h : h <> [] -> exists x h', heap_pop h = Some (x, h').
Proof.
  intros Hne. unfold heap_pop. destruct h as [|r t] eqn:Eh; [done|]. rewrite <- Eh.
  destruct (lookup_lt_is_Some_2 (down (length h - 1) (swap 0 (length h - 1) h) 0 (length h - 1)) (length h - 1)) as [z ->].
  { rewrite (Permutation_length (down_Permutation _ _ _ _ _)), length_swap. subst h. simpl. lia. }
  simpl. eauto.
Qed.
End order.
