(* ===== verification/GoStrings.v ===== *)
(** * Go strings and byte slices

    A Go string is an immutable byte sequence and is modelled by [string]
    (each [ascii] is one byte); a [[]byte] used as binary data is modelled by
    [list byte].  This file holds the parts of Go's strings, unicode/utf8,
    encoding/hex, encoding/base32 and encoding/binary packages the components
    use, with the lemmas they share. *)
From Stdlib Require Import Ascii Strings.Byte ZArith Lia.
From S2P Require Import Prelude.
#[local] Open Scope Z_scope.

#[export] Instance byte_eq_dec : EqDecision byte := Byte.byte_eq_dec.

Definition len (s : string) : Z := Z.of_nat (String.length s).
Definition blen (b : list byte) : Z := Z.of_nat (length b).

Definition code (c : ascii) : Z := Z.of_N (N_of_ascii c).
Definition between (lo hi : Z) (c : ascii) : bool := (lo <=? code c) && (code c <=? hi).

Definition is_lower (c : ascii) : bool := between 97 122 c.
Definition is_upper (c : ascii) : bool := between 65 90 c.
Definition is_digit (c : ascii) : bool := between 48 57 c.

Fixpoint str_forallb (p : ascii -> bool) (s : string) : bool :=
  match s with
  | EmptyString => true
  | String c s' => p c && str_forallb p s'
  end.

Fixpoint str_existsb (p : ascii -> bool) (s : string) : bool :=
  match s with
  | EmptyString => false
  | String c s' => p c || str_existsb p s'
  end.

Definition ceq (c d : ascii) : bool := Ascii.eqb c d.
Definition str_eqb (a b : string) : bool := String.eqb a b.

(** [strings.ContainsRune(s, 0)], on the bytes. *)
Definition contains_char (c : ascii) (s : string) : bool := str_existsb (ceq c) s.

(** [strings.HasPrefix], [strings.HasSuffix] *)
Fixpoint has_prefix (s p : string) : bool :=
  match p, s with
  | EmptyString, _ => true
  | String _ _, EmptyString => false
  | String d p', String c s' => ceq c d && has_prefix s' p'
  end.

Fixpoint str_drop (n : nat) (s : string) : string :=
  match n, s with
  | O, _ => s
  | S n', String _ s' => str_drop n' s'
  | S _, EmptyString => EmptyString
  end.

Fixpoint str_take (n : nat) (s : string) : string :=
  match n, s with
  | O, _ => EmptyString
  | S n', String c s' => String c (str_take n' s')
  | S _, EmptyString => EmptyString
  end.

Definition has_suffix (s p : string) : bool :=
  Nat.leb (String.length p) (String.length s) &&
  str_eqb (str_drop (String.length s - String.length p) s) p.

(** [strings.Split(s, sep)] for a one-byte separator: never empty. *)
Fixpoint split_on (sep : ascii) (s : string) : list string :=
  match s with
  | EmptyString => [EmptyString]
  | String c s' =>
      if ceq c sep then EmptyString :: split_on sep s'
      else match split_on sep s' with
           | [] => [String c EmptyString]
           | p :: ps => String c p :: ps
           end
  end.

Fixpoint join_with (sep : ascii) (l : list string) : string :=
  match l with
  | [] => EmptyString
  | [p] => p
  | p :: ps => String.append p (String sep (join_with sep ps))
  end.

(** ** unicode/utf8

    [utf8_valid] is [utf8.ValidString]: the byte sequences of RFC 3629
    (no surrogates, no overlong forms, nothing above U+10FFFF). *)
Definition cont (c : ascii) : bool := between 128 191 c.

Fixpoint utf8_valid (s : string) : bool :=
  match s with
  | EmptyString => true
  | String a s1 =>
      if code a <? 128 then utf8_valid s1
      else match s1 with
      | EmptyString => false
      | String b s2 =>
          if between 194 223 a then cont b && utf8_valid s2
          else match s2 with
          | EmptyString => false
          | String c s3 =>
              if code a =? 224 then between 160 191 b && cont c && utf8_valid s3
              else if code a =? 237 then between 128 159 b && cont c && utf8_valid s3
              else if between 225 239 a then cont b && cont c && utf8_valid s3
              else match s3 with
              | EmptyString => false
              | String d s4 =>
                  if code a =? 240 then between 144 191 b && cont c && cont d && utf8_valid s4
                  else if code a =? 244 then between 128 143 b && cont c && cont d && utf8_valid s4
                  else if between 241 243 a then cont b && cont c && cont d && utf8_valid s4
                  else false
              end
          end
      end
  end.

(** ** encoding/hex *)
Definition hex_digit (n : N) : ascii := ascii_of_N (if (n <? 10)%N then 48 + n else 87 + n).

Fixpoint hex_encode (b : list byte) : string :=
  match b with
  | [] => EmptyString
  | x :: b' =>
      let n := Byte.to_N x in
      String (hex_digit (n / 16)) (String (hex_digit (n mod 16)) (hex_encode b'))
  end.

Definition hex_value (c : ascii) : option N :=
  if is_digit c then Some (N_of_ascii c - 48)%N
  else if between 97 102 c then Some (N_of_ascii c - 87)%N
  else if between 65 70 c then Some (N_of_ascii c - 55)%N
  else None.

Fixpoint hex_decode (s : string) : option (list byte) :=
  match s with
  | EmptyString => Some []
  | String _ EmptyString => None
  | String h (String l s') =>
      match hex_value h, hex_value l, hex_decode s' with
      | Some x, Some y, Some r =>
          match Byte.of_N (16 * x + y) with Some b => Some (b :: r) | None => None end
      | _, _, _ => None
      end
  end.

(** The canonical lower-case hexadecimal form of 32 bytes, the check the
    sources write as [hex.DecodeString] plus re-encoding. *)
Definition canonical_hex32 (s : string) : bool :=
  match hex_decode s with
  | Some b => (blen b =? 32) && str_eqb (hex_encode b) s
  | None => false
  end.

(** ** encoding/base64: RawURLEncoding *)
Definition b64_char (n : N) : ascii :=
  ascii_of_N (if n <? 26 then 65 + n else if n <? 52 then 71 + n else if n <? 62 then n - 4
              else if n =? 62 then 45 else 95)%N.

Fixpoint base64url (b : list byte) : string :=
  match b with
  | [] => EmptyString
  | [x] => let x := Byte.to_N x in
      String (b64_char (x / 4)) (String (b64_char (16 * (x mod 4))) EmptyString)
  | [x; y] => let x := Byte.to_N x in let y := Byte.to_N y in
      String (b64_char (x / 4)) (String (b64_char (16 * (x mod 4) + y / 16))
        (String (b64_char (4 * (y mod 16))) EmptyString))
  | x :: y :: z :: b' =>
      let x := Byte.to_N x in let y := Byte.to_N y in let z := Byte.to_N z in
      String (b64_char (x / 4)) (String (b64_char (16 * (x mod 4) + y / 16))
        (String (b64_char (4 * (y mod 16) + z / 64)) (String (b64_char (z mod 64)) (base64url b'))))
  end%N.

(** ** encoding/binary: big-endian integers *)
Fixpoint be_encode (n : nat) (z : Z) : list byte :=
  match n with
  | O => []
  | S n' => be_encode n' (z / 256) ++ [default x00 (Byte.of_N (Z.to_N (z mod 256)))]
  end.

Definition be_step (acc : Z) (b : byte) : Z := acc * 256 + Z.of_N (Byte.to_N b).
Definition be_decode (b : list byte) : Z := fold_left be_step b 0.

(** ** Lemmas *)
#[global] Arguments String.append !_ _ / : simpl nomatch.
#[global] Arguments str_take !_ !_ / : simpl nomatch.
#[global] Arguments str_drop !_ !_ / : simpl nomatch.

Lemma str_eqb_eq a b : str_eqb a b = true <-> a = b.
Proof. apply String.eqb_eq. Qed.

Lemma str_eqb_refl a : str_eqb a a = true.
Proof. by apply str_eqb_eq. Qed.

Lemma str_eqb_neq a b : str_eqb a b = false <-> a <> b.
Proof. apply String.eqb_neq. Qed.

Lemma ceq_eq c d : ceq c d = true <-> c = d.
Proof. apply Ascii.eqb_eq. Qed.

Lemma len_nonneg s : 0 <= len s.
Proof. unfold len. lia. Qed.

Lemma length_append a b :
  String.length (String.append a b) = (String.length a + String.length b)%nat.
Proof. induction a as [|c a IH]; simpl; [done|]. by rewrite IH. Qed.

Lemma len_append a b : len (String.append a b) = len a + len b.
Proof. unfold len. rewrite length_append. lia. Qed.

Lemma append_nil_r s : String.append s "" = s.
Proof. induction s as [|c s IH]; simpl; [done|]. by rewrite IH. Qed.

Lemma append_assoc a b c :
  String.append (String.append a b) c = String.append a (String.append b c).
Proof. induction a as [|x a IH]; simpl; [done|]. by rewrite IH. Qed.

Lemma str_take_append a b : str_take (String.length a) (String.append a b) = a.
Proof. induction a as [|c a IH]; simpl; [by destruct b|]. by rewrite IH. Qed.

Lemma str_drop_append a b : str_drop (String.length a) (String.append a b) = b.
Proof. induction a as [|c a IH]; simpl; [by destruct b|]. done. Qed.

Lemma has_prefix_append p s : has_prefix (String.append p s) p = true.
Proof.
  induction p as [|c p IH]; simpl; [by destruct s|].
  apply andb_true_iff. by rewrite ceq_eq.
Qed.

Lemma has_prefix_spec s p :
  has_prefix s p = true <-> exists r, s = String.append p r.
Proof.
  split.
  - revert s. induction p as [|d p IH]; intros [|c s] H; simpl in *; try done;
      [by exists ""| by exists (String c s)|].
    apply andb_true_iff in H as [->%ceq_eq [r ->]%IH]. by exists r.
  - intros [r ->]. apply has_prefix_append.
Qed.

Lemma str_forallb_append p a b :
  str_forallb p (String.append a b) = str_forallb p a && str_forallb p b.
Proof. induction a as [|c a IH]; simpl; [done|]. by rewrite IH, andb_assoc. Qed.

Lemma split_on_cons sep s : exists p ps, split_on sep s = p :: ps.
Proof.
  induction s as [|c s (p & ps & IH)]; simpl; [eauto|].
  destruct (ceq c sep); [eauto|]. rewrite IH. eauto.
Qed.

(** Splitting and joining are inverse: the round trip of every dotted name. *)
Lemma join_split sep s : join_with sep (split_on sep s) = s.
Proof.
  induction s as [|c s IH]; simpl; [done|].
  destruct (split_on_cons sep s) as (p & ps & Hs).
  destruct (ceq c sep) eqn:Hc.
  - apply ceq_eq in Hc as ->. rewrite Hs in *. simpl in *. by rewrite IH.
  - rewrite Hs in *. destruct ps; simpl in *; by rewrite IH.
Qed.

Lemma split_on_single sep s :
  contains_char sep s = false -> split_on sep s = [s].
Proof.
  unfold contains_char. induction s as [|c s IH]; simpl; [done|].
  intros [Hc Hs]%orb_false_iff. unfold ceq in *. rewrite Ascii.eqb_sym, Hc.
  by rewrite IH.
Qed.

Lemma split_join_cons sep p s :
  contains_char sep p = false ->
  split_on sep (String.append p (String sep s)) = p :: split_on sep s.
Proof.
  unfold contains_char. induction p as [|c p IH]; simpl.
  - intros _. unfold ceq. by rewrite Ascii.eqb_refl.
  - intros [Hc Hs]%orb_false_iff. unfold ceq in *. rewrite Ascii.eqb_sym, Hc.
    by rewrite IH.
Qed.

(** *** Big-endian integers *)
Lemma length_be_encode n z : length (be_encode n z) = n.
Proof.
  revert z. induction n as [|n IH]; intros z; simpl; [done|].
  rewrite length_app, IH. simpl. lia.
Qed.

Lemma byte_of_Z_round z :
  Z.of_N (Byte.to_N (default x00 (Byte.of_N (Z.to_N (z mod 256))))) = z mod 256.
Proof.
  pose proof (Z.mod_pos_bound z 256). pose proof (Byte.to_of_N_option_map (Z.to_N (z mod 256))) as Hb.
  destruct (Z.to_N (z mod 256) <=? 255)%N eqn:Hle; [|apply N.leb_gt in Hle; lia].
  destruct (Byte.of_N _) as [b|]; simpl in *; [|done]. injection Hb as ->. lia.
Qed.

Lemma be_decode_snoc b x : be_decode (b ++ [x]) = be_decode b * 256 + Z.of_N (Byte.to_N x).
Proof. unfold be_decode. by rewrite fold_left_app. Qed.

Lemma be_round n z : 0 <= z < 256 ^ Z.of_nat n -> be_decode (be_encode n z) = z.
Proof.
  revert z. induction n as [|n IH]; intros z Hz.
  - change (256 ^ Z.of_nat 0) with 1 in Hz. assert (z = 0) as -> by lia. done.
  - simpl. rewrite be_decode_snoc, byte_of_Z_round.
    rewrite Nat2Z.inj_succ, Z.pow_succ_r in Hz by lia.
    rewrite IH by (split; [apply Z.div_pos; lia | apply Z.div_lt_upper_bound; lia]).
    pose proof (Z.div_mod z 256). lia.
Qed.

Lemma to_N_lt b : (Byte.to_N b < 256)%N.
Proof. by destruct b. Qed.

Lemma be_decode_range b : 0 <= be_decode b < 256 ^ Z.of_nat (length b).
Proof.
  induction b as [|x b IH] using rev_ind; [done|].
  rewrite be_decode_snoc, length_app, Nat.add_comm. simpl length.
  rewrite Nat2Z.inj_succ, Z.pow_succ_r by lia. pose proof (to_N_lt x). lia.
Qed.

Lemma be_encode_decode b : be_encode (length b) (be_decode b) = b.
Proof.
  induction b as [|x b IH] using rev_ind; [done|].
  rewrite be_decode_snoc, length_app, Nat.add_comm. simpl. pose proof (to_N_lt x).
  rewrite Z.div_add_l, Z.div_small, Z.add_0_r, IH by lia. f_equal. f_equal.
  rewrite Z.add_comm, Z.mod_add, Z.mod_small by lia.
  by rewrite N2Z.id, Byte.of_to_N.
Qed.

(** *** Conversions between strings and byte slices *)
Definition bytes_of (s : string) : list byte := String.list_byte_of_string s.
Definition string_of (b : list byte) : string := String.string_of_list_byte b.

Lemma string_of_bytes_of s : string_of (bytes_of s) = s.
Proof. apply String.string_of_list_byte_of_string. Qed.

Lemma bytes_of_string_of b : bytes_of (string_of b) = b.
Proof. apply String.list_byte_of_string_of_list_byte. Qed.

Lemma bytes_of_cons c s : bytes_of (String c s) = byte_of_ascii c :: bytes_of s.
Proof. done. Qed.

Lemma bytes_of_append a b : bytes_of (String.append a b) = bytes_of a ++ bytes_of b.
Proof.
  induction a as [|c a IH]; [done|].
  change (String.append (String c a) b) with (String c (String.append a b)).
  by rewrite !bytes_of_cons, IH.
Qed.

Lemma length_bytes_of s : length (bytes_of s) = String.length s.
Proof. induction s as [|c s IH]; [done|]. rewrite bytes_of_cons. simpl. by rewrite IH. Qed.

Lemma blen_bytes_of s : blen (bytes_of s) = len s.
Proof. unfold blen, len. by rewrite length_bytes_of. Qed.

Lemma bytes_of_inj a b : bytes_of a = bytes_of b -> a = b.
Proof. intros H. by rewrite <- (string_of_bytes_of a), H, string_of_bytes_of. Qed.

#[export] Hint Resolve len_nonneg str_eqb_refl : pagnet.
#[export] Hint Rewrite len_append blen_bytes_of string_of_bytes_of bytes_of_string_of
  length_be_encode : pagnet.

Lemma length_hex_encode b : String.length (hex_encode b) = (2 * length b)%nat.
Proof. induction b as [|x b IH]; [done|]. cbn [hex_encode String.length length]. lia. Qed.

Lemma length_base64url_24 b : length b = 24%nat -> len (base64url b) = 32.
Proof.
  do 24 (destruct b as [|? b]; [done|]). destruct b; [|done]. intros _.
  unfold len. reflexivity.
Qed.
