(* ===== verification/FabricRef.v ===== *)
(** * Canonical references of the fabric (package src/fabric)

    - [Errors]: fabric.Error and NewError (error.go);
    - [Names]: protocol versions and namespaced names (version.go);
    - [Base32]: the unpadded base32 alphabet of ref.go over Go's encoding/base32;
    - [Ref]: EndpointRef, its printer and its strict parser (ref.go).

    SHA-256 is an interface: the sources use only that its output has 32
    bytes. *)
From Stdlib Require Import Ascii Strings.Byte ZArith Lia.
From S2P Require Import Prelude GoStrings.
#[local] Open Scope Z_scope.

Class Sha256 := {
  sha256 : list byte -> list byte;
  sha256_length : forall b, length (sha256 b) = 32%nat
}.

Module Errors.
(** An ErrorCode is an open string type: the constants, and any other text
    (extensions bring their own codes). *)
Inductive ErrorCode :=
| CodeNotFound | CodeStaleReference | CodeInvalidInput | CodeUnauthenticated
| CodeInterceptorRejected | CodeInterceptorTimeout | CodeTargetUnavailable
| CodeDeadlineExceeded | CodeCancelled | CodeRedirectLoop | CodeExtensionCycle
| CodeInvalidMutation | CodeStaleContinuation | CodeOfferRequired
| CodeProtocolError | CodeUnsupported | CodeOther (code : string).

(** An EffectState is a string too: the constants, and any other text. *)
Inductive EffectState := EffectUnknown | EffectNotStarted | EffectCompleted | EffectOther (effect : string).

Definition code_string (c : ErrorCode) : string :=
  match c with
  | CodeNotFound => "NOT_FOUND" | CodeStaleReference => "STALE_REFERENCE"
  | CodeInvalidInput => "INVALID_INPUT" | CodeUnauthenticated => "UNAUTHENTICATED"
  | CodeInterceptorRejected => "INTERCEPTOR_REJECTED" | CodeInterceptorTimeout => "INTERCEPTOR_TIMEOUT"
  | CodeTargetUnavailable => "TARGET_UNAVAILABLE" | CodeDeadlineExceeded => "DEADLINE_EXCEEDED"
  | CodeCancelled => "CANCELLED" | CodeRedirectLoop => "REDIRECT_LOOP"
  | CodeExtensionCycle => "EXTENSION_CYCLE" | CodeInvalidMutation => "INVALID_MUTATION"
  | CodeStaleContinuation => "STALE_CONTINUATION" | CodeOfferRequired => "OFFER_REQUIRED"
  | CodeProtocolError => "PROTOCOL_ERROR" | CodeUnsupported => "UNSUPPORTED"
  | CodeOther code => code
  end.

Record Error := mkError { err_code : ErrorCode; err_message : string; err_effect : EffectState }.

#[export] Instance code_eq_dec : EqDecision ErrorCode.
Proof. solve_decision. Defined.
#[export] Instance effect_eq_dec : EqDecision EffectState.
Proof. solve_decision. Defined.
#[export] Instance error_eq_dec : EqDecision Error.
Proof. solve_decision. Defined.

Definition max_message : nat := 1024.

(** [for !utf8.ValidString(message) { message = message[:len(message)-1] }],
    on the first [n] bytes of [message]. *)
Fixpoint shrink_to_valid (n : nat) (message : string) : string :=
  match n with
  | O => ""
  | S n' => let m := str_take n message in
            if utf8_valid m then m else shrink_to_valid n' message
  end.

Definition NewError (c : ErrorCode) (message : string) : Error :=
  let message := if utf8_valid message then message else "Invalid error message" in
  let message := if Nat.ltb max_message (String.length message)
                 then shrink_to_valid max_message message else message in
  {| err_code := c; err_message := message; err_effect := EffectUnknown |}.

Lemma length_str_take n s : (String.length (str_take n s) <= n)%nat.
Proof. revert s. induction n as [|n IH]; intros [|c s]; simpl; try lia. specialize (IH s). lia. Qed.

Lemma shrink_to_valid_spec n s :
  utf8_valid (shrink_to_valid n s) = true /\
  (String.length (shrink_to_valid n s) <= n)%nat.
Proof.
  induction n as [|n IH]; [done|]. cbn [shrink_to_valid].
  destruct (utf8_valid (str_take (S n) s)) eqn:E.
  - split; [done|]. apply length_str_take.
  - destruct IH. split; [done | lia].
Qed.
End Errors.
Export Errors.

Module Names.
(** [len(s) > 0 && len(s) <= n && utf8.ValidString(s) && !strings.ContainsRune(s, 0)],
    the bounded text check shared by the durable stores. *)
Definition validText (s : string) (n : Z) : bool :=
  (0 <? len s) && (len s <=? n) && utf8_valid s && negb (contains_char zero s).

(** Names are checked rune by rune in the source; every rune that is not one
    of the accepted ASCII characters, in particular every byte above 0x7f,
    is refused, so the check is the same on bytes. *)
Definition name_char (c : ascii) : bool :=
  is_lower c || is_digit c || ceq c "_" || ceq c "-".

Definition name_part (part : string) : bool :=
  match part with
  | EmptyString => false
  | String c _ => is_lower c && str_forallb name_char part
  end.

Definition ValidNamespacedName (s : string) : bool :=
  negb (len s =? 0) && (len s <=? 256) && contains_char "." s &&
  forallb name_part (split_on "." s).

Definition version_part (p : string) : bool :=
  negb (str_eqb p "") && (len p <=? 9) &&
  negb ((1 <? len p) && has_prefix p "0") && str_forallb is_digit p.

(** [strconv.ParseUint(s, 10, _)] on a digit string. *)
Fixpoint parse_digits (acc : Z) (s : string) : Z :=
  match s with
  | EmptyString => acc
  | String c s' => parse_digits (acc * 10 + (code c - 48)) s'
  end.

Definition ProtocolVersion_Validate (v : string) : result Error unit :=
  match split_on "." v with
  | [major; minor] =>
      let? _ := guard (version_part major && version_part minor)
                  (NewError CodeProtocolError "Invalid protocol version") in
      let? _ := guard (parse_digits 0 major <? 2 ^ 32)
                  (NewError CodeProtocolError "Invalid protocol version") in
      guard (parse_digits 0 major =? 1)
        (NewError CodeUnsupported "Unsupported protocol major")
  | _ => Err (NewError CodeProtocolError "Invalid protocol version")
  end.

Definition CurrentProtocolVersion : string := "1.0".
End Names.
Export Names.

Module Identity.
(** fabric.Principal: compared as a whole everywhere. *)
Record Principal := mkPrincipal { p_Ref : string; p_Kind : string; p_Issuer : string }.

#[export] Instance principal_eq_dec : EqDecision Principal.
Proof. solve_decision. Defined.
#[export] Instance principal_countable : Countable Principal.
Proof.
  apply (inj_countable' (fun p => (p_Ref p, p_Kind p, p_Issuer p))
           (fun t => mkPrincipal t.1.1 t.1.2 t.2)).
  by intros [].
Qed.
End Identity.
Export Identity.

Module Base32.
Definition alphabet : string := "abcdefghijklmnopqrstuvwxyz234567".

Definition byte_bits (b : byte) : list bool :=
  (N.testbit (Byte.to_N b)) <$> [7; 6; 5; 4; 3; 2; 1; 0]%N.

Definition bits_value (l : list bool) : N :=
  fold_left (fun acc b => 2 * acc + N.b2n b)%N l 0%N.

(** The 5-bit groups of a bit string, the last one padded with zeros. *)
Fixpoint groups5 (l : list bool) : list (list bool) :=
  match l with
  | [] => []
  | a :: b :: c :: d :: e :: r => [a; b; c; d; e] :: groups5 r
  | _ => [take 5 (l ++ [false; false; false; false])]
  end.

(** Whole bytes of a bit string; a partial last byte is dropped. *)
Fixpoint groups8 (l : list bool) : list (list bool) :=
  match l with
  | a :: b :: c :: d :: e :: f :: g :: h :: r => [a; b; c; d; e; f; g; h] :: groups8 r
  | _ => []
  end.

Definition b32_char (n : N) : ascii :=
  if (n <? 26)%N then ascii_of_N (97 + n) else ascii_of_N (24 + n).

Definition b32_value (c : ascii) : option N :=
  if is_lower c then Some (N_of_ascii c - 97)%N
  else if between 50 55 c then Some (N_of_ascii c - 24)%N
  else None.

Definition value_bits (n : N) : list bool := (N.testbit n) <$> [4; 3; 2; 1; 0]%N.
Definition bits_byte (l : list bool) : byte := default x00 (Byte.of_N (bits_value l)).

Fixpoint str_of (l : list ascii) : string :=
  match l with [] => "" | c :: l' => String c (str_of l') end.

Definition EncodeToString (b : list byte) : string :=
  str_of ((fun g => b32_char (bits_value g)) <$> groups5 (b ≫= byte_bits)).

Fixpoint decode_bits (s : string) : option (list bool) :=
  match s with
  | "" => Some []
  | String c s' =>
      match b32_value c, decode_bits s' with
      | Some n, Some r => Some (value_bits n ++ r)
      | _, _ => None
      end
  end.

Definition DecodeString (s : string) : option (list byte) :=
  (fun l => bits_byte <$> groups8 l) <$> decode_bits s.

(** *** The codec's laws *)
Definition group5_ok (g : list bool) : Prop := length g = 5%nat.

Lemma groups5_ind (P : list bool -> Prop) :
  (forall l, (length l < 5)%nat -> P l) ->
  (forall a b c d e r, P r -> P (a :: b :: c :: d :: e :: r)) -> forall l, P l.
Proof.
  intros Hs Hc l. remember (length l) as n eqn:Hn. revert l Hn.
  induction (lt_wf n) as [n _ IH]. intros l ->.
  destruct (decide (length l < 5)%nat) as [?|Hge]; [by apply Hs|].
  destruct l as [|a [|b [|c [|d [|e r]]]]]; simpl in *; try lia.
  apply Hc. apply (IH (length r)); [lia|done].
Qed.

Lemma groups5_ok l : Forall group5_ok (groups5 l).
Proof.
  induction l as [l Hl|a b c d e r IH] using groups5_ind.
  - destruct l as [|a [|b [|c [|d [|e r]]]]]; simpl in *; try lia; repeat constructor.
  - simpl. constructor; [done | exact IH].
Qed.

Lemma groups5_concat l :
  exists pad, concat (groups5 l) = l ++ pad /\ (length pad < 5)%nat.
Proof.
  induction l as [l Hl|a b c d e r (pad & IH & Hp)] using groups5_ind.
  - destruct l as [|a [|b [|c [|d [|e r]]]]]; simpl in *; try lia.
    + exists []; split; [done | simpl; lia].
    + exists [false; false; false; false]; split; [done | simpl; lia].
    + exists [false; false; false]; split; [done | simpl; lia].
    + exists [false; false]; split; [done | simpl; lia].
    + exists [false]; split; [done | simpl; lia].
  - exists pad. simpl. by rewrite IH.
Qed.

Lemma length_groups5 l : length (groups5 l) = ((length l + 4) / 5)%nat.
Proof.
  induction l as [l Hl|a b c d e r IH] using groups5_ind.
  - destruct l as [|a [|b [|c [|d [|e r]]]]]; simpl in *; try lia; done.
  - cbn [groups5 length]. rewrite IH.
    replace (S (S (S (S (S (length r))))) + 4)%nat with ((length r + 4) + 1 * 5)%nat by lia.
    rewrite Nat.div_add by lia. lia.
Qed.

Lemma value_bits_value g : group5_ok g ->
  value_bits (bits_value g) = g /\ (bits_value g < 32)%N.
Proof.
  unfold group5_ok. destruct g as [|a [|b [|c [|d [|e [|]]]]]]; try done.
  intros _. by destruct a, b, c, d, e.
Qed.

Definition b32_ok (c : ascii) : bool := is_lower c || between 50 55 c.

Lemma b32_value_char n : (n < 32)%N ->
  b32_value (b32_char n) = Some n /\ b32_ok (b32_char n) = true.
Proof.
  intros Hn.
  assert (forall k, (k < 32)%nat ->
    b32_value (b32_char (N.of_nat k)) = Some (N.of_nat k) /\ b32_ok (b32_char (N.of_nat k)) = true) as H.
  { intros k Hk. do 32 (destruct k as [|k]; [by vm_compute|]). lia. }
  rewrite <- (N2Nat.id n). apply H. lia.
Qed.

Lemma decode_bits_groups gs : Forall group5_ok gs ->
  decode_bits (str_of ((fun g => b32_char (bits_value g)) <$> gs)) = Some (concat gs).
Proof.
  induction 1 as [|g gs Hg _ IH]; [done|]. rewrite fmap_cons. cbn [str_of decode_bits].
  destruct (value_bits_value g Hg) as [Hv Hlt].
  destruct (b32_value_char _ Hlt) as [-> _]. by rewrite IH, Hv.
Qed.

Lemma bits_byte_bits b : bits_byte (byte_bits b) = b.
Proof. by destruct b. Qed.

Lemma groups8_bytes bs pad : (length pad < 8)%nat ->
  groups8 ((bs ≫= byte_bits) ++ pad) = byte_bits <$> bs.
Proof.
  intros Hp. induction bs as [|b bs IH].
  - do 8 (destruct pad as [|? pad]; [done|simpl in Hp]). lia.
  - rewrite bind_cons, <- app_assoc, fmap_cons, <- IH. done.
Qed.

Lemma decode_encode b : DecodeString (EncodeToString b) = Some b.
Proof.
  unfold DecodeString, EncodeToString.
  rewrite decode_bits_groups by apply groups5_ok. simpl.
  destruct (groups5_concat (b ≫= byte_bits)) as (pad & -> & Hp).
  rewrite groups8_bytes by lia. f_equal.
  rewrite <- list_fmap_compose, (list_fmap_ext _ id); [apply list_fmap_id|].
  intros ? x _. apply bits_byte_bits.
Qed.

Lemma length_bits (bs : list byte) : length (bs ≫= byte_bits) = (8 * length bs)%nat.
Proof.
  induction bs as [|b bs IH]; [done|].
  rewrite bind_cons, length_app, IH. simpl. lia.
Qed.

Lemma length_str_of l : String.length (str_of l) = length l.
Proof. induction l as [|c l IH]; simpl; [done|]. by rewrite IH. Qed.

Lemma length_encode b :
  String.length (EncodeToString b) = ((8 * length b + 4) / 5)%nat.
Proof.
  unfold EncodeToString.
  by rewrite length_str_of, length_fmap, length_groups5, length_bits.
Qed.

Lemma encode_alphabet b : str_forallb b32_ok (EncodeToString b) = true.
Proof.
  unfold EncodeToString. generalize (groups5_ok (b ≫= byte_bits)).
  induction 1 as [|g gs Hg _ IH]; [done|]. rewrite fmap_cons. cbn [str_of str_forallb].
  destruct (value_bits_value g Hg) as [_ Hlt].
  destruct (b32_value_char _ Hlt) as [_ ->]. done.
Qed.
End Base32.

Module Ref.
Definition EndpointRefLength : nat := 118.
Definition OfferRefLength : nat := 173.
Definition domainNamespaceLength : nat := 54.
Definition referenceIDLength : nat := 52.
Definition referencePrefix : string := "pagnet://".

Record EndpointRef := mkRef { namespace : string; endpointID : string; offerID : string }.

#[export] Instance ref_eq_dec : EqDecision EndpointRef.
Proof. solve_decision. Defined.

Definition referenceInputError (message : string) : Error := NewError CodeInvalidInput message.

Definition domain_tag : list byte := bytes_of "pagnet.fabric.domain.v1" ++ [x00].

Definition DomainNamespace `{Sha256} (domainPublicKey : list byte) : result Error string :=
  let? _ := guard (blen domainPublicKey =? 32)
              (referenceInputError "domain genesis public key must be 32 bytes") in
  Ok (String.append "d-" (Base32.EncodeToString (sha256 (domain_tag ++ domainPublicKey)))).

(** [entropy] is what [io.ReadFull] delivers into the 32-byte identity: [None]
    when the entropy source fails. *)
Definition newEndpointRef `{Sha256} (domainPublicKey : list byte) (entropy : option (list byte)) :
    result Error EndpointRef :=
  let? ns := DomainNamespace domainPublicKey in
  let? id := of_option entropy (referenceInputError "endpoint identity entropy unavailable") in
  Ok {| namespace := ns; endpointID := Base32.EncodeToString id; offerID := "" |}.

Definition canonicalReferenceID (text : string) : bool :=
  Nat.eqb (String.length text) referenceIDLength &&
  str_forallb Base32.b32_ok text &&
  match Base32.DecodeString text with
  | Some raw => (blen raw =? 32) && str_eqb (Base32.EncodeToString raw) text
  | None => false
  end.

Definition canonicalDomainNamespace (ns : string) : bool :=
  Nat.eqb (String.length ns) domainNamespaceLength &&
  has_prefix ns "d-" && canonicalReferenceID (str_drop 2 ns).

(** [text[lo:hi]] *)
Definition slice (text : string) (lo hi : nat) : string := str_take (hi - lo) (str_drop lo text).
#[global] Arguments slice : simpl never.
#[global] Arguments canonicalReferenceID : simpl never.
#[global] Arguments canonicalDomainNamespace : simpl never.

Definition ParseEndpointRef (text : string) : result Error EndpointRef :=
  let n := String.length text in
  let? _ := guard ((Nat.eqb n EndpointRefLength || Nat.eqb n OfferRefLength) &&
                   has_prefix text referencePrefix)
              (referenceInputError "invalid canonical endpoint reference") in
  let off := (String.length referencePrefix + domainNamespaceLength)%nat in
  let ns := slice text (String.length referencePrefix) off in
  let? _ := guard (canonicalDomainNamespace ns && str_eqb (slice text off (off + 3)) "/e/")
              (referenceInputError "invalid canonical endpoint reference") in
  let id := slice text (off + 3) EndpointRefLength in
  let? _ := guard (canonicalReferenceID id)
              (referenceInputError "invalid canonical endpoint identity") in
  if Nat.eqb n OfferRefLength then
    let offer := str_drop (EndpointRefLength + 3) text in
    let? _ := guard (str_eqb (slice text EndpointRefLength (EndpointRefLength + 3)) "#o-" &&
                     canonicalReferenceID offer)
                (referenceInputError "invalid canonical offer reference") in
    Ok {| namespace := ns; endpointID := id; offerID := offer |}
  else Ok {| namespace := ns; endpointID := id; offerID := "" |}.

Definition ref_String (r : EndpointRef) : string :=
  if str_eqb (namespace r) "" || str_eqb (endpointID r) "" then ""
  else
    let ref := String.append referencePrefix
                 (String.append (namespace r) (String.append "/e/" (endpointID r))) in
    if str_eqb (offerID r) "" then ref
    else String.append ref (String.append "#o-" (offerID r)).

Definition WithOfferID (r : EndpointRef) (id : list byte) : result Error EndpointRef :=
  let? _ := ParseEndpointRef (ref_String r) in
  let? _ := guard (blen id =? 32) (referenceInputError "offer identity must be 32 bytes") in
  Ok {| namespace := namespace r; endpointID := endpointID r;
        offerID := Base32.EncodeToString id |}.

Definition Domain (r : EndpointRef) : string := namespace r.
Definition IsOffer (r : EndpointRef) : bool := negb (str_eqb (offerID r) "").
Definition Endpoint (r : EndpointRef) : EndpointRef :=
  {| namespace := namespace r; endpointID := endpointID r; offerID := "" |}.

(** Well-formed references: the ones some constructor of the package builds. *)
Definition ref_ok (r : EndpointRef) : Prop :=
  canonicalDomainNamespace (namespace r) = true /\
  canonicalReferenceID (endpointID r) = true /\
  (offerID r = "" \/ canonicalReferenceID (offerID r) = true).

(** *** Slicing lemmas *)
Lemma str_take_drop n s : String.append (str_take n s) (str_drop n s) = s.
Proof. revert s. induction n as [|n IH]; intros [|c s]; simpl; try done. by rewrite IH. Qed.

Lemma str_drop_drop n m s : str_drop n (str_drop m s) = str_drop (m + n) s.
Proof. revert s. induction m as [|m IH]; intros [|c s]; simpl; try done. by destruct n. Qed.

Lemma length_str_drop n s : String.length (str_drop n s) = (String.length s - n)%nat.
Proof. revert s. induction n as [|n IH]; intros [|c s]; simpl; try done. Qed.

Lemma str_drop_all n s : (String.length s <= n)%nat -> str_drop n s = "".
Proof.
  revert s. induction n as [|n IH]; intros [|c s]; simpl; try done; [lia|].
  intros. apply IH. lia.
Qed.

Lemma slice_mid a b c lo hi :
  String.length a = lo -> hi = (lo + String.length b)%nat ->
  slice (String.append a (String.append b c)) lo hi = b.
Proof.
  intros <- ->. unfold slice. rewrite str_drop_append.
  replace (String.length a + String.length b - String.length a)%nat
    with (String.length b) by lia.
  apply str_take_append.
Qed.

Lemma slice_drop text lo hi :
  (lo <= hi)%nat -> str_drop lo text = String.append (slice text lo hi) (str_drop hi text).
Proof.
  intros Hle. unfold slice. rewrite <- (str_take_drop (hi - lo) (str_drop lo text)) at 1.
  rewrite str_drop_drop. by replace (lo + (hi - lo))%nat with hi by lia.
Qed.

Lemma canonical_id_length s : canonicalReferenceID s = true -> String.length s = 52%nat.
Proof. unfold canonicalReferenceID. intros. rinv. by apply Nat.eqb_eq. Qed.

Lemma canonical_ns_length s : canonicalDomainNamespace s = true -> String.length s = 54%nat.
Proof. unfold canonicalDomainNamespace. intros. rinv. by apply Nat.eqb_eq. Qed.

Lemma encode_canonical b : length b = 32%nat -> canonicalReferenceID (Base32.EncodeToString b) = true.
Proof.
  intros Hb. unfold canonicalReferenceID.
  rewrite Base32.length_encode, Hb, Base32.encode_alphabet, Base32.decode_encode.
  unfold blen. by rewrite Hb, str_eqb_refl.
Qed.

Lemma nonempty_length s n : String.length s = S n -> str_eqb s "" = false.
Proof. by destruct s. Qed.

Lemma ref_String_eq r : ref_ok r ->
  ref_String r = String.append referencePrefix (String.append (namespace r)
    (String.append "/e/" (String.append (endpointID r)
      (if IsOffer r then String.append "#o-" (offerID r) else "")))).
Proof.
  intros (Hn%canonical_ns_length & He%canonical_id_length & _).
  unfold ref_String, IsOffer.
  rewrite (nonempty_length _ _ Hn), (nonempty_length _ _ He).
  destruct (str_eqb (offerID r) ""); simpl negb; cbn [orb]; rewrite ?append_nil_r, ?append_assoc; done.
Qed.

Lemma length_ref_String r : ref_ok r ->
  String.length (ref_String r) = if IsOffer r then OfferRefLength else EndpointRefLength.
Proof.
  intros Hr. rewrite (ref_String_eq r Hr).
  destruct Hr as (Hn%canonical_ns_length & He%canonical_id_length & Ho).
  rewrite !length_append, Hn, He. destruct (IsOffer r) eqn:E; [|done].
  unfold IsOffer in E. destruct Ho as [Ho|Ho%canonical_id_length]; [by rewrite Ho in E|].
  by rewrite length_append, Ho.
Qed.

(** The slices the parser takes are the components the printer wrote. *)
Lemma ref_slices r : ref_ok r ->
  let t := ref_String r in
  has_prefix t referencePrefix = true /\
  slice t 9 63 = namespace r /\ slice t 63 66 = "/e/" /\ slice t 66 118 = endpointID r /\
  (IsOffer r = true -> slice t 118 121 = "#o-" /\ str_drop 121 t = offerID r).
Proof.
  intros Hr. cbv zeta. rewrite (ref_String_eq r Hr).
  destruct Hr as (Hn%canonical_ns_length & He%canonical_id_length & Ho).
  split; [apply has_prefix_append|].
  split; [apply slice_mid; by rewrite ?Hn|].
  split.
  { rewrite <- append_assoc. apply slice_mid; [by rewrite length_append, Hn|done]. }
  split.
  { rewrite <- !append_assoc. rewrite (append_assoc _ (endpointID r)).
    apply slice_mid; by rewrite ?length_append, ?Hn, ?He. }
  intros ->. rewrite <- 3!append_assoc.
  set (pre := String.append _ (endpointID r)).
  assert (String.length pre = 118%nat) as Hpre.
  { unfold pre. by rewrite !length_append, Hn, He. }
  split; [by apply slice_mid|].
  rewrite <- append_assoc.
  replace 121%nat with (String.length (String.append pre "#o-")) by (by rewrite length_append, Hpre).
  apply str_drop_append.
Qed.
Ltac unfold_parse :=
  unfold ParseEndpointRef, EndpointRefLength, OfferRefLength, domainNamespaceLength;
  change (String.length referencePrefix) with 9%nat; cbn [Nat.add].

(** What the parser accepts is exactly what the printer writes. *)
Lemma parse_canonical text r :
  ParseEndpointRef text = Ok r -> ref_String r = text /\ ref_ok r.
Proof.
  unfold_parse. intros H. rinv.
  assert (String.length text = 118 \/ String.length text = 173)%nat as Hlen
    by (rewrite <- !Nat.eqb_eq; by apply orb_true_iff).
  destruct (has_prefix_spec text referencePrefix) as [[t Ht] _]; [done|].
  assert (text = String.append referencePrefix (str_drop 9 text)) as Htext.
  { assert (str_drop 9 text = t) as ->; [|done].
    rewrite Ht. apply (str_drop_append referencePrefix t). }
  clear t Ht.
  rewrite (slice_drop text 9 63), (slice_drop text 63 66), (slice_drop text 66 118) in Htext by lia.
  match goal with He : str_eqb (slice text 63 66) _ = true |- _ => apply str_eqb_eq in He; rewrite He in Htext end.
  destruct (Nat.eqb (String.length text) 173) eqn:E; rinv.
  - match goal with He : str_eqb (slice text 118 121) _ = true |- _ => apply str_eqb_eq in He end.
    rewrite (slice_drop text 118 121) in Htext by lia.
    match goal with He : slice text 118 121 = _ |- _ => rewrite He in Htext end.
    assert (ref_ok {| namespace := slice text 9 63; endpointID := slice text 66 118;
                      offerID := str_drop 121 text |}) as Hok by (repeat split; simpl; auto).
    split; [|done]. rewrite (ref_String_eq _ Hok). unfold IsOffer. simpl.
    erewrite nonempty_length by (by apply canonical_id_length). simpl. done.
  - assert (ref_ok {| namespace := slice text 9 63; endpointID := slice text 66 118;
                      offerID := "" |}) as Hok by (repeat split; simpl; auto).
    split; [|done]. rewrite (ref_String_eq _ Hok). unfold IsOffer. simpl.
    rewrite (str_drop_all 118) in Htext; [done|].
    apply Nat.eqb_neq in E. lia.
Qed.

(** Printing then parsing returns the reference. *)
Lemma parse_of_print r : ref_ok r -> ParseEndpointRef (ref_String r) = Ok r.
Proof.
  intros Hr. pose proof (length_ref_String r Hr) as Hlen.
  destruct (ref_slices r Hr) as (Hp & Hns & He & Hid & Ho).
  destruct Hr as (Hn & Hi & Hoff). unfold_parse.
  rewrite Hlen, Hp. unfold EndpointRefLength, OfferRefLength in *.
  rewrite Hns, He, Hid, Hn, Hi. unfold IsOffer in *.
  destruct r as [ns id off]; simpl in *. destruct (str_eqb off "") eqn:E; simpl.
  - by apply str_eqb_eq in E as ->.
  - destruct (Ho eq_refl) as [-> ->]. simpl.
    destruct Hoff as [-> | ->]; [by rewrite str_eqb_refl in E|]. done.
Qed.

Lemma domain_ns_canonical h : length h = 32%nat ->
  canonicalDomainNamespace (String.append "d-" (Base32.EncodeToString h)) = true.
Proof.
  intros Hh. unfold canonicalDomainNamespace.
  rewrite length_append, Base32.length_encode, Hh, has_prefix_append.
  assert (forall s, str_drop 2 (String.append "d-" s) = s) as -> by (by intros []).
  by rewrite encode_canonical.
Qed.

(** The constructors build well-formed references. *)
Lemma with_offer_ok r id r' : ref_ok r -> WithOfferID r id = Ok r' ->
  ref_ok r' /\ IsOffer r' = true /\ Endpoint r' = Endpoint r.
Proof.
  unfold WithOfferID. intros (Hn & He & _) H. rinv.
  rename select ((blen id =? 32) = true) into Hl. apply Z.eqb_eq in Hl.
  assert (canonicalReferenceID (Base32.EncodeToString id) = true) as Hc
    by (apply encode_canonical; unfold blen in Hl; lia).
  split; [by repeat split; simpl; auto|]. split; [|done].
  unfold IsOffer. simpl. by erewrite nonempty_length by (by apply canonical_id_length).
Qed.
End Ref.

Module RefProps.
Import Ref.

(** C38. Printing and parsing canonical references are inverse: every
    well-formed reference parses back to itself, and every accepted text is the
    printed form of the reference it denotes, which is well formed. *)
Theorem parse_print_ref (r : EndpointRef) (text : string) :
  (ref_ok r -> ParseEndpointRef (ref_String r) = Ok r) /\
  (ParseEndpointRef text = Ok r -> ref_String r = text /\ ref_ok r).
Proof. split; [apply parse_of_print | apply parse_canonical]. Qed.

(** Every reference the constructors build is canonical: a fresh endpoint
    reference and an offer reference derived from it parse back from their
    printed forms, and selecting an offer leaves the parent endpoint unchanged. *)
Theorem constructed_refs_canonical `{Sha256} (key id offer : list byte) (r r' : EndpointRef) :
  length id = 32%nat ->
  newEndpointRef key (Some id) = Ok r -> WithOfferID r offer = Ok r' ->
  ParseEndpointRef (ref_String r) = Ok r /\ IsOffer r = false /\
  ParseEndpointRef (ref_String r') = Ok r' /\ IsOffer r' = true /\ Endpoint r' = r.
Proof.
  intros Hid Hr Hr'. unfold newEndpointRef, DomainNamespace in Hr. rinv.
  cbn [of_option] in *. rinv.
  match goal with |- context [ParseEndpointRef (ref_String ?x) = Ok ?x] => set (r := x) in * end.
  assert (ref_ok r) as Hok.
  { split; [|split; [by apply encode_canonical | by left]].
    apply (domain_ns_canonical (sha256 _)), sha256_length. }
  destruct (with_offer_ok _ _ _ Hok Hr') as (Hok' & Ho & He).
  by rewrite !parse_of_print.
Qed.
End RefProps.

Module RefWitness.
Import Ref RefProps.

(** A stand-in hash for concrete evaluations: the first 32 bytes, zero padded. *)
#[export] Instance toy_sha : Sha256.
Proof.
  refine {| sha256 := fun b => take 32 (b ++ replicate 32 x00) |}.
  intros b. rewrite length_take, length_app, length_replicate. lia.
Defined.

Definition sample_ref : EndpointRef :=
  {| namespace := String.append "d-" (Base32.EncodeToString (replicate 32 x2a));
     endpointID := Base32.EncodeToString (replicate 32 x07);
     offerID := Base32.EncodeToString (replicate 32 xff) |}.

Lemma parse_print_ref_witness :
  ref_ok sample_ref /\ ParseEndpointRef (ref_String sample_ref) = Ok sample_ref.
Proof.
  assert (ref_ok sample_ref) as Hok by (split; [by vm_compute | split; [by vm_compute | right; by vm_compute]]).
  split; [exact Hok|]. apply (proj1 (parse_print_ref sample_ref "")). exact Hok.
Defined.

Lemma constructed_refs_canonical_witness :
  exists r r', newEndpointRef (replicate 32 x01) (Some (replicate 32 x02)) = Ok r /\
    WithOfferID r (replicate 32 x03) = Ok r' /\ Endpoint r' = r.
Proof.
  eexists _, _. split; [reflexivity|]. split; [vm_compute; reflexivity|].
  eapply (constructed_refs_canonical (replicate 32 x01) (replicate 32 x02) (replicate 32 x03));
    [reflexivity | reflexivity | vm_compute; reflexivity].
Defined.
End RefWitness.
