(* ===== verification/Framing.v ===== *)
(** * Signing frames (src/fabric/framing.go, control_frame.go)

    A signing frame is the purpose, a NUL byte, and length-prefixed fields.
    This file models the encoder, the strict decoder, the four frames that
    have a parser (genesis, registry, caller proof, dispatch admission) and
    the control frame, and proves that parsing and printing are inverse, that
    frames of different purposes never collide, and that equal signing bytes
    mean equal frames.

    Byte arrays of fixed size ([32]byte) are [list byte] of that length (the
    [_ok] predicates state it); uint64 counters are [Z] in their range. *)
From Stdlib Require Import Ascii Strings.Byte ZArith Lia.
From S2P Require Import Prelude GoStrings FabricRef.
#[local] Open Scope Z_scope.

Module Rfc3339.
(** time.Parse(time.RFC3339Nano) restricted to the texts that
    [t.UTC().Format(time.RFC3339Nano)] writes: four-digit years, UTC as "Z",
    and a fraction of one to nine digits without trailing zeros. *)
Fixpoint digits (n : nat) (acc : Z) (s : string) : option (Z * string) :=
  match n with
  | O => Some (acc, s)
  | S n' => match s with
            | String c s' => if is_digit c then digits n' (acc * 10 + (code c - 48)) s' else None
            | EmptyString => None
            end
  end.

Definition lit (c : ascii) (s : string) : option string :=
  match s with
  | String d s' => if ceq c d then Some s' else None
  | EmptyString => None
  end.

Definition leap (y : Z) : bool :=
  (y mod 4 =? 0) && (negb (y mod 100 =? 0) || (y mod 400 =? 0)).

Definition days_in (y m : Z) : Z :=
  if m =? 2 then (if leap y then 29 else 28)
  else if (m =? 4) || (m =? 6) || (m =? 9) || (m =? 11) then 30 else 31.

(** Days since 1970-01-01 in the proleptic Gregorian calendar. *)
Definition days_from_civil (y m d : Z) : Z :=
  let y' := if m <=? 2 then y - 1 else y in
  let era := y' / 400 in
  let yoe := y' - era * 400 in
  let mp := (m + 9) mod 12 in
  let doy := (153 * mp + 2) / 5 + d - 1 in
  era * 146097 + (yoe * 365 + yoe / 4 - yoe / 100 + doy) - 719468.

Fixpoint fraction (scale acc : Z) (s : string) : option (Z * bool) :=
  match s with
  | String c EmptyString => if ceq c "Z" then Some (acc * scale, true) else None
  | String c s' =>
      if is_digit c && (1 <? scale) then fraction (scale / 10) (acc * 10 + (code c - 48)) s'
      else None
  | EmptyString => None
  end.

Definition parse_fraction (s : string) : option Z :=
  match s with
  | String c EmptyString => if ceq c "Z" then Some 0 else None
  | String c s' =>
      if ceq c "." then
        match fraction (10 ^ 9) 0 s' with
        | Some (ns, _) => if has_suffix s' "0Z" || str_eqb s' "Z" then None else Some ns
        | None => None
        end
      else None
  | EmptyString => None
  end.

Definition parse (s : string) : option Time :=
  '(y, s) ← digits 4 0 s; s ← lit "-" s;
  '(m, s) ← digits 2 0 s; s ← lit "-" s;
  '(d, s) ← digits 2 0 s; s ← lit "T" s;
  '(hh, s) ← digits 2 0 s; s ← lit ":" s;
  '(mm, s) ← digits 2 0 s; s ← lit ":" s;
  '(ss, s) ← digits 2 0 s;
  ns ← parse_fraction s;
  if (1 <=? m) && (m <=? 12) && (1 <=? d) && (d <=? days_in y m) &&
     (hh <? 24) && (mm <? 60) && (ss <? 60)
  then Some (((days_from_civil y m d * 24 + hh) * 60 + mm) * 60 * 10 ^ 9 + ss * 10 ^ 9 + ns)
  else None.

Example parse_epoch : parse "1970-01-01T00:00:00Z" = Some 0.
Proof. by vm_compute. Qed.
Example parse_nanos : parse "2024-02-29T12:34:56.000000001Z" = Some 1709210096000000001.
Proof. by vm_compute. Qed.
Example parse_refused :
  parse "2023-02-29T00:00:00Z" = None /\ parse "2024-01-01T00:00:00.10Z" = None /\
  parse "2024-01-01T00:00:00+00:00" = None /\ parse "2024-01-01T24:00:00Z" = None /\
  parse "2024-01-01T00:00:00.Z" = None.
Proof. by vm_compute. Qed.
End Rfc3339.

Module Frames.
Import Ref.
Definition MaxSigningFrameBytes : Z := 64 * 1024.
Definition MaxSigningTextBytes : Z := 4 * 1024.
Definition genesisSigningPurpose : string := "pagnet.fabric.genesis.v1".
Definition registrySigningPurpose : string := "pagnet.fabric.registry.v1".
Definition callerSigningPurpose : string := "pagnet.fabric.caller-proof.v1".
Definition admissionSigningPurpose : string := "pagnet.fabric.dispatch-admission.v1".
Definition ControlSigningPurpose : string := "pagnet.fabric.control.v1".
Definition ForwardBindingProfile : string := "pagnet.fabric.hpke-auth.v1".

Definition validSigningText (text : string) (optional : bool) : bool :=
  (len text <=? MaxSigningTextBytes) && (optional || negb (str_eqb text "")) && utf8_valid text.

Definition validSigningDeadline (text : string) : bool :=
  str_eqb text "" ||
  (validSigningText text false &&
   match Rfc3339.parse text with Some _ => true | None => false end).

Definition signingCounter (value : Z) : list byte := be_encode 8 value.

(** The size check of [encodeSigningFields], field by field. *)
Fixpoint frame_fits (size : Z) (fields : list (list byte)) : bool :=
  match fields with
  | [] => true
  | f :: fs =>
      negb ((MaxSigningTextBytes <? blen f) || (MaxSigningFrameBytes - size - 4 <? blen f)) &&
      frame_fits (size + (4 + blen f)) fs
  end.

Definition frame_field (f : list byte) : list byte := be_encode 4 (blen f) ++ f.
#[global] Arguments frame_field : simpl never.
#[global] Arguments be_encode : simpl never.

Definition encodeSigningFields (purpose : string) (fields : list (list byte)) :
    result Error (list byte) :=
  let? _ := guard (frame_fits (len purpose + 1) fields)
              (referenceInputError "signing frame exceeds bounds") in
  Ok (bytes_of purpose ++ [x00] ++ concat (frame_field <$> fields)).

(** The loop of [decodeSigningFields] on [raw[offset:]]. *)
Fixpoint decode_fields (count : nat) (rest : list byte) :
    result Error (list (list byte) * list byte) :=
  match count with
  | O => Ok ([], rest)
  | S count' =>
      let? _ := guard (negb (blen rest <? 4)) (referenceInputError "truncated signing frame") in
      let size := be_decode (take 4 rest) in
      let rest := drop 4 rest in
      let? _ := guard (negb ((MaxSigningTextBytes <? size) || (blen rest <? size)))
                  (referenceInputError "invalid signing field length") in
      let n := Z.to_nat size in
      let? '(fs, tail) := decode_fields count' (drop n rest) in
      Ok (take n rest :: fs, tail)
  end.

Definition decodeSigningFields (raw : list byte) (purpose : string) (count : nat) :
    result Error (list (list byte)) :=
  let prefix := bytes_of purpose ++ [x00] in
  let? _ := guard (negb (MaxSigningFrameBytes <? blen raw) && negb (blen raw <? blen prefix) &&
                   bool_decide (take (length prefix) raw = prefix))
              (referenceInputError "invalid signing frame purpose or bounds") in
  let? '(fields, tail) := decode_fields count (drop (length prefix) raw) in
  let? _ := guard (bool_decide (tail = []))
              (referenceInputError "signing frame contains trailing fields or bytes") in
  Ok fields.

(** [copySigningDigest] *)
Definition copySigningDigest (field : list byte) : option (list byte) :=
  if blen field =? 32 then Some field else None.

Definition decodeSigningCounter (field : list byte) : option Z :=
  if blen field =? 8 then
    let value := be_decode field in if 0 <? value then Some value else None
  else None.

Record GenesisFrame := mkGenesis {
  gf_Namespace : string; gf_GenesisPublicKey : list byte; gf_PayloadDigest : list byte }.

Record RegistryFrame := mkRegistry {
  rf_IssuerNamespace : string; rf_IssuerKeyRevision : Z; rf_AudienceDomain : string;
  rf_ActionKind : string; rf_ExactTargetRef : EndpointRef; rf_ExpectedPriorRevision : string;
  rf_NewRevision : string; rf_Sequence : Z; rf_PreviousHeadDigest : list byte;
  rf_PayloadDigest : list byte }.

Record CallerProofFrame := mkCaller {
  cf_SourceDomain : string; cf_CallerRef : string; cf_IssuerKeyRevision : Z;
  cf_AudienceDomain : string; cf_Operation : string; cf_OriginalEnvelopeID : string;
  cf_ReplayID : string; cf_OriginalEnvelopeDigest : list byte; cf_Deadline : string }.

Record DispatchAdmissionFrame := mkAdmission {
  af_SourceDomain : string; af_CallerRef : string; af_AudienceDomain : string;
  af_InvocationID : string; af_AttemptID : string; af_ReplayID : string;
  af_FinalizedDispatchDigest : list byte; af_Deadline : string }.

Definition Genesis_SigningBytes `{Sha256} (f : GenesisFrame) : result Error (list byte) :=
  let? _ := guard (match DomainNamespace (gf_GenesisPublicKey f) with
                   | Ok ns => str_eqb ns (gf_Namespace f)
                   | Err _ => false
                   end)
              (referenceInputError "genesis namespace does not match its public key") in
  encodeSigningFields genesisSigningPurpose
    [bytes_of (gf_Namespace f); gf_GenesisPublicKey f; gf_PayloadDigest f].

Definition ParseGenesisFrame `{Sha256} (raw : list byte) : result Error GenesisFrame :=
  let? fields := decodeSigningFields raw genesisSigningPurpose 3 in
  match fields with
  | [f0; f1; f2] =>
      match copySigningDigest f1, copySigningDigest f2 with
      | Some key, Some digest =>
          let f := {| gf_Namespace := string_of f0; gf_GenesisPublicKey := key;
                      gf_PayloadDigest := digest |} in
          let? _ := Genesis_SigningBytes f in Ok f
      | _, _ => Err (referenceInputError "genesis key and digest must be 32 bytes")
      end
  | _ => Err (referenceInputError "truncated signing frame")
  end.

Definition Registry_SigningBytes (f : RegistryFrame) : result Error (list byte) :=
  let? _ := guard (canonicalDomainNamespace (rf_IssuerNamespace f) &&
                   canonicalDomainNamespace (rf_AudienceDomain f) &&
                   negb (rf_IssuerKeyRevision f =? 0) && negb (rf_Sequence f =? 0) &&
                   validSigningText (rf_ActionKind f) false &&
                   validSigningText (rf_ExpectedPriorRevision f) true &&
                   validSigningText (rf_NewRevision f) false)
              (referenceInputError "invalid registry signing fields") in
  let? _ := ParseEndpointRef (ref_String (rf_ExactTargetRef f)) in
  encodeSigningFields registrySigningPurpose
    [bytes_of (rf_IssuerNamespace f); signingCounter (rf_IssuerKeyRevision f);
     bytes_of (rf_AudienceDomain f); bytes_of (rf_ActionKind f);
     bytes_of (ref_String (rf_ExactTargetRef f)); bytes_of (rf_ExpectedPriorRevision f);
     bytes_of (rf_NewRevision f); signingCounter (rf_Sequence f);
     rf_PreviousHeadDigest f; rf_PayloadDigest f].

Definition ParseRegistryFrame (raw : list byte) : result Error RegistryFrame :=
  let? fields := decodeSigningFields raw registrySigningPurpose 10 in
  match fields with
  | [f0; f1; f2; f3; f4; f5; f6; f7; f8; f9] =>
      let? key := of_option (decodeSigningCounter f1)
                    (referenceInputError "invalid registry issuer key revision") in
      let? seq := of_option (decodeSigningCounter f7)
                    (referenceInputError "invalid registry sequence") in
      let? target := ParseEndpointRef (string_of f4) in
      match copySigningDigest f8, copySigningDigest f9 with
      | Some head, Some payload =>
          let f := {| rf_IssuerNamespace := string_of f0; rf_IssuerKeyRevision := key;
                      rf_AudienceDomain := string_of f2; rf_ActionKind := string_of f3;
                      rf_ExactTargetRef := target; rf_ExpectedPriorRevision := string_of f5;
                      rf_NewRevision := string_of f6; rf_Sequence := seq;
                      rf_PreviousHeadDigest := head; rf_PayloadDigest := payload |} in
          let? _ := Registry_SigningBytes f in Ok f
      | _, _ => Err (referenceInputError "registry digests must be 32 bytes")
      end
  | _ => Err (referenceInputError "truncated signing frame")
  end.

Definition Caller_SigningBytes (f : CallerProofFrame) : result Error (list byte) :=
  let? _ := guard (canonicalDomainNamespace (cf_SourceDomain f) &&
                   canonicalDomainNamespace (cf_AudienceDomain f) &&
                   negb (cf_IssuerKeyRevision f =? 0) &&
                   validSigningText (cf_CallerRef f) false &&
                   validSigningText (cf_Operation f) false &&
                   validSigningText (cf_OriginalEnvelopeID f) false &&
                   validSigningText (cf_ReplayID f) false &&
                   validSigningDeadline (cf_Deadline f))
              (referenceInputError "invalid caller proof signing fields") in
  encodeSigningFields callerSigningPurpose
    [bytes_of (cf_SourceDomain f); bytes_of (cf_CallerRef f);
     signingCounter (cf_IssuerKeyRevision f); bytes_of (cf_AudienceDomain f);
     bytes_of (cf_Operation f); bytes_of (cf_OriginalEnvelopeID f); bytes_of (cf_ReplayID f);
     cf_OriginalEnvelopeDigest f; bytes_of (cf_Deadline f)].

Definition ParseCallerProofFrame (raw : list byte) : result Error CallerProofFrame :=
  let? fields := decodeSigningFields raw callerSigningPurpose 9 in
  match fields with
  | [f0; f1; f2; f3; f4; f5; f6; f7; f8] =>
      let? key := of_option (decodeSigningCounter f2)
                    (referenceInputError "invalid caller issuer key revision") in
      let? digest := of_option (copySigningDigest f7)
                       (referenceInputError "original envelope digest must be 32 bytes") in
      let f := {| cf_SourceDomain := string_of f0; cf_CallerRef := string_of f1;
                  cf_IssuerKeyRevision := key; cf_AudienceDomain := string_of f3;
                  cf_Operation := string_of f4; cf_OriginalEnvelopeID := string_of f5;
                  cf_ReplayID := string_of f6; cf_OriginalEnvelopeDigest := digest;
                  cf_Deadline := string_of f8 |} in
      let? _ := Caller_SigningBytes f in Ok f
  | _ => Err (referenceInputError "truncated signing frame")
  end.

Definition Admission_SigningBytes (f : DispatchAdmissionFrame) : result Error (list byte) :=
  let? _ := guard (canonicalDomainNamespace (af_SourceDomain f) &&
                   canonicalDomainNamespace (af_AudienceDomain f) &&
                   validSigningText (af_CallerRef f) false &&
                   validSigningText (af_InvocationID f) false &&
                   validSigningText (af_AttemptID f) false &&
                   validSigningText (af_ReplayID f) false &&
                   validSigningDeadline (af_Deadline f))
              (referenceInputError "invalid dispatch admission signing fields") in
  encodeSigningFields admissionSigningPurpose
    [bytes_of (af_SourceDomain f); bytes_of (af_CallerRef f); bytes_of (af_AudienceDomain f);
     bytes_of (af_InvocationID f); bytes_of (af_AttemptID f); bytes_of (af_ReplayID f);
     af_FinalizedDispatchDigest f; bytes_of (af_Deadline f)].

Definition ParseDispatchAdmissionFrame (raw : list byte) : result Error DispatchAdmissionFrame :=
  let? fields := decodeSigningFields raw admissionSigningPurpose 8 in
  match fields with
  | [f0; f1; f2; f3; f4; f5; f6; f7] =>
      let? digest := of_option (copySigningDigest f6)
                       (referenceInputError "finalized dispatch digest must be 32 bytes") in
      let f := {| af_SourceDomain := string_of f0; af_CallerRef := string_of f1;
                  af_AudienceDomain := string_of f2; af_InvocationID := string_of f3;
                  af_AttemptID := string_of f4; af_ReplayID := string_of f5;
                  af_FinalizedDispatchDigest := digest; af_Deadline := string_of f7 |} in
      let? _ := Admission_SigningBytes f in Ok f
  | _ => Err (referenceInputError "truncated signing frame")
  end.

(** [hex.DecodeString] plus re-encoding of 32 bytes (forward_frame.go). *)
Definition forwardStoreID (id : string) : bool := canonical_hex32 id.

Record ControlFrame := mkControl {
  ct_ProtocolVersion : string; ct_SourceDomain : string; ct_SourceStoreID : string;
  ct_SourceKeyRevision : Z; ct_DestinationDomain : string; ct_DestinationStoreID : string;
  ct_SourcePeerBindingDigest : list byte; ct_DestinationPeerBindingDigest : list byte;
  ct_OriginalPrincipal : Principal; ct_Principal : Principal; ct_InvocationID : string;
  ct_ReceiptDigest : list byte; ct_AttemptID : string; ct_Action : string;
  ct_PayloadDigest : list byte; ct_ReplayID : string; ct_IssuedAt : string;
  ct_ExpiresAt : string; ct_BindingProfile : string }.

Definition zero32 : list byte := replicate 32 x00.
Definition nonzero32 (d : list byte) : bool := negb (bool_decide (d = zero32)).

Definition signing_principal (p : Principal) : bool :=
  validSigningText (p_Ref p) false && validSigningText (p_Issuer p) false &&
  ValidNamespacedName (p_Kind p).

(** [issued < expires <= issued + bound], on the parsed instants. *)
Definition bounded_validity (issued expires : string) (bound : Duration) : bool :=
  match Rfc3339.parse issued, Rfc3339.parse expires with
  | Some i, Some e => (i <? e) && (e - i <=? bound)
  | _, _ => false
  end.

Definition Control_SigningBytes (f : ControlFrame) : result Error (list byte) :=
  let? _ := guard (str_eqb (ct_ProtocolVersion f) "1" &&
                   canonicalDomainNamespace (ct_SourceDomain f) &&
                   canonicalDomainNamespace (ct_DestinationDomain f) &&
                   negb (str_eqb (ct_SourceDomain f) (ct_DestinationDomain f)) &&
                   forwardStoreID (ct_SourceStoreID f) && forwardStoreID (ct_DestinationStoreID f) &&
                   negb (ct_SourceKeyRevision f =? 0) &&
                   nonzero32 (ct_SourcePeerBindingDigest f) &&
                   nonzero32 (ct_DestinationPeerBindingDigest f) &&
                   nonzero32 (ct_ReceiptDigest f) && nonzero32 (ct_PayloadDigest f) &&
                   signing_principal (ct_OriginalPrincipal f) && signing_principal (ct_Principal f) &&
                   validSigningText (ct_InvocationID f) false &&
                   validSigningText (ct_ReplayID f) false &&
                   validSigningText (ct_AttemptID f) true &&
                   str_eqb (ct_BindingProfile f) ForwardBindingProfile)
              (referenceInputError "invalid control signing fields") in
  let? _ :=
    (if str_eqb (ct_Action f) "status" || str_eqb (ct_Action f) "cancel" then Ok tt
     else if str_eqb (ct_Action f) "pull" || str_eqb (ct_Action f) "ack" then
       guard (negb (str_eqb (ct_AttemptID f) ""))
         (referenceInputError "control requires original attempt")
     else Err (referenceInputError "unsupported control action")) in
  let? _ := guard (negb (str_eqb (ct_IssuedAt f) "") && negb (str_eqb (ct_ExpiresAt f) "") &&
                   validSigningDeadline (ct_IssuedAt f) && validSigningDeadline (ct_ExpiresAt f))
              (referenceInputError "invalid control validity") in
  let? _ := guard (bounded_validity (ct_IssuedAt f) (ct_ExpiresAt f) (30 * time_Second))
              (referenceInputError "unbounded control validity") in
  encodeSigningFields ControlSigningPurpose
    [bytes_of (ct_ProtocolVersion f); bytes_of (ct_SourceDomain f); bytes_of (ct_SourceStoreID f);
     signingCounter (ct_SourceKeyRevision f); bytes_of (ct_DestinationDomain f);
     bytes_of (ct_DestinationStoreID f); ct_SourcePeerBindingDigest f;
     ct_DestinationPeerBindingDigest f; bytes_of (p_Ref (ct_Principal f));
     bytes_of (p_Kind (ct_Principal f)); bytes_of (p_Issuer (ct_Principal f));
     bytes_of (p_Ref (ct_OriginalPrincipal f)); bytes_of (p_Kind (ct_OriginalPrincipal f));
     bytes_of (p_Issuer (ct_OriginalPrincipal f)); bytes_of (ct_InvocationID f);
     ct_ReceiptDigest f; bytes_of (ct_AttemptID f); bytes_of (ct_Action f); ct_PayloadDigest f;
     bytes_of (ct_ReplayID f); bytes_of (ct_IssuedAt f); bytes_of (ct_ExpiresAt f);
     bytes_of (ct_BindingProfile f)].
End Frames.

Module FrameLaws.
Import Ref Frames.

(** *** Field codec *)
Lemma frame_fits_field size f fs :
  frame_fits size (f :: fs) = true ->
  blen f <= MaxSigningTextBytes /\ size + 4 + blen f <= MaxSigningFrameBytes /\
  frame_fits (size + (4 + blen f)) fs = true.
Proof. cbn [frame_fits]. intros. rinv. repeat split; [lia|lia|done]. Qed.

Lemma be4_round f : blen f <= MaxSigningTextBytes -> be_decode (be_encode 4 (blen f)) = blen f.
Proof.
  intros. apply be_round. change (256 ^ Z.of_nat 4) with 4294967296.
  unfold MaxSigningTextBytes, blen in *. lia.
Qed.

Lemma length_frame_field f : length (frame_field f) = (4 + length f)%nat.
Proof. unfold frame_field. by rewrite length_app, length_be_encode. Qed.

Lemma take_field f r : take 4 (frame_field f ++ r) = be_encode 4 (blen f).
Proof.
  unfold frame_field. rewrite <- app_assoc.
  apply take_app_length'. by rewrite length_be_encode.
Qed.

Lemma drop_field f r : drop 4 (frame_field f ++ r) = f ++ r.
Proof.
  unfold frame_field. rewrite <- app_assoc.
  apply drop_app_length'. by rewrite length_be_encode.
Qed.

Lemma decode_fields_encode size fs r :
  0 <= size -> frame_fits size fs = true ->
  decode_fields (length fs) (concat (frame_field <$> fs) ++ r) = Ok (fs, r).
Proof.
  revert size. induction fs as [|f fs IH]; intros size Hs Hf; [done|].
  apply frame_fits_field in Hf as (H1 & H2 & H3).
  rewrite fmap_cons. cbn [concat length decode_fields]. rewrite <- app_assoc.
  set (tail := concat _ ++ r). rewrite take_field, drop_field, be4_round by done.
  assert ((blen (frame_field f ++ tail) <? 4) = false) as ->.
  { apply Z.ltb_ge. unfold blen, frame_field. rewrite !length_app, length_be_encode. lia. }
  assert ((blen (f ++ tail) <? blen f) = false) as ->.
  { apply Z.ltb_ge. unfold blen. rewrite length_app. lia. }
  rewrite orb_false_r. replace (MaxSigningTextBytes <? blen f) with false by lia.
  cbn [negb guard rbind]. unfold blen at 1 2. rewrite Nat2Z.id, take_app_length, drop_app_length.
  unfold tail. rewrite (IH (size + (4 + blen f))); [done| |done]. unfold blen. lia.
Qed.

(** What the decoder accepts re-encodes to the same bytes. *)
Lemma decode_fields_sound n rest fs tail :
  decode_fields n rest = Ok (fs, tail) ->
  length fs = n /\ rest = concat (frame_field <$> fs) ++ tail /\
  Forall (fun f => blen f <= MaxSigningTextBytes) fs.
Proof.
  revert rest fs. induction n as [|n IH]; intros rest fs H; cbn [decode_fields] in H.
  - simplify_eq. done.
  - rinv. rename select (_ * _)%type into p. destruct p as [fs' tail']. simplify_eq.
    rename select (decode_fields _ _ = _) into Hd.
    apply IH in Hd as (Hl & Hr & Hall). set (size := be_decode (take 4 rest)) in *.
    assert (length (take 4 rest) = 4%nat) as H4 by (rewrite length_take; unfold blen in *; lia).
    pose proof (be_decode_range (take 4 rest)) as [Hge _].
    fold size in Hge. set (n' := Z.to_nat size) in *.
    assert (blen (take n' (drop 4 rest)) = size) as Hb.
    { unfold blen in *. rewrite length_take. unfold n'. lia. }
    split; [simpl; lia|]. split.
    + rewrite fmap_cons. cbn [concat]. rewrite <- app_assoc, <- Hr. unfold frame_field.
      rewrite Hb, <- app_assoc, take_drop.
      assert (be_encode 4 size = take 4 rest) as ->; [|by rewrite take_drop].
      rewrite <- H4 at 1. apply be_encode_decode.
    + constructor; [|done]. rewrite Hb. lia.
Qed.

Lemma frame_fits_total size fs :
  Forall (fun f => blen f <= MaxSigningTextBytes) fs ->
  size + blen (concat (frame_field <$> fs)) <= MaxSigningFrameBytes ->
  frame_fits size fs = true.
Proof.
  intros Hall. revert size. induction Hall as [|f fs Hf _ IH]; intros size Hs; [done|].
  rewrite fmap_cons in Hs. cbn [concat] in Hs. unfold blen in Hs at 1.
  rewrite length_app in Hs. unfold frame_field in Hs at 1.
  rewrite length_app, length_be_encode in Hs. cbn [frame_fits].
  apply andb_true_iff; split; [unfold blen in *; lia|]. apply IH. unfold blen in *. lia.
Qed.

Lemma frame_fits_bound size fs :
  size <= MaxSigningFrameBytes -> frame_fits size fs = true ->
  size + blen (concat (frame_field <$> fs)) <= MaxSigningFrameBytes.
Proof.
  revert size. induction fs as [|f fs IH]; intros size Hs Hf.
  - unfold blen. simpl. lia.
  - apply frame_fits_field in Hf as (H1 & H2 & H3). apply IH in H3; [|lia].
    rewrite fmap_cons. cbn [concat]. unfold blen in *. unfold frame_field at 1.
    rewrite !length_app, length_be_encode. lia.
Qed.

(** Encoding and decoding a frame are inverse on accepted inputs. *)
Lemma signing_decode_encode purpose fs raw :
  len purpose < MaxSigningFrameBytes ->
  encodeSigningFields purpose fs = Ok raw ->
  decodeSigningFields raw purpose (length fs) = Ok fs.
Proof.
  unfold encodeSigningFields. intros Hp H. rinv. unfold decodeSigningFields.
  rename select (frame_fits _ _ = true) into Hf.
  set (body := concat (frame_field <$> fs)). set (prefix := bytes_of purpose ++ [x00]).
  change (bytes_of purpose ++ x00 :: body) with (bytes_of purpose ++ [x00] ++ body).
  rewrite app_assoc. fold prefix.
  assert (length prefix = S (String.length purpose)) as Hl.
  { unfold prefix. rewrite length_app, length_bytes_of. simpl. lia. }
  apply frame_fits_bound in Hf as Hb; [|unfold len in *; lia]. fold body in Hb.
  rewrite take_app_length, drop_app_length, bool_decide_eq_true_2 by done.
  replace (MaxSigningFrameBytes <? blen (prefix ++ body)) with false
    by (unfold blen, len in *; rewrite length_app; lia).
  replace (blen (prefix ++ body) <? blen prefix) with false
    by (unfold blen; rewrite length_app; lia).
  cbn [negb andb guard rbind]. rewrite <- (app_nil_r body). unfold body.
  erewrite decode_fields_encode; [done| |done]. unfold len. lia.
Qed.

Lemma signing_encode_decode raw purpose n fs :
  decodeSigningFields raw purpose n = Ok fs ->
  encodeSigningFields purpose fs = Ok raw /\ length fs = n.
Proof.
  unfold decodeSigningFields. intros H. rinv.
  match goal with p : (_ * _)%type |- _ => destruct p as [fs' tail] end. rinv.
  rename select (decode_fields _ _ = _) into Hd.
  rename select (take _ _ = _) into Ht.
  apply decode_fields_sound in Hd as (Hn & Hr & Hall). split; [|done].
  rewrite app_nil_r in Hr. unfold encodeSigningFields.
  assert (raw = (bytes_of purpose ++ [x00]) ++ concat (frame_field <$> fs)) as Hraw.
  { rewrite <- Hr, <- Ht at 1. by rewrite take_drop. }
  rewrite frame_fits_total; [|done|].
  - simpl. f_equal. rewrite Hraw, <- app_assoc. done.
  - rewrite Hraw in *. unfold blen, len in *. rewrite !length_app, length_bytes_of in *.
    simpl in *. lia.
Qed.

(** Frames of different purposes never share their bytes: purposes hold no
    NUL, so the first NUL ends the purpose. *)
Lemma bytes_prefix_nul a b x y :
  ~ In x00 a -> ~ In x00 b -> a ++ x00 :: x = b ++ x00 :: y -> a = b /\ x = y.
Proof.
  revert b. induction a as [|c a IH]; intros [|d b] Ha Hb H; simpl in *; simplify_eq; try tauto.
  destruct (IH b) as [-> ->]; tauto.
Qed.
End FrameLaws.

Module FrameProps.
Import Ref Frames FrameLaws.

(** The Go types fix these: [32]byte arrays and uint64 counters. *)
Definition arr32 (b : list byte) : Prop := length b = 32%nat.
Definition u64 (z : Z) : Prop := 0 <= z < 2 ^ 64.

Lemma copy_digest b : arr32 b -> copySigningDigest b = Some b.
Proof. unfold copySigningDigest, arr32, blen. by intros ->. Qed.

Lemma copy_digest_inv b d : copySigningDigest b = Some d -> d = b.
Proof. unfold copySigningDigest. case_if; congruence. Qed.

Lemma counter_round z : u64 z -> z <> 0 -> decodeSigningCounter (signingCounter z) = Some z.
Proof.
  unfold u64, decodeSigningCounter, signingCounter, blen. intros Hz Hn.
  rewrite length_be_encode. change (Z.of_nat 8 =? 8) with true. cbv beta iota zeta.
  rewrite be_round by (change (256 ^ Z.of_nat 8) with (2 ^ 64); lia).
  replace (0 <? z) with true by lia. reflexivity.
Qed.

Lemma counter_inv b z : decodeSigningCounter b = Some z -> signingCounter z = b.
Proof.
  unfold decodeSigningCounter, signingCounter. intros. repeat case_if; simplify_eq.
  replace 8%nat with (length b) by (unfold blen in *; lia). apply be_encode_decode.
Qed.

Lemma counter_inj a b : u64 a -> u64 b -> signingCounter a = signingCounter b -> a = b.
Proof.
  unfold u64, signingCounter. intros Ha Hb H.
  rewrite <- (be_round 8 a), <- (be_round 8 b), H by (change (256 ^ Z.of_nat 8) with (2 ^ 64); lia).
  done.
Qed.

Lemma ns_inj (a b : string) : bytes_of a = bytes_of b <-> a = b.
Proof. split; [apply bytes_of_inj | congruence]. Qed.

Definition genesis_ok (f : GenesisFrame) : Prop :=
  arr32 (gf_GenesisPublicKey f) /\ arr32 (gf_PayloadDigest f).
Definition registry_ok (f : RegistryFrame) : Prop :=
  u64 (rf_IssuerKeyRevision f) /\ u64 (rf_Sequence f) /\
  arr32 (rf_PreviousHeadDigest f) /\ arr32 (rf_PayloadDigest f) /\
  ref_ok (rf_ExactTargetRef f).
Definition caller_ok (f : CallerProofFrame) : Prop :=
  u64 (cf_IssuerKeyRevision f) /\ arr32 (cf_OriginalEnvelopeDigest f).
Definition admission_ok (f : DispatchAdmissionFrame) : Prop :=
  arr32 (af_FinalizedDispatchDigest f).

(** Opens a successful [SigningBytes] and decodes the frame it produced. *)
Ltac sign_decode H :=
  let Henc := fresh "Henc" in
  rinv; rename H into Henc;
  pose proof Henc as Hdec; apply signing_decode_encode in Hdec; [|reflexivity];
  cbn [length] in Hdec.

(** Folds the record literal rebuilt from [f]'s fields. *)
Ltac record_eta f :=
  match goal with
  | |- context [Ok ?r] => assert (r = f) as -> by (by destruct f)
  end.

Lemma genesis_round `{Sha256} f raw :
  genesis_ok f -> Genesis_SigningBytes f = Ok raw -> ParseGenesisFrame raw = Ok f.
Proof.
  intros [Hk Hd] Hs. pose proof Hs as Hs'. unfold Genesis_SigningBytes in Hs'. sign_decode Hs'.
  unfold ParseGenesisFrame. rewrite Hdec. cbn [rbind].
  rewrite (copy_digest _ Hk), (copy_digest _ Hd), string_of_bytes_of.
  record_eta f. by rewrite Hs.
Qed.

Lemma registry_round f raw :
  registry_ok f -> Registry_SigningBytes f = Ok raw -> ParseRegistryFrame raw = Ok f.
Proof.
  intros (Hk & Hq & Hh & Hp & Hr) Hs. pose proof Hs as Hs'. unfold Registry_SigningBytes in Hs'.
  sign_decode Hs'. unfold ParseRegistryFrame. rewrite Hdec. cbn [rbind].
  rewrite !counter_round by (assumption || by apply Z.eqb_neq). cbn [of_option rbind].
  rewrite !string_of_bytes_of.
  rewrite (parse_of_print _ Hr). cbn [rbind].
  rewrite (copy_digest _ Hh), (copy_digest _ Hp). record_eta f. by rewrite Hs.
Qed.

Lemma caller_round f raw :
  caller_ok f -> Caller_SigningBytes f = Ok raw -> ParseCallerProofFrame raw = Ok f.
Proof.
  intros (Hk & Hd) Hs. pose proof Hs as Hs'. unfold Caller_SigningBytes in Hs'. sign_decode Hs'.
  unfold ParseCallerProofFrame. rewrite Hdec. cbn [rbind].
  rewrite counter_round by (assumption || by apply Z.eqb_neq).
  rewrite (copy_digest _ Hd), !string_of_bytes_of. cbn [of_option rbind].
  record_eta f. by rewrite Hs.
Qed.

Lemma admission_round f raw :
  admission_ok f -> Admission_SigningBytes f = Ok raw -> ParseDispatchAdmissionFrame raw = Ok f.
Proof.
  intros Hd Hs. pose proof Hs as Hs'. unfold Admission_SigningBytes in Hs'. sign_decode Hs'.
  unfold ParseDispatchAdmissionFrame. rewrite Hdec. cbn [rbind].
  rewrite (copy_digest _ Hd), !string_of_bytes_of. cbn [of_option rbind].
  record_eta f. by rewrite Hs.
Qed.

(** *** Parsing then printing *)
Lemma of_option_Ok {E A} (o : option A) (e : E) a : of_option o e = Ok a -> o = Some a.
Proof. destruct o; simpl; congruence. Qed.

(** A parsed frame printed again: the parser ran the printer, so it succeeds;
    its fields are the decoded ones, so it writes the same bytes. *)
Ltac print_parsed :=
  rinv;
  repeat match goal with
  | H : of_option _ _ = Ok _ |- _ => apply of_option_Ok in H
  | H : decodeSigningCounter _ = Some _ |- _ => apply counter_inv in H
  | H : copySigningDigest _ = Some _ |- _ => apply copy_digest_inv in H
  | H : ParseEndpointRef (string_of _) = Ok _ |- _ => apply parse_canonical in H as [? ?]
  end; subst.

Lemma caller_print raw f :
  ParseCallerProofFrame raw = Ok f -> Caller_SigningBytes f = Ok raw.
Proof.
  unfold ParseCallerProofFrame. intros H. apply rbind_Ok in H as (fs & Hd & H).
  apply signing_encode_decode in Hd as [He Hl].
  do 9 (destruct fs as [|? fs]; [discriminate|]). destruct fs; [|discriminate]. print_parsed.
  rename select (Caller_SigningBytes _ = Ok _) into Hs. rewrite Hs.
  unfold Caller_SigningBytes in Hs. rinv. f_equal. rename select (encodeSigningFields _ _ = Ok _) into Hs.
  cbn [cf_SourceDomain cf_CallerRef cf_IssuerKeyRevision cf_AudienceDomain cf_Operation
       cf_OriginalEnvelopeID cf_ReplayID cf_OriginalEnvelopeDigest cf_Deadline] in Hs.
  rewrite !bytes_of_string_of in Hs. congruence.
Qed.

Lemma admission_print raw f :
  ParseDispatchAdmissionFrame raw = Ok f -> Admission_SigningBytes f = Ok raw.
Proof.
  unfold ParseDispatchAdmissionFrame. intros H. apply rbind_Ok in H as (fs & Hd & H).
  apply signing_encode_decode in Hd as [He Hl].
  do 8 (destruct fs as [|? fs]; [discriminate|]). destruct fs; [|discriminate]. print_parsed.
  rename select (Admission_SigningBytes _ = Ok _) into Hs. rewrite Hs.
  unfold Admission_SigningBytes in Hs. rinv. f_equal. rename select (encodeSigningFields _ _ = Ok _) into Hs.
  cbn [af_SourceDomain af_CallerRef af_AudienceDomain af_InvocationID af_AttemptID af_ReplayID
       af_FinalizedDispatchDigest af_Deadline] in Hs.
  rewrite !bytes_of_string_of in Hs. congruence.
Qed.

Lemma registry_print raw f :
  ParseRegistryFrame raw = Ok f -> Registry_SigningBytes f = Ok raw.
Proof.
  unfold ParseRegistryFrame. intros H. apply rbind_Ok in H as (fs & Hd & H).
  apply signing_encode_decode in Hd as [He Hl].
  do 10 (destruct fs as [|? fs]; [discriminate|]). destruct fs; [|discriminate]. rinv.
  match goal with H : context [match ?a with Some _ => _ | None => _ end] |- _ =>
    destruct a eqn:?; [|discriminate]; destruct (copySigningDigest _) eqn:? in H; [|discriminate] end.
  print_parsed.
  rename select (Registry_SigningBytes _ = Ok _) into Hs. rewrite Hs.
  unfold Registry_SigningBytes in Hs. rinv. f_equal. rename select (encodeSigningFields _ _ = Ok _) into Hs.
  cbn [rf_IssuerNamespace rf_IssuerKeyRevision rf_AudienceDomain rf_ActionKind rf_ExactTargetRef
       rf_ExpectedPriorRevision rf_NewRevision rf_Sequence rf_PreviousHeadDigest rf_PayloadDigest] in Hs.
  rename select (ref_String _ = string_of _) into Hr. rewrite Hr, !bytes_of_string_of in Hs. congruence.
Qed.

Lemma genesis_print `{Sha256} raw f :
  ParseGenesisFrame raw = Ok f -> Genesis_SigningBytes f = Ok raw.
Proof.
  unfold ParseGenesisFrame. intros Hp. apply rbind_Ok in Hp as (fs & Hd & Hp).
  apply signing_encode_decode in Hd as [He Hl].
  do 3 (destruct fs as [|? fs]; [discriminate|]). destruct fs; [|discriminate].
  do 2 (destruct (copySigningDigest _) eqn:? in Hp; [|discriminate]). print_parsed.
  rename select (Genesis_SigningBytes _ = Ok _) into Hs. rewrite Hs.
  unfold Genesis_SigningBytes in Hs. rinv. f_equal. rename select (encodeSigningFields _ _ = Ok _) into Hs.
  cbn [gf_Namespace gf_GenesisPublicKey gf_PayloadDigest] in Hs.
  rewrite bytes_of_string_of in Hs. congruence.
Qed.

(** *** Injectivity *)
Lemma concat_fields_inj fs gs :
  Forall (fun f => blen f <= MaxSigningTextBytes) fs ->
  Forall (fun f => blen f <= MaxSigningTextBytes) gs ->
  concat (frame_field <$> fs) = concat (frame_field <$> gs) -> fs = gs.
Proof.
  intros Hf. revert gs. induction Hf as [|f fs Hf _ IH]; intros gs Hg H.
  - destruct gs as [|g gs]; [done|]. apply (f_equal length) in H.
    rewrite fmap_cons in H. cbn [concat] in H.
    rewrite length_app, length_frame_field in H. simpl in H. lia.
  - destruct Hg as [|g gs Hg Hgs].
    { apply (f_equal length) in H. rewrite fmap_cons in H. cbn [concat] in H.
      rewrite length_app, length_frame_field in H. simpl in H. lia. }
    rewrite !fmap_cons in H. cbn [concat] in H.
    pose proof (f_equal (take 4) H) as Ht. pose proof (f_equal (drop 4) H) as Hd.
    rewrite !take_field in Ht. rewrite !drop_field in Hd.
    apply (f_equal be_decode) in Ht. rewrite !be4_round in Ht by done.
    apply app_inj_1 in Hd as [-> Hd]; [|unfold blen in Ht; lia].
    by rewrite (IH gs).
Qed.

Lemma frame_fits_all size fs :
  frame_fits size fs = true -> Forall (fun f => blen f <= MaxSigningTextBytes) fs.
Proof.
  revert size. induction fs as [|f fs IH]; intros size H; [done|].
  apply frame_fits_field in H as (? & _ & ?). constructor; eauto.
Qed.

Definition no_nul (purpose : string) : Prop := ~ In x00 (bytes_of purpose).

(** The purposes are ASCII names. *)
Ltac purpose_nul := unfold no_nul; vm_compute; intuition discriminate.

Lemma encode_inj p q fs gs raw :
  no_nul p -> no_nul q ->
  encodeSigningFields p fs = Ok raw -> encodeSigningFields q gs = Ok raw -> p = q /\ fs = gs.
Proof.
  unfold encodeSigningFields. intros Hp Hq Hf Hg.
  apply rbind_Ok in Hf as (? & Hf1%guard_Ok & [= <-]).
  apply rbind_Ok in Hg as (? & Hg1%guard_Ok & [= He]).
  apply bytes_prefix_nul in He as [->%bytes_of_inj He]; [|done..].
  split; [done|]. symmetry. eapply concat_fields_inj; eauto using frame_fits_all.
Qed.

Definition control_ok (f : ControlFrame) : Prop := u64 (ct_SourceKeyRevision f).

Lemma control_inj f g raw : control_ok f -> control_ok g ->
  Control_SigningBytes f = Ok raw -> Control_SigningBytes g = Ok raw -> f = g.
Proof.
  unfold control_ok, Control_SigningBytes. intros Hf Hg H1 H2.
  do 4 (apply rbind_Ok in H1 as (_ & _ & H1); apply rbind_Ok in H2 as (_ & _ & H2)).
  apply (encode_inj ControlSigningPurpose ControlSigningPurpose _ _ _
    ltac:(purpose_nul) ltac:(purpose_nul) H1) in H2 as [_ He].
  destruct f as [? ? ? ? ? ? ? ? [] [] ? ? ? ? ? ? ? ? ?], g as [? ? ? ? ? ? ? ? [] [] ? ? ? ? ? ? ? ? ?].
  cbn [ct_SourceKeyRevision] in Hf, Hg. clear H1.
  pose proof (f_equal (fun l => nth 3 l []) He) as Hc. cbv beta in Hc. cbn [nth] in Hc.
  apply counter_inj in Hc; [|done..]. cbn [ct_SourceKeyRevision] in Hc.
  injection He. clear He. intros.
  repeat match goal with H : bytes_of _ = bytes_of _ |- _ => apply bytes_of_inj in H end.
  repeat match goal with H : default _ _ = _ |- _ => clear H end.
  cbn in *. by simplify_eq.
Qed.

(** C39. Printing and parsing the four signing frames that have a parser are
    inverse: a frame whose [SigningBytes] succeeds parses back from exactly those
    bytes, and bytes a parser accepts are exactly the [SigningBytes] of the frame
    it returns (no second encoding of a frame is accepted). *)
Theorem signing_frames_round_trip `{Sha256} (raw : list byte)
    (g : GenesisFrame) (r : RegistryFrame) (c : CallerProofFrame) (a : DispatchAdmissionFrame) :
  ((genesis_ok g -> Genesis_SigningBytes g = Ok raw -> ParseGenesisFrame raw = Ok g) /\
   (ParseGenesisFrame raw = Ok g -> Genesis_SigningBytes g = Ok raw)) /\
  ((registry_ok r -> Registry_SigningBytes r = Ok raw -> ParseRegistryFrame raw = Ok r) /\
   (ParseRegistryFrame raw = Ok r -> Registry_SigningBytes r = Ok raw)) /\
  ((caller_ok c -> Caller_SigningBytes c = Ok raw -> ParseCallerProofFrame raw = Ok c) /\
   (ParseCallerProofFrame raw = Ok c -> Caller_SigningBytes c = Ok raw)) /\
  ((admission_ok a -> Admission_SigningBytes a = Ok raw -> ParseDispatchAdmissionFrame raw = Ok a) /\
   (ParseDispatchAdmissionFrame raw = Ok a -> Admission_SigningBytes a = Ok raw)).
Proof.
  split; [split; [apply genesis_round | apply genesis_print]|].
  split; [split; [apply registry_round | apply registry_print]|].
  split; [split; [apply caller_round | apply caller_print]|].
  split; [apply admission_round | apply admission_print].
Qed.

(** Domain separation and injectivity of signing bytes: the same bytes
    never come from two purposes or two field lists, so a signature over one kind
    of frame is never a signature over another; two control frames with equal
    signing bytes are the same control request. *)
Theorem signing_bytes_bind_the_frame (p q : string) (fs gs : list (list byte)) (f g : ControlFrame)
    (raw raw' : list byte) :
  no_nul p -> no_nul q -> control_ok f -> control_ok g ->
  (encodeSigningFields p fs = Ok raw -> encodeSigningFields q gs = Ok raw -> p = q /\ fs = gs) /\
  (Control_SigningBytes f = Ok raw' -> Control_SigningBytes g = Ok raw' -> f = g).
Proof. intros. split; [by apply encode_inj | by apply control_inj]. Qed.
End FrameProps.

Module FrameWitness.
Import Ref Frames FrameProps RefWitness.

Definition sample_admission : DispatchAdmissionFrame :=
  {| af_SourceDomain := namespace sample_ref; af_CallerRef := "caller";
     af_AudienceDomain := namespace sample_ref; af_InvocationID := "inv-1";
     af_AttemptID := "attempt-1"; af_ReplayID := "replay-1";
     af_FinalizedDispatchDigest := replicate 32 x11; af_Deadline := "2024-02-29T12:34:56.5Z" |}.

Lemma signing_frames_round_trip_witness :
  exists raw, Admission_SigningBytes sample_admission = Ok raw /\
    ParseDispatchAdmissionFrame raw = Ok sample_admission.
Proof.
  eexists. split; [vm_compute; reflexivity|].
  eapply (proj2 (proj2 (proj2 (signing_frames_round_trip (H := toy_sha) _
    (mkGenesis "" [] []) (mkRegistry "" 0 "" "" sample_ref "" "" 0 [] [])
    (mkCaller "" "" 0 "" "" "" "" [] "") sample_admission)))); [reflexivity|].
  vm_compute. reflexivity.
Defined.

Definition sample_control : ControlFrame :=
  {| ct_ProtocolVersion := "1"; ct_SourceDomain := namespace sample_ref;
     ct_SourceStoreID := hex_encode (replicate 32 x01); ct_SourceKeyRevision := 1;
     ct_DestinationDomain := String.append "d-" (endpointID sample_ref);
     ct_DestinationStoreID := hex_encode (replicate 32 x02);
     ct_SourcePeerBindingDigest := replicate 32 x03;
     ct_DestinationPeerBindingDigest := replicate 32 x04;
     ct_OriginalPrincipal := mkPrincipal "ref" "user.human" "issuer";
     ct_Principal := mkPrincipal "ref" "user.human" "issuer"; ct_InvocationID := "inv-1";
     ct_ReceiptDigest := replicate 32 x05; ct_AttemptID := "a"; ct_Action := "pull";
     ct_PayloadDigest := replicate 32 x06; ct_ReplayID := "r";
     ct_IssuedAt := "2024-01-01T00:00:00Z"; ct_ExpiresAt := "2024-01-01T00:00:30Z";
     ct_BindingProfile := ForwardBindingProfile |}.

Lemma signing_bytes_bind_the_frame_witness :
  is_ok (Control_SigningBytes sample_control) = true /\
  (encodeSigningFields callerSigningPurpose [] = Ok (bytes_of callerSigningPurpose ++ [x00]) ->
   encodeSigningFields callerSigningPurpose [] = Ok (bytes_of callerSigningPurpose ++ [x00]) ->
   callerSigningPurpose = callerSigningPurpose /\ @nil (list byte) = []).
Proof.
  split; [vm_compute; reflexivity|].
  eapply (signing_bytes_bind_the_frame callerSigningPurpose callerSigningPurpose [] []
            sample_control sample_control _ []).
  - purpose_nul.
  - purpose_nul.
  - unfold control_ok, u64. simpl. lia.
  - unfold control_ok, u64. simpl. lia.
Defined.
End FrameWitness.
