(* ===== verification/Wire.v ===== *)
(** * The bounded JSON boundary (src/fabric/wire.go)

    Every protocol document enters through [DecodeJSONWithLimits]: byte, depth
    and member limits, valid UTF-8, no duplicate members, exact spelling of the
    fields of the requested Go type, no trailing input.

    encoding/json's tokenizer and its reflective decoder are standard-library
    code: [JsonDecoder] is the stream of tokens they deliver, and what
    [Decode(out)] answers. reflect types are entries of a type table. The main
    theorems relate the token-level validator to a specification on JSON trees. *)
From Stdlib Require Import Ascii Strings.Byte ZArith Lia.
From S2P Require Import Prelude GoStrings FabricRef.
#[local] Open Scope Z_scope.

Module Wire.
Record WireLimits := mkLimits { MaxBytes : Z; MaxDepth : Z; MaxMembers : Z }.

Definition DefaultWireLimits : WireLimits :=
  {| MaxBytes := 2 ^ 20; MaxDepth := 64; MaxMembers := 4096 |}.

(** json.Token: a delimiter or a scalar (string, json.Number, bool, nil). *)
Inductive Token :=
| Delim (c : ascii)
| TString (s : string)
| TScalar (text : string).

#[export] Instance token_eq_dec : EqDecision Token.
Proof. solve_decision. Defined.

(** How the token stream ends: at the end of input, or at a syntax error,
    where [more] is what [decoder.More()] reports at that point. *)
Inductive StreamEnd := EndEOF | EndError (more : bool).

Inductive DecodeOutcome := Decoded | InvalidTarget | ShapeMismatch.

Class JsonDecoder := {
  token_stream : list byte -> list Token * StreamEnd;
  decode_any : list byte -> DecodeOutcome;    (** [Decode] into [*any] *)
  EqualFold : string -> string -> bool;       (** [strings.EqualFold] *)
}.

(** [decoder.More()]: the next character neither closes a collection nor is
    the end of input. *)
Definition More (e : StreamEnd) (s : list Token) : bool :=
  match s with
  | Delim c :: _ => negb (ceq c "]") && negb (ceq c "}")
  | _ :: _ => true
  | [] => match e with EndEOF => false | EndError m => m end
  end.

(** ** reflect.Type as a table *)
Definition TypeId := nat.

Record StructField := mkField {
  f_Name : string; f_PkgPath : string; f_Anonymous : bool; f_Tag : string; f_Type : TypeId }.

Inductive Kind :=
| KPointer (elem : TypeId) | KStruct (fields : list StructField)
| KSlice (elem : TypeId) | KArray (elem : TypeId) | KOther.

Record TypeDecl := mkType {
  t_kind : Kind;
  t_implements : bool;       (** the type implements json.Unmarshaler *)
  t_ptr_implements : bool }. (** a pointer to it does *)

Section types.
Context (types : list TypeDecl).

Definition kind_of (t : TypeId) : Kind :=
  match types !! t with Some d => t_kind d | None => KOther end.
Definition is_pointer (t : TypeId) : bool :=
  match kind_of t with KPointer _ => true | _ => false end.
Definition is_struct (t : TypeId) : bool :=
  match kind_of t with KStruct _ => true | _ => false end.
Definition custom_json (t : TypeId) : bool :=
  match types !! t with
  | Some d => t_implements d || (negb (is_pointer t) && t_ptr_implements d)
  | None => false
  end.

(** The pointer walk of [wireShapeType]; Go type declarations admit no longer
    acyclic pointer chain than the table has entries. *)
Fixpoint shape_walk (fuel : nat) (t : option TypeId) : option TypeId :=
  match fuel, t with
  | S fuel', Some t =>
      if custom_json t then None
      else match kind_of t with KPointer e => shape_walk fuel' (Some e) | _ => Some t end
  | _, _ => None
  end.

Definition wireShapeType (t : option TypeId) : option TypeId := shape_walk (S (length types)) t.

Record Candidate := mkCandidate { c_typ : TypeId; c_depth : Z; c_tagged : bool }.

Definition embedded_of (f : StructField) : TypeId :=
  match kind_of (f_Type f) with KPointer e => e | _ => f_Type f end.

(** [strings.Split(tag, ",")[0]] of the json struct tag. *)
Definition tag_name (f : StructField) : string :=
  match split_on "," (f_Tag f) with t :: _ => t | [] => "" end.

Definition add_candidate (m : gmap string (list Candidate)) (name : string) (c : Candidate) :=
  <[name := default [] (m !! name) ++ [c]]> m.

(** The recursive [visit] closure: [path] holds the types being visited. *)
Fixpoint visit (fuel : nat) (current : TypeId) (depth : Z) (path : gset TypeId)
    (acc : gmap string (list Candidate)) : gmap string (list Candidate) :=
  match fuel with
  | O => acc
  | S fuel' =>
      if bool_decide (current ∈ path) then acc
      else match kind_of current with
           | KStruct fs =>
               fold_left (fun acc f =>
                 let e := embedded_of f in
                 if negb (str_eqb (f_PkgPath f) "") && (negb (f_Anonymous f) || negb (is_struct e))
                 then acc
                 else let tag := tag_name f in
                   if str_eqb tag "-" then acc
                   else if str_eqb tag "" && f_Anonymous f && is_struct e
                   then visit fuel' e (depth + 1) ({[current]} ∪ path) acc
                   else add_candidate acc (if str_eqb tag "" then f_Name f else tag)
                          (mkCandidate (f_Type f) depth (negb (str_eqb tag "")))) fs acc
           | _ => acc
           end
  end.

(** The winner loop: the shallowest candidates, a sole tagged one dominating. *)
Definition min_depth (l : list Candidate) : Z :=
  match l with
  | [] => 0
  | c :: _ => fold_left (fun m c => if c_depth c <? m then c_depth c else m) l (c_depth c)
  end.

Definition winner_step (minimum : Z) (st : option Candidate * Z * Z) (c : Candidate) :
    option Candidate * Z * Z :=
  let '(winner, count, tagged) := st in
  if negb (c_depth c =? minimum) then st
  else if c_tagged c then (Some c, count + 1, tagged + 1)
  else (if tagged =? 0 then Some c else winner, count + 1, tagged).

Definition dominant (l : list Candidate) : option TypeId :=
  let '(winner, count, tagged) := fold_left (winner_step (min_depth l)) l (None, 0, 0) in
  if (tagged =? 1) || ((tagged =? 0) && (count =? 1)) then c_typ <$> winner else None.

Definition wireStructFields (t : option TypeId) : gmap string TypeId :=
  match t with
  | Some t => if is_struct t then omap dominant (visit (S (length types)) t 0 ∅ ∅) else ∅
  | None => ∅
  end.

Definition element_type (t : option TypeId) : option TypeId :=
  match t with
  | Some t => match kind_of t with KSlice e | KArray e => Some e | _ => None end
  | None => None
  end.

Context `{JsonDecoder}.

Definition protocolError (m : string) : Error := NewError CodeProtocolError m.

(** A member name that is not a field but folds to one is refused. *)
Definition misspelled (fields : gmap string TypeId) (key : string) : bool :=
  match fields !! key with
  | Some _ => false
  | None => bool_decide (map_Exists (fun name _ => EqualFold name key = true) fields)
  end.

(** ** The validator: the value and the two member loops *)
Fixpoint validateJSONValue (fuel : nat) (e : StreamEnd) (s : list Token) (depth members : Z)
    (limits : WireLimits) (expected : option TypeId) : result Error (list Token * Z) :=
  match fuel with
  | O => Err (protocolError "Invalid JSON document.")
  | S fuel' =>
      let expected := wireShapeType expected in
      match s with
      | [] => Err (protocolError "Invalid JSON document.")
      | Delim c :: s =>
          let? _ := guard (negb (MaxDepth limits <=? depth))
                      (protocolError "JSON document exceeds its nesting limit.") in
          if ceq c "{" then
            let? '(s, members) :=
              object_loop fuel' e s depth members limits ∅ (wireStructFields expected) in
            match s with
            | Delim c' :: s => if ceq c' "}" then Ok (s, members)
                               else Err (protocolError "Invalid JSON document.")
            | _ => Err (protocolError "Invalid JSON document.")
            end
          else if ceq c "[" then
            let? '(s, members) :=
              array_loop fuel' e s depth members limits (element_type expected) in
            match s with
            | Delim c' :: s => if ceq c' "]" then Ok (s, members)
                               else Err (protocolError "Invalid JSON document.")
            | _ => Err (protocolError "Invalid JSON document.")
            end
          else Err (protocolError "Invalid JSON document.")
      | _ :: s => Ok (s, members)
      end
  end
with object_loop (fuel : nat) (e : StreamEnd) (s : list Token) (depth members : Z)
    (limits : WireLimits) (seen : gset string) (fields : gmap string TypeId) :
    result Error (list Token * Z) :=
  match fuel with
  | O => Err (protocolError "Invalid JSON document.")
  | S fuel' =>
      if More e s then
        let? _ := guard (negb (MaxMembers limits <=? members))
                    (protocolError "JSON document exceeds its member limit.") in
        match s with
        | TString key :: s =>
            let? _ := guard (negb (bool_decide (key ∈ seen)))
                        (protocolError "Duplicate JSON object member.") in
            let? _ := guard (negb (misspelled fields key))
                        (protocolError
                           "JSON member spelling does not match the requested shape.") in
            let? '(s, members) :=
              validateJSONValue fuel' e s (depth + 1) (members + 1) limits (fields !! key) in
            object_loop fuel' e s depth members limits ({[key]} ∪ seen) fields
        | _ => Err (protocolError "Invalid JSON object.")
        end
      else Ok (s, members)
  end
with array_loop (fuel : nat) (e : StreamEnd) (s : list Token) (depth members : Z)
    (limits : WireLimits) (elementType : option TypeId) : result Error (list Token * Z) :=
  match fuel with
  | O => Err (protocolError "Invalid JSON document.")
  | S fuel' =>
      if More e s then
        let? _ := guard (negb (MaxMembers limits <=? members))
                    (protocolError "JSON document exceeds its member limit.") in
        let? '(s, members) :=
          validateJSONValue fuel' e s (depth + 1) (members + 1) limits elementType in
        array_loop fuel' e s depth members limits elementType
      else Ok (s, members)
  end.

Definition wire_fuel (s : list Token) : nat := (2 * length s + 2)%nat.

Definition DecodeJSONWithLimits (data : list byte) (out : option TypeId)
    (decode : list byte -> DecodeOutcome) (limits : WireLimits) : result Error unit :=
  let? _ := guard (negb ((MaxBytes limits <=? 0) || (MaxDepth limits <=? 0) ||
                         (MaxMembers limits <=? 0)))
              (NewError CodeInvalidInput "JSON limits must be positive.") in
  let? _ := guard (negb (MaxBytes limits <? blen data))
              (protocolError "JSON document exceeds its byte limit.") in
  let? _ := guard (utf8_valid (string_of data))
              (protocolError "JSON document contains invalid UTF-8.") in
  let '(s, e) := token_stream data in
  let? '(rest, _) := validateJSONValue (wire_fuel s) e s 0 0 limits out in
  let? _ := guard (match rest, e with [], EndEOF => true | _, _ => false end)
              (protocolError "JSON document has trailing input.") in
  match decode data with
  | Decoded => Ok tt
  | InvalidTarget => Err (NewError CodeInvalidInput "JSON output target must be a non-nil pointer.")
  | ShapeMismatch => Err (protocolError "JSON document does not match the requested shape.")
  end.

Definition DecodeJSON (data : list byte) (out : option TypeId)
    (decode : list byte -> DecodeOutcome) : result Error unit :=
  DecodeJSONWithLimits data out decode DefaultWireLimits.
End types.

(** The type table of [var value any; DecodeJSON(raw, &value)]. *)
Definition any_types : list TypeDecl :=
  [mkType (KPointer 1%nat) false false; mkType KOther false false].
Definition DecodeJSONAny `{JsonDecoder} (data : list byte) (limits : WireLimits) : result Error unit :=
  DecodeJSONWithLimits any_types data (Some 0%nat) decode_any limits.
End Wire.

(** ** Specification on JSON trees *)
Module WireSpec.
Import Wire.

Inductive json :=
| JString (s : string)
| JScalar (text : string)
| JArr (l : list json)
| JObj (l : list (string * json)).

Section json_ind.
Context (P : json -> Prop).
Context (Hs : forall s, P (JString s)) (Hc : forall t, P (JScalar t)).
Context (Ha : forall l, Forall P l -> P (JArr l)).
Context (Ho : forall l, Forall (fun kv => P kv.2) l -> P (JObj l)).

Fixpoint json_rect' (v : json) : P v :=
  match v with
  | JString s => Hs s
  | JScalar t => Hc t
  | JArr l => Ha l ((fix go l : Forall P l :=
      match l with [] => Forall_nil_2 _ | x :: l => Forall_cons_2 _ _ _ (json_rect' x) (go l) end) l)
  | JObj l => Ho l ((fix go l : Forall (fun kv => P kv.2) l :=
      match l with [] => Forall_nil_2 _ | x :: l => Forall_cons_2 _ _ _ (json_rect' x.2) (go l) end) l)
  end.
End json_ind.

(** The tokens json.Decoder delivers for a tree. *)
Fixpoint flatten (v : json) : list Token :=
  match v with
  | JString s => [TString s]
  | JScalar t => [TScalar t]
  | JArr l => Delim "[" :: concat (map flatten l) ++ [Delim "]"]
  | JObj l => Delim "{" :: concat (map (fun kv => TString kv.1 :: flatten kv.2) l) ++ [Delim "}"]
  end.

(** Object members and array elements together, over the whole document. *)
Fixpoint count (v : json) : Z :=
  match v with
  | JString _ | JScalar _ => 0
  | JArr l => foldr (fun x n => 1 + count x + n) 0 l
  | JObj l => foldr (fun kv n => 1 + count kv.2 + n) 0 l
  end.

Section spec.
Context `{JsonDecoder} (types : list TypeDecl) (limits : WireLimits).

Notation fields_of t := (wireStructFields types (wireShapeType types t)).
Notation elem_of t := (element_type types (wireShapeType types t)).

(** Nesting below the limit, member names pairwise distinct and spelled as the
    requested type spells them. *)
Fixpoint well_shaped (depth : Z) (t : option TypeId) (v : json) : Prop :=
  match v with
  | JString _ | JScalar _ => True
  | JArr l =>
      depth < MaxDepth limits /\
      foldr (fun x acc => well_shaped (depth + 1) (elem_of t) x /\ acc) True l
  | JObj l =>
      depth < MaxDepth limits /\ NoDup l.*1 /\
      foldr (fun kv acc => (misspelled (fields_of t) kv.1 = false /\
                            well_shaped (depth + 1) (fields_of t !! kv.1) kv.2) /\ acc) True l
  end.

Notation validate := (validateJSONValue types).
Notation obj_loop := (object_loop types).
Notation arr_loop := (array_loop types).

Lemma count_nonneg v : 0 <= count v.
Proof.
  induction v as [| |l IH|l IH] using json_rect'; simpl; try lia;
    induction IH; simpl; lia.
Qed.

Lemma flatten_start e v rest : exists tok s, flatten v = tok :: s /\ More e (tok :: s ++ rest) = true.
Proof. destruct v; simpl; eauto. Qed.

(** *** Completeness: trees are accepted *)
Definition accepts (v : json) : Prop := forall fuel e rest depth members t,
  (2 * length (flatten v ++ rest) + 1 <= fuel)%nat ->
  well_shaped depth t v -> members + count v <= MaxMembers limits ->
  validate fuel e (flatten v ++ rest) depth members limits t = Ok (rest, members + count v).

Lemma array_accepts l : Forall accepts l -> forall fuel e rest depth members t,
  (2 * length (concat (map flatten l) ++ Delim "]" :: rest) + 2 <= fuel)%nat ->
  foldr (fun x acc => well_shaped (depth + 1) t x /\ acc) True l ->
  members + count (JArr l) <= MaxMembers limits ->
  arr_loop fuel e (concat (map flatten l) ++ Delim "]" :: rest) depth members limits t
    = Ok (Delim "]" :: rest, members + count (JArr l)).
Proof.
  induction 1 as [|x l Hx _ IH]; intros fuel e rest depth members t Hf Hw Hm;
    destruct fuel as [|fuel]; try (simpl in Hf; lia).
  - cbn. by rewrite Z.add_0_r.
  - cbn [map concat foldr count] in *. rewrite <- (assoc_L app) in *. destruct Hw as [Hwx Hw].
    pose proof (count_nonneg x). pose proof (count_nonneg (JArr l)) as Hnn. cbn [count] in Hnn.
    destruct (flatten_start e x (concat (map flatten l) ++ Delim "]" :: rest)) as (tok & s & Htok & HM).
    cbn [array_loop]. rewrite Htok at 1. cbn [app]. rewrite HM.
    replace (MaxMembers limits <=? members) with false by lia. cbn [negb guard rbind].
    rewrite Hx; [|lia|done|lia]. cbn [rbind].
    rewrite IH; [f_equal; f_equal; cbn [count]; lia | | done | cbn [count]; lia].
    rewrite Htok in Hf. simpl in Hf. rewrite length_app in Hf. lia.
Qed.

Lemma object_accepts l : Forall (fun kv => accepts kv.2) l ->
  forall fuel e rest depth members seen fields,
  (2 * length (concat (map (fun kv => TString kv.1 :: flatten kv.2) l) ++ Delim "}" :: rest) + 2
     <= fuel)%nat ->
  NoDup l.*1 -> (forall k, k ∈ l.*1 -> k ∉ seen) ->
  foldr (fun kv acc => (misspelled fields kv.1 = false /\
                        well_shaped (depth + 1) (fields !! kv.1) kv.2) /\ acc) True l ->
  members + count (JObj l) <= MaxMembers limits ->
  obj_loop fuel e (concat (map (fun kv => TString kv.1 :: flatten kv.2) l) ++ Delim "}" :: rest)
    depth members limits seen fields = Ok (Delim "}" :: rest, members + count (JObj l)).
Proof.
  induction 1 as [|[k x] l Hx _ IH]; intros fuel e rest depth members seen fields Hf Hnd Hs Hw Hm;
    destruct fuel as [|fuel]; try (simpl in Hf; lia).
  - cbn. by rewrite Z.add_0_r.
  - cbn [map concat foldr count fst snd] in *. rewrite <- (assoc_L app) in *.
    destruct Hw as [[Hsp Hwx] Hw]. cbn [app] in *.
    pose proof (count_nonneg x). pose proof (count_nonneg (JObj l)) as Hnn. cbn [count] in Hnn.
    rewrite fmap_cons in Hnd. apply NoDup_cons in Hnd as [Hk Hnd]. cbn [fst] in Hk.
    cbn [object_loop More]. replace (MaxMembers limits <=? members) with false by lia.
    cbn [negb guard rbind].
    rewrite (bool_decide_eq_false_2 (k ∈ seen)) by (apply Hs; rewrite fmap_cons; left).
    rewrite Hsp. cbn [negb guard rbind]. cbn [length] in Hf. rewrite Hx; [|lia|done|lia]. cbn [rbind].
    rewrite length_app in Hf.
    rewrite IH; [f_equal; f_equal; cbn [count]; lia | lia | done | | done | cbn [count]; lia].
    intros k' Hk'. rewrite elem_of_union, elem_of_singleton. intros [->|Hin]; [done|].
    apply (Hs k'); [rewrite fmap_cons; by right | done].
Qed.

Lemma tree_accepts v : accepts v.
Proof.
  induction v as [s|t|l IH|l IH] using json_rect'; intros fuel e rest depth members t0 Hf Hw Hm;
    destruct fuel as [|fuel]; try (simpl in Hf; lia).
  - cbn. by rewrite Z.add_0_r.
  - cbn. by rewrite Z.add_0_r.
  - cbn [well_shaped flatten app] in *. destruct Hw as [Hd Hw].
    cbn [validateJSONValue]. replace (MaxDepth limits <=? depth) with false by lia.
    cbn [negb guard rbind]. change (ceq "[" "{") with false. change (ceq "[" "[") with true. cbn match.
    rewrite <- (assoc_L app) in *. cbn [app length] in *.
    rewrite array_accepts; [done | done | lia | done | done].
  - cbn [well_shaped flatten app] in *. destruct Hw as (Hd & Hnd & Hw).
    cbn [validateJSONValue]. replace (MaxDepth limits <=? depth) with false by lia.
    cbn [negb guard rbind]. change (ceq "{" "{") with true. cbn match.
    rewrite <- (assoc_L app) in *. cbn [app length] in *.
    rewrite object_accepts; [done | done | lia | done | | done | done].
    intros k _. apply not_elem_of_empty.
Qed.

(** *** Soundness: what is accepted is the flattening of a well-shaped tree *)
Definition value_sound (fuel : nat) : Prop := forall e s depth members t rest m,
  validate fuel e s depth members limits t = Ok (rest, m) ->
  exists v, s = flatten v ++ rest /\ well_shaped depth t v /\ m = members + count v /\
    (members <= MaxMembers limits -> m <= MaxMembers limits).

Definition object_sound (fuel : nat) : Prop := forall e s depth members seen fields rest m,
  obj_loop fuel e s depth members limits seen fields = Ok (rest, m) ->
  exists l, s = concat (map (fun kv => TString kv.1 :: flatten kv.2) l) ++ rest /\
    NoDup l.*1 /\ (forall k, k ∈ l.*1 -> k ∉ seen) /\
    foldr (fun kv acc => (misspelled fields kv.1 = false /\
                          well_shaped (depth + 1) (fields !! kv.1) kv.2) /\ acc) True l /\
    m = members + count (JObj l) /\
    (members <= MaxMembers limits -> m <= MaxMembers limits).

Definition array_sound (fuel : nat) : Prop := forall e s depth members t rest m,
  arr_loop fuel e s depth members limits t = Ok (rest, m) ->
  exists l, s = concat (map flatten l) ++ rest /\
    foldr (fun x acc => well_shaped (depth + 1) t x /\ acc) True l /\
    m = members + count (JArr l) /\
    (members <= MaxMembers limits -> m <= MaxMembers limits).

Lemma array_sound_step fuel : value_sound fuel -> array_sound fuel -> array_sound (S fuel).
Proof.
  intros Hv IH e s depth members t rest m. cbn [array_loop].
  destruct (More e s); intros Hrun.
  - apply rbind_Ok in Hrun as ([] & Hg & Hrun).
    apply rbind_Ok in Hrun as ([s1 m1] & Hval & Hloop). rinv.
    apply Hv in Hval as (x & -> & Hw & -> & Hb). apply IH in Hloop as (l & -> & Hws & -> & Hb').
    exists (x :: l). cbn [map concat foldr count]. rewrite <- (assoc_L app).
    split; [done|]. split; [done|]. split; [cbn [count]; lia|]. cbn [count] in *. lia.
  - rinv. exists []. cbn. split; [done|]. split; [done|]. split; lia.
Qed.

Lemma object_sound_step fuel : value_sound fuel -> object_sound fuel -> object_sound (S fuel).
Proof.
  intros Hv IH e s depth members seen fields rest m. cbn [object_loop].
  destruct (More e s); intros Hrun.
  - apply rbind_Ok in Hrun as ([] & Hg & Hrun).
    destruct s as [|[c|k|c] s]; try discriminate.
    apply rbind_Ok in Hrun as ([] & Hdup & Hrun). apply rbind_Ok in Hrun as ([] & Hsp & Hrun).
    apply rbind_Ok in Hrun as ([s1 m1] & Hval & Hloop). rinv.
    apply Hv in Hval as (x & -> & Hw & -> & Hb).
    apply IH in Hloop as (l & -> & Hnd & Hs & Hws & -> & Hb').
    exists ((k, x) :: l). cbn [map concat foldr count fst snd]. rewrite <- (assoc_L app).
    split; [done|]. split.
    { rewrite fmap_cons. constructor; [|done]. intros Hin. apply (Hs k Hin). set_solver. }
    split; [|split; [done|]; cbn [count] in *; split; lia].
    intros k' Hk'. rewrite fmap_cons in Hk'. apply elem_of_cons in Hk' as [->|Hk']; [done|].
    specialize (Hs k' Hk'). set_solver.
  - rinv. exists []. cbn. split; [done|]. split; [constructor|].
    split; [by intros k Hk%elem_of_nil|]. split; [done|]. split; lia.
Qed.

Lemma value_sound_step fuel : array_sound fuel -> object_sound fuel -> value_sound (S fuel).
Proof.
  intros Ha Ho e s depth members t rest m. cbn [validateJSONValue].
  destruct s as [|[c|k|c] s]; intros Hrun; [done| | |].
  - apply rbind_Ok in Hrun as ([] & Hd & Hrun). rinv.
    destruct (ceq c "{") eqn:Ec; [apply ceq_eq in Ec; subst c |
      destruct (ceq c "[") eqn:Ec'; [|done]; apply ceq_eq in Ec'; subst c];
      apply rbind_Ok in Hrun as ([s1 m1] & Hloop & Hrun);
      (destruct s1 as [|[c|c|c] s1]; try done); cbn match in Hrun;
      (case_if; [|done]); rinv; apply ceq_eq in E; subst c.
    + apply Ho in Hloop as (l & -> & Hnd & _ & Hws & -> & Hb).
      exists (JObj l). cbn [flatten app]. rewrite <- (assoc_L app). cbn [well_shaped].
      split_and!; try done; lia.
    + apply Ha in Hloop as (l & -> & Hws & -> & Hb).
      exists (JArr l). cbn [flatten app]. rewrite <- (assoc_L app). cbn [well_shaped].
      split_and!; try done; lia.
  - rinv. exists (JString k). cbn. split_and!; try done; lia.
  - rinv. exists (JScalar c). cbn. split_and!; try done; lia.
Qed.

Lemma sound fuel : value_sound fuel /\ object_sound fuel /\ array_sound fuel.
Proof.
  induction fuel as [|fuel (Hv & Ho & Ha)]; [by split_and!; intros ?|].
  split_and!; auto using value_sound_step, object_sound_step, array_sound_step.
Qed.

(** The validator run by [DecodeJSONWithLimits], against the specification. *)
Lemma validate_spec e s t rest m :
  0 <= MaxMembers limits ->
  validate (wire_fuel s) e s 0 0 limits t = Ok (rest, m) <->
  exists v, s = flatten v ++ rest /\ well_shaped 0 t v /\ m = count v /\ count v <= MaxMembers limits.
Proof.
  intros Hm. split.
  - intros (v & -> & Hw & -> & Hb)%(proj1 (sound _)). exists v. repeat split; [done | lia].
  - intros (v & -> & Hw & -> & Hc). rewrite tree_accepts; [f_equal; f_equal; lia | | done | lia].
    unfold wire_fuel. lia.
Qed.
End spec.
End WireSpec.

Module WireProps.
Import Wire WireSpec.

(** C36. The token-level validator accepts a document exactly when its tokens
    are those of one JSON tree that stays within the depth and member limits,
    repeats no member name (after unescaping) and spells every member of a typed
    struct as the type does; nothing follows the tree, the bytes are valid UTF-8
    within the byte limit, and the typed decode succeeds. The fuel the model
    supplies is always enough. *)
Theorem wire_accepts_exactly_bounded_trees `{JsonDecoder} (types : list TypeDecl) (data : list byte) (out : option TypeId)
    (decode : list byte -> DecodeOutcome) (limits : WireLimits) :
  DecodeJSONWithLimits types data out decode limits = Ok tt <->
  0 < MaxBytes limits /\ 0 < MaxDepth limits /\ 0 < MaxMembers limits /\
  blen data <= MaxBytes limits /\ utf8_valid (string_of data) = true /\
  (exists v, token_stream data = (flatten v, EndEOF) /\ count v <= MaxMembers limits /\
     well_shaped types limits 0 out v) /\
  decode data = Decoded.
Proof.
  unfold DecodeJSONWithLimits. destruct (token_stream data) as [s e] eqn:Es. split.
  - intros Hrun. do 3 apply rbind_Ok in Hrun as ([] & ? & Hrun).
    apply rbind_Ok in Hrun as ([rest m] & Hval & Hrun).
    apply rbind_Ok in Hrun as ([] & Hend & Hrun). rinv.
    apply validate_spec in Hval as (v & -> & Hw & -> & Hc); [|lia].
    destruct rest; [|done]. destruct e; [|done]. destruct (decode data); try done.
    rewrite (right_id_L [] app) in *. split_and!; try lia; try done. by exists v.
  - intros (? & ? & ? & ? & Hutf & (v & [= -> ->] & Hc & Hw) & Hd).
    replace (MaxBytes limits <=? 0) with false by lia.
    replace (MaxDepth limits <=? 0) with false by lia.
    replace (MaxMembers limits <=? 0) with false by lia.
    replace (MaxBytes limits <? blen data) with false by lia.
    rewrite Hutf. cbn [negb orb guard rbind].
    assert (validateJSONValue types (wire_fuel (flatten v)) EndEOF (flatten v) 0 0 limits out
            = Ok ([], count v)) as ->.
    { apply validate_spec; [lia|]. exists v. by rewrite (right_id_L [] app). }
    cbn [rbind guard]. by rewrite Hd.
Qed.
End WireProps.

Module WireWitness.
Import Wire.
(** A stand-in tokenizer for concrete evaluations: every document is one string. *)
#[export] Instance toy_json : JsonDecoder :=
  {| token_stream := fun _ => ([TString "event"], EndEOF);
     decode_any := fun _ => Decoded; EqualFold := String.eqb |}.
End WireWitness.
