(* ===== verification/Events.v ===== *)
(** * Event encoding (src/fabric/events/event.go)

    The CloudEvents SDK (github.com/cloudevents/sdk-go) is third-party code:
    [CloudEvents] is the part of it the program calls, and [CloudEventsLaws] its
    documented behaviour the durable store relies on: a valid event survives its
    JSON representation with its identity. *)
From Stdlib Require Import Strings.Byte ZArith Lia.
From S2P Require Import Prelude GoStrings FabricRef Wire.
#[local] Open Scope Z_scope.

Class CloudEvents := {
  Event : Type;
  ev_Source : Event -> string;
  ev_ID : Event -> string;
  ev_Type : Event -> string;
  ev_DataEncoded : Event -> list byte;
  ev_HasContext : Event -> bool;
  ev_SpecVersion : Event -> string;
  ev_Validate : Event -> bool;
  ev_Marshal : Event -> option (list byte);     (** json.Marshal(e) *)
  ev_Unmarshal : list byte -> option Event;     (** json.Unmarshal(raw, &e) *)
}.

Class CloudEventsLaws (C : CloudEvents) : Prop := {
  unmarshal_marshal (e : Event) raw :
    ev_HasContext e = true -> ev_SpecVersion e = "1.0" -> ev_Validate e = true ->
    ev_Marshal e = Some raw ->
    exists e', ev_Unmarshal raw = Some e' /\ ev_HasContext e' = true /\
      ev_SpecVersion e' = "1.0" /\ ev_Validate e' = true /\
      ev_Source e' = ev_Source e /\ ev_ID e' = ev_ID e /\ ev_Type e' = ev_Type e;
}.

Module Events.
Import Wire.
Section codec.
Context `{JsonDecoder, CloudEvents}.

Definition inputError (m : string) : Error := NewError CodeInvalidInput m.

Definition event_limits (maxBytes : Z) : WireLimits :=
  {| MaxBytes := maxBytes; MaxDepth := 64; MaxMembers := 4096 |}.

Definition Encode (e : Event) (maxBytes : Z) : result Error (list byte) :=
  let? _ := guard (negb ((maxBytes <? 1) || (2 ^ 20 <? maxBytes) ||
                         (maxBytes <? blen (ev_DataEncoded e)) || negb (ev_HasContext e) ||
                         negb (str_eqb (ev_SpecVersion e) "1.0") || negb (ev_Validate e)))
              (inputError "Invalid CloudEvent") in
  let? raw := of_option (ev_Marshal e) (inputError "CloudEvent exceeds configured limits") in
  let? _ := guard (negb (maxBytes <? blen raw))
              (inputError "CloudEvent exceeds configured limits") in
  let? _ := guard (is_ok (DecodeJSONAny raw (event_limits maxBytes)))
              (inputError "Invalid CloudEvent JSON") in
  Ok raw.

Definition Decode (raw : list byte) (maxBytes : Z) : result Error Event :=
  let? _ := guard (negb ((maxBytes <? 1) || (2 ^ 20 <? maxBytes)))
              (inputError "Invalid event byte limit") in
  let? _ := guard (is_ok (DecodeJSONAny raw (event_limits maxBytes)))
              (inputError "Invalid CloudEvent JSON") in
  let? e := of_option (ev_Unmarshal raw) (inputError "Invalid CloudEvent") in
  let? _ := guard (ev_HasContext e && str_eqb (ev_SpecVersion e) "1.0" && ev_Validate e)
              (inputError "Invalid CloudEvent") in
  Ok e.

Lemma Encode_bound e max raw : Encode e max = Ok raw -> blen raw <= max.
Proof. unfold Encode. intros. rinv. lia. Qed.

(** What is encoded can be decoded, under the same limit, to an event of the
    same identity. *)
Lemma Decode_Encode `{!CloudEventsLaws _} e max raw :
  Encode e max = Ok raw ->
  exists e', Decode raw max = Ok e' /\ ev_Source e' = ev_Source e /\ ev_ID e' = ev_ID e /\
    ev_Type e' = ev_Type e.
Proof.
  unfold Encode. intros Henc. rinv.
  destruct (ev_Marshal e) as [raw'|] eqn:Em; cbn [of_option] in *; [|done]. rinv.
  destruct (unmarshal_marshal e raw) as (e' & Hu & Hc & Hv & Hval & Hs & Hi & Ht); try done.
  { by apply str_eqb_eq. }
  exists e'. split; [|done]. unfold Decode.
  replace (max <? 1) with false by lia. replace (2 ^ 20 <? max) with false by lia.
  cbn [orb negb guard rbind]. match goal with H : is_ok _ = true |- _ => rewrite H end.
  rewrite Hu. cbn [guard rbind of_option]. by rewrite Hc, Hv, Hval.
Qed.
End codec.
End Events.

Module EventsWitness.
(** Stand-ins for concrete evaluations: events that are their own encoding. *)
#[export] Instance toy_events : CloudEvents :=
  {| Event := list byte; ev_Source := fun _ => "src";
     ev_ID := fun e => string_of (take 2 e); ev_Type := fun _ => "a.b";
     ev_DataEncoded := fun e => e; ev_HasContext := fun _ => true;
     ev_SpecVersion := fun _ => "1.0"; ev_Validate := fun _ => true;
     ev_Marshal := Some; ev_Unmarshal := Some |}.

#[export] Instance toy_events_laws : CloudEventsLaws toy_events.
Proof. constructor. intros e raw _ _ _ [= <-]. exists e. done. Defined.
End EventsWitness.
