(* ===== verification/FabricModel.v ===== *)
(** * Envelopes, authenticated contexts, replay and handles
    (src/fabric/model.go, identity.go, replay.go, reference_handle.go)

    The protocol's request documents and their validation, the opaque
    authenticated execution context that binds a principal to exact bytes, the
    verified replay correlation, and the compact reference handles. The reflective
    decode of an envelope and json.Marshal are parameters ([EnvelopeJson]); the
    Go struct types the wire validator inspects are written out as a type table. *)
From Stdlib Require Import Ascii Strings.Byte ZArith Lia.
From S2P Require Import Prelude GoStrings FabricRef Framing Wire.
#[local] Open Scope Z_scope.

Module Model.
Import Ref Wire.

(** model.go's [validText]: no control characters ([c < 32 || c == 127], rune by
    rune: bytes above 0x7f only occur inside larger runes of valid UTF-8). *)
Definition text_char (c : ascii) : bool := negb ((code c <? 32) || (code c =? 127)).
Definition validFabricText (s : string) (max : Z) : bool :=
  negb ((len s =? 0) || (max <? len s) || negb (utf8_valid s)) && str_forallb text_char s.

Definition OperationDiscover : string := "discover".
Definition OperationDescribe : string := "describe".
Definition OperationInvoke : string := "invoke".

Record EnvelopeContext := mkEnvContext {
  x_ParentID : string; x_Origin : string; x_Ancestry : list string; x_Hops : Z;
  x_Deadline : option Time; x_IdempotencyKey : string; x_ExtensionChain : list string;
  x_TriggerLineage : list string }.

Record TraceContext := mkTrace { TraceParent : string; TraceState : string; Baggage : string }.

Record Envelope := mkEnvelope {
  v_ProtocolVersion : string; v_ID : string; v_Operation : string; v_Principal : Principal;
  v_Source : string; v_Target : option EndpointRef; v_ExpectedRevision : string;
  v_CreatedAt : Time; v_Payload : list byte; v_Metadata : gmap string (list byte);
  v_Context : EnvelopeContext; v_Trace : TraceContext; v_RequiredFeatures : list string }.

#[export] Instance env_context_eq_dec : EqDecision EnvelopeContext.
Proof. solve_decision. Defined.
#[export] Instance trace_eq_dec : EqDecision TraceContext.
Proof. solve_decision. Defined.
#[export] Instance envelope_eq_dec : EqDecision Envelope.
Proof. solve_decision. Defined.

Section validate.
Context `{JsonDecoder}.

Definition decode_value (raw : list byte) : result Error unit :=
  DecodeJSONAny raw DefaultWireLimits.

Definition validate_principal (p : Principal) : bool :=
  validFabricText (p_Ref p) 4096 && validFabricText (p_Issuer p) 4096 &&
  ValidNamespacedName (p_Kind p).

Definition validate_operation (e : Envelope) : result Error unit :=
  if str_eqb (v_Operation e) OperationDiscover || str_eqb (v_Operation e) OperationDescribe then
    guard (negb (bool_decide (is_Some (v_Target e)) || negb (str_eqb (v_ExpectedRevision e) "")))
      (NewError CodeInvalidInput "Read operation has invocation routing fields")
  else if str_eqb (v_Operation e) OperationInvoke then
    match v_Target e with
    | None => Err (NewError CodeInvalidInput "Invocation requires an exact target")
    | Some t => let? _ := ParseEndpointRef (ref_String t) in Ok tt
    end
  else Err (NewError CodeUnsupported "Unsupported operation").

Definition too_long {A} (l : list A) : bool := 64 <? Z.of_nat (length l).

(** The metadata loop; Go visits the map in an unspecified order, which only
    decides which refusal is reported. *)
Fixpoint validate_metadata (l : list (string * list byte)) : result Error unit :=
  match l with
  | [] => Ok tt
  | (key, value) :: l' =>
      let? _ := guard (ValidNamespacedName key && has_prefix key "extensions.")
                  (NewError CodeInvalidInput "Metadata keys require an extension namespace") in
      let? _ := decode_value value in
      validate_metadata l'
  end.

Definition Envelope_Validate (e : Envelope) : result Error unit :=
  let? _ := ProtocolVersion_Validate (v_ProtocolVersion e) in
  let? _ := guard (validFabricText (v_ID e) 256 && validFabricText (v_Source e) 4096 &&
                   validFabricText (x_Origin (v_Context e)) 4096 && negb (IsZero (v_CreatedAt e)))
              (NewError CodeInvalidInput "Missing or invalid envelope identity") in
  let? _ := guard (validate_principal (v_Principal e))
              (NewError CodeInvalidInput "Invalid principal assertion") in
  let? _ := validate_operation e in
  let? _ := guard (bool_decide (v_RequiredFeatures e = []))
              (NewError CodeUnsupported "Required protocol features are not supported") in
  let x := v_Context e in
  let? _ := guard (negb (too_long (x_Ancestry x) || too_long (x_ExtensionChain x) ||
                         too_long (x_TriggerLineage x) || (64 <? x_Hops x)))
              (NewError CodeProtocolError "Envelope ancestry exceeds limits") in
  let? _ := guard (forallb (fun v => validFabricText v 256)
                     (x_Ancestry x ++ x_ExtensionChain x ++ x_TriggerLineage x))
              (NewError CodeInvalidInput "Invalid envelope ancestry") in
  let? _ := guard (negb (64 <? Z.of_nat (size (v_Metadata e))))
              (NewError CodeInvalidInput "Too many metadata fields") in
  let? _ := validate_metadata (map_to_list (v_Metadata e)) in
  decode_value (v_Payload e).

(** ** Requests *)
Record DiscoverRequest := mkDiscover {
  q_Query : string; q_Domains : list string; q_Kinds : list string; q_Tags : list string;
  q_Providers : list string; q_Limit : Z; q_Cursor : string }.

Fixpoint validate_domains (seen : list string) (l : list string) : result Error unit :=
  match l with
  | [] => Ok tt
  | d :: l' =>
      let? _ := guard (validFabricText d 128 && negb (bool_decide (d ∈ seen)))
                  (NewError CodeInvalidInput "Invalid or duplicate discovery scope") in
      validate_domains (d :: seen) l'
  end.

Definition Discover_Validate (r : DiscoverRequest) : result Error unit :=
  let? _ := guard (negb ((4096 <? len (q_Query r)) || negb (utf8_valid (q_Query r)) ||
                         (q_Limit r <? 1) || (100 <? q_Limit r) || (4096 <? len (q_Cursor r)) ||
                         (16 <? Z.of_nat (length (q_Domains r)))))
              (NewError CodeInvalidInput "Discovery bounds exceeded") in
  let? _ := validate_domains [] (q_Domains r) in
  let? _ := guard (negb ((32 <? Z.of_nat (length (q_Kinds r))) || (32 <? Z.of_nat (length (q_Tags r))) ||
                         (32 <? Z.of_nat (length (q_Providers r)))))
              (NewError CodeInvalidInput "Too many search filters") in
  let? _ := guard (forallb ValidNamespacedName (q_Kinds r))
              (NewError CodeInvalidInput "Invalid endpoint kind filter") in
  guard (forallb (fun v => validFabricText v 256) (q_Tags r ++ q_Providers r))
    (NewError CodeInvalidInput "Invalid search filter").

Record DescribeSelection := mkSelection {
  s_Ref : EndpointRef; s_ExpectedRevision : string; s_OffersCursor : string; s_OffersLimit : Z;
  s_IncludeReferenceHandle : bool }.

Fixpoint validate_selections (l : list DescribeSelection) : result Error unit :=
  match l with
  | [] => Ok tt
  | s :: l' =>
      let? _ := ParseEndpointRef (ref_String (s_Ref s)) in
      let? _ := guard (negb ((s_OffersLimit s <? 0) || (100 <? s_OffersLimit s) ||
                             (4096 <? len (s_OffersCursor s)) || (256 <? len (s_ExpectedRevision s))))
                  (NewError CodeInvalidInput "Invalid description page") in
      let? _ := guard (negb (IsOffer (s_Ref s) &&
                             (negb (str_eqb (s_OffersCursor s) "") || negb (s_OffersLimit s =? 0))))
                  (NewError CodeInvalidInput "An exact offer has no sibling page") in
      validate_selections l'
  end.

Definition Describe_Validate (selections : list DescribeSelection) : result Error unit :=
  let n := Z.of_nat (length selections) in
  let? _ := guard (negb ((n <? 1) || (100 <? n)))
              (NewError CodeInvalidInput "Description selection bounds exceeded") in
  validate_selections selections.

Record InvokeRequest := mkInvoke {
  n_InvocationID : string; n_Target : EndpointRef; n_ExpectedRevision : string;
  n_Input : list byte; n_Deadline : option Time; n_IdempotencyKey : string }.

Definition Invoke_Validate (r : InvokeRequest) : result Error unit :=
  let? _ := guard (validFabricText (n_InvocationID r) 256)
              (NewError CodeInvalidInput "Missing invocation identity") in
  let? _ := ParseEndpointRef (ref_String (n_Target r)) in
  let? _ := guard (negb ((256 <? len (n_ExpectedRevision r)) || (256 <? len (n_IdempotencyKey r))))
              (NewError CodeInvalidInput "Invocation bounds exceeded") in
  decode_value (n_Input r).
End validate.

(** ** The Go types of an envelope, as the wire validator sees them *)
Definition field (name tag : string) (t : nat) : StructField :=
  {| f_Name := name; f_PkgPath := ""; f_Anonymous := false; f_Tag := tag; f_Type := t |}.

Definition envelope_types : list TypeDecl :=
  [ (* 0: *Envelope *) mkType (KPointer 1%nat) false false;
    (* 1: Envelope *)
    mkType (KStruct
      [field "ProtocolVersion" "protocolVersion" 2; field "ID" "id" 2;
       field "Operation" "operation" 2; field "Principal" "principal" 3;
       field "Source" "source" 2; field "Target" "target,omitempty" 4;
       field "ExpectedRevision" "expectedRevision,omitempty" 2; field "CreatedAt" "createdAt" 5;
       field "Payload" "payload" 5; field "Metadata" "metadata,omitempty" 2;
       field "Context" "context" 6; field "Trace" "traceContext,omitempty" 7;
       field "RequiredFeatures" "requiredFeatures,omitempty" 8]) false false;
    (* 2: strings, numbers and maps *) mkType KOther false false;
    (* 3: Principal *)
    mkType (KStruct [field "Ref" "ref" 2; field "Kind" "kind" 2; field "Issuer" "issuer" 2]) false false;
    (* 4: *EndpointRef *) mkType (KPointer 9%nat) true false;
    (* 5: time.Time and json.RawMessage: *T implements json.Unmarshaler *)
    mkType KOther false true;
    (* 6: EnvelopeContext *)
    mkType (KStruct
      [field "ParentID" "parentId,omitempty" 2; field "Origin" "origin" 2;
       field "Ancestry" "ancestry,omitempty" 8; field "Hops" "hops" 2;
       field "Deadline" "deadline,omitempty" 10; field "IdempotencyKey" "idempotencyKey,omitempty" 2;
       field "ExtensionChain" "extensionChain,omitempty" 8;
       field "TriggerLineage" "triggerLineage,omitempty" 8]) false false;
    (* 7: TraceContext *)
    mkType (KStruct
      [field "TraceParent" "traceparent,omitempty" 2; field "TraceState" "tracestate,omitempty" 2;
       field "Baggage" "baggage,omitempty" 2]) false false;
    (* 8: []string *) mkType (KSlice 2%nat) false false;
    (* 9: EndpointRef: *EndpointRef implements json.Unmarshaler *)
    mkType KOther false true;
    (* 10: *time.Time *) mkType (KPointer 5%nat) true false ].

Class EnvelopeJson := {
  decode_envelope : list byte -> option Envelope;
  marshal_envelope : Envelope -> option (list byte);
}.

(** ** identity.go *)
Record Provenance := mkProvenance {
  pv_Origin : string; pv_ParentID : string; pv_Ancestry : list string; pv_Hops : Z;
  pv_ExtensionChain : list string; pv_TriggerLineage : list string }.

(** [authenticationEvidence] is an opaque in-process value; a number stands for
    its identity. *)
Record ExecutionContext := mkContext {
  ec_evidence : option nat; ec_principal : Principal; ec_audience : string;
  ec_originalDigest : list byte; ec_verified : bool; ec_provenance : Provenance }.

Section identity.
Context `{Sha256, JsonDecoder, EnvelopeJson}.

Definition unauthenticated (m : string) : Error := NewError CodeUnauthenticated m.

Definition NewAuthenticatedContext (principal : Principal) (audience : string)
    (originalBytes : list byte) : result Error ExecutionContext :=
  let? _ := guard (negb (negb (validFabricText (p_Ref principal) 4096) ||
                         negb (validFabricText (p_Issuer principal) 4096) ||
                         negb (ValidNamespacedName (p_Kind principal)) ||
                         negb (validFabricText audience 4096) || (blen originalBytes =? 0)))
              (unauthenticated "Invalid authenticated context") in
  Ok {| ec_evidence := None; ec_principal := principal; ec_audience := audience;
        ec_originalDigest := sha256 originalBytes; ec_verified := true;
        ec_provenance := mkProvenance (p_Ref principal) "" [] 0 [] [] |}.

Definition set_evidence (c : ExecutionContext) (e : nat) : ExecutionContext :=
  mkContext (Some e) (ec_principal c) (ec_audience c) (ec_originalDigest c) (ec_verified c)
    (ec_provenance c).

Definition NewAuthenticatedContextWithEvidence (principal : Principal) (audience : string)
    (exactOriginal : list byte) (evidence : option nat) : result Error ExecutionContext :=
  match evidence with
  | None => Err (unauthenticated "Missing private authentication evidence")
  | Some e => let? c := NewAuthenticatedContext principal audience exactOriginal in
              Ok (set_evidence c e)
  end.

Definition validateProvenance (p : Provenance) : result Error unit :=
  let? _ := guard (negb (negb (validFabricText (pv_Origin p) 4096) || (64 <? pv_Hops p) ||
                         too_long (pv_Ancestry p) || too_long (pv_ExtensionChain p) ||
                         too_long (pv_TriggerLineage p)))
              (unauthenticated "Invalid authenticated engine lineage") in
  let? _ := guard (forallb (fun v => validFabricText v 256)
                     (pv_Ancestry p ++ pv_ExtensionChain p ++ pv_TriggerLineage p))
              (unauthenticated "Invalid authenticated engine lineage") in
  guard (negb (negb (str_eqb (pv_ParentID p) "") && negb (validFabricText (pv_ParentID p) 256)))
    (unauthenticated "Invalid authenticated parent").

Definition NewAuthenticatedForwardContext (principal : Principal) (audience : string)
    (exactBytes : list byte) (verifiedProvenance : Provenance) : result Error ExecutionContext :=
  let? c := NewAuthenticatedContext principal audience exactBytes in
  let? _ := validateProvenance verifiedProvenance in
  Ok (mkContext (ec_evidence c) (ec_principal c) (ec_audience c) (ec_originalDigest c)
        (ec_verified c) verifiedProvenance).

Definition NewAuthenticatedForwardContextWithEvidence (principal : Principal) (audience : string)
    (exactOriginal : list byte) (provenance : Provenance) (evidence : option nat) :
    result Error ExecutionContext :=
  match evidence with
  | None => Err (unauthenticated "Missing private forward evidence")
  | Some e => let? c := NewAuthenticatedForwardContext principal audience exactOriginal provenance in
              Ok (set_evidence c e)
  end.

Definition VerifyAuthenticated (c : ExecutionContext) (audience : string) : result Error unit :=
  guard (ec_verified c && str_eqb (ec_audience c) audience)
    (unauthenticated "Invalid authenticated infrastructure admission").

Definition VerifyAuthenticatedDigest (c : ExecutionContext) (expected : list byte) (audience : string) :
    result Error unit :=
  guard (is_ok (VerifyAuthenticated c audience) && bool_decide (ec_originalDigest c = expected))
    (unauthenticated "Private authenticated original binding mismatch").

Definition VerifyAuthenticatedData (c : ExecutionContext) (exact : list byte) (audience : string) :
    result Error unit :=
  guard (ec_verified c && str_eqb (ec_audience c) audience && negb (blen exact =? 0) &&
         bool_decide (ec_originalDigest c = sha256 exact))
    (unauthenticated "Authenticated control binding mismatch").

Definition lineage_matches (p : Provenance) (x : EnvelopeContext) : bool :=
  str_eqb (pv_Origin p) (x_Origin x) && str_eqb (pv_ParentID p) (x_ParentID x) &&
  (pv_Hops p =? x_Hops x) && bool_decide (pv_Ancestry p = x_Ancestry x) &&
  bool_decide (pv_ExtensionChain p = x_ExtensionChain x) &&
  bool_decide (pv_TriggerLineage p = x_TriggerLineage x).

Definition DecodeVerifiedEnvelope (c : ExecutionContext) (exactBytes : list byte) (audience : string) :
    result Error Envelope :=
  let? _ := guard (ec_verified c && str_eqb (ec_audience c) audience &&
                   bool_decide (ec_originalDigest c = sha256 exactBytes))
              (unauthenticated "Authenticated request binding mismatch") in
  let? _ := DecodeJSON envelope_types exactBytes (Some 0%nat)
              (fun raw => match decode_envelope raw with Some _ => Decoded | None => ShapeMismatch end) in
  let? envelope := of_option (decode_envelope exactBytes)
                     (protocolError "JSON document does not match the requested shape.") in
  let? _ := guard (bool_decide (ec_principal c = v_Principal envelope) &&
                   str_eqb (p_Ref (ec_principal c)) (v_Source envelope))
              (unauthenticated "Authenticated principal mismatch") in
  let? _ := guard (lineage_matches (ec_provenance c) (v_Context envelope))
              (unauthenticated "Caller assertion cannot manufacture engine lineage") in
  let? _ := Envelope_Validate envelope in
  Ok envelope.

Definition VerifyBinding (c : ExecutionContext) (original : Envelope) (exactBytes : list byte)
    (audience : string) : result Error unit :=
  let? decoded := DecodeVerifiedEnvelope c exactBytes audience in
  let? a := of_option (marshal_envelope decoded)
              (protocolError "Invalid original envelope") in
  let? b := of_option (marshal_envelope original)
              (unauthenticated "Authenticated request binding mismatch") in
  guard (bool_decide (a = b)) (unauthenticated "Authenticated request binding mismatch").
End identity.
End Model.

(** ** reference_handle.go *)
Module Handle.
Import Ref.

Definition ReferenceHandleSlotMax : Z := 1000000000.
Definition ReferenceHandleRevisionMax : Z := 1000000000.

(** [%d] of a uint64: at most 20 digits. *)
Definition digit_char (d : Z) : ascii := ascii_of_N (Z.to_N (48 + d)).
Fixpoint print_fuel (fuel : nat) (n : Z) : string :=
  match fuel with
  | O => ""
  | S fuel' => if n <? 10 then String (digit_char n) ""
               else String.append (print_fuel fuel' (n / 10)) (String (digit_char (n mod 10)) "")
  end.
Definition print_uint (n : Z) : string := print_fuel 20 n.

Definition FormatReferenceHandle (slot revision : Z) : string :=
  String.append "#" (String.append (print_uint slot) (String.append ".r" (print_uint revision))).

(** The digit loop of [handleNumber], from the current position. *)
Fixpoint span_digits (s : string) : string * string :=
  match s with
  | String c s' => if is_digit c then let '(ds, rest) := span_digits s' in (String c ds, rest)
                   else ("", s)
  | "" => ("", "")
  end.

(** The value and the rest of the text; an eleventh digit is refused. *)
Definition handleNumber (s : string) : option (Z * string) :=
  match s with
  | String c _ =>
      if between 49 57 c then
        let '(ds, rest) := span_digits s in
        if 10 <? len ds then None else Some (parse_digits 0 ds, rest)
      else None
  | "" => None
  end.

Definition ParseReferenceHandle (text : string) : result Error (Z * Z) :=
  let bad := referenceInputError "invalid reference handle" in
  let? _ := guard (negb (len text <? 4) && has_prefix text "#") bad in
  let? '(slot, rest) := of_option (handleNumber (str_drop 1 text)) bad in
  let? _ := guard (negb (ReferenceHandleSlotMax <? slot) && has_prefix rest ".r") bad in
  let? '(revision, rest) := of_option (handleNumber (str_drop 2 rest)) bad in
  let? _ := guard (negb (ReferenceHandleRevisionMax <? revision) && str_eqb rest "") bad in
  Ok (slot, revision).

(** *** Decimal printing *)
Lemma print_fuel_S f n : print_fuel (S f) n =
  if n <? 10 then String (digit_char n) ""
  else String.append (print_fuel f (n / 10)) (String (digit_char (n mod 10)) "").
Proof. done. Qed.

Lemma print_fuel_mono f n : 0 <= n < 10 ^ Z.of_nat f -> (0 < f)%nat -> print_fuel (S f) n = print_fuel f n.
Proof.
  revert n. induction f as [|f IH]; intros n Hn Hf; [lia|]. cbn [print_fuel].
  destruct (n <? 10) eqn:E; [done|]. f_equal.
  destruct f as [|f].
  - change (10 ^ Z.of_nat 1) with 10 in Hn. lia.
  - apply (IH (n / 10)); [|lia]. rewrite (Nat2Z.inj_succ (S f)), Z.pow_succ_r in Hn by lia.
    split; [apply Z.div_pos; lia|]. apply Z.div_lt_upper_bound; lia.
Qed.

Lemma print_snoc f v d : 1 <= v < 10 ^ Z.of_nat f -> 0 <= d < 10 -> (0 < f)%nat ->
  print_fuel (S f) (10 * v + d) = String.append (print_fuel f v) (String (digit_char d) "").
Proof.
  intros Hv Hd Hf. cbn [print_fuel]. replace (10 * v + d <? 10) with false by lia.
  rewrite (Z.mul_comm 10 v). rewrite Z.div_add_l by lia. rewrite Z.div_small by lia.
  rewrite Z.add_0_r. f_equal. rewrite Z.add_comm, Z.mod_add by lia. by rewrite Z.mod_small.
Qed.

Lemma code_digit d : 0 <= d < 10 -> code (digit_char d) = 48 + d /\ is_digit (digit_char d) = true.
Proof.
  intros Hd. assert (exists n, (n < 10)%nat /\ d = Z.of_nat n) as (n & Hn & ->).
  { exists (Z.to_nat d). lia. }
  do 10 (destruct n as [|n]; [by vm_compute|]). lia.
Qed.

Lemma is_digit_char c : is_digit c = true -> c = digit_char (code c - 48) /\ 0 <= code c - 48 < 10.
Proof.
  unfold is_digit, between, code. intros Hc. rinv. split; [|lia]. unfold digit_char.
  replace (48 + (Z.of_N (N_of_ascii c) - 48)) with (Z.of_N (N_of_ascii c)) by lia.
  by rewrite N2Z.id, ascii_N_embedding.
Qed.

(** What [print_uint] writes: digits, no leading zero, denoting the number. *)
Lemma parse_digits_app acc a b : parse_digits acc (String.append a b) = parse_digits (parse_digits acc a) b.
Proof. revert acc. induction a as [|c a IH]; intros acc; [done|]. simpl. apply IH. Qed.

Definition numeral (s : string) : bool :=
  match s with String c _ => between 49 57 c && str_forallb is_digit s | "" => false end.

Lemma numeral_snoc s d : numeral s = true -> 0 <= d < 10 ->
  numeral (String.append s (String (digit_char d) "")) = true.
Proof.
  destruct s as [|c s]; [done|]. intros Hs Hd. cbn [String.append numeral] in *. rinv.
  apply andb_true_iff. split; [done|].
  change (String c (String.append s (String (digit_char d) "")))
    with (String.append (String c s) (String (digit_char d) "")).
  rewrite str_forallb_append. apply andb_true_iff. split; [done|]. cbn. by rewrite (proj2 (code_digit d Hd)).
Qed.

Lemma print_numeral f n : (0 < f)%nat -> 1 <= n < 10 ^ Z.of_nat f ->
  numeral (print_fuel f n) = true /\ parse_digits 0 (print_fuel f n) = n /\
  (String.length (print_fuel f n) <= f)%nat.
Proof.
  revert n. induction f as [|f IH]; intros n Hf Hn; [lia|]. rewrite print_fuel_S.
  destruct (n <? 10) eqn:E.
  - destruct (code_digit n ltac:(lia)) as [Hc Hd].
    cbn [numeral parse_digits String.length str_forallb]. rewrite Hd.
    split; [|split; lia]. unfold between. lia.
  - destruct f as [|f]; [change (10 ^ Z.of_nat 1) with 10 in Hn; lia|].
    rewrite (Nat2Z.inj_succ (S f)), Z.pow_succ_r in Hn by lia.
    assert (1 <= n / 10 < 10 ^ Z.of_nat (S f)) as Hq.
    { split; [apply Z.div_le_lower_bound; lia | apply Z.div_lt_upper_bound; lia]. }
    destruct (IH (n / 10) ltac:(lia) Hq) as (Hnum & Hval & Hlen).
    pose proof (Z.mod_pos_bound n 10) as Hm.
    split; [apply numeral_snoc; [done|lia]|]. split.
    + rewrite parse_digits_app, Hval. cbn [parse_digits].
      rewrite (proj1 (code_digit _ (Hm ltac:(lia)))). pose proof (Z.div_mod n 10 ltac:(lia)). lia.
    + rewrite length_append. cbn [String.length]. lia.
Qed.

Lemma parse_digits_ge s acc : 1 <= acc -> str_forallb is_digit s = true ->
  acc <= parse_digits acc s /\ parse_digits acc s < (acc + 1) * 10 ^ len s.
Proof.
  unfold len. revert acc. induction s as [|c s IH]; intros acc Ha Hs; cbn [str_forallb parse_digits String.length] in *.
  - simpl. lia.
  - rinv. match goal with H : is_digit c = true |- _ => destruct (is_digit_char c H) as [_ ?] end.
    destruct (IH (acc * 10 + (code c - 48))) as [Hlo Hhi]; [lia|done|].
    rewrite Nat2Z.inj_succ, Z.pow_succ_r by lia. nia.
Qed.

(** Digit strings are determined by their value: printing it gives them back. *)
Lemma print_parse_digits s : forall f v, str_forallb is_digit s = true -> 1 <= v < 10 ^ Z.of_nat f ->
  (0 < f)%nat -> print_fuel (f + String.length s) (parse_digits v s) = String.append (print_fuel f v) s.
Proof.
  induction s as [|c s IH]; intros f v Hs Hv Hf; cbn [str_forallb parse_digits String.length] in *.
  - by rewrite append_nil_r, Nat.add_0_r.
  - rinv. match goal with H : is_digit c = true |- _ => destruct (is_digit_char c H) as [Hc Hb] end.
    replace (f + S (String.length s))%nat with (S f + String.length s)%nat by lia.
    rewrite IH; [|done| |lia].
    + rewrite (Z.mul_comm v 10), print_snoc by done. rewrite append_assoc. cbn [String.append].
      by rewrite <- Hc.
    + rewrite Nat2Z.inj_succ, Z.pow_succ_r by lia. lia.
Qed.

Lemma print_fuel_stable f k n : (0 < f)%nat -> 0 <= n < 10 ^ Z.of_nat f ->
  print_fuel (f + k) n = print_fuel f n.
Proof.
  intros Hf Hn. induction k as [|k IH]; [by rewrite Nat.add_0_r|].
  rewrite Nat.add_succ_r, print_fuel_mono; [done| |lia].
  split; [lia|]. eapply Z.lt_le_trans; [apply Hn|]. apply Z.pow_le_mono_r; lia.
Qed.

Lemma print_of_numeral s : numeral s = true -> (String.length s <= 10)%nat ->
  print_uint (parse_digits 0 s) = s /\ 1 <= parse_digits 0 s.
Proof.
  destruct s as [|c s]; [done|]. cbn [numeral String.length]. intros Hn Hlen. rinv.
  cbn [str_forallb] in *. rinv. unfold between in *. rinv.
  match goal with H : is_digit c = true |- _ => destruct (is_digit_char c H) as [Hc Hb] end.
  cbn [parse_digits]. rewrite Z.mul_0_l, Z.add_0_l.
  match goal with H : str_forallb is_digit s = true |- _ =>
    pose proof (parse_digits_ge s (code c - 48) ltac:(lia) H) as [Hge Hlt];
    pose proof (print_parse_digits s 1 (code c - 48) H) as Hp end.
  split; [|lia]. unfold print_uint.
  replace 20%nat with ((1 + String.length s) + (19 - String.length s))%nat by lia.
  rewrite print_fuel_stable; [|lia|].
  - rewrite Hp by (change (10 ^ Z.of_nat 1) with 10; lia).
    cbn [print_fuel]. replace (code c - 48 <? 10) with true by lia. cbn [String.append]. by rewrite <- Hc.
  - split; [lia|]. unfold len in Hlt. rewrite Nat2Z.inj_add, Z.pow_add_r by lia.
    change (10 ^ Z.of_nat 1) with 10. nia.
Qed.

Lemma span_digits_app ds rest : str_forallb is_digit ds = true ->
  match rest with String c _ => is_digit c = false | "" => True end ->
  span_digits (String.append ds rest) = (ds, rest).
Proof.
  induction ds as [|c ds IH]; intros Hd Hr; cbn [String.append].
  - destruct rest as [|c rest]; [done|]. cbn. by rewrite Hr.
  - cbn [str_forallb] in Hd. rinv. cbn [span_digits]. rewrite H, IH by done. done.
Qed.

Lemma span_digits_inv s ds rest : span_digits s = (ds, rest) ->
  s = String.append ds rest /\ str_forallb is_digit ds = true.
Proof.
  revert ds rest. induction s as [|c s IH]; intros ds rest Hs; cbn [span_digits] in Hs; [by simplify_eq|].
  destruct (is_digit c) eqn:Ec; [|by simplify_eq].
  destruct (span_digits s) as [ds' rest']. simplify_eq. destruct (IH ds' rest eq_refl) as [-> Hd].
  split; [done|]. cbn. by rewrite Ec.
Qed.

Lemma handleNumber_numeral ds rest : numeral ds = true -> (String.length ds <= 10)%nat ->
  match rest with String c _ => is_digit c = false | "" => True end ->
  handleNumber (String.append ds rest) = Some (parse_digits 0 ds, rest).
Proof.
  destruct ds as [|c ds]; [done|]. intros Hn Hlen Hr. unfold handleNumber. cbn [String.append].
  cbn [numeral] in Hn. rinv. rewrite H.
  change (String c (String.append ds rest)) with (String.append (String c ds) rest).
  rewrite span_digits_app by done. unfold len. by replace (10 <? _) with false by lia.
Qed.

Lemma handleNumber_inv s v rest : handleNumber s = Some (v, rest) ->
  exists ds, s = String.append ds rest /\ numeral ds = true /\ (String.length ds <= 10)%nat /\
    v = parse_digits 0 ds.
Proof.
  unfold handleNumber. destruct s as [|c s]; [done|]. destruct (between 49 57 c) eqn:Eb; [|done].
  assert (is_digit c = true) as Ec by (unfold is_digit, between in *; lia).
  cbn [span_digits]. rewrite Ec. destruct (span_digits s) as [ds rest'] eqn:Es.
  destruct (10 <? len (String c ds)) eqn:El; [done|]. intros [= <- <-].
  apply span_digits_inv in Es as [-> Hd]. exists (String c ds). split; [done|].
  cbn [numeral str_forallb]. rewrite Eb, Ec, Hd. split; [done|]. unfold len in El. split; [lia|done].
Qed.

Lemma format_ok slot revision :
  1 <= slot <= ReferenceHandleSlotMax -> 1 <= revision <= ReferenceHandleRevisionMax ->
  ParseReferenceHandle (FormatReferenceHandle slot revision) = Ok (slot, revision).
Proof.
  unfold ReferenceHandleSlotMax, ReferenceHandleRevisionMax. intros Hs Hr.
  assert (forall n, 1 <= n <= 1000000000 -> print_uint n = print_fuel 10 n) as Hp.
  { intros n Hn. unfold print_uint. change 20%nat with (10 + 10)%nat. apply print_fuel_stable; lia. }
  destruct (print_numeral 10 slot) as (Hsn & Hsv & Hsl); [lia|lia|].
  destruct (print_numeral 10 revision) as (Hrn & Hrv & Hrl); [lia|lia|].
  unfold FormatReferenceHandle. rewrite !Hp by done.
  set (a := print_fuel 10 slot) in *. set (b := print_fuel 10 revision) in *.
  unfold ParseReferenceHandle. cbv zeta.
  assert (1 <= len a) by (destruct a; [done|unfold len; simpl; lia]).
  assert (1 <= len b) by (destruct b; [done|unfold len; simpl; lia]).
  replace (len (String.append "#" (String.append a (String.append ".r" b))) <? 4) with false
    by (rewrite !len_append; unfold len at 1 3; simpl; lia).
  rewrite has_prefix_append.
  cbn [negb andb guard rbind].
  change (str_drop 1 (String.append "#" (String.append a (String.append ".r" b))))
    with (String.append a (String.append ".r" b)).
  rewrite handleNumber_numeral by done. cbn [of_option rbind]. rewrite Hsv.
  replace (ReferenceHandleSlotMax <? slot) with false by (unfold ReferenceHandleSlotMax; lia).
  rewrite has_prefix_append. cbn [negb andb guard rbind].
  change (str_drop 2 (String.append ".r" b)) with b. rewrite <- (append_nil_r b) at 1.
  rewrite handleNumber_numeral by done. cbn [of_option rbind]. rewrite Hrv.
  replace (ReferenceHandleRevisionMax <? revision) with false by (unfold ReferenceHandleRevisionMax; lia).
  done.
Qed.

Lemma parse_ok text slot revision :
  ParseReferenceHandle text = Ok (slot, revision) ->
  1 <= slot <= ReferenceHandleSlotMax /\ 1 <= revision <= ReferenceHandleRevisionMax /\
  FormatReferenceHandle slot revision = text.
Proof.
  unfold ParseReferenceHandle. cbv zeta. intros Hp.
  apply rbind_Ok in Hp as ([] & Hg & Hp). apply rbind_Ok in Hp as ([s1 rest1] & Hn1 & Hp).
  apply rbind_Ok in Hp as ([] & Hg1 & Hp). apply rbind_Ok in Hp as ([r1 rest2] & Hn2 & Hp).
  apply rbind_Ok in Hp as ([] & Hg2 & Hp). rinv.
  destruct (handleNumber (str_drop 1 text)) as [[v1 t1]|] eqn:E1; cbn in Hn1; [|done].
  destruct (handleNumber (str_drop 2 rest1)) as [[v2 t2]|] eqn:E2; cbn in Hn2; [|done]. simplify_eq.
  apply handleNumber_inv in E1 as (ds1 & Ht1 & Hnum1 & Hl1 & ->).
  apply handleNumber_inv in E2 as (ds2 & Ht2 & Hnum2 & Hl2 & ->).
  destruct (print_of_numeral _ Hnum1 Hl1) as [Hp1 Hge1].
  destruct (print_of_numeral _ Hnum2 Hl2) as [Hp2 Hge2].
  split; [lia|]. split; [lia|]. unfold FormatReferenceHandle. rewrite Hp1, Hp2.
  repeat match goal with H : has_prefix ?t ?p = true |- _ => apply has_prefix_spec in H as (? & ->) end.
  match goal with H : str_eqb _ "" = true |- _ => apply str_eqb_eq in H; subst end.
  rewrite append_nil_r in Ht2.
  unfold str_drop in Ht1, Ht2. cbn [String.append] in *. by subst.
Qed.
End Handle.

Module ModelProps.
Import Ref Wire Model Handle.

Lemma new_context_inv `{Sha256} p aud bytes c :
  NewAuthenticatedContext p aud bytes = Ok c ->
  c = mkContext None p aud (sha256 bytes) true (mkProvenance (p_Ref p) "" [] 0 [] []) /\
  bytes <> [].
Proof. unfold NewAuthenticatedContext. intros Hc. rinv. split; [done|]. by intros ->. Qed.

Lemma decode_verified_inv `{Sha256, JsonDecoder, EnvelopeJson} c exact audience e :
  DecodeVerifiedEnvelope c exact audience = Ok e ->
  ec_verified c = true /\ ec_audience c = audience /\ ec_originalDigest c = sha256 exact /\
  v_Principal e = ec_principal c /\ v_Source e = p_Ref (ec_principal c) /\
  lineage_matches (ec_provenance c) (v_Context e) = true /\ Envelope_Validate e = Ok tt /\
  blen exact <= 2 ^ 20.
Proof.
  unfold DecodeVerifiedEnvelope. intros Hd. do 2 apply rbind_Ok in Hd as ([] & ? & Hd).
  apply rbind_Ok in Hd as (e' & He & Hd). do 3 apply rbind_Ok in Hd as ([] & ? & Hd). rinv.
  repeat match goal with H : str_eqb _ _ = true |- _ => apply str_eqb_eq in H end.
  match goal with H : DecodeJSON _ _ _ _ = Ok _ |- _ => rename H into Hj end.
  unfold DecodeJSON, DecodeJSONWithLimits in Hj. do 2 apply rbind_Ok in Hj as ([] & ? & Hj). rinv.
  cbn [DefaultWireLimits Wire.MaxBytes] in *. split_and!; try done; lia.
Qed.

(** Friendly handles: formatting and parsing are inverse on the slots and
    revisions within their bounds, and nothing but the exact form
    "#<slot>.r<revision>" without leading zeros parses. *)
Theorem reference_handles_round_trip (slot revision : Z) (text : string) :
  (1 <= slot <= ReferenceHandleSlotMax -> 1 <= revision <= ReferenceHandleRevisionMax ->
   ParseReferenceHandle (FormatReferenceHandle slot revision) = Ok (slot, revision)) /\
  (ParseReferenceHandle text = Ok (slot, revision) ->
   1 <= slot <= ReferenceHandleSlotMax /\ 1 <= revision <= ReferenceHandleRevisionMax /\
   FormatReferenceHandle slot revision = text).
Proof. split; [apply format_ok | apply parse_ok]. Qed.

(** A caller can neither act as another principal nor manufacture engine
    lineage: an envelope decoded under a context built for a caller's bytes has the
    digest, audience and principal the authenticator verified, no ancestry, hops,
    extension chain or trigger lineage of its own, and is valid and bounded; under
    a forwarded context its lineage is exactly the verified one. *)
Theorem caller_cannot_forge_identity_or_lineage `{Sha256, JsonDecoder, EnvelopeJson}
    (p : Principal) (aud audience : string) (bytes exact : list byte) (pv : Provenance)
    (c cf : ExecutionContext) (e ef : Envelope) :
  NewAuthenticatedContext p aud bytes = Ok c -> DecodeVerifiedEnvelope c exact audience = Ok e ->
  NewAuthenticatedForwardContext p aud bytes pv = Ok cf ->
  DecodeVerifiedEnvelope cf exact audience = Ok ef ->
  (audience = aud /\ sha256 exact = sha256 bytes /\ v_Principal e = p /\ v_Source e = p_Ref p /\
   blen exact <= 2 ^ 20 /\ Envelope_Validate e = Ok tt /\
   exists d k, v_Context e = mkEnvContext "" (p_Ref p) [] 0 d k [] []) /\
  (v_Principal ef = p /\ Envelope_Validate ef = Ok tt /\
   (exists d k, v_Context ef = mkEnvContext (pv_ParentID pv) (pv_Origin pv) (pv_Ancestry pv) (pv_Hops pv)
                                 d k (pv_ExtensionChain pv) (pv_TriggerLineage pv)) /\
   pv_Hops pv <= 64 /\ Z.of_nat (length (pv_Ancestry pv)) <= 64).
Proof.
  intros Hc He Hcf Hef. unfold NewAuthenticatedForwardContext in Hcf.
  apply rbind_Ok in Hcf as (c1 & Hc1 & Hcf). apply rbind_Ok in Hcf as ([] & Hpv & Hcf).
  apply new_context_inv in Hc as [-> _]. apply new_context_inv in Hc1 as [-> _]. rinv.
  apply decode_verified_inv in He as (_ & <- & Hd & -> & -> & Hl & Hv & Hlen).
  apply decode_verified_inv in Hef as (_ & _ & _ & -> & _ & Hl' & Hv' & _).
  unfold lineage_matches, validateProvenance, too_long in *. rinv.
  cbn [ec_provenance ec_principal ec_originalDigest ec_audience ec_verified pv_Origin pv_ParentID pv_Ancestry
       pv_Hops pv_ExtensionChain pv_TriggerLineage] in *.
  repeat match goal with H : str_eqb _ _ = true |- _ => apply str_eqb_eq in H end.
  destruct (v_Context e) as [a1 a2 a3 a4 a5 a6 a7 a8], (v_Context ef) as [b1 b2 b3 b4 b5 b6 b7 b8].
  cbn [x_ParentID x_Origin x_Ancestry x_Hops x_ExtensionChain x_TriggerLineage] in *. subst.
  split; [|split; [done|]; split; [done|]; split; [|lia]].
  - split_and!; try done. exists a5, a6. f_equal. lia.
  - exists b5, b6. f_equal. lia.
Qed.
End ModelProps.

Module ModelWitness.
Import Ref Wire Model Handle ModelProps RefWitness WireWitness.

Definition sample_principal : Principal := mkPrincipal "user:ann" "user.human" "issuer".

Definition sample_envelope : Envelope :=
  {| v_ProtocolVersion := "1.0"; v_ID := "env-1"; v_Operation := "invoke";
     v_Principal := sample_principal; v_Source := "user:ann"; v_Target := Some sample_ref;
     v_ExpectedRevision := "r1"; v_CreatedAt := 1; v_Payload := [x7b; x7d]; v_Metadata := ∅;
     v_Context := mkEnvContext "" "user:ann" [] 0 None "" [] []; v_Trace := mkTrace "" "" "";
     v_RequiredFeatures := [] |}.

#[export] Instance toy_envelope_json : EnvelopeJson :=
  {| decode_envelope := fun _ => Some sample_envelope; marshal_envelope := fun _ => Some [] |}.

Lemma reference_handles_witness :
  FormatReferenceHandle 7 3 = "#7.r3" /\ ParseReferenceHandle "#7.r3" = Ok (7, 3).
Proof.
  split; [vm_compute; reflexivity|].
  change "#7.r3" with (FormatReferenceHandle 7 3).
  apply (proj1 (reference_handles_round_trip 7 3 "")); unfold ReferenceHandleSlotMax, ReferenceHandleRevisionMax; lia.
Defined.

Lemma caller_cannot_forge_witness :
  exists c e, NewAuthenticatedContext sample_principal "aud" [x01] = Ok c /\
    DecodeVerifiedEnvelope c [x01] "aud" = Ok e /\ v_Source e = p_Ref sample_principal.
Proof.
  eexists _, sample_envelope. split; [vm_compute; reflexivity|]. split; [vm_compute; reflexivity|].
  edestruct (caller_cannot_forge_identity_or_lineage sample_principal "aud" "aud" [x01] [x01]
    (mkProvenance "user:ann" "" [] 0 [] [])) as [(_ & _ & _ & Hs & _) _];
    [vm_compute; reflexivity | vm_compute; reflexivity | vm_compute; reflexivity | vm_compute; reflexivity |].
  exact Hs.
Defined.
End ModelWitness.
