(* ===== verification/Stream.v ===== *)
(** * Invocation streams and replay (src/fabric/stream.go, replay.go)

    [CheckedStream] verifies the framing of an invocation response frame by
    frame. Its environment (context cancellation, what the upstream delivers, a
    concurrent Close) is an explicit input of every [Next], so the theorems hold
    for every upstream and every interleaving of Next and Close. *)
From Stdlib Require Import Ascii Strings.Byte ZArith Lia.
From S2P Require Import Prelude GoStrings FabricRef Framing Wire FabricModel.
#[local] Open Scope Z_scope.

(** Errors of calls that also meet contexts and upstreams. *)
Inductive CallError :=
| FabricError (e : Error)
| ContextError (deadline : bool)   (** context.Canceled or DeadlineExceeded *)
| EOF                              (** io.EOF *)
| OtherError (n : nat).            (** any other error value of the callee *)

#[export] Instance call_error_eq_dec : EqDecision CallError.
Proof. solve_decision. Defined.

Module Replay.
Import Ref Model.

Record ReplayAssociation := mkAssociation {
  ra_Version : Z; ra_AuthorityNamespace : string; ra_AuthorityStoreID : string;
  ra_AuthorityKeyRevision : Z; ra_Principal : Principal; ra_RequestID : string;
  ra_ExecutionID : string; ra_Target : EndpointRef; ra_ExpectedRevision : string;
  ra_OriginalRequestSHA : list byte; ra_FinalizedRequestSHA : list byte; ra_InputSHA : list byte;
  ra_IdempotencySHA : list byte; ra_BindingFingerprint : list byte;
  ra_OriginalReceiptSHA : list byte; ra_Proof : list byte }.

Record ReplayRequest := mkReplayRequest {
  rq_Principal : Principal; rq_RequestID : string; rq_Target : EndpointRef;
  rq_ExpectedRevision : string; rq_OriginalRequestSHA : list byte;
  rq_FinalizedRequestSHA : list byte; rq_InputSHA : list byte; rq_IdempotencySHA : list byte }.

Definition MaxReplayAssociationBytes : Z := 128 * 1024.

(** json.Marshal of an association. *)
Class ReplayJson := { marshal_association : ReplayAssociation -> option (list byte) }.

(** A verifier's answer, [None] for nil. *)
Definition ReplayVerifier : Type :=
  ExecutionContext -> ReplayRequest -> ReplayAssociation -> option CallError.

Section replay.
Context `{Sha256, ReplayJson}.

Definition Association_Validate (a : ReplayAssociation) : result Error unit :=
  let zero := Frames.zero32 in
  let? _ := guard (negb (
      negb (ra_Version a =? 1) || negb (validFabricText (ra_AuthorityNamespace a) 4096) ||
      negb (validFabricText (ra_AuthorityStoreID a) 256) || (ra_AuthorityKeyRevision a =? 0) ||
      negb (validFabricText (p_Ref (ra_Principal a)) 4096) ||
      negb (ValidNamespacedName (p_Kind (ra_Principal a))) ||
      negb (validFabricText (p_Issuer (ra_Principal a)) 4096) ||
      negb (validFabricText (ra_RequestID a) 256) || negb (validFabricText (ra_ExecutionID a) 256) ||
      str_eqb (ra_RequestID a) (ra_ExecutionID a) || str_eqb (ref_String (ra_Target a)) "" ||
      (negb (str_eqb (ra_ExpectedRevision a) "") && negb (validFabricText (ra_ExpectedRevision a) 256)) ||
      bool_decide (ra_OriginalRequestSHA a = zero) || bool_decide (ra_FinalizedRequestSHA a = zero) ||
      bool_decide (ra_InputSHA a = zero) || bool_decide (ra_IdempotencySHA a = zero) ||
      bool_decide (ra_BindingFingerprint a = zero) || bool_decide (ra_OriginalReceiptSHA a = zero) ||
      (blen (ra_Proof a) =? 0) || (8192 <? blen (ra_Proof a))))
    (NewError CodeProtocolError "Invalid retained replay association") in
  match marshal_association a with
  | Some encoded =>
      guard (negb (MaxReplayAssociationBytes <? blen encoded))
        (NewError CodeProtocolError "Replay metadata exceeds transport bounds")
  | None => Err (NewError CodeProtocolError "Replay metadata exceeds transport bounds")
  end.

Definition fabric {A} (c : result Error A) : result CallError A :=
  match c with Ok a => Ok a | Err e => Err (FabricError e) end.
Definition context_check (e : option CallError) : result CallError unit :=
  match e with Some e => Err e | None => Ok tt end.

Definition association_matches (a : ReplayAssociation) (current : ReplayRequest) : bool :=
  bool_decide (ra_Principal a = rq_Principal current) &&
  str_eqb (ra_RequestID a) (rq_RequestID current) && bool_decide (ra_Target a = rq_Target current) &&
  str_eqb (ra_ExpectedRevision a) (rq_ExpectedRevision current) &&
  bool_decide (ra_OriginalRequestSHA a = rq_OriginalRequestSHA current) &&
  bool_decide (ra_FinalizedRequestSHA a = rq_FinalizedRequestSHA current) &&
  bool_decide (ra_InputSHA a = rq_InputSHA current) &&
  bool_decide (ra_IdempotencySHA a = rq_IdempotencySHA current).

(** [ctx_before] and [ctx_after] are ctx.Err() at its two reads. The result
    stands for the VerifiedReplayCorrelation that holds the association. *)
Definition VerifyReplayCorrelation (ctx_before ctx_after : option CallError)
    (caller : ExecutionContext) (current : ReplayRequest) (association : ReplayAssociation)
    (verifier : option ReplayVerifier) : result CallError ReplayAssociation :=
  match verifier with
  | None => Err (FabricError (NewError CodeUnauthenticated "Replay verification is not configured"))
  | Some verify =>
      let? _ := context_check ctx_before in
      let? _ := fabric (guard (bool_decide (ec_principal caller = rq_Principal current) &&
                               is_ok (VerifyAuthenticatedDigest caller (rq_OriginalRequestSHA current)
                                        (ec_audience caller)))
                          (NewError CodeUnauthenticated
                             "Replay requires the fresh authenticated original")) in
      let? _ := fabric (Association_Validate association) in
      let? _ := fabric (guard (association_matches association current)
                          (NewError CodeUnauthenticated
                             "Replay association does not match current request")) in
      let? _ := context_check (verify caller current association) in
      let? _ := context_check ctx_after in
      Ok association
  end.
End replay.
End Replay.

Module Stream.
Import Model Replay.

Inductive FrameKind := FrameStart | FrameChunk | FrameProgress | FrameComplete | FrameError
                     | FrameOther (kind : string).
#[export] Instance frame_kind_eq_dec : EqDecision FrameKind.
Proof. solve_decision. Defined.

Definition MaxFrameBytes : Z := 64 * 1024.

Record InvocationFrame := mkFrame {
  fr_InvocationID : string; fr_Sequence : Z; fr_Kind : FrameKind; fr_ContentType : string;
  fr_Data : list byte; fr_Error : option Error }.

(** [closed] is the cancelled lifetime together with the once-only upstream
    close; [closes] counts the upstream Close calls. *)
Record CheckedStream := mkStream {
  cs_id : string; cs_next : Z; cs_terminal : bool; cs_closed : bool; cs_closes : nat }.

Definition NewCheckedStream (id : string) : result Error CheckedStream :=
  let? _ := guard (validFabricText id 256) (NewError CodeInvalidInput "Invalid stream") in
  Ok (mkStream id 0 false false 0).

Definition NewCheckedReplayStream `{ReplayJson} (requestID : string)
    (correlation : option ReplayAssociation) : result Error CheckedStream :=
  match correlation with
  | Some a =>
      let? _ := guard (is_ok (Association_Validate a) && str_eqb (ra_RequestID a) requestID)
                  (NewError CodeUnauthenticated "Missing verified replay correlation") in
      NewCheckedStream (ra_ExecutionID a)
  | None => Err (NewError CodeUnauthenticated "Missing verified replay correlation")
  end.

(** [closeOnce]: the upstream is closed the first time only. *)
Definition Stream_Close (s : CheckedStream) : CheckedStream :=
  mkStream (cs_id s) (cs_next s) (cs_terminal s) true
    (if cs_closed s then cs_closes s else S (cs_closes s)).

Definition set_terminal (s : CheckedStream) : CheckedStream :=
  mkStream (cs_id s) (cs_next s) true (cs_closed s) (cs_closes s).

Definition stream_fail (s : CheckedStream) (message : string) :
    result CallError InvocationFrame * CheckedStream :=
  (Err (FabricError (NewError CodeProtocolError message)), Stream_Close (set_terminal s)).

(** What one Next meets: whether a context was given, an error of the parent
    lifetime, the upstream's answer, and an error of the call context after it. *)
Record NextIO := mkNextIO {
  nx_ctx : bool; nx_lifetime : option CallError; nx_upstream : result CallError InvocationFrame;
  nx_call : option CallError }.

Definition lifetime_err (s : CheckedStream) (io : NextIO) : option CallError :=
  if cs_closed s then Some (ContextError false) else nx_lifetime io.

(** The switch on the frame's kind: the error message, or whether it ends the
    stream. *)
Definition check_kind (f : InvocationFrame) : result string bool :=
  match fr_Kind f with
  | FrameStart =>
      if negb (blen (fr_Data f) =? 0) || bool_decide (is_Some (fr_Error f))
      then Err "Start contains application content" else Ok false
  | FrameChunk | FrameProgress =>
      if bool_decide (is_Some (fr_Error f)) then Err "Content frame contains an error" else Ok false
  | FrameComplete =>
      if bool_decide (is_Some (fr_Error f)) then Err "Completion contains an error" else Ok true
  | FrameError =>
      if negb (bool_decide (is_Some (fr_Error f))) || negb (blen (fr_Data f) =? 0)
      then Err "Invalid terminal error" else Ok true
  | FrameOther _ => Err "Unknown required stream frame kind"
  end.

Definition check_frame (s : CheckedStream) (f : InvocationFrame) :
    result CallError InvocationFrame * CheckedStream :=
  if negb (str_eqb (fr_InvocationID f) (cs_id s)) || negb (fr_Sequence f =? cs_next s) ||
     (MaxFrameBytes <? blen (fr_Data f))
  then stream_fail s "Invalid stream identity, sequence or frame size"
  else if (cs_next s =? 0) && negb (bool_decide (fr_Kind f = FrameStart))
  then stream_fail s "Stream must begin with start"
  else if (0 <? cs_next s) && bool_decide (fr_Kind f = FrameStart)
  then stream_fail s "Duplicate stream start"
  else match check_kind f with
       | Err m => stream_fail s m
       | Ok terminal =>
           let s := if terminal then set_terminal s else s in
           if cs_next s =? max_uint64 then stream_fail s "Stream sequence overflow"
           else
             let s := mkStream (cs_id s) (wrapu64 (cs_next s + 1)) (cs_terminal s) (cs_closed s)
                        (cs_closes s) in
             (Ok f, if cs_terminal s then Stream_Close s else s)
       end.

Definition Stream_Next (s : CheckedStream) (io : NextIO) :
    result CallError InvocationFrame * CheckedStream :=
  if cs_terminal s then (Err EOF, s)
  else if negb (nx_ctx io)
  then (Err (FabricError (NewError CodeInvalidInput "Missing stream context")), s)
  else match lifetime_err s io with
       | Some e => (Err e, Stream_Close (set_terminal s))
       | None =>
           match nx_upstream io with
           | Err e =>
               (Err (match e with
                     | EOF => FabricError (NewError CodeProtocolError
                                             "Stream ended before terminal frame")
                     | e => e
                     end), Stream_Close (set_terminal s))
           | Ok f =>
               match nx_call io with
               | Some e => (Err e, Stream_Close (set_terminal s))
               | None => check_frame s f
               end
           end
       end.

(** ** Runs: any interleaving of Next and Close *)
Inductive Call := CallNext (io : NextIO) | CallClose.

(** The frames delivered by a run, and the final stream. *)
Fixpoint run_stream (s : CheckedStream) (calls : list Call) : list InvocationFrame * CheckedStream :=
  match calls with
  | [] => ([], s)
  | CallClose :: calls => run_stream (Stream_Close s) calls
  | CallNext io :: calls =>
      match Stream_Next s io with
      | (Ok f, s') => let '(fs, s'') := run_stream s' calls in (f :: fs, s'')
      | (Err _, s') => run_stream s' calls
      end
  end.

Definition terminal_kind (k : FrameKind) : bool :=
  match k with FrameComplete | FrameError => true | _ => false end.

(** The framing a consumer may rely on. *)
Definition frame_ok (id : string) (i : nat) (f : InvocationFrame) : Prop :=
  fr_InvocationID f = id /\ fr_Sequence f = Z.of_nat i /\ blen (fr_Data f) <= MaxFrameBytes /\
  (fr_Kind f = FrameStart <-> i = 0%nat) /\
  match fr_Kind f with
  | FrameStart => fr_Data f = [] /\ fr_Error f = None
  | FrameChunk | FrameProgress | FrameComplete => fr_Error f = None
  | FrameError => is_Some (fr_Error f) /\ fr_Data f = []
  | FrameOther _ => False
  end.

Definition well_framed (id : string) (fs : list InvocationFrame) : Prop :=
  (forall i f, fs !! i = Some f -> frame_ok id i f) /\
  (forall i f, fs !! i = Some f -> terminal_kind (fr_Kind f) = true -> S i = length fs).

(** The stream's state after the frames [fs] were delivered. *)
Definition stream_inv (id : string) (fs : list InvocationFrame) (s : CheckedStream) : Prop :=
  cs_id s = id /\ cs_next s = Z.of_nat (length fs) /\ cs_next s <= max_uint64 /\
  (cs_terminal s = true -> cs_closed s = true) /\
  cs_closes s = (if cs_closed s then 1 else 0)%nat /\
  well_framed id fs /\
  (forall f, last fs = Some f -> terminal_kind (fr_Kind f) = true -> cs_terminal s = true).

Lemma blen_zero (l : list byte) : (blen l =? 0) = true -> l = [].
Proof. unfold blen. destruct l; simpl; [done|lia]. Qed.

Lemma check_kind_ok id s f b :
  fr_InvocationID f = id -> fr_Sequence f = cs_next s -> blen (fr_Data f) <= MaxFrameBytes ->
  (forall i, cs_next s = Z.of_nat i -> (fr_Kind f = FrameStart <-> i = 0%nat)) ->
  check_kind f = Ok b ->
  b = terminal_kind (fr_Kind f) /\ forall i, cs_next s = Z.of_nat i -> frame_ok id i f.
Proof.
  intros Hid Hseq Hlen Hst Hk. unfold check_kind in Hk.
  assert (forall i, cs_next s = Z.of_nat i -> match fr_Kind f with
    | FrameStart => fr_Data f = [] /\ fr_Error f = None
    | FrameChunk | FrameProgress | FrameComplete => fr_Error f = None
    | FrameError => is_Some (fr_Error f) /\ fr_Data f = []
    | FrameOther _ => False end) as Hshape.
  { intros i _. destruct (fr_Kind f), (fr_Error f); cbn in Hk; try done; try (by eexists);
      case_if; simplify_eq; rinv; try done; split; try (by eexists); by apply blen_zero. }
  assert (b = terminal_kind (fr_Kind f)) as Hb.
  { destruct (fr_Kind f); cbn; try case_if; by simplify_eq. }
  split; [done|]. intros i Hi. unfold frame_ok. split_and!; try done; [lia|by apply Hst|by eapply Hshape].
Qed.

Lemma well_framed_snoc id fs f :
  well_framed id fs -> frame_ok id (length fs) f ->
  (forall g, last fs = Some g -> terminal_kind (fr_Kind g) = false) ->
  well_framed id (fs ++ [f]).
Proof.
  intros [Hok Hterm] Hf Hlast. split.
  - intros i g Hg. apply lookup_app_Some in Hg as [Hg|[Hle Hg]]; [by apply Hok|].
    apply list_lookup_singleton_Some in Hg as [Hi <-]. by replace i with (length fs) by lia.
  - intros i g Hg Ht. rewrite length_app. cbn.
    apply lookup_app_Some in Hg as [Hg|[Hle Hg]].
    + exfalso. pose proof (Hterm i g Hg Ht) as Hi.
      rewrite (Hlast g) in Ht; [done|]. rewrite last_lookup, <- Hi. exact Hg.
    + apply list_lookup_singleton_Some in Hg as [Hi <-]. lia.
Qed.

Lemma inv_new id : stream_inv id [] (mkStream id 0 false false 0).
Proof. unfold stream_inv, max_uint64. cbn. split_and!; try done; lia. Qed.

Lemma inv_close id fs s : stream_inv id fs s -> stream_inv id fs (Stream_Close s).
Proof.
  intros (Hid & Hn & Hm & Ht & Hc & Hw & Hl). unfold stream_inv. cbn.
  split_and!; try done. by destruct (cs_closed s); rewrite Hc.
Qed.

Lemma inv_stop id fs s : stream_inv id fs s -> stream_inv id fs (Stream_Close (set_terminal s)).
Proof.
  intros (Hid & Hn & Hm & Ht & Hc & Hw & Hl). unfold stream_inv. cbn.
  split_and!; try done. by destruct (cs_closed s); rewrite Hc.
Qed.

Lemma check_frame_inv id fs s f r s' :
  stream_inv id fs s -> cs_terminal s = false -> check_frame s f = (r, s') ->
  match r with Ok g => g = f /\ stream_inv id (fs ++ [f]) s' | Err _ => stream_inv id fs s' end.
Proof.
  intros Hinv Hterm. unfold check_frame, stream_fail.
  repeat (case_if; [intros [= <- <-]; by apply inv_stop|]).
  destruct (check_kind f) as [b|m] eqn:Ek; [|intros [= <- <-]; by apply inv_stop].
  rinv. pose proof Hinv as (Hid & Hn & Hm & Ht & Hc & Hw & Hl).
  match goal with H : str_eqb _ (cs_id s) = true |- _ => apply str_eqb_eq in H; rename H into Hfid end.
  apply (check_kind_ok id s) in Ek as [-> Hok]; [|congruence|lia|lia|].
  2:{ intros i Hi. destruct (decide (fr_Kind f = FrameStart)) as [Hx|Hx].
      - rewrite (bool_decide_eq_true_2 _ Hx) in *. cbn in *. split; [lia|done].
      - rewrite (bool_decide_eq_false_2 _ Hx) in *. cbn in *. split; [done|lia]. }
  specialize (Hok (length fs) Hn).
  set (s1 := if terminal_kind (fr_Kind f) then set_terminal s else s).
  assert (cs_next s1 = cs_next s /\ cs_id s1 = cs_id s /\ cs_closed s1 = cs_closed s /\
          cs_closes s1 = cs_closes s /\ cs_terminal s1 = terminal_kind (fr_Kind f)) as (F1 & F2 & F3 & F4 & F5).
  { unfold s1. destruct (terminal_kind (fr_Kind f)); cbn; auto. }
  destruct (cs_next s1 =? max_uint64) eqn:Eo.
  { intros [= <- <-]. assert (Stream_Close (set_terminal s1) = Stream_Close (set_terminal s)) as ->.
    { unfold s1. by destruct (terminal_kind (fr_Kind f)). }
    by apply inv_stop. }
  assert (wrapu64 (cs_next s1 + 1) = Z.of_nat (length (fs ++ [f]))) as Hw1.
  { rewrite F1, Hn, length_app. unfold wrapu64, max_uint64 in *. rewrite Z.mod_small; cbn; lia. }
  intros [= <- <-]. split; [done|].
  assert (well_framed id (fs ++ [f])) as Hwf.
  { apply well_framed_snoc; [done..|]. intros g Hg.
    destruct (terminal_kind (fr_Kind g)) eqn:Etk; [|done]. by rewrite (Hl g Hg Etk) in Hterm. }
  unfold stream_inv. rewrite F5. destruct (terminal_kind (fr_Kind f)) eqn:Etk; cbn; rewrite ?F2, ?F3, ?F4, ?F5;
    split_and!; try done; try (rewrite length_app in *; unfold max_uint64 in *; cbn in *; lia).
  - by destruct (cs_closed s); rewrite Hc.
  - intros g. rewrite last_snoc. intros [= <-]. congruence.
Qed.

Lemma next_inv id fs s io r s' :
  stream_inv id fs s -> Stream_Next s io = (r, s') ->
  match r with Ok g => stream_inv id (fs ++ [g]) s' | Err _ => stream_inv id fs s' end.
Proof.
  intros Hinv. unfold Stream_Next. destruct (cs_terminal s) eqn:Et; [by intros [= <- <-]|].
  case_if; [by intros [= <- <-]|].
  destruct (lifetime_err s io); [intros [= <- <-]; by apply inv_stop|].
  destruct (nx_upstream io) as [f|e]; [|intros [= <- <-]; by apply inv_stop].
  destruct (nx_call io); [intros [= <- <-]; by apply inv_stop|].
  intros Hc. pose proof (check_frame_inv _ _ _ _ _ _ Hinv Et Hc) as Hr.
  destruct r; [by destruct Hr as [-> ?] | done].
Qed.

Lemma run_inv id calls : forall fs s gs s',
  stream_inv id fs s -> run_stream s calls = (gs, s') -> stream_inv id (fs ++ gs) s'.
Proof.
  induction calls as [|[io|] calls IH]; intros fs s gs s' Hinv; cbn [run_stream].
  - intros [= <- <-]. by rewrite (right_id_L [] app).
  - destruct (Stream_Next s io) as [[f|e] s1] eqn:En; apply (next_inv _ _ _ _ _ _ Hinv) in En.
    + destruct (run_stream s1 calls) as [gs1 s2] eqn:Er. intros [= <- <-].
      apply (IH _ _ _ _ En) in Er. by rewrite <- (assoc_L app) in Er.
    + intros Hrun. exact (IH fs s1 gs s' En Hrun).
  - intros Hrun. eapply IH; [|exact Hrun]. by apply inv_close.
Qed.

Lemma terminal_silent s calls : cs_terminal s = true ->
  (run_stream s calls).1 = [] /\ cs_terminal (run_stream s calls).2 = true.
Proof.
  revert s. induction calls as [|[io|] calls IH]; intros s Ht; cbn [run_stream]; [done| |].
  - unfold Stream_Next. rewrite Ht. auto.
  - by apply IH.
Qed.
End Stream.

Module StreamProps.
Import Replay Stream.

(** Framing: whatever the upstream delivers and however Next and Close
    interleave, the frames a consumer receives from a checked stream carry the
    stream's identity, the sequence numbers 0, 1, 2, ..., start with the only start
    frame, have bounded data and the content their kind allows, and at most the
    last one is terminal; the upstream is closed at most once, and exactly once
    when the stream has ended; an ended stream never delivers another frame. *)
Theorem checked_stream_delivers_well_framed (id : string) (s0 s : CheckedStream) (calls : list Call)
    (fs : list InvocationFrame) :
  NewCheckedStream id = Ok s0 -> run_stream s0 calls = (fs, s) ->
  well_framed id fs /\ (cs_closes s <= 1)%nat /\
  (cs_terminal s = true -> cs_closes s = 1%nat) /\
  (forall f, last fs = Some f -> terminal_kind (fr_Kind f) = true -> cs_terminal s = true) /\
  (cs_terminal s = true -> forall later, (run_stream s later).1 = []).
Proof.
  unfold NewCheckedStream. intros Hnew Hrun. rinv.
  pose proof (inv_new id) as Hinit.
  apply (run_inv _ _ _ _ _ _ Hinit) in Hrun as (_ & _ & _ & Ht & Hc & Hw & Hl). cbn in Hw, Hl.
  split; [done|]. split; [rewrite Hc; destruct (cs_closed s); lia|].
  split; [intros Hx; by rewrite Hc, (Ht Hx)|]. split; [done|].
  intros Hx later. by apply terminal_silent.
Qed.

(** Replay is never relabelled: a replay stream exists only for an
    association that was verified against this very request and caller, every
    frame it delivers carries the original execution identity, and that identity
    differs from the request's. *)
Theorem replay_stream_keeps_original_identity `{Sha256, ReplayJson}
    (before after : option CallError) (caller : Model.ExecutionContext) (current : ReplayRequest)
    (a v : ReplayAssociation) (verifier : option ReplayVerifier) (s0 s : CheckedStream)
    (calls : list Call) (fs : list InvocationFrame) :
  VerifyReplayCorrelation before after caller current a verifier = Ok v ->
  NewCheckedReplayStream (rq_RequestID current) (Some v) = Ok s0 ->
  run_stream s0 calls = (fs, s) ->
  Forall (fun f => fr_InvocationID f = ra_ExecutionID a) fs /\
  ra_ExecutionID a <> rq_RequestID current /\
  Model.ec_principal caller = rq_Principal current /\
  Model.ec_originalDigest caller = rq_OriginalRequestSHA current /\
  association_matches a current = true /\
  exists verify, verifier = Some verify /\ verify caller current a = None.
Proof.
  unfold VerifyReplayCorrelation, NewCheckedReplayStream. destruct verifier as [verify|]; [|done].
  intros Hv Hs Hrun.
  do 6 (apply rbind_Ok in Hv as ([] & ? & Hv)). rinv.
  repeat match goal with H : fabric ?c = Ok tt |- _ => destruct c as [[]|] eqn:?; [clear H|done] end.
  repeat match goal with H : context_check ?c = Ok tt |- _ => destruct c eqn:?; [done|clear H] end.
  rinv. unfold Model.VerifyAuthenticatedDigest in *.
  match goal with H : is_ok (guard ?b _) = true |- _ => destruct b eqn:Eb; [clear H|done] end. rinv.
  unfold NewCheckedStream in Hs. rinv.
  pose proof (inv_new (ra_ExecutionID v)) as Hinit.
  apply (run_inv _ _ _ _ _ _ Hinit) in Hrun as (_ & _ & _ & _ & _ & [Hw _] & _). cbn in Hw.
  split_and!; try done.
  - apply Forall_lookup. intros i f Hf. by destruct (Hw i f Hf).
  - match goal with H : Association_Validate v = Ok tt |- _ => unfold Association_Validate in H end. rinv.
    match goal with H : str_eqb (ra_RequestID v) (rq_RequestID current) = true |- _ => apply str_eqb_eq in H end.
    match goal with H : str_eqb (ra_RequestID v) (ra_ExecutionID v) = false |- _ => apply str_eqb_neq in H end.
    congruence.
  - by exists verify.
Qed.
End StreamProps.

Module StreamWitness.
Import Model Replay Stream StreamProps RefWitness ModelWitness.

Definition frame (seq : Z) (k : FrameKind) : Call :=
  CallNext (mkNextIO true None (Ok (mkFrame "exec-1" seq k "" [] None)) None).

Definition sample_calls : list Call := [frame 0 FrameStart; frame 1 FrameChunk; frame 2 FrameComplete; frame 3 FrameChunk].

Lemma checked_stream_witness :
  exists s0 fs s, NewCheckedStream "exec-1" = Ok s0 /\ run_stream s0 sample_calls = (fs, s) /\
    length fs = 3%nat /\ well_framed "exec-1" fs.
Proof.
  eexists _, _, _. split; [vm_compute; reflexivity|]. split; [vm_compute; reflexivity|].
  split; [reflexivity|].
  eapply (checked_stream_delivers_well_framed "exec-1" (mkStream "exec-1" 0 false false 0) _ sample_calls);
    vm_compute; reflexivity.
Defined.

#[export] Instance toy_replay_json : ReplayJson := {| marshal_association := fun _ => Some [] |}.

Definition w_sha : list byte := replicate 32 x01.
Definition w_association : ReplayAssociation :=
  mkAssociation 1 "ns" "store" 1 sample_principal "req-2" "exec-1" sample_ref "r1"
    (sha256 w_sha) w_sha w_sha w_sha w_sha w_sha [x09].
Definition w_request : ReplayRequest :=
  mkReplayRequest sample_principal "req-2" sample_ref "r1" (sha256 w_sha) w_sha w_sha w_sha.
Definition w_caller : ExecutionContext :=
  mkContext None sample_principal "aud" (sha256 w_sha) true (mkProvenance "user:ann" "" [] 0 [] []).

Lemma replay_stream_witness :
  VerifyReplayCorrelation None None w_caller w_request w_association (Some (fun _ _ _ => None))
    = Ok w_association /\ ra_ExecutionID w_association <> rq_RequestID w_request.
Proof.
  split; [vm_compute; reflexivity|].
  eapply (replay_stream_keeps_original_identity None None w_caller w_request w_association w_association
    (Some (fun _ _ _ => None)) (mkStream "exec-1" 0 false false 0) _ sample_calls); vm_compute; reflexivity.
Defined.
End StreamWitness.
