(* ===== verification/Patch.v ===== *)
(** * Extension mutations (src/fabric/extension/patch.go)

    [Number] models normalizeNumber and shows that it decides exact mathematical
    equality of JSON numbers. [Patch] models ApplyPatch and its helpers over JSON
    trees. [Rfc6902] is the reference semantics of the operations that the
    json-patch library applies (a parameter), and [PatchProps] shows that a patch
    confined by allowedPointer can change nothing but the payload and the
    extension's own metadata. *)
From Stdlib Require Import Ascii Strings.Byte ZArith Lia.
From S2P Require Import Prelude GoStrings FabricRef Wire FabricModel.
#[local] Open Scope Z_scope.
#[local] Arguments str_eqb _ _ : simpl never.
#[local] Arguments Z.ltb _ _ : simpl never.

(** ** Numbers *)
Module Number.
(** strings.IndexAny(number, "eE"): the text before and after the mark. *)
Fixpoint split_exponent (s : string) : option (string * string) :=
  match s with
  | EmptyString => None
  | String c s' =>
      if ceq c "e" || ceq c "E" then Some ("", s')
      else match split_exponent s' with
           | Some (a, b) => Some (String c a, b)
           | None => None
           end
  end.

(** strings.IndexByte(number, '.'): the text before and after the dot. *)
Fixpoint split_dot (s : string) : option (string * string) :=
  match s with
  | EmptyString => None
  | String c s' =>
      if ceq c "." then Some ("", s')
      else match split_dot s' with
           | Some (a, b) => Some (String c a, b)
           | None => None
           end
  end.

(** strings.TrimPrefix *)
Definition trim_prefix (s p : string) : string :=
  if has_prefix s p then str_drop (String.length p) s else s.

(** (big.Int).SetString(text, 10) *)
Definition parse_big (s : string) : Z :=
  if has_prefix s "-" then - parse_digits 0 (str_drop 1 s)
  else if has_prefix s "+" then parse_digits 0 (str_drop 1 s)
  else parse_digits 0 s.

(** strings.TrimLeft and TrimRight of "0". *)
Fixpoint trim_left (s : string) : string :=
  match s with
  | EmptyString => EmptyString
  | String c s' => if ceq c "0" then trim_left s' else s
  end.
Fixpoint trim_right (s : string) : string :=
  match s with
  | EmptyString => EmptyString
  | String c s' =>
      let r := trim_right s' in
      if ceq c "0" && str_eqb r "" then "" else String c r
  end.

Definition normalizeNumber (number : string) : string * Z :=
  let '(number, exponent) :=
    match split_exponent number with
    | Some (m, x) => (m, parse_big (trim_prefix x "+"))
    | None => (number, 0)
    end in
  let negative := has_prefix number "-" in
  let number := trim_prefix number "-" in
  let '(number, exponent) :=
    match split_dot number with
    | Some (i, f) => ((i ++ f)%string, exponent - len f)
    | None => (number, exponent)
    end in
  let number := trim_left number in
  if str_eqb number "" then ("0", 0)
  else
    let trimmed := trim_right number in
    let exponent := exponent + (len number - len trimmed) in
    ((if negative then String "-" trimmed else trimmed), exponent).

Example normalize_examples :
  normalizeNumber "-12.3400e+5" = ("-1234", 3) /\ normalizeNumber "0.000e99" = ("0", 0) /\
  normalizeNumber "-0" = ("0", 0) /\ normalizeNumber "100" = ("1", 2) /\ normalizeNumber "1E2" = ("1", 2) /\
  normalizeNumber "1e-05" = ("1", -5).
Proof. vm_compute. tauto. Qed.

(** *** The JSON number grammar *)
(** [-] int [. frac] [(e|E) [+|-] digits]; [n_frac] is empty without a dot. *)
Record NumberText := mkNumber {
  n_neg : bool; n_int : string; n_frac : string; n_exp : option (ascii * (string * string)) }.

Definition digits_ok (s : string) : bool := str_forallb is_digit s.

Definition number_ok (n : NumberText) : Prop :=
  digits_ok (n_int n) = true /\ n_int n <> "" /\ digits_ok (n_frac n) = true /\
  match n_exp n with
  | None => True
  | Some (c, (sign, d)) => (c = "e"%char \/ c = "E"%char) /\ (sign = "" \/ sign = "+" \/ sign = "-") /\
                           digits_ok d = true /\ d <> ""
  end.

Definition render (n : NumberText) : string :=
  (if n_neg n then "-" else "") ++ n_int n ++ (if str_eqb (n_frac n) "" then "" else String "." (n_frac n)) ++
  match n_exp n with None => "" | Some (c, (sign, d)) => String c (sign ++ d) end.

(** The number is [mantissa n * 10 ^ scale n]. *)
Definition mantissa (n : NumberText) : Z :=
  (if n_neg n then -1 else 1) * parse_digits 0 (n_int n ++ n_frac n).
Definition scale (n : NumberText) : Z :=
  match n_exp n with
  | None => 0
  | Some (_, (sign, d)) => if str_eqb sign "-" then - parse_digits 0 d else parse_digits 0 d
  end - len (n_frac n).

(** Equality of the rational numbers, brought to a common power of ten. *)
Definition same_number (a b : NumberText) : Prop :=
  let m := Z.min (scale a) (scale b) in
  mantissa a * 10 ^ (scale a - m) = mantissa b * 10 ^ (scale b - m).

(** *** Digit strings *)
Lemma parse_digits_acc s : forall acc, parse_digits acc s = acc * 10 ^ len s + parse_digits 0 s.
Proof.
  induction s as [|c s IH]; intros acc; cbn [parse_digits].
  - change (len "") with 0. rewrite Z.pow_0_r. lia.
  - rewrite IH, (IH (0 * 10 + _)). unfold len. cbn [String.length]. rewrite Nat2Z.inj_succ, Z.pow_succ_r by lia. ring.
Qed.

Lemma digit_range c : is_digit c = true -> 0 <= code c - 48 < 10.
Proof. unfold is_digit, between. lia. Qed.

Lemma parse_digits_range s : digits_ok s = true -> 0 <= parse_digits 0 s < 10 ^ len s.
Proof.
  induction s as [|c s IH]; cbn [parse_digits].
  - intros _. change (len "") with 0. rewrite Z.pow_0_r. lia.
  - unfold digits_ok. cbn [str_forallb]. intros [Hc Hs]%andb_true_iff. apply digit_range in Hc. specialize (IH Hs).
    rewrite parse_digits_acc. unfold len in *. cbn [String.length]. rewrite Nat2Z.inj_succ, Z.pow_succ_r by lia. nia.
Qed.

Lemma digits_same_length s : forall t a b, digits_ok s = true -> digits_ok t = true -> String.length s = String.length t ->
  parse_digits a s = parse_digits b t -> a = b /\ s = t.
Proof.
  induction s as [|c s IH]; intros [|d t] a b Hs Ht Hl Hp; try done.
  unfold digits_ok in *. cbn [str_forallb] in *. apply andb_true_iff in Hs as [Hc Hs], Ht as [Hd Ht].
  cbn [parse_digits] in Hp. apply IH in Hp as [Hp ->]; try done; [|by injection Hl].
  pose proof (digit_range c Hc). pose proof (digit_range d Hd).
  assert (a = b /\ code c = code d) as [-> Hcd] by lia. split; [done|]. f_equal.
  destruct (Handle.is_digit_char c Hc) as [Hcc _], (Handle.is_digit_char d Hd) as [Hdd _].
  congruence.
Qed.

(** No leading zero. *)
Definition leads (s : string) : bool := match s with String c _ => negb (ceq c "0") | EmptyString => false end.

Lemma leads_lower s : digits_ok s = true -> leads s = true -> 10 ^ (len s - 1) <= parse_digits 0 s.
Proof.
  destruct s as [|c s]; [done|]. unfold digits_ok. cbn [str_forallb leads parse_digits].
  intros [Hc Hs]%andb_true_iff Hl. pose proof (digit_range c Hc). pose proof (parse_digits_range s Hs).
  assert (code c - 48 <> 0) as Hne.
  { intros E. destruct (Handle.is_digit_char c Hc) as [Hcc _]. rewrite E in Hcc. by rewrite Hcc in Hl. }
  rewrite parse_digits_acc. unfold len in *. cbn [String.length]. rewrite Nat2Z.inj_succ.
  replace (Z.succ (Z.of_nat (String.length s)) - 1) with (Z.of_nat (String.length s)) by lia. nia.
Qed.

Lemma digits_unique s t : digits_ok s = true -> digits_ok t = true -> leads s = true -> leads t = true ->
  parse_digits 0 s = parse_digits 0 t -> s = t.
Proof.
  intros Hs Ht Ls Lt Hp. pose proof (leads_lower s Hs Ls). pose proof (leads_lower t Ht Lt).
  pose proof (parse_digits_range s Hs). pose proof (parse_digits_range t Ht).
  assert (len s = len t) as Hl.
  { destruct (Z.lt_trichotomy (len s) (len t)) as [Hlt|[He|Hlt]]; [|done|].
    - pose proof (Z.pow_le_mono_r 10 (len s) (len t - 1)). lia.
    - pose proof (Z.pow_le_mono_r 10 (len t) (len s - 1)). lia. }
  eapply (digits_same_length s t 0 0); try done. unfold len in Hl. lia.
Qed.

(** *** Trimming *)
Lemma trim_left_spec s : digits_ok s = true ->
  digits_ok (trim_left s) = true /\ parse_digits 0 (trim_left s) = parse_digits 0 s /\
  (trim_left s = "" \/ leads (trim_left s) = true).
Proof.
  induction s as [|c s IH]; [by auto|]. intros Hd. cbn [trim_left]. destruct (ceq c "0") eqn:E.
  - apply ceq_eq in E as ->. unfold digits_ok in *. cbn [str_forallb] in Hd. apply IH, (proj1 (andb_true_iff _ _) Hd).
  - split; [done|]. split; [done|]. right. cbn [leads]. by rewrite E.
Qed.

Lemma trim_left_zero s : digits_ok s = true -> trim_left s = "" -> parse_digits 0 s = 0.
Proof. intros Hd He. destruct (trim_left_spec s Hd) as (_ & <- & _). by rewrite He. Qed.

(** [trim_right s] followed by zeros is [s]. *)
Lemma trim_right_spec s : digits_ok s = true ->
  digits_ok (trim_right s) = true /\
  parse_digits 0 s = parse_digits 0 (trim_right s) * 10 ^ (len s - len (trim_right s)) /\
  0 <= len s - len (trim_right s) /\
  (trim_right s <> "" -> parse_digits 0 (trim_right s) mod 10 <> 0).
Proof.
  induction s as [|c s IH]; [done|]. intros Hd. unfold digits_ok in Hd. cbn [str_forallb] in Hd.
  apply andb_true_iff in Hd as [Hc Hs]. destruct (IH Hs) as (Ht & Hv & Hl & Hm).
  pose proof (digit_range c Hc) as Hr. cbn [trim_right].
  destruct (ceq c "0" && str_eqb (trim_right s) "") eqn:E.
  - apply andb_true_iff in E as [->%ceq_eq He%str_eqb_eq]. rewrite He in *. split; [done|].
    cbn [parse_digits]. rewrite parse_digits_acc, Hv. change (code "0" - 48) with 0. change (parse_digits 0 "") with 0.
    split; [lia|]. split; [|done]. unfold len in *. cbn [String.length]. lia.
  - split; [unfold digits_ok in *; cbn [str_forallb]; by rewrite Hc, Ht|].
    assert (len (String c s) - len (String c (trim_right s)) = len s - len (trim_right s)) as ->
      by (unfold len; cbn [String.length]; lia).
    split; [|split; [done|]].
    + cbn [parse_digits]. rewrite parse_digits_acc, (parse_digits_acc (trim_right s)), Hv.
      replace (10 ^ len s) with (10 ^ len (trim_right s) * 10 ^ (len s - len (trim_right s))); [ring|].
      rewrite <- Z.pow_add_r by (unfold len in *; lia). f_equal. lia.
    + intros _. cbn [parse_digits]. rewrite parse_digits_acc.
      destruct (str_eqb (trim_right s) "") eqn:En.
      * apply str_eqb_eq in En. rewrite En. change (len "") with 0. rewrite Z.pow_0_r. change (parse_digits 0 "") with 0.
        rewrite andb_true_r in E. rewrite Z.mod_small by lia. intros Hz. destruct (Handle.is_digit_char c Hc) as [Hcc _].
        replace (code c - 48) with 0 in Hcc by lia. by rewrite Hcc in E.
      * apply str_eqb_neq in En. specialize (Hm En).
        assert (len (trim_right s) = Z.succ (len (trim_right s) - 1)) as -> by lia.
        rewrite Z.pow_succ_r.
        2: { destruct (trim_right s); [done|]. unfold len. cbn [String.length]. lia. }
        match goal with |- (?a * (10 * ?q) + ?v) mod 10 <> 0 => replace (a * (10 * q) + v) with (v + (a * q) * 10) by ring end.
        by rewrite Z_mod_plus_full.
Qed.

Lemma trim_right_leads s : leads s = true -> leads (trim_right s) = true.
Proof.
  destruct s as [|c s]; [done|]. cbn [leads trim_right]. intros Hc. apply negb_true_iff in Hc.
  rewrite Hc. cbn [andb leads]. by rewrite Hc.
Qed.

(** *** Splitting *)
Lemma split_exponent_digits s rest : str_forallb (fun c => negb (ceq c "e" || ceq c "E")) s = true ->
  split_exponent (s ++ rest) = match split_exponent rest with Some (a, b) => Some ((s ++ a)%string, b) | None => None end.
Proof.
  induction s as [|c s IH]; intros Hs; cbn [String.append split_exponent]; [by destruct (split_exponent rest) as [[]|]|].
  cbn [str_forallb] in Hs. apply andb_true_iff in Hs as [Hc Hs]. apply negb_true_iff in Hc. rewrite Hc, IH by done.
  by destruct (split_exponent rest) as [[]|].
Qed.

Lemma split_dot_digits s rest : str_forallb (fun c => negb (ceq c ".")) s = true ->
  split_dot (s ++ rest) = match split_dot rest with Some (a, b) => Some ((s ++ a)%string, b) | None => None end.
Proof.
  induction s as [|c s IH]; intros Hs; cbn [String.append split_dot]; [by destruct (split_dot rest) as [[]|]|].
  cbn [str_forallb] in Hs. apply andb_true_iff in Hs as [Hc Hs]. apply negb_true_iff in Hc. rewrite Hc, IH by done.
  by destruct (split_dot rest) as [[]|].
Qed.

Lemma digit_not c d : is_digit c = true -> is_digit d = false -> ceq c d = false.
Proof. intros Hc Hd. destruct (ceq c d) eqn:E; [|done]. apply ceq_eq in E as ->. congruence. Qed.

Lemma digits_plain s : digits_ok s = true ->
  str_forallb (fun c => negb (ceq c "e" || ceq c "E")) s = true /\ str_forallb (fun c => negb (ceq c ".")) s = true.
Proof.
  induction s as [|c s IH]; [done|]. unfold digits_ok. cbn [str_forallb]. intros [Hc Hs]%andb_true_iff.
  destruct (IH Hs) as [-> ->]. by rewrite !(digit_not c) by done.
Qed.

Lemma digits_prefix s c : digits_ok s = true -> is_digit c = false -> has_prefix s (String c "") = false.
Proof.
  destruct s as [|d s]; [done|]. unfold digits_ok. cbn [str_forallb has_prefix]. intros [Hd _]%andb_true_iff Hc.
  assert (ceq d c = false) as E by by apply digit_not. destruct (ceq c d) eqn:E'; [|by rewrite ?E].
  apply ceq_eq in E' as ->. congruence.
Qed.

(** *** What normalizeNumber computes *)
Lemma digits_head s : digits_ok s = true -> s <> "" ->
  exists c s', s = String c s' /\ is_digit c = true.
Proof.
  destruct s as [|c s]; [done|]. unfold digits_ok. cbn [str_forallb]. intros [Hc _]%andb_true_iff _. eauto.
Qed.

Definition body (n : NumberText) : string :=
  (if n_neg n then "-" else "") ++ n_int n ++ (if str_eqb (n_frac n) "" then "" else String "." (n_frac n)).

Lemma render_body n : render n = (body n ++ match n_exp n with None => "" | Some (c, (sign, d)) => String c (sign ++ d) end)%string.
Proof. unfold render, body. by rewrite !append_assoc. Qed.

Lemma body_plain n : number_ok n -> str_forallb (fun c => negb (ceq c "e" || ceq c "E")) (body n) = true.
Proof.
  intros (Hi & _ & Hf & _). unfold body. rewrite !str_forallb_append.
  rewrite (proj1 (digits_plain _ Hi)). destruct (n_neg n), (str_eqb (n_frac n) ""); try done;
    cbn [str_forallb]; by rewrite (proj1 (digits_plain _ Hf)).
Qed.

Lemma exponent_text n : number_ok n ->
  match split_exponent (render n) with
  | Some (m, x) => (m, parse_big (trim_prefix x "+"))
  | None => (render n, 0)
  end = (body n, scale n + len (n_frac n)).
Proof.
  intros Hn. pose proof (body_plain n Hn) as Hb. destruct Hn as (_ & _ & _ & Hx).
  rewrite render_body, split_exponent_digits by done. unfold scale.
  destruct (n_exp n) as [[c [sign d]]|].
  - destruct Hx as (Hc & Hs & Hd & Hne). cbn [split_exponent].
    replace (ceq c "e" || ceq c "E") with true by (by destruct Hc as [->| ->]).
    rewrite append_nil_r. f_equal. rewrite Z.sub_add.
    destruct (digits_head d Hd Hne) as (x & d' & -> & Hx').
    destruct Hs as [->|[->| ->]]; cbn [String.append]; unfold trim_prefix, parse_big.
    + rewrite !(digits_prefix (String x d')) by done. done.
    + change (String "+" (String x d')) with ("+" ++ String x d')%string. rewrite has_prefix_append.
      change (str_drop (String.length "+") ("+" ++ String x d')) with (String x d').
      rewrite !(digits_prefix (String x d')) by done. done.
    + done.
  - cbn [split_exponent]. rewrite append_nil_r. f_equal. lia.
Qed.

Lemma sign_text n : number_ok n -> has_prefix (body n) "-" = n_neg n /\
  trim_prefix (body n) "-" = (n_int n ++ (if str_eqb (n_frac n) "" then "" else String "." (n_frac n)))%string.
Proof.
  intros (Hi & Hne & _). destruct (digits_head _ Hi Hne) as (c & s & Hs & Hc). unfold body, trim_prefix.
  destruct (n_neg n); cbn [String.append].
  - match goal with |- context [String "-" ?x] => change (String "-" x) with ("-" ++ x)%string end. rewrite has_prefix_append. split; [done|].
    apply (str_drop_append "-").
  - assert (has_prefix (n_int n ++ (if str_eqb (n_frac n) "" then "" else String "." (n_frac n))) "-" = false) as ->; [|done].
    rewrite Hs. cbn [String.append has_prefix]. by rewrite digit_not.
Qed.

Lemma dot_text n e : number_ok n ->
  match split_dot (n_int n ++ (if str_eqb (n_frac n) "" then "" else String "." (n_frac n))) with
  | Some (i, f) => ((i ++ f)%string, e + len (n_frac n) - len f)
  | None => ((n_int n ++ (if str_eqb (n_frac n) "" then "" else String "." (n_frac n)))%string, e + len (n_frac n))
  end = ((n_int n ++ n_frac n)%string, e).
Proof.
  intros (Hi & _). rewrite split_dot_digits by apply (digits_plain _ Hi).
  destruct (str_eqb (n_frac n) "") eqn:E.
  - apply str_eqb_eq in E. rewrite E. cbn [split_dot]. f_equal. change (len "") with 0. lia.
  - cbn [split_dot]. change (ceq "." ".") with true. cbn [orb]. rewrite append_nil_r. f_equal. lia.
Qed.

(** The normal form: zero, or a sign and digits without zeros at either end. *)
Inductive normal (n : NumberText) : string * Z -> Prop :=
| normal_zero : mantissa n = 0 -> normal n ("0", 0)
| normal_digits t e : digits_ok t = true -> leads t = true -> parse_digits 0 t mod 10 <> 0 ->
    0 <= e - scale n ->
    mantissa n = (if n_neg n then -1 else 1) * parse_digits 0 t * 10 ^ (e - scale n) ->
    normal n ((if n_neg n then String "-" t else t), e).

Lemma normalize_spec n : number_ok n -> normal n (normalizeNumber (render n)).
Proof.
  intros Hn. unfold normalizeNumber. rewrite exponent_text by done.
  destruct (sign_text n Hn) as [-> ->]. rewrite dot_text by done.
  assert (digits_ok (n_int n ++ n_frac n) = true) as Hd.
  { destruct Hn as (Hi & _ & Hf & _). unfold digits_ok in *. rewrite str_forallb_append. by rewrite Hi, Hf. }
  destruct (trim_left_spec _ Hd) as (Hl & Hv & Hlead).
  destruct (str_eqb (trim_left (n_int n ++ n_frac n)) "") eqn:E.
  - apply str_eqb_eq in E. constructor. unfold mantissa. rewrite (trim_left_zero _ Hd E). lia.
  - apply str_eqb_neq in E. destruct Hlead as [?|Hlead]; [done|].
    destruct (trim_right_spec _ Hl) as (Hr & Hrv & Hlen & Hm). pose proof (trim_right_leads _ Hlead) as Hrl.
    assert (trim_right (trim_left (n_int n ++ n_frac n)) <> "") as Hne by (intros Hz; by rewrite Hz in Hrl).
    constructor; [done|done|by apply Hm|lia|].
    unfold mantissa. rewrite <- Hv, Hrv. rewrite Z.add_simpl_l. ring.
Qed.

(** *** Equality *)
(** equalJSON on two json.Number values. *)
Definition equal_numbers (a b : string) : bool :=
  let '(ac, ae) := normalizeNumber a in
  let '(bc, be) := normalizeNumber b in
  str_eqb ac bc && (ae =? be).

Lemma pow10_split u v a b : 0 <= a -> 0 <= b -> u mod 10 <> 0 -> v mod 10 <> 0 ->
  u * 10 ^ a = v * 10 ^ b -> a = b /\ u = v.
Proof.
  intros Ha Hb Hu Hv He.
  assert (forall x y p q, 0 <= p -> p < q -> x mod 10 <> 0 -> x * 10 ^ p <> y * 10 ^ q) as Hlt.
  { intros x y p q Hp Hpq Hx Hxy. replace q with (p + (Z.succ (q - p - 1))) in Hxy by lia.
    rewrite Z.pow_add_r, Z.pow_succ_r in Hxy by lia. assert (0 < 10 ^ p) by (apply Z.pow_pos_nonneg; lia).
    apply Hx. replace x with (y * 10 ^ (q - p - 1) * 10) by nia. apply Z_mod_mult. }
  destruct (Z.lt_trichotomy a b) as [Hab|[->|Hab]].
  - by destruct (Hlt u v a b Ha Hab Hu).
  - split; [done|]. assert (0 < 10 ^ b) by (apply Z.pow_pos_nonneg; lia). nia.
  - by destruct (Hlt v u b a Hb Hab Hv).
Qed.

Lemma sign_mod (neg : bool) v : v mod 10 <> 0 -> ((if neg then -1 else 1) * v) mod 10 <> 0.
Proof. intros Hv. destruct neg; [|by rewrite Z.mul_1_l]. Z.to_euclidean_division_equations. lia. Qed.

Lemma leads_pos t : digits_ok t = true -> leads t = true -> 0 < parse_digits 0 t.
Proof.
  intros Hd Hl. pose proof (leads_lower t Hd Hl). enough (0 < 10 ^ (len t - 1)) by lia. apply Z.pow_pos_nonneg; [lia|].
  destruct t; [done|]. unfold len. cbn [String.length]. lia.
Qed.

Lemma signed_text_inj (p q : bool) s t : digits_ok s = true -> digits_ok t = true -> leads s = true -> leads t = true ->
  (if p then String "-" s else s) = (if q then String "-" t else t) -> p = q /\ s = t.
Proof.
  intros Hs Ht Ls Lt. destruct p, q; intros He; try done; [by injection He as ->| |].
  - exfalso. subst t. unfold digits_ok in Ht. cbn [str_forallb] in Ht. done.
  - exfalso. subst s. unfold digits_ok in Hs. cbn [str_forallb] in Hs. done.
Qed.

Lemma scaled_eq a b u v (x y : Z) : 0 <= x - scale a -> 0 <= y - scale b ->
  mantissa a = u * 10 ^ (x - scale a) -> mantissa b = v * 10 ^ (y - scale b) ->
  same_number a b <->
  u * 10 ^ (x - Z.min (scale a) (scale b)) = v * 10 ^ (y - Z.min (scale a) (scale b)).
Proof.
  intros Hx Hy Ha Hb. unfold same_number. rewrite Ha, Hb, <- !Z.mul_assoc, <- !Z.pow_add_r by lia.
  by replace (x - scale a + (scale a - Z.min (scale a) (scale b))) with (x - Z.min (scale a) (scale b)) by lia;
    replace (y - scale b + (scale b - Z.min (scale a) (scale b))) with (y - Z.min (scale a) (scale b)) by lia.
Qed.

Lemma equal_numbers_exact a b : number_ok a -> number_ok b ->
  equal_numbers (render a) (render b) = true <-> same_number a b.
Proof.
  intros Ha%normalize_spec Hb%normalize_spec. unfold equal_numbers.
  assert (forall p t, digits_ok t = true -> leads t = true -> (if p : bool then String "-" t else t) <> "0") as Hz.
  { intros [] t Hd Hl He; [done|]. by rewrite He in Hl. }
  assert (forall n, 0 < 10 ^ Z.max 0 n) as Hpow by (intros; apply Z.pow_pos_nonneg; lia).
  inversion Ha as [Ma Ea|t e Hd Hl Hm He Ma Ea]; inversion Hb as [Mb Eb|t' e' Hd' Hl' Hm' He' Mb Eb].
  - split; [intros _|done]. unfold same_number. rewrite Ma, Mb. lia.
  - split; [intros [Hs _]%andb_true_iff; by apply str_eqb_eq, eq_sym, Hz in Hs|].
    intros Hs. exfalso. unfold same_number in Hs. rewrite Ma, Mb, Z.mul_0_l in Hs.
    pose proof (leads_pos t' Hd' Hl'). pose proof (Hpow (e' - scale b)). pose proof (Hpow (scale b - Z.min (scale a) (scale b))).
    rewrite Z.max_r in * by lia. destruct (n_neg b); nia.
  - split; [intros [Hs _]%andb_true_iff; by apply str_eqb_eq, Hz in Hs|].
    intros Hs. exfalso. unfold same_number in Hs. rewrite Ma, Mb, Z.mul_0_l in Hs.
    pose proof (leads_pos t Hd Hl). pose proof (Hpow (e - scale a)). pose proof (Hpow (scale a - Z.min (scale a) (scale b))).
    rewrite Z.max_r in * by lia. destruct (n_neg a); nia.
  - rewrite (scaled_eq a b _ _ e e' He He' Ma Mb), andb_true_iff, str_eqb_eq, Z.eqb_eq. split.
    + intros [Hs ->]. apply signed_text_inj in Hs as [-> ->]; done.
    + intros Hs. apply pow10_split in Hs as [Hee Huv]; try lia; try by apply sign_mod.
      assert (e = e') as -> by lia. pose proof (leads_pos t Hd Hl). pose proof (leads_pos t' Hd' Hl').
      assert (n_neg a = n_neg b /\ parse_digits 0 t = parse_digits 0 t') as [-> Hp] by (destruct (n_neg a), (n_neg b); split; (done || lia)).
      apply digits_unique in Hp as ->; done.
Qed.
End Number.

(** ** JSON trees *)
Module Tree.
Import Number.

(** What encoding/json decodes into an [any] with UseNumber. A map[string]any is
    the list of its members, in any order; [wf] says the keys are distinct. *)
Inductive value :=
| VNull | VBool (b : bool) | VNumber (text : string) | VString (s : string)
| VArray (l : list value) | VObject (m : list (string * value)).

Section value_ind.
Context (P : value -> Prop).
Context (Hnull : P VNull) (Hbool : forall b, P (VBool b)) (Hnum : forall s, P (VNumber s)) (Hstr : forall s, P (VString s)).
Context (Harr : forall l, Forall P l -> P (VArray l)).
Context (Hobj : forall m, Forall (fun kv => P kv.2) m -> P (VObject m)).

Fixpoint value_rect' (v : value) : P v :=
  match v with
  | VNull => Hnull
  | VBool b => Hbool b
  | VNumber s => Hnum s
  | VString s => Hstr s
  | VArray l => Harr l ((fix go l := match l return Forall P l with
                                     | [] => Forall_nil_2 P
                                     | x :: l' => Forall_cons_2 P x l' (value_rect' x) (go l')
                                     end) l)
  | VObject m => Hobj m ((fix go l := match l return Forall (fun kv => P kv.2) l with
                                      | [] => Forall_nil_2 _
                                      | kv :: l' => Forall_cons_2 _ kv l' (value_rect' kv.2) (go l')
                                      end) m)
  end.
End value_ind.

Fixpoint assoc (k : string) (m : list (string * value)) : option value :=
  match m with
  | [] => None
  | (j, v) :: m' => if str_eqb j k then Some v else assoc k m'
  end.

Fixpoint wf (v : value) : Prop :=
  match v with
  | VNumber s => exists n, number_ok n /\ s = render n
  | VArray l => (fix go l := match l with [] => True | x :: l' => wf x /\ go l' end) l
  | VObject m => NoDup m.*1 /\ (fix go l := match l with [] => True | (_, x) :: l' => wf x /\ go l' end) m
  | _ => True
  end.

(** Equality of trees up to member order, numbers compared by [N]. *)
Fixpoint rel (N : string -> string -> Prop) (a b : value) {struct a} : Prop :=
  match a, b with
  | VNull, VNull => True
  | VBool x, VBool y => x = y
  | VString x, VString y => x = y
  | VNumber x, VNumber y => N x y
  | VArray l, VArray r =>
      (fix go l r := match l, r with
                     | [], [] => True
                     | v :: l', w :: r' => rel N v w /\ go l' r'
                     | _, _ => False
                     end) l r
  | VObject l, VObject r =>
      (fix go l := match l with
                   | [] => True
                   | (k, v) :: l' => (exists w, assoc k r = Some w /\ rel N v w) /\ go l'
                   end) l /\
      forall k, assoc k l = None -> assoc k r = None
  | _, _ => False
  end.

(** The same document, and the same JSON value with exact numeric equality. *)
Definition same_tree : value -> value -> Prop := rel eq.
Definition same_text_number (x y : string) : Prop :=
  exists a b, number_ok a /\ number_ok b /\ x = render a /\ y = render b /\ same_number a b.
Definition same_json : value -> value -> Prop := rel same_text_number.

Definition opt_rel (R : value -> value -> Prop) (a b : option value) : Prop :=
  match a, b with Some v, Some w => R v w | None, None => True | _, _ => False end.

(** *** Lemmas *)
Lemma assoc_In k m v : assoc k m = Some v -> (k, v) ∈ m.
Proof.
  induction m as [|[j x] m IH]; [done|]. cbn [assoc]. destruct (str_eqb j k) eqn:E.
  - apply str_eqb_eq in E as ->. intros [= ->]. left.
  - intros. right. auto.
Qed.

Lemma assoc_None k m : assoc k m = None <-> k ∉ m.*1.
Proof.
  induction m as [|[j x] m IH]; [split; [by intros _ ?%elem_of_nil | done]|]. cbn [assoc fmap list_fmap fst].
  destruct (str_eqb j k) eqn:E.
  - apply str_eqb_eq in E as ->. split; [done|]. intros Hn. destruct Hn. left.
  - apply str_eqb_neq in E. rewrite IH, not_elem_of_cons. split; [|by intros [_ ?]]. intros. split; congruence.
Qed.

Lemma In_assoc k v m : NoDup m.*1 -> (k, v) ∈ m -> assoc k m = Some v.
Proof.
  induction m as [|[j x] m IH]; [by intros _ ?%elem_of_nil|]. intros [Hj Hn]%NoDup_cons [[= -> ->]|Hin]%elem_of_cons.
  - cbn [assoc]. by rewrite str_eqb_refl.
  - cbn [assoc]. destruct (str_eqb j k) eqn:E; [|auto]. apply str_eqb_eq in E as ->.
    destruct Hj. apply list_elem_of_fmap. by exists (k, v).
Qed.

Lemma rel_members N l r : rel N (VObject l) (VObject r) <->
  (forall k v, (k, v) ∈ l -> exists w, assoc k r = Some w /\ rel N v w) /\ (forall k, assoc k l = None -> assoc k r = None).
Proof.
  cbn [rel]. apply and_iff_compat_r. induction l as [|[k v] l IH].
  - split; [by intros _ ? ? ?%elem_of_nil | done].
  - rewrite IH. split.
    + intros [Hv Hl] k' v' [[= -> ->]|Hin]%elem_of_cons; auto.
    + intros Hall. split; [apply Hall; left|]. intros k' v' Hin. apply Hall. by right.
Qed.

Lemma rel_elements N l r : rel N (VArray l) (VArray r) <-> Forall2 (rel N) l r.
Proof.
  cbn [rel]. revert r. induction l as [|v l IH]; intros [|w r].
  - split; [constructor|done].
  - split; [done|by inversion 1].
  - split; [done|by inversion 1].
  - rewrite IH, Forall2_cons. done.
Qed.

Lemma wf_members m : wf (VObject m) <-> NoDup m.*1 /\ forall k v, (k, v) ∈ m -> wf v.
Proof.
  cbn [wf]. apply and_iff_compat_l. induction m as [|[k v] m IH].
  - split; [by intros _ ? ? ?%elem_of_nil | done].
  - rewrite IH. split.
    + intros [Hv Hl] k' v' [[= -> ->]|Hin]%elem_of_cons; eauto.
    + intros Hall. split; [apply (Hall k); left|]. intros k' v' Hin. apply (Hall k'). by right.
Qed.

Lemma wf_elements l : wf (VArray l) <-> Forall wf l.
Proof.
  cbn [wf]. induction l as [|v l IH]; [by split|]. rewrite IH, Forall_cons. done.
Qed.

Lemma rel_lookup N l r k : rel N (VObject l) (VObject r) -> opt_rel (rel N) (assoc k l) (assoc k r).
Proof.
  intros [Hm Hn]%rel_members. destruct (assoc k l) as [v|] eqn:E.
  - destruct (Hm k v (assoc_In _ _ _ E)) as (w & -> & Hr). done.
  - by rewrite Hn.
Qed.

Lemma same_tree_refl v : wf v -> same_tree v v.
Proof.
  unfold same_tree. induction v as [| | | |l IH|m IH] using value_rect'; try done.
  - rewrite wf_elements, rel_elements. intros Hw. apply Forall_Forall2_diag, Forall_forall. intros x Hx.
    rewrite Forall_forall in IH, Hw. auto.
  - rewrite wf_members, rel_members. intros [Hn Hw]. split; [|done]. intros k v Hin.
    exists v. split; [by apply In_assoc|]. rewrite Forall_forall in IH. apply (IH (k, v)); eauto.
Qed.

Lemma same_tree_trans a : forall b c, same_tree a b -> same_tree b c -> same_tree a c.
Proof.
  unfold same_tree. induction a as [|x|x|x|l IH|m IH] using value_rect'; intros [|y|y|y|r|r] c; try done;
    destruct c as [|z|z|z|q|q]; try done.
  - by intros -> ->.
  - by intros -> ->.
  - by intros -> ->.
  - rewrite !rel_elements. revert r q. induction l as [|v l IHl]; intros r q H1 H2.
    + inversion H1; subst. by inversion H2.
    + apply Forall2_cons_inv_l in H1 as (w & r' & Hvw & Hr & ->). apply Forall2_cons_inv_l in H2 as (x & q' & Hwx & Hq & ->).
      apply Forall_cons in IH as [IHv IH]. constructor; eauto.
  - rewrite !rel_members. intros [H1 N1] [H2 N2]. split; [|auto]. intros k v Hin.
    destruct (H1 k v Hin) as (w & Hw & Hvw). destruct (H2 k w (assoc_In _ _ _ Hw)) as (x & Hx & Hwx).
    exists x. split; [done|]. rewrite Forall_forall in IH. apply (IH (k, v) Hin _ _ Hvw Hwx).
Qed.

Lemma opt_tree_trans a b c : opt_rel same_tree a b -> opt_rel same_tree b c -> opt_rel same_tree a c.
Proof. destruct a, b, c; try done. apply same_tree_trans. Qed.
End Tree.

(** ** patch.go *)
Module Patch.
Import Wire.Wire Model Number Tree.

Definition MaxPatchOperations : Z := 64.
Definition MaxPatchBytes : Z := 64 * 1024.
Definition MaxPatchedEnvelopeBytes : Z := 2 ^ 20.

Fixpoint equalJSON (a b : value) {struct a} : bool :=
  match a, b with
  | VNumber x, VNumber y => equal_numbers x y
  | VObject l, VObject r =>
      Nat.eqb (length l) (length r) &&
      (fix go l := match l with
                   | [] => true
                   | (k, v) :: l' =>
                       match assoc k r with Some w => equalJSON v w | None => false end && go l'
                   end) l
  | VArray l, VArray r =>
      Nat.eqb (length l) (length r) &&
      (fix go l r := match l, r with
                     | v :: l', w :: r' => equalJSON v w && go l' r'
                     | _, _ => true
                     end) l r
  | VNull, VNull => true
  | VBool x, VBool y => Bool.eqb x y
  | VString x, VString y => str_eqb x y
  | _, _ => false
  end.

(** The unescaping of a reference token: ~0 and ~1, no other escape. *)
Fixpoint unescape (part : string) : option string :=
  match part with
  | EmptyString => Some EmptyString
  | String c rest =>
      if ceq c "~" then
        match rest with
        | String d rest' =>
            if ceq d "0" then (String "~") <$> unescape rest'
            else if ceq d "1" then (String "/") <$> unescape rest'
            else None
        | EmptyString => None
        end
      else (String c) <$> unescape rest
  end.

(** The pointer rule: the payload, or a metadata member of the extension. *)
Definition owned_metadata (id key : string) : bool :=
  has_prefix key ("extensions." ++ id ++ ".") && ValidNamespacedName key.

Definition owned_path (id : string) (parts : list string) : bool :=
  match parts with
  | p :: rest =>
      str_eqb p "payload" ||
      match rest with key :: _ => str_eqb p "metadata" && owned_metadata id key | [] => false end
  | [] => false
  end.

Definition allowedPointer (path id : string) : option (list string) :=
  if has_prefix path "/" && (len path <=? 4096) then
    parts ← mapM unescape (split_on "/" (str_drop 1 path));
    if owned_path id parts then Some parts else None
  else None.

(** strconv.ParseUint(token, 10, 64) *)
Definition parse_uint (s : string) : option Z :=
  if negb (str_eqb s "") && digits_ok s && (parse_digits 0 s <=? max_uint64) then Some (parse_digits 0 s) else None.

Definition leading_zero (token : string) : bool :=
  (1 <? len token) && has_prefix token "0".

Fixpoint validArrayIndices (current : value) (tokens : list string) (insertion : bool) : bool :=
  match tokens with
  | [] => true
  | token :: rest =>
      let last := match rest with [] => true | _ => false end in
      match current with
      | VObject m =>
          match assoc token m with
          | None => last
          | Some v => validArrayIndices v rest insertion
          end
      | VArray l =>
          if insertion && last && str_eqb token "-" then true
          else if str_eqb token "" || leading_zero token || negb (digits_ok token) then false
          else match parse_uint token with
               | None => false
               | Some n =>
                   if insertion && last && (n =? Z.of_nat (length l)) then true
                   else match l !! Z.to_nat n with
                        | None => false
                        | Some v => validArrayIndices v rest insertion
                        end
               end
      | _ => false
      end
  end.

Fixpoint pointerValue (current : value) (tokens : list string) : option value :=
  match tokens with
  | [] => Some current
  | token :: rest =>
      match current with
      | VObject m => v ← assoc token m; pointerValue v rest
      | VArray l => n ← parse_uint token; v ← l !! Z.to_nat n; pointerValue v rest
      | _ => None
      end
  end.

(** A decoded patch operation: map[string]json.RawMessage. *)
Notation Operation := (gmap string (list byte)) (only parsing).

(** encoding/json on the values of this file, and the json-patch library: the
    result of marshalling one operation as a patch, decoding it and applying it
    with the options of the source. *)
Class PatchJson := {
  decode_tree : list byte -> option value;
  decode_operations : list byte -> option (list Operation);
  unmarshal_string : list byte -> option string;
  patch_single : Operation -> list byte -> option (list byte);
}.

(** [*[]map[string]json.RawMessage] for the wire validator. *)
Definition operation_types : list TypeDecl :=
  [ mkType (KPointer 1%nat) false false; mkType (KSlice 2%nat) false false; mkType KOther false false ].

Section patch.
Context `{JsonDecoder, EnvelopeJson, PatchJson}.

Definition outcome_of {A} (o : option A) : DecodeOutcome :=
  match o with Some _ => Decoded | None => ShapeMismatch end.

(** fabric.DecodeJSON into [any], into the operations, into an Envelope. *)
Definition decode_document (raw : list byte) : option value :=
  if is_ok (DecodeJSON any_types raw (Some 0%nat) (fun raw => outcome_of (decode_tree raw)))
  then decode_tree raw else None.

Definition decode_patch (raw : list byte) : option (list Operation) :=
  if is_ok (DecodeJSON operation_types raw (Some 0%nat) (fun raw => outcome_of (decode_operations raw)))
  then decode_operations raw else None.

Definition decode_result (raw : list byte) : option Envelope :=
  if is_ok (DecodeJSON envelope_types raw (Some 0%nat) (fun raw => outcome_of (decode_envelope raw)))
  then decode_envelope raw else None.

(** [if !b { return fail() }] *)
Definition require (b : bool) : option unit := if b then Some tt else None.

(** json.Unmarshal(operation[key], &text) *)
Definition member_text (op : Operation) (key : string) : option string :=
  unmarshal_string (default [] (op !! key)).

Definition inserts (kind : string) : bool :=
  str_eqb kind "add" || str_eqb kind "move" || str_eqb kind "copy".
Definition known_kind (kind : string) : bool :=
  inserts kind || str_eqb kind "remove" || str_eqb kind "replace" || str_eqb kind "test".
Definition two_sided (kind : string) : bool := str_eqb kind "move" || str_eqb kind "copy".

(** A move into its own source. *)
Definition moves_inside (kind : string) (tokens source : list string) : bool :=
  str_eqb kind "move" && Nat.ltb (length source) (length tokens) &&
  bool_decide (take (length source) tokens = source).

(** One iteration of the operation loop. *)
Definition apply_operation (id : string) (document : list byte) (op : Operation) : option (list byte) :=
  kind ← member_text op "op";
  path ← member_text op "path";
  tokens ← allowedPointer path id;
  _ ← require (known_kind kind);
  current ← decode_document document;
  _ ← require (validArrayIndices current tokens (inserts kind));
  _ ← (if two_sided kind then
         from ← member_text op "from";
         source ← allowedPointer from id;
         require (validArrayIndices current source false && negb (moves_inside kind tokens source))
       else Some tt);
  if str_eqb kind "test" then
    value ← op !! "value";
    expected ← decode_document value;
    actual ← pointerValue current tokens;
    _ ← require (equalJSON actual expected);
    Some document
  else
    _ ← require (negb (str_eqb kind "add" || str_eqb kind "replace") || bool_decide (is_Some (op !! "value")));
    document ← patch_single op document;
    _ ← require (blen document <=? MaxPatchedEnvelopeBytes);
    Some document.

Fixpoint apply_operations (id : string) (document : list byte) (ops : list Operation) : option (list byte) :=
  match ops with
  | [] => Some document
  | op :: ops' => document ← apply_operation id document op; apply_operations id document ops'
  end.

Definition reserved (id : string) : bool := str_eqb id "pagnet" || has_prefix id "pagnet.".

Definition ApplyPatch (original : Envelope) (extensionID : string) (raw : list byte) : result Error Envelope :=
  of_option (
    _ ← require (ValidNamespacedName extensionID && negb (reserved extensionID) && (blen raw <=? MaxPatchBytes));
    operations ← decode_patch raw;
    _ ← require (negb (Nat.eqb (length operations) 0) && (Z.of_nat (length operations) <=? MaxPatchOperations));
    document ← marshal_envelope original;
    _ ← require (blen document <=? MaxPatchedEnvelopeBytes);
    document ← apply_operations extensionID document operations;
    result ← decode_result document;
    _ ← require (is_ok (Envelope_Validate result));
    Some result)
  (NewError CodeInvalidMutation "Invalid extension mutation").
End patch.
End Patch.

(** ** The operations of RFC 6902 on trees *)
Module Rfc6902.
Import Number Tree Patch.

Fixpoint set_member (k : string) (v : value) (m : list (string * value)) : list (string * value) :=
  match m with
  | [] => [(k, v)]
  | (j, x) :: m' => if str_eqb j k then (j, v) :: m' else (j, x) :: set_member k v m'
  end.
Definition remove_member (k : string) (m : list (string * value)) : list (string * value) :=
  filter (fun kv => kv.1 <> k) m.

(** A child of an array or object, and the tree with that child replaced. *)
Definition child (t : value) (k : string) : option value := pointerValue t [k].
Definition put_child (t : value) (k : string) (v : value) : option value :=
  match t with
  | VObject m => Some (VObject (set_member k v m))
  | VArray l => n ← parse_uint k; Some (VArray (<[Z.to_nat n := v]> l))
  | _ => None
  end.

(** Adds, removes or replaces a member of one container. *)
Definition add_here (v : value) (t : value) (k : string) : option value :=
  match t with
  | VObject m => Some (VObject (set_member k v m))
  | VArray l =>
      if str_eqb k "-" then Some (VArray (l ++ [v]))
      else n ← parse_uint k;
           if n <=? Z.of_nat (length l) then Some (VArray (take (Z.to_nat n) l ++ v :: drop (Z.to_nat n) l)) else None
  | _ => None
  end.
Definition remove_here (t : value) (k : string) : option value :=
  _ ← child t k;
  match t with
  | VObject m => Some (VObject (remove_member k m))
  | VArray l => n ← parse_uint k; Some (VArray (delete (Z.to_nat n) l))
  | _ => None
  end.
Definition replace_here (v : value) (t : value) (k : string) : option value :=
  _ ← child t k; put_child t k v.

(** An edit of the container that holds the last token's location. *)
Fixpoint edit (here : value -> string -> option value) (t : value) (path : list string) : option value :=
  match path with
  | [] => None
  | [k] => here t k
  | k :: path' => c ← child t k; c' ← edit here c path'; put_child t k c'
  end.

(** [from] and [v] are the members of the operation that its kind uses. *)
Definition rfc6902 (kind : string) (path from : list string) (v : option value) (t : value) : option value :=
  if str_eqb kind "add" then v ← v; edit (add_here v) t path
  else if str_eqb kind "remove" then edit remove_here t path
  else if str_eqb kind "replace" then v ← v; edit (replace_here v) t path
  else if str_eqb kind "copy" then v ← pointerValue t from; edit (add_here v) t path
  else if str_eqb kind "move" then v ← pointerValue t from; t ← edit remove_here t from; edit (add_here v) t path
  else None.
End Rfc6902.

Module PatchProps.
Import Wire.Wire Model Number Tree Patch Rfc6902.

(** ** equalJSON *)
Lemma equal_elements l r : Forall (fun a => forall b, wf a -> wf b -> equalJSON a b = true <-> same_json a b) l ->
  Forall wf l -> Forall wf r -> equalJSON (VArray l) (VArray r) = true <-> Forall2 same_json l r.
Proof.
  intros IH Hl Hr. cbn [equalJSON]. revert r Hr.
  induction l as [|v l IHl]; intros [|w r] Hr; cbn [length Nat.eqb andb].
  - split; [constructor|done].
  - split; [done|by inversion 1].
  - split; [done|by inversion 1].
  - apply Forall_cons in IH as [IHv IH], Hl as [Hv Hl], Hr as [Hw Hr]. specialize (IHl IH Hl r Hr).
    rewrite Forall2_cons, <- IHl, <- (IHv w Hv Hw). destruct (Nat.eqb (length l) (length r)); cbn [andb].
    + apply andb_true_iff.
    + split; [done|by intros [_ ?]].
Qed.

(** Distinct keys: inclusion and equal size give the same keys. *)
Lemma keys_equal (l r : list (string * value)) : NoDup l.*1 -> NoDup r.*1 ->
  (forall k, k ∈ l.*1 -> k ∈ r.*1) ->
  length l = length r <-> (forall k, assoc k l = None -> assoc k r = None).
Proof.
  intros Hl Hr Hsub. setoid_rewrite assoc_None. split.
  - intros Hlen k Hk Hin. assert (l.*1 ≡ₚ r.*1) as Hp; [|by rewrite Hp in Hk].
    apply submseteq_length_Permutation; [by apply NoDup_submseteq|]. rewrite !length_fmap. lia.
  - intros Hnot. assert (l.*1 ≡ₚ r.*1) as Hp.
    { apply NoDup_Permutation; [done..|]. intros k. split; [auto|]. intros Hk.
      destruct (decide (k ∈ l.*1)) as [|Hn]; [done|]. by destruct (Hnot k Hn). }
    apply Permutation_length in Hp. by rewrite !length_fmap in Hp.
Qed.

Lemma equal_members l r :
  (fix go l := match l with
               | [] => true
               | (k, v) :: l' => match assoc k r with Some w => equalJSON v w | None => false end && go l'
               end) l = true <->
  forall k v, (k, v) ∈ l -> exists w, assoc k r = Some w /\ equalJSON v w = true.
Proof.
  induction l as [|[k v] l IH].
  - split; [by intros _ ? ? ?%elem_of_nil | done].
  - rewrite andb_true_iff, IH. split.
    + intros [Hv Hl] k' v' [[= -> ->]|Hin]%elem_of_cons; [|auto]. destruct (assoc k r); [eauto|done].
    + intros Hall. split; [|intros; apply Hall; by right].
      destruct (Hall k v) as (w & -> & Hw); [left|done].
Qed.

Lemma equal_json_exact a : forall b, wf a -> wf b -> equalJSON a b = true <-> same_json a b.
Proof.
  unfold same_json. induction a as [|x|x|x|l IH|m IH] using value_rect'; intros [|y|y|y|r|r]; try done.
  - intros _ _. cbn. apply Bool.eqb_true_iff.
  - intros (na & Ha & ->) (nb & Hb & ->). cbn [equalJSON rel]. rewrite equal_numbers_exact by done. split.
    + intros Hs. exists na, nb. done.
    + intros (na' & nb' & Ha' & Hb' & Ea & Eb & Hs). apply equal_numbers_exact; [done..|].
      rewrite Ea, Eb. by apply equal_numbers_exact.
  - intros _ _. cbn. apply str_eqb_eq.
  - rewrite !wf_elements, rel_elements. intros. by apply equal_elements.
  - rewrite !wf_members, rel_members. intros [Hl Hwl] [Hr Hwr]. cbn [equalJSON].
    rewrite andb_true_iff, Nat.eqb_eq, equal_members. rewrite Forall_forall in IH.
    assert ((forall k v, (k, v) ∈ m -> exists w, assoc k r = Some w /\ equalJSON v w = true) <->
            (forall k v, (k, v) ∈ m -> exists w, assoc k r = Some w /\ rel same_text_number v w)) as ->.
    { split; intros Hall k v Hin; destruct (Hall k v Hin) as (w & Hw & He); exists w; (split; [done|]);
        apply (IH (k, v) Hin w (Hwl k v Hin) (Hwr k w (assoc_In _ _ _ Hw))); done. }
    split.
    + intros [Hlen Hall]. split; [done|]. apply (keys_equal m r Hl Hr); [|done].
      intros k ([k' v] & -> & Hin)%list_elem_of_fmap. destruct (Hall k' v Hin) as (w & Hw & _).
      apply list_elem_of_fmap. exists (k', w). split; [done|]. by apply assoc_In.
    + intros [Hall Hn]. split; [|done]. apply (keys_equal m r Hl Hr); [|done].
      intros k ([k' v] & -> & Hin)%list_elem_of_fmap. destruct (Hall k' v Hin) as (w & Hw & _).
      apply list_elem_of_fmap. exists (k', w). split; [done|]. by apply assoc_In.
Qed.

(** The test operation decides JSON equality: on decoded documents (numbers
    of the JSON grammar, distinct member names) equalJSON holds exactly when the
    two values are equal member by member and element by element, in any member
    order, with numbers compared as exact rational numbers whatever their
    spelling and exponent. *)
Theorem test_equality_is_mathematical (a b : value) : wf a -> wf b -> equalJSON a b = true <-> same_json a b.
Proof. intros Ha Hb. by apply equal_json_exact. Qed.

(** ** Edits stay where they are *)
Lemma assoc_set k v m j : assoc j (set_member k v m) = if str_eqb k j then Some v else assoc j m.
Proof.
  induction m as [|[i x] m IH]; cbn [set_member assoc]; [done|].
  destruct (str_eqb i k) eqn:E; cbn [assoc].
  - apply str_eqb_eq in E as ->. by destruct (str_eqb k j).
  - rewrite IH. destruct (str_eqb i j) eqn:E1, (str_eqb k j) eqn:E2; try done.
    apply str_eqb_eq in E1, E2. subst. by rewrite str_eqb_refl in E.
Qed.

Lemma assoc_remove k m j : j <> k -> assoc j (remove_member k m) = assoc j m.
Proof.
  intros Hne. induction m as [|[i x] m IH]; [done|]. unfold remove_member in *. rewrite filter_cons. cbn [fst].
  case_decide as Hi; cbn [assoc]; [by rewrite IH|]. assert (i = k) as -> by (destruct (decide (i = k)); tauto).
  destruct (str_eqb k j) eqn:E; [|done]. apply str_eqb_eq in E. congruence.
Qed.

(** An edit of one container keeps its kind and its other members. *)
Definition local_edit (here : value -> string -> option value) : Prop :=
  (forall m k t', here (VObject m) k = Some t' -> exists m', t' = VObject m' /\ forall j, j <> k -> assoc j m' = assoc j m) /\
  (forall l k t', here (VArray l) k = Some t' -> exists l', t' = VArray l') /\
  (forall t k, match t with VArray _ | VObject _ => True | _ => here t k = None end).

Lemma set_other k v m j : j <> k -> assoc j (set_member k v m) = assoc j m.
Proof. intros Hne. rewrite assoc_set. destruct (str_eqb k j) eqn:E; [|done]. apply str_eqb_eq in E. congruence. Qed.

Lemma add_local v : local_edit (add_here v).
Proof.
  split; [|split]; cbn [add_here].
  - intros m k t' [= <-]. eexists. split; [done|]. intros. by apply set_other.
  - intros l k t'. case_if; [intros [= <-]; eauto|]. intros (n & _ & Ht)%bind_Some. case_if; [|done].
    injection Ht as <-. eauto.
  - by intros [].
Qed.

Lemma remove_local : local_edit remove_here.
Proof.
  split; [|split]; unfold remove_here.
  - intros m k t' (c & _ & [= <-])%bind_Some. eexists. split; [done|]. intros. by apply assoc_remove.
  - intros l k t' (c & _ & Ht)%bind_Some. apply bind_Some in Ht as (n & _ & [= <-]). eauto.
  - by intros [].
Qed.

Lemma replace_local v : local_edit (replace_here v).
Proof.
  split; [|split]; unfold replace_here, put_child.
  - intros m k t' (c & _ & [= <-])%bind_Some. eexists. split; [done|]. intros. by apply set_other.
  - intros l k t' (c & _ & Ht)%bind_Some. apply bind_Some in Ht as (n & _ & [= <-]). eauto.
  - by intros [].
Qed.

Lemma edit_cons here t k path : path <> [] ->
  edit here t (k :: path) = (c ← child t k; c' ← edit here c path; put_child t k c').
Proof. by destruct path. Qed.

Lemma edit_array here l path t' : local_edit here -> edit here (VArray l) path = Some t' -> exists l', t' = VArray l'.
Proof.
  intros (_ & Ha & _). destruct path as [|k [|k2 path]]; [done|apply Ha|]. rewrite edit_cons by done.
  intros (c & _ & Ht)%bind_Some. apply bind_Some in Ht as (c' & _ & Ht). cbn [put_child] in Ht.
  apply bind_Some in Ht as (n & _ & [= <-]). eauto.
Qed.

Lemma edit_scalar here t path : local_edit here -> match t with VArray _ | VObject _ => False | _ => True end ->
  edit here t path = None.
Proof.
  intros (_ & _ & Hn) Ht. destruct path as [|k [|k2 path]]; [done| |].
  - cbn [edit]. specialize (Hn t k). by destruct t.
  - rewrite edit_cons by done. by destruct t.
Qed.

Lemma edit_object here m k path t' : local_edit here -> edit here (VObject m) (k :: path) = Some t' ->
  exists m', t' = VObject m' /\ (forall j, j <> k -> assoc j m' = assoc j m) /\
    (path <> [] -> exists c c', assoc k m = Some c /\ assoc k m' = Some c' /\ edit here c path = Some c').
Proof.
  intros Hl. destruct path as [|k2 path].
  - intros (m' & -> & Hj)%(proj1 Hl). exists m'. by split_and!.
  - rewrite edit_cons by done. intros (c & Hc & Ht)%bind_Some. apply bind_Some in Ht as (c' & Hc' & [= <-]).
    unfold child in Hc. cbn [pointerValue] in Hc. apply bind_Some in Hc as (c0 & Hc & [= ->]).
    eexists. split; [done|]. split; [intros; by apply set_other|]. intros _. exists c, c'.
    rewrite assoc_set, str_eqb_refl. done.
Qed.

(** ** Confinement *)
(** A member of the metadata object. *)
Definition meta (m : list (string * value)) (key : string) : option value :=
  match assoc "metadata" m with Some (VObject mm) => assoc key mm | _ => None end.

(** Nothing but the payload and the extension's own metadata differs. *)
Definition confined (R : option value -> option value -> Prop) (id : string) (m m' : list (string * value)) : Prop :=
  (forall j, j <> "payload" -> j <> "metadata" -> R (assoc j m) (assoc j m')) /\
  (forall key, owned_metadata id key = false -> R (meta m key) (meta m' key)).

Lemma confined_trans R id m1 m2 m3 : (forall a b c, R a b -> R b c -> R a c) ->
  confined R id m1 m2 -> confined R id m2 m3 -> confined R id m1 m3.
Proof. intros HR [A1 B1] [A2 B2]. split; eauto. Qed.

Lemma owned_path_inv id path : owned_path id path = true ->
  (exists rest, path = "payload" :: rest) \/
  (exists key rest, path = "metadata" :: key :: rest /\ owned_metadata id key = true).
Proof.
  destruct path as [|p rest]; [done|]. cbn [owned_path]. intros [Hp|Hp]%orb_true_iff.
  - apply str_eqb_eq in Hp as ->. eauto.
  - destruct rest as [|key rest]; [done|]. apply andb_true_iff in Hp as [->%str_eqb_eq Hk]. eauto 6.
Qed.

Lemma edit_confined here id m path t' : local_edit here -> owned_path id path = true ->
  edit here (VObject m) path = Some t' -> exists m', t' = VObject m' /\ confined eq id m m'.
Proof.
  intros Hl [(rest & ->)|(key & rest & -> & Hk)]%owned_path_inv He;
    apply edit_object in He as (m' & -> & Hj & Hc); try done; exists m'; (split; [done|]).
  - split; [intros; by rewrite Hj|]. intros key _. unfold meta. by rewrite Hj.
  - split; [intros; by rewrite Hj|]. intros key' Hk'. destruct Hc as (c & c' & Hc & Hc' & He); [done|].
    unfold meta. rewrite Hc, Hc'. destruct c as [| | | |l|mm]; try by rewrite edit_scalar in He.
    + apply edit_array in He as (l' & ->); done.
    + apply edit_object in He as (mm' & -> & Hj' & _); [|done]. rewrite Hj'; [done|]. intros ->. congruence.
Qed.

Lemma rfc6902_confined id kind path from v m t' : owned_path id path = true ->
  (two_sided kind = true -> owned_path id from = true) ->
  rfc6902 kind path from v (VObject m) = Some t' -> exists m', t' = VObject m' /\ confined eq id m m'.
Proof.
  intros Hp Hf. unfold rfc6902.
  case_if; [intros (x & -> & Hx)%bind_Some; eauto using edit_confined, add_local|].
  case_if; [eauto using edit_confined, remove_local|].
  case_if; [intros (x & -> & Hx)%bind_Some; eauto using edit_confined, replace_local|].
  case_if; [intros (x & _ & Hx)%bind_Some; eauto using edit_confined, add_local|].
  case_if; [|done]. intros (x & _ & Hx)%bind_Some. apply bind_Some in Hx as (t1 & H1 & H2).
  apply (edit_confined _ id) in H1 as (m1 & -> & C1); [|apply remove_local|apply Hf; unfold two_sided; by rewrite E3].
  apply (edit_confined _ id) in H2 as (m2 & -> & C2); [|apply add_local|done].
  exists m2. split; [done|]. eapply confined_trans; [|done|done]. congruence.
Qed.

Lemma confined_same id m r m' : confined eq id m r -> same_tree (VObject r) (VObject m') ->
  confined (opt_rel same_tree) id m m'.
Proof.
  intros [A B] Hs. split.
  - intros j H1 H2. rewrite A by done. by apply rel_lookup.
  - intros key Hk. rewrite B by done. pose proof (rel_lookup _ _ _ "metadata" Hs) as Hm. unfold meta.
    destruct (assoc "metadata" r) as [[| | | |l|mm]|], (assoc "metadata" m') as [[| | | |l'|mm']|]; try done.
    by apply rel_lookup.
Qed.

(** The tokens of a JSON pointer (RFC 6901). *)
Definition pointer_tokens (path : string) : option (list string) := mapM unescape (split_on "/" (str_drop 1 path)).

Lemma allowed_tokens path id tokens : allowedPointer path id = Some tokens ->
  pointer_tokens path = Some tokens /\ owned_path id tokens = true.
Proof.
  unfold allowedPointer. case_if; [|done]. intros (parts & Hp & Ht)%bind_Some. case_if; [|done].
  by injection Ht as <-.
Qed.

(** The envelope with another payload and other metadata. *)
Definition with_content (e : Envelope) (payload : list byte) (metadata : gmap string (list byte)) : Envelope :=
  mkEnvelope (v_ProtocolVersion e) (v_ID e) (v_Operation e) (v_Principal e) (v_Source e) (v_Target e)
    (v_ExpectedRevision e) (v_CreatedAt e) payload metadata (v_Context e) (v_Trace e) (v_RequiredFeatures e).

Section confinement.
Context `{JsonDecoder, EnvelopeJson, PatchJson}.

(** A raw metadata value and the tree of its member. *)
Definition raw_matches (raw : option (list byte)) (x : option value) : Prop :=
  match raw, x with
  | Some raw, Some x => exists y, decode_tree raw = Some y /\ same_tree x y /\ same_tree y x
  | None, None => True
  | _, _ => False
  end.

(** What the patch relies on: decoded trees are JSON values, a marshalled
    envelope is an object, the library applies RFC 6902 to the document (writing
    members in any order) when the array indices of its pointers are canonical and in
    range, and encoding/json reads every envelope field but the
    payload and the metadata from its own member, and the metadata map from the
    members of the metadata object. *)
Class PatchLaws : Prop := {
  tree_wf d t : decode_tree d = Some t -> wf t;
  marshal_object e d : marshal_envelope e = Some d -> exists m, decode_tree d = Some (VObject m);
  patch_rfc op d d' t kind tokens :
    patch_single op d = Some d' -> decode_tree d = Some t ->
    member_text op "op" = Some kind -> known_kind kind = true -> kind <> "test" ->
    (member_text op "path" ≫= pointer_tokens) = Some tokens ->
    (str_eqb kind "add" || str_eqb kind "replace" = true -> is_Some (op !! "value")) ->
    validArrayIndices t tokens (inserts kind) = true ->
    (two_sided kind = true -> validArrayIndices t (default [] (member_text op "from" ≫= pointer_tokens)) false = true) ->
    exists r t', rfc6902 kind tokens (default [] (member_text op "from" ≫= pointer_tokens))
                   (op !! "value" ≫= decode_tree) t = Some r /\
      decode_tree d' = Some t' /\ same_tree r t';
  envelope_fields d1 d2 e1 e2 m1 m2 :
    decode_result d1 = Some e1 -> decode_result d2 = Some e2 ->
    decode_tree d1 = Some (VObject m1) -> decode_tree d2 = Some (VObject m2) ->
    (forall j, j <> "payload" -> j <> "metadata" -> opt_rel same_tree (assoc j m1) (assoc j m2)) ->
    e2 = with_content e1 (v_Payload e2) (v_Metadata e2);
  envelope_metadata d e m key : decode_result d = Some e -> decode_tree d = Some (VObject m) ->
    raw_matches (v_Metadata e !! key) (meta m key) }.

Context `{!PatchLaws}.

Lemma document_tree d t : decode_document d = Some t -> decode_tree d = Some t.
Proof. unfold decode_document. by case_if. Qed.

Lemma require_Some b u : require b = Some u -> b = true.
Proof. by destruct b. Qed.

(** One operation: the documents' trees differ only where they may. *)
Lemma operation_confined id d op d' m : apply_operation id d op = Some d' -> decode_tree d = Some (VObject m) ->
  exists m', decode_tree d' = Some (VObject m') /\ confined (opt_rel same_tree) id m m'.
Proof.
  intros Ho Hd. unfold apply_operation in Ho.
  apply bind_Some in Ho as (kind & Hkind & Ho). apply bind_Some in Ho as (path & Hpath & Ho).
  apply bind_Some in Ho as (tokens & Ht & Ho). apply allowed_tokens in Ht as [Ht Hown].
  apply bind_Some in Ho as (u & Hk%require_Some & Ho). apply bind_Some in Ho as (current & Hc & Ho).
  apply bind_Some in Ho as (u1 & Hidx%require_Some & Ho). apply bind_Some in Ho as (u2 & Hfrom & Ho).
  apply document_tree in Hc. rewrite Hd in Hc. injection Hc as <-.
  destruct (str_eqb kind "test") eqn:Etest.
  { apply bind_Some in Ho as (v & _ & Ho). apply bind_Some in Ho as (x & _ & Ho). apply bind_Some in Ho as (y & _ & Ho).
    apply bind_Some in Ho as (u3 & _ & [= <-]). exists m. split; [done|].
    pose proof (same_tree_refl _ (tree_wf _ _ Hd)) as Hr. by apply (confined_same id m m m). }
  apply bind_Some in Ho as (u3 & Hv%require_Some & Ho). apply bind_Some in Ho as (d1 & Hp & Ho).
  apply bind_Some in Ho as (u4 & _ & [= <-]).
  destruct (patch_rfc op d d1 (VObject m) kind tokens) as (r & t' & Hr & Ht' & Hs); try done.
  { intros ->. done. }
  { by rewrite Hpath. }
  { intros Hadd. rewrite Hadd in Hv. by apply bool_decide_eq_true_1 in Hv. }
  { intros Htwo. rewrite Htwo in Hfrom. apply bind_Some in Hfrom as (from & -> & Hfrom).
    apply bind_Some in Hfrom as (source & [Hsrc _]%allowed_tokens & [Hi _]%require_Some%andb_true_iff).
    cbn [mbind option_bind]. by rewrite Hsrc. }
  apply (rfc6902_confined id) in Hr as (m' & -> & Hconf); [|done|].
  2: { intros Htwo. rewrite Htwo in Hfrom. apply bind_Some in Hfrom as (from & Hf & Hfrom).
       apply bind_Some in Hfrom as (source & Hsrc & _). apply allowed_tokens in Hsrc as [Hsrc Hso].
       rewrite Hf. cbn [mbind option_bind]. by rewrite Hsrc. }
  destruct t' as [| | | |l|mt]; try done. exists mt. split; [done|]. by eapply confined_same.
Qed.

Lemma operations_confined id ops : forall d d' m, apply_operations id d ops = Some d' -> decode_tree d = Some (VObject m) ->
  exists m', decode_tree d' = Some (VObject m') /\ confined (opt_rel same_tree) id m m'.
Proof.
  induction ops as [|op ops IH]; intros d d' m Ho Hd.
  - injection Ho as <-. exists m. split; [done|].
    pose proof (same_tree_refl _ (tree_wf _ _ Hd)) as Hr. by apply (confined_same id m m m).
  - cbn [apply_operations] in Ho. apply bind_Some in Ho as (d1 & Hop & Ho).
    destruct (operation_confined _ _ _ _ _ Hop Hd) as (m1 & Hd1 & C1). destruct (IH _ _ _ Ho Hd1) as (m2 & Hd2 & C2).
    exists m2. split; [done|]. eapply confined_trans; [apply opt_tree_trans|done|done].
Qed.

(** The same metadata value, or absent on both sides. *)
Definition same_raw (a b : option (list byte)) : Prop :=
  match a, b with
  | Some r1, Some r2 => exists x y, decode_tree r1 = Some x /\ decode_tree r2 = Some y /\ same_tree x y
  | None, None => True
  | _, _ => False
  end.

Lemma raw_same a b x y : raw_matches a x -> raw_matches b y -> opt_rel same_tree x y -> same_raw a b.
Proof.
  destruct a as [ra|], b as [rb|], x as [x|], y as [y|]; try done. cbn.
  intros (u & Hu & _ & Hux) (v & Hv & Hyv & _) Hxy. exists u, v. split; [done|]. split; [done|].
  eapply same_tree_trans; [exact Hux|]. by eapply same_tree_trans.
Qed.

(** C37. Extension patches are confined. Whatever operations an extension sends
    and however they move or copy values, an envelope that ApplyPatch returns is
    valid and equals the original in everything but its payload and the metadata
    under the extension's own prefix: identity, routing, provenance, trace and
    every other metadata entry are unchanged; reserved extension names patch
    nothing. *)
Theorem patches_are_confined (original result : Envelope) (id : string) (raw document : list byte) :
  ApplyPatch original id raw = Ok result ->
  marshal_envelope original = Some document -> decode_result document = Some original ->
  Envelope_Validate result = Ok tt /\ reserved id = false /\
  result = with_content original (v_Payload result) (v_Metadata result) /\
  forall key, owned_metadata id key = false -> same_raw (v_Metadata original !! key) (v_Metadata result !! key).
Proof.
  intros Ha Hm Ho. unfold ApplyPatch in Ha.
  match type of Ha with of_option ?o _ = _ => destruct o as [e|] eqn:E; [|done] end. injection Ha as ->.
  apply bind_Some in E as (u & Hid%require_Some & E). apply bind_Some in E as (ops & Hops & E).
  apply bind_Some in E as (u1 & _ & E). apply bind_Some in E as (d0 & Hd0 & E). rewrite Hm in Hd0. injection Hd0 as <-.
  apply bind_Some in E as (u2 & _ & E). apply bind_Some in E as (d1 & Hd1 & E).
  apply bind_Some in E as (e & He & E). apply bind_Some in E as (u3 & Hval%require_Some & [= ->]).
  destruct (marshal_object _ _ Hm) as (m0 & Hm0).
  destruct (operations_confined _ _ _ _ _ Hd1 Hm0) as (m1 & Hm1 & [Hc Hmeta]).
  split. { destruct (Envelope_Validate result) as [[]|]; done. }
  split. { rewrite !andb_true_iff, negb_true_iff in Hid. apply Hid. }
  split; [by eapply (envelope_fields document d1)|].
  intros key Hk. eapply raw_same; [by eapply envelope_metadata|by eapply envelope_metadata|by apply Hmeta].
Qed.
End confinement.
End PatchProps.

(** ** A concrete patch *)
Module PatchWitness.
Import Wire.Wire Model Number Tree Patch Rfc6902 PatchProps Wire.WireWitness FabricModel.ModelWitness.

Lemma test_equality_witness :
  equalJSON (VObject [("a", VNumber "1.50e1"); ("b", VArray [VNull])]) (VObject [("b", VArray [VNull]); ("a", VNumber "15")]) = true /\
  same_json (VObject [("a", VNumber "1.50e1"); ("b", VArray [VNull])]) (VObject [("b", VArray [VNull]); ("a", VNumber "15")]).
Proof.
  split; [vm_compute; reflexivity|].
  apply test_equality_is_mathematical; [| |vm_compute; reflexivity].
  - split; [apply (bool_decide_eq_true_1 _); vm_compute; reflexivity|]. split; [|done].
    exists (mkNumber false "1" "50" (Some ("e"%char, ("", "1")))). split; [|reflexivity].
    repeat split; (reflexivity || discriminate || (left; reflexivity)).
  - split; [apply (bool_decide_eq_true_1 _); vm_compute; reflexivity|]. split; [done|]. split; [|done].
    exists (mkNumber false "15" "" None). split; [|reflexivity].
    repeat split; (reflexivity || discriminate).
Defined.

(** Documents are marked by a first byte D; everything else decodes to a text. *)
Definition d_mark : byte := x44.
Definition d_tree (d : list byte) : option value :=
  match d with
  | c :: rest => if bool_decide (c = d_mark) then Some (VObject [("payload", VString (string_of rest))])
                 else Some (VString (string_of d))
  | [] => Some (VString "")
  end.
Definition d_envelope (payload : list byte) : Envelope := with_content sample_envelope payload ∅.
Definition d_operation : gmap string (list byte) :=
  {[ "op" := bytes_of "replace"; "path" := bytes_of "/payload"; "value" := bytes_of "[]" ]}.
Definition d_patch (op : gmap string (list byte)) (d : list byte) : option (list byte) :=
  match d, op !! "value" with
  | c :: _, Some v =>
      if bool_decide (c = d_mark) && bool_decide (op !! "op" = Some (bytes_of "replace")) &&
         bool_decide (op !! "path" = Some (bytes_of "/payload")) && negb (bool_decide (head v = Some d_mark))
      then Some (d_mark :: v) else None
  | _, _ => None
  end.

#[export] Instance d_envelope_json : EnvelopeJson :=
  {| decode_envelope := fun d => match d with
       | c :: rest => if bool_decide (c = d_mark) then Some (d_envelope rest) else None
       | [] => None end;
     marshal_envelope := fun e => if bool_decide (e = d_envelope (v_Payload e)) then Some (d_mark :: v_Payload e) else None |}.
#[export] Instance d_patch_json : PatchJson :=
  {| decode_tree := d_tree; decode_operations := fun _ => Some [d_operation];
     unmarshal_string := fun raw => Some (string_of raw); patch_single := d_patch |}.

Lemma d_result d e : decode_result d = Some e -> exists rest, d = d_mark :: rest /\ e = d_envelope rest.
Proof.
  unfold decode_result. case_if; [|done]. cbn [decode_envelope d_envelope_json]. destruct d as [|c rest]; [done|].
  case_bool_decide; [|done]. intros [= <-]. subst c. eauto.
Qed.

Lemma d_tree_text v : head v <> Some d_mark -> d_tree v = Some (VString (string_of v)).
Proof. destruct v as [|c v]; [done|]. cbn. intros Hc. rewrite bool_decide_eq_false_2; congruence. Qed.

#[export] Instance d_laws : PatchLaws.
Proof.
  constructor.
  - intros d t. cbn [decode_tree d_patch_json]. destruct d as [|c rest]; cbn [d_tree]; [by intros [= <-]|].
    case_bool_decide; intros [= <-]; [|done]. split; [apply NoDup_singleton|done].
  - intros e d. cbn [marshal_envelope d_envelope_json]. case_bool_decide; [|done]. intros [= <-]. eauto.
  - intros op d d' t kind tokens Hp Hd Hk _ _ Hpath _ _ _. cbn [patch_single d_patch_json] in Hp. unfold d_patch in Hp.
    destruct d as [|c rest]; [done|]. destruct (op !! "value") as [v|] eqn:Ev; [|done].
    destruct (_ && _) eqn:Ec in Hp; [|done]. injection Hp as <-.
    rewrite !andb_true_iff in Ec. destruct Ec as [[[->%bool_decide_eq_true_1 Eop%bool_decide_eq_true_1] Epath%bool_decide_eq_true_1] Ehead].
    apply negb_true_iff, bool_decide_eq_false_1 in Ehead.
    unfold member_text in *. rewrite Eop in Hk. rewrite Epath in Hpath. cbn in Hk, Hpath. injection Hk as <-. injection Hpath as <-.
    cbn [decode_tree d_patch_json] in *. cbn [d_tree] in Hd. rewrite bool_decide_eq_true_2 in Hd by done. injection Hd as <-.
    cbn [mbind option_bind]. rewrite (d_tree_text v Ehead). cbn [d_tree]. rewrite bool_decide_eq_true_2 by done.
    eexists _, _. split; [vm_compute; reflexivity|]. split; [reflexivity|].
    apply same_tree_refl. split; [apply NoDup_singleton|done].
  - intros d1 d2 e1 e2 m1 m2 (r1 & -> & ->)%d_result (r2 & -> & ->)%d_result _ _ _. done.
  - intros d e m key (rest & -> & ->)%d_result Hd. cbn [decode_tree d_patch_json d_tree] in Hd.
    rewrite bool_decide_eq_true_2 in Hd by done. injection Hd as <-. cbn [d_envelope with_content v_Metadata].
    rewrite lookup_empty. done.
Defined.

Lemma patches_are_confined_witness :
  exists result, ApplyPatch (d_envelope (bytes_of "{}")) "acme.audit" [x5b] = Ok result /\
    v_Payload result = bytes_of "[]" /\ v_Principal result = sample_principal.
Proof.
  assert (exists result, ApplyPatch (d_envelope (bytes_of "{}")) "acme.audit" [x5b] = Ok result /\
    v_Payload result = bytes_of "[]") as (result & Ha & Hp).
  { eexists. split; vm_compute; reflexivity. }
  exists result. split; [exact Ha|]. split; [exact Hp|].
  destruct (patches_are_confined (d_envelope (bytes_of "{}")) result "acme.audit" [x5b] (d_mark :: bytes_of "{}")
    Ha eq_refl) as (_ & _ & Hr & _); [vm_compute; reflexivity|].
  rewrite Hr. reflexivity.
Defined.
End PatchWitness.
