(* ===== verification/Manifest.v ===== *)
(** * Extension manifests and their execution plan (src/fabric/extension/manifest.go)

    An operator installs extension manifests; [Compile] validates them, orders
    all interceptors by their Before/After constraints with priorities breaking
    ties, and groups them into the chains from which [Select] picks the
    interceptors of one operation stage.

    Go enumerates maps in an unspecified order, different at every range
    statement: [range k s] is the order in which the k-th range statement of a
    run enumerates the keys [s]. encoding/json of manifests is [ManifestJson]. *)
From Stdlib Require Import Ascii Strings.Byte ZArith Lia.
From S2P Require Import Prelude GoStrings FabricRef Wire FabricModel Heap.
#[local] Open Scope Z_scope.

Module Manifest.
Import Wire.Wire Model.

(** ** Data: Placement, FailureMode and Phase are string types *)
Definition PlacementSource : string := "source".
Definition PlacementDestination : string := "destination".
Definition PlacementRelay : string := "relay".
Definition FailClosed : string := "fail-closed".
Definition FailOpen : string := "fail-open".
Definition PhaseRequest : string := "request".
Definition PhaseResponse : string := "response".
Definition PhaseError : string := "error".
Definition PhaseChunk : string := "chunk".
Definition PhaseCompletion : string := "completion".

Record Match := mkMatch {
  m_Operation : string; m_Stage : string; m_SourceKinds : list string; m_TargetKinds : list string;
  m_TargetProtocols : list string; m_Domains : list string; m_Tags : list string }.

Record Registration := mkRegistration {
  r_ID : string; r_Priority : Z; r_Before : list string; r_After : list string; r_Match : Match;
  r_Placement : string; r_NeedsPlaintext : bool; r_Phases : list string; r_TimeoutMillis : Z;
  r_FailureMode : string; r_AllowSelfRecursion : bool; r_Binding : string }.

Record EventSubscription := mkSubscription { es_ID : string; es_Types : list string; es_Binding : string }.
Record TriggerRegistration := mkTrigger { tr_ID : string; tr_Binding : string }.

Record ExtensionManifest := mkManifest {
  em_ManifestVersion : string; em_ID : string; em_Version : string; em_MinProtocol : string;
  em_MaxProtocol : string; em_Interceptors : list Registration;
  em_EventSubscriptions : list EventSubscription; em_Triggers : list TriggerRegistration;
  em_ConfigurationSchema : list byte }.

Record MatchContext := mkMatchContext {
  mc_Operation : string; mc_Stage : string; mc_Placement : string; mc_SourceKind : string;
  mc_TargetKind : string; mc_TargetProtocol : string; mc_Domain : string; mc_Tags : list string;
  mc_ExecutingInterceptors : list string }.

Record CompiledRegistration := mkCompiled { c_ExtensionID : string; c_Registration : Registration }.

(** chainKey: operation, stage, placement. *)
Notation chainKey := (string * string * string)%type (only parsing).

Record Plan := mkPlan {
  p_chains : gmap chainKey (list CompiledRegistration); p_revision : string;
  p_byID : gmap string CompiledRegistration }.

#[export] Instance match_eq_dec : EqDecision Match.
Proof. solve_decision. Defined.
#[export] Instance registration_eq_dec : EqDecision Registration.
Proof. solve_decision. Defined.
#[export] Instance compiled_eq_dec : EqDecision CompiledRegistration.
Proof. solve_decision. Defined.

(** ** Validation *)
Definition invalidRegistration : Error := NewError CodeInvalidInput "Invalid extension registration".

Fixpoint contains (values : list string) (value : string) : bool :=
  match values with
  | [] => false
  | candidate :: values => if str_eqb candidate value then true else contains values value
  end.

Definition accept (values : list string) (value : string) : bool :=
  Nat.eqb (length values) 0 || contains values value.

Definition ownedID (owner id : string) : bool :=
  has_prefix id (owner ++ ".") && ValidNamespacedName id.

(** strconv.ParseUint(strings.Split(version, ".")[1], 10, 32): a valid version has
    two parts and at most nine digits in each. *)
Definition minor (version : string) : Z :=
  parse_digits 0 (default "" (split_on "." version !! 1%nat)).

Definition protocolWithin (current min max : string) : bool :=
  forallb (fun version => is_ok (ProtocolVersion_Validate version)) [current; min; max] &&
  (minor min <=? minor current) && (minor current <=? minor max).

Definition known_phase (phase : string) : bool :=
  str_eqb phase PhaseRequest || str_eqb phase PhaseResponse || str_eqb phase PhaseError ||
  str_eqb phase PhaseChunk || str_eqb phase PhaseCompletion.

Fixpoint validate_phases (seen : list string) (phases : list string) : bool :=
  match phases with
  | [] => true
  | phase :: phases =>
      if negb (known_phase phase) then false
      else if contains seen phase then false
      else validate_phases (phase :: seen) phases
  end.

Definition known_operation (operation : string) : bool :=
  str_eqb operation OperationDiscover || str_eqb operation OperationDescribe || str_eqb operation OperationInvoke.

Definition bounded_values (values : list string) : bool :=
  (Z.of_nat (length values) <=? 64) &&
  forallb (fun value => negb (str_eqb value "" || (256 <? len value))) values.

Definition validate_placement (r : Registration) : result Error unit :=
  if str_eqb (r_Placement r) PlacementSource || str_eqb (r_Placement r) PlacementDestination then Ok tt
  else if str_eqb (r_Placement r) PlacementRelay then
    guard (negb (r_NeedsPlaintext r)) (NewError CodeInvalidInput "Relay interceptor cannot request plaintext")
  else Err invalidRegistration.

Definition set_FailureMode (r : Registration) (mode : string) : Registration :=
  mkRegistration (r_ID r) (r_Priority r) (r_Before r) (r_After r) (r_Match r) (r_Placement r)
    (r_NeedsPlaintext r) (r_Phases r) (r_TimeoutMillis r) mode (r_AllowSelfRecursion r) (r_Binding r).

(** The registration is passed by pointer: an empty failure mode becomes
    fail-closed in the caller's copy. *)
Definition validateRegistration (owner : string) (r : Registration) : result Error Registration :=
  let? _ := guard (negb (negb (ownedID owner (r_ID r)) || str_eqb (r_Binding r) "" || (256 <? len (r_Binding r)) ||
                         (r_TimeoutMillis r =? 0) ||
                         (time_Minute <? wrap64 (r_TimeoutMillis r * time_Millisecond)) ||
                         (64 <? Z.of_nat (length (r_Before r))) || (64 <? Z.of_nat (length (r_After r)))))
              invalidRegistration in
  let r := if str_eqb (r_FailureMode r) "" then set_FailureMode r FailClosed else r in
  let? _ := guard (negb (negb (str_eqb (r_FailureMode r) FailClosed) && negb (str_eqb (r_FailureMode r) FailOpen)))
              invalidRegistration in
  let? _ := validate_placement r in
  let m := r_Match r in
  let? _ := guard (known_operation (m_Operation m)) invalidRegistration in
  let? _ := guard (negb (negb (ValidNamespacedName (m_Stage m)) || Nat.eqb (length (r_Phases r)) 0 ||
                         (5 <? Z.of_nat (length (r_Phases r)))))
              invalidRegistration in
  let? _ := guard (validate_phases [] (r_Phases r)) invalidRegistration in
  let? _ := guard (forallb bounded_values
                     [m_SourceKinds m; m_TargetKinds m; m_TargetProtocols m; m_Domains m; m_Tags m])
              invalidRegistration in
  let? _ := guard (forallb (forallb ValidNamespacedName) [m_SourceKinds m; m_TargetKinds m])
              invalidRegistration in
  Ok r.

(** ** The nodes of the manifests *)
Class ManifestJson := {
  marshal_manifest : ExtensionManifest -> option (list byte);
  decode_manifest : list byte -> option ExtensionManifest;
  marshal_manifests : list ExtensionManifest -> option (list byte);
}.

Definition manifest_types : list TypeDecl :=
  [ (* 0: *ExtensionManifest *) mkType (KPointer 1%nat) false false;
    (* 1: ExtensionManifest *)
    mkType (KStruct
      [field "ManifestVersion" "manifestVersion" 2; field "ID" "id" 2; field "Version" "version" 2;
       field "MinProtocol" "minProtocol" 2; field "MaxProtocol" "maxProtocol" 2;
       field "Interceptors" "interceptors,omitempty" 3;
       field "EventSubscriptions" "eventSubscriptions,omitempty" 4;
       field "Triggers" "triggers,omitempty" 5;
       field "ConfigurationSchema" "configurationSchema,omitempty" 6]) false false;
    (* 2: strings, numbers, booleans *) mkType KOther false false;
    (* 3, 4, 5: slices *)
    mkType (KSlice 7%nat) false false; mkType (KSlice 9%nat) false false; mkType (KSlice 10%nat) false false;
    (* 6: json.RawMessage *) mkType KOther false true;
    (* 7: Registration *)
    mkType (KStruct
      [field "ID" "id" 2; field "Priority" "priority" 2; field "Before" "before,omitempty" 11;
       field "After" "after,omitempty" 11; field "Match" "match" 8; field "Placement" "placement" 2;
       field "NeedsPlaintext" "needsPlaintext" 2; field "Phases" "phases" 11;
       field "TimeoutMillis" "timeoutMillis" 2; field "FailureMode" "failureMode,omitempty" 2;
       field "AllowSelfRecursion" "allowSelfRecursion,omitempty" 2; field "Binding" "binding" 2]) false false;
    (* 8: Match *)
    mkType (KStruct
      [field "Operation" "operation" 2; field "Stage" "stage" 2;
       field "SourceKinds" "sourceKinds,omitempty" 11; field "TargetKinds" "targetKinds,omitempty" 11;
       field "TargetProtocols" "targetProtocols,omitempty" 11; field "Domains" "domains,omitempty" 11;
       field "Tags" "tags,omitempty" 11]) false false;
    (* 9: EventSubscription *)
    mkType (KStruct [field "ID" "id" 2; field "Types" "types" 11; field "Binding" "binding" 2]) false false;
    (* 10: TriggerRegistration *)
    mkType (KStruct [field "ID" "id" 2; field "Binding" "binding" 2]) false false;
    (* 11: []string *) mkType (KSlice 2%nat) false false ].

Section compile.
Context `{Sha256, JsonDecoder, ManifestJson}.
Context (range : nat -> gset string -> list string).

(** The manifest as the plan owns it: marshalled and decoded again. *)
Definition own_manifest (maxInterceptors : Z) (supplied : ExtensionManifest) : result Error ExtensionManifest :=
  let? raw := of_option (marshal_manifest supplied) invalidRegistration in
  let limits := mkLimits (maxInterceptors * 4096 + 65536) 64 (maxInterceptors * 128 + 4096) in
  let? _ := guard (is_ok (DecodeJSONWithLimits manifest_types raw (Some 0%nat)
                            (fun raw => match decode_manifest raw with Some _ => Decoded | None => ShapeMismatch end)
                            limits))
              invalidRegistration in
  of_option (decode_manifest raw) invalidRegistration.

Definition overlaps (a b : string) : bool := has_prefix a (b ++ ".") || has_prefix b (a ++ ".").

Definition check_manifest (extensions : gset string) (m : ExtensionManifest) : result Error unit :=
  let? _ := guard (negb (negb (is_ok (ProtocolVersion_Validate (em_ManifestVersion m))) ||
                         negb (is_ok (ProtocolVersion_Validate (em_MinProtocol m))) ||
                         negb (is_ok (ProtocolVersion_Validate (em_MaxProtocol m))) ||
                         negb (ValidNamespacedName (em_ID m)) || bool_decide (em_ID m ∈ extensions) ||
                         str_eqb (em_Version m) "" || (128 <? len (em_Version m))))
              invalidRegistration in
  let? _ := guard (protocolWithin CurrentProtocolVersion (em_MinProtocol m) (em_MaxProtocol m))
              (NewError CodeUnsupported "Extension protocol range is incompatible") in
  let? _ := guard (forallb (fun installed => negb (overlaps installed (em_ID m))) (elements extensions))
              (NewError CodeInvalidInput "Overlapping extension metadata namespaces") in
  guard (negb (has_prefix (em_ID m) "pagnet.")) invalidRegistration.

Fixpoint install_interceptors (owner : string) (maxInterceptors : Z)
    (nodes : gmap string CompiledRegistration) (l : list Registration) :
    result Error (gmap string CompiledRegistration) :=
  match l with
  | [] => Ok nodes
  | r :: l =>
      let? r := validateRegistration owner r in
      let? _ := guard (negb (bool_decide (is_Some (nodes !! r_ID r)))) invalidRegistration in
      let? _ := guard (negb (maxInterceptors <=? Z.of_nat (size nodes)))
                  (NewError CodeInvalidInput "Extension capacity exceeded") in
      install_interceptors owner maxInterceptors (<[r_ID r := mkCompiled owner r]> nodes) l
  end.

Fixpoint check_subscriptions (owner : string) (seen : gset string) (l : list EventSubscription) :
    result Error (gset string) :=
  match l with
  | [] => Ok seen
  | s :: l =>
      let? _ := guard (negb (negb (ownedID owner (es_ID s)) || bool_decide (es_ID s ∈ seen) ||
                             str_eqb (es_Binding s) "" || (256 <? len (es_Binding s)) ||
                             Nat.eqb (length (es_Types s)) 0 || (64 <? Z.of_nat (length (es_Types s)))))
                  invalidRegistration in
      let? _ := guard (forallb ValidNamespacedName (es_Types s)) invalidRegistration in
      check_subscriptions owner ({[es_ID s]} ∪ seen) l
  end.

Fixpoint check_triggers (owner : string) (seen : gset string) (l : list TriggerRegistration) :
    result Error (gset string) :=
  match l with
  | [] => Ok seen
  | s :: l =>
      let? _ := guard (negb (negb (ownedID owner (tr_ID s)) || bool_decide (tr_ID s ∈ seen) ||
                             str_eqb (tr_Binding s) "" || (256 <? len (tr_Binding s))))
                  invalidRegistration in
      check_triggers owner ({[tr_ID s]} ∪ seen) l
  end.

(** The first loop of Compile: one iteration per supplied manifest. *)
Fixpoint collect (maxInterceptors : Z) (extensions : gset string)
    (nodes : gmap string CompiledRegistration) (manifests : list ExtensionManifest) :
    result Error (gmap string CompiledRegistration) :=
  match manifests with
  | [] => Ok nodes
  | supplied :: manifests =>
      let? m := own_manifest maxInterceptors supplied in
      let? _ := check_manifest extensions m in
      let? nodes := install_interceptors (em_ID m) maxInterceptors nodes (em_Interceptors m) in
      let? seen := check_subscriptions (em_ID m) ∅ (em_EventSubscriptions m) in
      let? _ := check_triggers (em_ID m) seen (em_Triggers m) in
      collect maxInterceptors ({[em_ID m]} ∪ extensions) nodes manifests
  end.

(** ** The dependency graph *)
Record Graph := mkGraph { adjacency : gmap string (gset string); degree : gmap string Z }.

Definition successors (g : Graph) (id : string) : gset string := default ∅ (adjacency g !! id).
Definition degree_of (degree : gmap string Z) (id : string) : Z := default 0 (degree !! id).

Definition add (nodes : gmap string CompiledRegistration) (g : Graph) (from to : string) : result Error Graph :=
  let? _ := guard (negb (str_eqb from to)) (NewError CodeExtensionCycle "Interceptor dependency cycle") in
  let? _ := guard (bool_decide (is_Some (nodes !! from))) invalidRegistration in
  let? _ := guard (bool_decide (is_Some (nodes !! to))) invalidRegistration in
  Ok (if bool_decide (to ∈ successors g from) then g
      else mkGraph (<[from := {[to]} ∪ successors g from]> (adjacency g))
                   (<[to := degree_of (degree g) to + 1]> (degree g))).

Fixpoint add_edges (nodes : gmap string CompiledRegistration) (g : Graph) (edges : list (string * string)) :
    result Error Graph :=
  match edges with
  | [] => Ok g
  | (from, to) :: edges => let? g := add nodes g from to in add_edges nodes g edges
  end.

(** The calls of [add] made for one node: its Before list, then its After list. *)
Definition node_edges (nodes : gmap string CompiledRegistration) (id : string) : list (string * string) :=
  match nodes !! id with
  | Some n => ((fun other => (id, other)) <$> r_Before (c_Registration n)) ++
              ((fun other => (other, id)) <$> r_After (c_Registration n))
  | None => []
  end.

Definition build_graph (nodes : gmap string CompiledRegistration) : result Error Graph :=
  add_edges nodes (mkGraph ∅ ∅) (range 0 (dom nodes) ≫= node_edges nodes).

(** ** The ready heap *)
Definition registration_less (a b : CompiledRegistration) : bool :=
  let a := c_Registration a in
  let b := c_Registration b in
  if negb (r_Priority a =? r_Priority b) then r_Priority a <? r_Priority b
  else String.ltb (r_ID a) (r_ID b).

Definition zero_compiled : CompiledRegistration :=
  mkCompiled "" (mkRegistration "" 0 [] [] (mkMatch "" "" [] [] [] [] []) "" false [] 0 "" false "").

(** [heap.Push(ready, nodes[to])] *)
Definition push_node (nodes : gmap string CompiledRegistration) (ready : list CompiledRegistration) (id : string) :
    list CompiledRegistration :=
  heap_push registration_less ready (default zero_compiled (nodes !! id)).

Definition initial_ready (nodes : gmap string CompiledRegistration) (degree : gmap string Z) :
    list CompiledRegistration :=
  fold_left (fun ready id => if degree_of degree id =? 0 then push_node nodes ready id else ready)
    (range 1 (dom nodes)) [].

(** [for to := range adjacency[r.ID] { degree[to]--; if degree[to] == 0 { push } }] *)
Definition relax (nodes : gmap string CompiledRegistration)
    (st : list CompiledRegistration * gmap string Z) (to : string) :
    list CompiledRegistration * gmap string Z :=
  let '(ready, degree) := st in
  let degree := <[to := degree_of degree to - 1]> degree in
  (if degree_of degree to =? 0 then push_node nodes ready to else ready, degree).

Definition chain_key (n : CompiledRegistration) : chainKey :=
  (m_Operation (r_Match (c_Registration n)), m_Stage (r_Match (c_Registration n)), r_Placement (c_Registration n)).

Record Loop := mkLoop {
  l_ready : list CompiledRegistration; l_degree : gmap string Z;
  l_chains : gmap chainKey (list CompiledRegistration); l_visited : nat }.

(** One iteration of [for ready.Len() > 0]. *)
Definition visit (nodes : gmap string CompiledRegistration) (g : Graph) (l : Loop)
    (n : CompiledRegistration) (ready : list CompiledRegistration) : Loop :=
  let key := chain_key n in
  let '(ready, degree) :=
    fold_left (relax nodes) (range (2 + l_visited l) (successors g (r_ID (c_Registration n)))) (ready, l_degree l) in
  mkLoop ready degree (<[key := default [] (l_chains l !! key) ++ [n]]> (l_chains l)) (S (l_visited l)).

(** Every iteration takes a node off the heap and every node enters it at most
    once, so one iteration per node is enough. *)
Fixpoint drain (fuel : nat) (nodes : gmap string CompiledRegistration) (g : Graph) (l : Loop) : Loop :=
  match fuel with
  | O => l
  | S fuel =>
      match heap_pop registration_less (l_ready l) with
      | None => l
      | Some (n, ready) => drain fuel nodes g (visit nodes g l n ready)
      end
  end.

(** sort.Slice by ID. *)
Definition manifest_le (a b : ExtensionManifest) : Prop := String.leb (em_ID a) (em_ID b) = true.
#[export] Instance manifest_le_dec a b : Decision (manifest_le a b) := decide (_ = true).

Definition Compile (manifests : list ExtensionManifest) (maxInterceptors : Z) : result Error Plan :=
  let? _ := guard (negb ((maxInterceptors <? 1) || (100000 <? maxInterceptors)))
              (NewError CodeInvalidInput "Invalid extension capacity") in
  let? nodes := collect maxInterceptors ∅ ∅ manifests in
  let? g := build_graph nodes in
  let l := drain (size nodes) nodes g (mkLoop (initial_ready nodes (degree g)) (degree g) ∅ 0) in
  let? _ := guard (Nat.eqb (l_visited l) (size nodes))
              (NewError CodeExtensionCycle "Interceptor dependency cycle") in
  let? encoded := of_option (marshal_manifests (merge_sort manifest_le manifests)) invalidRegistration in
  Ok (mkPlan (l_chains l) (hex_encode (sha256 encoded)) nodes).

(** The double quote. *)
Definition dq : string := String (ascii_of_N 34) EmptyString.

(** json.Marshal of the Purpose, Manifest, Configuration struct; both digests are
    hexadecimal, so nothing is escaped. *)
Definition configured_json (manifest configuration : string) : string :=
  "{" ++ dq ++ "Purpose" ++ dq ++ ":" ++ dq ++ "pagnet.extension.configured-plan.v1" ++ dq ++ "," ++
  dq ++ "Manifest" ++ dq ++ ":" ++ dq ++ manifest ++ dq ++ "," ++
  dq ++ "Configuration" ++ dq ++ ":" ++ dq ++ configuration ++ dq ++ "}".

Definition CompileConfigured (manifests : list ExtensionManifest) (maxInterceptors : Z)
    (configurationDigest : string) : result Error Plan :=
  let? digestBytes := of_option (hex_decode configurationDigest) invalidRegistration in
  let? _ := guard (Nat.eqb (length digestBytes) 32 && str_eqb (hex_encode digestBytes) configurationDigest)
              invalidRegistration in
  let? plan := Compile manifests maxInterceptors in
  Ok (mkPlan (p_chains plan) (hex_encode (sha256 (bytes_of (configured_json (p_revision plan) configurationDigest))))
        (p_byID plan)).
End compile.

(** ** Selection *)
Definition recursion_suppressed (ctx : MatchContext) (candidate : CompiledRegistration) : bool :=
  let r := c_Registration candidate in
  negb (r_AllowSelfRecursion r) &&
  (contains (mc_ExecutingInterceptors ctx) (r_ID r) || contains (mc_ExecutingInterceptors ctx) (c_ExtensionID candidate)).

(** One iteration of the loop: whether the candidate is appended. cloneRegistration
    copies the slices, which changes nothing of the value. *)
Definition selects (ctx : MatchContext) (candidate : CompiledRegistration) : bool :=
  let m := r_Match (c_Registration candidate) in
  if recursion_suppressed ctx candidate then false
  else if negb (accept (m_SourceKinds m) (mc_SourceKind ctx)) || negb (accept (m_TargetKinds m) (mc_TargetKind ctx)) ||
          negb (accept (m_TargetProtocols m) (mc_TargetProtocol ctx)) || negb (accept (m_Domains m) (mc_Domain ctx))
  then false
  else forallb (contains (mc_Tags ctx)) (m_Tags m).

Definition Select (p : Plan) (ctx : MatchContext) : list CompiledRegistration :=
  List.filter (selects ctx) (default [] (p_chains p !! (mc_Operation ctx, mc_Stage ctx, mc_Placement ctx))).
End Manifest.
