(* ===== verification/ManifestProps.v ===== *)
(** * The execution plan of extension manifests: proofs

    [schedule] is the reference order of a set of registrations: again and again
    the least registration, by priority and then ID, among those whose
    predecessors have all been placed. The heap, the degrees and the map
    enumerations of [Compile] compute exactly this order. *)
From Stdlib Require Import Ascii Strings.Byte ZArith Lia.
From Stdlib Require OrdersEx.
From S2P Require Import Prelude GoStrings FabricRef Wire FabricModel Heap Manifest.
#[local] Open Scope Z_scope.
#[local] Arguments str_eqb _ _ : simpl never.

Module PlanSpec.
Import Manifest.

Notation Nodes := (gmap string CompiledRegistration) (only parsing).
Definition id_of (n : CompiledRegistration) : string := r_ID (c_Registration n).
Implicit Types (nodes : gmap string CompiledRegistration) (n : CompiledRegistration) (done : list string).

(** ** The reference order *)
(** The interceptors that must come before [id]: its After list, and those that
    name it in their Before list. *)
Definition predecessors nodes (id : string) : gset string :=
  list_to_set (match nodes !! id with Some n => r_After (c_Registration n) | None => [] end) ∪
  dom (filter (fun kv => id ∈ r_Before (c_Registration kv.2)) nodes).

Definition placeable nodes done : list CompiledRegistration :=
  filter (fun n => id_of n ∉ done /\ predecessors nodes (id_of n) ⊆ list_to_set done) (map_to_list nodes).*2.

Fixpoint least (l : list CompiledRegistration) : option CompiledRegistration :=
  match l with
  | [] => None
  | n :: l => match least l with
              | Some m => Some (if registration_less m n then m else n)
              | None => Some n
              end
  end.

Fixpoint schedule_from (fuel : nat) nodes done : list CompiledRegistration :=
  match fuel with
  | O => []
  | S fuel =>
      match least (placeable nodes done) with
      | None => []
      | Some n => n :: schedule_from fuel nodes (done ++ [id_of n])
      end
  end.
Definition schedule nodes : list CompiledRegistration := schedule_from (size nodes) nodes [].

(** Registrations grouped by chain, in order. *)
Definition group_from (chains : gmap (string * string * string) (list CompiledRegistration))
    (l : list CompiledRegistration) : gmap (string * string * string) (list CompiledRegistration) :=
  fold_left (fun chains n => <[chain_key n := default [] (chains !! chain_key n) ++ [n]]> chains) l chains.
Definition group (l : list CompiledRegistration) := group_from ∅ l.

(** An order of all registrations in which every constraint is met. *)
Definition linear nodes (order : list string) : Prop :=
  order ≡ₚ elements (dom nodes) /\
  (forall a b, a ∈ predecessors nodes b -> exists l1 l2 l3, order = l1 ++ a :: l2 ++ b :: l3).

Definition keyed nodes : Prop := forall id n, nodes !! id = Some n -> id_of n = id.

(** ** The order of registrations is total *)
Lemma compare_OT s t : String.compare s t = OrdersEx.String_as_OT.compare s t.
Proof.
  revert t. induction s as [|a s IH]; by intros [|b t].
Qed.

Lemma ltb_lt s t : String.ltb s t = true <-> OrdersEx.String_as_OT.lt s t.
Proof.
  unfold String.ltb, OrdersEx.String_as_OT.lt. rewrite compare_OT. by destruct (OrdersEx.String_as_OT.compare s t).
Qed.

Lemma ltb_irrefl s : String.ltb s s = false.
Proof. apply not_true_iff_false. rewrite ltb_lt. apply (StrictOrder_Irreflexive (R := OrdersEx.String_as_OT.lt)). Qed.

Lemma ltb_trans s t u : String.ltb s t = true -> String.ltb t u = true -> String.ltb s u = true.
Proof. rewrite !ltb_lt. apply (StrictOrder_Transitive (R := OrdersEx.String_as_OT.lt)). Qed.

Lemma ltb_total s t : String.ltb s t = false -> String.ltb t s = false -> s = t.
Proof.
  unfold String.ltb. rewrite (String.compare_antisym t s).
  destruct (String.compare s t) eqn:E; simpl; intros; try done. by apply String.compare_eq_iff.
Qed.

Lemma nltb_trans s t u : String.ltb t s = false -> String.ltb u t = false -> String.ltb u s = false.
Proof.
  intros H1 H2. destruct (String.ltb u s) eqn:E; [|done].
  destruct (String.ltb s t) eqn:Est.
  - by rewrite (ltb_trans _ _ _ E Est) in H2.
  - apply ltb_total in H1; [|done]. subst t. congruence.
Qed.

Lemma registration_le_inv a b : le registration_less a b ->
  r_Priority (c_Registration a) < r_Priority (c_Registration b) \/
  r_Priority (c_Registration a) = r_Priority (c_Registration b) /\ String.ltb (id_of b) (id_of a) = false.
Proof.
  unfold le, registration_less, id_of. destruct (Z.eqb_spec (r_Priority (c_Registration b)) (r_Priority (c_Registration a))); simpl.
  - by right.
  - left. lia.
Qed.

Lemma registration_le_intro a b :
  r_Priority (c_Registration a) < r_Priority (c_Registration b) \/
  r_Priority (c_Registration a) = r_Priority (c_Registration b) /\ String.ltb (id_of b) (id_of a) = false ->
  le registration_less a b.
Proof.
  unfold le, registration_less, id_of. destruct (Z.eqb_spec (r_Priority (c_Registration b)) (r_Priority (c_Registration a))); simpl.
  - intros [?|[_ ?]]; [lia|done].
  - lia.
Qed.

#[export] Instance registration_total : TotalLess registration_less.
Proof.
  split.
  - intros a. unfold registration_less. rewrite Z.eqb_refl. apply ltb_irrefl.
  - intros a b c. unfold registration_less.
    destruct (Z.eqb_spec (r_Priority (c_Registration a)) (r_Priority (c_Registration b))); simpl; intros Hab;
      destruct (Z.eqb_spec (r_Priority (c_Registration b)) (r_Priority (c_Registration c))); simpl; intros Hbc;
      destruct (Z.eqb_spec (r_Priority (c_Registration a)) (r_Priority (c_Registration c))); simpl; try lia.
    by eapply ltb_trans.
  - intros a b c Hab%registration_le_inv Hbc%registration_le_inv. apply registration_le_intro.
    destruct Hab as [?|[? Hab]], Hbc as [?|[? Hbc]]; [left; lia..|]. right. split; [lia|]. by eapply nltb_trans.
Qed.

Lemma registration_le_antisym a b : le registration_less a b -> le registration_less b a -> id_of a = id_of b.
Proof.
  intros [?|[? Hab]]%registration_le_inv [?|[? Hba]]%registration_le_inv; try lia. by apply ltb_total.
Qed.

Lemma least_Some l n : least l = Some n -> n ∈ l /\ Forall (le registration_less n) l.
Proof.
  revert n. induction l as [|m l IH]; intros n; simpl; [done|].
  destruct (least l) as [k|] eqn:El.
  - destruct (IH k eq_refl) as [Hk Hall]. destruct (registration_less k m) eqn:Hkm; intros [= <-].
    + split; [by right|]. constructor; [by apply (less_le registration_less)|done].
    + split; [by left|]. constructor; [apply (le_refl registration_less)|]. eapply Forall_impl; [done|]. intros x Hx.
      by eapply le_trans'.
  - intros [= <-]. destruct l; [|simpl in El; by destruct (least l)].
    split; [by left|]. constructor; [apply (le_refl registration_less)|done].
Qed.

Lemma least_None l : least l = None <-> l = [].
Proof. split; [|by intros ->]. destruct l as [|n l]; [done|]. simpl. by destruct (least l). Qed.
End PlanSpec.

(** A range statement enumerates every key once. *)
Class MapOrder (range : nat -> gset string -> list string) : Prop :=
  range_elements : forall k s, range k s ≡ₚ elements s.

Module PlanProofs.
Import Manifest PlanSpec.
Implicit Types (nodes : gmap string CompiledRegistration) (n : CompiledRegistration) (done : list string)
  (g : Graph) (pre : string -> gset string) (ready : list CompiledRegistration).

(** ** The dependency graph *)
(** [g] holds the edges from the elements of [pre b] to [b]. *)
Definition graph_of pre g : Prop :=
  (forall a b, b ∈ successors g a <-> a ∈ pre b) /\
  (forall b, degree_of (degree g) b = Z.of_nat (size (pre b))).

Definition sources (edges : list (string * string)) (b : string) : gset string :=
  list_to_set (filter (fun e => e.2 = b) edges).*1.

Lemma elem_of_sources edges a b : a ∈ sources edges b <-> (a, b) ∈ edges.
Proof.
  unfold sources. rewrite elem_of_list_to_set, list_elem_of_fmap. split.
  - intros ([x y] & -> & [Hy He]%list_elem_of_filter). simpl in *. by subst.
  - intros He. exists (a, b). split; [done|]. by apply list_elem_of_filter.
Qed.

Lemma degree_of_insert (d : gmap string Z) x v y : degree_of (<[x := v]> d) y = if decide (x = y) then v else degree_of d y.
Proof. unfold degree_of. rewrite lookup_insert. by case_decide. Qed.

Lemma successors_insert g x s d a :
  successors (mkGraph (<[x := s]> (adjacency g)) d) a = if decide (x = a) then s else successors g a.
Proof. unfold successors. simpl. rewrite lookup_insert. by case_decide. Qed.

Lemma add_graph nodes pre g from to g' : graph_of pre g -> add nodes g from to = Ok g' ->
  graph_of (fun b => if decide (b = to) then {[from]} ∪ pre b else pre b) g'.
Proof.
  intros [Hs Hd] Hadd. unfold add in Hadd. rinv.
  destruct (decide (to ∈ successors g from)) as [Hin|Hin];
    [rewrite bool_decide_eq_true_2 by done | rewrite bool_decide_eq_false_2 by done].
  - assert (from ∈ pre to) as Hf by by apply Hs.
    split; intros; case_decide; subst; rewrite ?Hs, ?Hd; [set_solver|done| |done].
    by replace ({[from]} ∪ pre to) with (pre to) by set_solver.
  - assert (from ∉ pre to) as Hf by by rewrite <- Hs.
    split; [intros a b|intros b]; simpl.
    + rewrite successors_insert. repeat case_decide; subst; rewrite ?elem_of_union, Hs; set_solver.
    + rewrite degree_of_insert. repeat case_decide; subst; try done.
      rewrite Hd, size_union, size_singleton by set_solver. lia.
Qed.

Lemma add_Ok nodes g from to :
  is_ok (add nodes g from to) = true <-> from <> to /\ from ∈ dom nodes /\ to ∈ dom nodes.
Proof.
  unfold add. rewrite !elem_of_dom. unfold str_eqb. destruct (String.eqb_spec from to); simpl; [naive_solver|].
  repeat (case_bool_decide; simpl); naive_solver.
Qed.

Lemma add_edges_graph nodes pre g edges g' : graph_of pre g -> add_edges nodes g edges = Ok g' ->
  graph_of (fun b => sources edges b ∪ pre b) g'.
Proof.
  revert pre g. induction edges as [|[from to] edges IH]; intros pre g Hg He; simpl in He; rinv.
  - destruct Hg as [Hs Hd]. split; intros; [rewrite Hs; set_solver|].
    rewrite Hd. do 2 f_equal. unfold sources. simpl. set_solver.
  - eapply add_graph in Hg; [|done]. destruct (IH _ _ Hg He) as [Hs Hd]. clear -Hs Hd.
    assert (forall b, sources edges b ∪ (if decide (b = to) then {[from]} ∪ pre b else pre b) =
      sources ((from, to) :: edges) b ∪ pre b) as E.
    { intros b. apply set_eq. intros x. rewrite !elem_of_union, !elem_of_sources, elem_of_cons.
      case_decide; subst; set_solver. }
    split; intros; [by rewrite <- E|by rewrite Hd, E].
Qed.

Lemma add_edges_Ok nodes g edges :
  is_ok (add_edges nodes g edges) = true <->
  forall a b, (a, b) ∈ edges -> a <> b /\ a ∈ dom nodes /\ b ∈ dom nodes.
Proof.
  revert g. induction edges as [|[from to] edges IH]; intros g; simpl.
  { split; [|done]. intros _ a b Hin. by apply elem_of_nil in Hin. }
  pose proof (add_Ok nodes g from to) as Ha. destruct (add nodes g from to) as [g'|e]; simpl in *.
  - rewrite IH. split; intros Hall a b; [intros [Hin|Hin]%elem_of_cons; [|by apply Hall]|].
    + simplify_eq. by apply Ha.
    + intros Hin. apply Hall. by right.
  - split; [done|]. intros Hall. apply Ha, Hall. by left.
Qed.

Lemma elem_of_predecessors nodes a b : a ∈ predecessors nodes b <->
  (exists n, nodes !! a = Some n /\ b ∈ r_Before (c_Registration n)) \/
  (exists n, nodes !! b = Some n /\ a ∈ r_After (c_Registration n)).
Proof.
  unfold predecessors. rewrite elem_of_union, elem_of_list_to_set, elem_of_dom.
  split; (intros [Hl|Hr]; [right|left]).
  - destruct (nodes !! b) as [n|]; [eauto|by apply elem_of_nil in Hl].
  - destruct Hr as [n [Hn Hb]%map_lookup_filter_Some]. eauto.
  - destruct Hl as (n & Hn & Hb). exists n. by apply map_lookup_filter_Some.
  - destruct Hr as (n & -> & Ha). done.
Qed.

Section range.
Context (range : nat -> gset string -> list string) `{!MapOrder range}.

Lemma elem_of_edges nodes a b :
  (a, b) ∈ range 0 (dom nodes) ≫= node_edges nodes <-> a ∈ predecessors nodes b.
Proof.
  rewrite elem_of_predecessors, list_elem_of_bind. setoid_rewrite (range_elements 0). setoid_rewrite elem_of_elements.
  unfold node_edges. split.
  - intros (id & He & Hid). apply elem_of_dom in Hid as [n Hn]. rewrite Hn in He.
    apply elem_of_app in He as [He|He]; apply list_elem_of_fmap in He as (x & ? & Hx); simplify_eq; eauto.
  - intros [(n & Hn & Hb)|(n & Hn & Ha)]; [exists a|exists b]; rewrite Hn; (split; [|by apply elem_of_dom]);
      apply elem_of_app; [left|right]; apply list_elem_of_fmap; eauto.
Qed.

Lemma build_graph_spec nodes g : build_graph range nodes = Ok g -> graph_of (predecessors nodes) g.
Proof.
  intros Hg. assert (graph_of (fun _ => ∅) (mkGraph ∅ ∅)) as H0.
  { split; intros; [set_solver|done]. }
  destruct (add_edges_graph _ _ _ _ _ H0 Hg) as [Hs Hd].
  assert (forall b, sources (range 0 (dom nodes) ≫= node_edges nodes) b ∪ ∅ = predecessors nodes b) as E.
  { intros b. apply set_eq. intros a. rewrite <- elem_of_edges, elem_of_union, elem_of_sources. set_solver. }
  split; intros; [by rewrite <- E|by rewrite <- E].
Qed.

Lemma build_graph_Ok nodes : is_ok (build_graph range nodes) = true <->
  forall a b, a ∈ predecessors nodes b -> a <> b /\ a ∈ dom nodes /\ b ∈ dom nodes.
Proof. unfold build_graph. rewrite add_edges_Ok. by setoid_rewrite elem_of_edges. Qed.
End range.

(** ** Relaxing the successors of a node *)
(** The registrations of [ids] with degree [k]: those with degree 0 are pushed
    first, those with degree 1 when their degree is decremented. *)
Definition at_degree (k : Z) nodes (degree : gmap string Z) (ids : list string) : list CompiledRegistration :=
  (fun id => default zero_compiled (nodes !! id)) <$> filter (fun id => degree_of degree id = k) ids.

Lemma relax_all nodes tos ready degree : NoDup tos -> heap_ok registration_less ready ->
  let st := fold_left (relax nodes) tos (ready, degree) in
  heap_ok registration_less st.1 /\ st.1 ≡ₚ at_degree 1 nodes degree tos ++ ready /\
  forall id, degree_of st.2 id = degree_of degree id - (if decide (id ∈ tos) then 1 else 0).
Proof.
  revert ready degree. induction tos as [|to tos IH]; intros ready degree Hnd Hh; cbn [fold_left relax fst snd].
  { split_and!; [done..|]. intros id. rewrite decide_False by apply not_elem_of_nil. lia. }
  apply NoDup_cons in Hnd as [Hto Hnd].
  rewrite degree_of_insert, decide_True by done.
  set (degree' := <[to := degree_of degree to - 1]> degree).
  assert (at_degree 1 nodes degree' tos = at_degree 1 nodes degree tos) as Hrel.
  { unfold at_degree. f_equal. apply list_filter_iff_in. intros id Hid. subst degree'. rewrite degree_of_insert.
    rewrite decide_False; [done|by intros ->]. }
  assert (forall id, degree_of degree' id - (if decide (id ∈ tos) then 1 else 0) =
    degree_of degree id - (if decide (id ∈ to :: tos) then 1 else 0)) as Hdeg.
  { intros id. subst degree'. rewrite degree_of_insert. destruct (decide (to = id)) as [->|].
    - rewrite decide_False by done. rewrite decide_True by by left. lia.
    - destruct (decide (id ∈ tos)); [rewrite decide_True by by right|rewrite decide_False]; [done|done|].
      by intros [?|?]%elem_of_cons. }
  destruct (Z.eqb_spec (degree_of degree to - 1) 0).
  - destruct (IH (push_node nodes ready to) degree' Hnd) as (H1 & H2 & H3); [by apply (heap_push_ok registration_less)|].
    split_and!; [done| |intros id; by rewrite H3, Hdeg].
    rewrite H2, Hrel. unfold at_degree. rewrite filter_cons, decide_True by lia. simpl.
    unfold push_node. rewrite heap_push_Permutation. by rewrite Permutation_middle.
  - destruct (IH ready degree' Hnd Hh) as (H1 & H2 & H3).
    split_and!; [done| |intros id; by rewrite H3, Hdeg].
    rewrite H2, Hrel. unfold at_degree. by rewrite filter_cons, decide_False by lia.
Qed.

Lemma push_all nodes ids ready degree : heap_ok registration_less ready ->
  let r := fold_left (fun ready id => if degree_of degree id =? 0 then push_node nodes ready id else ready) ids ready in
  heap_ok registration_less r /\ r ≡ₚ at_degree 0 nodes degree ids ++ ready.
Proof.
  revert ready. induction ids as [|id ids IH]; intros ready Hh; cbn [fold_left]; [done|].
  unfold at_degree. rewrite filter_cons. destruct (Z.eqb_spec (degree_of degree id) 0).
  - destruct (IH (push_node nodes ready id)) as [H1 H2]; [by apply (heap_push_ok registration_less)|].
    split; [done|]. rewrite H2, decide_True by done. unfold push_node. rewrite heap_push_Permutation. simpl.
    by rewrite Permutation_middle.
  - rewrite decide_False by done. by apply IH.
Qed.

(** ** The loop takes the least placeable node *)
Section kahn.
Context nodes (Hkeyed : keyed nodes).
Context (Hclosed : forall a b, a ∈ predecessors nodes b -> a <> b /\ a ∈ dom nodes /\ b ∈ dom nodes).
Notation P := (predecessors nodes).

Definition frontier done n : Prop :=
  nodes !! id_of n = Some n /\ id_of n ∉ done /\ P (id_of n) ⊆ list_to_set done.

Record kahn done ready (degree : gmap string Z) : Prop := {
  k_heap : heap_ok registration_less ready;
  k_nodup : NoDup ready;
  k_ready : forall n, n ∈ ready <-> frontier done n;
  k_done : forall id, id ∈ done -> P id ⊆ list_to_set done;
  k_degree : forall id, degree_of degree id = Z.of_nat (size (P id ∖ list_to_set done)) }.

Lemma elem_of_placeable done n : n ∈ placeable nodes done <-> frontier done n.
Proof.
  unfold placeable, frontier. rewrite list_elem_of_filter, list_elem_of_fmap. split.
  - intros ([H1 H2] & [id m] & -> & Hin%elem_of_map_to_list). simpl in *. split_and!; [by rewrite (Hkeyed id m Hin)|done..].
  - intros (Hn & H1 & H2). split; [done|]. exists (id_of n, n). by rewrite elem_of_map_to_list.
Qed.

Lemma frontier_eq done m n : frontier done m -> frontier done n -> id_of m = id_of n -> m = n.
Proof. intros [Hm _] [Hn _] E. congruence. Qed.

Lemma pop_least done ready degree n ready' : kahn done ready degree ->
  heap_pop registration_less ready = Some (n, ready') -> least (placeable nodes done) = Some n.
Proof.
  intros K Hpop. apply (heap_pop_spec registration_less) in Hpop as (Hp & _ & Hle); [|apply K].
  assert (frontier done n) as Hn by (apply (k_ready _ _ _ K); rewrite Hp; by left).
  destruct (least (placeable nodes done)) as [m|] eqn:El.
  - apply least_Some in El as [Hm Hall]. f_equal. apply elem_of_placeable in Hm as Hfm.
    eapply frontier_eq; [done..|]. apply registration_le_antisym.
    + rewrite Forall_forall in Hall. by apply Hall, elem_of_placeable.
    + apply (k_ready _ _ _ K) in Hfm. rewrite Hp in Hfm. apply elem_of_cons in Hfm as [->|Hm'].
      * apply (le_refl registration_less).
      * rewrite Forall_forall in Hle. by apply Hle.
  - apply least_None in El. apply elem_of_placeable in Hn. rewrite El in Hn. by apply elem_of_nil in Hn.
Qed.

Lemma pop_none done ready degree : kahn done ready degree ->
  heap_pop registration_less ready = None -> least (placeable nodes done) = None.
Proof.
  intros K Hpop. destruct ready as [|r ready]; [|by destruct (heap_pop_Some registration_less (r :: ready)) as (? & ? & ?); [|congruence]].
  apply least_None. destruct (placeable nodes done) as [|n l] eqn:E; [done|].
  assert (n ∈ placeable nodes done) as Hn by (rewrite E; by left).
  apply elem_of_placeable, (k_ready _ _ _ K) in Hn. by apply elem_of_nil in Hn.
Qed.

Lemma elem_of_at_degree k degree tos m : (forall id, id ∈ tos -> id ∈ dom nodes) ->
  m ∈ at_degree k nodes degree tos <-> nodes !! id_of m = Some m /\ id_of m ∈ tos /\ degree_of degree (id_of m) = k.
Proof.
  intros Hdom. unfold at_degree. rewrite list_elem_of_fmap. split.
  - intros (id & -> & [Hd Hin]%list_elem_of_filter). destruct (proj1 (elem_of_dom nodes id) (Hdom id Hin)) as [n Hn].
    rewrite Hn. simpl. by rewrite (Hkeyed id n Hn).
  - intros (Hm & Hin & Hd). exists (id_of m). rewrite Hm. split; [done|]. by apply list_elem_of_filter.
Qed.

Lemma NoDup_at_degree k degree tos : (forall id, id ∈ tos -> id ∈ dom nodes) -> NoDup tos ->
  NoDup (at_degree k nodes degree tos).
Proof.
  intros Hdom Hnd. apply (NoDup_fmap_1 id_of). unfold at_degree. rewrite <- list_fmap_compose.
  assert (filter (fun id => degree_of degree id = k) tos =
    (id_of ∘ (fun id => default zero_compiled (nodes !! id))) <$> filter (fun id => degree_of degree id = k) tos) as <-.
  { rewrite <- (list_fmap_id (filter _ tos)) at 1. apply list_fmap_ext. intros i id Hi.
    apply list_elem_of_lookup_2, list_elem_of_filter in Hi as [_ Hi].
    destruct (proj1 (elem_of_dom nodes id) (Hdom id Hi)) as [n Hn]. simpl. rewrite Hn. symmetry. by apply Hkeyed. }
  by apply NoDup_filter.
Qed.

Lemma size_remaining done n id : id_of n ∉ done ->
  Z.of_nat (size (P id ∖ list_to_set done)) - (if decide (id_of n ∈ P id) then 1 else 0) =
  Z.of_nat (size (P id ∖ list_to_set (done ++ [id_of n]))).
Proof.
  intros Hn. case_decide as Hin.
  - replace (P id ∖ list_to_set done) with ({[id_of n]} ∪ P id ∖ list_to_set (done ++ [id_of n])).
    + rewrite size_union, size_singleton by set_solver. lia.
    + apply set_eq. intros x. destruct (decide (x = id_of n)); set_solver.
  - rewrite Z.sub_0_r. do 2 f_equal. set_solver.
Qed.

(** The nodes that become placeable when [n] is placed. *)
Lemma frontier_step done n m : frontier done n -> (forall id, id ∈ done -> P id ⊆ list_to_set done) ->
  frontier (done ++ [id_of n]) m <->
  frontier done m /\ m <> n \/
  (nodes !! id_of m = Some m /\ id_of n ∈ P (id_of m) /\ size (P (id_of m) ∖ list_to_set done) = 1%nat).
Proof.
  intros Hf Hdone. pose proof Hf as (Hn & Hnd & Hnp). pose proof (size_remaining done n (id_of m) Hnd) as Hsize.
  split.
  - intros (Hm & Hmd & Hmp). destruct (decide (id_of n ∈ P (id_of m))) as [Hin|Hin].
    + right. split_and!; [done..|]. enough (size (P (id_of m) ∖ list_to_set (done ++ [id_of n])) = 0%nat) by lia.
      apply size_empty_iff. set_solver.
    + left. split; [|set_solver]. split_and!; [done|set_solver|]. set_solver.
  - intros [[(Hm & Hmd & Hmp) Hne]|(Hm & Hin & Hsz)].
    + split_and!; [done| |set_solver]. intros [?|E]%elem_of_app; [done|].
      apply list_elem_of_singleton in E. congruence.
    + rewrite decide_True in Hsize by done.
      assert (P (id_of m) ∖ list_to_set (done ++ [id_of n]) ≡ ∅) as He by (apply size_empty_iff; lia).
      split_and!; [done| |by apply empty_difference_subseteq]. intros [Hd|E]%elem_of_app.
      * apply Hdone in Hd. clear -Hin Hd Hnd. set_solver.
      * apply list_elem_of_singleton in E. rewrite E in Hin. by destruct (Hclosed _ _ Hin).
Qed.

Section loop.
Context (range : nat -> gset string -> list string) `{!MapOrder range} g (Hg : graph_of P g).

Lemma kahn_step done l n ready : kahn done (l_ready l) (l_degree l) ->
  heap_pop registration_less (l_ready l) = Some (n, ready) ->
  let l' := visit range nodes g l n ready in
  kahn (done ++ [id_of n]) (l_ready l') (l_degree l').
Proof.
  intros K Hpop. destruct Hg as [Hsucc _].
  apply (heap_pop_spec registration_less) in Hpop as (Hp & Hheap & _); [|apply K].
  assert (frontier done n) as Hf by (apply (k_ready _ _ _ K); rewrite Hp; by left).
  set (tos := range (2 + l_visited l) (successors g (id_of n))).
  assert (forall id, id ∈ tos <-> id_of n ∈ P id) as Htos.
  { intros id. subst tos. by rewrite range_elements, elem_of_elements, Hsucc. }
  assert (NoDup tos) as Hnd by (subst tos; rewrite range_elements; apply NoDup_elements).
  assert (forall id, id ∈ tos -> id ∈ dom nodes) as Hdom by (intros id Hid%Htos; by destruct (Hclosed _ _ Hid) as (_ & _ & ?)).
  pose proof (k_nodup _ _ _ K) as Hk. rewrite Hp in Hk. apply NoDup_cons in Hk as [Hnot Hndr].
  unfold visit. fold (id_of n). fold tos.
  destruct (relax_all nodes tos ready (l_degree l) Hnd Hheap) as (H1 & H2 & H3).
  destruct (fold_left (relax nodes) tos (ready, l_degree l)) as [ready' degree'] eqn:Hfold. simpl in *.
  assert (forall m, m ∈ ready <-> frontier done m /\ m <> n) as Hready.
  { intros m. rewrite <- (k_ready _ _ _ K), Hp, elem_of_cons. split; [|naive_solver].
    intros Hm. split; [by right|]. by intros ->. }
  split; simpl.
  - done.
  - rewrite H2. apply NoDup_app. split_and!; [by apply NoDup_at_degree| |done].
    intros m (_ & _ & Hd)%elem_of_at_degree Hm; [|done]. apply Hready in Hm as [(_ & _ & Hsub) _].
    rewrite (k_degree _ _ _ K) in Hd. assert (P (id_of m) ∖ list_to_set done ≡ ∅) as E%size_empty_iff by set_solver. lia.
  - intros m. rewrite H2, elem_of_app, elem_of_at_degree, Hready, frontier_step, Htos by first [exact Hdom | exact Hf | apply K].
    rewrite (k_degree _ _ _ K). split; intros [?|?]; [right|left|right|left]; try done; naive_solver lia.
  - intros id [Hid|Hid]%elem_of_app; [apply (k_done _ _ _ K) in Hid; set_solver|].
    apply list_elem_of_singleton in Hid as ->. destruct Hf as (_ & _ & Hf). set_solver.
  - intros id. rewrite H3, (k_degree _ _ _ K), <- (size_remaining done n id) by apply Hf.
    f_equal. destruct (decide (id ∈ tos)) as [Hin|Hin]; rewrite Htos in Hin; [by rewrite decide_True|by rewrite decide_False].
Qed.

Lemma drain_schedule fuel done l : kahn done (l_ready l) (l_degree l) ->
  let popped := schedule_from fuel nodes done in
  let l' := drain range fuel nodes g l in
  l_visited l' = (l_visited l + length popped)%nat /\ l_chains l' = group_from (l_chains l) popped /\
  kahn (done ++ (id_of <$> popped)) (l_ready l') (l_degree l').
Proof.
  revert done l. induction fuel as [|fuel IH]; intros done l K; simpl.
  { rewrite app_nil_r, Nat.add_0_r. done. }
  destruct (heap_pop registration_less (l_ready l)) as [[n ready]|] eqn:Hpop.
  - rewrite (pop_least _ _ _ _ _ K Hpop). pose proof (kahn_step _ _ _ _ K Hpop) as K'.
    destruct (IH _ _ K') as (H1 & H2 & H3). simpl. rewrite H1, H2. split_and!.
    + unfold visit. destruct (fold_left _ _ _). simpl. lia.
    + unfold visit, group_from. simpl. by destruct (fold_left (relax nodes) _ _).
    + by rewrite <- app_assoc in H3.
  - rewrite (pop_none _ _ _ K Hpop). simpl. by rewrite app_nil_r, Nat.add_0_r.
Qed.

Lemma initial_kahn : kahn [] (initial_ready range nodes (degree g)) (degree g).
Proof.
  destruct Hg as [_ Hdeg]. unfold initial_ready.
  assert (NoDup (range 1 (dom nodes))) as Hnd by (rewrite range_elements; apply NoDup_elements).
  assert (forall id, id ∈ range 1 (dom nodes) -> id ∈ dom nodes) as Hdom.
  { intros id. by rewrite range_elements, elem_of_elements. }
  destruct (push_all nodes (range 1 (dom nodes)) [] (degree g)) as [H1 H2]; [apply heap_ok_nil|].
  rewrite app_nil_r in H2. split; [done| | | |].
  - rewrite H2. by apply NoDup_at_degree.
  - intros n. rewrite H2, elem_of_at_degree, Hdeg, range_elements, elem_of_elements, elem_of_dom by done. unfold frontier. simpl.
    split.
    + intros (Hn & _ & Hs). assert (size (P (id_of n)) = 0%nat) as E%size_empty_iff by lia.
      split_and!; [done|apply not_elem_of_nil|clear -E; set_solver].
    + intros (Hn & _ & Hs). split_and!; [done|eauto|].
      assert (P (id_of n) ≡ ∅) as E%size_empty_iff by (clear -Hs; set_solver). lia.
  - intros id Hid. by apply elem_of_nil in Hid.
  - intros id. rewrite Hdeg. do 2 f_equal. clear. set_solver.
Qed.
End loop.
End kahn.

(** ** Properties of the reference order *)
Section schedule.
Context nodes (Hkeyed : keyed nodes).
Notation P := (predecessors nodes).

Lemma schedule_from_split fuel done l1 n l2 : schedule_from fuel nodes done = l1 ++ n :: l2 ->
  frontier nodes (done ++ (id_of <$> l1)) n /\
  Forall (le registration_less n) (placeable nodes (done ++ (id_of <$> l1))).
Proof.
  revert done l1. induction fuel as [|fuel IH]; intros done l1; simpl; [by destruct l1|].
  destruct (least (placeable nodes done)) as [m|] eqn:El; [|by destruct l1].
  destruct l1 as [|k l1]; simpl; intros [= -> E].
  - rewrite app_nil_r. apply least_Some in El as [Hin Hall]. by rewrite <- elem_of_placeable.
  - specialize (IH (done ++ [id_of k]) l1 E). by rewrite <- app_assoc in IH.
Qed.

Lemma schedule_from_stuck fuel done :
  let l := schedule_from fuel nodes done in
  length l = fuel \/ placeable nodes (done ++ (id_of <$> l)) = [].
Proof.
  revert done. induction fuel as [|fuel IH]; intros done; simpl; [by left|].
  destruct (least (placeable nodes done)) as [m|] eqn:El; simpl.
  - destruct (IH (done ++ [id_of m])) as [->|E]; [by left|]. right. by rewrite <- app_assoc in E.
  - right. apply least_None in El. by rewrite app_nil_r.
Qed.

Lemma schedule_frontier l1 n l2 : schedule nodes = l1 ++ n :: l2 -> frontier nodes (id_of <$> l1) n.
Proof. intros E. by destruct (schedule_from_split _ [] _ _ _ E). Qed.

Lemma NoDup_schedule : NoDup (id_of <$> schedule nodes).
Proof.
  assert (forall l1 l2, schedule nodes = l1 ++ l2 -> NoDup (id_of <$> l1)) as Hpre.
  { intros l1. induction l1 as [|n l1 IH] using rev_ind; intros l2 E; [by apply NoDup_nil_2|].
    rewrite <- app_assoc in E. simpl in E. rewrite fmap_app. apply NoDup_app. split_and!; [by eapply IH| |].
    - intros id Hid Hn. simpl in Hn. apply list_elem_of_singleton in Hn as ->.
      by apply schedule_frontier in E as (_ & ? & _).
    - apply NoDup_singleton. }
  apply (Hpre _ []). by rewrite app_nil_r.
Qed.

Lemma schedule_nodes n : n ∈ schedule nodes -> nodes !! id_of n = Some n.
Proof. intros (l1 & l2 & E)%list_elem_of_split. by apply schedule_frontier in E as (? & _ & _). Qed.

Lemma NoDup_subset_length (l : list string) (X : gset string) : NoDup l -> list_to_set l ⊆ X -> (length l <= size X)%nat.
Proof. intros Hnd Hsub. rewrite <- (size_list_to_set (C := gset string) l) by done. by apply subseteq_size. Qed.

Lemma schedule_ids_sub : list_to_set (id_of <$> schedule nodes) ⊆ dom nodes.
Proof.
  intros id Hid%elem_of_list_to_set. apply list_elem_of_fmap in Hid as (n & -> & Hn%schedule_nodes).
  by eapply elem_of_dom_2.
Qed.

(** The schedule is complete exactly when some order meets the constraints. *)
Lemma schedule_complete : length (schedule nodes) = size nodes ->
  (id_of <$> schedule nodes) ≡ₚ elements (dom nodes).
Proof.
  intros Hl. apply NoDup_Permutation; [apply NoDup_schedule|apply NoDup_elements|].
  assert (list_to_set (id_of <$> schedule nodes) = dom nodes) as E.
  { apply set_subseteq_size_eq; [apply schedule_ids_sub|].
    by rewrite size_list_to_set, length_fmap, Hl, size_dom by apply NoDup_schedule. }
  intros id. by rewrite elem_of_elements, <- E, elem_of_list_to_set.
Qed.

Lemma scheduled_iff n : length (schedule nodes) = size nodes -> n ∈ schedule nodes <-> nodes !! id_of n = Some n.
Proof.
  intros Hl. split; [apply schedule_nodes|]. intros Hn. pose proof (schedule_complete Hl) as Hp.
  assert (id_of n ∈ id_of <$> schedule nodes) as (n' & E & Hn')%list_elem_of_fmap.
  { rewrite Hp, elem_of_elements. by eapply elem_of_dom_2. }
  pose proof (schedule_nodes _ Hn') as Hs. rewrite <- E, Hn in Hs. by injection Hs as ->.
Qed.

Lemma linear_complete order : linear nodes order -> length (schedule nodes) = size nodes.
Proof.
  intros [Hperm Hlin]. destruct (schedule_from_stuck (size nodes) []) as [Hl|Hstuck]; [done|].
  fold (schedule nodes) in Hstuck. simpl in Hstuck. set (done := id_of <$> schedule nodes) in *.
  assert (forall l1 l2, order = l1 ++ l2 -> forall id, id ∈ l1 -> id ∈ done) as Hpre.
  { intros l1. induction l1 as [|x l1 IH] using rev_ind; intros l2 E id; [by intros ?%elem_of_nil|].
    rewrite <- app_assoc in E. simpl in E. intros [Hid|Hid]%elem_of_app; [by eapply IH|].
    apply list_elem_of_singleton in Hid as ->.
    assert (x ∈ dom nodes) as [n Hn]%elem_of_dom by (rewrite <- elem_of_elements, <- Hperm, E; set_solver).
    destruct (decide (x ∈ done)) as [|Hx]; [done|exfalso].
    assert (n ∈ placeable nodes done) as Hp; [|by rewrite Hstuck in Hp; apply elem_of_nil in Hp].
    pose proof (Hkeyed x n Hn) as Hkn. apply elem_of_placeable; [done|]. unfold frontier. rewrite Hkn.
    split_and!; [done..|]. intros a Ha. apply elem_of_list_to_set.
    destruct (Hlin a x Ha) as (k1 & k2 & k3 & E').
    assert (NoDup order) as Hnd by (rewrite Hperm; apply NoDup_elements).
    assert (l1 = k1 ++ a :: k2) as ->; [|by eapply IH; [done|set_solver]].
    rewrite E in E'. rewrite E in Hnd. clear -E' Hnd.
    replace (k1 ++ a :: k2 ++ x :: k3) with ((k1 ++ a :: k2) ++ x :: k3) in E' by by rewrite <- app_assoc.
    by eapply NoDup_pivot. }
  assert (dom nodes ⊆ list_to_set done) as Hsub.
  { intros id Hid. apply elem_of_list_to_set. eapply (Hpre order []); [by rewrite app_nil_r|].
    by rewrite Hperm, elem_of_elements. }
  apply subseteq_size in Hsub. rewrite size_dom, size_list_to_set in Hsub by apply NoDup_schedule.
  pose proof (NoDup_subset_length _ _ NoDup_schedule schedule_ids_sub) as Hle. rewrite size_dom in Hle.
  subst done. rewrite length_fmap in *. lia.
Qed.
End schedule.
End PlanProofs.

Module PlanProps.
Import Wire.Wire Model Manifest PlanSpec PlanProofs.
Implicit Types (nodes : gmap string CompiledRegistration) (n : CompiledRegistration) (r : Registration).

(** ** What validation establishes *)
Record registration_ok (owner : string) r : Prop := {
  ok_owned : ownedID owner (r_ID r) = true;
  ok_binding : 1 <= len (r_Binding r) <= 256;
  ok_timeout : 1 <= r_TimeoutMillis r <= 60000;
  ok_failure : r_FailureMode r = FailClosed \/ r_FailureMode r = FailOpen;
  ok_placement : r_Placement r = PlacementSource \/ r_Placement r = PlacementDestination \/
                 r_Placement r = PlacementRelay /\ r_NeedsPlaintext r = false;
  ok_operation : m_Operation (r_Match r) ∈ [OperationDiscover; OperationDescribe; OperationInvoke];
  ok_stage : ValidNamespacedName (m_Stage (r_Match r)) = true;
  ok_phases : r_Phases r <> [] /\ NoDup (r_Phases r) /\
              Forall (fun p => p ∈ [PhaseRequest; PhaseResponse; PhaseError; PhaseChunk; PhaseCompletion]) (r_Phases r) }.

Lemma contains_elem l s : contains l s = true <-> s ∈ l.
Proof.
  induction l as [|x l IH]; simpl; [split; [done|by intros ?%elem_of_nil]|].
  rewrite elem_of_cons. destruct (str_eqb x s) eqn:E.
  - apply str_eqb_eq in E as ->. naive_solver.
  - apply str_eqb_neq in E. rewrite IH. naive_solver.
Qed.

Lemma known_phase_elem p : known_phase p = true <-> p ∈ [PhaseRequest; PhaseResponse; PhaseError; PhaseChunk; PhaseCompletion].
Proof. unfold known_phase. rewrite !orb_true_iff, !str_eqb_eq. set_solver. Qed.

Lemma known_operation_elem o : known_operation o = true <-> o ∈ [OperationDiscover; OperationDescribe; OperationInvoke].
Proof. unfold known_operation. rewrite !orb_true_iff, !str_eqb_eq. set_solver. Qed.

Lemma validate_phases_spec seen phases : validate_phases seen phases = true ->
  NoDup phases /\ (forall p, p ∈ phases -> p ∉ seen) /\
  Forall (fun p => p ∈ [PhaseRequest; PhaseResponse; PhaseError; PhaseChunk; PhaseCompletion]) phases.
Proof.
  revert seen. induction phases as [|p phases IH]; intros seen; simpl.
  { intros _. split_and!; [by apply NoDup_nil_2|by intros p ?%elem_of_nil|done]. }
  destruct (known_phase p) eqn:Hp; simpl; [|done]. destruct (contains seen p) eqn:Hc; [done|].
  intros (Hnd & Hseen & Hall)%IH. apply known_phase_elem in Hp. apply not_true_iff_false in Hc. rewrite contains_elem in Hc.
  split_and!; [|set_solver|by constructor].
  apply NoDup_cons. split; [|done]. intros Hin. apply (Hseen p Hin). by left.
Qed.

(** encoding/json fills int32 and uint32 fields within their range. *)
Definition machine_range r : Prop := 0 <= r_TimeoutMillis r < 2 ^ 32 /\ - 2 ^ 31 <= r_Priority r < 2 ^ 31.

Lemma validateRegistration_spec owner r r' : machine_range r -> validateRegistration owner r = Ok r' ->
  registration_ok owner r' /\ r_ID r' = r_ID r.
Proof.
  intros [Ht _] Hv. unfold validateRegistration in Hv.
  set (s := if str_eqb (r_FailureMode r) "" then set_FailureMode r FailClosed else r) in *.
  assert (r_ID s = r_ID r /\ r_Binding s = r_Binding r /\ r_TimeoutMillis s = r_TimeoutMillis r) as (E1 & E2 & E3).
  { subst s. by case_if. }
  clearbody s. rinv. split; [|done].
  match goal with Hw : (time_Minute <? _) = false |- _ => rewrite wrap64_small in Hw;
    [|unfold in_int64, min_int64, max_int64, time_Millisecond; lia]; unfold time_Minute, time_Second, time_Millisecond in Hw end.
  split; rewrite ?E1, ?E2, ?E3; try done.
  - assert (r_Binding r <> "") as Hne by by apply str_eqb_neq.
    assert (len (r_Binding r) <> 0); [|pose proof (len_nonneg (r_Binding r)); lia].
    unfold len. destruct (r_Binding r); [done|]. simpl. lia.
  - lia.
  - match goal with Hm : negb _ && negb _ = false |- _ => apply andb_false_iff in Hm as [Hm|Hm] end;
      rinv; [left|right]; by apply str_eqb_eq.
  - match goal with Hp : validate_placement r' = Ok _ |- _ => unfold validate_placement in Hp;
      destruct (str_eqb (r_Placement r') PlacementSource) eqn:P1; [left; by apply str_eqb_eq|];
      destruct (str_eqb (r_Placement r') PlacementDestination) eqn:P2; [right; left; by apply str_eqb_eq|]; simpl in Hp;
      destruct (str_eqb (r_Placement r') PlacementRelay) eqn:P3; [|done] end.
    rinv. right. right. split; [by apply str_eqb_eq|done].
  - by apply known_operation_elem.
  - match goal with Hp : validate_phases [] _ = true |- _ => apply validate_phases_spec in Hp as (? & _ & ?) end.
    split_and!; [|done..]. intros E. by rewrite E in *.
Qed.

(** Names with a common extension are nested. *)
Lemma prefixes_overlap a b s : has_prefix s (a ++ ".") = true -> has_prefix s (b ++ ".") = true ->
  a = b \/ overlaps a b = true.
Proof.
  unfold overlaps. rewrite orb_true_iff, !has_prefix_spec. intros [ra ->]. revert b.
  induction a as [|c a IH]; intros [|d b] [rb E]; cbn [String.append] in E.
  - by left.
  - injection E as -> E. right. right. exists b. done.
  - injection E as -> E. right. left. exists a. done.
  - injection E as -> E. destruct (IH b) as [->|[[r ->]|[r ->]]]; [by eexists|by left|right; left|right; right]; by exists r.
Qed.

(** An extension outside pagnet's namespace owns no name inside it. *)
Lemma owned_not_pagnet owner id : ValidNamespacedName owner = true /\ has_prefix owner "pagnet." = false ->
  ownedID owner id = true -> has_prefix id "pagnet." = false.
Proof.
  intros [Hv Hp] [Ho _]%andb_true_iff. apply not_true_iff_false. intros Hid.
  destruct (prefixes_overlap owner "pagnet" id) as [->|Hov]; [done..| |].
  - vm_compute in Hv. done.
  - unfold overlaps in Hov. apply orb_true_iff in Hov as [Hov|Hov].
    { change ("pagnet" ++ ".")%string with "pagnet." in Hov. congruence. }
    apply has_prefix_spec in Hov as [r E].
    do 7 (destruct owner as [|? owner]; cbn [String.append] in E; [discriminate E|]; injection E as <- E || discriminate E).
Qed.

Section collect.
Context `{Sha256, JsonDecoder, ManifestJson}.

(** Decoded manifests hold machine integers. *)
Class ManifestLaws : Prop :=
  decode_ranges : forall raw m, decode_manifest raw = Some m -> Forall machine_range (em_Interceptors m).

(** The nodes collected from manifests of the extensions [ext]. *)
Record collected (max : Z) (ext : gset string) nodes : Prop := {
  c_keyed : keyed nodes;
  c_owner : forall id n, nodes !! id = Some n -> c_ExtensionID n ∈ ext;
  c_valid : forall id n, nodes !! id = Some n -> registration_ok (c_ExtensionID n) (c_Registration n);
  c_size : Z.of_nat (size nodes) <= max;
  c_ext : forall a, a ∈ ext -> ValidNamespacedName a = true /\ has_prefix a "pagnet." = false;
  c_disjoint : forall a b, a ∈ ext -> b ∈ ext -> a <> b -> overlaps a b = false }.

Lemma install_collected max ext owner nodes l nodes' : owner ∈ ext -> Forall machine_range l ->
  collected max ext nodes -> install_interceptors owner max nodes l = Ok nodes' -> collected max ext nodes'.
Proof.
  intros Hext. revert nodes. induction l as [|r l IH]; intros nodes Hl C Hi; simpl in Hi; rinv; [done|].
  apply Forall_cons in Hl as [Hr Hl]. eapply IH; [done| |done]. clear IH Hi.
  match goal with Hv : validateRegistration owner r = Ok ?r' |- _ =>
    apply validateRegistration_spec in Hv as [Hok _]; [rename r' into s|done] end.
  assert (nodes !! r_ID s = None) as Hnone by by apply eq_None_not_Some.
  split.
  - intros id n. rewrite lookup_insert. case_decide; [by intros [= <-]|by apply C].
  - intros id n. rewrite lookup_insert. case_decide; [by intros [= <-]|by apply C].
  - intros id n. rewrite lookup_insert. case_decide; [by intros [= <-]|by apply C].
  - rewrite map_size_insert_None by done. lia.
  - apply C.
  - apply C.
Qed.

Context `{!ManifestLaws}.

Lemma collect_collected max ext nodes manifests nodes' : collected max ext nodes ->
  collect max ext nodes manifests = Ok nodes' -> exists ext', collected max ext' nodes'.
Proof.
  revert ext nodes. induction manifests as [|supplied manifests IH]; intros ext nodes C Hc; simpl in Hc; rinv; [eauto|].
  match goal with Ho : own_manifest max supplied = Ok ?m |- _ => rename Ho into Hown; set (man := m) in * end.
  unfold check_manifest in *. rinv. unfold own_manifest in Hown. rinv.
  assert (Forall machine_range (em_Interceptors man)) as Hr.
  { apply (decode_ranges x0). destruct (decode_manifest x0); simpl in *; by simplify_eq. }
  clear Hown. eapply IH; [|done]. eapply install_collected; [|done| |done]; [set_solver|]. clear IH Hc.
  assert (forall a, a ∈ ext -> overlaps a (em_ID man) = false) as Hov.
  { intros a Ha. match goal with Hf : forallb _ (elements ext) = true |- _ => rewrite forallb_forall in Hf end.
    apply negb_true_iff. match goal with Hf : forall x, In x (elements ext) -> _ |- _ => apply Hf end.
    by apply list_elem_of_In, elem_of_elements. }
  split; try apply C.
  - intros id n Hn. apply (c_owner _ _ _ C) in Hn. set_solver.
  - intros a [->%elem_of_singleton|Ha]%elem_of_union; [done|by apply C].
  - intros a b [->%elem_of_singleton|Ha]%elem_of_union [->%elem_of_singleton|Hb]%elem_of_union Hne;
      [done| |by apply Hov|by apply C]. specialize (Hov b Hb). unfold overlaps in *. rewrite orb_comm. done.
Qed.

Lemma collect_spec max manifests nodes : 1 <= max -> collect max ∅ ∅ manifests = Ok nodes ->
  exists ext, collected max ext nodes.
Proof.
  intros Hm. apply collect_collected. split; try set_solver.
  - intros id n E. by rewrite lookup_empty in E.
  - rewrite map_size_empty. lia.
Qed.
End collect.

(** ** Compile against the reference *)
(** Every constraint names another installed interceptor. *)
Definition resolvable nodes : Prop :=
  map_Forall (fun id n => Forall (fun other => other <> id /\ other ∈ dom nodes)
                            (r_Before (c_Registration n) ++ r_After (c_Registration n))) nodes.

Section compile.
Context `{Sha256, JsonDecoder, ManifestJson}.

Lemma collect_keyed max ext nodes manifests nodes' : keyed nodes ->
  collect max ext nodes manifests = Ok nodes' -> keyed nodes'.
Proof.
  assert (forall owner l nodes nodes', keyed nodes -> install_interceptors owner max nodes l = Ok nodes' -> keyed nodes') as Hi.
  { intros owner l. induction l as [|r l IH]; intros ns ns' Hk Hc; simpl in Hc; rinv; [done|].
    eapply IH; [|done]. intros id n. rewrite lookup_insert. case_decide; [by intros [= <-]|by apply Hk]. }
  revert ext nodes. induction manifests as [|supplied manifests IH]; intros ext nodes Hk Hc; simpl in Hc; rinv; [done|].
  eapply IH; [|done]. by eapply Hi.
Qed.

Lemma resolvable_spec nodes : resolvable nodes <->
  forall a b, a ∈ predecessors nodes b -> a <> b /\ a ∈ dom nodes /\ b ∈ dom nodes.
Proof.
  unfold resolvable. split.
  - intros Hr a b [(n & Hn & Hb)|(n & Hn & Ha)]%elem_of_predecessors;
      pose proof (Hr _ _ Hn) as Hf; rewrite Forall_forall in Hf; apply elem_of_dom_2 in Hn.
    + destruct (Hf b) as [? ?]; [by apply elem_of_app; left|]. done.
    + destruct (Hf a) as [? ?]; [by apply elem_of_app; right|]. done.
  - intros Hc id n Hn. apply Forall_forall. intros other [Ho|Ho]%elem_of_app.
    + destruct (Hc id other) as (? & ? & ?); [apply elem_of_predecessors; eauto|naive_solver].
    + destruct (Hc other id) as (? & ? & ?); [apply elem_of_predecessors; eauto|naive_solver].
Qed.

(** The reference compiler: no heap, no degrees, no enumeration order. *)
Definition compile_reference (manifests : list ExtensionManifest) (max : Z) : option Plan :=
  if negb ((max <? 1) || (100000 <? max)) then
    match collect max ∅ ∅ manifests with
    | Err _ => None
    | Ok nodes =>
        if bool_decide (resolvable nodes /\ length (schedule nodes) = size nodes) then
          encoded ← marshal_manifests (merge_sort manifest_le manifests);
          Some (mkPlan (group (schedule nodes)) (hex_encode (sha256 encoded)) nodes)
        else None
    end
  else None.

Section range.
Context (range : nat -> gset string -> list string) `{!MapOrder range}.

(** The loop of Compile visits the schedule. *)
Lemma compile_loop nodes g : keyed nodes -> build_graph range nodes = Ok g ->
  let l := drain range (size nodes) nodes g (mkLoop (initial_ready range nodes (degree g)) (degree g) ∅ 0) in
  l_visited l = length (schedule nodes) /\ l_chains l = group (schedule nodes).
Proof.
  intros Hk Hb. assert (is_ok (build_graph range nodes) = true) as Hr by by rewrite Hb.
  rewrite (build_graph_Ok range) in Hr.
  apply (build_graph_spec range) in Hb. pose proof (initial_kahn nodes Hk range g Hb) as K.
  by destruct (drain_schedule nodes Hk Hr range g Hb (size nodes) []
    (mkLoop (initial_ready range nodes (degree g)) (degree g) ∅ 0) K) as (? & ? & _).
Qed.

Lemma compile_Ok manifests max p : Compile range manifests max = Ok p <-> compile_reference manifests max = Some p.
Proof.
  unfold Compile, compile_reference. destruct (negb _); simpl; [|done].
  destruct (collect max ∅ ∅ manifests) as [nodes|e] eqn:Hc; simpl; [|done].
  assert (keyed nodes) as Hk by (eapply collect_keyed; [|done]; intros ? ? E; by rewrite lookup_empty in E).
  pose proof (build_graph_Ok range nodes) as Hok. rewrite <- resolvable_spec in Hok.
  destruct (build_graph range nodes) as [g|e] eqn:Hg; simpl in *.
  - destruct (compile_loop nodes g Hk Hg) as [-> ->].
    destruct (Nat.eqb_spec (length (schedule nodes)) (size nodes)) as [Hl|Hl]; simpl.
    + rewrite bool_decide_eq_true_2 by tauto. destruct (marshal_manifests _); simpl; [|done]. naive_solver.
    + rewrite bool_decide_eq_false_2 by tauto. done.
  - rewrite bool_decide_eq_false_2; [done|]. intros [Hr _]. by apply Hok in Hr.
Qed.
End range.

(** C22. Compile is the reference compiler. Whatever order Go enumerates its maps
    in, at each of its range statements, [Compile] returns a plan exactly when the
    reference does, and the same plan: the chains follow the order that places,
    again and again, the least interceptor by priority and ID whose predecessors
    are placed. So plans and their revisions do not depend on map order. *)
Theorem compile_is_reference (range : nat -> gset string -> list string) manifests max :
  MapOrder range ->
  forall p, Compile range manifests max = Ok p <-> compile_reference manifests max = Some p.
Proof. intros Hr p. by apply compile_Ok. Qed.

Lemma group_lookup l chains key :
  default [] (group_from chains l !! key) = default [] (chains !! key) ++ filter (fun n => chain_key n = key) l.
Proof.
  revert chains. induction l as [|n l IH]; intros chains; simpl; [by rewrite app_nil_r|].
  rewrite IH, filter_cons, lookup_insert. destruct (decide (chain_key n = key)) as [<-|]; [|done].
  simpl. by rewrite <- app_assoc.
Qed.

Lemma schedule_linear nodes : keyed nodes -> resolvable nodes -> length (schedule nodes) = size nodes ->
  linear nodes (id_of <$> schedule nodes).
Proof.
  intros Hk Hr Hl. pose proof (schedule_complete nodes Hk Hl) as Hp. split; [done|].
  intros a b Hab. destruct (proj1 (resolvable_spec nodes) Hr a b Hab) as (_ & _ & Hb).
  rewrite <- elem_of_elements, <- Hp in Hb. apply list_elem_of_fmap in Hb as (n & -> & Hn).
  apply list_elem_of_split in Hn as (l1 & l2 & E). pose proof (schedule_frontier _ Hk _ _ _ E) as (_ & _ & Hsub).
  pose proof (Hsub a Hab) as Ha. rewrite elem_of_list_to_set in Ha. apply list_elem_of_split in Ha as (k1 & k2 & Ek).
  exists k1, k2, (id_of <$> l2). rewrite E, fmap_app, Ek. simpl. by rewrite <- app_assoc.
Qed.

Lemma linear_resolvable nodes order : linear nodes order -> resolvable nodes.
Proof.
  intros [Hp Hl]. apply resolvable_spec. intros a b Hab. destruct (Hl a b Hab) as (l1 & l2 & l3 & E).
  assert (NoDup order) as Hnd by (rewrite Hp; apply NoDup_elements).
  rewrite <- !elem_of_elements, <- !Hp, E. split_and!; [|set_solver..].
  intros ->. rewrite E in Hnd. apply NoDup_app in Hnd as (_ & _ & Hnd). apply NoDup_cons in Hnd as [Hb _]. set_solver.
Qed.

(** C23. Plans are complete linearizations, and cycles are detected exactly. With a
    valid capacity, manifests that validate to [nodes] and can be marshalled
    compile if and only if some order of all interceptors meets every Before and
    After constraint; then one order of all interceptors that meets them is the
    common order of all chains: each chain is the part of that order with its
    operation, stage and placement, and a constraint between members of one chain
    holds inside the chain. *)
Theorem plan_linearizes_constraints (range : nat -> gset string -> list string) manifests max nodes encoded :
  MapOrder range -> 1 <= max <= 100000 -> collect max ∅ ∅ manifests = Ok nodes ->
  marshal_manifests (merge_sort manifest_le manifests) = Some encoded ->
  (is_ok (Compile range manifests max) = true <-> exists order, linear nodes order) /\
  forall p, Compile range manifests max = Ok p ->
    exists order, linear nodes (id_of <$> order) /\ Forall (fun n => nodes !! id_of n = Some n) order /\
      forall key, default [] (p_chains p !! key) = filter (fun n => chain_key n = key) order.
Proof.
  intros Hr Hmax Hc Hm. assert (keyed nodes) as Hk by (eapply collect_keyed; [|done]; intros ? ? E; by rewrite lookup_empty in E).
  assert (compile_reference manifests max = if bool_decide (resolvable nodes /\ length (schedule nodes) = size nodes)
    then Some (mkPlan (group (schedule nodes)) (hex_encode (sha256 encoded)) nodes) else None) as Href.
  { unfold compile_reference. replace (negb _) with true by lia. by rewrite Hc, Hm. }
  pose proof (compile_Ok range manifests max) as Hok. rewrite Href in Hok. clear Href.
  case_bool_decide as Hb.
  - destruct Hb as [Hres Hlen]. split.
    + split; [intros _; exists (id_of <$> schedule nodes); by apply schedule_linear|].
      intros _. by rewrite (proj2 (Hok _) eq_refl).
    + intros p [= <-]%Hok. exists (schedule nodes). split_and!; [by apply schedule_linear| |].
      * apply Forall_forall. apply schedule_nodes; done.
      * intros key. simpl. unfold group. by rewrite group_lookup, lookup_empty.
  - split.
    + split; [|intros [order Ho]; exfalso; apply Hb; eauto using linear_complete, linear_resolvable].
      destruct (Compile range manifests max) as [p|]; [|done]. discriminate (proj1 (Hok p) eq_refl).
    + by intros p ?%Hok.
Qed.

(** An interceptor applies to a match context: it is not being executed already,
    unless it allows that, each of its restrictions admits the context's value, and the
    context has all its tags. *)
Definition admits (values : list string) (value : string) : Prop := values = [] \/ value ∈ values.
Definition applies (ctx : MatchContext) (n : CompiledRegistration) : Prop :=
  let m := r_Match (c_Registration n) in
  (r_AllowSelfRecursion (c_Registration n) = true \/
   (id_of n ∉ mc_ExecutingInterceptors ctx /\ c_ExtensionID n ∉ mc_ExecutingInterceptors ctx)) /\
  admits (m_SourceKinds m) (mc_SourceKind ctx) /\ admits (m_TargetKinds m) (mc_TargetKind ctx) /\
  admits (m_TargetProtocols m) (mc_TargetProtocol ctx) /\ admits (m_Domains m) (mc_Domain ctx) /\ m_Tags m ⊆ mc_Tags ctx.

Lemma accept_spec values value : accept values value = true <-> admits values value.
Proof.
  unfold accept, admits. rewrite orb_true_iff, Nat.eqb_eq, contains_elem. by rewrite length_zero_iff_nil.
Qed.

Lemma suppressed_spec ctx n : recursion_suppressed ctx n = false <->
  r_AllowSelfRecursion (c_Registration n) = true \/
  (id_of n ∉ mc_ExecutingInterceptors ctx /\ c_ExtensionID n ∉ mc_ExecutingInterceptors ctx).
Proof.
  unfold recursion_suppressed. fold (id_of n). rewrite andb_false_iff, negb_false_iff, orb_false_iff, <- !not_true_iff_false.
  by rewrite !contains_elem.
Qed.

Lemma selects_spec ctx n : selects ctx n = true <-> applies ctx n.
Proof.
  unfold applies. rewrite <- suppressed_spec, <- !accept_spec.
  assert (m_Tags (r_Match (c_Registration n)) ⊆ mc_Tags ctx <->
    forallb (contains (mc_Tags ctx)) (m_Tags (r_Match (c_Registration n))) = true) as ->.
  { rewrite forallb_forall. split; intros Hall t Ht; [apply contains_elem, Hall|apply contains_elem, Hall]; by apply list_elem_of_In. }
  unfold selects. destruct (recursion_suppressed ctx n); [split; [done|by intros [? _]]|].
  destruct (accept _ (mc_SourceKind ctx)); [|split; [done|by intros (_ & ? & _)]].
  destruct (accept _ (mc_TargetKind ctx)); [|split; [done|by intros (_ & _ & ? & _)]].
  destruct (accept _ (mc_TargetProtocol ctx)); [|split; [done|by intros (_ & _ & _ & ? & _)]].
  destruct (accept _ (mc_Domain ctx)); [|split; [done|by intros (_ & _ & _ & _ & ? & _)]].
  cbn [negb orb]. tauto.
Qed.

Lemma filter_sublist_of {A} (f : A -> bool) l : List.filter f l `sublist_of` l.
Proof. induction l as [|x l IH]; simpl; [constructor|]. destruct (f x); by constructor. Qed.

(** C24. Compiled plans are well typed. Every interceptor of a compiled plan is
    stored under its own ID, has a complete valid registration (a name inside its
    extension's namespace, a bounded binding, a timeout of at most a minute, a
    failure mode that is fail-closed or fail-open, known placement, operation and
    distinct known phases, no relay with plaintext), and no interceptor's name lies
    in the namespace of another installed extension or in pagnet's own; there are
    at most [max] of them; each chain holds registered interceptors of exactly
    its operation, stage and placement, in an order without repetition. A selection
    keeps the order of the chain of its operation, stage and placement and consists of
    exactly the registered interceptors with this key that apply to the match context. *)
Theorem plans_are_well_typed (range : nat -> gset string -> list string) manifests max p :
  MapOrder range -> ManifestLaws -> Compile range manifests max = Ok p ->
  (forall id n, p_byID p !! id = Some n ->
     id_of n = id /\ registration_ok (c_ExtensionID n) (c_Registration n) /\ has_prefix id "pagnet." = false) /\
  (forall id id' n m, p_byID p !! id = Some n -> p_byID p !! id' = Some m -> c_ExtensionID n <> c_ExtensionID m ->
     ownedID (c_ExtensionID m) id = false) /\
  Z.of_nat (size (p_byID p)) <= max /\
  (forall key chain, p_chains p !! key = Some chain ->
     NoDup chain /\ Forall (fun n => chain_key n = key /\ p_byID p !! id_of n = Some n) chain) /\
  (forall ctx, Select p ctx `sublist_of` default [] (p_chains p !! (mc_Operation ctx, mc_Stage ctx, mc_Placement ctx)) /\
     forall n, n ∈ Select p ctx <->
       p_byID p !! id_of n = Some n /\ chain_key n = (mc_Operation ctx, mc_Stage ctx, mc_Placement ctx) /\ applies ctx n).
Proof.
  intros Hr Hlaws Hp%compile_Ok; [|done]. unfold compile_reference in Hp. case_if; [|done]. rinv.
  destruct (collect max ∅ ∅ manifests) as [nodes|] eqn:Hc; [|done].
  case_bool_decide as Hb; [|done]. destruct Hb as [_ Hlen].
  destruct (marshal_manifests _) as [encoded|]; simpl in Hp; [|done]. injection Hp as <-. simpl.
  destruct (collect_spec max manifests nodes ltac:(lia) Hc) as [ext C]. pose proof (c_keyed _ _ _ C) as Hk.
  split_and!.
  - intros id n Hn. split_and!; [by apply Hk|by eapply c_valid|]. eapply owned_not_pagnet; [by eapply c_ext, c_owner|].
    rewrite <- (Hk id n Hn). by eapply c_valid.
  - intros id id' n m Hn Hm Hne. apply not_true_iff_false. intros Ho.
    pose proof (ok_owned _ _ (c_valid _ _ _ C _ _ Hn)) as Ho'. fold (id_of n) in Ho'. rewrite (Hk id n Hn) in Ho'.
    unfold ownedID in *. rinv. destruct (prefixes_overlap (c_ExtensionID n) (c_ExtensionID m) id) as [?|Hov]; [done..|].
    rewrite (c_disjoint _ _ _ C) in Hov; [done|by eapply c_owner..|done].
  - apply C.
  - intros key chain Hch. assert (chain = filter (fun n => chain_key n = key) (schedule nodes)) as ->.
    { pose proof (group_lookup (schedule nodes) ∅ key) as Hg. unfold group in Hch. by rewrite Hch, lookup_empty in Hg. }
    split; [by apply NoDup_filter, (NoDup_fmap_1 id_of), NoDup_schedule|].
    apply Forall_forall. intros n [Hkey Hn]%list_elem_of_filter. split; [done|]. by apply schedule_nodes.
  - intros ctx. split; [apply filter_sublist_of|]. intros n. unfold Select. simpl. unfold group. rewrite group_lookup, lookup_empty. simpl.
    rewrite list_elem_of_In, filter_In, <- list_elem_of_In, list_elem_of_filter, selects_spec.
    rewrite <- (scheduled_iff nodes Hk n Hlen). tauto.
Qed.
End compile.
End PlanProps.

Module PlanWitness.
Import RefWitness Wire.Wire Model Manifest PlanSpec PlanProofs PlanProps Wire.WireWitness.

(** Two interceptors; the one with the lower priority value must run second. *)
Definition w_match : Match := mkMatch "invoke" "invoke.dispatch" [] [] [] [] [].
Definition w_registration (id : string) (priority : Z) (after : list string) : Registration :=
  mkRegistration id priority [] after w_match "source" false ["request"; "response"; "error"] 1000 "" false "binding".
Definition w_manifest : ExtensionManifest :=
  mkManifest "1.0" "acme.guard" "1" "1.0" "1.0"
    [w_registration "acme.guard.first" 1 ["acme.guard.second"]; w_registration "acme.guard.second" 5 []] [] [] [].

#[export] Instance w_manifest_json : ManifestJson :=
  {| marshal_manifest := fun _ => Some [x7b; x7d]; decode_manifest := fun _ => Some w_manifest;
     marshal_manifests := fun _ => Some [x5b; x5d] |}.
#[export] Instance w_manifest_laws : ManifestLaws.
Proof. intros raw m [= <-]. repeat constructor; vm_compute; congruence. Defined.

Definition w_range (k : nat) (s : gset string) : list string := elements s.
#[export] Instance w_range_order : MapOrder w_range.
Proof. intros k s. unfold w_range. reflexivity. Defined.

Definition w_key : string * string * string := ("invoke", "invoke.dispatch", "source").
Definition w_chain (c : result Error Plan) : list string :=
  match c with Ok p => id_of <$> default [] (p_chains p !! w_key) | Err _ => [] end.

Lemma w_compiles : w_chain (Compile w_range [w_manifest] 10) = ["acme.guard.second"; "acme.guard.first"].
Proof. vm_compute. reflexivity. Defined.

Lemma w_plan : exists p, Compile w_range [w_manifest] 10 = Ok p.
Proof.
  pose proof w_compiles as Hc. destruct (Compile w_range [w_manifest] 10) as [p|]; [by exists p|discriminate Hc].
Defined.

Lemma compile_is_reference_witness :
  exists p, Compile w_range [w_manifest] 10 = Ok p /\ compile_reference [w_manifest] 10 = Some p.
Proof.
  destruct w_plan as [p Hp]. exists p. split; [exact Hp|].
  apply (compile_is_reference w_range [w_manifest] 10 w_range_order p). exact Hp.
Defined.

Lemma plan_linearizes_witness :
  exists nodes, collect 10 ∅ ∅ [w_manifest] = Ok nodes /\ is_ok (Compile w_range [w_manifest] 10) = true /\
    exists order, linear nodes order.
Proof.
  destruct (collect 10 ∅ ∅ [w_manifest]) as [nodes|e] eqn:Hc.
  2:{ exfalso. assert (is_ok (collect 10 ∅ ∅ [w_manifest]) = true) as Ho by (vm_compute; reflexivity).
      rewrite Hc in Ho. discriminate Ho. }
  exists nodes. split; [reflexivity|].
  assert (is_ok (Compile w_range [w_manifest] 10) = true) as Hok by (destruct w_plan as [p ->]; reflexivity).
  split; [exact Hok|].
  apply (plan_linearizes_constraints w_range [w_manifest] 10 nodes [x5b; x5d] w_range_order); [lia|exact Hc|reflexivity|exact Hok].
Defined.

Lemma plans_well_typed_witness :
  exists p, Compile w_range [w_manifest] 10 = Ok p /\ Z.of_nat (size (p_byID p)) <= 10.
Proof.
  destruct w_plan as [p Hp]. exists p. split; [exact Hp|].
  destruct (plans_are_well_typed w_range [w_manifest] 10 p w_range_order w_manifest_laws Hp) as (_ & _ & Hs & _ & _). exact Hs.
Defined.
End PlanWitness.
