(* ===== verification/Engine.v ===== *)
(** * The extension engine (src/fabric/extension/protocol.go, remote.go,
    engine.go, resume.go)

    Interceptors answer requests with decisions. [ValidateDecision] refuses
    contradictory ones, the executor isolates and bounds a call, and the engine
    runs the chain of an invocation: the request phase walks the chain, a redirect
    starts over with the chain of the new target, a deferral suspends the pipeline
    durably, and every result unwinds through the interceptors that were entered.

    Everything outside the engine (contexts, the clock, handlers, the match
    resolver, the final validator, the downstream endpoint, the continuation
    recorder) is an operation of the class [Host]: a function of an arbitrary
    world, which it changes. The engine's operations are state-passing
    computations [M] over that world, and over the log of the calls they made,
    which the source does not keep and the theorems are about. Telemetry spans
    observe a call and change nothing; they are left out. *)
From Stdlib Require Import Ascii Strings.Byte ZArith Lia.
From S2P Require Import Prelude GoStrings FabricRef Framing Wire FabricModel Stream Patch Manifest.
#[local] Open Scope Z_scope.

(** ** Decisions (protocol.go) *)
Module Protocol.
Import Ref Wire.Wire Model Stream.Stream Manifest.

(** Action is a string type. *)
Definition Continue : string := "CONTINUE".
Definition Modify : string := "MODIFY".
Definition Reject : string := "REJECT".
Definition Respond : string := "RESPOND".
Definition Redirect : string := "REDIRECT".
Definition Defer : string := "DEFER".

Record RedirectTarget := mkRedirect { rt_Ref : EndpointRef; rt_ExpectedRevision : string }.
Record Deferral := mkDeferral {
  df_ExpiresAt : Time; df_ResumePrincipals : list string; df_Durable : bool }.
Record Decision := mkDecision {
  d_Action : string; d_Patch : list byte; d_Response : list byte; d_Failure : option Error;
  d_Redirect : option RedirectTarget; d_Deferral : option Deferral }.

Record InterceptRequest := mkRequest {
  ir_ProtocolVersion : string; ir_InterceptorID : string; ir_Operation : string; ir_Stage : string;
  ir_Phase : string; ir_Envelope : Envelope; ir_Content : list byte; ir_ContentEncoding : string;
  ir_Response : list byte; ir_Failure : option Error; ir_Frame : option InvocationFrame }.

Definition no_decision : Decision := mkDecision "" [] [] None None None.
Definition continue_decision : Decision := mkDecision Continue [] [] None None None.

Section validate.
Context `{JsonDecoder}.

Definition invalid_decision : Error := NewError CodeProtocolError "Invalid interceptor decision".
Definition absent {A} (o : option A) : bool := negb (bool_decide (is_Some o)).
Definition empty (b : list byte) : bool := blen b =? 0.

Definition validate_modify (req : InterceptRequest) (d : Decision) : result Error unit :=
  let? _ := guard (negb (empty (d_Patch d) || negb (empty (d_Response d)) || negb (absent (d_Failure d)) ||
                         negb (absent (d_Redirect d)) || negb (absent (d_Deferral d)) ||
                         (negb (str_eqb (ir_Phase req) PhaseRequest) && negb (str_eqb (ir_Phase req) PhaseResponse) &&
                          negb (str_eqb (ir_Phase req) PhaseChunk)))) invalid_decision in
  let? _ := guard (negb (str_eqb (ir_Phase req) PhaseChunk && absent (ir_Frame req) ||
                         str_eqb (ir_Phase req) PhaseResponse && absent (ir_Frame req) && empty (ir_Response req)))
              invalid_decision in
  match ir_Frame req with
  | None => Ok tt
  | Some f =>
      let? _ := guard (negb (negb (bool_decide (fr_Kind f = FrameChunk)) && negb (bool_decide (fr_Kind f = FrameProgress))))
                  invalid_decision in
      guard (negb (str_eqb (ir_ContentEncoding req) "unavailable")) invalid_decision
  end.

Definition validate_reject (d : Decision) : result Error unit :=
  match d_Failure d with
  | None => Err invalid_decision
  | Some f =>
      let? _ := guard (negb (str_eqb (code_string (err_code f)) "" || negb (empty (d_Patch d)) || negb (empty (d_Response d)) ||
                             negb (absent (d_Redirect d)) || negb (absent (d_Deferral d)))) invalid_decision in
      let? _ := guard (negb ((256 <? len (code_string (err_code f))) || (1024 <? len (err_message f)))) invalid_decision in
      guard (match err_effect f with EffectOther _ => false | _ => true end) invalid_decision
  end.

Definition validate_respond (req : InterceptRequest) (d : Decision) (outputStarted : bool) : result Error unit :=
  let? _ := guard (negb (empty (d_Response d) || negb (empty (d_Patch d)) || negb (absent (d_Failure d)) ||
                         negb (absent (d_Redirect d)) || negb (absent (d_Deferral d)) ||
                         negb (str_eqb (ir_Phase req) PhaseRequest) || outputStarted)) invalid_decision in
  guard (is_ok (decode_value (d_Response d))) invalid_decision.

Definition validate_redirect (req : InterceptRequest) (d : Decision) (outputStarted : bool) : result Error unit :=
  let? _ := guard (negb (negb (str_eqb (ir_Operation req) OperationInvoke) || negb (str_eqb (ir_Phase req) PhaseRequest) ||
                         outputStarted || absent (d_Redirect d) || negb (empty (d_Patch d)) ||
                         negb (empty (d_Response d)) || negb (absent (d_Failure d)) || negb (absent (d_Deferral d))))
              invalid_decision in
  match d_Redirect d with
  | None => Err invalid_decision
  | Some t => guard (negb (negb (is_ok (ParseEndpointRef (ref_String (rt_Ref t)))) || (256 <? len (rt_ExpectedRevision t))))
                invalid_decision
  end.

Fixpoint validate_principals (seen : list string) (l : list string) : bool :=
  match l with
  | [] => true
  | p :: l => if str_eqb p "" || (4096 <? len p) || contains seen p then false else validate_principals (p :: seen) l
  end.

(** [ExpiresAt.Sub(now)] saturates far above the bound it is compared with. *)
Definition validate_defer (req : InterceptRequest) (d : Decision) (outputStarted : bool) (now : Time) : result Error unit :=
  let? _ := guard (negb (negb (str_eqb (ir_Operation req) OperationInvoke) || negb (str_eqb (ir_Phase req) PhaseRequest) ||
                         outputStarted || absent (d_Deferral d) || negb (empty (d_Patch d)) ||
                         negb (empty (d_Response d)) || negb (absent (d_Failure d)) || negb (absent (d_Redirect d))))
              invalid_decision in
  match d_Deferral d with
  | None => Err invalid_decision
  | Some f =>
      let? _ := guard (negb (negb (now <? df_ExpiresAt f) || (30 * 24 * time_Hour <? df_ExpiresAt f - now) ||
                             Nat.eqb (length (df_ResumePrincipals f)) 0 || (64 <? Z.of_nat (length (df_ResumePrincipals f)))))
                  invalid_decision in
      guard (validate_principals [] (df_ResumePrincipals f)) invalid_decision
  end.

Definition ValidateDecision (req : InterceptRequest) (d : Decision) (outputStarted : bool) (now : Time) : result Error unit :=
  if str_eqb (d_Action d) Continue then
    guard (negb (negb (empty (d_Patch d)) || negb (empty (d_Response d)) || negb (absent (d_Failure d)) ||
                 negb (absent (d_Redirect d)) || negb (absent (d_Deferral d)))) invalid_decision
  else if str_eqb (d_Action d) Modify then validate_modify req d
  else if str_eqb (d_Action d) Reject then validate_reject d
  else if str_eqb (d_Action d) Respond then validate_respond req d outputStarted
  else if str_eqb (d_Action d) Redirect then validate_redirect req d outputStarted
  else if str_eqb (d_Action d) Defer then validate_defer req d outputStarted now
  else Err invalid_decision.
End validate.
End Protocol.

(** ** The outside world *)
Module HostWorld.
Import Ref Wire.Wire Model Stream.Stream Manifest Protocol.

(** The contexts of a run: its lifetime, with the envelope's deadline, the
    one-second cleanup context of an unwinding that starts after its end, and the
    context a consumer of the returned stream gives to Next. *)
Inductive Ctx := Lifetime (deadline : option Time) | Cleanup | Consumer.

(** What calling a handler amounts to. *)
Inductive Answer := Panics | Answers (d : Decision) (err : option CallError).

Record PipelineState := mkState {
  ps_Format : string; ps_PlanRevision : string; ps_Envelope : Envelope; ps_Stage : string;
  ps_Placement : string; ps_Cursor : Z; ps_Chain : list string; ps_Entered : list string;
  ps_Redirects : Z; ps_VisitedTargets : list string; ps_DeferralID : string }.

(** The Outcome struct over a type of streams. *)
Record Outcome (S : Type) := mkOutcome {
  oc_Response : list byte; oc_Stream : option S; oc_DeferredID : string;
  oc_DeferredNotificationError : option Error }.
Arguments mkOutcome {S} _ _ _ _.
Arguments oc_Response {S} _.
Arguments oc_Stream {S} _.
Arguments oc_DeferredID {S} _.
Arguments oc_DeferredNotificationError {S} _.

Definition no_outcome {S} : Outcome S := mkOutcome [] None "" None.
Definition responds {S} (response : list byte) : Outcome S := mkOutcome response None "" None.

(** An endpoint's outcome as the log shows it: whether there is a stream, not which. *)
Definition observed {S} (o : Outcome S) : Outcome unit :=
  mkOutcome (oc_Response o) (match oc_Stream o with Some _ => Some tt | None => None end) (oc_DeferredID o)
    (oc_DeferredNotificationError o).

Class Host := {
  World : Type;
  Handler : Type;
  Upstream : Type;                                                   (** the endpoint's InvocationStream *)
  ctx_err : Ctx -> World -> option CallError * World;                (** ctx.Err() *)
  call_err : Ctx -> Z -> World -> option CallError * World;          (** Err() under a call's timeout *)
  clock : World -> Time * World;                                     (** time.Now() *)
  acquire : Ctx -> Z -> World -> option CallError * World;           (** a slot, or the end of the call *)
  release : World -> unit * World;                                   (** [<-x.capacity] *)
  intercept : Handler -> InterceptRequest -> World -> Answer * World;
  await : Ctx -> Z -> World -> option CallError * World;             (** the answer, or the end of the call *)
  resolver : Ctx -> ExecutionContext -> Envelope -> string -> string -> World -> result CallError MatchContext * World;
  validate : Ctx -> string -> ExecutionContext -> Envelope -> World -> option CallError * World;
  downstream : Ctx -> ExecutionContext -> Envelope -> World -> (Outcome Upstream * option CallError) * World;
  close_stream : Upstream -> World -> unit * World;
  save : Ctx -> ExecutionContext -> list byte -> PipelineState -> Deferral -> CompiledRegistration -> World ->
         (string * option CallError) * World;
}.

(** The calls a run makes, in order, with their answers. *)
Inductive Event :=
| ESelect (stage : string) (envelope : Envelope) (chain : list CompiledRegistration)
| ECall (r : CompiledRegistration) (request : InterceptRequest) (answer : result CallError Decision)
| EValidate (stage : string) (envelope : Envelope) (answer : option CallError)
| EDownstream (envelope : Envelope) (answer : Outcome unit * option CallError)
| ESave (state : PipelineState) (r : CompiledRegistration) (answer : string * option CallError).

Section monad.
Context `{Host}.

Definition M (A : Type) : Type := World * list Event -> A * (World * list Event).
Definition ret {A} (a : A) : M A := fun s => (a, s).
Definition mbind {A B} (m : M A) (k : A -> M B) : M B := fun s => let '(a, s') := m s in k a s'.
Definition host {A} (f : World -> A * World) : M A :=
  fun s => let '(a, w) := f s.1 in (a, (w, s.2)).
Definition emit (e : Event) : M unit := fun s => (tt, (s.1, s.2 ++ [e])).
End monad.
End HostWorld.

Notation "'let*' x ':=' m 'in' k" := (HostWorld.mbind m (fun x => k))
  (at level 10, x name, m at level 100, k at level 200) : go_scope.
Notation "'let*' ' p ':=' m 'in' k" := (HostWorld.mbind m (fun p => k))
  (at level 10, p strict pattern, m at level 100, k at level 200) : go_scope.

(** ** Output projections (output_patch.go: applyOutputJSON) *)
Module Output.
Import Wire.Wire Model Patch.Patch.

Definition MaxOutputResponseBytes : Z := 2 ^ 20.

Class OutputJson := {
  marshal_string : string -> option (list byte);
  marshal_operations : list (gmap string (list byte)) -> option (list byte);
}.

Section output.
Context `{JsonDecoder, EnvelopeJson, PatchJson, OutputJson}.

(** The [convert] closure: a pointer below the projection's root, rewritten to
    one below the payload. *)
Definition convert (id root : string) (raw : list byte) : option (list byte) :=
  path ← unmarshal_string raw;
  _ ← require (str_eqb path ("/" ++ root) || has_prefix path ("/" ++ root ++ "/"));
  let rewritten := ("/payload" ++ str_drop (String.length ("/" ++ root)) path)%string in
  _ ← allowedPointer rewritten id;
  marshal_string rewritten.

Definition convert_operation (id root : string) (op : gmap string (list byte)) : option (gmap string (list byte)) :=
  path ← convert id root (default [] (op !! "path"));
  let op := <["path" := path]> op in
  kind ← unmarshal_string (default [] (op !! "op"));
  if two_sided kind then
    from ← convert id root (default [] (op !! "from"));
    Some (<["from" := from]> op)
  else Some op.

Definition set_Payload (e : Envelope) (payload : list byte) : Envelope :=
  mkEnvelope (v_ProtocolVersion e) (v_ID e) (v_Operation e) (v_Principal e) (v_Source e) (v_Target e)
    (v_ExpectedRevision e) (v_CreatedAt e) payload (v_Metadata e) (v_Context e) (v_Trace e) (v_RequiredFeatures e).

Definition applyOutputJSON (envelope : Envelope) (id root : string) (content raw : list byte) (max : Z) :
    result Error (list byte) :=
  of_option (
    _ ← require (negb ((blen content =? 0) || (max <? blen content) || (MaxPatchBytes <? blen raw)));
    ops ← decode_patch raw;
    _ ← require (negb (Nat.eqb (length ops) 0) && (Z.of_nat (length ops) <=? MaxPatchOperations));
    ops ← mapM (convert_operation id root) ops;
    patch ← marshal_operations ops;
    match ApplyPatch (set_Payload envelope content) id patch with
    | Ok result => _ ← require (blen (v_Payload result) <=? max); Some (v_Payload result)
    | Err _ => None
    end)
  (NewError CodeInvalidMutation "Invalid output projection mutation").
End output.
End Output.

(** ** Bounded isolated calls (remote.go) *)
Module Remote.
Import Ref Wire.Wire Model Stream.Stream Manifest Protocol HostWorld.

Definition MaxInterceptBytes : Z := 2 ^ 20.

Fixpoint containsPhase (phases : list string) (phase : string) : bool :=
  match phases with
  | [] => false
  | p :: phases => if str_eqb p phase then true else containsPhase phases phase
  end.

(** encoding/json of requests and decisions. *)
Class InterceptJson := {
  marshal_request : InterceptRequest -> option (list byte);
  decode_request : list byte -> option InterceptRequest;
  marshal_decision : Decision -> option (list byte);
  decode_decision : list byte -> option Decision;
}.

Definition error_types : list TypeDecl :=
  [ (* 11: Error *)
    mkType (KStruct [field "Code" "code" 2; field "Message" "message" 2; field "Effect" "effect" 2]) false false;
    (* 12: *Error *) mkType (KPointer 11%nat) false false ].

Definition request_types : list TypeDecl :=
  envelope_types ++ error_types ++
  [ (* 13: *InterceptRequest *) mkType (KPointer 14%nat) false false;
    (* 14: InterceptRequest *)
    mkType (KStruct
      [field "ProtocolVersion" "protocolVersion" 2; field "InterceptorID" "interceptorId" 2;
       field "Operation" "operation" 2; field "Stage" "stage" 2; field "Phase" "phase" 2;
       field "Envelope" "envelope" 1; field "Content" "content,omitempty" 5;
       field "ContentEncoding" "contentEncoding,omitempty" 2; field "Response" "response,omitempty" 5;
       field "Failure" "failure,omitempty" 12; field "Frame" "frame,omitempty" 15]) false false;
    (* 15: *InvocationFrame *) mkType (KPointer 16%nat) false false;
    (* 16: InvocationFrame *)
    mkType (KStruct
      [field "InvocationID" "invocationId" 2; field "Sequence" "sequence,string" 2; field "Kind" "kind" 2;
       field "ContentType" "contentType,omitempty" 2; field "Data" "data,omitempty" 8;
       field "Error" "error,omitempty" 12]) false false ].

Definition decision_types : list TypeDecl :=
  envelope_types ++ error_types ++
  [ (* 13: *Decision *) mkType (KPointer 14%nat) false false;
    (* 14: Decision *)
    mkType (KStruct
      [field "Action" "action" 2; field "Patch" "patch,omitempty" 5; field "Response" "response,omitempty" 5;
       field "Failure" "failure,omitempty" 12; field "Redirect" "redirect,omitempty" 15;
       field "Deferral" "deferral,omitempty" 17]) false false;
    (* 15, 16: *RedirectTarget *) mkType (KPointer 16%nat) false false;
    mkType (KStruct [field "Ref" "ref" 9; field "ExpectedRevision" "expectedRevision,omitempty" 2]) false false;
    (* 17, 18: *Deferral *) mkType (KPointer 18%nat) false false;
    mkType (KStruct [field "ExpiresAt" "expiresAt" 5; field "ResumePrincipals" "resumePrincipals" 8;
                     field "Durable" "durable" 2]) false false ].

Section remote.
Context `{JsonDecoder, InterceptJson, !Host}.

Definition shape {A} (o : option A) : DecodeOutcome := match o with Some _ => Decoded | None => ShapeMismatch end.
Definition shape_error : Error := protocolError "JSON document does not match the requested shape.".

(** The clone of the request a handler gets. *)
Definition isolate_request (request : InterceptRequest) : result CallError InterceptRequest :=
  match marshal_request request with
  | None => Err (OtherError 0)
  | Some raw =>
      match DecodeJSON request_types raw (Some 13%nat) (fun raw => shape (decode_request raw)) with
      | Err e => Err (FabricError e)
      | Ok _ => of_option (decode_request raw) (FabricError shape_error)
      end
  end.

(** The copy of the decision the engine keeps. *)
Definition own_decision (d : Decision) : result CallError Decision :=
  match marshal_decision d with
  | None => Err (FabricError (NewError CodeProtocolError "Invalid interceptor response"))
  | Some encoded =>
      if MaxInterceptBytes <? blen encoded
      then Err (FabricError (NewError CodeProtocolError "Invalid interceptor response"))
      else match DecodeJSON decision_types encoded (Some 13%nat) (fun raw => shape (decode_decision raw)) with
           | Err e => Err (FabricError e)
           | Ok _ => of_option (decode_decision encoded) (FabricError shape_error)
           end
  end.

Definition is_unavailable (e : CallError) : bool :=
  match e with FabricError e => bool_decide (err_code e = CodeTargetUnavailable) | _ => false end.

Definition classify (e : CallError) : CallError :=
  if is_unavailable e then FabricError (NewError CodeTargetUnavailable "Interceptor unavailable")
  else FabricError (NewError CodeProtocolError "Interceptor failed").

(** The goroutine of a call, up to the answer it sends. *)
Definition run_handler (ctx : Ctx) (millis : Z) (handler : Handler) (isolated : InterceptRequest) :
    M (result CallError Decision) :=
  let* started := host (call_err ctx millis) in
  let* answer := match started with
                 | Some e => ret (Answers no_decision (Some e))
                 | None => host (intercept handler isolated)
                 end in
  let '(decision, err) := match answer with
                          | Panics => (no_decision, Some (FabricError (NewError CodeProtocolError "Interceptor failed")))
                          | Answers d err => (d, err)
                          end in
  match err with
  | Some e =>
      let* ended := host (call_err ctx millis) in
      ret (Err (match ended with None => classify e | Some _ => e end))
  | None => ret (own_decision decision)
  end.

(** Executor.Call. The goroutine is run before the last select; a call whose
    lifetime ends first returns without its answer, and the goroutine's slot is
    then released later than here. *)
Definition Executor_Call (ctx : Ctx) (c : CompiledRegistration) (handler : option Handler) (request : InterceptRequest) :
    M (result CallError Decision) :=
  let r := c_Registration c in
  match handler with
  | None => ret (Err (FabricError invalidRegistration))
  | Some handler =>
      if r_TimeoutMillis r =? 0 then ret (Err (FabricError invalidRegistration))
      else if str_eqb (r_Placement r) PlacementRelay then
        ret (Err (FabricError (NewError CodeUnsupported "Plaintext extension protocol cannot run on relay")))
      else if negb (str_eqb (ir_InterceptorID request) (r_ID r)) ||
              negb (str_eqb (ir_Operation request) (m_Operation (r_Match r))) ||
              negb (str_eqb (ir_Stage request) (m_Stage (r_Match r))) ||
              negb (containsPhase (r_Phases r) (ir_Phase request)) then
        ret (Err (FabricError (NewError CodeProtocolError "Interceptor request does not match registration")))
      else
        let millis := r_TimeoutMillis r in
        let* unacquired := host (acquire ctx millis) in
        match unacquired with
        | Some e => ret (Err e)
        | None =>
            let* ended := host (call_err ctx millis) in
            match ended with
            | Some e => let* _ := host release in ret (Err e)
            | None =>
                match isolate_request request with
                | Err e => let* _ := host release in ret (Err e)
                | Ok isolated =>
                    let* answer := run_handler ctx millis handler isolated in
                    let* _ := host release in
                    let* overdue := host (await ctx millis) in
                    match overdue with
                    | Some e => ret (Err e)
                    | None =>
                        let* ended := host (call_err ctx millis) in
                        match ended with
                        | Some e => ret (Err e)
                        | None => ret answer
                        end
                    end
                end
            end
        end
  end.

(** HandlerRegistry *)
Definition HandlerRegistry := gmap string Handler.
Definition Registry_Set (bindings : HandlerRegistry) (binding : string) (handler : option Handler) :
    result Error HandlerRegistry :=
  match handler with
  | None => Err invalidRegistration
  | Some h => if str_eqb binding "" || (256 <? len binding) then Err invalidRegistration
              else Ok (<[binding := h]> bindings)
  end.
Definition Registry_Resolve (bindings : HandlerRegistry) (binding : string) : result Error Handler :=
  of_option (bindings !! binding) (NewError CodeTargetUnavailable "Extension binding is unavailable").
End remote.
End Remote.

(** ** The engine (engine.go) *)
Module Engine.
Import Ref Wire.Wire Model Stream.Stream Patch.Patch Manifest Protocol HostWorld Output Remote.

(** The JSON array whose digest names a deferral: purpose, principal, audience,
    digest of the original, envelope ID, plan revision, interceptor ID, stage,
    cursor, redirects, entered interceptors. *)
Class EngineJson := {
  frame_deferral : Principal -> string -> string -> string -> string -> string -> string -> Z -> Z -> list string ->
                   list byte;
  marshal_state : PipelineState -> option (list byte);
}.

(** ResumePermit (resume.go), an in-process object consumed under its mutex. *)
Record ResumePermit := mkPermit {
  rp_used : bool; rp_principal : Principal; rp_audience : string; rp_originalDigest : list byte; rp_stateDigest : list byte }.

Section types.
Context `{Host}.

Record EngineConfig := mkEngine {
  e_plan : Plan; e_handlers : gmap string Handler; e_continuations : bool; e_maxRedirects : Z }.

(** interceptedStream (engine_stream.go): the checked endpoint stream with the
    hooks of the interceptors that were entered. [is_closed] is its cancelled
    lifetime together with the once-only close of the checked stream. *)
Record InterceptedStream := mkIntercepted {
  is_envelope : Envelope; is_stage : string; is_stack : list CompiledRegistration;
  is_checked : CheckedStream; is_upstream : Upstream; is_terminal : bool; is_closed : bool }.

(** lifetimeStream: [ls_cancelled] tells that [once] has cancelled the run. *)
Record LifetimeStream := mkLifetime { ls_upstream : InterceptedStream; ls_cancelled : bool }.
End types.

Section engine.
Context `{Sha256, JsonDecoder, EnvelopeJson, PatchJson, OutputJson, InterceptJson, EngineJson, !Host}.

Notation Result := (result CallError (Outcome InterceptedStream)) (only parsing).

(** NewEngine. Go's map enumeration of the chains decides nothing: any missing
    binding is the same error. *)
Definition NewEngine (plan : Plan) (bindings : HandlerRegistry) (continuations : bool) (maxRedirects : Z)
    (options : nat) : result Error EngineConfig :=
  let? _ := guard (negb ((maxRedirects <? 1) || (64 <? maxRedirects))) invalidRegistration in
  let? _ := guard (forallb (fun chain => forallb (fun c => bool_decide (is_Some (bindings !! r_Binding (c_Registration c)))) chain)
                     (map_to_list (p_chains plan)).*2)
              (NewError CodeTargetUnavailable "Extension binding is not installed") in
  let? _ := guard (Nat.leb options 1) invalidRegistration in
  Ok (mkEngine plan bindings continuations maxRedirects).

Context (e : EngineConfig).

Definition request (envelope : Envelope) (stage : string) (c : CompiledRegistration) (phase : string) : InterceptRequest :=
  mkRequest CurrentProtocolVersion (r_ID (c_Registration c)) (v_Operation envelope) stage phase envelope [] "" [] None None.

Definition is_deadline (err : CallError) : bool := match err with ContextError true => true | _ => false end.

(** Engine.call without its log. *)
Definition decide_call (ctx : Ctx) (c : CompiledRegistration) (req : InterceptRequest) (started : bool) :
    M (result CallError Decision) :=
  let* cancelled := host (ctx_err ctx) in
  match cancelled with
  | Some err => ret (Err err)
  | None =>
      let* answer := Executor_Call ctx c (e_handlers e !! r_Binding (c_Registration c)) req in
      let* cancelled := host (ctx_err ctx) in
      match cancelled with
      | Some err => ret (Err err)
      | None =>
          match answer with
          | Err err =>
              if str_eqb (r_FailureMode (c_Registration c)) FailOpen && (is_deadline err || is_unavailable err)
              then ret (Ok continue_decision)
              else if is_deadline err
              then ret (Err (FabricError (NewError CodeInterceptorTimeout "Interceptor timed out")))
              else ret (Err (FabricError (NewError CodeProtocolError "Interceptor failed")))
          | Ok decision =>
              let* now := host clock in
              match ValidateDecision req decision started now with
              | Err err => ret (Err (FabricError err))
              | Ok _ => ret (Ok decision)
              end
          end
      end
  end.

Definition call (ctx : Ctx) (c : CompiledRegistration) (req : InterceptRequest) (started : bool) :
    M (result CallError Decision) :=
  let* answer := decide_call ctx c req started in
  let* _ := emit (ECall c req answer) in
  ret answer.

(** The failure an unwinding interceptor sees. *)
Definition public_failure (failure : CallError) : Error :=
  match failure with FabricError err => err | _ => NewError CodeProtocolError "Downstream failed" end.

Definition unwind_request (envelope : Envelope) (c : CompiledRegistration) (response : list byte)
    (failure : option CallError) : InterceptRequest :=
  let phase := match failure with Some _ => PhaseError | None => PhaseResponse end in
  let r := request envelope (m_Stage (r_Match (c_Registration c))) c phase in
  mkRequest (ir_ProtocolVersion r) (ir_InterceptorID r) (ir_Operation r) (ir_Stage r) phase envelope [] "" response
    (public_failure <$> failure) None.

(** The effect of one answer on the result being unwound. *)
Definition unwind_answer (envelope : Envelope) (c : CompiledRegistration) (answer : result CallError Decision)
    (st : Outcome InterceptedStream * option CallError) : Outcome InterceptedStream * option CallError :=
  let '(outcome, failure) := st in
  match answer with
  | Err err => (no_outcome, Some err)
  | Ok decision =>
      if str_eqb (d_Action decision) Modify then
        match applyOutputJSON envelope (r_ID (c_Registration c)) "response" (oc_Response outcome) (d_Patch decision)
                MaxOutputResponseBytes with
        | Err err => (no_outcome, Some (FabricError err))
        | Ok projected =>
            (mkOutcome projected (oc_Stream outcome) (oc_DeferredID outcome) (oc_DeferredNotificationError outcome), failure)
        end
      else if str_eqb (d_Action decision) Reject then (no_outcome, FabricError <$> d_Failure decision)
      else (outcome, failure)
  end.

(** The unwinding loop over the reversed stack. *)
Fixpoint unwind_loop (ctx : Ctx) (envelope : Envelope) (entered : list CompiledRegistration)
    (outcome : Outcome InterceptedStream) (failure : option CallError) : M (Outcome InterceptedStream * option CallError) :=
  match entered with
  | [] => ret (outcome, failure)
  | c :: entered =>
      let req := unwind_request envelope c (oc_Response outcome) failure in
      if negb (containsPhase (r_Phases (c_Registration c)) (ir_Phase req)) then unwind_loop ctx envelope entered outcome failure
      else
        let* answer := call ctx c req false in
        let '(outcome, failure) := unwind_answer envelope c answer (outcome, failure) in
        unwind_loop ctx envelope entered outcome failure
  end.

Definition unwind (ctx : Ctx) (envelope : Envelope) (stack : list CompiledRegistration)
    (outcome : Outcome InterceptedStream) (failure : option CallError) : M Result :=
  let* cancelled := host (ctx_err ctx) in
  let ctx := match cancelled with Some _ => Cleanup | None => ctx end in
  let* '(outcome, failure) := unwind_loop ctx envelope (rev stack) outcome failure in
  ret (match failure with Some err => Err err | None => Ok outcome end).

Definition selectChain (ctx : Ctx) (caller : ExecutionContext) (state : PipelineState) :
    M (result CallError (list CompiledRegistration)) :=
  let* answer := host (resolver ctx caller (ps_Envelope state) (ps_Stage state) (ps_Placement state)) in
  match answer with
  | Err err => ret (Err err)
  | Ok m =>
      let m := mkMatchContext (v_Operation (ps_Envelope state)) (ps_Stage state) (ps_Placement state) (mc_SourceKind m)
                 (mc_TargetKind m) (mc_TargetProtocol m) (mc_Domain m) (mc_Tags m) (mc_ExecutingInterceptors m) in
      let chain := Select (e_plan e) m in
      let* _ := emit (ESelect (ps_Stage state) (ps_Envelope state) chain) in
      ret (Ok chain)
  end.

Fixpoint resolveEntered (ids : list string) : result CallError (list CompiledRegistration) :=
  match ids with
  | [] => Ok []
  | id :: ids =>
      match p_byID (e_plan e) !! id with
      | None => Err (FabricError (NewError CodeStaleContinuation "Continuation interceptor is unavailable"))
      | Some r => let? rest := resolveEntered ids in Ok (r :: rest)
      end
  end.

Definition registrationIDs (chain : list CompiledRegistration) : list string :=
  (fun c => r_ID (c_Registration c)) <$> chain.

Definition set_Envelope (s : PipelineState) (envelope : Envelope) : PipelineState :=
  mkState (ps_Format s) (ps_PlanRevision s) envelope (ps_Stage s) (ps_Placement s) (ps_Cursor s) (ps_Chain s)
    (ps_Entered s) (ps_Redirects s) (ps_VisitedTargets s) (ps_DeferralID s).

Definition retarget (envelope : Envelope) (t : RedirectTarget) : Envelope :=
  mkEnvelope (v_ProtocolVersion envelope) (v_ID envelope) (v_Operation envelope) (v_Principal envelope) (v_Source envelope)
    (Some (rt_Ref t)) (rt_ExpectedRevision t) (v_CreatedAt envelope) (v_Payload envelope) (v_Metadata envelope)
    (v_Context envelope) (v_Trace envelope) (v_RequiredFeatures envelope).

(** The state after an accepted redirect. *)
Definition redirect_state (s : PipelineState) (t : RedirectTarget) : PipelineState :=
  mkState (ps_Format s) (ps_PlanRevision s) (retarget (ps_Envelope s) t) "invoke.dispatch" (ps_Placement s) 0 (ps_Chain s)
    (ps_Entered s) (ps_Redirects s + 1) (ps_VisitedTargets s ++ [ref_String (rt_Ref t)]) (ps_DeferralID s).

(** The state a deferral persists. *)
Definition defer_state (caller : ExecutionContext) (original : list byte) (s : PipelineState) (index : nat)
    (chain stack : list CompiledRegistration) (c : CompiledRegistration) : PipelineState :=
  let cursor := Z.of_nat index + 1 in
  let framed := frame_deferral (ec_principal caller) (ec_audience caller) (hex_encode (sha256 original))
                  (v_ID (ps_Envelope s)) (ps_PlanRevision s) (r_ID (c_Registration c)) (ps_Stage s) cursor
                  (ps_Redirects s) (registrationIDs stack) in
  mkState (ps_Format s) (ps_PlanRevision s) (ps_Envelope s) (ps_Stage s) (ps_Placement s) cursor (registrationIDs chain)
    (registrationIDs stack) (ps_Redirects s) (ps_VisitedTargets s) (hex_encode (sha256 framed)).

Definition suspend (ctx : Ctx) (caller : ExecutionContext) (original : list byte) (state : PipelineState) (d : Deferral)
    (c : CompiledRegistration) : M Result :=
  let* '(id, err) := host (save ctx caller original state d c) in
  let* _ := emit (ESave state c (id, err)) in
  match err with
  | Some err =>
      if negb (str_eqb id "") then
        ret (Ok (mkOutcome [] None id (Some (NewError CodeTargetUnavailable "Extension notification unavailable"))))
      else ret (Err err)
  | None =>
      if str_eqb id "" then ret (Err (FabricError (NewError CodeProtocolError "Missing durable continuation")))
      else ret (Ok (mkOutcome [] None id None))
  end.

(** How one pass over the chain ends: with the run's result, with a redirect, or
    with all interceptors passed. *)
Inductive Pass :=
| Finished (r : Result)
| Redirected (state : PipelineState) (stack chain : list CompiledRegistration)
| Passed (state : PipelineState) (stack : list CompiledRegistration).

Definition finish (m : M Result) : M Pass := let* r := m in ret (Finished r).

Definition loop_error : Error := NewError CodeRedirectLoop "Redirect limit or cycle".

(** The inner loop from [index], [rest] being the chain from there on. *)
Fixpoint walk (ctx : Ctx) (caller : ExecutionContext) (original : list byte) (chain : list CompiledRegistration)
    (index : nat) (rest : list CompiledRegistration) (state : PipelineState) (stack : list CompiledRegistration) : M Pass :=
  match rest with
  | [] => ret (Passed state stack)
  | c :: rest =>
      let fail err := finish (unwind ctx (ps_Envelope state) stack no_outcome (Some err)) in
      let next state := walk ctx caller original chain (S index) rest state (stack ++ [c]) in
      if negb (containsPhase (r_Phases (c_Registration c)) PhaseRequest) then next state
      else
        let* answer := call ctx c (request (ps_Envelope state) (ps_Stage state) c PhaseRequest) false in
        match answer with
        | Err err => fail err
        | Ok decision =>
            let action := d_Action decision in
            if str_eqb action Continue then next state
            else if str_eqb action Modify then
              match ApplyPatch (ps_Envelope state) (c_ExtensionID c) (d_Patch decision) with
              | Err err => fail (FabricError err)
              | Ok modified => next (set_Envelope state modified)
              end
            else if str_eqb action Reject then
              finish (unwind ctx (ps_Envelope state) stack no_outcome (FabricError <$> d_Failure decision))
            else if str_eqb action Respond then
              finish (unwind ctx (ps_Envelope state) stack (responds (d_Response decision)) None)
            else if str_eqb action Redirect then
              match d_Redirect decision with
              | None => next state (* excluded by ValidateDecision *)
              | Some t =>
                  if (e_maxRedirects e <=? ps_Redirects state) || contains (ps_VisitedTargets state) (ref_String (rt_Ref t))
                  then fail (FabricError loop_error)
                  else
                    let state := redirect_state state t in
                    let stack := stack ++ [c] in
                    let* selected := selectChain ctx caller state in
                    match selected with
                    | Err err => finish (unwind ctx (ps_Envelope state) stack no_outcome (Some err))
                    | Ok chain => ret (Redirected state stack chain)
                    end
              end
            else if str_eqb action Defer then
              if negb (e_continuations e) then fail (FabricError (NewError CodeUnsupported "Continuation store is not configured"))
              else
                let stack := stack ++ [c] in
                match d_Deferral decision with
                | None => next state (* excluded by ValidateDecision *)
                | Some d => finish (suspend ctx caller original (defer_state caller original state index chain stack c) d c)
                end
            else walk ctx caller original chain (S index) rest state stack
        end
  end.

(** After the last pass: final validation, then the endpoint. *)
Definition dispatch (ctx : Ctx) (caller : ExecutionContext) (state : PipelineState) (stack : list CompiledRegistration) : M Result :=
  let envelope := ps_Envelope state in
  let fail err := unwind ctx envelope stack no_outcome (Some err) in
  let* refused := host (validate ctx (ps_Stage state) caller envelope) in
  let* _ := emit (EValidate (ps_Stage state) envelope refused) in
  match refused with
  | Some err => fail err
  | None =>
      let* cancelled := host (ctx_err ctx) in
      match cancelled with
      | Some err => fail err
      | None =>
          let* '(outcome, err) := host (downstream ctx caller envelope) in
          let* _ := emit (EDownstream envelope (observed outcome, err)) in
          match oc_Stream outcome with
          | Some upstream =>
              if bool_decide (is_Some err) || negb (blen (oc_Response outcome) =? 0) || negb (str_eqb (oc_DeferredID outcome) "") then
                let* _ := host (close_stream upstream) in
                fail (FabricError (NewError CodeProtocolError "Contradictory endpoint result"))
              else
                match NewCheckedStream (v_ID envelope) with
                | Err err => let* _ := host (close_stream upstream) in ret (Err (FabricError err))
                | Ok checked =>
                    ret (Ok (mkOutcome [] (Some (mkIntercepted envelope (ps_Stage state) stack checked upstream false false)) "" None))
                end
          | None =>
              unwind ctx envelope stack
                (mkOutcome (oc_Response outcome) None (oc_DeferredID outcome) (oc_DeferredNotificationError outcome)) err
          end
      end
  end.

(** The outer loop; every further pass follows a redirect, of which there are at
    most [maxRedirects]. [None]: the fuel ran out. *)
Fixpoint passes (fuel : nat) (ctx : Ctx) (caller : ExecutionContext) (original : list byte) (state : PipelineState)
    (stack chain : list CompiledRegistration) : M (option Result) :=
  match fuel with
  | O => ret None
  | S fuel =>
      let* cancelled := host (ctx_err ctx) in
      match cancelled with
      | Some err => let* r := unwind ctx (ps_Envelope state) stack no_outcome (Some err) in ret (Some r)
      | None =>
          let cursor := Z.to_nat (ps_Cursor state) in
          let* pass := walk ctx caller original chain cursor (drop cursor chain) state stack in
          match pass with
          | Finished r => ret (Some r)
          | Redirected state stack chain => passes fuel ctx caller original state stack chain
          | Passed state stack => let* r := dispatch ctx caller state stack in ret (Some r)
          end
      end
  end.

Definition passes_fuel (state : PipelineState) : nat := S (Z.to_nat (e_maxRedirects e - ps_Redirects state)).

Definition run (ctx : Ctx) (caller : ExecutionContext) (original : list byte) (state : PipelineState) (resuming : bool) :
    M (option Result) :=
  match resolveEntered (ps_Entered state) with
  | Err err => ret (Some (Err err))
  | Ok stack =>
      let* selected := (if resuming then ret (resolveEntered (ps_Chain state)) else selectChain ctx caller state) in
      match selected with
      | Err err => let* r := unwind ctx (ps_Envelope state) stack no_outcome (Some err) in ret (Some r)
      | Ok chain => passes (passes_fuel state) ctx caller original state stack chain
      end
  end.

Notation StageResult := (result CallError (Outcome LifetimeStream)) (only parsing).

(** A returned stream keeps the run's lifetime. *)
Definition with_lifetime (r : Result) : StageResult :=
  match r with
  | Err err => Err err
  | Ok o => Ok (mkOutcome (oc_Response o) (match oc_Stream o with Some s => Some (mkLifetime s false) | None => None end)
                  (oc_DeferredID o) (oc_DeferredNotificationError o))
  end.

(** The lifetime of a run ends with the envelope's deadline. The cancellation of
    it that follows a result without a stream is not observed by the run. *)
Definition runWithDeadline (caller : ExecutionContext) (original : list byte) (state : PipelineState) (resuming : bool) :
    M (option StageResult) :=
  let* r := run (Lifetime (x_Deadline (v_Context (ps_Envelope state)))) caller original state resuming in
  ret (with_lifetime <$> r).

Definition pipeline_format : string := "pagnet.pipeline.v1".

Definition ExecuteStage (caller : ExecutionContext) (original : list byte) (audience stage placement : string) :
    M (option StageResult) :=
  if negb (ValidNamespacedName stage) || str_eqb placement PlacementRelay then
    ret (Some (Err (FabricError (NewError CodeInvalidInput "Invalid plaintext execution stage"))))
  else
    match DecodeVerifiedEnvelope caller original audience with
    | Err err => ret (Some (Err (FabricError err)))
    | Ok envelope =>
        if negb (has_prefix stage (v_Operation envelope ++ ".")) then
          ret (Some (Err (FabricError (NewError CodeInvalidInput "Stage does not belong to authenticated operation"))))
        else if negb (str_eqb placement PlacementSource) && negb (str_eqb placement PlacementDestination) then
          ret (Some (Err (FabricError invalidRegistration)))
        else
          let visited := match v_Target envelope with Some t => [ref_String t] | None => [] end in
          runWithDeadline caller original
            (mkState pipeline_format (p_revision (e_plan e)) envelope stage placement 0 [] [] 0 visited "") false
    end.

Definition ExecuteReadProjection (caller : ExecutionContext) (original : list byte) (audience stage placement : string)
    (payload : list byte) : M (option StageResult) :=
  if negb (ValidNamespacedName stage) ||
     negb (str_eqb placement PlacementSource) && negb (str_eqb placement PlacementDestination) then
    ret (Some (Err (FabricError (NewError CodeInvalidInput "Invalid read projection stage"))))
  else
    match DecodeVerifiedEnvelope caller original audience with
    | Err err => ret (Some (Err (FabricError err)))
    | Ok envelope =>
        if negb (str_eqb (v_Operation envelope) OperationDiscover) && negb (str_eqb (v_Operation envelope) OperationDescribe) ||
           negb (has_prefix stage (v_Operation envelope ++ ".")) then
          ret (Some (Err (FabricError (NewError CodeUnsupported "Projection cannot execute or change an operation"))))
        else
          let envelope := set_Payload envelope payload in
          match Envelope_Validate envelope with
          | Err err => ret (Some (Err (FabricError err)))
          | Ok _ =>
              runWithDeadline caller original
                (mkState pipeline_format (p_revision (e_plan e)) envelope stage placement 0 [] [] 0 [] "") false
          end
    end.

(** ** Resuming (resume.go, Engine.ResumeStage) *)
(** The fields a continuation must not have changed. *)
Definition immutable_part (v : Envelope) : Envelope :=
  mkEnvelope (v_ProtocolVersion v) (v_ID v) (v_Operation v) (v_Principal v) (v_Source v) None "" (v_CreatedAt v) [] ∅
    (v_Context v) (v_Trace v) (v_RequiredFeatures v).

Definition NewVerifiedResumePermit (caller : ExecutionContext) (original : list byte) (state : PipelineState) :
    result CallError ResumePermit :=
  match DecodeVerifiedEnvelope caller original (ec_audience caller) with
  | Err err => Err (FabricError err)
  | Ok envelope =>
      if negb (bool_decide (immutable_part envelope = immutable_part (ps_Envelope state))) then
        Err (FabricError (NewError CodeInvalidMutation "Continuation changed immutable fields"))
      else match marshal_state state with
           | None => Err (OtherError 0)
           | Some raw => Ok (mkPermit false (ec_principal caller) (ec_audience caller) (sha256 original) (sha256 raw))
           end
  end.

Definition consume (permit : option ResumePermit) (caller : ExecutionContext) (original : list byte) (state : PipelineState) :
    result CallError unit * option ResumePermit :=
  match permit with
  | None => (Err (FabricError (NewError CodeUnauthenticated "Fresh continuation claim is required")), None)
  | Some p =>
      match marshal_state state with
      | None => (Err (OtherError 0), permit)
      | Some raw =>
          if rp_used p || negb (bool_decide (rp_principal p = ec_principal caller)) ||
             negb (str_eqb (rp_audience p) (ec_audience caller)) ||
             negb (bool_decide (rp_originalDigest p = sha256 original)) || negb (bool_decide (rp_stateDigest p = sha256 raw))
          then (Err (FabricError (NewError CodeStaleContinuation "Continuation claim is stale or mismatched")), permit)
          else (Ok tt, Some (mkPermit true (rp_principal p) (rp_audience p) (rp_originalDigest p) (rp_stateDigest p)))
      end
  end.

Definition stale_pipeline (state : PipelineState) : bool :=
  negb (str_eqb (ps_Format state) pipeline_format) || negb (str_eqb (ps_PlanRevision state) (p_revision (e_plan e))) ||
  str_eqb (ps_DeferralID state) "" || (ps_Cursor state <? 0) || (Z.of_nat (length (ps_Chain state)) <? ps_Cursor state) ||
  (4096 <? Z.of_nat (length (ps_Entered state))) || (65 <? Z.of_nat (length (ps_VisitedTargets state))) ||
  (e_maxRedirects e <? ps_Redirects state).

Definition ResumeStage (permit : option ResumePermit) (caller : ExecutionContext) (original : list byte)
    (state : PipelineState) : M (option StageResult * option ResumePermit) :=
  if stale_pipeline state then
    ret (Some (Err (FabricError (NewError CodeStaleContinuation "Continuation pipeline is stale"))), permit)
  else
    match DecodeVerifiedEnvelope caller original (ec_audience caller) with
    | Err err => ret (Some (Err (FabricError err)), permit)
    | Ok _ =>
        if negb (is_ok (Envelope_Validate (ps_Envelope state))) then
          ret (Some (Err (FabricError (NewError CodeProtocolError "Invalid continuation envelope"))), permit)
        else
          match consume permit caller original state with
          | (Err err, permit) => ret (Some (Err err), permit)
          | (Ok _, permit) =>
              let* r := runWithDeadline caller original state true in
              ret (r, permit)
          end
    end.
End engine.
End Engine.
