(* ===== verification/EngineProps.v ===== *)
(** * The extension engine: specification and proofs

    [Pipeline] is what the engine promises: a transition system whose labels are
    the calls of a run. Every run of the engine, in every world, is a run of this
    system ([run_refines]); the theorems on the engine follow by induction on its
    transitions. *)
From Stdlib Require Import Ascii Strings.Byte ZArith Lia.
From S2P Require Import Prelude GoStrings FabricRef Framing Wire FabricModel Stream Patch Manifest ManifestProps Engine.
#[local] Open Scope Z_scope.
#[local] Arguments str_eqb _ _ : simpl never.
#[local] Arguments String.eqb _ _ : simpl never.

(** ** The promised behaviour of one invocation *)
Module Pipeline.
Import Ref Wire.Wire Model Stream.Stream Patch.Patch Manifest Protocol HostWorld Output Remote Engine.Engine.

Definition asks (c : CompiledRegistration) : bool := containsPhase (r_Phases (c_Registration c)) PhaseRequest.
Definition ask (st : PipelineState) (c : CompiledRegistration) : InterceptRequest :=
  request (ps_Envelope st) (ps_Stage st) c PhaseRequest.
Definition unwind_phase (failure : option CallError) : string :=
  match failure with Some _ => PhaseError | None => PhaseResponse end.

(** The states of one invocation: interceptors still to be asked, everything asked
    and validated, the endpoint's answer, interceptors to be unwound with the outcome
    and failure so far, and the result. *)
Inductive Config `{Host} :=
| Asking (rest entered : list CompiledRegistration) (st : PipelineState)
| Checked (entered : list CompiledRegistration) (st : PipelineState)
| Executed (entered : list CompiledRegistration) (st : PipelineState) (answer : Outcome unit * option CallError)
| Unwinding (envelope : Envelope) (todo : list CompiledRegistration) (outcome : Outcome InterceptedStream)
    (failure : option CallError)
| Done (r : result CallError (Outcome InterceptedStream)).

Section step.
Context `{JsonDecoder, EnvelopeJson, PatchJson, OutputJson, !Host}.
Context (plan : Plan) (maxRedirects : Z) (continuations : bool).

(** Interceptors the plan resolves by their ID, and plans that resolve all of theirs. *)
Definition known (c : CompiledRegistration) : Prop := p_byID plan !! r_ID (c_Registration c) = Some c.
Definition plan_ok : Prop :=
  (forall id c, p_byID plan !! id = Some c -> r_ID (c_Registration c) = id) /\
  (forall key chain, p_chains plan !! key = Some chain -> Forall known chain).

(** The chain selected for a state: interceptors of its operation, stage and
    placement, for some match context. *)
Definition selected (st : PipelineState) (chain : list CompiledRegistration) : Prop :=
  exists m, chain = Select plan m /\ mc_Operation m = v_Operation (ps_Envelope st) /\ mc_Stage m = ps_Stage st /\
    mc_Placement m = ps_Placement st.

(** Errors of an ended context, and of a resolver. *)
Definition ended (err : CallError) : Prop := exists ctx w w', ctx_err ctx w = (Some err, w').
Definition unresolved (st : PipelineState) (err : CallError) : Prop :=
  exists ctx caller w w', resolver ctx caller (ps_Envelope st) (ps_Stage st) (ps_Placement st) w = (Err err, w').

(** Why an answer to a request-phase call stops the invocation, and with which
    outcome and failure. *)
Inductive stops (st : PipelineState) (c : CompiledRegistration) :
    result CallError Decision -> Outcome InterceptedStream -> option CallError -> Prop :=
| StopError err : stops st c (Err err) no_outcome (Some err)
| StopReject d f : d_Action d = Reject -> d_Failure d = Some f -> stops st c (Ok d) no_outcome (Some (FabricError f))
| StopRespond d : d_Action d = Respond -> stops st c (Ok d) (responds (d_Response d)) None
| StopModify d err : d_Action d = Modify -> ApplyPatch (ps_Envelope st) (c_ExtensionID c) (d_Patch d) = Err err ->
    stops st c (Ok d) no_outcome (Some (FabricError err))
| StopRedirect d t : d_Action d = Redirect -> d_Redirect d = Some t ->
    maxRedirects <= ps_Redirects st \/ ref_String (rt_Ref t) ∈ ps_VisitedTargets st ->
    stops st c (Ok d) no_outcome (Some (FabricError (NewError CodeRedirectLoop "Redirect limit or cycle")))
| StopDefer d : d_Action d = Defer -> ~ Is_true continuations ->
    stops st c (Ok d) no_outcome (Some (FabricError (NewError CodeUnsupported "Continuation store is not configured"))).

(** The state saved when [c] defers: that of the invocation, the names of the
    interceptors entered, and a chain and cursor with [rest] still to come. *)
Definition suspended (c : CompiledRegistration) (rest entered : list CompiledRegistration) (st saved : PipelineState) : Prop :=
  exists chain, ps_Chain saved = registrationIDs chain /\ ps_Entered saved = registrationIDs (entered ++ [c]) /\
    0 <= ps_Cursor saved <= Z.of_nat (length chain) /\ drop (Z.to_nat (ps_Cursor saved)) chain = rest /\
    (plan_ok -> Forall known chain) /\
    ps_Format saved = ps_Format st /\ ps_PlanRevision saved = ps_PlanRevision st /\ ps_Envelope saved = ps_Envelope st /\
    ps_Stage saved = ps_Stage st /\ ps_Placement saved = ps_Placement st /\ ps_Redirects saved = ps_Redirects st /\
    ps_VisitedTargets saved = ps_VisitedTargets st.

(** What the caller gets for the recorder's answer: the continuation it names, with
    a notice when its notification failed, or the failure. *)
Inductive deferred : string * option CallError -> result CallError (Outcome InterceptedStream) -> Prop :=
| Deferred id : id <> "" -> deferred (id, None) (Ok (mkOutcome [] None id None))
| DeferredSilently id err : id <> "" ->
    deferred (id, Some err)
      (Ok (mkOutcome [] None id (Some (NewError CodeTargetUnavailable "Extension notification unavailable"))))
| NotDeferred err : deferred ("", Some err) (Err err)
| NoContinuation : deferred ("", None) (Err (FabricError (NewError CodeProtocolError "Missing durable continuation"))).

(** The effect of an unwinding interceptor's answer on the outcome and the failure:
    an error or a rejection replaces both, a modification projects the response, any
    other decision leaves them. *)
Inductive unwound (envelope : Envelope) (c : CompiledRegistration) (outcome : Outcome InterceptedStream)
    (failure : option CallError) : result CallError Decision -> Outcome InterceptedStream -> option CallError -> Prop :=
| UnwoundError err : unwound envelope c outcome failure (Err err) no_outcome (Some err)
| UnwoundReject d f : d_Action d = Reject -> d_Failure d = Some f ->
    unwound envelope c outcome failure (Ok d) no_outcome (Some (FabricError f))
| UnwoundModify d response : d_Action d = Modify ->
    applyOutputJSON envelope (r_ID (c_Registration c)) "response" (oc_Response outcome) (d_Patch d) MaxOutputResponseBytes =
      Ok response ->
    unwound envelope c outcome failure (Ok d)
      (mkOutcome response (oc_Stream outcome) (oc_DeferredID outcome) (oc_DeferredNotificationError outcome)) failure
| UnwoundRefused d err : d_Action d = Modify ->
    applyOutputJSON envelope (r_ID (c_Registration c)) "response" (oc_Response outcome) (d_Patch d) MaxOutputResponseBytes =
      Err err ->
    unwound envelope c outcome failure (Ok d) no_outcome (Some (FabricError err))
| UnwoundKept d : d_Action d ∉ [Reject; Modify] -> unwound envelope c outcome failure (Ok d) outcome failure.

Inductive step : Config -> list Event -> Config -> Prop :=
| StepEnter c rest entered st :
    asks c = false ->
    step (Asking (c :: rest) entered st) [] (Asking rest (entered ++ [c]) st)
| StepContinue c rest entered st d :
    asks c = true -> d_Action d = Continue ->
    step (Asking (c :: rest) entered st) [ECall c (ask st c) (Ok d)] (Asking rest (entered ++ [c]) st)
| StepModify c rest entered st d envelope :
    asks c = true -> d_Action d = Modify ->
    ApplyPatch (ps_Envelope st) (c_ExtensionID c) (d_Patch d) = Ok envelope ->
    step (Asking (c :: rest) entered st) [ECall c (ask st c) (Ok d)] (Asking rest (entered ++ [c]) (set_Envelope st envelope))
| StepRedirect c rest entered st d t chain :
    asks c = true -> d_Action d = Redirect -> d_Redirect d = Some t ->
    v_Operation (ps_Envelope st) = OperationInvoke -> is_ok (ParseEndpointRef (ref_String (rt_Ref t))) = true ->
    ps_Redirects st < maxRedirects -> ref_String (rt_Ref t) ∉ ps_VisitedTargets st ->
    selected (redirect_state st t) chain ->
    step (Asking (c :: rest) entered st)
      [ECall c (ask st c) (Ok d); ESelect (ps_Stage (redirect_state st t)) (ps_Envelope (redirect_state st t)) chain]
      (Asking chain (entered ++ [c]) (redirect_state st t))
| StepUnresolved c rest entered st d t err :
    asks c = true -> d_Action d = Redirect -> d_Redirect d = Some t -> unresolved (redirect_state st t) err ->
    step (Asking (c :: rest) entered st) [ECall c (ask st c) (Ok d)]
      (Unwinding (ps_Envelope (redirect_state st t)) (rev (entered ++ [c])) no_outcome (Some err))
| StepSuspend c rest entered st d saved answer r :
    asks c = true -> d_Action d = Defer -> Is_true continuations -> suspended c rest entered st saved -> deferred answer r ->
    step (Asking (c :: rest) entered st) [ECall c (ask st c) (Ok d); ESave saved c answer] (Done r)
| StepStop c rest entered st answer outcome failure :
    asks c = true -> stops st c answer outcome failure ->
    step (Asking (c :: rest) entered st) [ECall c (ask st c) answer]
      (Unwinding (ps_Envelope st) (rev entered) outcome failure)
| StepCancelled rest entered st err : ended err ->
    step (Asking rest entered st) [] (Unwinding (ps_Envelope st) (rev entered) no_outcome (Some err))
| StepValid entered st :
    step (Asking [] entered st) [EValidate (ps_Stage st) (ps_Envelope st) None] (Checked entered st)
| StepInvalid entered st err :
    step (Asking [] entered st) [EValidate (ps_Stage st) (ps_Envelope st) (Some err)]
      (Unwinding (ps_Envelope st) (rev entered) no_outcome (Some err))
| StepLate entered st err : ended err ->
    step (Checked entered st) [] (Unwinding (ps_Envelope st) (rev entered) no_outcome (Some err))
| StepExecute entered st answer :
    step (Checked entered st) [EDownstream (ps_Envelope st) answer] (Executed entered st answer)
| StepResult entered st outcome err : oc_Stream outcome = None ->
    step (Executed entered st (outcome, err)) []
      (Unwinding (ps_Envelope st) (rev entered)
         (mkOutcome (oc_Response outcome) None (oc_DeferredID outcome) (oc_DeferredNotificationError outcome)) err)
| StepContradiction entered st outcome err : is_Some (oc_Stream outcome) ->
    is_Some err \/ oc_Response outcome <> [] \/ oc_DeferredID outcome <> "" ->
    step (Executed entered st (outcome, err)) []
      (Unwinding (ps_Envelope st) (rev entered) no_outcome
         (Some (FabricError (NewError CodeProtocolError "Contradictory endpoint result"))))
| StepStream entered st outcome checked upstream : is_Some (oc_Stream outcome) ->
    oc_Response outcome = [] -> oc_DeferredID outcome = "" -> NewCheckedStream (v_ID (ps_Envelope st)) = Ok checked ->
    step (Executed entered st (outcome, None)) []
      (Done (Ok (mkOutcome [] (Some (mkIntercepted (ps_Envelope st) (ps_Stage st) entered checked upstream false false)) "" None)))
| StepNoStream entered st outcome err : is_Some (oc_Stream outcome) ->
    oc_Response outcome = [] -> oc_DeferredID outcome = "" -> NewCheckedStream (v_ID (ps_Envelope st)) = Err err ->
    step (Executed entered st (outcome, None)) [] (Done (Err (FabricError err)))
| StepSkip envelope c todo outcome failure :
    containsPhase (r_Phases (c_Registration c)) (unwind_phase failure) = false ->
    step (Unwinding envelope (c :: todo) outcome failure) [] (Unwinding envelope todo outcome failure)
| StepUnwind envelope c todo outcome failure req answer outcome' failure' :
    containsPhase (r_Phases (c_Registration c)) (unwind_phase failure) = true ->
    ir_Phase req = unwind_phase failure -> ir_Stage req = m_Stage (r_Match (c_Registration c)) -> ir_Envelope req = envelope ->
    ir_Response req = oc_Response outcome -> ir_Failure req = public_failure <$> failure ->
    unwound envelope c outcome failure answer outcome' failure' ->
    step (Unwinding envelope (c :: todo) outcome failure) [ECall c req answer] (Unwinding envelope todo outcome' failure')
| StepDone envelope outcome failure :
    step (Unwinding envelope [] outcome failure) [] (Done (match failure with Some err => Err err | None => Ok outcome end)).

Inductive traces : Config -> list Event -> Config -> Prop :=
| traces_refl cfg : traces cfg [] cfg
| traces_step cfg l cfg' l' cfg'' : step cfg l cfg' -> traces cfg' l' cfg'' -> traces cfg (l ++ l') cfg''.

Lemma select_known st chain : plan_ok -> selected st chain -> Forall known chain.
Proof.
  intros [_ Hok] (m & -> & _). unfold Select. destruct (p_chains _ !! _) as [l|] eqn:E; [|constructor].
  simpl. apply Hok in E. rewrite Forall_forall in E |- *. intros c Hc%list_elem_of_In. apply filter_In in Hc as [Hc _].
  by apply E, list_elem_of_In.
Qed.

Lemma traces_one cfg l cfg' : step cfg l cfg' -> traces cfg l cfg'.
Proof. intros Hs. rewrite <- (app_nil_r l). eapply traces_step; [done|constructor]. Qed.

Lemma traces_app cfg l cfg' l' cfg'' : traces cfg l cfg' -> traces cfg' l' cfg'' -> traces cfg (l ++ l') cfg''.
Proof.
  induction 1 as [|? ? ? ? ? Hs Ht IH]; [done|]. intros Hl. rewrite <- app_assoc. eapply traces_step; [done|]. by apply IH.
Qed.
End step.
End Pipeline.

(** ** Logs of computations *)
Module EngineLog.
Import HostWorld.
Section emits.
Context `{Host}.

(** Every run of [m] extends the log by events that satisfy [P] with its result. *)
Definition emits {A} (m : M A) (P : A -> list Event -> Prop) : Prop :=
  forall w log, exists w' evs, m (w, log) = ((m (w, log)).1, (w', log ++ evs)) /\ P (m (w, log)).1 evs.

Lemma emits_ret {A} (a : A) P : P a [] -> emits (ret a) P.
Proof. intros HP w log. exists w, []. simpl. by rewrite app_nil_r. Qed.

Lemma emits_host {A} (f : World -> A * World) P : (forall a, P a []) -> emits (host f) P.
Proof. intros HP w log. unfold host. simpl. destruct (f w) as [a w'] eqn:E. exists w', []. simpl. rewrite app_nil_r. done. Qed.

Lemma emits_emit ev P : P tt [ev] -> emits (emit ev) P.
Proof. intros HP w log. exists w, [ev]. done. Qed.

Lemma emits_bind {A B} (m : M A) (k : A -> M B) P Q : emits m P ->
  (forall a e1, P a e1 -> emits (k a) (fun b e2 => Q b (e1 ++ e2))) -> emits (HostWorld.mbind m k) Q.
Proof.
  intros Hm Hk w log. destruct (Hm w log) as (w' & e1 & E & HP). unfold HostWorld.mbind.
  destruct (m (w, log)) as [a s] eqn:Em. simpl in *. injection E as ->.
  destruct (Hk a e1 HP w' (log ++ e1)) as (w'' & e2 & E2 & HQ). exists w'', (e1 ++ e2). by rewrite app_assoc.
Qed.

Lemma emits_impl {A} (m : M A) P Q : emits m P -> (forall a evs, P a evs -> Q a evs) -> emits m Q.
Proof. intros Hm HI w log. destruct (Hm w log) as (w' & evs & E & HP). exists w', evs. auto. Qed.

(** A host operation followed by a continuation. *)
Lemma emits_host_bind {A B} (f : World -> A * World) (k : A -> M B) Q :
  (forall a, emits (k a) Q) -> emits (HostWorld.mbind (host f) k) Q.
Proof.
  intros Hk. eapply (emits_bind _ _ (fun _ evs => evs = [])); [by apply emits_host|]. intros a e1 ->. apply Hk.
Qed.

(** The same, for an answer the host operation can give. *)
Lemma emits_answer_bind {A B} (f : World -> A * World) (k : A -> M B) Q :
  (forall a, (exists w w', f w = (a, w')) -> emits (k a) Q) -> emits (HostWorld.mbind (host f) k) Q.
Proof.
  intros Hk. eapply (emits_bind _ _ (fun a evs => evs = [] /\ exists w w', f w = (a, w'))).
  - intros w log. unfold host. simpl. destruct (f w) as [a w'] eqn:E. exists w', []. simpl. rewrite app_nil_r. eauto 6.
  - intros a e1 [-> Ha]. by apply Hk.
Qed.

Lemma emits_emit_bind {B} ev (k : unit -> M B) Q :
  emits (k tt) (fun b evs => Q b (ev :: evs)) -> emits (HostWorld.mbind (emit ev) k) Q.
Proof.
  intros Hk. eapply (emits_bind _ _ (fun _ evs => evs = [ev])); [by apply emits_emit|]. by intros [] e1 ->.
Qed.
End emits.
End EngineLog.

(** ** The engine refines the pipeline *)
Module EngineRefine.
Import Ref Wire.Wire Model Stream.Stream Patch.Patch Manifest Protocol HostWorld Output Remote Engine.Engine Pipeline EngineLog.

(** Opens host operations and case distinctions of a computation that logs nothing. *)
Ltac quiet :=
  repeat match goal with
  | |- emits (HostWorld.mbind (host _) _) _ => apply emits_host_bind; intros
  | |- emits (host _) _ => apply emits_host; intros
  | |- emits (ret _) _ => apply emits_ret
  | |- emits (match ?x with _ => _ end) _ => destruct x eqn:?
  | |- emits (if ?x then _ else _) _ => destruct x eqn:?
  | |- emits (let '(_, _) := ?x in _) _ => destruct x eqn:?
  end.

Section refine.
Context `{Sha256, JsonDecoder, EnvelopeJson, PatchJson, OutputJson, InterceptJson, EngineJson, !Host}.
Context (e : EngineConfig).
Implicit Types (c : CompiledRegistration) (ctx : Ctx).

Lemma run_handler_silent ctx millis handler isolated : emits (run_handler ctx millis handler isolated) (fun _ evs => evs = []).
Proof.
  unfold run_handler. apply emits_host_bind. intros started.
  eapply (emits_bind _ _ (fun _ evs => evs = [])); [by quiet|]. intros answer e1 ->. by quiet.
Qed.

Lemma executor_silent ctx c handler req : emits (Executor_Call ctx c handler req) (fun _ evs => evs = []).
Proof.
  unfold Executor_Call. quiet; try done.
  eapply emits_bind; [apply run_handler_silent|]. intros ? ? ->. by quiet.
Qed.

(** A decision the engine accepts has been validated. *)
Definition accepted (req : InterceptRequest) (started : bool) (answer : result CallError Decision) : Prop :=
  forall d, answer = Ok d -> exists now, ValidateDecision req d started now = Ok tt.

Lemma continue_accepted req started now : ValidateDecision req continue_decision started now = Ok tt.
Proof. reflexivity. Qed.

Lemma decide_call_spec ctx c req started :
  emits (decide_call e ctx c req started) (fun a evs => evs = [] /\ accepted req started a).
Proof.
  unfold decide_call, accepted. apply emits_host_bind. intros cancelled. quiet; [by split|].
  eapply emits_bind; [apply executor_silent|]. intros ? ? ->. quiet; (split; [done|]); intros d; try done.
  - intros [= <-]. match goal with Hv : ValidateDecision _ _ _ ?now = Ok ?u |- _ => exists now; by destruct u end.
  - intros [= <-]. exists 0. apply continue_accepted.
Qed.

Lemma call_spec ctx c req started :
  emits (call e ctx c req started) (fun a evs => evs = [ECall c req a] /\ accepted req started a).
Proof.
  unfold call. eapply emits_bind; [apply decide_call_spec|]. intros answer e1 [-> Ha].
  by apply emits_emit_bind, emits_ret.
Qed.

Notation traces := (traces (e_plan e) (e_maxRedirects e) (e_continuations e)).
Notation step := (step (e_plan e) (e_maxRedirects e) (e_continuations e)).

Lemma accepted_reject req d started : accepted req started (Ok d) -> d_Action d = Reject -> is_Some (d_Failure d).
Proof.
  intros Ha Hact. destruct (Ha d eq_refl) as [now Hv]. unfold ValidateDecision in Hv. rewrite Hact in Hv.
  change (validate_reject d = Ok tt) in Hv. unfold validate_reject in Hv. by destruct (d_Failure d).
Qed.

Lemma unwind_phase_spec envelope c response failure :
  ir_Phase (unwind_request envelope c response failure) = unwind_phase failure.
Proof. by destruct failure. Qed.

(** The engine's unwinding has the promised effect. *)
Lemma unwind_answer_spec envelope c req answer outcome failure outcome' failure' :
  accepted req false answer -> unwind_answer envelope c answer (outcome, failure) = (outcome', failure') ->
  unwound envelope c outcome failure answer outcome' failure'.
Proof.
  intros Ha Hu. destruct answer as [d|err]; simpl in Hu; [|simplify_eq; constructor].
  destruct (str_eqb (d_Action d) Modify) eqn:Em.
  { apply str_eqb_eq in Em. destruct (applyOutputJSON _ _ _ _ _ _) eqn:Ea; simplify_eq; [by apply UnwoundModify|by apply UnwoundRefused]. }
  destruct (str_eqb (d_Action d) Reject) eqn:Er.
  { apply str_eqb_eq in Er. destruct (accepted_reject _ _ _ Ha Er) as [f Hf]. rewrite Hf in Hu. simplify_eq. by apply UnwoundReject. }
  apply str_eqb_neq in Em, Er. simplify_eq. apply UnwoundKept. set_solver.
Qed.

Lemma unwind_loop_spec ctx envelope entered outcome failure :
  emits (unwind_loop e ctx envelope entered outcome failure)
    (fun r evs => traces (Unwinding envelope entered outcome failure) evs
                    (Done (match r.2 with Some err => Err err | None => Ok r.1 end))).
Proof.
  revert outcome failure. induction entered as [|c entered IH]; intros outcome failure; cbn [unwind_loop].
  { apply emits_ret, traces_one, StepDone. }
  rewrite unwind_phase_spec. destruct (containsPhase _ _) eqn:Hc; cbn [negb].
  - eapply emits_bind; [apply call_spec|]. intros a e1 [-> Ha].
    destruct (unwind_answer envelope c a (outcome, failure)) as [outcome' failure'] eqn:Hu.
    eapply emits_impl; [apply IH|]. intros r evs Ht. eapply traces_step; [|exact Ht].
    apply StepUnwind; [done|apply unwind_phase_spec|done..|]. by eapply unwind_answer_spec.
  - eapply emits_impl; [apply IH|]. intros r evs Ht. eapply (traces_step _ _ _ _ []); [|exact Ht]. by apply StepSkip.
Qed.

Lemma unwind_spec ctx envelope stack outcome failure :
  emits (unwind e ctx envelope stack outcome failure)
    (fun r evs => traces (Unwinding envelope (rev stack) outcome failure) evs (Done r)).
Proof.
  unfold unwind. apply emits_host_bind. intros cancelled. eapply emits_bind; [apply unwind_loop_spec|].
  intros [outcome' failure'] e1 Ht. apply emits_ret. by rewrite app_nil_r.
Qed.

Lemma selectChain_spec ctx caller state :
  emits (selectChain e ctx caller state)
    (fun r evs => match r with
                  | Ok chain => evs = [ESelect (ps_Stage state) (ps_Envelope state) chain] /\ selected (e_plan e) state chain
                  | Err err => evs = [] /\ unresolved state err
                  end).
Proof.
  unfold selectChain. apply emits_answer_bind. intros [m|err] (w & w' & E); [|by apply emits_ret; split; [|exists ctx, caller, w, w']].
  apply emits_emit_bind, emits_ret.
  split; [done|]. by eexists.
Qed.

(** Decisions the engine accepts, by action. *)
Lemma accepted_redirect req d started : accepted req started (Ok d) -> d_Action d = Redirect ->
  ir_Operation req = OperationInvoke /\
  exists t, d_Redirect d = Some t /\ is_ok (ParseEndpointRef (ref_String (rt_Ref t))) = true.
Proof.
  intros Ha Hact. destruct (Ha d eq_refl) as [now Hv]. unfold ValidateDecision in Hv. rewrite Hact in Hv.
  change (validate_redirect req d started = Ok tt) in Hv. unfold validate_redirect in Hv. rinv.
  destruct (d_Redirect d) as [t|]; [|done]. rinv. split; [by apply str_eqb_eq|eauto].
Qed.

Lemma accepted_defer req d started : accepted req started (Ok d) -> d_Action d = Defer ->
  ir_Operation req = OperationInvoke /\ is_Some (d_Deferral d).
Proof.
  intros Ha Hact. destruct (Ha d eq_refl) as [now Hv]. unfold ValidateDecision in Hv. rewrite Hact in Hv.
  change (validate_defer req d started now = Ok tt) in Hv. unfold validate_defer in Hv. rinv.
  destruct (d_Deferral d); [|done]. split; [by apply str_eqb_eq|done].
Qed.

Lemma accepted_action req d started : accepted req started (Ok d) ->
  d_Action d ∈ [Continue; Modify; Reject; Respond; Redirect; Defer].
Proof.
  intros Ha. destruct (Ha d eq_refl) as [now Hv]. unfold ValidateDecision in Hv.
  repeat match type of Hv with (if str_eqb ?a ?b then _ else _) = _ =>
    destruct (str_eqb a b) eqn:?; [match goal with E : str_eqb a b = true |- _ => apply str_eqb_eq in E; rewrite E; set_solver end|] end.
  done.
Qed.

(** What a pass over the rest of a chain leaves behind. *)
Definition pass_traces (rest entered : list CompiledRegistration) (st : PipelineState) (pass : Pass) (evs : list Event) : Prop :=
  match pass with
  | Finished r => traces (Asking rest entered st) evs (Done r)
  | Redirected st' entered' chain => traces (Asking rest entered st) evs (Asking chain entered' st') /\
      ps_Redirects st' = ps_Redirects st + 1 /\ ps_Redirects st < e_maxRedirects e /\ ps_Cursor st' = 0 /\
      selected (e_plan e) st' chain
  | Passed st' entered' => traces (Asking rest entered st) evs (Asking [] entered' st')
  end.

(** Prepending a step to a pass. *)
Lemma pass_step c rest entered st l entered' st' pass evs :
  step (Asking (c :: rest) entered st) l (Asking rest entered' st') -> ps_Redirects st' = ps_Redirects st ->
  pass_traces rest entered' st' pass evs -> pass_traces (c :: rest) entered st pass (l ++ evs).
Proof.
  intros Hs Hr. destruct pass; simpl.
  - intros Ht. by eapply traces_step.
  - rewrite Hr. intros (Ht & Hrest). split; [by eapply traces_step|done].
  - intros Ht. by eapply traces_step.
Qed.

(** Ending a pass by unwinding. *)
Lemma finish_unwind rest entered st l ctx envelope stack outcome failure :
  step (Asking rest entered st) l (Unwinding envelope (rev stack) outcome failure) ->
  emits (finish (unwind e ctx envelope stack outcome failure)) (fun pass evs => pass_traces rest entered st pass (l ++ evs)).
Proof.
  intros Hs. unfold finish. eapply emits_bind; [apply unwind_spec|]. intros r e1 Ht. apply emits_ret. simpl.
  rewrite app_nil_r. by eapply traces_step.
Qed.

Lemma suspend_spec ctx caller original saved f c :
  emits (suspend ctx caller original saved f c) (fun r evs => exists answer, evs = [ESave saved c answer] /\ deferred answer r).
Proof.
  unfold suspend. apply emits_host_bind. intros [id err]. apply emits_emit_bind.
  destruct err as [err|], (str_eqb id "") eqn:Eid; cbn [negb]; apply emits_ret; eexists (id, _); (split; [done|]);
    [apply str_eqb_eq in Eid as ->|apply str_eqb_neq in Eid|apply str_eqb_eq in Eid as ->|apply str_eqb_neq in Eid];
    by constructor.
Qed.

Lemma finish_suspend c rest entered st ctx caller original index chain d f :
  asks c = true -> d_Action d = Defer -> e_continuations e = true -> drop index chain = c :: rest ->
  (plan_ok (e_plan e) -> Forall (known (e_plan e)) chain) ->
  emits (finish (suspend ctx caller original (defer_state caller original st index chain (entered ++ [c]) c) f c))
    (fun pass evs => pass_traces (c :: rest) entered st pass (ECall c (ask st c) (Ok d) :: evs)).
Proof.
  intros Hc Hd Hcont Hdrop Hknown. unfold finish. eapply emits_bind; [apply suspend_spec|].
  intros r e1 (answer & -> & Hr). apply emits_ret. simpl. apply traces_one. apply StepSuspend; [done|done|by rewrite Hcont| |done].
  exists chain. assert (index < length chain)%nat as Hlt.
  { apply (f_equal length) in Hdrop. rewrite length_drop in Hdrop. simpl in Hdrop. lia. }
  split_and!; try done; simpl; [lia..|].
  replace (Z.to_nat (Z.of_nat index + 1)) with (index + 1)%nat by lia. by rewrite <- drop_drop, Hdrop.
Qed.

Lemma walk_spec ctx caller original chain index rest st entered : drop index chain = rest ->
  (plan_ok (e_plan e) -> Forall (known (e_plan e)) chain) ->
  emits (walk e ctx caller original chain index rest st entered) (pass_traces rest entered st).
Proof.
  revert index st entered. induction rest as [|c rest IH]; intros index st entered Hdrop Hknown; cbn [walk].
  { apply emits_ret. constructor. }
  assert (drop (S index) chain = rest) as Hnext by (rewrite <- (Nat.add_1_r index), <- drop_drop, Hdrop; done).
  fold (asks c). destruct (asks c) eqn:Hc; cbn [negb].
  2:{ eapply emits_impl; [by apply IH|]. intros pass evs Hp. apply (pass_step c rest entered st [] (entered ++ [c]) st); [by apply StepEnter|done|done]. }
  eapply emits_bind; [apply call_spec|]. intros answer e1 [-> Ha]. fold (ask st c) in Ha |- *.
  destruct answer as [d|err]; [|apply (finish_unwind _ _ _ [_]), StepStop; [done|constructor]].
  pose proof (accepted_action _ _ _ Ha) as Hact.
  destruct (str_eqb (d_Action d) Continue) eqn:E1.
  { apply str_eqb_eq in E1. eapply emits_impl; [by apply IH|]. intros pass evs Hp.
    apply (pass_step c rest entered st [_] (entered ++ [c]) st); [by apply StepContinue|done|done]. }
  destruct (str_eqb (d_Action d) Modify) eqn:E2.
  { apply str_eqb_eq in E2. destruct (ApplyPatch _ _ _) as [envelope|err] eqn:Hp.
    - eapply emits_impl; [by apply IH|]. intros pass evs Ht.
      apply (pass_step c rest entered st [_] (entered ++ [c]) (set_Envelope st envelope)); [by apply StepModify|done|done].
    - apply (finish_unwind _ _ _ [_]), StepStop; [done|]. by apply StopModify. }
  destruct (str_eqb (d_Action d) Reject) eqn:E3.
  { apply str_eqb_eq in E3. destruct (accepted_reject _ _ _ Ha E3) as [f Hf]. rewrite Hf.
    apply (finish_unwind _ _ _ [_]), StepStop; [done|]. by apply StopReject. }
  destruct (str_eqb (d_Action d) Respond) eqn:E4.
  { apply str_eqb_eq in E4. apply (finish_unwind _ _ _ [_]), StepStop; [done|]. by apply StopRespond. }
  destruct (str_eqb (d_Action d) Redirect) eqn:E5.
  { apply str_eqb_eq in E5. destruct (accepted_redirect _ _ _ Ha E5) as (Hop & t & Ht & Href). rewrite Ht.
    destruct (_ || _) eqn:Hloop.
    { apply (finish_unwind _ _ _ [_]), StepStop; [done|]. eapply StopRedirect; [done..|].
      apply orb_true_iff in Hloop as [Hmax|Hvisited]; [left; lia|right; by apply PlanProps.contains_elem]. }
    apply orb_false_iff in Hloop as [Hmax Hvisited]. rewrite Z.leb_gt in Hmax.
    apply not_true_iff_false in Hvisited. rewrite PlanProps.contains_elem in Hvisited.
    eapply emits_bind; [apply selectChain_spec|]. intros [chain'|err] e2.
    - intros [-> Hsel]. apply emits_ret. rewrite app_nil_r. simpl. split_and!; [|done..].
      apply traces_one. by eapply StepRedirect.
    - intros [-> Hun]. apply (finish_unwind _ _ _ [_]). by eapply StepUnresolved. }
  destruct (str_eqb (d_Action d) Defer) eqn:E6.
  { apply str_eqb_eq in E6. destruct (e_continuations e) eqn:Econt; cbn [negb].
    - destruct (accepted_defer _ _ _ Ha E6) as [_ [f Hf]]. rewrite Hf. by apply finish_suspend.
    - apply (finish_unwind _ _ _ [_]), StepStop; [done|]. apply StopDefer; [done|]. rewrite Econt. by intros []. }
  apply str_eqb_neq in E1, E2, E3, E4, E5, E6. set_solver.
Qed.

(** What follows the endpoint's answer. *)
Lemma executed_spec ctx st entered outcome err :
  emits (match oc_Stream outcome with
         | Some upstream =>
             if bool_decide (is_Some err) || negb (blen (oc_Response outcome) =? 0) || negb (str_eqb (oc_DeferredID outcome) "") then
               let* _ := host (close_stream upstream) in
               unwind e ctx (ps_Envelope st) entered no_outcome
                 (Some (FabricError (NewError CodeProtocolError "Contradictory endpoint result")))
             else
               match NewCheckedStream (v_ID (ps_Envelope st)) with
               | Err err => let* _ := host (close_stream upstream) in ret (Err (FabricError err))
               | Ok checked =>
                   ret (Ok (mkOutcome [] (Some (mkIntercepted (ps_Envelope st) (ps_Stage st) entered checked upstream false false)) "" None))
               end
         | None =>
             unwind e ctx (ps_Envelope st) entered
               (mkOutcome (oc_Response outcome) None (oc_DeferredID outcome) (oc_DeferredNotificationError outcome)) err
         end)
    (fun r evs => traces (Executed entered st (observed outcome, err)) evs (Done r)).
Proof.
  destruct outcome as [response [upstream|] id notice]; unfold observed; simpl.
  2:{ eapply emits_impl; [apply unwind_spec|]. intros r evs Ht. eapply (traces_step _ _ _ _ []); [by apply StepResult|done]. }
  destruct (_ || _) eqn:Hbad.
  { apply emits_host_bind. intros _. eapply emits_impl; [apply unwind_spec|]. intros r evs Ht.
    eapply (traces_step _ _ _ _ []); [apply StepContradiction; [done|]|done]. simpl.
    apply orb_true_iff in Hbad as [[Herr|Hresp]%orb_true_iff|Hid].
    - left. by apply bool_decide_eq_true_1 in Herr.
    - right. left. by destruct response.
    - right. right. by apply negb_true_iff, str_eqb_neq in Hid. }
  rewrite !orb_false_iff in Hbad. destruct Hbad as [[Herr Hresp] Hid]. apply bool_decide_eq_false_1 in Herr.
  destruct err; [by destruct Herr|]. apply negb_false_iff, str_eqb_eq in Hid as ->.
  assert (response = []) as -> by by destruct response.
  destruct (NewCheckedStream _) eqn:Hs; quiet; apply traces_one; [by eapply StepStream|by eapply StepNoStream].
Qed.

Lemma dispatch_spec ctx caller st entered :
  emits (dispatch e ctx caller st entered) (fun r evs => traces (Asking [] entered st) evs (Done r)).
Proof.
  unfold dispatch. apply emits_host_bind. intros refused. apply emits_emit_bind.
  assert (forall l envelope stack outcome failure cfg, step cfg l (Unwinding envelope (rev stack) outcome failure) ->
    emits (unwind e ctx envelope stack outcome failure) (fun r evs => traces cfg (l ++ evs) (Done r))) as Hun.
  { intros * Hs. eapply emits_impl; [apply unwind_spec|]. intros r evs Ht. by eapply traces_step. }
  destruct refused as [err|]; [apply (Hun [_]), StepInvalid|].
  apply emits_answer_bind. intros [err|] Hend.
  { eapply emits_impl; [apply (Hun [] _ _ _ _ (Checked entered st)), StepLate; by exists ctx|]. intros r evs Ht.
    eapply (traces_step _ _ _ _ [_]); [apply StepValid|done]. }
  apply emits_host_bind. intros [outcome err]. apply emits_emit_bind.
  eapply emits_impl; [apply executed_spec|]. intros r evs Ht.
  eapply (traces_step _ _ _ _ [_]); [apply StepValid|]. eapply (traces_step _ _ _ _ [_]); [apply StepExecute|done].
Qed.

(** The log of the passes; enough fuel for the remaining redirects always yields
    a result. *)
Lemma resolve_known ids l : plan_ok (e_plan e) -> resolveEntered e ids = Ok l -> Forall (known (e_plan e)) l.
Proof.
  intros [Hk _]. revert l. induction ids as [|id ids IH]; intros l; simpl; [intros [= <-]; constructor|].
  destruct (p_byID (e_plan e) !! id) as [c|] eqn:E; [|done]. intros Hr. rinv. constructor; [|by apply IH].
  unfold known. by rewrite (Hk _ _ E).
Qed.

Lemma resolve_ids l : Forall (known (e_plan e)) l -> resolveEntered e (registrationIDs l) = Ok l.
Proof. induction 1 as [|c l Hc Hl IH]; [done|].
  change (registrationIDs (c :: l)) with (r_ID (c_Registration c) :: registrationIDs l). cbn [resolveEntered].
  unfold known in Hc. by rewrite Hc, IH.
Qed.

Lemma passes_spec fuel ctx caller original st entered chain : 0 <= ps_Cursor st ->
  (plan_ok (e_plan e) -> Forall (known (e_plan e)) chain) ->
  e_maxRedirects e - ps_Redirects st < Z.of_nat fuel -> 0 < Z.of_nat fuel ->
  emits (passes e fuel ctx caller original st entered chain)
    (fun r evs => exists r0, r = Some r0 /\
       traces (Asking (drop (Z.to_nat (ps_Cursor st)) chain) entered st) evs (Done r0)).
Proof.
  revert st entered chain. induction fuel as [|fuel IH]; intros st entered chain Hcur Hknown Hfuel Hpos; [lia|]. cbn [passes].
  apply emits_answer_bind. intros [err|] Hend.
  { eapply emits_bind; [apply unwind_spec|]. intros r e1 Ht. apply emits_ret. exists r. split; [done|]. rewrite app_nil_r.
    eapply (traces_step _ _ _ _ []); [apply StepCancelled; by exists ctx|done]. }
  eapply emits_bind; [by apply walk_spec|]. intros [r|st' entered' chain'|st' entered'] e1 Hp; simpl in Hp.
  - apply emits_ret. exists r. split; [done|]. by rewrite app_nil_r.
  - destruct Hp as (Ht & Hr & Hmax & Hc & Hsel). eapply emits_impl; [apply IH; [lia|intros Hok; by eapply select_known|lia..]|].
    intros r evs (r0 & -> & Ht'). exists r0. split; [done|]. rewrite Hc in Ht'. by eapply traces_app.
  - eapply emits_bind; [apply dispatch_spec|]. intros r e2 Ht. apply emits_ret. exists r. split; [done|].
    rewrite app_nil_r. by eapply traces_app.
Qed.

(** Every run returns, with the calls and the result of the promised pipeline. *)
Lemma run_spec ctx caller original st resuming : 0 <= ps_Cursor st ->
  emits (run e ctx caller original st resuming)
    (fun r evs => exists r0, r = Some r0 /\ match resolveEntered e (ps_Entered st) with
       | Err err => evs = [] /\ r0 = Err err
       | Ok entered =>
           (exists err, traces (Unwinding (ps_Envelope st) (rev entered) no_outcome (Some err)) evs (Done r0) /\
              if resuming then resolveEntered e (ps_Chain st) = Err err else unresolved st err) \/
           exists chain evs',
             traces (Asking (drop (Z.to_nat (ps_Cursor st)) chain) entered st) evs' (Done r0) /\
             if resuming then resolveEntered e (ps_Chain st) = Ok chain /\ evs = evs'
             else selected (e_plan e) st chain /\ evs = ESelect (ps_Stage st) (ps_Envelope st) chain :: evs'
       end).
Proof.
  intros Hcur. unfold run. destruct (resolveEntered e (ps_Entered st)) as [entered|err]; [|by apply emits_ret; eauto].
  eapply (emits_bind _ _ (fun sel evs => match sel with
    | Ok chain => if resuming then resolveEntered e (ps_Chain st) = Ok chain /\ evs = []
                  else selected (e_plan e) st chain /\ evs = [ESelect (ps_Stage st) (ps_Envelope st) chain]
    | Err err => evs = [] /\ if resuming then resolveEntered e (ps_Chain st) = Err err else unresolved st err end)).
  { destruct resuming.
    - apply emits_ret. by destruct (resolveEntered e (ps_Chain st)).
    - eapply emits_impl; [apply selectChain_spec|]. intros [chain|err'] evs; [|done]. by intros [-> ?]. }
  intros [chain|err] e1 Hsel.
  - eapply emits_impl; [apply passes_spec; [done| |unfold passes_fuel; lia..]|].
    { intros Hok. destruct resuming; destruct Hsel as [Hsel _]; [by eapply resolve_known|by eapply select_known]. }
    intros r evs (r0 & -> & Ht). exists r0. split; [done|]. right.
    exists chain, evs. split; [done|]. destruct resuming; destruct Hsel as [? ->]; done.
  - destruct Hsel as [-> Hsel]. eapply emits_bind; [apply unwind_spec|]. intros r e2 Ht. apply emits_ret. exists r. split; [done|].
    left. exists err. by rewrite app_nil_r.
Qed.
End refine.
End EngineRefine.

(** ** Consequences for every pipeline *)
Module PipelineProofs.
Import Ref Wire.Wire Model Stream.Stream Patch.Patch Manifest Protocol HostWorld Output Remote Engine.Engine Pipeline.

Definition is_downstream (ev : Event) : bool := match ev with EDownstream _ _ => true | _ => false end.
Definition is_select (ev : Event) : bool := match ev with ESelect _ _ _ => true | _ => false end.
Definition is_save (ev : Event) : bool := match ev with ESave _ _ _ => true | _ => false end.
Definition is_unwinding (ev : Event) : bool :=
  match ev with
  | ECall _ req _ => str_eqb (ir_Phase req) PhaseResponse || str_eqb (ir_Phase req) PhaseError
  | _ => false
  end.

(** The interceptors called, in order. *)
Definition callees (log : list Event) : list CompiledRegistration :=
  omap (fun ev => match ev with ECall c _ _ => Some c | _ => None end) log.

(** [c] was asked and let the invocation pass. *)
Definition let_pass (c : CompiledRegistration) (log : list Event) : Prop :=
  exists req d, ECall c req (Ok d) ∈ log /\ ir_Phase req = PhaseRequest /\ ir_InterceptorID req = r_ID (c_Registration c) /\
    (d_Action d = Continue \/ d_Action d = Modify).

Section traces.
Context `{JsonDecoder, EnvelopeJson, PatchJson, OutputJson, !Host}.
Context (plan : Plan) (maxRedirects : Z) (continuations : bool).
Notation traces := (traces plan maxRedirects continuations).
Notation step := (step plan maxRedirects continuations).

Lemma done_log r log cfg : traces (Done r) log cfg -> log = [] /\ cfg = Done r.
Proof. intros Ht. inversion Ht as [|? ? ? ? ? Hs]; subst; [done|]. inversion Hs. Qed.

(** Unwinding calls the interceptors entered, last first, each at most once. *)
Lemma unwinding_log envelope todo outcome failure log r : traces (Unwinding envelope todo outcome failure) log (Done r) ->
  Forall (fun ev => is_unwinding ev = true) log /\ callees log `sublist_of` todo.
Proof.
  intros Ht. remember (Unwinding envelope todo outcome failure) as cfg eqn:Ec. remember (Done r) as last eqn:Ed.
  revert todo outcome failure Ec. induction Ht as [cfg|cfg l cfg' l' cfg'' Hs Ht IH]; intros todo outcome failure ->; [by subst|].
  inversion Hs; subst.
  - destruct (IH eq_refl _ _ _ eq_refl) as [H1' H2']. split; [done|]. by constructor.
  - destruct (IH eq_refl _ _ _ eq_refl) as [H1' H2']. split.
    + constructor; [|done]. simpl.
      match goal with Hp : ir_Phase _ = unwind_phase _ |- _ => rewrite Hp end. by destruct failure.
    + simpl. by constructor.
  - apply done_log in Ht as [-> _]. split; [done|]. constructor.
Qed.

Lemma unwinding_nil envelope outcome failure log r : traces (Unwinding envelope [] outcome failure) log (Done r) ->
  log = [] /\ r = match failure with Some err => Err err | None => Ok outcome end.
Proof.
  intros Ht. inversion Ht as [|? ? ? ? ? Hs Ht']; subst. inversion Hs; subst. by apply done_log in Ht' as [-> [= ->]].
Qed.

Lemma unwinding_quiet log : Forall (fun ev => is_unwinding ev = true) log ->
  Forall (fun ev => is_downstream ev = false) log /\ Forall (fun ev => is_select ev = false) log /\
  Forall (fun ev => is_save ev = false) log.
Proof. intros Hf. split_and!; (eapply Forall_impl; [done|]); by intros []. Qed.

Lemma executed_log entered st answer log r : traces (Executed entered st answer) log (Done r) ->
  Forall (fun ev => is_unwinding ev = true) log /\ callees log `sublist_of` rev entered.
Proof.
  intros Ht. inversion Ht as [|? ? ? ? ? Hs Ht']; subst. inversion Hs; subst.
  1,2: by eapply unwinding_log.
  all: apply done_log in Ht' as [-> _]; split; [done|]; apply sublist_nil_l.
Qed.

(** The endpoint runs only in a checked configuration. *)
Lemma checked_log entered st log r : traces (Checked entered st) log (Done r) ->
  (exists answer after, log = EDownstream (ps_Envelope st) answer :: after /\ Forall (fun ev => is_unwinding ev = true) after /\
     callees after `sublist_of` rev entered) \/
  Forall (fun ev => is_unwinding ev = true) log.
Proof.
  intros Ht. inversion Ht as [|? ? ? ? ? Hs Ht']; subst. inversion Hs; subst.
  - right. by eapply unwinding_log.
  - left. eexists _, l'. split; [done|]. by eapply executed_log.
Qed.

(** The shape of a log in which the endpoint runs, from the interceptors [rest]
    on: all of the last chain let the invocation pass, the final validation of the
    same envelope succeeded, and what follows unwinds. *)
Inductive endpoint_log : list CompiledRegistration -> list CompiledRegistration -> list Event -> Envelope ->
    Outcome unit * option CallError -> Prop :=
| EndHere rest entered asked stage envelope answer after :
    Forall (fun c => asks c = true -> let_pass c asked) rest ->
    Forall (fun ev => is_downstream ev = false /\ is_select ev = false) asked ->
    Forall (fun ev => is_unwinding ev = true) after -> callees after `sublist_of` rev (entered ++ rest) ->
    endpoint_log rest entered (asked ++ EValidate stage envelope None :: EDownstream envelope answer :: after) envelope answer
| EndRedirected rest entered before stage envelope' chain log envelope answer entered' :
    Forall (fun ev => is_downstream ev = false) before ->
    (exists m, chain = Select plan m /\ mc_Operation m = v_Operation envelope' /\ mc_Stage m = stage) ->
    endpoint_log chain entered' log envelope answer ->
    endpoint_log rest entered (before ++ ESelect stage envelope' chain :: log) envelope answer.

Lemma let_pass_mono c l l' : let_pass c l -> let_pass c (l' ++ l).
Proof. intros (req & d & Hin & ?). exists req, d. split; [set_solver|done]. Qed.

Lemma endpoint_log_cons c rest entered ev log envelope answer :
  is_downstream ev = false -> is_select ev = false -> (asks c = true -> let_pass c [ev]) ->
  endpoint_log rest (entered ++ [c]) log envelope answer -> endpoint_log (c :: rest) entered (ev :: log) envelope answer.
Proof.
  intros Hd Hs Hp Hl. inversion Hl as [? ? asked stage ? ? after Hall Hq Hu Hc|? ? before stage envelope' chain log' ? ? entered' Hb Hm Hl']; subst.
  - apply (EndHere (c :: rest) entered (ev :: asked)).
    + constructor.
      * intros Ha. destruct (Hp Ha) as (req & d & Hin & ?). exists req, d. split; [set_solver|done].
      * eapply Forall_impl; [done|]. intros x Hx Hax. by apply (let_pass_mono x asked [ev]), Hx.
    + by constructor.
    + done.
    + by rewrite <- app_assoc in Hc.
  - apply (EndRedirected (c :: rest) entered (ev :: before) _ _ _ _ _ _ entered'); [by constructor|done|done].
Qed.

Lemma endpoint_log_enter c rest entered log envelope answer : asks c = false ->
  endpoint_log rest (entered ++ [c]) log envelope answer -> endpoint_log (c :: rest) entered log envelope answer.
Proof.
  intros Ha Hl. inversion Hl as [? ? asked stage ? ? after Hall Hq Hu Hc|? ? before stage envelope' chain log' ? ? entered' Hb Hm Hl']; subst.
  - apply (EndHere (c :: rest) entered asked); [constructor; [congruence|done]|done|done|by rewrite <- app_assoc in Hc].
  - by apply (EndRedirected (c :: rest) entered before _ _ _ _ _ _ entered').
Qed.

Lemma no_endpoint log envelope answer : Forall (fun ev => is_downstream ev = false) log -> EDownstream envelope answer ∈ log -> False.
Proof. intros Hf Hin. rewrite Forall_forall in Hf. by apply Hf in Hin. Qed.

Lemma asking_endpoint rest entered st log r envelope answer : traces (Asking rest entered st) log (Done r) ->
  EDownstream envelope answer ∈ log -> endpoint_log rest entered log envelope answer.
Proof.
  intros Ht. remember (Asking rest entered st) as cfg eqn:Ec. remember (Done r) as last eqn:Ed.
  revert rest entered st Ec. induction Ht as [cfg|cfg l cfg' l' cfg'' Hs Ht IH]; intros rest entered st -> Hin; [by subst|].
  assert (forall todo env o f l', traces (Unwinding env todo o f) l' (Done r) -> EDownstream envelope answer ∉ l') as Hun.
  { intros * (Hu & _)%unwinding_log Hin'. apply unwinding_quiet in Hu as (Hu & _). by eapply no_endpoint. }
  inversion Hs; subst.
  - apply endpoint_log_enter; [done|]. by eapply IH.
  - apply endpoint_log_cons; [done|done| |by eapply IH; [..|set_solver]].
    intros _. eexists _, d. split; [by left|]. split; [done|]. split; [done|]. by left.
  - apply endpoint_log_cons; [done|done| |by eapply IH; [..|set_solver]].
    intros _. eexists _, d. split; [by left|]. split; [done|]. split; [done|]. by right.
  - match goal with Hsel : selected _ _ chain |- _ => destruct Hsel as (m & Hc & Ho & Hst & _) end.
    apply (EndRedirected (c :: rest0) entered [_] _ _ _ _ _ _ (entered ++ [c])); [by repeat constructor|eauto|].
    eapply IH; [done..|]. set_solver.
  - exfalso. eapply Hun; [done|]. set_solver.
  - exfalso. apply done_log in Ht as [-> _]. set_solver.
  - exfalso. eapply Hun; [done|]. set_solver.
  - exfalso. eapply Hun; [done|]. set_solver.
  - apply checked_log in Ht as [(answer' & after & -> & Hu & Hc)|Hu].
    + assert (envelope = ps_Envelope st /\ answer = answer') as [-> ->].
      { apply elem_of_cons in Hin as [?|Hin]; [done|]. apply elem_of_cons in Hin as [[= -> ->]|Hin]; [done|].
        exfalso. apply unwinding_quiet in Hu as (Hu & _). by eapply no_endpoint. }
      apply (EndHere [] entered []); [constructor|constructor|done|by rewrite app_nil_r].
    + exfalso. apply unwinding_quiet in Hu as (Hu & _). eapply (no_endpoint _ envelope answer); [exact Hu|set_solver].
  - exfalso. eapply Hun; [done|]. set_solver.
Qed.

(** The last selection before the endpoint runs. *)
Lemma endpoint_log_last rest entered log envelope answer : endpoint_log rest entered log envelope answer ->
  forall stage v, (exists m, rest = Select plan m /\ mc_Operation m = v_Operation v /\ mc_Stage m = stage) ->
  exists before stage' envelope' chain asked stage'' after,
    ESelect stage v rest :: log =
      before ++ ESelect stage' envelope' chain :: asked ++ EValidate stage'' envelope None :: EDownstream envelope answer :: after /\
    Forall (fun ev => is_downstream ev = false) (before ++ asked ++ after) /\
    Forall (fun ev => is_select ev = false) (asked ++ after) /\
    (exists m, chain = Select plan m /\ mc_Operation m = v_Operation envelope' /\ mc_Stage m = stage') /\
    Forall (fun c => asks c = true -> let_pass c asked) chain /\
    Forall (fun ev => is_unwinding ev = true) after.
Proof.
  induction 1 as [rest entered asked stage'' envelope answer after Hall Hq Hu Hc|rest entered before stage' envelope' chain log envelope answer entered' Hb Hm Hl IH];
    intros stage v Hsel.
  - exists [], stage, v, rest, asked, stage'', after. apply unwinding_quiet in Hu as Hu'. destruct Hu' as (Hd & Hs & _).
    split_and!; try done; simpl; rewrite !Forall_app; split_and?; try done; (eapply Forall_impl; [exact Hq|]); naive_solver.
  - destruct (IH _ _ Hm) as (b & s' & v' & ch & asked & s'' & after & E & Hd & Hrest).
    exists (ESelect stage v rest :: before ++ b), s', v', ch, asked, s'', after. split_and!; [|simpl|apply Hrest..].
    + simpl. f_equal. rewrite <- app_assoc. f_equal. exact E.
    + constructor; [done|]. rewrite <- app_assoc. by apply Forall_app.
Qed.

(** ** Redirects *)
Definition select_targets (log : list Event) : list string :=
  omap (fun ev => match ev with ESelect _ envelope _ => ref_String <$> v_Target envelope | _ => None end) log.
Definition selects_in (log : list Event) : nat := length (filter (fun ev => is_select ev = true) log).

Lemma quiet_selects log : Forall (fun ev => is_select ev = false) log -> selects_in log = 0%nat /\ select_targets log = [].
Proof.
  unfold selects_in, select_targets. induction 1 as [|ev log Hev Hl [IH1 IH2]]; [done|].
  rewrite filter_cons_False by by rewrite Hev. destruct ev; try done.
Qed.

Lemma selects_app l l' : selects_in (l ++ l') = (selects_in l + selects_in l')%nat /\
  select_targets (l ++ l') = select_targets l ++ select_targets l'.
Proof. unfold selects_in, select_targets. by rewrite filter_app, length_app, omap_app. Qed.

Lemma unwinding_selects envelope todo outcome failure log r : traces (Unwinding envelope todo outcome failure) log (Done r) ->
  selects_in log = 0%nat /\ select_targets log = [].
Proof. intros (Hu & _)%unwinding_log. by apply quiet_selects, unwinding_quiet. Qed.

Lemma checked_selects entered st log r : traces (Checked entered st) log (Done r) ->
  selects_in log = 0%nat /\ select_targets log = [].
Proof.
  intros [(answer' & after & -> & Hu & _)|Hu]%checked_log; apply quiet_selects; [constructor; [done|]|]; by apply unwinding_quiet.
Qed.

Lemma asking_selects rest entered st log r : traces (Asking rest entered st) log (Done r) ->
  NoDup (ps_VisitedTargets st) -> ps_Redirects st <= maxRedirects ->
  NoDup (ps_VisitedTargets st ++ select_targets log) /\ ps_Redirects st + Z.of_nat (selects_in log) <= maxRedirects.
Proof.
  intros Ht. remember (Asking rest entered st) as cfg eqn:Ec. remember (Done r) as last eqn:Ed.
  revert rest entered st Ec. induction Ht as [cfg|cfg l cfg' l' cfg'' Hs Ht IH]; intros rest entered st -> Hnd Hmax; [by subst|].
  assert (selects_in l' = 0%nat /\ select_targets l' = [] -> selects_in l = 0%nat /\ select_targets l = [] ->
    NoDup (ps_VisitedTargets st ++ select_targets (l ++ l')) /\ ps_Redirects st + Z.of_nat (selects_in (l ++ l')) <= maxRedirects) as Hquiet.
  { intros [E1 E2] [E3 E4]. destruct (selects_app l l') as [-> ->]. rewrite E1, E2, E3, E4, !app_nil_r. split; [done|lia]. }
  inversion Hs; subst; try (by apply Hquiet; [by eapply unwinding_selects|done]).
  - by eapply IH.
  - destruct (IH eq_refl _ _ _ eq_refl Hnd Hmax) as [Hnd' Hn'].
    match goal with |- context [selects_in (?k ++ l')] => destruct (selects_app k l') as [-> ->] end. done.
  - destruct (IH eq_refl _ _ _ eq_refl Hnd Hmax) as [Hnd' Hn'].
    match goal with |- context [selects_in (?k ++ l')] => destruct (selects_app k l') as [-> ->] end. done.
  - destruct (IH eq_refl _ _ _ eq_refl) as [Hnd' Hn']; [|simpl; lia|].
    { simpl. apply NoDup_app. split_and!; [done| |apply NoDup_singleton]. set_solver. }
    match goal with |- context [selects_in (?k ++ l')] => destruct (selects_app k l') as [-> ->] end.
    simpl in *. rewrite <- app_assoc in Hnd'. split; [done|]. lia.
  - apply done_log in Ht as [-> _]. by apply Hquiet.
  - apply Hquiet; [by eapply checked_selects|done].
Qed.

(** ** Suspension *)
(** States that agree but for the bookkeeping of suspensions. *)
Definition same_state (st st' : PipelineState) : Prop :=
  ps_Format st = ps_Format st' /\ ps_PlanRevision st = ps_PlanRevision st' /\ ps_Envelope st = ps_Envelope st' /\
  ps_Stage st = ps_Stage st' /\ ps_Placement st = ps_Placement st' /\ ps_Redirects st = ps_Redirects st' /\
  ps_VisitedTargets st = ps_VisitedTargets st'.

Inductive same_config : Config -> Config -> Prop :=
| SameAsking rest entered st st' : same_state st st' -> same_config (Asking rest entered st) (Asking rest entered st')
| SameChecked entered st st' : same_state st st' -> same_config (Checked entered st) (Checked entered st')
| SameExecuted entered st st' answer : same_state st st' -> same_config (Executed entered st answer) (Executed entered st' answer)
| SameUnwinding envelope todo outcome failure : same_config (Unwinding envelope todo outcome failure) (Unwinding envelope todo outcome failure)
| SameDone r : same_config (Done r) (Done r).

Lemma stops_same st st' c answer outcome failure : same_state st st' ->
  stops maxRedirects continuations st c answer outcome failure -> stops maxRedirects continuations st' c answer outcome failure.
Proof.
  intros (_ & _ & Ev & _ & _ & Er & Evis) Hs. inversion Hs; subst; try by constructor.
  - apply StopModify; [done|]. by rewrite <- Ev.
  - eapply StopRedirect; [done..|]. by rewrite <- Er, <- Evis.
Qed.

Lemma same_step cfg1 cfg2 l cfg1' : same_config cfg1 cfg2 -> step cfg1 l cfg1' ->
  exists cfg2', step cfg2 l cfg2' /\ same_config cfg1' cfg2'.
Proof.
  intros Hsame Hs. destruct Hsame as [rest entered st st' Hst|entered st st' Hst|entered st st' answer Hst|envelope todo outcome failure|r];
    try (destruct st as [f p v sg pl cu ch en re vi de], st' as [f' p' v' sg' pl' cu' ch' en' re' vi' de'];
      unfold same_state in Hst; simpl in Hst; destruct Hst as (<- & <- & <- & <- & <- & <- & <-);
      set (st2 := mkState f p v sg pl cu' ch' en' re vi de') in * );
    inversion Hs; subst.
  - eexists. split; [by apply (StepEnter _ _ _ _ _ _ st2)|]. by constructor.
  - eexists. split; [by apply (StepContinue _ _ _ _ _ _ st2)|]. by constructor.
  - eexists. split; [by eapply (StepModify _ _ _ _ _ _ st2)|]. by constructor.
  - eexists. split; [by eapply (StepRedirect _ _ _ _ _ _ st2 d t chain)|]. by constructor.
  - eexists. split; [by eapply (StepUnresolved _ _ _ _ _ _ st2 d t)|]. by constructor.
  - eexists. split; [by eapply (StepSuspend _ _ _ _ _ _ st2)|]. by constructor.
  - eexists. split; [eapply (StepStop _ _ _ _ _ _ st2); [done|eapply stops_same; [|eassumption]; done]|]. by constructor.
  - eexists. split; [by apply (StepCancelled _ _ _ _ _ st2)|]. by constructor.
  - eexists. split; [by eapply (StepValid _ _ _ _ st2)|]. by constructor.
  - eexists. split; [by eapply (StepInvalid _ _ _ _ st2)|]. by constructor.
  - eexists. split; [by eapply (StepLate _ _ _ _ st2)|]. by constructor.
  - eexists. split; [by eapply (StepExecute _ _ _ _ st2)|]. by constructor.
  - eexists. split; [by eapply (StepResult _ _ _ _ st2)|]. by constructor.
  - eexists. split; [by eapply (StepContradiction _ _ _ _ st2)|]. by constructor.
  - eexists. split; [by eapply (StepStream _ _ _ _ st2)|]. by constructor.
  - eexists. split; [by eapply (StepNoStream _ _ _ _ st2)|]. by constructor.
  - eexists. split; [done|]. by constructor.
  - eexists. split; [done|]. by constructor.
  - eexists. split; [done|]. by constructor.
Qed.

Lemma same_traces cfg1 cfg2 log r : same_config cfg1 cfg2 -> traces cfg1 log (Done r) -> traces cfg2 log (Done r).
Proof.
  intros Hsame Ht. remember (Done r) as last eqn:Ed. revert cfg2 Hsame.
  induction Ht as [cfg|cfg l cfg' l' cfg'' Hs Ht IH]; intros cfg2 Hsame.
  - subst. inversion Hsame; subst. constructor.
  - destruct (same_step _ _ _ _ Hsame Hs) as (cfg2' & Hs' & Hsame'). eapply traces_step; [done|]. by apply IH.
Qed.

(** Saving ends the pipeline, at an interceptor that deferred. *)
Lemma asking_save rest entered st log r saved c answer : traces (Asking rest entered st) log (Done r) -> ESave saved c answer ∈ log ->
  plan_ok plan -> Forall (known plan) (entered ++ rest) ->
  exists before d rest' entered' st', log = before ++ [ECall c (ask st' c) (Ok d); ESave saved c answer] /\
    d_Action d = Defer /\ asks c = true /\ traces (Asking rest entered st) before (Asking (c :: rest') entered' st') /\
    suspended plan c rest' entered' st' saved /\ Forall (known plan) (entered' ++ [c]).
Proof.
  intros Ht. remember (Asking rest entered st) as cfg eqn:Ec. remember (Done r) as last eqn:Ed.
  revert rest entered st Ec. induction Ht as [cfg|cfg l cfg' l' cfg'' Hs Ht IH]; intros rest entered st -> Hin Hok Hknown; [by subst|].
  assert (forall todo env o f l', traces (Unwinding env todo o f) l' (Done r) -> ESave saved c answer ∉ l') as Hun.
  { intros * (Hu & _)%unwinding_log Hin'. apply unwinding_quiet in Hu as (_ & _ & Hu).
    rewrite Forall_forall in Hu. by apply Hu in Hin'. }
  assert (forall c0 rest0, rest = c0 :: rest0 -> Forall (known plan) ((entered ++ [c0]) ++ rest0)) as Hk.
  { intros c0 rest0 ->. by rewrite <- app_assoc. }
  assert (forall cfg0 rest0 entered0 st0, cfg0 = Asking rest0 entered0 st0 -> step (Asking rest entered st) l cfg0 ->
    (exists before d rest' entered' st', l' = before ++ [ECall c (ask st' c) (Ok d); ESave saved c answer] /\
      d_Action d = Defer /\ asks c = true /\ traces (Asking rest0 entered0 st0) before (Asking (c :: rest') entered' st') /\
      suspended plan c rest' entered' st' saved /\ Forall (known plan) (entered' ++ [c])) ->
    exists before d rest' entered' st', l ++ l' = before ++ [ECall c (ask st' c) (Ok d); ESave saved c answer] /\
      d_Action d = Defer /\ asks c = true /\ traces (Asking rest entered st) before (Asking (c :: rest') entered' st') /\
      suspended plan c rest' entered' st' saved /\ Forall (known plan) (entered' ++ [c])) as Hext.
  { intros cfg0 rest0 entered0 st0 -> Hs0 (before & d & rest' & entered' & st' & -> & Hq1 & Hq2 & Hq3 & Hq4 & Hq5).
    exists (l ++ before), d, rest', entered', st'. rewrite <- app_assoc. split_and!; try done. by eapply traces_step. }
  inversion Hs; subst; try (exfalso; eapply Hun; [done|set_solver]).
  - eapply (Hext _ _ _ _ eq_refl Hs). eapply IH; [done..|]. by apply Hk.
  - eapply (Hext _ _ _ _ eq_refl Hs). eapply IH; [done|done|set_solver|done|by apply Hk].
  - eapply (Hext _ _ _ _ eq_refl Hs). eapply IH; [done|done|set_solver|done|by apply Hk].
  - eapply (Hext _ _ _ _ eq_refl Hs). eapply IH; [done|done|set_solver|done|].
    apply Forall_app. split; [|by eapply select_known]. rewrite Forall_app in *. rewrite Forall_cons in Hknown. naive_solver.
  - apply done_log in Ht as [-> _]. rewrite app_nil_r in *.
    assert (saved0 = saved /\ c0 = c /\ answer0 = answer) as (-> & -> & ->) by set_solver.
    exists [], d, rest0, entered, st. split_and!; try done; [constructor|].
    rewrite Forall_app in *. rewrite Forall_cons in Hknown. naive_solver.
  - exfalso. apply checked_log in Ht as [(answer' & after & -> & Hu & _)|Hu]; apply unwinding_quiet in Hu as (_ & _ & Hu);
      rewrite Forall_forall in Hu; repeat (apply elem_of_cons in Hin as [?|Hin]; [done|]); by apply Hu in Hin.
Qed.

(** ** What interceptors cannot change *)
(** The texts of an envelope that its validation does not inspect. *)
Definition json_text (v : Envelope) : bool :=
  forallb utf8_valid [x_ParentID (v_Context v); x_IdempotencyKey (v_Context v); TraceParent (v_Trace v);
                      TraceState (v_Trace v); Baggage (v_Trace v)].

(** encoding/json reads back what it wrote of a valid envelope of valid texts, but
    for the formatting of its raw members; and decoded texts are valid. *)
Class ReadsBack : Prop := {
  read_back v d t : json_text v = true -> Envelope_Validate v = Ok tt -> marshal_envelope v = Some d ->
    decode_document d = Some t ->
    exists v', decode_result d = Some v' /\ immutable_part v' = immutable_part v /\ v_Target v' = v_Target v;
  decoded_text d v : decode_envelope d = Some v -> json_text v = true }.

Context `{!PatchProps.PatchLaws, !ReadsBack}.

Lemma patch_preserves original id raw v : json_text original = true -> Envelope_Validate original = Ok tt ->
  ApplyPatch original id raw = Ok v ->
  immutable_part v = immutable_part original /\ v_Target v = v_Target original /\ Envelope_Validate v = Ok tt.
Proof.
  intros Ht Hv Ha. unfold ApplyPatch in Ha.
  match type of Ha with of_option ?o _ = _ => destruct o as [r|] eqn:E; [|done] end. injection Ha as ->.
  apply bind_Some in E as (u & _ & E). apply bind_Some in E as (ops & _ & E). apply bind_Some in E as (u1 & Hlen & E).
  apply bind_Some in E as (d0 & Hd0 & E). apply bind_Some in E as (u2 & _ & E). apply bind_Some in E as (d1 & Hd1 & E).
  apply bind_Some in E as (v' & Hv' & E). apply bind_Some in E as (u3 & Hval & [= ->]).
  assert (exists t, decode_document d0 = Some t) as [t Hdoc].
  { destruct ops as [|op ops]; [done|]. simpl in Hd1. apply bind_Some in Hd1 as (d & Hop & _).
    unfold apply_operation in Hop. do 4 (apply bind_Some in Hop as (? & _ & Hop)). apply bind_Some in Hop as (t & Ht' & _). eauto. }
  destruct (read_back _ _ _ Ht Hv Hd0 Hdoc) as (v0 & Hv0 & Hi & Htarget).
  destruct (PatchProps.marshal_object _ _ Hd0) as (m0 & Hm0).
  destruct (PatchProps.operations_confined _ _ _ _ _ Hd1 Hm0) as (m1 & Hm1 & [Hc _]).
  pose proof (PatchProps.envelope_fields _ _ _ _ _ _ Hv0 Hv' Hm0 Hm1 Hc) as Hr. rewrite Hr.
  split_and!; [by rewrite <- Hi|by rewrite <- Htarget|]. rewrite <- Hr. unfold require in Hval.
  destruct (Envelope_Validate v) as [[]|]; done.
Qed.

Lemma immutable_text v v' : immutable_part v = immutable_part v' -> json_text v = json_text v'.
Proof. unfold immutable_part, json_text. intros [=]. congruence. Qed.

Lemma retarget_valid v t : Envelope_Validate v = Ok tt -> v_Operation v = OperationInvoke ->
  is_ok (ParseEndpointRef (ref_String (rt_Ref t))) = true -> Envelope_Validate (retarget v t) = Ok tt.
Proof.
  intros Hv Ho Hr. assert (validate_operation v = Ok tt) as Hop by (unfold Envelope_Validate in Hv; rinv; done).
  assert (validate_operation (retarget v t) = Ok tt) as Hop'.
  { unfold validate_operation. simpl. rewrite Ho. cbn. by destruct (ParseEndpointRef _). }
  unfold Envelope_Validate in *. rewrite Hop'. by rewrite Hop in Hv.
Qed.

(** The envelope an event hands out of the run: to the endpoint, or to the recorder
    as part of the state of a continuation. *)
Definition handed_out (ev : Event) : option Envelope :=
  match ev with EDownstream envelope _ => Some envelope | ESave saved _ _ => Some (ps_Envelope saved) | _ => None end.

Lemma unwinding_keeps envelope todo outcome failure log r ev v :
  traces (Unwinding envelope todo outcome failure) log (Done r) -> ev ∈ log -> handed_out ev = Some v -> False.
Proof. intros (Hu & _)%unwinding_log Hin Hev. rewrite Forall_forall in Hu. apply Hu in Hin. by destruct ev. Qed.

(** Every envelope that is handed out has the immutable part of the first one and is
    valid. *)
Lemma asking_preserves rest entered st log r ev envelope : traces (Asking rest entered st) log (Done r) ->
  json_text (ps_Envelope st) = true -> Envelope_Validate (ps_Envelope st) = Ok tt -> ev ∈ log -> handed_out ev = Some envelope ->
  immutable_part envelope = immutable_part (ps_Envelope st) /\ Envelope_Validate envelope = Ok tt.
Proof.
  intros Ht. remember (Asking rest entered st) as cfg eqn:Ec. remember (Done r) as last eqn:Ed.
  revert rest entered st Ec. induction Ht as [cfg|cfg l cfg' l' cfg'' Hs Ht IH]; intros rest entered st -> Htext Hval Hin Hev; [by subst|].
  assert (ev ∈ l -> exists c rest' entered' saved answer, suspended plan c rest' entered' st saved /\ ev = ESave saved c answer) as Hl.
  { inversion Hs; subst; intros Hl; repeat (apply elem_of_cons in Hl as [->|Hl]; [try done|]); try by apply elem_of_nil in Hl.
    eauto 10. }
  apply elem_of_app in Hin as [(c & rest' & entered' & saved & answer & Hsus & ->)%Hl|Hin].
  { destruct Hsus as (? & _ & _ & _ & _ & _ & _ & _ & E & _). simpl in Hev. injection Hev as <-. by rewrite E. }
  inversion Hs; subst; try (exfalso; by eapply unwinding_keeps).
  - by eapply IH.
  - by eapply IH.
  - match goal with Ha : ApplyPatch _ _ _ = Ok _ |- _ => destruct (patch_preserves _ _ _ _ Htext Hval Ha) as (Hi & _ & Hv) end.
    edestruct IH as [Hi' Hv']; [done..| | | | |]; simpl; [by rewrite (immutable_text _ _ Hi)|done|done|done|].
    split; [|done]. simpl in Hi'. by rewrite Hi'.
  - edestruct IH as [Hi' Hv']; [done..| | | | |]; simpl; [|by apply retarget_valid|done|done|].
    + by rewrite (immutable_text _ (ps_Envelope st)).
    + done.
  - exfalso. apply done_log in Ht as [-> _]. by apply elem_of_nil in Hin.
  - apply checked_log in Ht as [(answer & after & -> & Hu & Hc)|Hu]; rewrite Forall_forall in Hu.
    + apply elem_of_cons in Hin as [->|Hin]; [by injection Hev as <-|]. apply Hu in Hin. by destruct ev.
    + apply Hu in Hin. by destruct ev.
Qed.
End traces.
End PipelineProofs.

Module EngineProps.
Import Ref Wire.Wire Model Stream.Stream Patch.Patch Manifest Protocol HostWorld Output Remote Engine.Engine Pipeline EngineLog EngineRefine PipelineProofs.

Section props.
Context `{Sha256, JsonDecoder, EnvelopeJson, PatchJson, OutputJson, InterceptJson, EngineJson, !Host}.
Context (e : EngineConfig).

(** The state of a fresh invocation. *)
Definition first_state (envelope : Envelope) (stage placement : string) : PipelineState :=
  mkState pipeline_format (p_revision (e_plan e)) envelope stage placement 0 [] [] 0
    (match v_Target envelope with Some t => [ref_String t] | None => [] end) "".

Lemma emits_run {A} (m : M A) P w r w' log : emits m P -> m (w, []) = (r, (w', log)) -> P r log.
Proof.
  intros Hm E. destruct (Hm w []) as (w2 & evs & E2 & HP). rewrite E in E2, HP. simpl in *. by injection E2 as -> ->.
Qed.

(** A run with its deadline makes the run's calls, and returns what it returns. *)
Lemma deadline_run caller original state resuming s r s' : runWithDeadline e caller original state resuming s = (r, s') ->
  exists r0, run e (Lifetime (x_Deadline (v_Context (ps_Envelope state)))) caller original state resuming s = (r0, s') /\
    r = with_lifetime <$> r0.
Proof.
  unfold runWithDeadline, HostWorld.mbind. destruct (run e _ caller original state resuming s) as [r0 s0].
  intros [= <- <-]. eauto.
Qed.

(** Invocations refused before any interceptor is asked, and the errors they get. *)
Inductive refusal (caller : ExecutionContext) (original : list byte) (audience stage placement : string) (w : World) :
    CallError -> Prop :=
| RefusedStage : ValidNamespacedName stage = false \/ placement = PlacementRelay ->
    refusal caller original audience stage placement w
      (FabricError (NewError CodeInvalidInput "Invalid plaintext execution stage"))
| RefusedEnvelope err : DecodeVerifiedEnvelope caller original audience = Err err ->
    refusal caller original audience stage placement w (FabricError err)
| RefusedOperation envelope : DecodeVerifiedEnvelope caller original audience = Ok envelope ->
    has_prefix stage (v_Operation envelope ++ ".") = false ->
    refusal caller original audience stage placement w
      (FabricError (NewError CodeInvalidInput "Stage does not belong to authenticated operation"))
| RefusedPlacement : placement ∉ [PlacementSource; PlacementDestination] ->
    refusal caller original audience stage placement w (FabricError invalidRegistration)
| RefusedMatch envelope err w' : DecodeVerifiedEnvelope caller original audience = Ok envelope ->
    resolver (Lifetime (x_Deadline (v_Context envelope))) caller envelope stage placement w = (Err err, w') ->
    refusal caller original audience stage placement w err.

(** A run whose resolver fails returns its error. *)
Lemma run_unresolved ctx caller original st w err w' : ps_Entered st = [] ->
  resolver ctx caller (ps_Envelope st) (ps_Stage st) (ps_Placement st) w = (Err err, w') ->
  exists w'', run e ctx caller original st false (w, []) = (Some (Err err), (w'', [])).
Proof.
  intros Hen E. unfold run. rewrite Hen. cbn [resolveEntered].
  unfold HostWorld.mbind, selectChain, HostWorld.mbind, host, unwind, HostWorld.mbind, host, ret. simpl. rewrite E. simpl.
  destruct (ctx_err ctx w') as [cancelled w'']. simpl. eauto.
Qed.

(** A run whose resolver succeeds logs its selection. *)
Lemma run_selects ctx caller original st w m w1 r w' log : ps_Entered st = [] -> 0 <= ps_Cursor st ->
  resolver ctx caller (ps_Envelope st) (ps_Stage st) (ps_Placement st) w = (Ok m, w1) ->
  run e ctx caller original st false (w, []) = (r, (w', log)) -> log <> [].
Proof.
  intros Hen Hcur E. unfold run. rewrite Hen. cbn [resolveEntered].
  unfold HostWorld.mbind at 1, selectChain, HostWorld.mbind, host, emit, ret. cbn -[passes passes_fuel Select]. rewrite E.
  cbn -[passes passes_fuel Select]. intros Hr.
  match type of Hr with passes _ _ _ _ _ _ _ ?chain (_, ?l) = _ =>
    edestruct (passes_spec e (passes_fuel e st) ctx caller original st [] chain Hcur) as (w2 & evs & E2 & _);
      [intros Hok; by eapply (select_known _ st); [done|eexists]|unfold passes_fuel; lia..|rewrite Hr in E2; by injection E2 as -> ->] end.
Qed.

(** The calls and the result of a fresh invocation. *)
Lemma fresh_log caller original audience stage placement w r w' log :
  ExecuteStage e caller original audience stage placement (w, []) = (r, (w', log)) ->
  (exists err, r = Some (Err err) /\ log = [] /\ refusal caller original audience stage placement w err) \/
  (exists envelope chain log' r0, DecodeVerifiedEnvelope caller original audience = Ok envelope /\
     log = ESelect stage envelope chain :: log' /\ selected (e_plan e) (first_state envelope stage placement) chain /\
     r = Some (with_lifetime r0) /\
     traces (e_plan e) (e_maxRedirects e) (e_continuations e) (Asking chain [] (first_state envelope stage placement)) log'
       (Done r0)).
Proof.
  unfold ExecuteStage. case_match eqn:Hst.
  { intros [= <- <- <-]. left. eexists. split_and!; [done..|]. apply RefusedStage.
    apply orb_true_iff in Hst as [Hst|Hst]; [left; by apply negb_true_iff|right; by apply str_eqb_eq]. }
  destruct (DecodeVerifiedEnvelope caller original audience) as [envelope|err] eqn:Hdec.
  2:{ intros [= <- <- <-]. left. eexists. split_and!; [done..|]. by apply RefusedEnvelope. }
  case_match eqn:Hop.
  { intros [= <- <- <-]. left. eexists. split_and!; [done..|]. eapply RefusedOperation; [done|]. by apply negb_true_iff. }
  case_match eqn:Hpl.
  { intros [= <- <- <-]. left. eexists. split_and!; [done..|]. apply RefusedPlacement.
    apply andb_true_iff in Hpl as [Hp1 Hp2]. apply negb_true_iff, str_eqb_neq in Hp1, Hp2. set_solver. }
  intros (r0 & Hr & ->)%deadline_run. cbn [v_Context ps_Envelope] in Hr.
  destruct (resolver (Lifetime (x_Deadline (v_Context envelope))) caller envelope stage placement w) as [[m|err] w1] eqn:Em.
  - right. pose proof Hr as Hrun. eapply emits_run in Hr; [|by apply run_spec]. simpl in Hr.
    destruct Hr as (r1 & -> & [(err & Ht & _)|(chain & evs & Ht & Hsel & ->)]); [|by exists envelope, chain, evs, r1].
    exfalso. apply unwinding_nil in Ht as [-> _]. by apply (run_selects _ _ _ (first_state envelope stage placement) _ _ _ _ _ _ eq_refl (Z.le_refl 0) Em Hrun).
  - destruct (run_unresolved (Lifetime (x_Deadline (v_Context envelope))) caller original
      (first_state envelope stage placement) w err w1) as [w2 Hrun]; [done..|].
    left. unfold first_state in Hrun. rewrite Hrun in Hr. injection Hr as <- <- <-. exists err. split_and!; [done..|].
    by eapply RefusedMatch.
Qed.

(** C1. The engine implements the promised pipeline, in its calls and in its result. In
    every world (whatever contexts, handlers, resolver, validator, endpoint and recorder
    do), executing a stage always returns, never out of fuel. Either it refuses before
    any call, for one of the listed reasons and with its error; or the calls it made and
    the result it returns are those of the transition system [Pipeline], started with the
    chain selected for the authenticated envelope: it asks the interceptors of the chain
    one by one in order, starts over with the new target's chain only after an accepted
    redirect, validates before it executes, and unwinds in reverse order what was
    entered; the first failure (of an interceptor, the validator, the context, the
    endpoint or the recorder) is the result unless an unwinding interceptor replaces it by
    another failure, the endpoint's or an interceptor's response is the result as the
    response hooks project it, a stream is returned with the hooks entered, and a
    deferral returns the continuation the recorder named. *)
Theorem engine_refines_pipeline caller original audience stage placement w r w' log :
  ExecuteStage e caller original audience stage placement (w, []) = (r, (w', log)) ->
  (exists err, r = Some (Err err) /\ log = [] /\ refusal caller original audience stage placement w err) \/
  (exists envelope chain log' r0, DecodeVerifiedEnvelope caller original audience = Ok envelope /\
     log = ESelect stage envelope chain :: log' /\ selected (e_plan e) (first_state envelope stage placement) chain /\
     r = Some (with_lifetime r0) /\
     traces (e_plan e) (e_maxRedirects e) (e_continuations e) (Asking chain [] (first_state envelope stage placement)) log'
       (Done r0)).
Proof. apply fresh_log. Qed.

(** C2. No interceptor is bypassed, and the endpoint runs at most once. If a run
    executes the endpoint with some envelope, then before that the chain of the last
    selection was asked completely: each of its interceptors with a request phase
    answered CONTINUE or MODIFY, and then the final validation accepted the same
    envelope, immediately before. Nothing else of the log executes an endpoint, and
    after it only response and error hooks run. *)
Theorem endpoint_behind_all_interceptors caller original audience stage placement w r w' log envelope answer :
  ExecuteStage e caller original audience stage placement (w, []) = (r, (w', log)) ->
  EDownstream envelope answer ∈ log ->
  exists before stage' envelope' chain asked stage'' after,
    log = before ++ ESelect stage' envelope' chain :: asked ++ EValidate stage'' envelope None :: EDownstream envelope answer :: after /\
    Forall (fun ev => is_downstream ev = false) (before ++ asked ++ after) /\
    Forall (fun ev => is_select ev = false) (asked ++ after) /\
    (exists m, chain = Select (e_plan e) m /\ mc_Operation m = v_Operation envelope' /\ mc_Stage m = stage') /\
    Forall (fun c => asks c = true -> let_pass c asked) chain /\
    Forall (fun ev => is_unwinding ev = true) after.
Proof.
  intros Hr Hin. destruct (fresh_log _ _ _ _ _ _ _ _ _ Hr) as [(err & _ & -> & _)|(v & chain & log' & r0 & _ & -> & Hsel & _ & Ht)]; [by apply elem_of_nil in Hin|].
  assert (EDownstream envelope answer ∈ log') as Hin' by set_solver.
  pose proof (asking_endpoint _ _ _ _ _ _ _ _ _ _ Ht Hin') as Hl.
  assert (exists m, chain = Select (e_plan e) m /\ mc_Operation m = v_Operation v /\ mc_Stage m = stage) as Hm.
  { destruct Hsel as (m & ? & ? & ? & _). eauto. }
  by apply (endpoint_log_last (e_plan e) chain [] log' envelope answer Hl stage v).
Qed.

(** C5. Redirects are bounded and never come back. Every run returns a result, after
    selecting at most [maxRedirects] + 1 chains, and the targets they were selected for,
    the original one included, are pairwise different. *)
Theorem redirects_terminate caller original audience stage placement w r w' log :
  0 <= e_maxRedirects e ->
  ExecuteStage e caller original audience stage placement (w, []) = (r, (w', log)) ->
  is_Some r /\ Z.of_nat (selects_in log) <= e_maxRedirects e + 1 /\ NoDup (select_targets log).
Proof.
  intros Hmax Hr. destruct (fresh_log _ _ _ _ _ _ _ _ _ Hr) as [(err & -> & -> & _)|(v & chain & log' & r0 & _ & -> & _ & -> & Ht)].
  { split; [done|]. change (selects_in []) with 0%nat. split; [lia|apply NoDup_nil_2]. }
  split; [done|]. destruct (asking_selects _ _ _ _ _ _ _ _ Ht) as [Hnd Hn]; [|done|].
  { simpl. destruct (v_Target v); [apply NoDup_singleton|apply NoDup_nil_2]. }
  change (ESelect stage v chain :: log') with ([ESelect stage v chain] ++ log').
  destruct (selects_app [ESelect stage v chain] log') as [-> ->]. simpl in Hnd, Hn.
  change (selects_in [ESelect stage v chain]) with 1%nat. split; [lia|].
  unfold select_targets at 1. simpl. by destruct (v_Target v).
Qed.

(** C4. Interceptors cannot change who calls. Whatever the interceptors of a run
    answer, every envelope the run hands out, to the endpoint or to the recorder as part
    of the state of a continuation, is valid, names the authenticated caller as principal
    and source, and equals the authenticated envelope in everything but target, expected
    revision, payload and metadata. *)
Theorem pipeline_preserves_caller caller original audience stage placement w r w' log ev envelope :
  PatchProps.PatchLaws -> ReadsBack ->
  ExecuteStage e caller original audience stage placement (w, []) = (r, (w', log)) ->
  ev ∈ log -> handed_out ev = Some envelope ->
  Envelope_Validate envelope = Ok tt /\ v_Principal envelope = ec_principal caller /\
  v_Source envelope = p_Ref (ec_principal caller) /\
  exists authenticated, DecodeVerifiedEnvelope caller original audience = Ok authenticated /\
    immutable_part envelope = immutable_part authenticated.
Proof.
  intros Hlaws Hread Hr Hin Hev.
  destruct (fresh_log _ _ _ _ _ _ _ _ _ Hr) as [(err & _ & -> & _)|(v & chain & log' & r0 & Hv & -> & _ & _ & Ht)]; [by apply elem_of_nil in Hin|].
  apply elem_of_cons in Hin as [->|Hin]; [done|].
  assert (json_text v = true /\ Envelope_Validate v = Ok tt /\ v_Principal v = ec_principal caller /\
    v_Source v = p_Ref (ec_principal caller)) as (H1' & H2' & H3' & H4').
  { unfold DecodeVerifiedEnvelope in Hv. rinv. split_and!; [|done|done|symmetry; by apply str_eqb_eq].
    eapply (decoded_text original). destruct (decode_envelope original); simpl in *; by simplify_eq. }
  destruct (asking_preserves _ _ _ _ _ _ _ _ _ _ Ht H1' H2' Hin Hev) as [Hi Hval]. split; [done|].
  assert (v_Principal envelope = v_Principal v /\ v_Source envelope = v_Source v) as [-> ->] by (split; injection Hi; done).
  split_and!; [done..|]. eauto.
Qed.

(** Compiled plans resolve all their interceptors. *)
Lemma compiled_plan_ok `{!ManifestJson} range manifests max p : MapOrder range -> Compile range manifests max = Ok p -> plan_ok p.
Proof.
  intros Hr Hp%PlanProps.compile_Ok; [|done]. unfold PlanProps.compile_reference in Hp. case_if; [|done].
  destruct (collect max ∅ ∅ manifests) as [nodes|] eqn:Hc; [|done]. case_bool_decide as Hb; [|done].
  destruct (marshal_manifests _) as [encoded|]; simpl in Hp; [|done]. injection Hp as <-.
  assert (PlanSpec.keyed nodes) as Hk by (eapply PlanProps.collect_keyed; [|exact Hc]; intros ? ? E'; by rewrite lookup_empty in E').
  split; simpl; [exact Hk|]. intros key chain Hch.
  pose proof (PlanProps.group_lookup (PlanSpec.schedule nodes) ∅ key) as Hg. unfold PlanSpec.group in Hch.
  rewrite Hch, lookup_empty in Hg. simpl in Hg. subst chain. apply Forall_forall. intros n [_ Hn]%list_elem_of_filter.
  by apply PlanProofs.schedule_nodes in Hn.
Qed.

(** C3. A suspension is transparent. Under a compiled plan, a run that saves a
    continuation stops there; resuming the saved state under the same plan, in any
    later world, always returns, and continues exactly where the run stopped: the
    calls made before the deferral, the deferring interceptor taken as continuing,
    and the calls made after resumption are together the calls of one uninterrupted
    pipeline that returns what the resumption returns, with every entered interceptor
    still on the stack. *)
Theorem suspension_is_transparent `{!ManifestJson} range manifests max caller original audience stage placement w r w' log saved c answer :
  MapOrder range -> Compile range manifests max = Ok (e_plan e) ->
  ExecuteStage e caller original audience stage placement (w, []) = (r, (w', log)) -> ESave saved c answer ∈ log ->
  exists envelope chain before req d,
    log = ESelect stage envelope chain :: before ++ [ECall c req (Ok d); ESave saved c answer] /\ d_Action d = Defer /\
    forall ctx caller' original' w2 r2 w2' log2,
      run e ctx caller' original' saved true (w2, []) = (r2, (w2', log2)) ->
      exists r3, r2 = Some r3 /\
        traces (e_plan e) (e_maxRedirects e) (e_continuations e) (Asking chain [] (first_state envelope stage placement))
          (before ++ ECall c req (Ok continue_decision) :: log2) (Done r3).
Proof.
  intros Hrange Hcomp Hr Hin. pose proof (compiled_plan_ok _ _ _ _ Hrange Hcomp) as Hok.
  destruct (fresh_log _ _ _ _ _ _ _ _ _ Hr) as [(err & _ & -> & _)|(v & chain & log' & r0 & _ & -> & Hsel & _ & Ht)]; [by apply elem_of_nil in Hin|].
  assert (ESave saved c answer ∈ log') as Hin' by set_solver.
  destruct (asking_save _ _ _ _ _ _ _ _ _ _ _ Ht Hin' Hok) as (before & d & rest & entered & st & -> & Hd & Hc & Hb & Hsus & Hknown).
  { simpl. by eapply select_known. }
  exists v, chain, before, (ask st c), d. split_and!; [done..|]. intros ctx caller' original' w2 r2 w2' log2 Hrun.
  destruct Hsus as (chain' & Ech & Een & Hcur & Hdrop & Hkn & E1 & E2 & E3 & E4 & E5 & E6 & E7).
  eapply emits_run in Hrun; [|apply run_spec; lia]. destruct Hrun as (r3 & -> & Hrun). exists r3. split; [done|].
  rewrite Een, resolve_ids in Hrun by done. rewrite Ech, resolve_ids in Hrun by by apply Hkn.
  eapply traces_app; [exact Hb|]. eapply (traces_step _ _ _ _ [_]); [by apply StepContinue|].
  destruct Hrun as [(err & _ & [=])|(chain2 & evs & Ht2 & [= <-] & ->)].
  rewrite Hdrop in Ht2. eapply same_traces; [|exact Ht2]. constructor. by repeat split.
Qed.

(** Runs of a computation, step by step. *)
Lemma bind_runs {A B} (m : M A) (k : A -> M B) s r s' : HostWorld.mbind m k s = (r, s') ->
  exists a s1, m s = (a, s1) /\ k a s1 = (r, s').
Proof. unfold HostWorld.mbind. destruct (m s) as [a s1]. eauto. Qed.

Lemma handler_answer ctx millis handler isolated s d s' : run_handler ctx millis handler isolated s = (Ok d, s') ->
  exists w w' d0, intercept handler isolated w = (Answers d0 None, w') /\ own_decision d0 = Ok d.
Proof.
  unfold run_handler. intros (started & s1 & _ & Hr)%bind_runs. apply bind_runs in Hr as (answer & s2 & Ha & Hr).
  destruct answer as [|d0 err]; simpl in Hr; [apply bind_runs in Hr as ([] & s3 & _ & [=])|].
  destruct err as [err|]; [apply bind_runs in Hr as (ended & s3 & _ & [=])|]. injection Hr as Hr _.
  destruct started; [discriminate Ha|]. unfold host in Ha. destruct (intercept handler isolated s1.1) as [answer w'] eqn:Ei.
  injection Ha as -> _. eauto 6.
Qed.

Lemma executor_answer ctx c h req s d s' : Executor_Call ctx c h req s = (Ok d, s') ->
  exists handler isolated w w' d0, h = Some handler /\ isolate_request req = Ok isolated /\
    intercept handler isolated w = (Answers d0 None, w') /\ own_decision d0 = Ok d.
Proof.
  unfold Executor_Call. destruct h as [handler|]; [|done]. repeat (case_if; [done|]). intros Hr.
  apply bind_runs in Hr as ([err|] & s1 & _ & Hr); [done|].
  apply bind_runs in Hr as ([err|] & s2 & _ & Hr); [apply bind_runs in Hr as (? & ? & _ & [=])|].
  destruct (isolate_request req) as [isolated|] eqn:Ei; [|apply bind_runs in Hr as (? & ? & _ & [=])].
  apply bind_runs in Hr as (answer & s3 & Ha & Hr). apply bind_runs in Hr as ([] & s4 & _ & Hr).
  apply bind_runs in Hr as ([err|] & s5 & _ & Hr); [done|]. apply bind_runs in Hr as ([err|] & s6 & _ & Hr); [done|].
  injection Hr as -> _. destruct (handler_answer _ _ _ _ _ _ _ Ha) as (w & w' & d0 & ? & ?). by exists handler, isolated, w, w', d0.
Qed.

(** C6. Only outages fail open. A decision the engine acts on was either given by the
    interceptor's installed handler, to its own copy of exactly this request, and is valid for
    it; or it is CONTINUE for an interceptor registered as fail-open whose call ended in a
    timeout or reported its binding unavailable. Panics, malformed, oversized or invalid
    answers, other errors, and a missing handler never let a request pass. *)
Theorem only_outages_fail_open ctx c req started s d s' :
  decide_call e ctx c req started s = (Ok d, s') ->
  (exists handler isolated w w' d0 now, e_handlers e !! r_Binding (c_Registration c) = Some handler /\
     isolate_request req = Ok isolated /\ intercept handler isolated w = (Answers d0 None, w') /\ own_decision d0 = Ok d /\
     ValidateDecision req d started now = Ok tt) \/
  (r_FailureMode (c_Registration c) = FailOpen /\ d = continue_decision /\
   exists s1 s2 err, Executor_Call ctx c (e_handlers e !! r_Binding (c_Registration c)) req s1 = (Err err, s2) /\
     (err = ContextError true \/ exists fe, err = FabricError fe /\ err_code fe = CodeTargetUnavailable)).
Proof.
  unfold decide_call. intros Hr. apply bind_runs in Hr as ([err|] & s1 & _ & Hr); [done|].
  apply bind_runs in Hr as (answer & s2 & Ha & Hr). apply bind_runs in Hr as ([err|] & s3 & _ & Hr); [done|].
  destruct answer as [d'|err].
  - left. apply bind_runs in Hr as (now & s4 & _ & Hr). destruct (ValidateDecision req d' started now) as [[]|] eqn:Hv; [|done].
    injection Hr as -> _. destruct (executor_answer _ _ _ _ _ _ _ Ha) as (handler & isolated & w & w' & d0 & Hh & Hi & Hint & Hown).
    by exists handler, isolated, w, w', d0, now.
  - right. destruct (_ && _) eqn:Ho in Hr; [|by case_if]. injection Hr as <- _.
    apply andb_true_iff in Ho as [Hmode%str_eqb_eq Hout]. split_and!; [done..|]. exists s1, s2, err. split; [done|].
    apply orb_true_iff in Hout as [Hd|Hu]; [left; by destruct err as [|[]| |]|right].
    destruct err as [fe| | |]; try done. exists fe. split; [done|]. by apply bool_decide_eq_true_1 in Hu.
Qed.

(** A resume permit executes once. Resuming without a permit, with a used
    one, for another principal or audience, or with other original bytes or another
    state than the permit was made for calls nothing and leaves the permit as it is;
    a resumption that runs has used up its permit, and no further resumption with
    that permit calls anything. *)
Theorem resume_permit_is_single_use permit caller original state w r permit' w' log :
  ResumeStage e permit caller original state (w, []) = ((r, permit'), (w', log)) ->
  (log = [] /\ permit' = permit /\ exists err, r = Some (Err err)) \/
  (exists p raw, permit = Some p /\ rp_used p = false /\ rp_principal p = ec_principal caller /\ rp_audience p = ec_audience caller /\
     rp_originalDigest p = sha256 original /\ marshal_state state = Some raw /\ rp_stateDigest p = sha256 raw /\ is_Some r /\
     forall caller2 original2 state2 w2 r2 permit2 w2' log2,
       ResumeStage e permit' caller2 original2 state2 (w2, []) = ((r2, permit2), (w2', log2)) ->
       log2 = [] /\ permit2 = permit' /\ exists err, r2 = Some (Err err)).
Proof.
  intros Hr. unfold ResumeStage in Hr. destruct (stale_pipeline e state) eqn:Hstale; [injection Hr as <- <- <- <-; left; eauto|].
  destruct (DecodeVerifiedEnvelope _ _ _); [|injection Hr as <- <- <- <-; left; eauto].
  case_if; [injection Hr as <- <- <- <-; left; eauto|].
  destruct (consume permit caller original state) as [[[]|err] permit1] eqn:Hc.
  - right. unfold consume in Hc. destruct permit as [p|]; [|done]. destruct (marshal_state state) as [raw|] eqn:Hm; [|done].
    destruct (_ || _) eqn:Hbad; [done|]. injection Hc as <-. rewrite !orb_false_iff, !negb_false_iff in Hbad.
    destruct Hbad as [[[[Hu Hp] Ha] Ho] Hs]. apply bool_decide_eq_true_1 in Hp, Ho, Hs. apply str_eqb_eq in Ha.
    unfold HostWorld.mbind in Hr. destruct (runWithDeadline e caller original state true (w, [])) as [r0 s0] eqn:Hrun.
    destruct s0 as [w0 log0]. injection Hr as <- <- <- <-. exists p, raw. split_and!; try done.
    + apply deadline_run in Hrun as (r1 & Hrun & ->). eapply emits_run in Hrun; [|apply run_spec]; [by rewrite fmap_is_Some; destruct Hrun as (? & -> & _)|].
      unfold stale_pipeline in Hstale. rewrite !orb_false_iff in Hstale. lia.
    + intros caller2 original2 state2 w2 r2 permit2 w2' log2 Hr2. unfold ResumeStage in Hr2.
      case_if; [injection Hr2 as <- <- <- <-; eauto|].
      destruct (DecodeVerifiedEnvelope _ _ _); [|injection Hr2 as <- <- <- <-; eauto].
      case_if; [injection Hr2 as <- <- <- <-; eauto|]. unfold consume in Hr2.
      destruct (marshal_state state2); cbn in Hr2; injection Hr2 as <- <- <- <-; eauto.
  - injection Hr as <- <- <- <-. left. split; [done|]. split; [|eauto]. unfold consume in Hc.
    destruct permit as [p|]; [|by injection Hc]. destruct (marshal_state state); [|by injection Hc].
    destruct (_ || _); by injection Hc.
Qed.
End props.
End EngineProps.

(** ** A concrete engine *)
Module EngineWitness.
Import Ref Wire.Wire Model Stream.Stream Patch.Patch Manifest Protocol HostWorld Output Remote Engine.Engine Pipeline EngineLog EngineRefine PipelineProofs EngineProps.
Import RefWitness Wire.WireWitness FabricModel.ModelWitness PatchWitness PlanWitness.

(** A world answers with the decisions it holds; everything else succeeds. *)
#[export] Instance w_host : Host :=
  {| World := list Decision; Handler := unit; Upstream := unit;
     ctx_err := fun _ w => (None, w); call_err := fun _ _ w => (None, w); clock := fun w => (0, w);
     acquire := fun _ _ w => (None, w); release := fun w => (tt, w);
     intercept := fun _ _ w => match w with d :: w => (Answers d None, w) | [] => (Answers continue_decision None, []) end;
     await := fun _ _ w => (None, w);
     resolver := fun _ _ _ _ _ w => (Ok (mkMatchContext "" "" "" "" "" "" "" [] []), w);
     HostWorld.validate := fun _ _ _ _ w => (None, w);
     downstream := fun _ _ _ w => ((responds (bytes_of "{}"), None), w);
     close_stream := fun _ w => (tt, w);
     save := fun _ _ _ _ _ _ w => (("continuation", None), w) |}.

Definition w_modify : Decision := mkDecision Modify [x5b] [] None None None.
Definition w_defer : Decision := mkDecision Defer [] [] None None (Some (mkDeferral 5 ["user:ann"] true)).
Definition w_target : EndpointRef :=
  {| namespace := namespace sample_ref; endpointID := Base32.EncodeToString (replicate 32 x08); offerID := offerID sample_ref |}.
Definition w_redirect : Decision := mkDecision Redirect [] [] None (Some (mkRedirect w_target "r2")) None.
Definition w_reject : Decision := mkDecision Reject [] [] (Some (NewError CodeInvalidInput "Refused")) None None.

#[export] Instance w_output_json : OutputJson :=
  {| marshal_string := fun s => Some (bytes_of s); marshal_operations := fun _ => Some [x5b] |}.
#[export] Instance w_intercept_json : InterceptJson :=
  {| marshal_request := fun _ => Some [x7b; x7d];
     decode_request := fun _ => Some (mkRequest "" "" "" "" "" sample_envelope [] "" [] None None);
     marshal_decision := fun d => Some (bytes_of (d_Action d));
     decode_decision := fun raw => Some (if bool_decide (raw = bytes_of Modify) then w_modify
                                         else if bool_decide (raw = bytes_of Defer) then w_defer
                                         else if bool_decide (raw = bytes_of Redirect) then w_redirect
                                         else if bool_decide (raw = bytes_of Reject) then w_reject else continue_decision) |}.
#[export] Instance w_engine_json : EngineJson :=
  {| frame_deferral := fun _ _ _ id _ _ _ _ _ _ => bytes_of id; marshal_state := fun st => Some (bytes_of (ps_DeferralID st)) |}.

Definition w_plan_of (c : result Error Plan) : Plan := match c with Ok p => p | Err _ => mkPlan ∅ "" ∅ end.
Definition w_compiled : Plan := w_plan_of (Compile w_range [w_manifest] 10).
Definition w_engine : EngineConfig := mkEngine w_compiled {[ "binding" := tt ]} true 3.
Definition w_original : list byte := d_mark :: bytes_of "{}".
Definition w_caller : ExecutionContext :=
  match NewAuthenticatedContext sample_principal "aud" w_original with
  | Ok c => c
  | Err _ => mkContext None sample_principal "" [] false (mkProvenance "" "" [] 0 [] [])
  end.
Definition w_execute (w : list Decision) := ExecuteStage w_engine w_caller w_original "aud" "invoke.dispatch" "source" (w, []).

Lemma w_compiled_plan : Compile w_range [w_manifest] 10 = Ok w_compiled.
Proof. unfold w_compiled. destruct w_plan as [p ->]. reflexivity. Defined.

Definition w_shape (ev : Event) : string :=
  match ev with
  | ESelect _ _ _ => "select"
  | ECall c req _ => ir_Phase req ++ " " ++ r_ID (c_Registration c)
  | EValidate _ _ _ => "validate"
  | EDownstream envelope _ => "execute " ++ string_of (v_Payload envelope)
  | ESave _ _ _ => "save"
  end.

(** The first interceptor of the chain modifies the payload, the second continues. *)
Lemma w_modified_log : w_shape <$> (w_execute [w_modify; continue_decision]).2.2 =
  ["select"; "request acme.guard.second"; "request acme.guard.first"; "validate"; "execute []";
   "response acme.guard.first"; "response acme.guard.second"].
Proof. vm_compute. reflexivity. Defined.

(** The second interceptor defers. *)
Lemma w_deferred_log : w_shape <$> (w_execute [continue_decision; w_defer]).2.2 =
  ["select"; "request acme.guard.second"; "request acme.guard.first"; "save"].
Proof. vm_compute. reflexivity. Defined.

(** The first interceptor redirects; the chain of the new target lets pass. *)
Lemma w_redirected_log : w_shape <$> (w_execute [w_redirect; continue_decision; continue_decision]).2.2 =
  ["select"; "request acme.guard.second"; "select"; "request acme.guard.second"; "request acme.guard.first"; "validate";
   "execute {}"; "response acme.guard.first"; "response acme.guard.second"; "response acme.guard.second"].
Proof. vm_compute. reflexivity. Defined.

Definition endpoints (log : list Event) : list Envelope :=
  omap (fun ev => match ev with EDownstream v _ => Some v | _ => None end) log.
Definition saves (log : list Event) : list (PipelineState * CompiledRegistration) :=
  omap (fun ev => match ev with ESave st c _ => Some (st, c) | _ => None end) log.

Lemma elem_of_endpoints log v : v ∈ endpoints log -> exists answer, EDownstream v answer ∈ log.
Proof.
  unfold endpoints. intros (ev & Hin & E)%list_elem_of_omap. destruct ev; try discriminate E. injection E as ->. eexists. exact Hin.
Qed.
Lemma elem_of_saves log st c : (st, c) ∈ saves log -> exists answer, ESave st c answer ∈ log.
Proof.
  unfold saves. intros (ev & Hin & E)%list_elem_of_omap. destruct ev; try discriminate E. injection E as -> ->. eexists. exact Hin.
Qed.

Lemma w_endpoint : exists v answer, EDownstream v answer ∈ (w_execute [w_modify; continue_decision]).2.2.
Proof.
  assert (length (endpoints (w_execute [w_modify; continue_decision]).2.2) = 1%nat) as Hl by (vm_compute; reflexivity).
  destruct (endpoints (w_execute [w_modify; continue_decision]).2.2) as [|v l] eqn:E; [discriminate Hl|].
  destruct (elem_of_endpoints (w_execute [w_modify; continue_decision]).2.2 v) as [answer Ha]; [rewrite E; by left|].
  exists v, answer. exact Ha.
Defined.

Lemma w_saved : exists st c answer, ESave st c answer ∈ (w_execute [continue_decision; w_defer]).2.2.
Proof.
  assert (length (saves (w_execute [continue_decision; w_defer]).2.2) = 1%nat) as Hl by (vm_compute; reflexivity).
  destruct (saves (w_execute [continue_decision; w_defer]).2.2) as [|[st c] l] eqn:E; [discriminate Hl|].
  destruct (elem_of_saves (w_execute [continue_decision; w_defer]).2.2 st c) as [answer Ha]; [rewrite E; by left|].
  exists st, c, answer. exact Ha.
Defined.

#[export] Instance w_reads_back : ReadsBack.
Proof.
  split.
  - intros v d t _ _. cbn [marshal_envelope d_envelope_json]. case_bool_decide as E; [|done]. intros [= <-] Hd.
    exists (d_envelope (v_Payload v)). split; [|by rewrite <- E]. unfold decode_document in Hd. unfold decode_result.
    destruct (DecodeJSON any_types (d_mark :: v_Payload v) (Some 0%nat) _) as [[]|] eqn:Ea; [|done].
    unfold DecodeJSON, DecodeJSONWithLimits in *. rinv. rewrite E in *.
    repeat match goal with Hx : ?b = false |- context [?b] => rewrite Hx end.
    repeat match goal with Hx : ?b = true |- context [?b] => rewrite Hx end. reflexivity.
  - intros d v. cbn [decode_envelope d_envelope_json]. destruct d as [|c rest]; [done|]. case_bool_decide; [|done].
    intros [= <-]. reflexivity.
Defined.

(** The second interceptor rejects, and its failure is the result of the pipeline. *)
Lemma engine_refines_witness :
  exists r w' log, w_execute [continue_decision; w_reject] = (r, (w', log)) /\
    r = Some (Err (FabricError (NewError CodeInvalidInput "Refused"))) /\
    exists envelope chain log', log = ESelect "invoke.dispatch" envelope chain :: log' /\
      traces w_compiled 3 true (Asking chain [] (first_state w_engine envelope "invoke.dispatch" "source")) log'
        (Done (Err (FabricError (NewError CodeInvalidInput "Refused")))).
Proof.
  assert ((w_execute [continue_decision; w_reject]).1 = Some (Err (FabricError (NewError CodeInvalidInput "Refused")))) as Hres
    by (vm_compute; reflexivity).
  assert (length (w_execute [continue_decision; w_reject]).2.2 <> 0%nat) as Hlen by (vm_compute; discriminate).
  destruct (w_execute [continue_decision; w_reject]) as [r [w' log]] eqn:E. simpl in Hres, Hlen. subst r.
  eexists _, w', log. split; [reflexivity|]. split; [reflexivity|].
  destruct (engine_refines_pipeline w_engine w_caller w_original "aud" "invoke.dispatch" "source" _ _ _ _ E)
    as [(err & _ & -> & _)|(envelope & chain & log' & r0 & _ & Hlog & _ & Hr & Ht)]; [destruct (Hlen eq_refl)|].
  exists envelope, chain, log'. split; [exact Hlog|]. destruct r0 as [o|err]; [discriminate Hr|].
  simpl in Hr. injection Hr as <-. exact Ht.
Defined.

Lemma endpoint_behind_witness :
  exists r w' log v answer, w_execute [w_modify; continue_decision] = (r, (w', log)) /\ EDownstream v answer ∈ log /\
    exists before s v' chain asked s' after,
      log = before ++ ESelect s v' chain :: asked ++ EValidate s' v None :: EDownstream v answer :: after.
Proof.
  destruct w_endpoint as (v & answer & Hv). destruct (w_execute [w_modify; continue_decision]) as [r [w' log]] eqn:E.
  exists r, w', log, v, answer. split; [reflexivity|]. split; [exact Hv|].
  destruct (endpoint_behind_all_interceptors w_engine w_caller w_original "aud" "invoke.dispatch" "source" _ _ _ _ v answer E Hv)
    as (before & s & v' & chain & asked & s' & after & Hlog & _). exists before, s, v', chain, asked, s', after. exact Hlog.
Defined.

(** A run that is redirected once. *)
Lemma redirects_terminate_witness :
  exists r w' log, w_execute [w_redirect; continue_decision; continue_decision] = (r, (w', log)) /\ is_Some r /\
    selects_in log = 2%nat /\ Z.of_nat (selects_in log) <= 4.
Proof.
  assert (selects_in (w_execute [w_redirect; continue_decision; continue_decision]).2.2 = 2%nat) as Hn by (vm_compute; reflexivity).
  destruct (w_execute [w_redirect; continue_decision; continue_decision]) as [r [w' log]] eqn:E. exists r, w', log.
  split; [reflexivity|].
  destruct (redirects_terminate w_engine w_caller w_original "aud" "invoke.dispatch" "source" _ _ _ _ ltac:(simpl; lia) E)
    as (Hs & Hr & _).
  split; [exact Hs|]. split; [exact Hn|exact Hr].
Defined.

(** An endpoint that runs, and a continuation that is saved. *)
Lemma pipeline_preserves_witness :
  (exists r w' log v answer, w_execute [w_modify; continue_decision] = (r, (w', log)) /\ EDownstream v answer ∈ log /\
    v_Principal v = ec_principal w_caller) /\
  (exists r w' log saved c answer, w_execute [continue_decision; w_defer] = (r, (w', log)) /\ ESave saved c answer ∈ log /\
    v_Principal (ps_Envelope saved) = ec_principal w_caller).
Proof.
  split.
  - destruct w_endpoint as (v & answer & Hv). destruct (w_execute [w_modify; continue_decision]) as [r [w' log]] eqn:E.
    exists r, w', log, v, answer. split; [reflexivity|]. split; [exact Hv|].
    destruct (pipeline_preserves_caller w_engine w_caller w_original "aud" "invoke.dispatch" "source" _ _ _ _ _ v d_laws w_reads_back
      E Hv eq_refl) as (_ & Hp & _). exact Hp.
  - destruct w_saved as (saved & c & answer & Hs). destruct (w_execute [continue_decision; w_defer]) as [r [w' log]] eqn:E.
    exists r, w', log, saved, c, answer. split; [reflexivity|]. split; [exact Hs|].
    destruct (pipeline_preserves_caller w_engine w_caller w_original "aud" "invoke.dispatch" "source" _ _ _ _ _ (ps_Envelope saved)
      d_laws w_reads_back E Hs eq_refl) as (_ & Hp & _). exact Hp.
Defined.

Lemma suspension_witness :
  exists r w' log saved c answer, w_execute [continue_decision; w_defer] = (r, (w', log)) /\ ESave saved c answer ∈ log /\
    is_Some (run w_engine (Lifetime None) w_caller w_original saved true ([], [])).1.
Proof.
  destruct w_saved as (saved & c & answer & Hs). destruct (w_execute [continue_decision; w_defer]) as [r [w' log]] eqn:E.
  exists r, w', log, saved, c, answer. split; [reflexivity|]. split; [exact Hs|].
  destruct (suspension_is_transparent w_engine w_range [w_manifest] 10 w_caller w_original "aud" "invoke.dispatch" "source"
    _ _ _ _ saved c answer w_range_order w_compiled_plan E Hs) as (v & chain & before & req & d & _ & _ & Hresume).
  destruct (run w_engine (Lifetime None) w_caller w_original saved true ([], [])) as [r2 [w2 log2]] eqn:E2.
  destruct (Hresume _ _ _ _ _ _ _ E2) as (r3 & Hr & _). simpl. rewrite Hr. eexists. reflexivity.
Defined.

Definition w_state : PipelineState :=
  match saves (w_execute [continue_decision; w_defer]).2.2 with
  | (st, _) :: _ => st
  | [] => first_state w_engine sample_envelope "" ""
  end.
Definition w_permit : option ResumePermit :=
  match NewVerifiedResumePermit w_caller w_original w_state with Ok p => Some p | Err _ => None end.
Definition w_resume (permit : option ResumePermit) := ResumeStage w_engine permit w_caller w_original w_state ([], []).

Lemma w_resumed_log : w_shape <$> (w_resume w_permit).2.2 =
  ["validate"; "execute {}"; "response acme.guard.first"; "response acme.guard.second"].
Proof. vm_compute. reflexivity. Defined.

Lemma resume_permit_witness :
  exists r permit w' log, w_resume w_permit = ((r, permit), (w', log)) /\ log <> [] /\ (w_resume permit).2.2 = [].
Proof.
  pose proof w_resumed_log as Hlog. destruct (w_resume w_permit) as [[r permit] [w' log]] eqn:E.
  exists r, permit, w', log. split; [reflexivity|].
  assert (log <> []) as Hne by (intros ->; discriminate Hlog). split; [exact Hne|]. unfold w_resume in E.
  destruct (resume_permit_is_single_use w_engine w_permit w_caller w_original w_state _ _ _ _ _ E)
    as [(Hl & _)|(p & raw & _ & _ & _ & _ & _ & _ & _ & _ & Hagain)]; [contradiction|].
  unfold w_resume. destruct (ResumeStage w_engine permit _ _ _ _) as [[r2 permit2] [w2 log2]] eqn:E2. destruct (Hagain _ _ _ _ _ _ _ _ E2) as [Hl _]. exact Hl.
Defined.
Definition w_first : CompiledRegistration := mkCompiled "acme.guard" (w_registration "acme.guard.first" 1 []).
Definition w_ask : InterceptRequest := request sample_envelope "invoke.dispatch" w_first PhaseRequest.

Lemma only_outages_witness :
  exists d s', decide_call w_engine (Lifetime None) w_first w_ask false ([w_modify], []) = (Ok d, s') /\
    exists handler isolated w w' d0, intercept handler isolated w = (Answers d0 None, w') /\ own_decision d0 = Ok d.
Proof.
  assert (is_ok (decide_call w_engine (Lifetime None) w_first w_ask false ([w_modify], [])).1 = true) as Hok by (vm_compute; reflexivity).
  destruct (decide_call w_engine (Lifetime None) w_first w_ask false ([w_modify], [])) as [[d|err] s'] eqn:E; [|discriminate Hok].
  exists d, s'. split; [reflexivity|].
  destruct (only_outages_fail_open w_engine (Lifetime None) w_first w_ask false _ _ _ E)
    as [(handler & isolated & w & w' & d0 & now & _ & _ & Hi & Ho & _)|(Hmode & _)]; [|discriminate Hmode].
  exists handler, isolated, w, w', d0. split; assumption.
Defined.
End EngineWitness.
