(* ===== verification/LocalBus.v ===== *)
(** * The volatile local event bus (src/fabric/events/local.go)

    Each observer has a ring buffer and one worker. [TryPublish] admits an event
    for all matching observers or for none; a worker peeks at the head of its ring,
    delivers it with retries while the bus lock is free, and then removes it. The
    bus is a step machine over its critical sections; handlers, clocks and
    cancellation are inputs of the steps.

    Refinement: the rings implement one FIFO queue per observer. *)
From Stdlib Require Import Strings.Byte ZArith Lia.
From S2P Require Import Prelude GoStrings FabricRef Framing Wire FabricModel Events Stream.
#[local] Open Scope Z_scope.

Module LocalBus.
Import Events.

Record LSubscription := mkLSub { ls_ID : string; ls_Types : list string; ls_Handler : bool }.

Record LocalConfig := mkLocalConfig {
  lc_Subscriptions : list LSubscription; lc_MaxSubscriptions : Z; lc_QueueDepth : Z;
  lc_MaxQueueBytes : Z; lc_MaxEventBytes : Z; lc_Timeout : Duration; lc_RetryDelay : Duration;
  lc_Retention : Duration; lc_MaxAttempts : Z }.

(** uint64 counters; Bytes is an int64. *)
Record Stats := mkStats {
  Accepted : Z; Rejected : Z; Delivered : Z; Retries : Z; Expired : Z; st_Pending : Z; st_Bytes : Z }.

Record delivery := mkLocalDelivery { dv_raw : list byte; dv_expires : Time }.

(** The ring of an observer: slots, head and number of entries. *)
Record observer := mkObserver {
  o_queue : list (option delivery); o_head : nat; o_count : nat }.

(** Where the worker of an observer is in [consume]: at the top of its loop, in
    the attempt loop with the delivery it peeked, or returned. *)
Inductive worker := Waiting | Working (d : delivery) | Exited.

(** [byType] holds observer positions, as the source holds pointers. *)
Record Local := mkLocal {
  l_config : LocalConfig; l_byType : gmap string (list nat); l_observers : list observer;
  l_workers : list worker; l_stats : Stats; l_closed : bool; l_done : bool }.

Definition inputErr (m : string) : Error := NewError CodeInvalidInput m.

(** ** NewLocal *)
Definition local_limits_ok (c : LocalConfig) : bool :=
  negb ((lc_MaxSubscriptions c <? 1) || (100000 <? lc_MaxSubscriptions c) ||
        (lc_MaxSubscriptions c <? Z.of_nat (length (lc_Subscriptions c))) ||
        (lc_QueueDepth c <? 1) || (65536 <? lc_QueueDepth c) ||
        (lc_MaxEventBytes c <? 1) || (2 ^ 20 <? lc_MaxEventBytes c) ||
        (lc_MaxQueueBytes c <? lc_MaxEventBytes c) || (lc_Timeout c <=? 0) ||
        (time_Minute <? lc_Timeout c) || (lc_RetryDelay c <=? 0) || (time_Minute <? lc_RetryDelay c) ||
        (lc_Retention c <=? 0) || (30 * 24 * time_Hour <? lc_Retention c) ||
        (lc_MaxAttempts c <? 1) || (100000 <? lc_MaxAttempts c)).

Fixpoint register_types (i : nat) (seen : list string) (kinds : list string)
    (m : gmap string (list nat)) : result Error (gmap string (list nat)) :=
  match kinds with
  | [] => Ok m
  | kind :: kinds' =>
      let? _ := guard (ValidNamespacedName kind && negb (bool_decide (kind ∈ seen)))
                  (inputErr "Invalid event subscription type") in
      register_types i (kind :: seen) kinds' (<[kind := default [] (m !! kind) ++ [i]]> m)
  end.

Fixpoint register_subs (i : nat) (seen : list string) (subs : list LSubscription)
    (m : gmap string (list nat)) : result Error (gmap string (list nat)) :=
  match subs with
  | [] => Ok m
  | s :: subs' =>
      let? _ := guard (ValidNamespacedName (ls_ID s) && negb (bool_decide (ls_ID s ∈ seen)) &&
                       ls_Handler s && (1 <=? Z.of_nat (length (ls_Types s))) &&
                       (Z.of_nat (length (ls_Types s)) <=? 64))
                  (inputErr "Invalid event subscription") in
      let? m := register_types i [] (ls_Types s) m in
      register_subs (S i) (ls_ID s :: seen) subs' m
  end.

Definition new_observer (c : LocalConfig) : observer :=
  mkObserver (replicate (Z.to_nat (lc_QueueDepth c)) None) 0 0.

Definition set_no_subscriptions (c : LocalConfig) : LocalConfig :=
  mkLocalConfig [] (lc_MaxSubscriptions c) (lc_QueueDepth c) (lc_MaxQueueBytes c)
    (lc_MaxEventBytes c) (lc_Timeout c) (lc_RetryDelay c) (lc_Retention c) (lc_MaxAttempts c).

Definition NewLocal (c : LocalConfig) : result Error Local :=
  let? _ := guard (local_limits_ok c) (inputErr "Invalid local event bus limits") in
  let n := length (lc_Subscriptions c) in
  let? _ := guard (negb (lc_MaxQueueBytes c <? Z.of_nat n * lc_QueueDepth c * 8))
              (inputErr "Event queue slot allocation exceeds configured budget") in
  let? m := register_subs 0 [] (lc_Subscriptions c) ∅ in
  Ok (mkLocal (set_no_subscriptions c) m (replicate n (new_observer c)) (replicate n Waiting)
        (mkStats 0 0 0 0 0 0 0) false false).

(** ** TryPublish *)
Definition set_stats (b : Local) (s : Stats) : Local :=
  mkLocal (l_config b) (l_byType b) (l_observers b) (l_workers b) s (l_closed b) (l_done b).

Definition reject (b : Local) : Local :=
  let s := l_stats b in
  set_stats b (mkStats (Accepted s) (wrapu64 (Rejected s + 1)) (Delivered s) (Retries s) (Expired s)
                 (st_Pending s) (st_Bytes s)).

Definition full (b : Local) (i : nat) : bool :=
  match l_observers b !! i with
  | Some o => Nat.eqb (o_count o) (length (o_queue o))
  | None => false
  end.

(** [o.queue[(o.head+o.count)%len(o.queue)] = d; o.count++] *)
Definition push (d : delivery) (o : observer) : observer :=
  mkObserver (<[((o_head o + o_count o) mod length (o_queue o))%nat := Some d]> (o_queue o))
    (o_head o) (S (o_count o)).

Definition push_all (d : delivery) (matched : list nat) (os : list observer) : list observer :=
  fold_left (fun os i => alter (push d) i os) matched os.

Section publish.
Context `{Wire.JsonDecoder, CloudEvents}.

Definition busError (m : string) : CallError := FabricError (NewError CodeTargetUnavailable m).

(** [ctx] is ctx.Err(), [now] is time.Now(). *)
Definition TryPublish (b : Local) (ctx : option CallError) (now : Time) (e : Event) :
    result CallError unit * Local :=
  match ctx with
  | Some err => (Err err, b)
  | None =>
      match Encode e (lc_MaxEventBytes (l_config b)) with
      | Err err => (Err (FabricError err), b)
      | Ok raw =>
          if l_closed b then (Err (busError "Event bus is closed"), b)
          else
            let matched := default [] (l_byType b !! ev_Type e) in
            let needed := blen raw * Z.of_nat (length matched) in
            let s := l_stats b in
            if lc_MaxQueueBytes (l_config b) - st_Bytes s <? needed
            then (Err (busError "Event queue capacity exceeded"), reject b)
            else if existsb (full b) matched
            then (Err (busError "Event queue capacity exceeded"), reject b)
            else
              let d := mkLocalDelivery raw (now + lc_Retention (l_config b)) in
              (Ok tt,
               mkLocal (l_config b) (l_byType b) (push_all d matched (l_observers b)) (l_workers b)
                 (mkStats (wrapu64 (Accepted s + 1)) (Rejected s) (Delivered s) (Retries s) (Expired s)
                    (wrapu64 (st_Pending s + Z.of_nat (length matched))) (wrap64 (st_Bytes s + needed)))
                 (l_closed b) (l_done b))
      end
  end.
(** ** consume *)
(** The lock section at the top of the loop. *)
Definition peek (o : observer) : option delivery := (o_queue o !! o_head o) ≫= id.

Definition set_worker (b : Local) (i : nat) (w : worker) : Local :=
  mkLocal (l_config b) (l_byType b) (l_observers b) (<[i := w]> (l_workers b)) (l_stats b)
    (l_closed b) (l_done b).

Definition consume_top (b : Local) (i : nat) : option Local :=
  match l_workers b !! i, l_observers b !! i with
  | Some Waiting, Some o =>
      if l_closed b then Some (set_worker b i Exited)
      else if Nat.eqb (o_count o) 0 then Some b
      else match peek o with
           | Some d => Some (set_worker b i (Working d))
           | None => None
           end
  | _, _ => None
  end.

(** One attempt: whether time.Now() was before the expiry, whether the bus was
    cancelled, the result of the handler on the decoded event (false for an error
    or a panic, see [callObserver]) and whether the context of the attempt was
    still alive after it. *)
Record Attempt := mkAttempt {
  at_before_expiry : bool; at_cancelled : bool; at_handler : Event -> bool; at_ctx_ok : bool }.

Definition attempt_ok (c : LocalConfig) (d : delivery) (a : Attempt) : bool :=
  match Decode (dv_raw d) (lc_MaxEventBytes c) with
  | Ok e => at_handler a e && at_ctx_ok a
  | Err _ => false
  end.

(** The attempt loop, with what happens at each attempt: the number of retries
    it counts, and whether it delivered. The fuel is MaxAttempts. *)
Fixpoint attempt_loop (c : LocalConfig) (d : delivery) (fuel : nat) (attempt : Z)
    (outcome : Z -> Attempt) : Z * bool :=
  match fuel with
  | O => (0, false)
  | S fuel =>
      let a := outcome attempt in
      if negb (attempt <? lc_MaxAttempts c) || negb (at_before_expiry a) then (0, false)
      else if at_cancelled a then (0, false)
      else if attempt_ok c d a then (0, true)
      else let retry := if attempt + 1 <? lc_MaxAttempts c then 1 else 0 in
           let '(n, delivered) := attempt_loop c d fuel (attempt + 1) outcome in (retry + n, delivered)
  end.

Definition attempts (c : LocalConfig) (d : delivery) (outcome : Z -> Attempt) : Z * bool :=
  attempt_loop c d (Z.to_nat (lc_MaxAttempts c)) 0 outcome.

(** [o.queue[o.head] = nil; o.head = (o.head+1)%len(o.queue); o.count--] *)
Definition pop (o : observer) : observer :=
  mkObserver (<[o_head o := None]> (o_queue o)) (((o_head o + 1) mod length (o_queue o))%nat)
    (o_count o - 1).

(** The lock section at the bottom of the loop, with the retries counted on the
    way. *)
Definition consume_bottom (b : Local) (i : nat) (outcome : Z -> Attempt) : option Local :=
  match l_workers b !! i with
  | Some (Working d) =>
      let '(retries, delivered) := attempts (l_config b) d outcome in
      let s := l_stats b in
      Some (mkLocal (l_config b) (l_byType b) (alter pop i (l_observers b))
              (<[i := Waiting]> (l_workers b))
              (mkStats (Accepted s) (Rejected s)
                 (if delivered then wrapu64 (Delivered s + 1) else Delivered s)
                 (wrapu64 (Retries s + retries))
                 (if delivered then Expired s else wrapu64 (Expired s + 1))
                 (wrapu64 (st_Pending s - 1)) (wrap64 (st_Bytes s - blen (dv_raw d))))
              (l_closed b) (l_done b))
  | _ => None
  end.

End publish.

(** [Close] sets the flag and cancels the lifetime. *)
Definition Local_Close (b : Local) : Local :=
  mkLocal (l_config b) (l_byType b) (l_observers b) (l_workers b) (l_stats b) true (l_done b).

(** The goroutine that waits for every worker and then clears the rings. *)
Definition clear_observer (o : observer) : observer :=
  mkObserver (replicate (length (o_queue o)) None) (o_head o) 0.

Definition shutdown (b : Local) : option Local :=
  if negb (l_done b) &&
     forallb (fun w => match w with Exited => true | _ => false end) (l_workers b) then
    let s := l_stats b in
    Some (mkLocal (l_config b) (l_byType b) (clear_observer <$> l_observers b) (l_workers b)
            (mkStats (Accepted s) (Rejected s) (Delivered s) (Retries s)
               (wrapu64 (Expired s + st_Pending s)) 0 0) (l_closed b) true)
  else None.
End LocalBus.

Module LocalInv.
Import Events LocalBus.

(** ** A ring holds a queue *)
Definition slot (o : observer) (i : nat) : nat := ((o_head o + i) mod length (o_queue o))%nat.

Record ring (o : observer) (l : list delivery) : Prop := {
  ring_depth : (o_head o < length (o_queue o))%nat;
  ring_count : o_count o = length l;
  ring_fits : (length l <= length (o_queue o))%nat;
  ring_slot i d : l !! i = Some d -> o_queue o !! slot o i = Some (Some d);
}.

Lemma slot_inj o i j : (0 < length (o_queue o))%nat ->
  (i < length (o_queue o))%nat -> (j < length (o_queue o))%nat -> slot o i = slot o j -> i = j.
Proof.
  unfold slot. set (n := length (o_queue o)). set (h := o_head o). intros Hn Hi Hj Heq.
  pose proof (Nat.div_mod_eq (h + i) n) as Hdi. pose proof (Nat.div_mod_eq (h + j) n) as Hdj.
  rewrite Heq in Hdi. remember ((h + i) / n)%nat as a. remember ((h + j) / n)%nat as b.
  destruct (Nat.lt_trichotomy a b) as [Hab|[->|Hab]]; [|lia|].
  - assert (n * b >= n * a + n)%nat by nia. lia.
  - assert (n * a >= n * b + n)%nat by nia. lia.
Qed.

Lemma ring_push o l d :
  ring o l -> (length l < length (o_queue o))%nat -> ring (push d o) (l ++ [d]).
Proof.
  intros [Hd Hc Hf Hs] Hlt. unfold push. rewrite Hc.
  assert ((o_head o + length l) mod length (o_queue o) = slot o (length l))%nat as -> by done.
  constructor; cbn; rewrite ?length_insert, ?length_app; cbn; try done; try lia.
  intros i x Hx.
  assert (slot (mkObserver (<[slot o (length l) := Some d]> (o_queue o)) (o_head o) (S (length l))) i
          = slot o i) as -> by (unfold slot; cbn; by rewrite length_insert).
  apply lookup_app_Some in Hx as [Hx|[Hle Hx]].
  - pose proof (lookup_lt_Some _ _ _ Hx). rewrite list_lookup_insert_ne; [by apply Hs|].
    intros Heq. apply slot_inj in Heq; lia.
  - apply list_lookup_singleton_Some in Hx as [Hi <-]. replace i with (length l) by lia.
    apply list_lookup_insert_eq. unfold slot. apply Nat.mod_upper_bound. lia.
Qed.

Lemma ring_peek o d l : ring o (d :: l) -> peek o = Some d.
Proof.
  intros [Hd Hc Hf Hs]. specialize (Hs 0%nat d eq_refl). unfold slot in Hs.
  rewrite Nat.add_0_r, Nat.mod_small in Hs by done. unfold peek. by rewrite Hs.
Qed.

Lemma ring_pop o d l : ring o (d :: l) -> ring (pop o) l.
Proof.
  intros [Hd Hc Hf Hs]. unfold pop. cbn in Hc, Hf. constructor; cbn; rewrite ?length_insert; try lia.
  - apply Nat.mod_upper_bound. lia.
  - intros i x Hx.
    assert (slot (mkObserver (<[o_head o := None]> (o_queue o)) ((o_head o + 1) mod length (o_queue o))
              (o_count o - 1)) i = slot o (S i)) as ->.
    { unfold slot. cbn. rewrite length_insert, Nat.Div0.add_mod_idemp_l. f_equal. lia. }
    pose proof (lookup_lt_Some _ _ _ Hx).
    rewrite list_lookup_insert_ne; [by apply (Hs (S i))|].
    assert (o_head o = slot o 0) as -> by (unfold slot; by rewrite Nat.add_0_r, Nat.mod_small).
    intros Heq. apply slot_inj in Heq; lia.
Qed.

(** ** The bus implements a list of FIFO queues *)
Definition queued (qs : list (list delivery)) : Z := foldr (fun q n => Z.of_nat (length q) + n) 0 qs.
Definition queue_bytes (q : list delivery) : Z := foldr (fun d n => blen (dv_raw d) + n) 0 q.
Definition total_queue_bytes (qs : list (list delivery)) : Z := foldr (fun q n => queue_bytes q + n) 0 qs.

Record bus_inv (b : Local) (qs : list (list delivery)) : Prop := {
  bi_rings : Forall2 ring (l_observers b) qs;
  bi_depth : Forall (fun o => Z.of_nat (length (o_queue o)) = lc_QueueDepth (l_config b)) (l_observers b);
  bi_workers : length (l_workers b) = length qs;
  bi_size : Z.of_nat (length qs) <= 100000;
  bi_config : 1 <= lc_QueueDepth (l_config b) <= 65536 /\ lc_MaxQueueBytes (l_config b) <= max_int64;
  bi_types kind matched : l_byType b !! kind = Some matched ->
    NoDup matched /\ forall i, i ∈ matched -> (i < length qs)%nat;
  bi_working i d : l_workers b !! i = Some (Working d) -> exists q, qs !! i = Some (d :: q);
  bi_pending : st_Pending (l_stats b) = queued qs;
  bi_bytes : st_Bytes (l_stats b) = total_queue_bytes qs;
  bi_bytes_max : total_queue_bytes qs <= Z.max 0 (lc_MaxQueueBytes (l_config b));
}.

Lemma queue_bytes_nonneg q : 0 <= queue_bytes q.
Proof. induction q as [|d q IH]; simpl; [lia|]. unfold blen. lia. Qed.

Lemma total_bytes_nonneg qs : 0 <= total_queue_bytes qs.
Proof. induction qs as [|q qs IH]; simpl; [lia|]. pose proof (queue_bytes_nonneg q). lia. Qed.

Lemma queue_bytes_app q r : queue_bytes (q ++ r) = queue_bytes q + queue_bytes r.
Proof. unfold queue_bytes. induction q as [|d q IH]; simpl; [lia|]. rewrite IH. lia. Qed.

Lemma replicate_empty n : queued (replicate n []) = 0 /\ total_queue_bytes (replicate n []) = 0.
Proof.
  induction n as [|n [IH1 IH2]]; [done|]. cbn.
  fold (queued (replicate n [])) (total_queue_bytes (replicate n [])). by rewrite IH1, IH2.
Qed.

Lemma queued_bound os qs n : 0 <= n ->
  Forall2 ring os qs -> Forall (fun o => Z.of_nat (length (o_queue o)) = n) os ->
  0 <= queued qs <= n * Z.of_nat (length qs).
Proof.
  intros Hn. induction 1 as [|o q os qs Hr _ IH]; intros Hd; simpl; [lia|].
  apply Forall_cons in Hd as [Ho Hd]. specialize (IH Hd). destruct Hr as [_ _ Hf _].
  fold (queued qs). lia.
Qed.

(** One entry of the list of queues replaced. *)
Lemma queued_insert qs i q q' : qs !! i = Some q ->
  queued (<[i := q']> qs) = queued qs - Z.of_nat (length q) + Z.of_nat (length q').
Proof.
  revert i. induction qs as [|x qs IH]; intros [|i] Hq; simpl in *; simplify_eq; [lia|].
  fold (queued (<[i := q']> qs)). fold (queued qs). rewrite (IH i) by done. lia.
Qed.

Lemma bytes_insert qs i q q' : qs !! i = Some q ->
  total_queue_bytes (<[i := q']> qs) = total_queue_bytes qs - queue_bytes q + queue_bytes q'.
Proof.
  revert i. induction qs as [|x qs IH]; intros [|i] Hq; simpl in *; simplify_eq; [lia|].
  fold (total_queue_bytes (<[i := q']> qs)). fold (total_queue_bytes qs). rewrite (IH i) by done. lia.
Qed.

(** The abstract effect of a publish: [d] appended for the matching observers. *)
Definition append_all (d : delivery) (matched : list nat) (qs : list (list delivery)) : list (list delivery) :=
  fold_left (fun qs i => alter (fun q => q ++ [d]) i qs) matched qs.

Lemma Forall2_alter {A B} (P : A -> B -> Prop) f g i l k :
  Forall2 P l k -> (forall x y, l !! i = Some x -> k !! i = Some y -> P x y -> P (f x) (g y)) ->
  Forall2 P (alter f i l) (alter g i k).
Proof.
  intros HP Hfg. apply Forall2_same_length_lookup. rewrite !length_alter.
  split; [by eapply Forall2_length|]. intros j x y Hx Hy.
  destruct (decide (i = j)) as [<-|Hne].
  - rewrite list_lookup_alter_eq in Hx. rewrite list_lookup_alter_eq in Hy. apply fmap_Some in Hx as (x0 & Hx & ->).
    apply fmap_Some in Hy as (y0 & Hy & ->). apply Hfg; try done. by eapply Forall2_lookup_lr.
  - rewrite list_lookup_alter_ne in Hx by done. rewrite list_lookup_alter_ne in Hy by done. by eapply Forall2_lookup_lr.
Qed.

Lemma push_all_refines d matched : forall os qs n,
  Forall2 ring os qs -> Forall (fun o => Z.of_nat (length (o_queue o)) = n) os -> NoDup matched ->
  (forall i o, i ∈ matched -> os !! i = Some o -> (o_count o < length (o_queue o))%nat) ->
  Forall2 ring (push_all d matched os) (append_all d matched qs) /\
  Forall (fun o => Z.of_nat (length (o_queue o)) = n) (push_all d matched os).
Proof.
  induction matched as [|i matched IH]; intros os qs n Hr Hd Hnd Hroom; [done|].
  apply NoDup_cons in Hnd as [Hi Hnd]. cbn [push_all append_all fold_left].
  apply (IH _ _ n).
  - apply Forall2_alter; [done|]. intros o q Ho Hq Hring. apply ring_push; [done|].
    rewrite <- (ring_count _ _ Hring). apply (Hroom i); [left|done].
  - apply Forall_alter; [done|]. intros o _ Ho. cbn. by rewrite length_insert.
  - done.
  - intros j o Hj Ho. rewrite list_lookup_alter_ne in Ho by (by intros ->). apply (Hroom j); [by right|done].
Qed.

Lemma append_all_length d matched qs : length (append_all d matched qs) = length qs.
Proof.
  revert qs. induction matched as [|i m IH]; intros qs; [done|].
  change (append_all d (i :: m) qs) with (append_all d m (alter (fun q => q ++ [d]) i qs)).
  by rewrite IH, length_alter.
Qed.

Lemma append_all_lookup d matched qs i : NoDup matched ->
  append_all d matched qs !! i =
  (fun q => if bool_decide (i ∈ matched) then q ++ [d] else q) <$> qs !! i.
Proof.
  revert qs. induction matched as [|j m IH]; intros qs Hnd; cbn [append_all fold_left].
  - rewrite bool_decide_eq_false_2 by (by intros ?%elem_of_nil). symmetry. apply option_fmap_id.
  - apply NoDup_cons in Hnd as [Hj Hnd]. fold (append_all d m (alter (fun q => q ++ [d]) j qs)).
    rewrite IH by done. destruct (decide (j = i)) as [->|Hne].
    + rewrite list_lookup_alter_eq, (bool_decide_eq_false_2 (i ∈ m)) by done.
      rewrite bool_decide_eq_true_2 by left. by destruct (qs !! i).
    + rewrite list_lookup_alter_ne by done.
      assert (bool_decide (i ∈ j :: m) = bool_decide (i ∈ m)) as ->; [|done].
      apply bool_decide_ext. rewrite elem_of_cons. naive_solver.
Qed.

Lemma append_all_totals d matched : forall qs,
  (forall i, i ∈ matched -> (i < length qs)%nat) ->
  queued (append_all d matched qs) = queued qs + Z.of_nat (length matched) /\
  total_queue_bytes (append_all d matched qs) =
    total_queue_bytes qs + blen (dv_raw d) * Z.of_nat (length matched).
Proof.
  induction matched as [|i m IH]; intros qs Hlt; cbn [append_all fold_left length]; [lia|].
  fold (append_all d m (alter (fun q => q ++ [d]) i qs)).
  destruct (lookup_lt_is_Some_2 qs i) as [q Hq]; [apply Hlt; left|].
  assert (alter (fun q => q ++ [d]) i qs = <[i := q ++ [d]]> qs) as Ha.
  { apply list_eq. intros j. destruct (decide (i = j)) as [<-|Hne].
    - rewrite list_lookup_alter_eq, Hq. symmetry. apply list_lookup_insert_eq. by eapply lookup_lt_Some.
    - by rewrite list_lookup_alter_ne, list_lookup_insert_ne. }
  destruct (IH (alter (fun q => q ++ [d]) i qs)) as [-> ->].
  { intros j Hj. rewrite length_alter. apply Hlt. by right. }
  rewrite Ha, (queued_insert _ _ q), (bytes_insert _ _ q) by done.
  rewrite length_app, queue_bytes_app. cbn. split; lia.
Qed.

(** ** Steps *)
Section steps.
Context `{Wire.JsonDecoder, CloudEvents}.

(** A step, with the number of deliveries it admitted. *)
Inductive lstep (b : Local) : Z -> Local -> Prop :=
| ls_publish ctx now e r b' : TryPublish b ctx now e = (r, b') ->
    lstep b (if is_ok r then Z.of_nat (length (default [] (l_byType b !! ev_Type e))) else 0) b'
| ls_top i b' : consume_top b i = Some b' -> lstep b 0 b'
| ls_bottom i outcome b' : consume_bottom b i outcome = Some b' -> lstep b 0 b'
| ls_close : lstep b 0 (Local_Close b)
| ls_shutdown b' : shutdown b = Some b' -> lstep b 0 b'.

(** The queues a step leaves, given the queues before. *)
Definition publish_queues (b : Local) (e : Event) (now : Time) (raw : list byte)
    (qs : list (list delivery)) : list (list delivery) :=
  append_all (mkLocalDelivery raw (now + lc_Retention (l_config b)))
    (default [] (l_byType b !! ev_Type e)) qs.

Lemma matched_ok b qs e : bus_inv b qs ->
  NoDup (default [] (l_byType b !! ev_Type e)) /\
  forall i, i ∈ default [] (l_byType b !! ev_Type e) -> (i < length qs)%nat.
Proof.
  intros Hinv. destruct (l_byType b !! ev_Type e) as [m|] eqn:E; [by eapply (bi_types _ _ Hinv)|].
  cbn. split; [constructor|]. by intros i ?%elem_of_nil.
Qed.

Lemma publish_refines b qs ctx now e r b' :
  bus_inv b qs -> TryPublish b ctx now e = (r, b') ->
  (is_ok r = false /\ l_observers b' = l_observers b /\ bus_inv b' qs) \/
  (exists raw, r = Ok tt /\ Encode e (lc_MaxEventBytes (l_config b)) = Ok raw /\
     bus_inv b' (publish_queues b e now raw qs)).
Proof.
  intros Hinv. unfold TryPublish. destruct ctx; [intros [= <- <-]; by left|].
  destruct (Encode e _) as [raw|] eqn:Eenc; [|intros [= <- <-]; by left].
  destruct (l_closed b); [intros [= <- <-]; by left|].
  set (matched := default [] (l_byType b !! ev_Type e)).
  assert (bus_inv (reject b) qs) as Hrej by (destruct Hinv; by constructor).
  case_if; [intros [= <- <-]; by left|]. case_if; [intros [= <- <-]; by left|].
  intros [= <- <-]. right. exists raw. split; [done|]. split; [done|].
  destruct (matched_ok _ _ e Hinv) as [Hnd Hlt]. fold matched in Hnd, Hlt.
  set (d := mkLocalDelivery raw (now + lc_Retention (l_config b))).
  destruct (append_all_totals d matched qs Hlt) as [Hq Hb].
  pose proof Hinv as [Hr Hdep Hw Hsz [Hc1 Hc2] Hty Hwk Hp Hby Hmax].
  pose proof (queued_bound _ _ (lc_QueueDepth (l_config b)) ltac:(lia) Hr Hdep) as Hqb.
  destruct (push_all_refines d matched _ _ _ Hr Hdep Hnd) as [Hr' Hdep'].
  { intros i o Hi Ho. match goal with H : existsb _ _ = false |- _ => rename H into Hfull end.
    assert (full b i = false) as Hf.
    { apply not_true_iff_false. intros Ht. apply not_true_iff_false in Hfull. apply Hfull.
      apply existsb_exists. exists i. split; [by apply list_elem_of_In|done]. }
    unfold full in Hf. rewrite Ho in Hf. apply Nat.eqb_neq in Hf.
    destruct (Forall2_lookup_l _ _ _ _ _ Hr Ho) as (q & _ & [_ Hcnt Hfit _]). lia. }
  pose proof (queued_bound _ _ (lc_QueueDepth (l_config b)) ltac:(lia) Hr' Hdep') as Hqb'.
  pose proof (total_bytes_nonneg qs). unfold publish_queues. fold matched. fold d.
  constructor; cbn [l_observers l_config l_workers l_byType l_stats st_Pending st_Bytes];
    rewrite ?append_all_length; try done.
  - intros i x Hx. destruct (Hwk i x Hx) as [q Hqi]. rewrite append_all_lookup, Hqi by done.
    cbn. case_bool_decide; by eexists.
  - rewrite Hp, Hq. unfold wrapu64. rewrite append_all_length in Hqb'. rewrite Hq in Hqb'.
    apply Z.mod_small. nia.
  - rewrite Hby, Hb. apply wrap64_small. cbn [dv_raw d]. unfold in_int64, min_int64, max_int64, blen in *. lia.
  - rewrite Hb. cbn [dv_raw d]. lia.
Qed.

Lemma top_refines b qs i b' : bus_inv b qs -> consume_top b i = Some b' ->
  l_observers b' = l_observers b /\ l_stats b' = l_stats b /\ bus_inv b' qs.
Proof.
  intros Hinv. unfold consume_top. destruct (l_workers b !! i) as [[|d|]|] eqn:Ew; try done.
  destruct (l_observers b !! i) as [o|] eqn:Eo; [|done].
  pose proof Hinv as [Hr Hdep Hw Hsz Hc Hty Hwk Hp Hby Hmax].
  assert (forall w, (forall d, w = Working d -> exists q, qs !! i = Some (d :: q)) ->
    bus_inv (set_worker b i w) qs) as Hset.
  { intros w Hnew. constructor; try done; cbn [l_workers set_worker]; [by rewrite length_insert|].
    intros j d Hj. apply list_lookup_insert_Some in Hj as [(<- & Hw' & _)|[_ Hj]]; [by apply Hnew|eauto]. }
  case_if; [intros [= <-]; split; [done|]; split; [done|]; by apply Hset|].
  destruct (Nat.eqb_spec (o_count o) 0) as [|Hne]; [by intros [= <-]|].
  destruct (Forall2_lookup_l _ _ _ _ _ Hr Eo) as (q & Hq & Hring).
  destruct q as [|x q]; [by rewrite (ring_count _ _ Hring) in Hne|].
  rewrite (ring_peek _ _ _ Hring). intros [= <-]. split; [done|]. split; [done|].
  apply Hset. intros d [= <-]. by exists q.
Qed.

(** A worker with something in its ring always finds it: the peek never meets
    an empty slot. *)
Lemma top_enabled b qs i : bus_inv b qs -> l_workers b !! i = Some Waiting -> is_Some (consume_top b i).
Proof.
  intros Hinv Ew. pose proof Hinv as [Hr _ Hw _ _ _ _ _ _ _].
  assert (is_Some (l_observers b !! i)) as [o Eo].
  { apply lookup_lt_is_Some_2. rewrite (Forall2_length _ _ _ Hr), <- Hw. by eapply lookup_lt_Some. }
  unfold consume_top. rewrite Ew, Eo. case_if; [by eexists|].
  destruct (Nat.eqb_spec (o_count o) 0) as [|Hne]; [by eexists|].
  destruct (Forall2_lookup_l _ _ _ _ _ Hr Eo) as (q & Hq & Hring).
  destruct q as [|x q]; [by rewrite (ring_count _ _ Hring) in Hne|].
  rewrite (ring_peek _ _ _ Hring). by eexists.
Qed.

Lemma bottom_refines b qs i outcome b' : bus_inv b qs -> consume_bottom b i outcome = Some b' ->
  exists d q, qs !! i = Some (d :: q) /\ bus_inv b' (<[i := q]> qs) /\
    wrapu64 (Delivered (l_stats b') + Expired (l_stats b') + st_Pending (l_stats b')) =
    wrapu64 (Delivered (l_stats b) + Expired (l_stats b) + st_Pending (l_stats b)).
Proof.
  intros Hinv. unfold consume_bottom. destruct (l_workers b !! i) as [[|d|]|] eqn:Ew; try done.
  destruct (attempts (l_config b) d outcome) as [retries delivered]. intros [= <-].
  pose proof Hinv as [Hr Hdep Hw Hsz [Hc1 Hc2] Hty Hwk Hp Hby Hmax].
  destruct (Hwk i d Ew) as [q Hq]. exists d, q. split; [done|].
  pose proof (queued_bound _ _ (lc_QueueDepth (l_config b)) ltac:(lia) Hr Hdep) as Hqb.
  pose proof (queued_insert _ _ _ q Hq) as Hqi. pose proof (bytes_insert _ _ _ q Hq) as Hbi.
  cbn [length queue_bytes foldr] in Hqi, Hbi. fold (queue_bytes q) in Hbi.
  pose proof (total_bytes_nonneg (<[i := q]> qs)) as Hbn.
  assert (0 <= blen (dv_raw d)) by (unfold blen; lia).
  assert (wrapu64 (st_Pending (l_stats b) - 1) = queued (<[i := q]> qs)) as Hpend.
  { rewrite Hp, Hqi. unfold wrapu64. assert (1 <= queued qs).
    { assert (0 <= queued (<[i := q]> qs)); [|lia].
      clear. generalize (<[i := q]> qs). intros l. induction l as [|x l IH]; simpl; [lia|]. fold (queued l). lia. }
    rewrite Z.mod_small by nia. lia. }
  split.
  - constructor; cbn [l_observers l_config l_workers l_byType l_stats st_Pending st_Bytes];
      rewrite ?length_insert; try done.
    + assert (<[i := q]> qs = alter (fun _ => q) i qs) as ->.
      { apply list_eq. intros j. destruct (decide (i = j)) as [<-|Hne].
        - rewrite list_lookup_alter_eq, Hq. apply list_lookup_insert_eq. by eapply lookup_lt_Some.
        - by rewrite list_lookup_alter_ne, list_lookup_insert_ne. }
      apply Forall2_alter; [done|]. intros o y Ho Hy Hring. simplify_eq. by eapply ring_pop.
    + apply Forall_alter; [done|]. intros o _ Ho. cbn. by rewrite length_insert.
    + intros j x Hj. apply list_lookup_insert_Some in Hj as [(_ & ? & _)|[Hne Hj]]; [done|].
      rewrite list_lookup_insert_ne by done. eauto.
    + rewrite Hby, Hbi. rewrite wrap64_small; [lia|]. unfold in_int64, min_int64, max_int64 in *. lia.
    + lia.
  - cbn [l_stats Delivered Expired st_Pending]. rewrite Hpend, Hqi, Hp.
    destruct delivered.
    + destruct (wrapu64_eq (Delivered (l_stats b) + 1)) as [k ->]. apply (wrapu64_cong _ _ k). lia.
    + destruct (wrapu64_eq (Expired (l_stats b) + 1)) as [k ->]. apply (wrapu64_cong _ _ k). lia.
Qed.

Lemma close_refines b qs : bus_inv b qs -> bus_inv (Local_Close b) qs.
Proof. intros []. by constructor. Qed.

Lemma shutdown_refines b qs b' : bus_inv b qs -> shutdown b = Some b' ->
  bus_inv b' (replicate (length qs) []) /\
  wrapu64 (Delivered (l_stats b') + Expired (l_stats b') + st_Pending (l_stats b')) =
  wrapu64 (Delivered (l_stats b) + Expired (l_stats b) + st_Pending (l_stats b)).
Proof.
  intros Hinv. unfold shutdown. case_if; [|done]. intros [= <-].
  pose proof Hinv as [Hr Hdep Hw Hsz Hc Hty Hwk Hp Hby Hmax].
  destruct (replicate_empty (length qs)) as [Hz1 Hz2].
  split.
  - constructor; cbn [l_observers l_config l_workers l_byType l_stats st_Pending st_Bytes];
      rewrite ?length_replicate; try done; try lia.
    + apply Forall2_same_length_lookup. rewrite length_fmap, length_replicate.
      split; [by eapply Forall2_length|]. intros j o q Ho Hq.
      apply lookup_replicate in Hq as [-> _]. apply list_lookup_fmap_Some in Ho as (o' & -> & Ho).
      destruct (Forall2_lookup_l _ _ _ _ _ Hr Ho) as (q' & _ & [Hd _ _ _]).
      constructor; cbn; rewrite ?length_replicate; try done. lia.
    + apply Forall_fmap. eapply Forall_impl; [exact Hdep|]. intros o Ho. cbn. by rewrite length_replicate.
    + intros i d Hi. exfalso.
      match goal with H : (_ && _) = true |- _ => apply andb_prop in H as [_ Hall] end.
      rewrite forallb_forall in Hall. specialize (Hall (Working d)).
      apply list_elem_of_lookup_2, list_elem_of_In in Hi. by specialize (Hall Hi).
  - cbn [l_stats Delivered Expired st_Pending].
    destruct (wrapu64_eq (Expired (l_stats b) + st_Pending (l_stats b))) as [k ->].
    apply (wrapu64_cong _ _ k). lia.
Qed.
End steps.

(** ** NewLocal *)
(** The observers a kind of event reaches: the subscriptions that list it. *)
Fixpoint subscribers (i : nat) (subs : list LSubscription) (kind : string) : list nat :=
  match subs with
  | [] => []
  | s :: subs' =>
      (if bool_decide (kind ∈ ls_Types s) then [i] else []) ++ subscribers (S i) subs' kind
  end.

Lemma subscribers_range subs kind : forall i j, j ∈ subscribers i subs kind -> (i <= j < i + length subs)%nat.
Proof.
  induction subs as [|s subs IH]; intros i j Hj; cbn in *; [by apply elem_of_nil in Hj|].
  apply elem_of_app in Hj as [Hj|Hj]; [|apply IH in Hj; lia].
  case_bool_decide; [|by apply elem_of_nil in Hj]. apply list_elem_of_singleton in Hj. lia.
Qed.

Lemma subscribers_nodup subs kind : forall i, NoDup (subscribers i subs kind).
Proof.
  induction subs as [|s subs IH]; intros i; cbn; [constructor|].
  apply NoDup_app. split; [|split; [|apply IH]].
  - case_bool_decide; [apply NoDup_singleton|constructor].
  - intros j Hj Hj'. apply subscribers_range in Hj'.
    case_bool_decide; [|by apply elem_of_nil in Hj]. apply list_elem_of_singleton in Hj. lia.
Qed.

Lemma register_types_fresh i : forall kinds seen m m',
  register_types i seen kinds m = Ok m' -> forall k, k ∈ seen -> k ∉ kinds.
Proof.
  induction kinds as [|kind kinds IH]; intros seen m m' Hreg k Hk; [by apply not_elem_of_nil|].
  cbn [register_types] in Hreg. rinv.
  apply not_elem_of_cons. split; [by intros ->|]. eapply IH; [done|]. by right.
Qed.

Lemma register_types_spec i : forall kinds seen m m',
  register_types i seen kinds m = Ok m' ->
  forall k, default [] (m' !! k) = default [] (m !! k) ++ (if bool_decide (k ∈ kinds) then [i] else []).
Proof.
  induction kinds as [|kind kinds IH]; intros seen m m' Hreg k.
  - cbn in Hreg. simplify_eq. by rewrite bool_decide_eq_false_2, app_nil_r by (by intros ?%elem_of_nil).
  - cbn [register_types] in Hreg. rinv. rename select (register_types _ _ _ _ = Ok _) into Hrest.
    rewrite (IH _ _ _ Hrest). pose proof (register_types_fresh _ _ _ _ _ Hrest kind ltac:(left)) as Hn.
    destruct (decide (k = kind)) as [->|Hne].
    + rewrite lookup_insert_eq, (bool_decide_eq_false_2 _ Hn), bool_decide_eq_true_2 by left.
      cbn. by rewrite app_nil_r.
    + rewrite lookup_insert_ne by done. f_equal.
      assert (bool_decide (k ∈ kind :: kinds) = bool_decide (k ∈ kinds)) as ->; [|done].
      apply bool_decide_ext. rewrite elem_of_cons. naive_solver.
Qed.

Lemma register_subs_spec : forall subs i seen m m',
  register_subs i seen subs m = Ok m' ->
  forall k, default [] (m' !! k) = default [] (m !! k) ++ subscribers i subs k.
Proof.
  induction subs as [|s subs IH]; intros i seen m m' Hreg k; cbn [register_subs] in Hreg.
  - simplify_eq. cbn. by rewrite app_nil_r.
  - rinv. rename select (register_types _ _ _ _ = Ok _) into Ht.
    rename select (register_subs _ _ _ _ = Ok _) into Hs.
    rewrite (IH _ _ _ _ Hs), (register_types_spec _ _ _ _ _ Ht). cbn. by rewrite app_assoc.
Qed.

Lemma NewLocal_inv c b : NewLocal c = Ok b -> lc_MaxQueueBytes c <= max_int64 ->
  bus_inv b (replicate (length (lc_Subscriptions c)) []) /\
  (forall kind, default [] (l_byType b !! kind) = subscribers 0 (lc_Subscriptions c) kind).
Proof.
  unfold NewLocal. intros Hnew Hmax. rinv.
  rename select (local_limits_ok c = true) into Hlim.
  match goal with H : register_subs _ _ _ _ = Ok ?x |- _ => rename H into Hreg; rename x into m end.
  assert (forall kind, default [] (m !! kind) = subscribers 0 (lc_Subscriptions c) kind) as Hsub.
  { intros kind. by rewrite (register_subs_spec _ _ _ _ _ Hreg), lookup_empty. }
  split; [|done].
  unfold local_limits_ok in Hlim. apply negb_true_iff in Hlim.
  repeat (apply orb_false_iff in Hlim as [Hlim ?]).
  set (n := length (lc_Subscriptions c)).
  destruct (replicate_empty n) as [Hz1 Hz2].
  constructor; cbn [l_observers l_config l_workers l_byType l_stats st_Pending st_Bytes
    lc_QueueDepth lc_MaxQueueBytes set_no_subscriptions]; rewrite ?length_replicate; try done; try lia.
  - apply Forall2_replicate. constructor; cbn; rewrite ?length_replicate; try done; lia.
  - apply Forall_replicate. cbn. rewrite length_replicate. lia.
  - intros kind matched Hk. specialize (Hsub kind). rewrite Hk in Hsub. cbn in Hsub. subst matched.
    split; [apply subscribers_nodup|]. intros i Hi. apply subscribers_range in Hi. cbn in Hi. lia.
  - intros i d Hi. by apply lookup_replicate in Hi as [? _].
Qed.

(** ** Runs *)
Section runs.
Context `{Wire.JsonDecoder, CloudEvents}.

(** A run, with the number of deliveries it admitted. *)
Inductive lrun (b : Local) : Z -> Local -> Prop :=
| lrun_nil : lrun b 0 b
| lrun_step n b' k b'' : lrun b n b' -> lstep b' k b'' -> lrun b (n + k) b''.

(** The abstract machine: one FIFO queue per subscription. *)
Inductive fifo_step (subs : list LSubscription) (qs : list (list delivery)) : list (list delivery) -> Prop :=
| fifo_idle : fifo_step subs qs qs
| fifo_publish kind d : fifo_step subs qs (append_all d (subscribers 0 subs kind) qs)
| fifo_settle i d q : qs !! i = Some (d :: q) -> fifo_step subs qs (<[i := q]> qs)
| fifo_clear : fifo_step subs qs (replicate (length qs) []).

Definition ledger (b : Local) : Z :=
  Delivered (l_stats b) + Expired (l_stats b) + st_Pending (l_stats b).

Lemma lstep_byType b k b' : lstep b k b' -> l_byType b' = l_byType b /\ l_config b' = l_config b.
Proof.
  intros [ctx now e r b1 Hs|i b1 Hs|i o b1 Hs| |b1 Hs]; [| | |done|].
  - unfold TryPublish in Hs. repeat (case_match || case_if); by simplify_eq.
  - unfold consume_top in Hs. repeat (case_match || case_if); by simplify_eq.
  - unfold consume_bottom in Hs. repeat (case_match || case_if); by simplify_eq.
  - unfold shutdown in Hs. case_if; by simplify_eq.
Qed.

Lemma publish_ledger b ctx now e r b' : TryPublish b ctx now e = (r, b') ->
  wrapu64 (ledger b') =
  wrapu64 (ledger b + if is_ok r then Z.of_nat (length (default [] (l_byType b !! ev_Type e))) else 0).
Proof.
  unfold TryPublish, ledger. intros Hs. repeat (case_match || case_if); simplify_eq; cbn; try by rewrite Z.add_0_r.
  destruct (wrapu64_eq (st_Pending (l_stats b) + Z.of_nat (length (default [] (l_byType b !! ev_Type e)))))
    as [k ->]. apply (wrapu64_cong _ _ k). lia.
Qed.

Lemma lstep_refines subs b qs k b' :
  bus_inv b qs -> (forall kind, default [] (l_byType b !! kind) = subscribers 0 subs kind) ->
  lstep b k b' ->
  exists qs', fifo_step subs qs qs' /\ bus_inv b' qs' /\ wrapu64 (ledger b') = wrapu64 (ledger b + k).
Proof.
  intros Hinv Hsub [ctx now e r b1 Hs|i b1 Hs|i o b1 Hs| |b1 Hs].
  - pose proof (publish_ledger _ _ _ _ _ _ Hs) as Hl.
    destruct (publish_refines _ _ _ _ _ _ _ Hinv Hs) as [(_ & _ & Hi)|(raw & _ & _ & Hi)].
    + exists qs. split; [constructor|done].
    + eexists. split; [|by split]. unfold publish_queues. rewrite Hsub. constructor.
  - destruct (top_refines _ _ _ _ Hinv Hs) as (_ & Hst & Hi). exists qs.
    split; [constructor|]. split; [done|]. unfold ledger. by rewrite Hst, Z.add_0_r.
  - destruct (bottom_refines _ _ _ _ _ Hinv Hs) as (d & q & Hq & Hi & Hl).
    exists (<[i := q]> qs). split; [by econstructor|]. split; [done|]. by rewrite Z.add_0_r.
  - exists qs. split; [constructor|]. split; [by apply close_refines|]. by rewrite Z.add_0_r.
  - destruct (shutdown_refines _ _ _ Hinv Hs) as [Hi Hl].
    exists (replicate (length qs) []). split; [constructor|]. split; [done|]. by rewrite Z.add_0_r.
Qed.

Lemma lrun_refines c b0 n b : NewLocal c = Ok b0 -> lc_MaxQueueBytes c <= max_int64 -> lrun b0 n b ->
  exists qs, rtc (fifo_step (lc_Subscriptions c)) (replicate (length (lc_Subscriptions c)) []) qs /\
    bus_inv b qs /\ l_config b = set_no_subscriptions c /\
    (forall kind, default [] (l_byType b !! kind) = subscribers 0 (lc_Subscriptions c) kind) /\
    wrapu64 (ledger b) = wrapu64 n.
Proof.
  intros Hnew Hmax Hrun. destruct (NewLocal_inv _ _ Hnew Hmax) as [Hinv Hsub].
  induction Hrun as [|n b k b' Hrun IH Hstep].
  - eexists. split; [apply rtc_refl|]. split; [done|]. unfold NewLocal in Hnew. by rinv.
  - destruct IH as (qs & Hr & Hi & Hc & Hs & Hl).
    destruct (lstep_refines _ _ _ _ _ Hi Hs Hstep) as (qs' & Hf & Hi' & Hl').
    destruct (lstep_byType _ _ _ Hstep) as [Hb' Hc'].
    exists qs'. split; [by eapply rtc_r|]. rewrite Hb', Hc'. split; [done|]. split; [done|].
    split; [done|]. rewrite Hl'. destruct (wrapu64_eq (ledger b)) as [x Hx].
    destruct (wrapu64_eq n) as [y Hy]. apply (wrapu64_cong _ _ (y - x)). lia.
Qed.
End runs.
End LocalInv.

Module LocalProps.
Import Events LocalBus LocalInv.

Section props.
Context `{Wire.JsonDecoder, CloudEvents}.

(** C40. The ring buffers of the local bus implement one FIFO queue per
    subscription: after any interleaving of publishes, worker sections, Close and
    shutdown, the rings hold queues that a machine reaches by appending a published
    delivery to the queues of all subscriptions that list its type, removing heads,
    and clearing; a worker in its attempt loop holds the head of its own queue; and
    a further TryPublish either appends the encoded event to the queues of exactly
    the matching subscriptions, or fails and leaves every ring as it was. *)
Theorem local_bus_is_fifo_with_atomic_fan_out c b0 n b :
  NewLocal c = Ok b0 -> lc_MaxQueueBytes c <= max_int64 -> lrun b0 n b ->
  exists qs,
    rtc (fifo_step (lc_Subscriptions c)) (replicate (length (lc_Subscriptions c)) []) qs /\
    Forall2 ring (l_observers b) qs /\
    (forall i d, l_workers b !! i = Some (Working d) -> exists q, qs !! i = Some (d :: q)) /\
    (forall ctx now e r b', TryPublish b ctx now e = (r, b') ->
      match r with
      | Err _ => l_observers b' = l_observers b
      | Ok _ => exists raw, Encode e (lc_MaxEventBytes c) = Ok raw /\
          let d := mkLocalDelivery raw (now + lc_Retention c) in
          exists qs', Forall2 ring (l_observers b') qs' /\
            forall i, qs' !! i = (fun q => if bool_decide (i ∈ subscribers 0 (lc_Subscriptions c) (ev_Type e))
                                           then q ++ [d] else q) <$> qs !! i
      end).
Proof.
  intros Hnew Hmax Hrun.
  destruct (lrun_refines _ _ _ _ Hnew Hmax Hrun) as (qs & Hr & Hi & Hc & Hs & _).
  exists qs. split; [done|]. split; [by apply bi_rings|]. split; [apply (bi_working _ _ Hi)|].
  intros ctx now e r b' Hp.
  destruct (publish_refines _ _ _ _ _ _ _ Hi Hp) as [(He & Ho & _)|(raw & -> & Henc & Hi')].
  - by destruct r.
  - rewrite Hc in Henc. exists raw. split; [exact Henc|]. cbv zeta.
    exists (publish_queues b e now raw qs). split; [by apply bi_rings|].
    intros i. unfold publish_queues. rewrite Hs, append_all_lookup by apply subscribers_nodup. by rewrite Hc.
Qed.

(** The counters of the local bus are exact and its memory is bounded: at
    every point of a run, Pending and Bytes are the number and total size of the
    queued deliveries (neither counter wraps), Bytes is within MaxQueueBytes, no
    observer holds more than QueueDepth deliveries, and every admitted delivery is
    counted exactly once (modulo 2^64) as delivered, expired or pending. *)
Theorem local_bus_accounting c b0 n b :
  NewLocal c = Ok b0 -> lc_MaxQueueBytes c <= max_int64 -> lrun b0 n b ->
  exists qs, Forall2 ring (l_observers b) qs /\
    st_Pending (l_stats b) = queued qs /\ st_Bytes (l_stats b) = total_queue_bytes qs /\
    0 <= st_Bytes (l_stats b) <= Z.max 0 (lc_MaxQueueBytes c) /\
    Forall (fun q => Z.of_nat (length q) <= lc_QueueDepth c) qs /\
    wrapu64 (Delivered (l_stats b) + Expired (l_stats b) + st_Pending (l_stats b)) = wrapu64 n.
Proof.
  intros Hnew Hmax Hrun.
  destruct (lrun_refines _ _ _ _ Hnew Hmax Hrun) as (qs & _ & Hi & Hc & _ & Hl).
  exists qs. pose proof Hi as [Hr Hdep _ _ _ _ _ Hp Hb Hbm]. rewrite Hc in Hdep, Hbm.
  split; [done|]. split; [done|]. split; [done|]. rewrite Hb.
  pose proof (total_bytes_nonneg qs). split; [by split|]. split; [|done].
  apply Forall_lookup. intros i q Hq.
  destruct (Forall2_lookup_r _ _ _ _ _ Hr Hq) as (o & Ho & Hring).
  pose proof (Forall_lookup_1 _ _ _ _ Hdep Ho) as Hd. cbn in Hd.
  pose proof (ring_fits _ _ Hring). lia.
Qed.

Lemma attempt_loop_spec c d outcome : forall fuel a, 0 <= a -> a + Z.of_nat fuel = lc_MaxAttempts c ->
  let r := attempt_loop c d fuel a outcome in
  0 <= r.1 <= Z.max 0 (lc_MaxAttempts c - a - 1) /\
  (r.2 = true <-> exists k, a <= k < lc_MaxAttempts c /\ attempt_ok c d (outcome k) = true /\
     forall j, a <= j <= k -> at_before_expiry (outcome j) = true /\ at_cancelled (outcome j) = false).
Proof.
  induction fuel as [|fuel IH]; intros a Ha Hm; cbn [attempt_loop].
  { split; [cbn; lia|]. split; [done|]. intros (k & Hk & _). lia. }
  replace (a <? lc_MaxAttempts c) with true by lia. cbn [negb orb].
  destruct (at_before_expiry (outcome a)) eqn:Eb; cbn [negb].
  2:{ split; [cbn; lia|]. split; [done|]. intros (k & Hk & _ & Hj). specialize (Hj a). rewrite Eb in Hj. lia. }
  destruct (at_cancelled (outcome a)) eqn:Ec.
  { split; [cbn; lia|]. split; [done|]. intros (k & Hk & _ & Hj). specialize (Hj a). rewrite Ec in Hj. lia. }
  destruct (attempt_ok c d (outcome a)) eqn:Eo.
  { split; [cbn; lia|]. split; [|done]. intros _. exists a. split; [lia|]. split; [done|].
    intros j Hj. by replace j with a by lia. }
  specialize (IH (a + 1) ltac:(lia) ltac:(lia)).
  destruct (attempt_loop c d fuel (a + 1) outcome) as [n del]. cbn in IH |- *.
  destruct IH as [Hn Hd]. split; [case_if; lia|]. rewrite Hd.
  split; intros (k & Hk & Hok & Hj); exists k.
  - split; [lia|]. split; [done|]. intros j Hle. destruct (decide (j = a)) as [->|]; [done|]. apply Hj. lia.
  - destruct (decide (k = a)) as [->|]; [congruence|]. split; [lia|]. split; [done|].
    intros j Hle. apply Hj. lia.
Qed.

(** The retry loop of a worker: it settles a delivery as delivered exactly
    when some attempt within MaxAttempts handed the decoded event to the handler
    and the handler accepted it in time, with no earlier attempt past the expiry
    or after cancellation, and it never counts more than MaxAttempts - 1 retries.
    In particular a delivery that a publish queued decodes, so it is delivered as
    soon as the handler accepts the event in time. *)
Theorem local_delivery_retries `{!CloudEventsLaws _} c d outcome :
  1 <= lc_MaxAttempts c ->
  let r := attempts c d outcome in
  0 <= r.1 < lc_MaxAttempts c /\
  (r.2 = true <-> exists k, 0 <= k < lc_MaxAttempts c /\ attempt_ok c d (outcome k) = true /\
     forall j, 0 <= j <= k -> at_before_expiry (outcome j) = true /\ at_cancelled (outcome j) = false) /\
  (forall e, Encode e (lc_MaxEventBytes c) = Ok (dv_raw d) ->
     at_before_expiry (outcome 0) = true -> at_cancelled (outcome 0) = false ->
     at_ctx_ok (outcome 0) = true ->
     (forall e', ev_Source e' = ev_Source e -> ev_ID e' = ev_ID e -> at_handler (outcome 0) e' = true) ->
     r = (0, true)).
Proof.
  intros Hmax r. destruct (attempt_loop_spec c d outcome (Z.to_nat (lc_MaxAttempts c)) 0) as [Hr Hd]; [lia..|].
  split; [unfold r, attempts; lia|]. split; [exact Hd|].
  intros e Henc Hb Hc Hx Hh. unfold r, attempts.
  destruct (Z.to_nat (lc_MaxAttempts c)) as [|fuel] eqn:Ef; [lia|]. cbn [attempt_loop].
  replace (0 <? lc_MaxAttempts c) with true by lia. rewrite Hb, Hc. cbn [negb orb].
  destruct (Decode_Encode _ _ _ Henc) as (e' & Hdec & Hs & Hid & _).
  unfold attempt_ok. by rewrite Hdec, (Hh e' Hs Hid), Hx.
Qed.
End props.
End LocalProps.

(** ** A concrete bus *)
Module LocalWitness.
Import LocalBus LocalInv LocalProps Wire.WireWitness EventsWitness.

Definition w_lconfig : LocalConfig :=
  mkLocalConfig [mkLSub "x.one" ["a.b"; "c.d"] true; mkLSub "x.two" ["c.d"] true; mkLSub "x.three" ["a.b"] true]
    4 2 4096 256 time_Second time_Millisecond time_Hour 3.
Definition w_bus : Local :=
  match NewLocal w_lconfig with Ok b => b | Err _ => mkLocal w_lconfig ∅ [] [] (mkStats 0 0 0 0 0 0 0) true true end.
Definition w_levent : @Event toy_events := bytes_of "e1-payload".
Definition w_accept : Z -> Attempt := fun _ => mkAttempt true false (fun _ => true) true.
Definition w_bus1 : Local := (TryPublish w_bus None 0 w_levent).2.
Definition w_bus2 : Local := default w_bus (consume_top w_bus1 0).
Definition w_bus3 : Local := default w_bus (consume_bottom w_bus2 0 w_accept).

Lemma w_lrun : lrun w_bus 2 w_bus3.
Proof.
  apply (lrun_step _ 2 w_bus2 0); [|apply (ls_bottom _ 0 w_accept); reflexivity].
  apply (lrun_step _ 2 w_bus1 0); [|apply (ls_top _ 0); reflexivity].
  apply (lrun_step _ 0 w_bus 2); [constructor|].
  apply (ls_publish w_bus None 0 w_levent (Ok tt)). vm_compute. reflexivity.
Defined.

Lemma local_bus_fifo_witness :
  NewLocal w_lconfig = Ok w_bus /\ Delivered (l_stats w_bus3) = 1 /\ st_Pending (l_stats w_bus3) = 1 /\
  exists qs, rtc (fifo_step (lc_Subscriptions w_lconfig)) (replicate 3 []) qs /\ Forall2 ring (l_observers w_bus3) qs.
Proof.
  split; [reflexivity|]. split; [reflexivity|]. split; [reflexivity|].
  destruct (local_bus_is_fifo_with_atomic_fan_out w_lconfig w_bus 2 w_bus3) as (qs & Hr & Ho & _);
    [reflexivity|vm_compute; discriminate|apply w_lrun|].
  exists qs. by split.
Defined.

Lemma local_bus_accounting_witness :
  wrapu64 (Delivered (l_stats w_bus3) + Expired (l_stats w_bus3) + st_Pending (l_stats w_bus3)) = 2.
Proof.
  destruct (local_bus_accounting w_lconfig w_bus 2 w_bus3) as (qs & _ & _ & _ & _ & _ & Hl);
    [reflexivity|vm_compute; discriminate|apply w_lrun|]. exact Hl.
Defined.

Lemma local_delivery_retries_witness :
  attempts w_lconfig (mkLocalDelivery w_levent 0) w_accept = (0, true).
Proof.
  destruct (local_delivery_retries w_lconfig (mkLocalDelivery w_levent 0) w_accept) as (_ & _ & Hd);
    [vm_compute; discriminate|]. by apply (Hd w_levent).
Defined.
End LocalWitness.
