(* ===== verification/SqlTx.v ===== *)
(** * Transactions of the SQLite stores

    Every durable store of the program follows one pattern: validate, lock,
    [BeginTx], statements, [Commit], with a deferred [Rollback]. A handler is a
    [Tx] computation over the store's tables; [run_tx] runs it under an
    adversarial [TxIO]: begin may fail, any statement may fail, and a failed
    commit may or may not have persisted (the ambiguity the stores document).

    The file also models the ordered, limited SELECTs of the stores. *)
From Stdlib Require Import ZArith Lia.
From S2P Require Import Prelude GoStrings.
#[local] Open Scope Z_scope.

(** What happened to a commit: it persisted and was reported, it was lost, or
    an error was reported although it persisted. *)
Inductive commit_outcome := Committed | CommitLost | CommitUnknown.

Record TxIO := mkTxIO { io_begin : bool; io_stmt : nat -> bool; io_commit : commit_outcome }.

(** No fault at all. *)
Definition io_ok : TxIO := mkTxIO true (fun _ => true) Committed.

(** How a handler leaves its transaction: with [tx.Commit()], or by returning
    through the deferred [tx.Rollback()]. *)
Inductive finish (A : Type) := Commit (a : A) | Rollback (a : A).
Arguments Commit {A} a.
Arguments Rollback {A} a.

Section tx.
Context {DB E : Type}.

Definition Tx (A : Type) : Type := (nat -> bool) -> nat * DB -> result E (A * (nat * DB)).

Definition tx_ret {A} (a : A) : Tx A := fun _ s => Ok (a, s).
Definition tx_err {A} (e : E) : Tx A := fun _ _ => Err e.
Definition tx_bind {A B} (c : Tx A) (k : A -> Tx B) : Tx B :=
  fun io s => match c io s with Ok (a, s') => k a io s' | Err e => Err e end.

(** Pure checks inside the transaction. *)
Definition tx_lift {A} (c : result E A) : Tx A :=
  fun _ s => match c with Ok a => Ok (a, s) | Err e => Err e end.
Definition tx_guard (b : bool) (e : E) : Tx unit := tx_lift (guard b e).

(** A SELECT: fails with [fail] when the statement fails. *)
Definition tx_query {A} (fail : E) (f : DB -> A) : Tx A :=
  fun io s => if io s.1 then Ok (f s.2, (S s.1, s.2)) else Err fail.

(** An INSERT, UPDATE or DELETE; [None] is a violated constraint. *)
Definition tx_exec (fail : E) (f : DB -> option DB) : Tx unit :=
  fun io s => if io s.1 then
                match f s.2 with Some db => Ok (tt, (S s.1, db)) | None => Err fail end
              else Err fail.

Fixpoint tx_iter {A} (f : A -> Tx unit) (l : list A) : Tx unit :=
  match l with
  | [] => tx_ret tt
  | a :: l' => tx_bind (f a) (fun _ => tx_iter f l')
  end.

Definition run_tx {A} (fail : E) (io : TxIO) (db : DB) (body : Tx (finish A)) : result E A * DB :=
  if io_begin io then
    match body (io_stmt io) (O, db) with
    | Err e => (Err e, db)
    | Ok (Rollback a, _) => (Ok a, db)
    | Ok (Commit a, (_, db')) =>
        match io_commit io with
        | Committed => (Ok a, db')
        | CommitLost => (Err fail, db)
        | CommitUnknown => (Err fail, db')
        end
    end
  else (Err fail, db).

(** Reads outside a transaction: each statement on its own. *)
Definition run_read {A} (io : TxIO) (db : DB) (body : Tx A) : result E A :=
  match body (io_stmt io) (O, db) with Ok (a, _) => Ok a | Err e => Err e end.

(** *** Inversion *)
Lemma tx_bind_Ok {A B} (c : Tx A) (k : A -> Tx B) io s b s' :
  tx_bind c k io s = Ok (b, s') <-> exists a s1, c io s = Ok (a, s1) /\ k a io s1 = Ok (b, s').
Proof.
  unfold tx_bind. destruct (c io s) as [[a s1]|e]; split.
  - eauto.
  - by intros (? & ? & [= -> ->] & ?).
  - done.
  - by intros (? & ? & ? & ?).
Qed.

Lemma tx_ret_Ok {A} (a : A) io s b s' : tx_ret a io s = Ok (b, s') <-> b = a /\ s' = s.
Proof. unfold tx_ret. split; [by intros [= -> ->] | by intros [-> ->]]. Qed.

Lemma tx_guard_Ok b e io s u s' : tx_guard b e io s = Ok (u, s') <-> b = true /\ s' = s.
Proof.
  unfold tx_guard, tx_lift, guard. destruct b, u; split; try done.
  - by intros [= ->].
  - by intros [_ ->].
  - by intros [? _].
Qed.

Lemma tx_lift_Ok {A} (c : result E A) io s a s' :
  tx_lift c io s = Ok (a, s') <-> c = Ok a /\ s' = s.
Proof.
  unfold tx_lift. destruct c; split; [by intros [= -> ->] | by intros [[= ->] ->] | done |].
  by intros [? _].
Qed.

Lemma tx_query_Ok {A} fail (f : DB -> A) io s a s' :
  tx_query fail f io s = Ok (a, s') <-> io s.1 = true /\ a = f s.2 /\ s' = (S s.1, s.2).
Proof.
  unfold tx_query. destruct (io s.1); split; [by intros [= -> ->] | by intros (_ & -> & ->) | done |].
  by intros (? & _).
Qed.

Lemma tx_exec_Ok fail (f : DB -> option DB) io s u s' :
  tx_exec fail f io s = Ok (u, s') <->
  io s.1 = true /\ exists db, f s.2 = Some db /\ s' = (S s.1, db).
Proof.
  unfold tx_exec. destruct (io s.1); [|split; [done | by intros (? & _)]].
  destruct (f s.2) as [db|], u; split.
  - intros [= <-]. eauto.
  - by intros (_ & ? & [= ->] & ->).
  - done.
  - by intros (_ & ? & ? & _).
Qed.

(** A property kept by every element's step is kept by the loop. *)
Lemma tx_iter_ind {A} (f : A -> Tx unit) (P : list A -> DB -> Prop) l io s s' u :
  (forall a l s s' u, P (a :: l) s.2 -> f a io s = Ok (u, s') -> P l s'.2) ->
  P l s.2 -> tx_iter f l io s = Ok (u, s') -> P [] s'.2.
Proof.
  intros Hf. revert s. induction l as [|a l IH]; intros s HP Hrun; simpl in Hrun.
  - apply tx_ret_Ok in Hrun as [_ ->]. done.
  - apply tx_bind_Ok in Hrun as (v & s1 & H1 & Hrun). eauto.
Qed.

(** The cases of a finished transaction: either nothing changed, or the body
    ran to its commit and the tables are the body's. *)
Lemma run_tx_cases {A} fail io db (body : Tx (finish A)) r db' :
  run_tx fail io db body = (r, db') ->
  (db' = db /\ (exists e, r = Err e)) \/
  (exists a s, body (io_stmt io) (O, db) = Ok (Rollback a, s) /\ r = Ok a /\ db' = db) \/
  (exists a n, body (io_stmt io) (O, db) = Ok (Commit a, (n, db')) /\
     ((r = Ok a /\ io_commit io = Committed) \/ (r = Err fail /\ io_commit io = CommitUnknown))).
Proof.
  unfold run_tx. destruct (io_begin io); [|intros [= <- <-]; eauto].
  destruct (body (io_stmt io) (O, db)) as [[[a|a] [n db1]]|e]; [|intros [= <- <-]; eauto 7..].
  destruct (io_commit io); intros [= <- <-]; [right; right | left | right; right]; eauto 7.
Qed.

(** Invariants: what every committed body preserves, every transaction does. *)
Lemma run_tx_inv {A} (P : DB -> Prop) fail io db (body : Tx (finish A)) r db' :
  P db ->
  (forall stmt a n db1, body stmt (O, db) = Ok (Commit a, (n, db1)) -> P db1) ->
  run_tx fail io db body = (r, db') -> P db'.
Proof.
  intros HP Hb Hrun. apply run_tx_cases in Hrun as [[-> _]|[(? & ? & _ & _ & ->)|(a & n & H & _)]];
    eauto.
Qed.

Lemma run_tx_Ok {A} fail io db (body : Tx (finish A)) a db' :
  run_tx fail io db body = (Ok a, db') ->
  (exists s, body (io_stmt io) (O, db) = Ok (Rollback a, s) /\ db' = db) \/
  (exists n, body (io_stmt io) (O, db) = Ok (Commit a, (n, db'))).
Proof.
  intros Hrun. apply run_tx_cases in Hrun as [[_ [? ?]]|[(? & s & ? & [= ->] & ->)|(a' & n & ? & Hr)]].
  - done.
  - eauto.
  - destruct Hr as [[[= ->] _]|[? _]]; [eauto | done].
Qed.

(** Atomicity: after an error the tables are the old ones, or exactly those
    of a completed body whose commit report was lost. *)
Lemma run_tx_Err {A} fail io db (body : Tx (finish A)) e db' :
  run_tx fail io db body = (Err e, db') ->
  db' = db \/
  (e = fail /\ io_commit io = CommitUnknown /\
   exists a n, body (io_stmt io) (O, db) = Ok (Commit a, (n, db'))).
Proof.
  intros Hrun. apply run_tx_cases in Hrun as [[-> _]|[(? & s & ? & ? & ->)|(a' & n & ? & Hr)]]; auto.
  destruct Hr as [[? _]|[[= ->] ?]]; [done|]. right. eauto.
Qed.
End tx.
Arguments Tx : clear implicits.

Notation "'let!' x ':=' c 'in' k" := (tx_bind c (fun x => k))
  (at level 10, x name, c at level 100, k at level 200) : go_scope.
Notation "'let!' ' p ':=' c 'in' k" := (tx_bind c (fun p => k))
  (at level 10, p strict pattern, c at level 100, k at level 200) : go_scope.

(** Opens successful transaction steps in the hypotheses. *)
Ltac tinv1 :=
  match goal with
  | H : tx_bind _ _ _ _ = Ok (_, _) |- _ =>
      let s := fresh "s" in
      apply tx_bind_Ok in H as (? & s & ? & H); cbv beta zeta in H
  | H : tx_ret _ _ _ = Ok (_, _) |- _ => apply tx_ret_Ok in H as [? ?]
  | H : tx_guard _ _ _ _ = Ok (_, _) |- _ => apply tx_guard_Ok in H as [? ?]
  | H : tx_lift _ _ _ = Ok (_, _) |- _ => apply tx_lift_Ok in H as [? ?]
  | H : tx_query _ _ _ _ = Ok (_, _) |- _ => apply tx_query_Ok in H as (? & ? & ?)
  | H : tx_exec _ _ _ _ = Ok (_, _) |- _ => apply tx_exec_Ok in H as (? & ? & ? & ?)
  | H : tx_err _ _ _ = Ok _ |- _ => discriminate H
  | H : Commit _ = Commit _ |- _ => injection H as H
  | H : Rollback _ = Rollback _ |- _ => injection H as H
  | H : Commit _ = Rollback _ |- _ => discriminate H
  | H : Rollback _ = Commit _ |- _ => discriminate H
  | H : (_, _) = (_, _) |- _ => injection H as ? ?
  end.
Ltac tinv := repeat (first [tinv1 | rinv1]; subst; cbn [fst snd] in * ).

(** ** SELECT ... ORDER BY ... LIMIT n *)
Section select.
Context {K V : Type} `{Countable K}.
Context (R : relation (K * V)) `{!RelDecision R} `{!Transitive R} `{!Total R}.
Implicit Types (p : K -> V -> bool) (m : gmap K V).

Definition select_rows p m : list (K * V) :=
  merge_sort R (filter (fun kv => p kv.1 kv.2 = true) (map_to_list m)).
Definition select_limit (n : nat) p m : list (K * V) := take n (select_rows p m).
Definition select_first p m : option (K * V) := head (select_rows p m).

Lemma elem_of_select_rows p m k v :
  (k, v) ∈ select_rows p m <-> m !! k = Some v /\ p k v = true.
Proof.
  unfold select_rows. rewrite merge_sort_Permutation, list_elem_of_filter, elem_of_map_to_list.
  simpl. tauto.
Qed.

Lemma elem_of_select_limit n p m k v :
  (k, v) ∈ select_limit n p m -> m !! k = Some v /\ p k v = true.
Proof.
  unfold select_limit. intros (i & Hi & _)%elem_of_take.
  apply elem_of_select_rows. by eapply list_elem_of_lookup_2.
Qed.

Lemma NoDup_select_rows p m : NoDup (select_rows p m).*1.
Proof.
  unfold select_rows. rewrite merge_sort_Permutation.
  eapply sublist_NoDup; [apply (NoDup_fst_map_to_list m)|].
  apply fmap_sublist, sublist_filter.
Qed.

Lemma NoDup_select_limit n p m : NoDup (select_limit n p m).*1.
Proof.
  unfold select_limit. rewrite fmap_take.
  eapply sublist_NoDup; [apply NoDup_select_rows | apply sublist_take].
Qed.

Lemma select_first_Some p m k v :
  select_first p m = Some (k, v) ->
  m !! k = Some v /\ p k v = true /\
  forall k' v', m !! k' = Some v' -> p k' v' = true -> ((k', v') = (k, v)) \/ R (k, v) (k', v').
Proof.
  unfold select_first. intros Hh.
  destruct (select_rows p m) as [|[k0 v0] l] eqn:El; [done|]. simpl in Hh. simplify_eq.
  assert ((k, v) ∈ select_rows p m) as Hin by (rewrite El; left).
  apply elem_of_select_rows in Hin as [Hk Hp]. split; [done|]. split; [done|].
  intros k' v' Hk' Hp'.
  assert ((k', v') ∈ select_rows p m) as Hin by by apply elem_of_select_rows.
  rewrite El in Hin. apply elem_of_cons in Hin as [->|Hin]; [by left|]. right.
  pose proof (StronglySorted_merge_sort R (filter (fun kv => p kv.1 kv.2 = true) (map_to_list m))) as Hs.
  fold (select_rows p m) in Hs. rewrite El in Hs.
  apply StronglySorted_inv in Hs as [_ Hall]. rewrite Forall_forall in Hall. by apply Hall.
Qed.

Lemma select_first_None p m :
  select_first p m = None <-> forall k v, m !! k = Some v -> p k v = false.
Proof.
  unfold select_first. split.
  - intros Hh k v Hk. destruct (p k v) eqn:Hp; [|done].
    assert ((k, v) ∈ select_rows p m) as Hin by by apply elem_of_select_rows.
    destruct (select_rows p m); [by apply elem_of_nil in Hin | done].
  - intros Hall. destruct (select_rows p m) as [|[k v] l] eqn:El; [done|].
    assert ((k, v) ∈ select_rows p m) as Hin by (rewrite El; left).
    apply elem_of_select_rows in Hin as [Hk Hp]. by rewrite (Hall k v Hk) in Hp.
Qed.
End select.

(** The ORDER BY of the queue queries: an integer column, then the text
    identity columns in byte order (Go's [<] on strings is the same order). *)
Definition str_lt (s t : string) : bool := String.ltb s t.

Lemma str_lt_spec s t : str_lt s t = true <-> String.le s t /\ s <> t.
Proof.
  unfold str_lt, String.ltb, String.le, String.leb.
  destruct (String.compare s t) eqn:E; split; try done.
  - intros [_ Hne]. by apply String.compare_eq_iff in E.
  - intros _. split; [done|]. intros ->.
    pose proof (String.compare_antisym t t) as H. by rewrite E in H.
  - by intros [? _].
Qed.

Lemma str_lt_total s t : str_lt s t = true \/ s = t \/ str_lt t s = true.
Proof.
  rewrite !str_lt_spec. destruct (decide (s = t)) as [->|Hne]; [auto|].
  destruct (total String.le s t); [left | right; right]; done.
Qed.

Lemma str_lt_trans s t u : str_lt s t = true -> str_lt t u = true -> str_lt s u = true.
Proof.
  rewrite !str_lt_spec. intros [H1 Hne] [H2 _]. split; [by etrans|].
  intros ->. apply Hne. by apply (anti_symm String.le).
Qed.

Notation QueueKey := (Z * (string * string))%type (only parsing).

Definition key_lt (a b : QueueKey) : bool :=
  (a.1 <? b.1) ||
  ((a.1 =? b.1) && (str_lt a.2.1 b.2.1 || (str_eqb a.2.1 b.2.1 && str_lt a.2.2 b.2.2))).

Definition key_le (a b : QueueKey) : Prop := key_lt b a = false.

Lemma key_lt_spec a b :
  key_lt a b = true <->
  a.1 < b.1 \/ (a.1 = b.1 /\ (str_lt a.2.1 b.2.1 = true \/ (a.2.1 = b.2.1 /\ str_lt a.2.2 b.2.2 = true))).
Proof.
  unfold key_lt. rewrite orb_true_iff, !andb_true_iff, orb_true_iff, andb_true_iff, str_eqb_eq.
  rewrite Z.ltb_lt, Z.eqb_eq. done.
Qed.

Lemma key_lt_total a b : key_lt a b = true \/ a = b \/ key_lt b a = true.
Proof.
  rewrite !key_lt_spec. destruct a as [x [s1 s2]], b as [y [t1 t2]]. simpl.
  destruct (Z.lt_total x y) as [?|[->|?]]; [auto| |auto].
  destruct (str_lt_total s1 t1) as [?|[->|?]]; [auto| |auto 7].
  destruct (str_lt_total s2 t2) as [?|[->|?]]; auto 8.
Qed.

Lemma key_lt_trans a b c : key_lt a b = true -> key_lt b c = true -> key_lt a c = true.
Proof.
  rewrite !key_lt_spec. destruct a as [x [s1 s2]], b as [y [t1 t2]], c as [z [u1 u2]]. simpl.
  intros [?|[-> H1]] [?|[-> H2]]; [lia | lia | lia |]. right. split; [done|].
  destruct H1 as [?|[-> ?]], H2 as [?|[-> ?]]; eauto using str_lt_trans.
Qed.

Lemma str_lt_irrefl s : str_lt s s = false.
Proof. destruct (str_lt s s) eqn:E; [|done]. by apply str_lt_spec in E as [_ ?]. Qed.

Lemma key_lt_irrefl a : key_lt a a = false.
Proof.
  destruct (key_lt a a) eqn:E; [|done]. apply key_lt_spec in E.
  rewrite !str_lt_irrefl in E. destruct E as [?|[_ [?|[_ ?]]]]; [lia | done | done].
Qed.

#[export] Instance key_le_dec : RelDecision key_le.
Proof. intros a b. unfold key_le. apply _. Defined.

#[export] Instance key_le_trans : Transitive key_le.
Proof.
  intros a b c Hab Hbc. unfold key_le in *. destruct (key_lt c a) eqn:E; [|done].
  destruct (key_lt_total b c) as [H|[->|H]]; [|congruence..].
  pose proof (key_lt_trans _ _ _ H E). congruence.
Qed.

#[export] Instance key_le_total : Total key_le.
Proof.
  intros a b. unfold key_le.
  destruct (key_lt_total a b) as [H|[->|H]]; [left|left; apply key_lt_irrefl|right].
  - destruct (key_lt b a) eqn:E; [|done].
    pose proof (key_lt_trans _ _ _ H E) as Hc. by rewrite key_lt_irrefl in Hc.
  - destruct (key_lt a b) eqn:E; [|done].
    pose proof (key_lt_trans _ _ _ H E) as Hc. by rewrite key_lt_irrefl in Hc.
Qed.

Lemma key_le_refl a : key_le a a.
Proof. apply key_lt_irrefl. Qed.

(** Rows ordered by a queue key computed from them. *)
Definition by_key {K V} (f : K -> V -> QueueKey) : relation (K * V) :=
  fun a b => key_le (f a.1 a.2) (f b.1 b.2).
#[export] Instance by_key_dec {K V} (f : K -> V -> QueueKey) : RelDecision (by_key f).
Proof. intros a b. unfold by_key. apply _. Defined.
#[export] Instance by_key_trans {K V} (f : K -> V -> QueueKey) : Transitive (by_key f).
Proof. intros a b c. unfold by_key. apply key_le_trans. Qed.
#[export] Instance by_key_total {K V} (f : K -> V -> QueueKey) : Total (by_key f).
Proof. intros a b. unfold by_key. apply key_le_total. Qed.
