(* ===== verification/Durable.v ===== *)
(** * The durable event store (src/fabric/events/durable)

    [Durable] models types.go, store.go and delivery.go: configuration,
    bootstrap and the verification a reopen runs, publishing, claiming, settling,
    expiring, purging and inspecting deliveries, over the SQLite tables.
    [DurableInv] proves the store invariant, [DurableProps] the guarantees. *)
From Stdlib Require Import Strings.Byte ZArith Lia.
From S2P Require Import Prelude GoStrings FabricRef Wire Events SqlTx.
#[local] Open Scope Z_scope.

Module Durable.
Import Events.

Record Scope := mkScope { Audience : string; sc_Domain : string }.
Record KeyReference := mkKeyRef { kr_ID : string; kr_Version : string }.
Record Subscription := mkSub { sub_ID : string; sub_Types : list string }.

Record Config := mkConfig {
  Subscriptions : list Subscription; MaxSubscriptions : Z; MaxFanout : Z; MaxRows : Z;
  MaxBytes : Z; MaxDatabaseBytes : Z; MaxEventBytes : Z; MaxCipherBytes : Z;
  MaxPendingPerSubscription : Z; MaxAttempts : Z; LeaseTTL : Duration;
  RetryDelay : Duration; DeliveryTTL : Duration; DedupTTL : Duration }.

Definition DefaultConfig (subs : list Subscription) : Config :=
  {| Subscriptions := subs; MaxSubscriptions := 128; MaxFanout := 128; MaxRows := 65536;
     MaxBytes := 64 * 2 ^ 20; MaxDatabaseBytes := 128 * 2 ^ 20; MaxEventBytes := 2 ^ 20;
     MaxCipherBytes := 2 ^ 20 + 4096; MaxPendingPerSubscription := 4096; MaxAttempts := 8;
     LeaseTTL := 30 * time_Second; RetryDelay := time_Second; DeliveryTTL := 24 * time_Hour;
     DedupTTL := 7 * 24 * time_Hour |}.

Record Receipt := mkReceipt {
  r_Source : string; r_ID : string; r_Digest : string; CommittedAt : Time; Duplicate : bool }.
Record Claim := mkClaim {
  c_Subscription : string; c_Source : string; c_ID : string; c_Worker : string;
  c_Generation : Z; c_Token : string }.

(** DataProtector: authenticated encryption with operator-supplied keys. [Seal]
    draws randomness, its first argument. *)
Class DataProtector := {
  Reference : KeyReference;
  Seal : list byte -> list byte -> list byte -> option (list byte);
  Open : list byte -> list byte -> option (list byte);
}.
Class DataProtectorLaws (P : DataProtector) : Prop := {
  Open_Seal nonce aad plain c : Seal nonce aad plain = Some c -> Open aad c = Some plain;
}.

(** encoding/json of the three structs the store serialises. *)
Class DurableJson := {
  marshal_scope : Scope -> list byte;
  marshal_config : Config -> list byte;
  marshal_reference : KeyReference -> list byte;
  marshal_aad : string -> Scope -> KeyReference -> string -> string -> string -> list byte;
}.

(** ** Tables *)
Record EventRow := mkEventRow {
  e_digest : string; e_kind : string; e_cipher : list byte; e_created : Z; e_expires : Z;
  e_retain_until : Z; e_cost : Z }.

Inductive DeliveryState := pending | claimed | acked | failed.

Record DeliveryRow := mkDeliveryRow {
  d_state : DeliveryState; d_due : Z; d_lease : Z; d_attempt : Z; d_generation : Z;
  d_worker : string; d_token_hash : string; d_reason : string }.

Record Identity := mkIdentity {
  i_scope : list byte; i_config : list byte; i_key_ref : list byte; i_key_check : list byte }.

Notation EventKey := (string * string)%type (only parsing).
Notation DeliveryKey := (string * (string * string))%type (only parsing).

Record DB := mkDB {
  identity : option Identity;
  budget_rows : Z; budget_bytes : Z;
  subscriptions : gmap string Z;
  events : gmap EventKey EventRow;
  deliveries : gmap DeliveryKey DeliveryRow }.

Definition empty_db : DB := mkDB None 0 0 ∅ ∅ ∅.

#[export] Instance delivery_state_eq_dec : EqDecision DeliveryState.
Proof. solve_decision. Defined.

Definition live (d : DeliveryRow) : bool :=
  match d_state d with pending | claimed => true | _ => false end.

Record Store := mkStore {
  scope : Scope; config : Config; reference : KeyReference;
  byType : gmap string (list string); closed : bool; db : DB }.

Definition with_db (s : Store) (d : DB) : Store :=
  mkStore (scope s) (config s) (reference s) (byType s) (closed s) d.

(** ** Errors *)
Definition invalid (m : string) : Error := NewError CodeInvalidInput m.
Definition unavailable : Error :=
  NewError CodeProtocolError "Private durable event state unavailable".
Definition conflict : Error :=
  NewError CodeInvalidInput "Event identity already binds different content".
Definition stale : Error :=
  NewError CodeStaleContinuation "Event delivery claim is stale or unavailable".
Definition capacity (m : string) : Error := NewError CodeTargetUnavailable m.

(** ** Configuration *)
Definition limits_ok (c : Config) : bool :=
  negb ((MaxSubscriptions c <? 1) || (1024 <? MaxSubscriptions c) ||
        (MaxSubscriptions c <? Z.of_nat (length (Subscriptions c))) || (MaxFanout c <? 1) ||
        (MaxSubscriptions c <? MaxFanout c) || (MaxRows c <? 1) || (10000000 <? MaxRows c) ||
        (MaxBytes c <? 1) || (2 ^ 40 <? MaxBytes c) || (MaxDatabaseBytes c <? 4096) ||
        (2 ^ 40 <? MaxDatabaseBytes c) || (MaxEventBytes c <? 1) || (2 ^ 20 <? MaxEventBytes c) ||
        (MaxCipherBytes c <? MaxEventBytes c) || (2 * 2 ^ 20 <? MaxCipherBytes c) ||
        (MaxBytes c <? MaxCipherBytes c) || (MaxPendingPerSubscription c <? 1) ||
        (MaxRows c <? MaxPendingPerSubscription c) || (MaxAttempts c <? 1) ||
        (100000 <? MaxAttempts c) || (LeaseTTL c <? time_Millisecond) || (time_Hour <? LeaseTTL c) ||
        (RetryDelay c <? time_Millisecond) || (time_Hour <? RetryDelay c) ||
        (DeliveryTTL c <? time_Millisecond) || (30 * 24 * time_Hour <? DeliveryTTL c) ||
        (DedupTTL c <? DeliveryTTL c) || (365 * 24 * time_Hour <? DedupTTL c)).

(** The type loop: names valid and, the list being sorted, pairwise distinct. *)
Fixpoint check_types (prev : option string) (budget : Z) (types : list string) : result Error Z :=
  match types with
  | [] => Ok budget
  | t :: types' =>
      let budget := budget + len t + 4 in
      let? _ := guard (ValidNamespacedName t &&
                       match prev with Some p => negb (str_eqb p t) | None => true end)
                  (invalid "Invalid durable event subscription type") in
      check_types (Some t) budget types'
  end.

Definition sort_strings (l : list string) : list string := merge_sort String.le l.

Fixpoint check_subs (seen : list string) (budget : Z) (subs : list Subscription) :
    result Error (list Subscription) :=
  match subs with
  | [] => Ok []
  | s :: subs' =>
      let? _ := guard (ValidNamespacedName (sub_ID s) && negb (bool_decide (sub_ID s ∈ seen)) &&
                       (1 <=? Z.of_nat (length (sub_Types s))) &&
                       (Z.of_nat (length (sub_Types s)) <=? 64))
                  (invalid "Invalid durable event subscription") in
      let budget := budget + len (sub_ID s) + 64 in
      let types := sort_strings (sub_Types s) in
      let? budget := check_types None budget types in
      let? _ := guard (budget <=? 512 * 1024)
                  (invalid "Durable subscription configuration exceeds byte limit") in
      let? rest := check_subs (sub_ID s :: seen) budget subs' in
      Ok (mkSub (sub_ID s) types :: rest)
  end.

Definition sub_le (a b : Subscription) : Prop := String.le (sub_ID a) (sub_ID b).
#[export] Instance sub_le_dec : RelDecision sub_le.
Proof. intros a b. unfold sub_le. apply _. Defined.

Definition set_subscriptions (c : Config) (subs : list Subscription) : Config :=
  mkConfig subs (MaxSubscriptions c) (MaxFanout c) (MaxRows c) (MaxBytes c) (MaxDatabaseBytes c)
    (MaxEventBytes c) (MaxCipherBytes c) (MaxPendingPerSubscription c) (MaxAttempts c)
    (LeaseTTL c) (RetryDelay c) (DeliveryTTL c) (DedupTTL c).

Definition normalize (c : Config) : result Error Config :=
  let? _ := guard (limits_ok c) (invalid "Invalid durable event limits") in
  let? subs := check_subs [] 0 (Subscriptions c) in
  Ok (set_subscriptions c (merge_sort sub_le subs)).

Definition ValidateConfig (c : Config) : result Error Config := normalize c.

(** [s.byType[kind] = append(s.byType[kind], sub.ID)] for every subscription. *)
Definition index_type (id : string) (m : gmap string (list string)) (kind : string) :=
  <[kind := default [] (m !! kind) ++ [id]]> m.
Definition index_sub (m : gmap string (list string)) (s : Subscription) :=
  fold_left (index_type (sub_ID s)) (sub_Types s) m.
Definition index_subs (subs : list Subscription) : gmap string (list string) :=
  fold_left index_sub subs ∅.

Section store.
Context `{Sha256, Wire.JsonDecoder, CloudEvents, DataProtector, DurableJson}.

Definition tx (A : Type) : Type := Tx DB Error A.

Definition hex_digest (raw : list byte) : string := hex_encode (sha256 raw).

Definition aad (s : Store) (source id digest : string) : list byte :=
  marshal_aad "events-durable-1" (scope s) (reference s) source id digest.

(** ** Verification on reopen *)
Definition delivery_cost (k : DeliveryKey) : Z := len k.2.1 + len k.2.2 + len k.1 + 1024.

(** The correlated subquery over the deliveries of one event. *)
Definition deliveries_cost (d : DB) (ek : EventKey) : Z :=
  msum (fun k _ => if bool_decide (k.2 = ek) then delivery_cost k else 0) (deliveries d).

Definition base_cost (ek : EventKey) (cipher : list byte) (kind digest : string) : Z :=
  blen cipher + len ek.1 + len ek.2 + len kind + len digest + 128.

Definition event_cost (d : DB) (ek : EventKey) (e : EventRow) : Z :=
  base_cost ek (e_cipher e) (e_kind e) (e_digest e) + deliveries_cost d ek.

Definition total_rows (d : DB) : Z := Z.of_nat (size (events d)) + Z.of_nat (size (deliveries d)).
Definition total_bytes (d : DB) : Z := msum (event_cost d) (events d).

Definition pending_count (d : DB) (sub : string) : Z :=
  mcount (fun k r => bool_decide (k.1 = sub) && live r) (deliveries d).

Definition bad_delivery (c : Config) (r : DeliveryRow) : bool :=
  (d_generation r <? 0) || (d_attempt r <? 0) || (MaxAttempts c <? d_attempt r) ||
  (bool_decide (d_state r = claimed) &&
   ((d_generation r =? 0) || (d_attempt r =? 0) || negb (len (d_token_hash r) =? 64) ||
    str_eqb (d_worker r) "" || (d_lease r <=? 0))) ||
  (negb (bool_decide (d_state r = claimed)) &&
   (negb (str_eqb (d_token_hash r) "") || negb (str_eqb (d_worker r) "") ||
    negb (d_lease r =? 0))).

Definition decode (s : Store) (source id digest : string) (cipher : list byte) :
    result Error Event :=
  let? _ := guard (negb (MaxCipherBytes (config s) <? blen cipher)) unavailable in
  let? raw := of_option (Open (aad s source id digest) cipher) unavailable in
  let? _ := guard (str_eqb (hex_digest raw) digest) unavailable in
  let? e := match Decode raw (MaxEventBytes (config s)) with
            | Ok e => Ok e | Err _ => Err unavailable end in
  let? _ := guard (str_eqb (ev_Source e) source && str_eqb (ev_ID e) id) unavailable in
  Ok e.

(** [CASE WHEN length(cipher)<=? THEN cipher ELSE NULL END] scanned into a slice. *)
Definition bounded_cipher (c : Config) (cipher : list byte) : list byte :=
  if blen cipher <=? MaxCipherBytes c then cipher else [].

Definition decode_row (s : Store) (kv : EventKey * EventRow) : tx unit :=
  let! _ := tx_lift (decode s kv.1.1 kv.1.2 (e_digest kv.2)
                       (bounded_cipher (config s) (e_cipher kv.2))) in
  tx_ret tt.

Definition verify (s : Store) : tx unit :=
  let c := config s in
  let! '(rows, bytes) := tx_query unavailable (fun d => (budget_rows d, budget_bytes d)) in
  let! '(totalRows, totalBytes) :=
    tx_query unavailable (fun d => (total_rows d, total_bytes d)) in
  let! _ := tx_guard (negb (negb (rows =? totalRows) || negb (bytes =? totalBytes) || (rows <? 0) ||
                            (MaxRows c <? rows) || (bytes <? 0) || (MaxBytes c <? bytes)))
              unavailable in
  let! bad := tx_query unavailable (fun d =>
    mcount (fun k e => negb (e_cost e =? event_cost d k e)) (events d)) in
  let! _ := tx_guard (bad =? 0) unavailable in
  let! bad := tx_query unavailable (fun d =>
    mcount (fun sub p => negb (p =? pending_count d sub) || (p <? 0) ||
                         (MaxPendingPerSubscription c <? p)) (subscriptions d)) in
  let! _ := tx_guard (bad =? 0) unavailable in
  let! bad := tx_query unavailable (fun d =>
    mcount (fun _ r => bad_delivery c r) (deliveries d)) in
  let! _ := tx_guard (bad =? 0) unavailable in
  let! records := tx_query unavailable (fun d => map_to_list (events d)) in
  tx_iter (decode_row s) records.

(** ** Bootstrap and open *)
(** Outcomes of the file-system and driver calls of [open], in call order. *)
Record OpenIO := mkOpenIO {
  fs_dir : bool; fs_lock : bool; fs_create : bool; fs_check : bool; fs_path : bool;
  fs_open : bool; fs_pragma : bool; fs_sync : bool; fs_quick_check : bool;
  boot_io : TxIO; verify_io : TxIO }.

Definition open_ok : OpenIO :=
  mkOpenIO true true true true true true true true true io_ok io_ok.

Definition insert_sub (id : string) (d : DB) : option DB :=
  match subscriptions d !! id with
  | Some _ => None
  | None => Some (mkDB (identity d) (budget_rows d) (budget_bytes d)
                    (<[id := 0]> (subscriptions d)) (events d) (deliveries d))
  end.

Definition boot_tx (c : Config) (ident : Identity) : tx (finish unit) :=
  let! _ := tx_exec unavailable (fun d =>
    match identity d with Some _ => None | None => Some empty_db end) in
  let! _ := tx_exec unavailable (fun d =>
    Some (mkDB (Some ident) (budget_rows d) (budget_bytes d) (subscriptions d) (events d)
            (deliveries d))) in
  let! _ := tx_iter (fun sub => tx_exec unavailable (insert_sub (sub_ID sub))) (Subscriptions c) in
  tx_ret (Commit tt).

Definition identity_bounded (c : Config) (i : Identity) : bool :=
  (blen (i_scope i) <=? 16384) && (blen (i_config i) <=? 1048576) &&
  (blen (i_key_ref i) <=? 1024) && (blen (i_key_check i) <=? MaxCipherBytes c).

(** The directory holds no database ([None]) or one. The result carries what is
    on disk afterwards. *)
Definition bootstrap_disk (s : Store) (io : OpenIO) (nonce scopeRaw cfgRaw refRaw checkAAD : list byte) :
    result Error unit * DB :=
  match Seal nonce checkAAD (scopeRaw ++ cfgRaw) with
  | None => (Err unavailable, empty_db)
  | Some sealed =>
      if MaxCipherBytes (config s) <? blen sealed then (Err unavailable, empty_db)
      else
        let ident := mkIdentity scopeRaw cfgRaw refRaw sealed in
        match run_tx unavailable (boot_io io) empty_db (boot_tx (config s) ident) with
        | (Ok _, d) => (guard (fs_sync io) unavailable, d)
        | (Err e, d) => (Err e, d)
        end
  end.

Definition check_identity (s : Store) (io : OpenIO) (scopeRaw cfgRaw refRaw checkAAD : list byte)
    (d : DB) : result Error unit :=
  let? i := of_option (identity d) unavailable in
  let? _ := guard (fs_quick_check io && identity_bounded (config s) i) unavailable in
  let? _ := guard (bool_decide (i_scope i = scopeRaw) && bool_decide (i_config i = cfgRaw) &&
                   bool_decide (i_key_ref i = refRaw))
              (NewError CodeUnauthenticated
                 "Durable event scope/configuration/key reference mismatch") in
  let? plain := of_option (Open checkAAD (i_key_check i)) unavailable in
  guard (bool_decide (plain = scopeRaw ++ cfgRaw)) unavailable.

Definition open (sc : Scope) (c : Config) (create : bool) (io : OpenIO) (nonce : list byte)
    (disk : option DB) : result Error Store * option DB :=
  let checked :=
    let? _ := guard (validText (Audience sc) 4096 && validText (sc_Domain sc) 4096)
                (invalid "Durable events require explicit scope and data protector") in
    let? c := normalize c in
    let? _ := guard (validText (kr_ID Reference) 256 && validText (kr_Version Reference) 128)
                (invalid "Invalid data protector reference") in
    let? _ := guard ((negb create || fs_dir io) && fs_lock io) unavailable in
    let? _ := guard (negb create || (fs_create io && bool_decide (disk = None))) unavailable in
    Ok c in
  match checked with
  | Err e => (Err e, disk)
  | Ok c =>
      let disk := if create then Some empty_db else disk in
      match disk with
      | None => (Err unavailable, None)
      | Some d =>
          if fs_check io && fs_path io && fs_open io && fs_pragma io then
            let s := mkStore sc c Reference ∅ false d in
            let scopeRaw := marshal_scope sc in
            let cfgRaw := marshal_config c in
            let refRaw := marshal_reference Reference in
            let checkAAD := aad s "" "" "identity" in
            let '(booted, d) :=
              if create then bootstrap_disk s io nonce scopeRaw cfgRaw refRaw checkAAD
              else (Ok tt, d) in
            let opened :=
              let? _ := booted in
              let? _ := check_identity s io scopeRaw cfgRaw refRaw checkAAD d in
              let s := mkStore sc c Reference (index_subs (Subscriptions c)) false d in
              let? _ := run_read (verify_io io) d (verify s) in
              Ok s in
            (opened, Some d)
          else (Err unavailable, Some d)
      end
  end.

(** ** Publish *)
Definition insert_event (ek : EventKey) (row : EventRow) (d : DB) : option DB :=
  match events d !! ek with
  | Some _ => None
  | None => Some (mkDB (identity d) (budget_rows d) (budget_bytes d) (subscriptions d)
                    (<[ek := row]> (events d)) (deliveries d))
  end.

(** Primary key and both foreign keys. *)
Definition insert_delivery (k : DeliveryKey) (row : DeliveryRow) (d : DB) : option DB :=
  match deliveries d !! k, events d !! k.2, subscriptions d !! k.1 with
  | None, Some _, Some _ =>
      Some (mkDB (identity d) (budget_rows d) (budget_bytes d) (subscriptions d) (events d)
              (<[k := row]> (deliveries d)))
  | _, _, _ => None
  end.

Definition add_pending (sub : string) (delta : Z) (d : DB) : DB :=
  mkDB (identity d) (budget_rows d) (budget_bytes d)
    (alter (fun p => p + delta) sub (subscriptions d)) (events d) (deliveries d).

Definition add_budget (rows bytes : Z) (d : DB) : DB :=
  mkDB (identity d) (budget_rows d + rows) (budget_bytes d + bytes) (subscriptions d) (events d)
    (deliveries d).

Definition fresh_delivery (n : Z) : DeliveryRow :=
  mkDeliveryRow pending n 0 0 0 "" "" "".

(** The cost an event is charged at admission. *)
Definition admission_cost (ek : EventKey) (sealed : list byte) (kind digest : string)
    (matched : list string) : Z :=
  fold_left (fun cost sub => cost + (len ek.1 + len ek.2 + len sub + 1024)) matched
    (base_cost ek sealed kind digest).

Definition check_pending (c : Config) (sub : string) : tx unit :=
  let! p := tx_query unavailable (fun d => subscriptions d !! sub) in
  match p with
  | None => tx_err unavailable
  | Some p => tx_guard (negb (MaxPendingPerSubscription c <=? p))
                (capacity "Durable subscription capacity exceeded")
  end.

Definition enqueue (ek : EventKey) (n : Z) (sub : string) : tx unit :=
  let! _ := tx_exec unavailable (insert_delivery (sub, ek) (fresh_delivery n)) in
  tx_exec unavailable (fun d => Some (add_pending sub 1 d)).

Definition publish_tx (s : Store) (ek : EventKey) (kind digest : string) (sealed : list byte)
    (now : Time) : tx (finish Receipt) :=
  let c := config s in
  let! prior := tx_query unavailable (fun d => events d !! ek) in
  match prior with
  | Some row =>
      let! _ := tx_guard (str_eqb (e_digest row) digest) conflict in
      tx_ret (Rollback (mkReceipt ek.1 ek.2 digest (e_created row) true))
  | None =>
      let matched := default [] (byType s !! kind) in
      let fanout := Z.of_nat (length matched) in
      let! _ := tx_guard (negb (MaxFanout c <? fanout)) (capacity "Event fanout capacity exceeded") in
      let cost := admission_cost ek sealed kind digest matched in
      let! '(rows, bytes) := tx_query unavailable (fun d => (budget_rows d, budget_bytes d)) in
      let! _ := tx_guard (negb ((MaxRows c - rows <? 1 + fanout) || (MaxBytes c - bytes <? cost)))
                  (capacity "Durable event capacity exceeded") in
      let! _ := tx_iter (check_pending c) matched in
      let n := UnixNano now in
      let! _ := tx_guard (negb (max_int64 - DedupTTL c <? n))
                  (invalid "Event timestamp outside retention range") in
      let! _ := tx_exec unavailable (insert_event ek
        (mkEventRow digest kind sealed n (wrap64 (n + DeliveryTTL c)) (wrap64 (n + DedupTTL c)) cost)) in
      let! _ := tx_iter (enqueue ek n) matched in
      let! _ := tx_exec unavailable (fun d => Some (add_budget (1 + fanout) cost d)) in
      tx_ret (Commit (mkReceipt ek.1 ek.2 digest now false))
  end.

Definition Publish (s : Store) (io : TxIO) (nonce : list byte) (now : Time) (e : Event) :
    result Error Receipt * Store :=
  let prepared :=
    let? raw := Encode e (MaxEventBytes (config s)) in
    let? _ := guard (validText (ev_Source e) 4096 && validText (ev_ID e) 256 &&
                     validText (ev_Type e) 256)
                (invalid "Invalid bounded event identity") in
    let digest := hex_digest raw in
    let? sealed := of_option (Seal nonce (aad s (ev_Source e) (ev_ID e) digest) raw) unavailable in
    let? _ := guard (negb (MaxCipherBytes (config s) <? blen sealed)) unavailable in
    let? _ := guard (negb (closed s)) unavailable in
    Ok (digest, sealed) in
  match prepared with
  | Err err => (Err err, s)
  | Ok (digest, sealed) =>
      let '(r, d) := run_tx unavailable io (db s)
        (publish_tx s (ev_Source e, ev_ID e) (ev_Type e) digest sealed now) in
      (r, with_db s d)
  end.

(** ** Claim *)
Record Delivery := mkDelivery {
  dl_Claim : Claim; dl_Event : Event; dl_Digest : string; dl_Attempt : Z; dl_LeaseUntil : Time }.

Definition claimHash (token : string) : string := hex_encode (sha256 (bytes_of token)).

(** The two indexed seeks: the first due pending delivery and the first
    delivery whose lease has run out. *)
Definition due_key (k : DeliveryKey) (r : DeliveryRow) : QueueKey := (d_due r, k.2).
Definition lease_key (k : DeliveryKey) (r : DeliveryRow) : QueueKey := (d_lease r, k.2).

Definition due_candidate (d : DB) (sub : string) (n : Z) : option QueueKey :=
  (fun kv => due_key kv.1 kv.2) <$>
  select_first (by_key due_key)
    (fun k r => bool_decide (k.1 = sub) && bool_decide (d_state r = pending) && (d_due r <=? n))
    (deliveries d).

Definition lease_candidate (d : DB) (sub : string) (n : Z) : option QueueKey :=
  (fun kv => lease_key kv.1 kv.2) <$>
  select_first (by_key lease_key)
    (fun k r => bool_decide (k.1 = sub) && bool_decide (d_state r = claimed) && (d_lease r <=? n))
    (deliveries d).

Definition choose (chosen other : option QueueKey) : option QueueKey :=
  match chosen, other with
  | None, _ => other
  | Some _, None => chosen
  | Some c, Some o => if key_lt o c then other else chosen
  end.

Definition set_delivery (k : DeliveryKey) (where_ : DeliveryRow -> bool)
    (f : DeliveryRow -> DeliveryRow) (d : DB) : DB :=
  mkDB (identity d) (budget_rows d) (budget_bytes d) (subscriptions d) (events d)
    (alter (fun r => if where_ r then f r else r) k (deliveries d)).

Definition fail_row (reason : string) (r : DeliveryRow) : DeliveryRow :=
  mkDeliveryRow failed (d_due r) 0 (d_attempt r) (d_generation r) "" "" reason.

Definition claim_row (lease : Z) (worker token_hash : string) (r : DeliveryRow) : DeliveryRow :=
  mkDeliveryRow claimed (d_due r) lease (d_attempt r + 1) (d_generation r + 1) worker token_hash "".

Definition claim_tx (s : Store) (sub worker : string) (now : Time) (entropy : option (list byte)) :
    tx (finish (option Delivery)) :=
  let c := config s in
  let n := UnixNano now in
  let! chosen := tx_query unavailable (fun d => due_candidate d sub n) in
  let! other := tx_query unavailable (fun d => lease_candidate d sub n) in
  match choose chosen other with
  | None => tx_ret (Rollback None)
  | Some (_, ek) =>
      let k := (sub, ek) in
      let! row := tx_query unavailable (fun d =>
        match events d !! ek, deliveries d !! k with
        | Some e, Some r => Some (e, r)
        | _, _ => None
        end) in
      match row with
      | None => tx_err unavailable
      | Some (e, r) =>
          if (e_expires e <=? n) || (MaxAttempts c <=? d_attempt r) then
            let reason := if e_expires e <=? n then "delivery_expired" else "attempts_exhausted" in
            let! _ := tx_exec unavailable (fun d =>
              Some (set_delivery k (fun _ => true) (fail_row reason) d)) in
            let! _ := tx_exec unavailable (fun d => Some (add_pending sub (-1) d)) in
            tx_ret (Commit None)
          else
            let! _ := tx_guard (negb ((d_generation r <? 0) || (d_generation r =? max_int64) ||
                                      (d_attempt r <? 0))) unavailable in
            let! original := tx_lift (decode s ek.1 ek.2 (e_digest e)
                                        (bounded_cipher c (e_cipher e))) in
            let! tokenBytes := tx_lift (of_option entropy unavailable) in
            let token := base64url tokenBytes in
            let lease := if e_expires e <? UnixNano (now + LeaseTTL c) then e_expires e
                         else now + LeaseTTL c in
            let! _ := tx_exec unavailable (fun d =>
              Some (set_delivery k (fun r' => d_generation r' =? d_generation r)
                      (claim_row (UnixNano lease) worker (claimHash token)) d)) in
            tx_ret (Commit (Some
              {| dl_Claim := mkClaim sub ek.1 ek.2 worker (wrap64 (d_generation r + 1)) token;
                 dl_Event := original; dl_Digest := e_digest e;
                 dl_Attempt := wrap64 (d_attempt r + 1); dl_LeaseUntil := lease |}))
      end
  end.

(** The bool the source returns beside the delivery is [is_Some] of the result. *)
Definition Store_Claim (s : Store) (io : TxIO) (entropy : option (list byte))
    (subscription worker : string) (now : Time) : result Error (option Delivery) * Store :=
  if negb (validText subscription 256) || negb (validText worker 256) || IsZero now ||
     (UnixNano now <=? 0) || (max_int64 - LeaseTTL (config s) <? UnixNano now)
  then (Err (invalid "Invalid delivery claim"), s)
  else if closed s then (Err unavailable, s)
  else let '(r, d) := run_tx unavailable io (db s) (claim_tx s subscription worker now entropy) in
       (r, with_db s d).

(** ** Ack and Nack *)
Definition validClaim (c : Claim) : bool :=
  validText (c_Subscription c) 256 && validText (c_Source c) 4096 && validText (c_ID c) 256 &&
  validText (c_Worker c) 256 && (0 <? c_Generation c) && (len (c_Token c) =? 32).

Definition claim_key (c : Claim) : DeliveryKey := (c_Subscription c, (c_Source c, c_ID c)).

(** The WHERE clause that authorises a settlement. *)
Definition holds_lease (c : Claim) (n : Z) (r : DeliveryRow) : bool :=
  bool_decide (d_state r = claimed) && (d_generation r =? c_Generation c) &&
  str_eqb (d_worker r) (c_Worker c) && str_eqb (d_token_hash r) (claimHash (c_Token c)) &&
  (n <? d_lease r).

Definition settle_row (st : DeliveryState) (reason : string) (due : Z) (r : DeliveryRow) : DeliveryRow :=
  mkDeliveryRow st due 0 (d_attempt r) (d_generation r) "" "" reason.

Definition settle_outcome (c : Config) (now : Time) (ack : bool) (attempts expires : Z) :
    DeliveryState * string * Z :=
  if ack then (acked, "", UnixNano now)
  else
    let due := UnixNano (now + RetryDelay c) in
    if expires <=? UnixNano now then (failed, "delivery_expired", due)
    else if MaxAttempts c <=? attempts then (failed, "attempts_exhausted", due)
    else (pending, "", due).

Definition settle_tx (s : Store) (c : Claim) (now : Time) (ack : bool) : tx (finish unit) :=
  let k := claim_key c in
  let! row := tx_query unavailable (fun d =>
    match deliveries d !! k, events d !! k.2 with
    | Some r, Some e => if holds_lease c (UnixNano now) r then Some (d_attempt r, e_expires e) else None
    | _, _ => None
    end) in
  match row with
  | None => tx_err stale
  | Some (attempts, expires) =>
      let '(st, reason, due) := settle_outcome (config s) now ack attempts expires in
      let! _ := tx_exec unavailable (fun d =>
        Some (set_delivery k (fun r => bool_decide (d_state r = claimed) &&
                                       (d_generation r =? c_Generation c))
                (settle_row st reason due) d)) in
      let! _ := (if bool_decide (st = pending) then tx_ret tt
                 else tx_exec unavailable (fun d => Some (add_pending (c_Subscription c) (-1) d))) in
      tx_ret (Commit tt)
  end.

Definition settle (s : Store) (io : TxIO) (c : Claim) (now : Time) (ack : bool) :
    result Error unit * Store :=
  if negb (validClaim c) || IsZero now || (UnixNano now <=? 0) ||
     (max_int64 - RetryDelay (config s) <? UnixNano now)
  then (Err (invalid "Invalid delivery settlement"), s)
  else if closed s then (Err unavailable, s)
  else let '(r, d) := run_tx unavailable io (db s) (settle_tx s c now ack) in (r, with_db s d).

Definition Ack (s : Store) (io : TxIO) (c : Claim) (now : Time) := settle s io c now true.
Definition Nack (s : Store) (io : TxIO) (c : Claim) (now : Time) := settle s io c now false.

(** ** State and Inspect *)
Record State := mkState {
  Pending : Z; Claimed : Z; Acknowledged : Z; Failed : Z; Rows : Z; Bytes : Z }.

Definition state_count (d : DB) (st : DeliveryState) : Z :=
  mcount (fun _ r => bool_decide (d_state r = st)) (deliveries d).

Definition Store_State (s : Store) (io : TxIO) : result Error State :=
  let? _ := guard (negb (closed s)) unavailable in
  run_read io (db s)
    (let! '(rows, bytes) := tx_query unavailable (fun d => (budget_rows d, budget_bytes d)) in
     let! counts := tx_query unavailable (fun d => (state_count d)) in
     tx_ret (mkState (counts pending) (counts claimed) (counts acked) (counts failed) rows bytes)).

Record DeliveryStatus := mkStatus {
  ds_State : DeliveryState; ds_Attempt : Z; ds_Generation : Z; ds_LeaseUntil : Time;
  ds_NextAttempt : Time; ds_Reason : string }.

Definition Inspect (s : Store) (io : TxIO) (subscription source id : string) :
    result Error DeliveryStatus :=
  let? _ := guard (validText subscription 256 && validText source 4096 && validText id 256)
              (invalid "Invalid event delivery identity") in
  let? _ := guard (negb (closed s)) unavailable in
  run_read io (db s)
    (let! row := tx_query unavailable (fun d => deliveries d !! (subscription, (source, id))) in
     match row with
     | None => tx_err stale
     | Some r => tx_ret (mkStatus (d_state r) (d_attempt r) (d_generation r)
                           (if d_lease r =? 0 then zero_time else d_lease r) (d_due r) (d_reason r))
     end).

(** ** Purge *)
Definition has_live (d : DB) (ek : EventKey) : bool :=
  bool_decide (map_Exists (fun k r => k.2 = ek /\ live r = true) (deliveries d)).

Definition delivery_rows (d : DB) (ek : EventKey) : Z :=
  mcount (fun k _ => bool_decide (k.2 = ek)) (deliveries d).

Definition retain_key (k : EventKey) (e : EventRow) : QueueKey := (e_retain_until e, k).
Definition expiry_key (k : EventKey) (e : EventRow) : QueueKey := (e_expires e, k).

Definition purge_candidates (n : Z) (limit : nat) (d : DB) : list (EventKey * (Z * Z)) :=
  (fun kv => (kv.1, (e_cost kv.2, delivery_rows d kv.1))) <$>
  select_limit (by_key retain_key) limit
    (fun ek e => (e_retain_until e <=? n) && negb (has_live d ek)) (events d).

Definition delete_deliveries (ek : EventKey) (d : DB) : DB :=
  mkDB (identity d) (budget_rows d) (budget_bytes d) (subscriptions d) (events d)
    (filter (fun kv => kv.1.2 <> ek) (deliveries d)).

(** The foreign key refuses to orphan a delivery. *)
Definition delete_event (ek : EventKey) (d : DB) : option DB :=
  if bool_decide (map_Exists (fun k _ => k.2 = ek) (deliveries d)) then None
  else Some (mkDB (identity d) (budget_rows d) (budget_bytes d) (subscriptions d)
               (delete ek (events d)) (deliveries d)).

Definition purge_one (p : EventKey * (Z * Z)) : tx unit :=
  let '(ek, (cost, n)) := p in
  let! _ := tx_exec unavailable (fun d => Some (delete_deliveries ek d)) in
  let! _ := tx_exec unavailable (delete_event ek) in
  tx_exec unavailable (fun d => Some (add_budget (- (1 + n)) (- cost) d)).

Definition purge_tx (n : Z) (limit : nat) : tx (finish Z) :=
  let! candidates := tx_query unavailable (purge_candidates n limit) in
  let! _ := tx_iter purge_one candidates in
  tx_ret (Commit (Z.of_nat (length candidates))).

Definition Purge (s : Store) (io : TxIO) (clock before : Time) (limit : Z) : result Error Z * Store :=
  if IsZero before || (limit <? 1) || (1024 <? limit) || (clock <? before)
  then (Err (invalid "Invalid bounded event purge"), s)
  else if closed s then (Err unavailable, s)
  else let '(r, d) := run_tx unavailable io (db s) (purge_tx (UnixNano before) (Z.to_nat limit)) in
       (r, with_db s d).

(** ** Expire *)
Definition expire_candidates (n : Z) (limit : nat) (d : DB) : list EventKey :=
  fst <$> select_limit (by_key expiry_key) limit
            (fun ek e => (e_expires e <=? n) && has_live d ek) (events d).

Definition live_subs (ek : EventKey) (d : DB) : list string :=
  (fun kv => kv.1.1) <$>
  filter (fun kv : DeliveryKey * DeliveryRow => kv.1.2 = ek /\ live kv.2 = true)
    (map_to_list (deliveries d)).

Definition fail_live (ek : EventKey) (d : DB) : DB :=
  mkDB (identity d) (budget_rows d) (budget_bytes d) (subscriptions d) (events d)
    (map_imap (fun k r => Some (if bool_decide (k.2 = ek) && live r
                                then fail_row "delivery_expired" r else r)) (deliveries d)).

Definition expire_one (ek : EventKey) : tx unit :=
  let! subs := tx_query unavailable (live_subs ek) in
  let! _ := tx_exec unavailable (fun d => Some (fail_live ek d)) in
  tx_iter (fun sub => tx_exec unavailable (fun d => Some (add_pending sub (-1) d))) subs.

Definition expire_tx (n : Z) (limit : nat) : tx (finish Z) :=
  let! evs := tx_query unavailable (expire_candidates n limit) in
  let! _ := tx_iter expire_one evs in
  tx_ret (Commit (Z.of_nat (length evs))).

Definition Expire (s : Store) (io : TxIO) (clock before : Time) (limit : Z) : result Error Z * Store :=
  if IsZero before || (clock <? before) || (limit <? 1) || (1024 <? limit)
  then (Err (invalid "Invalid bounded event expiry"), s)
  else if closed s then (Err unavailable, s)
  else let '(r, d) := run_tx unavailable io (db s) (expire_tx (UnixNano before) (Z.to_nat limit)) in
       (r, with_db s d).

Definition Close (s : Store) : Store :=
  mkStore (scope s) (config s) (reference s) (byType s) true (db s).
End store.
End Durable.
