(* ===== verification/DurableInv.v ===== *)
(** * The invariant of the durable event store

    [store_ok] is what every operation maintains: the budget row equals the
    tables' totals, every event's cost covers its deliveries, every
    subscription's pending counter is the number of its live deliveries and
    within its limit, delivery rows are well formed, foreign keys hold, and every
    ciphertext opens to the event its row names. *)
From Stdlib Require Import Strings.Byte ZArith Lia.
From S2P Require Import Prelude GoStrings FabricRef Wire Events SqlTx Durable.
#[local] Open Scope Z_scope.

Module DurableInv.
Import Events Durable.

Section inv.
Context `{Sha256, Wire.JsonDecoder, CloudEvents, DataProtector, DurableJson}.

(** An event row as [Publish] writes it. *)
Definition event_row_ok (s : Store) (ek : EventKey) (e : EventRow) : Prop :=
  blen (e_cipher e) <= MaxCipherBytes (config s) /\
  is_ok (decode s ek.1 ek.2 (e_digest e) (e_cipher e)) = true /\
  in_int64 (e_created e) /\ e_created e + DedupTTL (config s) <= max_int64 /\
  e_expires e = e_created e + DeliveryTTL (config s) /\
  e_retain_until e = e_created e + DedupTTL (config s).

(** A delivery row: what [verify] checks, and that the lease generation counts
    the attempts. *)
Definition delivery_row_ok (c : Config) (r : DeliveryRow) : Prop :=
  bad_delivery c r = false /\ d_generation r = d_attempt r.

(** The tables, up to [dr] rows and [dc] bytes not yet on the budget row, with
    [extra ek] bytes of an event's cost not yet backed by deliveries, and
    [due sub] pending deliveries the counter of a subscription is ahead by. *)
Record tables_ok (s : Store) (dr dc : Z) (extra : EventKey -> Z) (due : string -> Z) (d : DB) : Prop := {
  ok_rows : budget_rows d + dr = total_rows d;
  ok_bytes : budget_bytes d + dc = msum (fun _ e => e_cost e) (events d);
  ok_cost ek e : events d !! ek = Some e -> e_cost e = event_cost d ek e + extra ek;
  ok_event ek e : events d !! ek = Some e -> event_row_ok s ek e;
  ok_pending sub p : subscriptions d !! sub = Some p ->
    p = pending_count d sub + due sub /\ p <= MaxPendingPerSubscription (config s);
  ok_delivery k r : deliveries d !! k = Some r -> delivery_row_ok (config s) r;
  ok_fk k r : deliveries d !! k = Some r ->
    is_Some (events d !! k.2) /\ is_Some (subscriptions d !! k.1);
}.

Definition zero_fn {A : Type} : A -> Z := fun _ => 0.

Record db_ok (s : Store) (d : DB) : Prop := {
  ok_tables : tables_ok s 0 0 zero_fn zero_fn d;
  ok_max_rows : budget_rows d <= MaxRows (config s);
  ok_max_bytes : budget_bytes d <= MaxBytes (config s);
}.

Record store_ok (s : Store) : Prop := {
  ok_limits : limits_ok (config s) = true;
  ok_db : db_ok s (db s);
}.

(** *** Bounds the limits give *)
Lemma limits_bounds c : limits_ok c = true ->
  1 <= MaxAttempts c <= 100000 /\ time_Millisecond <= LeaseTTL c <= time_Hour /\
  time_Millisecond <= RetryDelay c <= time_Hour /\
  time_Millisecond <= DeliveryTTL c <= DedupTTL c /\ DedupTTL c <= 365 * 24 * time_Hour /\
  1 <= MaxEventBytes c <= MaxCipherBytes c /\ 1 <= MaxPendingPerSubscription c.
Proof. unfold limits_ok. intros. rinv. repeat split; lia. Qed.

(** *** How the aggregates react to the table updates *)
Definition set_deliveries (d : DB) (m : gmap DeliveryKey DeliveryRow) : DB :=
  mkDB (identity d) (budget_rows d) (budget_bytes d) (subscriptions d) (events d) m.

Lemma set_delivery_eq k where_ f d r :
  deliveries d !! k = Some r ->
  set_delivery k where_ f d =
  set_deliveries d (<[k := if where_ r then f r else r]> (deliveries d)).
Proof.
  intros Hk. unfold set_delivery, set_deliveries. f_equal.
  apply map_eq. intros j. destruct (decide (j = k)) as [->|Hne].
  - rewrite lookup_alter_eq, lookup_insert_eq, Hk. done.
  - by rewrite lookup_alter_ne, lookup_insert_ne by done.
Qed.

Lemma deliveries_cost_insert d ek k r : deliveries d !! k = None ->
  deliveries_cost (set_deliveries d (<[k := r]> (deliveries d))) ek =
  deliveries_cost d ek + (if bool_decide (k.2 = ek) then delivery_cost k else 0).
Proof. intros Hk. unfold deliveries_cost. cbn [deliveries set_deliveries]. rewrite msum_insert by done. lia. Qed.

Lemma deliveries_cost_update d ek k r r' : deliveries d !! k = Some r ->
  deliveries_cost (set_deliveries d (<[k := r']> (deliveries d))) ek = deliveries_cost d ek.
Proof. intros Hk. unfold deliveries_cost. cbn [deliveries set_deliveries]. rewrite (msum_update _ _ _ r) by done. lia. Qed.

Lemma pending_count_insert d sub k r : deliveries d !! k = None ->
  pending_count (set_deliveries d (<[k := r]> (deliveries d))) sub =
  pending_count d sub + b2z (bool_decide (k.1 = sub) && live r).
Proof.
  intros Hk. unfold pending_count, mcount. cbn [deliveries set_deliveries].
  rewrite msum_insert by done. lia.
Qed.

Lemma pending_count_update d sub k r r' : deliveries d !! k = Some r ->
  pending_count (set_deliveries d (<[k := r']> (deliveries d))) sub =
  pending_count d sub - b2z (bool_decide (k.1 = sub) && live r)
                      + b2z (bool_decide (k.1 = sub) && live r').
Proof.
  intros Hk. unfold pending_count, mcount. cbn [deliveries set_deliveries].
  by rewrite (msum_update _ _ _ r).
Qed.

Lemma total_rows_update d k r r' : deliveries d !! k = Some r ->
  total_rows (set_deliveries d (<[k := r']> (deliveries d))) = total_rows d.
Proof.
  intros Hk. unfold total_rows. cbn [deliveries set_deliveries events].
  by rewrite map_size_insert_Some by (by exists r).
Qed.

(** Rewriting one delivery row in place. *)
Lemma tables_update s due d k r r' :
  tables_ok s 0 0 zero_fn due d -> deliveries d !! k = Some r ->
  delivery_row_ok (config s) r' ->
  tables_ok s 0 0 zero_fn
    (fun sub => due sub + (b2z (bool_decide (k.1 = sub) && live r) -
                           b2z (bool_decide (k.1 = sub) && live r')))
    (set_deliveries d (<[k := r']> (deliveries d))).
Proof.
  intros Hok Hk Hr'. destruct Hok as [Hrows Hbytes Hcost Hev Hpend Hdel Hfk]. constructor.
  - by rewrite (total_rows_update _ _ r).
  - done.
  - intros ek e He. cbn [events set_deliveries] in He. rewrite (Hcost ek e He).
    unfold event_cost. by rewrite (deliveries_cost_update _ _ _ r).
  - done.
  - intros sub p Hp. cbn [subscriptions set_deliveries] in Hp. destruct (Hpend sub p Hp) as [-> ?].
    split; [|done]. rewrite (pending_count_update _ _ _ r) by done. lia.
  - intros k0 r0. cbn [deliveries set_deliveries]. rewrite lookup_insert_Some.
    intros [[<- <-]|[_ ?]]; eauto.
  - intros k0 r0. cbn [deliveries set_deliveries events subscriptions].
    rewrite lookup_insert_Some. intros [[<- <-]|[_ ?]]; eauto.
Qed.

(** [UPDATE subscriptions SET pending=pending+?] *)
Lemma tables_add_pending s dr dc extra due d sub delta :
  tables_ok s dr dc extra due d ->
  (forall p, subscriptions d !! sub = Some p -> p + delta <= MaxPendingPerSubscription (config s)) ->
  tables_ok s dr dc extra (fun x => due x + (if bool_decide (x = sub) then delta else 0))
    (add_pending sub delta d).
Proof.
  intros Hok Hmax. destruct Hok as [Hrows Hbytes Hcost Hev Hpend Hdel Hfk]. constructor; try done.
  - intros sub' p. cbn [subscriptions add_pending].
    destruct (decide (sub' = sub)) as [->|Hne].
    + rewrite lookup_alter_eq. destruct (subscriptions d !! sub) as [q|] eqn:Hq; [|done].
      intros [= <-]. destruct (Hpend sub q Hq). rewrite bool_decide_eq_true_2 by done.
      split; [|by apply Hmax]. change (pending_count (add_pending sub delta d) sub) with (pending_count d sub). lia.
    + rewrite lookup_alter_ne by done. intros Hp. rewrite bool_decide_eq_false_2 by done.
      destruct (Hpend sub' p Hp). split; [|done].
      change (pending_count (add_pending sub delta d) sub') with (pending_count d sub'). lia.
  - intros k r Hk. cbn [deliveries events subscriptions add_pending] in *.
    destruct (Hfk k r Hk) as [? [p Hp]]. split; [done|].
    destruct (decide (k.1 = sub)) as [<-|?].
    + rewrite lookup_alter_eq, Hp. by eexists.
    + rewrite lookup_alter_ne by done. by eexists.
Qed.

Lemma tables_ext s dr dc extra extra' due due' d :
  tables_ok s dr dc extra due d -> (forall ek, extra ek = extra' ek) ->
  (forall sub, due sub = due' sub) -> tables_ok s dr dc extra' due' d.
Proof.
  intros [Hrows Hbytes Hcost Hev Hpend Hdel Hfk] He Hd. constructor; try done.
  - intros ek e Hx. rewrite <- He. eauto.
  - intros sub p Hp. rewrite <- Hd. eauto.
Qed.

(** ** Claim *)
(** A delivery that may be handed out at [n]. *)
Definition eligible (sub : string) (n : Z) (k : DeliveryKey) (r : DeliveryRow) : Prop :=
  k.1 = sub /\ ((d_state r = pending /\ d_due r <= n) \/ (d_state r = claimed /\ d_lease r <= n)).

(** The instant since which it has been waiting. *)
Definition waiting_since (r : DeliveryRow) : Z :=
  match d_state r with pending => d_due r | _ => d_lease r end.

Lemma due_candidate_Some d sub n qk : due_candidate d sub n = Some qk ->
  exists r, deliveries d !! (sub, qk.2) = Some r /\ d_state r = pending /\ d_due r <= n /\
    qk.1 = d_due r /\
    forall k r', deliveries d !! k = Some r' -> k.1 = sub -> d_state r' = pending -> d_due r' <= n ->
      key_le qk (d_due r', k.2).
Proof.
  unfold due_candidate. intros ([[sub' ek] r] & Hsel & ->)%fmap_Some.
  apply select_first_Some in Hsel as (Hk & Hp & Hmin); [|apply _..]. rinv. cbn in *. subst.
  exists r. split_and!; try done; [lia|]. intros k r' Hk' <- Hst Hdue.
  destruct (Hmin k r' Hk') as [[= -> ->]|Hle].
  - rewrite !bool_decide_eq_true_2 by done. simpl. lia.
  - apply key_le_refl.
  - exact Hle.
Qed.

Lemma lease_candidate_Some d sub n qk : lease_candidate d sub n = Some qk ->
  exists r, deliveries d !! (sub, qk.2) = Some r /\ d_state r = claimed /\ d_lease r <= n /\
    qk.1 = d_lease r /\
    forall k r', deliveries d !! k = Some r' -> k.1 = sub -> d_state r' = claimed -> d_lease r' <= n ->
      key_le qk (d_lease r', k.2).
Proof.
  unfold lease_candidate. intros ([[sub' ek] r] & Hsel & ->)%fmap_Some.
  apply select_first_Some in Hsel as (Hk & Hp & Hmin); [|apply _..]. rinv. cbn in *. subst.
  exists r. split_and!; try done; [lia|]. intros k r' Hk' <- Hst Hdue.
  destruct (Hmin k r' Hk') as [[= -> ->]|Hle].
  - rewrite !bool_decide_eq_true_2 by done. simpl. lia.
  - apply key_le_refl.
  - exact Hle.
Qed.

Lemma due_candidate_None d sub n : due_candidate d sub n = None ->
  forall k r, deliveries d !! k = Some r -> k.1 = sub -> d_state r = pending -> n < d_due r.
Proof.
  unfold due_candidate. intros Hs%fmap_None k r Hk Hsub Hst.
  rewrite select_first_None in Hs. specialize (Hs k r Hk). cbn beta in Hs.
  rewrite !bool_decide_eq_true_2 in Hs by done. simpl in Hs. lia.
Qed.

Lemma lease_candidate_None d sub n : lease_candidate d sub n = None ->
  forall k r, deliveries d !! k = Some r -> k.1 = sub -> d_state r = claimed -> n < d_lease r.
Proof.
  unfold lease_candidate. intros Hs%fmap_None k r Hk Hsub Hst.
  rewrite select_first_None in Hs. specialize (Hs k r Hk). cbn beta in Hs.
  rewrite !bool_decide_eq_true_2 in Hs by done. simpl in Hs. lia.
Qed.

(** The candidate that is chosen is eligible and waits longest. *)
Lemma choose_Some d sub n qk :
  choose (due_candidate d sub n) (lease_candidate d sub n) = Some qk ->
  exists r, deliveries d !! (sub, qk.2) = Some r /\ eligible sub n (sub, qk.2) r /\
    forall k r', deliveries d !! k = Some r' -> eligible sub n k r' ->
      key_le (waiting_since r, qk.2) (waiting_since r', k.2).
Proof.
  intros Hch.
  assert (forall qd, due_candidate d sub n = Some qd ->
    (forall ql, lease_candidate d sub n = Some ql -> key_le qd ql) -> qk = qd ->
    exists r, deliveries d !! (sub, qk.2) = Some r /\ eligible sub n (sub, qk.2) r /\
    forall k r', deliveries d !! k = Some r' -> eligible sub n k r' ->
      key_le (waiting_since r, qk.2) (waiting_since r', k.2)) as Hdue.
  { intros [x ek] (r & Hk & Hst & Hle & Hx & Hmin)%due_candidate_Some Hl ->. cbn in *. subst x.
    exists r. split; [done|]. split; [split; [done|by left]|].
    intros k r' Hk' [Hsub [[Hst' Hd]|[Hst' Hd]]]; unfold waiting_since; rewrite Hst, Hst'; [by eauto|].
    destruct (lease_candidate d sub n) as [ql|] eqn:El;
      [|pose proof (lease_candidate_None _ _ _ El k r' Hk' Hsub Hst'); lia].
    etrans; [by apply Hl|]. apply lease_candidate_Some in El as (? & _ & _ & _ & _ & Hmin'). eauto. }
  assert (forall ql, lease_candidate d sub n = Some ql ->
    (forall qd, due_candidate d sub n = Some qd -> key_le ql qd) -> qk = ql ->
    exists r, deliveries d !! (sub, qk.2) = Some r /\ eligible sub n (sub, qk.2) r /\
    forall k r', deliveries d !! k = Some r' -> eligible sub n k r' ->
      key_le (waiting_since r, qk.2) (waiting_since r', k.2)) as Hlease.
  { intros [x ek] (r & Hk & Hst & Hle & Hx & Hmin)%lease_candidate_Some Hl ->. cbn in *. subst x.
    exists r. split; [done|]. split; [split; [done|by right]|].
    intros k r' Hk' [Hsub [[Hst' Hd]|[Hst' Hd]]]; unfold waiting_since; rewrite Hst, Hst'; [|by eauto].
    destruct (due_candidate d sub n) as [qd|] eqn:El;
      [|pose proof (due_candidate_None _ _ _ El k r' Hk' Hsub Hst'); lia].
    etrans; [by apply Hl|]. apply due_candidate_Some in El as (? & _ & _ & _ & _ & Hmin'). eauto. }
  destruct (due_candidate d sub n) as [qd|]; destruct (lease_candidate d sub n) as [ql|];
    cbn [choose] in Hch; try (case_if; simplify_eq).
  - eapply Hlease; [done| |done]. intros ? [= <-]. unfold key_le.
    destruct (key_lt qd qk) eqn:E'; [|done].
    pose proof (key_lt_trans _ _ _ E E') as Hc. by rewrite key_lt_irrefl in Hc.
  - eapply Hdue; [done| |done]. by intros ? [= <-].
  - simplify_eq. eapply Hdue; done.
  - simplify_eq. eapply Hlease; done.
  - done.
Qed.

Lemma choose_None d sub n :
  choose (due_candidate d sub n) (lease_candidate d sub n) = None ->
  forall k r, deliveries d !! k = Some r -> ~ eligible sub n k r.
Proof.
  destruct (due_candidate d sub n) eqn:Ed, (lease_candidate d sub n) eqn:El; cbn [choose];
    try case_if; intros Hch; try done.
  intros k r Hk [Hsub [[Hst Hd]|[Hst Hd]]].
  - pose proof (due_candidate_None _ _ _ Ed k r Hk Hsub Hst). lia.
  - pose proof (lease_candidate_None _ _ _ El k r Hk Hsub Hst). lia.
Qed.

Lemma eligible_live sub n k r : eligible sub n k r -> live r = true.
Proof. unfold live. by intros [_ [[-> _]|[-> _]]]. Qed.

(** The instant [Claim] grants the lease until. *)
Definition lease_until (c : Config) (now : Time) (e : EventRow) : Time :=
  if e_expires e <? UnixNano (now + LeaseTTL c) then e_expires e else now + LeaseTTL c.

(** What a committed claim did. *)
Inductive claim_effect (s : Store) (sub worker : string) (now : Time) (entropy : option (list byte))
    (d : DB) : option Delivery -> DB -> Prop :=
| claim_failed ek e r reason :
    events d !! ek = Some e -> deliveries d !! (sub, ek) = Some r ->
    choose (due_candidate d sub (UnixNano now)) (lease_candidate d sub (UnixNano now)) =
      Some (waiting_since r, ek) ->
    (e_expires e <= UnixNano now \/ MaxAttempts (config s) <= d_attempt r) ->
    claim_effect s sub worker now entropy d None
      (add_pending sub (-1) (set_deliveries d (<[(sub, ek) := fail_row reason r]> (deliveries d))))
| claim_granted ek e r ev tokenBytes :
    events d !! ek = Some e -> deliveries d !! (sub, ek) = Some r ->
    choose (due_candidate d sub (UnixNano now)) (lease_candidate d sub (UnixNano now)) =
      Some (waiting_since r, ek) ->
    UnixNano now < e_expires e -> 0 <= d_attempt r < MaxAttempts (config s) ->
    0 <= d_generation r -> d_generation r <> max_int64 ->
    decode s ek.1 ek.2 (e_digest e) (bounded_cipher (config s) (e_cipher e)) = Ok ev ->
    entropy = Some tokenBytes ->
    claim_effect s sub worker now entropy d
      (Some {| dl_Claim := mkClaim sub ek.1 ek.2 worker (wrap64 (d_generation r + 1))
                             (base64url tokenBytes);
               dl_Event := ev; dl_Digest := e_digest e; dl_Attempt := wrap64 (d_attempt r + 1);
               dl_LeaseUntil := lease_until (config s) now e |})
      (set_deliveries d (<[(sub, ek) := claim_row (UnixNano (lease_until (config s) now e)) worker
                                          (claimHash (base64url tokenBytes)) r]> (deliveries d))).

Lemma choose_waiting d sub n x ek r :
  choose (due_candidate d sub n) (lease_candidate d sub n) = Some (x, ek) ->
  deliveries d !! (sub, ek) = Some r -> x = waiting_since r.
Proof.
  intros Hch Hr. destruct (due_candidate d sub n) as [[y ek1]|] eqn:Ed;
    destruct (lease_candidate d sub n) as [[z ek2]|] eqn:El; cbn [choose] in Hch;
    try case_if; simplify_eq;
    first [solve [apply due_candidate_Some in Ed as (r' & Hr' & Hst & _ & Hx & _);
                  cbn in *; simplify_eq; unfold waiting_since; by rewrite Hst]
          |apply lease_candidate_Some in El as (r' & Hr' & Hst & _ & Hx & _);
           cbn in *; simplify_eq; unfold waiting_since; by rewrite Hst].
Qed.

Lemma claim_tx_effect s sub worker now entropy stmt d a n d1 :
  claim_tx s sub worker now entropy stmt (O, d) = Ok (Commit a, (n, d1)) ->
  claim_effect s sub worker now entropy d a d1.
Proof.
  unfold claim_tx. intros Hrun. tinv.
  destruct (choose _ _) as [[x ek]|] eqn:Ech; [|by tinv]. tinv.
  destruct (events d !! ek) as [e|] eqn:Ee; [|by tinv].
  destruct (deliveries d !! (sub, ek)) as [r|] eqn:Er; [|by tinv].
  pose proof (choose_waiting _ _ _ _ _ _ Ech Er) as ->.
  case_if; tinv; simplify_eq.
  - rewrite (set_delivery_eq _ _ _ _ r) by done. eapply claim_failed; [done..|lia].
  - rewrite (set_delivery_eq _ _ _ _ r) by done. rewrite Z.eqb_refl.
    destruct entropy as [tb|]; cbn [of_option] in *; [|done]. rinv.
    apply claim_granted with (e := e); try done; lia.
Qed.

Lemma claim_tx_rollback s sub worker now entropy stmt d a st :
  claim_tx s sub worker now entropy stmt (O, d) = Ok (Rollback a, st) ->
  a = None /\ choose (due_candidate d sub (UnixNano now)) (lease_candidate d sub (UnixNano now)) = None.
Proof.
  unfold claim_tx. intros Hrun. tinv.
  destruct (choose _ _) as [[x ek]|] eqn:Ech; [|by tinv]. tinv.
  destruct (events d !! ek) as [e|], (deliveries d !! (sub, ek)) as [r|]; try by tinv.
  case_if; tinv.
Qed.

(** A live row that becomes a settled one, with the counter adjusted. *)
Lemma db_ok_settled s d k r r' :
  db_ok s d -> deliveries d !! k = Some r -> live r = true -> live r' = false ->
  delivery_row_ok (config s) r' ->
  db_ok s (add_pending k.1 (-1) (set_deliveries d (<[k := r']> (deliveries d)))).
Proof.
  intros [Ht Hmr Hmb] Hk Hl Hl' Hr'. constructor; [|done..].
  eapply tables_ext; [apply tables_add_pending; [by apply (tables_update _ zero_fn _ _ r)|]|done|].
  - intros p Hp. cbn [subscriptions set_deliveries] in Hp.
    destruct (ok_pending _ _ _ _ _ _ Ht _ _ Hp). lia.
  - intros sub. rewrite Hl, Hl'. unfold zero_fn. rewrite andb_true_r, andb_false_r.
    repeat case_bool_decide; subst; try done; simpl; lia.
Qed.

(** A live row that stays live. *)
Lemma db_ok_live s d k r r' :
  db_ok s d -> deliveries d !! k = Some r -> live r = live r' ->
  delivery_row_ok (config s) r' ->
  db_ok s (set_deliveries d (<[k := r']> (deliveries d))).
Proof.
  intros [Ht Hmr Hmb] Hk Hl Hr'. constructor; [|done..].
  eapply tables_ext; [by apply (tables_update _ zero_fn _ _ r)|done|].
  intros sub. rewrite Hl. unfold zero_fn. lia.
Qed.

Lemma row_ok_bounds c r : delivery_row_ok c r ->
  0 <= d_attempt r <= MaxAttempts c /\ d_generation r = d_attempt r.
Proof. unfold delivery_row_ok, bad_delivery. intros [? ?]. rinv. lia. Qed.

Lemma settled_row_ok c st due attempt gen reason : st <> claimed ->
  0 <= attempt <= MaxAttempts c -> gen = attempt ->
  delivery_row_ok c (mkDeliveryRow st due 0 attempt gen "" "" reason).
Proof.
  intros Hst Hb ->. unfold delivery_row_ok, bad_delivery. cbn.
  rewrite (bool_decide_eq_false_2 (st = claimed)) by done. simpl. lia.
Qed.

Lemma claimed_row_ok c due lease attempt gen worker hash :
  0 < attempt <= MaxAttempts c -> gen = attempt -> 0 < lease -> len hash = 64 -> worker <> "" ->
  delivery_row_ok c (mkDeliveryRow claimed due lease attempt gen worker hash "").
Proof.
  intros Ha -> Hl Hh Hw. split; [|done]. unfold bad_delivery.
  cbn [d_state d_lease d_attempt d_generation d_worker d_token_hash]. rewrite Hh.
  replace (str_eqb worker "") with false by (symmetry; by apply str_eqb_neq).
  rewrite bool_decide_eq_true_2 by done. cbn [negb andb]. lia.
Qed.

Lemma len_hex_digest raw : len (hex_encode (sha256 raw)) = 64.
Proof. unfold len. by rewrite length_hex_encode, sha256_length. Qed.

Lemma validText_nonempty t n : validText t n = true -> t <> "".
Proof. unfold validText. intros. rinv. by intros ->. Qed.

Definition claim_now_ok (c : Config) (now : Time) : Prop :=
  0 < UnixNano now /\ UnixNano now <= max_int64 - LeaseTTL c.

Lemma lease_until_pos s now ek e :
  limits_ok (config s) = true -> claim_now_ok (config s) now -> event_row_ok s ek e ->
  UnixNano now < e_expires e ->
  UnixNano now < UnixNano (lease_until (config s) now e) <= e_expires e.
Proof.
  intros Hl [Hpos Hmax] (_ & _ & Hcr & Hdd & Hex & _) Hlt.
  destruct (limits_bounds _ Hl) as (_ & HL & _ & HD & _). unfold time_Millisecond in *.
  unfold in_int64, min_int64, max_int64 in *.
  unfold lease_until. rewrite !UnixNano_add by (unfold in_int64, min_int64, max_int64; lia).
  case_if.
  { assert (UnixNano (e_expires e) = e_expires e) as -> by
      (apply wrap64_small; unfold in_int64, min_int64, max_int64; lia). lia. }
  rewrite UnixNano_add by (unfold in_int64, min_int64, max_int64; lia). lia.
Qed.

Lemma claim_preserves s sub worker now entropy d a d1 :
  limits_ok (config s) = true -> validText worker 256 = true -> claim_now_ok (config s) now ->
  db_ok s d -> claim_effect s sub worker now entropy d a d1 -> db_ok s d1.
Proof.
  intros Hlim Hw Hnow Hok Heff.
  destruct Heff as [ek e r reason He Hr Hch Hwhy|ek e r ev tb He Hr Hch Hexp Hatt Hgen Hmax Hdec Hent];
    destruct (choose_Some _ _ _ _ Hch) as (r0 & Hr0 & Hel & _); cbn in Hr0; simplify_eq;
    pose proof (ok_delivery _ _ _ _ _ _ (ok_tables _ _ Hok) _ _ Hr) as Hrow;
    pose proof (row_ok_bounds _ _ Hrow) as [Hb Hg].
  - apply (db_ok_settled s d (sub, ek) r); [done..|by eapply eligible_live|done|].
    by apply settled_row_ok.
  - eapply db_ok_live; [done|done| |].
    + by rewrite (eligible_live _ _ _ _ Hel).
    + pose proof (ok_event _ _ _ _ _ _ (ok_tables _ _ Hok) _ _ He) as Hev.
      pose proof (lease_until_pos s now ek e Hlim Hnow Hev Hexp) as Hlease.
      destruct Hnow. apply claimed_row_ok; [lia|lia|lia| |by eapply validText_nonempty].
      apply len_hex_digest.
Qed.

(** ** Settlement *)
Inductive settle_effect (s : Store) (c : Claim) (now : Time) (ack : bool) (d : DB) : DB -> Prop :=
| settle_eff e r st reason due :
    events d !! (claim_key c).2 = Some e -> deliveries d !! claim_key c = Some r ->
    holds_lease c (UnixNano now) r = true ->
    settle_outcome (config s) now ack (d_attempt r) (e_expires e) = (st, reason, due) ->
    settle_effect s c now ack d
      (let d' := set_deliveries d (<[claim_key c := settle_row st reason due r]> (deliveries d)) in
       if bool_decide (st = pending) then d' else add_pending (c_Subscription c) (-1) d').

Lemma settle_tx_effect s c now ack stmt d a n d1 :
  settle_tx s c now ack stmt (O, d) = Ok (Commit a, (n, d1)) -> settle_effect s c now ack d d1.
Proof.
  unfold settle_tx. intros Hrun. tinv.
  destruct (deliveries d !! claim_key c) as [r|] eqn:Er; [|by tinv].
  destruct (events d !! (claim_key c).2) as [e|] eqn:Ee; [|by tinv].
  destruct (holds_lease c (UnixNano now) r) eqn:Hh; [|by tinv].
  destruct (settle_outcome _ _ _ _ _) as [[st reason] due] eqn:Eo. tinv. simplify_eq.
  assert (holds_lease c (UnixNano now) r = true) as Hh' by done.
  unfold holds_lease in Hh. rinv.
  pose proof (settle_eff s c now ack d e r st reason due Ee Er Hh' Eo) as Heff. cbv zeta in Heff.
  rewrite (set_delivery_eq _ _ _ _ r) in * by done.
  rewrite (bool_decide_eq_true_2 (d_state r = claimed)) in * by done.
  match goal with H : (d_generation r =? _) = true |- _ => rewrite H in * end. cbn [andb] in *.
  destruct (bool_decide (st = pending)); tinv; simplify_eq; exact Heff.
Qed.

Lemma settle_preserves s c now ack d d1 :
  db_ok s d -> settle_effect s c now ack d d1 -> db_ok s d1.
Proof.
  intros Hok [e r st reason due He Hr Hh Ho].
  pose proof (ok_delivery _ _ _ _ _ _ (ok_tables _ _ Hok) _ _ Hr) as Hrow.
  pose proof (row_ok_bounds _ _ Hrow) as [Hb Hg].
  assert (live r = true) as Hl.
  { unfold holds_lease in Hh. rinv. unfold live. by replace (d_state r) with claimed. }
  assert (st <> claimed) as Hst.
  { unfold settle_outcome in Ho. repeat case_if; simplify_eq; done. }
  cbv zeta. case_bool_decide as Hp.
  - eapply db_ok_live; [done|done| |by apply settled_row_ok]. rewrite Hl. by subst.
  - apply (db_ok_settled s d (claim_key c) r); [done..| |by apply settled_row_ok].
    unfold live, settle_row. cbn. by destruct st.
Qed.

(** ** Publish *)
Definition enqueue_db (ek : EventKey) (n : Z) (d : DB) (sub : string) : DB :=
  add_pending sub 1 (set_deliveries d (<[(sub, ek) := fresh_delivery n]> (deliveries d))).

Lemma enqueue_iter ek n l stmt k d u k' d' :
  tx_iter (enqueue ek n) l stmt (k, d) = Ok (u, (k', d')) ->
  d' = fold_left (enqueue_db ek n) l d /\ NoDup l /\
  (forall sub, sub ∈ l -> deliveries d !! (sub, ek) = None /\ is_Some (subscriptions d !! sub)).
Proof.
  revert k d. induction l as [|sub l IH]; intros k d Hrun; cbn [tx_iter] in Hrun; tinv.
  - split; [done|]. split; [constructor|]. by intros sub Hsub%elem_of_nil.
  - unfold enqueue in *. tinv. simplify_eq.
    match goal with H : insert_delivery _ _ _ = Some _ |- _ => unfold insert_delivery in H; cbn [fst snd] in H end.
    destruct (deliveries d !! (sub, ek)) eqn:Ed; [done|].
    destruct (events d !! ek); [|done].
    destruct (subscriptions d !! sub) as [p|] eqn:Es; [|done]. simplify_eq.
    apply IH in Hrun as (-> & Hnd & Hfresh). cbn [fold_left].
    split; [done|]. split.
    + constructor; [|done]. intros Hin. destruct (Hfresh sub Hin) as [Hc _].
      cbn in Hc. by rewrite lookup_insert_eq in Hc.
    + intros sub' Hin. apply elem_of_cons in Hin as [->|Hin]; [split; [done|by eexists]|].
      destruct (Hfresh sub' Hin) as [Hc Hs]. cbn in Hc, Hs.
      assert (sub' <> sub) as Hne by (intros ->; by rewrite lookup_insert_eq in Hc).
      rewrite lookup_insert_ne in Hc by congruence. rewrite lookup_alter_ne in Hs by done. done.
Qed.

Lemma check_iter c l stmt k d u k' d' :
  tx_iter (check_pending c) l stmt (k, d) = Ok (u, (k', d')) ->
  d' = d /\ forall sub p, sub ∈ l -> subscriptions d !! sub = Some p ->
    p < MaxPendingPerSubscription c.
Proof.
  revert k. induction l as [|sub l IH]; intros k Hrun; cbn [tx_iter] in Hrun; tinv.
  - split; [done|]. by intros sub p Hsub%elem_of_nil.
  - unfold check_pending in *. tinv.
    destruct (subscriptions d !! sub) as [q|] eqn:Eq; tinv.
    apply IH in Hrun as [-> Hall]. split; [done|]. intros sub' p Hin Hp.
    apply elem_of_cons in Hin as [->|Hin]; [|eauto]. simplify_eq. lia.
Qed.

Lemma tables_insert_delivery s dr dc extra due d k row :
  tables_ok s dr dc extra due d -> deliveries d !! k = None ->
  is_Some (events d !! k.2) -> is_Some (subscriptions d !! k.1) ->
  delivery_row_ok (config s) row ->
  tables_ok s (dr + 1) dc
    (fun ek => extra ek - (if bool_decide (k.2 = ek) then delivery_cost k else 0))
    (fun sub => due sub - b2z (bool_decide (k.1 = sub) && live row))
    (set_deliveries d (<[k := row]> (deliveries d))).
Proof.
  intros Hok Hk He Hs Hr. destruct Hok as [Hrows Hbytes Hcost Hev Hpend Hdel Hfk]. constructor.
  - unfold total_rows in *. cbn [deliveries events set_deliveries budget_rows].
    rewrite map_size_insert_None by done. lia.
  - done.
  - intros ek e Hx. cbn [events set_deliveries] in Hx. rewrite (Hcost ek e Hx).
    unfold event_cost. rewrite deliveries_cost_insert by done. lia.
  - done.
  - intros sub p Hp. cbn [subscriptions set_deliveries] in Hp. destruct (Hpend sub p Hp) as [-> ?].
    split; [|done]. rewrite pending_count_insert by done. lia.
  - intros k0 r0. cbn [deliveries set_deliveries]. rewrite lookup_insert_Some.
    intros [[<- <-]|[_ ?]]; eauto.
  - intros k0 r0. cbn [deliveries set_deliveries events subscriptions].
    rewrite lookup_insert_Some. intros [[<- <-]|[_ ?]]; eauto.
Qed.

Lemma fresh_row_ok c n : limits_ok c = true -> delivery_row_ok c (fresh_delivery n).
Proof. intros Hl. destruct (limits_bounds _ Hl). apply settled_row_ok; [done|lia|done]. Qed.

Definition fanout_cost (ek : EventKey) (l : list string) : Z :=
  foldr (fun sub acc => delivery_cost (sub, ek) + acc) 0 l.

Lemma tables_enqueue s ek n l : limits_ok (config s) = true -> forall dr dc extra d,
  tables_ok s dr dc extra zero_fn d -> is_Some (events d !! ek) -> NoDup l ->
  (forall sub, sub ∈ l -> deliveries d !! (sub, ek) = None /\ is_Some (subscriptions d !! sub)) ->
  (forall sub p, sub ∈ l -> subscriptions d !! sub = Some p ->
     p < MaxPendingPerSubscription (config s)) ->
  tables_ok s (dr + Z.of_nat (length l)) dc
    (fun x => extra x - (if bool_decide (ek = x) then fanout_cost ek l else 0)) zero_fn
    (fold_left (enqueue_db ek n) l d).
Proof.
  intros Hlim. induction l as [|sub l IH]; intros dr dc extra d Hok Hek Hnd Hfresh Hmax.
  { cbn [length fold_left fanout_cost foldr]. replace (dr + Z.of_nat 0) with dr by lia.
    eapply tables_ext; [exact Hok| |done]. intros x. case_bool_decide; lia. }
  apply NoDup_cons in Hnd as [Hsub Hnd]. cbn [fold_left length].
  destruct (Hfresh sub ltac:(left)) as [Hd [p Hp]].
  assert (tables_ok s (dr + 1) dc
    (fun x => extra x - (if bool_decide (ek = x) then delivery_cost (sub, ek) else 0)) zero_fn
    (enqueue_db ek n d sub)) as Hok'.
  { eapply tables_ext; [apply tables_add_pending; [apply tables_insert_delivery|]| |].
    - exact Hok.
    - exact Hd.
    - exact Hek.
    - by exists p.
    - by apply fresh_row_ok.
    - intros q Hq. cbn in Hq. specialize (Hmax sub q ltac:(left) Hq). lia.
    - done.
    - intros x. cbn. unfold zero_fn. repeat case_bool_decide; subst; simpl; try done; lia. }
  replace (dr + Z.of_nat (S (length l))) with (dr + 1 + Z.of_nat (length l)) by lia.
  eapply tables_ext; [eapply (IH _ _ _ _ Hok' Hek Hnd)| |done].
  - intros sub' Hin. assert (sub' <> sub) by (by intros ->).
    destruct (Hfresh sub' ltac:(by right)) as [? ?]. cbn.
    rewrite lookup_insert_ne by congruence. by rewrite lookup_alter_ne.
  - intros sub' q Hin. assert (sub' <> sub) by (by intros ->). cbn.
    rewrite lookup_alter_ne by done. apply Hmax. by right.
  - intros x. cbn [fanout_cost foldr]. fold (fanout_cost ek l). case_bool_decide; lia.
Qed.

Lemma tables_insert_event s d ek row :
  tables_ok s 0 0 zero_fn zero_fn d -> events d !! ek = None -> event_row_ok s ek row ->
  tables_ok s 1 (e_cost row)
    (fun x => if bool_decide (ek = x)
              then e_cost row - base_cost ek (e_cipher row) (e_kind row) (e_digest row) else 0)
    zero_fn
    (mkDB (identity d) (budget_rows d) (budget_bytes d) (subscriptions d)
       (<[ek := row]> (events d)) (deliveries d)).
Proof.
  intros Hok Hek Hrow. destruct Hok as [Hrows Hbytes Hcost Hev Hpend Hdel Hfk].
  assert (deliveries_cost d ek = 0) as Hz.
  { apply msum_zero. intros k r Hk. destruct (Hfk k r Hk) as [[e He] _].
    rewrite bool_decide_eq_false_2; [done|]. intros <-. by rewrite He in Hek. }
  constructor; cbn [events subscriptions deliveries budget_rows budget_bytes].
  - unfold total_rows in *. cbn [events deliveries]. rewrite map_size_insert_None by done. lia.
  - rewrite msum_insert by done. lia.
  - intros ek' e. rewrite lookup_insert_Some. intros [[<- <-]|[Hne He]].
    + rewrite bool_decide_eq_true_2 by done. unfold event_cost.
      change (deliveries_cost _ ek) with (deliveries_cost d ek). lia.
    + rewrite bool_decide_eq_false_2 by done. apply (Hcost ek' e He).
  - intros ek' e. rewrite lookup_insert_Some. intros [[<- <-]|[Hne He]]; [done|]. eauto.
  - exact Hpend.
  - exact Hdel.
  - intros k r Hk. destruct (Hfk k r Hk) as [[e He] ?]. split; [|done].
    destruct (decide (k.2 = ek)) as [<-|?]; [by rewrite He in Hek|].
    rewrite lookup_insert_ne by done. by exists e.
Qed.

Lemma tables_add_budget s dr dc extra due d rows bytes :
  tables_ok s dr dc extra due d ->
  tables_ok s (dr - rows) (dc - bytes) extra due (add_budget rows bytes d).
Proof.
  intros [Hrows Hbytes Hcost Hev Hpend Hdel Hfk]. constructor; try done; cbn.
  - change (total_rows (add_budget rows bytes d)) with (total_rows d). lia.
  - lia.
Qed.

Lemma admission_cost_eq ek sealed kind digest matched :
  admission_cost ek sealed kind digest matched =
  base_cost ek sealed kind digest + fanout_cost ek matched.
Proof.
  unfold admission_cost. generalize (base_cost ek sealed kind digest) as b.
  induction matched as [|sub l IH]; intros b; cbn [fold_left fanout_cost foldr]; [lia|].
  rewrite IH. unfold fanout_cost, delivery_cost. cbn. lia.
Qed.

(** What a committed publish did. *)
Definition publish_row (s : Store) (ek : EventKey) (kind digest : string) (sealed : list byte)
    (now : Time) : EventRow :=
  mkEventRow digest kind sealed (UnixNano now) (wrap64 (UnixNano now + DeliveryTTL (config s)))
    (wrap64 (UnixNano now + DedupTTL (config s)))
    (admission_cost ek sealed kind digest (default [] (byType s !! kind))).

Definition published_db (s : Store) (ek : EventKey) (kind digest : string) (sealed : list byte)
    (now : Time) (d : DB) : DB :=
  let matched := default [] (byType s !! kind) in
  let row := publish_row s ek kind digest sealed now in
  add_budget (1 + Z.of_nat (length matched)) (e_cost row)
    (fold_left (enqueue_db ek (UnixNano now)) matched
       (mkDB (identity d) (budget_rows d) (budget_bytes d) (subscriptions d)
          (<[ek := row]> (events d)) (deliveries d))).

Record publish_effect (s : Store) (ek : EventKey) (kind digest : string) (sealed : list byte)
    (now : Time) (d : DB) (a : Receipt) (d1 : DB) : Prop := {
  pe_new : events d !! ek = None;
  pe_time : UnixNano now <= max_int64 - DedupTTL (config s);
  pe_fanout : NoDup (default [] (byType s !! kind));
  pe_fresh sub : sub ∈ default [] (byType s !! kind) ->
    deliveries d !! (sub, ek) = None /\ is_Some (subscriptions d !! sub);
  pe_room sub p : sub ∈ default [] (byType s !! kind) -> subscriptions d !! sub = Some p ->
    p < MaxPendingPerSubscription (config s);
  pe_rows : budget_rows d1 <= MaxRows (config s);
  pe_bytes : budget_bytes d1 <= MaxBytes (config s);
  pe_db : d1 = published_db s ek kind digest sealed now d;
  pe_receipt : a = mkReceipt ek.1 ek.2 digest now false;
}.

Lemma fold_enqueue_budget ek n l d :
  budget_rows (fold_left (enqueue_db ek n) l d) = budget_rows d /\
  budget_bytes (fold_left (enqueue_db ek n) l d) = budget_bytes d /\
  events (fold_left (enqueue_db ek n) l d) = events d.
Proof. revert d. induction l as [|sub l IH]; intros d; [done|]. cbn [fold_left]. by rewrite !(proj1 (IH _)), (proj1 (proj2 (IH _))), (proj2 (proj2 (IH _))). Qed.

Lemma publish_tx_effect s ek kind digest sealed now stmt d a n d1 :
  publish_tx s ek kind digest sealed now stmt (O, d) = Ok (Commit a, (n, d1)) ->
  publish_effect s ek kind digest sealed now d a d1.
Proof.
  unfold publish_tx. intros Hrun. tinv.
  destruct (events d !! ek) as [row|] eqn:Eek; tinv.
  repeat match goal with q : (nat * DB)%type |- _ => destruct q as [? ?] end; cbn [fst snd] in *.
  match goal with H : tx_iter (check_pending _) _ _ _ = _ |- _ => apply check_iter in H as [-> Hroom] end.
  match goal with H : insert_event _ _ _ = _ |- _ => unfold insert_event in H; rewrite Eek in H end.
  simplify_eq.
  match goal with H : tx_iter (enqueue _ _) _ _ _ = _ |- _ =>
    apply enqueue_iter in H as (-> & Hnd & Hfresh) end.
  destruct (fold_enqueue_budget ek (UnixNano now) (default [] (byType s !! kind))
    (mkDB (identity d) (budget_rows d) (budget_bytes d) (subscriptions d)
       (<[ek := publish_row s ek kind digest sealed now]> (events d)) (deliveries d)))
    as (Hr & Hb & _).
  constructor; try done; try lia; cbn [budget_rows budget_bytes add_budget];
    unfold publish_row in Hr, Hb; rewrite ?Hr, ?Hb; cbn; lia.
Qed.

Lemma publish_preserves s ek kind digest sealed now d a d1 :
  limits_ok (config s) = true -> blen sealed <= MaxCipherBytes (config s) ->
  is_ok (decode s ek.1 ek.2 digest sealed) = true ->
  db_ok s d -> publish_effect s ek kind digest sealed now d a d1 -> db_ok s d1.
Proof.
  intros Hlim Hlen Hdec [Ht _ _] [Hnew Htime Hnd Hfresh Hroom Hrows Hbytes Hdb _].
  constructor; [|done..]. rewrite Hdb. unfold published_db.
  set (matched := default [] (byType s !! kind)) in *.
  set (row := publish_row s ek kind digest sealed now).
  destruct (limits_bounds _ Hlim) as (_ & _ & _ & HD & HD' & _).
  pose proof (UnixNano_range now) as Hn. unfold time_Millisecond in *.
  assert (event_row_ok s ek row) as Hrow.
  { unfold row, publish_row, event_row_ok, in_int64, min_int64, max_int64 in *. cbn.
    rewrite (wrap64_small (UnixNano now + DeliveryTTL (config s)))
      by (unfold in_int64, min_int64, max_int64; lia).
    rewrite (wrap64_small (UnixNano now + DedupTTL (config s)))
      by (unfold in_int64, min_int64, max_int64; lia).
    split_and!; try done; lia. }
  pose proof (tables_insert_event s d ek row Ht Hnew Hrow) as Hins.
  eapply (tables_enqueue s ek (UnixNano now) matched Hlim) in Hins;
    [|cbn; rewrite lookup_insert_eq; by eexists|done|done|done].
  apply (tables_add_budget _ _ _ _ _ _ (1 + Z.of_nat (length matched)) (e_cost row)) in Hins.
  rewrite !Z.sub_diag in Hins. eapply tables_ext; [exact Hins| |done].
  intros x. unfold zero_fn. case_bool_decide; [|lia]. unfold row, publish_row. cbn [e_cost e_cipher e_kind e_digest].
  rewrite admission_cost_eq. fold matched. lia.
Qed.

(** ** Purge *)
Lemma delete_deliveries_costs ek d x : x <> ek ->
  deliveries_cost (delete_deliveries ek d) x = deliveries_cost d x.
Proof.
  intros Hne. unfold deliveries_cost, delete_deliveries. cbn [deliveries].
  rewrite msum_filter. apply msum_ext. intros k r _. cbn.
  repeat case_bool_decide; try done. naive_solver.
Qed.

Lemma delete_deliveries_pending ek d sub : has_live d ek = false ->
  pending_count (delete_deliveries ek d) sub = pending_count d sub.
Proof.
  unfold has_live. intros Hl. rinv. unfold pending_count, mcount, delete_deliveries. cbn [deliveries].
  rewrite msum_filter. apply msum_ext. intros k r Hk. cbn. case_bool_decide as Hne; [done|].
  destruct (live r) eqn:El; [|by rewrite andb_false_r]. destruct Hl. exists k, r. split; [done|].
  split; [|done]. destruct (decide (k.2 = ek)); [done | by destruct Hne].
Qed.

Lemma delete_deliveries_size ek d :
  Z.of_nat (size (deliveries (delete_deliveries ek d))) =
  Z.of_nat (size (deliveries d)) - delivery_rows d ek.
Proof.
  rewrite !size_msum. unfold delivery_rows, mcount, delete_deliveries. cbn [deliveries].
  rewrite msum_filter.
  assert (msum (fun (_ : DeliveryKey) (_ : DeliveryRow) => 1) (deliveries d) =
    msum (fun k r => (if bool_decide ((k, r).1.2 <> ek) then 1 else 0) + b2z (bool_decide (k.2 = ek)))
      (deliveries d)) as ->.
  { apply msum_ext. intros k r _. cbn. repeat case_bool_decide; simpl; try done. }
  rewrite msum_plus. lia.
Qed.

(** The candidates still to be purged, as they were selected. *)
Definition purgeable (d : DB) (p : EventKey * (Z * Z)) : Prop :=
  exists e, events d !! p.1 = Some e /\ p.2 = (e_cost e, delivery_rows d p.1) /\
    has_live d p.1 = false.

Lemma purge_one_effect ek cost n stmt st u st1 :
  purge_one (ek, (cost, n)) stmt st = Ok (u, st1) ->
  st1.2 = add_budget (- (1 + n)) (- cost)
    (mkDB (identity st.2) (budget_rows st.2) (budget_bytes st.2) (subscriptions st.2)
       (delete ek (events st.2)) (deliveries (delete_deliveries ek st.2))).
Proof.
  unfold purge_one. intros Hrun. tinv. simplify_eq.
  unfold delete_event in *. case_bool_decide; simplify_eq. done.
Qed.

Lemma db_ok_purge_one s d ek cost n :
  db_ok s d -> purgeable d (ek, (cost, n)) ->
  db_ok s (add_budget (- (1 + n)) (- cost)
    (mkDB (identity d) (budget_rows d) (budget_bytes d) (subscriptions d)
       (delete ek (events d)) (deliveries (delete_deliveries ek d)))).
Proof.
  intros [Ht Hmr Hmb] (e & He & [= -> ->] & Hlive). cbn in He, Hlive.
  destruct Ht as [Hrows Hbytes Hcost Hev Hpend Hdel Hfk].
  assert (0 <= delivery_rows d ek) by apply mcount_nonneg.
  assert (0 <= e_cost e) as Hnn.
  { rewrite (Hcost ek e He). unfold zero_fn, event_cost, base_cost.
    assert (0 <= deliveries_cost d ek).
    { apply msum_nonneg. intros k r _. unfold delivery_cost, len. case_bool_decide; lia. }
    unfold blen, len. lia. }
  constructor; [|cbn; lia..]. constructor.
  - unfold total_rows in *. cbn [add_budget budget_rows events deliveries].
    rewrite (map_size_delete_Some _ _ (ex_intro _ _ He)).
    assert (size (events d) <> 0%nat).
    { intros Hz%map_size_empty_inv. by rewrite Hz, lookup_empty in He. }
    pose proof (delete_deliveries_size ek d). lia.
  - cbn [add_budget budget_bytes events]. rewrite (msum_delete _ _ _ e) by done. lia.
  - intros x e'. cbn [events add_budget]. rewrite lookup_delete_Some. intros [Hne He'].
    rewrite (Hcost x e' He'). unfold event_cost. cbn [add_budget].
    change (deliveries_cost (add_budget _ _ _) x) with (deliveries_cost (delete_deliveries ek d) x).
    by rewrite delete_deliveries_costs.
  - intros x e'. cbn [events add_budget]. rewrite lookup_delete_Some. intros [_ ?]. eauto.
  - intros sub p Hp. cbn [subscriptions add_budget] in Hp. destruct (Hpend sub p Hp) as [-> ?].
    split; [|done].
    change (pending_count (add_budget _ _ _) sub) with (pending_count (delete_deliveries ek d) sub).
    by rewrite delete_deliveries_pending.
  - intros k r. cbn [deliveries add_budget delete_deliveries]. rewrite map_lookup_filter_Some.
    intros [? _]. eauto.
  - intros k r. cbn [deliveries add_budget delete_deliveries events subscriptions].
    rewrite map_lookup_filter_Some. intros [Hk Hne]. cbn in Hne.
    destruct (Hfk k r Hk). by rewrite lookup_delete_ne.
Qed.

Lemma purgeable_other d ek cost n p :
  purgeable d p -> p.1 <> ek ->
  purgeable (add_budget (- (1 + n)) (- cost)
    (mkDB (identity d) (budget_rows d) (budget_bytes d) (subscriptions d)
       (delete ek (events d)) (deliveries (delete_deliveries ek d)))) p.
Proof.
  intros (e & He & Hp & Hl) Hne. exists e. cbn [events add_budget].
  rewrite lookup_delete_ne by done. split; [done|]. split.
  - rewrite Hp. f_equal. unfold delivery_rows, mcount. cbn [deliveries add_budget delete_deliveries].
    rewrite msum_filter. apply msum_ext. intros k r _. cbn.
    repeat case_bool_decide; simpl; try done. exfalso. naive_solver.
  - unfold has_live in *. rinv. apply bool_decide_eq_false_2. intros (k & r & Hk & Hx). destruct Hl.
    exists k, r. split; [|done]. cbn in Hk. by apply map_lookup_filter_Some in Hk as [? _].
Qed.

Lemma purge_iter s l stmt st u st1 :
  db_ok s st.2 -> NoDup l.*1 -> Forall (purgeable st.2) l ->
  tx_iter purge_one l stmt st = Ok (u, st1) -> db_ok s st1.2.
Proof.
  revert st. induction l as [|[ek [cost n]] l IH]; intros st Hok Hnd Hall Hrun; cbn [tx_iter] in Hrun; tinv.
  - done.
  - rewrite fmap_cons in Hnd. apply NoDup_cons in Hnd as [Hek Hnd].
    apply Forall_cons in Hall as [Hp Hall].
    match goal with H : purge_one _ _ _ = Ok (_, ?x) |- _ =>
      apply purge_one_effect in H; eapply (IH x); [rewrite H; by apply db_ok_purge_one|done| |done];
      rewrite H end.
    eapply Forall_impl; [apply Forall_and; split; [exact Hall|apply Forall_forall; intros p Hin; exact Hin]|].
    intros p [Hpp Hin]. apply purgeable_other; [done|]. intros <-. apply Hek.
    cbn [fst]. by apply (list_elem_of_fmap_2 fst).
Qed.

Lemma purge_candidates_ok n limit d :
  NoDup (purge_candidates n limit d).*1 /\ Forall (purgeable d) (purge_candidates n limit d).
Proof.
  unfold purge_candidates. split.
  - rewrite <- list_fmap_compose. erewrite list_fmap_ext; [apply (NoDup_select_limit (by_key retain_key))|].
    by intros ? [].
  - apply Forall_forall. intros p ([ek e] & -> & Hin)%list_elem_of_fmap.
    apply elem_of_select_limit in Hin as [He Hp]. rinv. exists e. done.
Qed.

(** ** Expire *)
Definition occurrences (x : string) (l : list string) : Z :=
  Z.of_nat (length (filter (fun y => y = x) l)).

Lemma occurrences_cons x y l :
  occurrences x (y :: l) = (if bool_decide (x = y) then 1 else 0) + occurrences x l.
Proof.
  unfold occurrences. rewrite filter_cons. repeat case_decide; case_bool_decide; subst; simpl; try done; lia.
Qed.

Lemma live_subs_count ek d sub :
  occurrences sub (live_subs ek d) =
  mcount (fun k r => bool_decide (k.1 = sub) && bool_decide (k.2 = ek) && live r) (deliveries d).
Proof.
  unfold mcount, live_subs. rewrite msum_list.
  induction (map_to_list (deliveries d)) as [|[k r] l IH]; [done|].
  rewrite filter_cons. cbn [foldr fst snd]. rewrite <- IH.
  case_decide as Hc; cbn [fst snd] in Hc.
  - destruct Hc as [-> ->]. rewrite fmap_cons, occurrences_cons. cbn [fst snd].
    rewrite (bool_decide_eq_true_2 (ek = ek)) by done. rewrite !andb_true_r.
    repeat case_bool_decide; subst; simpl; try done.
  - replace (bool_decide (k.1 = sub) && bool_decide (k.2 = ek) && live r) with false; [simpl; lia|].
    symmetry. apply not_true_iff_false. intros Ht. rinv. by destruct Hc.
Qed.

Lemma fail_live_pending ek d sub :
  pending_count (fail_live ek d) sub = pending_count d sub - occurrences sub (live_subs ek d).
Proof.
  rewrite live_subs_count. unfold pending_count, mcount, fail_live. cbn [deliveries].
  rewrite msum_imap.
  enough (msum (fun k r => b2z (bool_decide (k.1 = sub) && live r)) (deliveries d) =
    msum (fun k r => b2z (bool_decide (k.1 = sub) && live (if bool_decide (k.2 = ek) && live r
                            then fail_row "delivery_expired" r else r)) +
                     b2z (bool_decide (k.1 = sub) && bool_decide (k.2 = ek) && live r)) (deliveries d))
    as E by (rewrite E, msum_plus; lia).
  apply msum_ext. intros k r _.
  destruct (bool_decide (k.1 = sub)), (bool_decide (k.2 = ek)), (live r) eqn:E; cbn; rewrite ?E; done.
Qed.

Lemma fail_live_lookup ek d k r : deliveries (fail_live ek d) !! k = Some r ->
  exists r0, deliveries d !! k = Some r0 /\
    r = (if bool_decide (k.2 = ek) && live r0 then fail_row "delivery_expired" r0 else r0).
Proof.
  cbn [deliveries fail_live]. rewrite map_lookup_imap.
  destruct (deliveries d !! k) as [r0|]; [|done]. intros [= <-]. eauto.
Qed.

Lemma tables_fail_live s d ek :
  tables_ok s 0 0 zero_fn zero_fn d ->
  tables_ok s 0 0 zero_fn (fun sub => occurrences sub (live_subs ek d)) (fail_live ek d).
Proof.
  intros [Hrows Hbytes Hcost Hev Hpend Hdel Hfk]. constructor; try done.
  - change (budget_rows (fail_live ek d)) with (budget_rows d). rewrite Hrows. unfold total_rows.
    cbn [events fail_live deliveries]. f_equal. rewrite !size_msum. by rewrite msum_imap.
  - intros x e He. rewrite (Hcost x e He). unfold event_cost. do 2 f_equal.
    unfold deliveries_cost, fail_live. cbn [deliveries]. by rewrite msum_imap.
  - intros sub p Hp. cbn [subscriptions fail_live] in Hp. destruct (Hpend sub p Hp) as [-> ?].
    split; [|done]. rewrite fail_live_pending. unfold zero_fn. lia.
  - intros k r (r0 & Hk & ->)%fail_live_lookup. pose proof (Hdel k r0 Hk) as Hr0.
    case_if; [|done]. pose proof (row_ok_bounds _ _ Hr0) as [? ?]. by apply settled_row_ok.
  - intros k r (r0 & Hk & ->)%fail_live_lookup. cbn [events subscriptions fail_live]. eauto.
Qed.

Lemma tables_drop_pending s l stmt : forall st u st1,
  tables_ok s 0 0 zero_fn (fun sub => occurrences sub l) st.2 ->
  tx_iter (fun sub => tx_exec unavailable (fun d => Some (add_pending sub (-1) d))) l stmt st
    = Ok (u, st1) ->
  tables_ok s 0 0 zero_fn zero_fn st1.2 /\ budget_rows st1.2 = budget_rows st.2 /\
  budget_bytes st1.2 = budget_bytes st.2 /\ events st1.2 = events st.2 /\
  deliveries st1.2 = deliveries st.2.
Proof.
  induction l as [|sub l IH]; intros st u st1 Hok Hrun; cbn [tx_iter] in Hrun; tinv.
  - done.
  - simplify_eq. apply IH in Hrun as (? & ? & ? & ? & ?); [done|]. cbn [snd].
    eapply tables_ext; [apply (tables_add_pending _ _ _ _ _ _ sub (-1) Hok)|done|].
    + intros p Hp. destruct (ok_pending _ _ _ _ _ _ Hok _ _ Hp). lia.
    + intros x. cbn. rewrite occurrences_cons. case_bool_decide; lia.
Qed.

Lemma expire_iter s l stmt st u st1 :
  db_ok s st.2 -> tx_iter expire_one l stmt st = Ok (u, st1) -> db_ok s st1.2.
Proof.
  intros Hok. apply (tx_iter_ind expire_one (fun _ d => db_ok s d)); [|done].
  clear. intros ek l [k d] [k' d'] u [Ht Hmr Hmb] Hrun. unfold expire_one in Hrun. tinv. simplify_eq.
  match goal with H : tx_iter _ _ _ _ = _ |- _ =>
    apply (tables_drop_pending s) in H as (Ht' & Hr & Hb & _); [|by apply tables_fail_live] end.
  cbn in Hr, Hb. constructor; [done|cbn [snd]; lia..].
Qed.

(** ** The handlers *)
Lemma store_ok_with_db s d : store_ok s -> db_ok s d -> store_ok (with_db s d).
Proof. intros [Hl _] Hd. constructor; [done|]. destruct Hd as [Ht ? ?]. constructor; [|done..].
  destruct Ht. by constructor. Qed.

(** The effect of each handler that reached its transaction. *)
Inductive handled {A : Type} (s : Store) (body : tx (finish A)) (s' : Store) (r : result Error A) : Prop :=
| handled_unchanged : s' = s -> (exists e, r = Err e) -> handled s body s' r
| handled_rollback a stmt st : s' = with_db s (db s) -> r = Ok a ->
    body stmt (O, db s) = Ok (Rollback a, st) -> handled s body s' r
| handled_commit a stmt n d : s' = with_db s d -> body stmt (O, db s) = Ok (Commit a, (n, d)) ->
    (r = Ok a \/ r = Err unavailable) -> handled s body s' r.

Lemma run_tx_handled {A} s io (body : tx (finish A)) r d :
  run_tx unavailable io (db s) body = (r, d) -> handled s body (with_db s d) r.
Proof.
  intros Hrun. destruct (run_tx_cases _ _ _ _ _ _ Hrun) as [[-> He]|[(a & st & Hb & -> & ->)|(a & n & Hb & Hr)]].
  - by apply handled_unchanged; [destruct s|].
  - by eapply handled_rollback.
  - eapply handled_commit; [done|done|]. destruct Hr as [[-> _]|[-> _]]; auto.
Qed.

Lemma handled_ok {A} s (body : tx (finish A)) s' r :
  handled s body s' r -> store_ok s ->
  (forall stmt a n d, body stmt (O, db s) = Ok (Commit a, (n, d)) -> db_ok s d) -> store_ok s'.
Proof.
  intros [-> _|a stmt st -> _ _|a stmt n d -> Hb _] Hok Hc; [done|by apply store_ok_with_db, Hok|].
  eauto using store_ok_with_db.
Qed.

Definition publish_ready (s : Store) (nonce : list byte) (e : Event) (digest : string)
    (sealed : list byte) : Prop :=
  exists raw, Encode e (MaxEventBytes (config s)) = Ok raw /\ digest = hex_digest raw /\
    Seal nonce (aad s (ev_Source e) (ev_ID e) digest) raw = Some sealed /\
    blen sealed <= MaxCipherBytes (config s).

Lemma Publish_handled s io nonce now e r s' :
  Publish s io nonce now e = (r, s') ->
  (s' = s /\ exists err, r = Err err) \/
  exists digest sealed, publish_ready s nonce e digest sealed /\ closed s = false /\
    handled s (publish_tx s (ev_Source e, ev_ID e) (ev_Type e) digest sealed now) s' r.
Proof.
  unfold Publish. destruct (rbind _ _) as [[digest sealed]|err] eqn:Ep; [|intros [= <- <-]; eauto].
  destruct (run_tx _ _ _ _) as [r' d] eqn:Erun. intros [= <- <-]. right. rinv.
  match goal with H : of_option (Seal ?a ?b ?c) _ = Ok _ |- _ => destruct (Seal a b c) eqn:Es; cbn in H; [|done] end.
  rinv. exists (hex_digest x), sealed. split.
  - exists x. split_and!; try done. lia.
  - split; [done|]. by eapply run_tx_handled.
Qed.

Lemma Claim_handled s io entropy sub worker now r s' :
  Store_Claim s io entropy sub worker now = (r, s') ->
  (s' = s /\ exists err, r = Err err) \/
  (validText worker 256 = true /\ claim_now_ok (config s) now /\ closed s = false /\
   handled s (claim_tx s sub worker now entropy) s' r).
Proof.
  unfold Store_Claim. case_if; [intros [= <- <-]; eauto|]. case_if; [intros [= <- <-]; eauto|].
  destruct (run_tx _ _ _ _) as [r' d] eqn:Erun. intros [= <- <-]. right. rinv.
  split; [done|]. split; [split; lia|]. split; [done|]. by eapply run_tx_handled.
Qed.

Lemma settle_handled s io c now ack r s' :
  settle s io c now ack = (r, s') ->
  (s' = s /\ exists err, r = Err err) \/
  (validClaim c = true /\ 0 < UnixNano now <= max_int64 - RetryDelay (config s) /\ closed s = false /\
   handled s (settle_tx s c now ack) s' r).
Proof.
  unfold settle. case_if; [intros [= <- <-]; eauto|]. case_if; [intros [= <- <-]; eauto|].
  destruct (run_tx _ _ _ _) as [r' d] eqn:Erun. intros [= <- <-]. right. rinv.
  split; [done|]. split; [lia|]. split; [done|]. by eapply run_tx_handled.
Qed.

Lemma Purge_handled s io clock before limit r s' :
  Purge s io clock before limit = (r, s') ->
  (s' = s /\ exists err, r = Err err) \/
  (before <= clock /\ closed s = false /\
   handled s (purge_tx (UnixNano before) (Z.to_nat limit)) s' r).
Proof.
  unfold Purge. case_if; [intros [= <- <-]; eauto|]. case_if; [intros [= <- <-]; eauto|].
  destruct (run_tx _ _ _ _) as [r' d] eqn:Erun. intros [= <- <-]. right. rinv.
  split; [lia|]. split; [done|]. by eapply run_tx_handled.
Qed.

Lemma Expire_handled s io clock before limit r s' :
  Expire s io clock before limit = (r, s') ->
  (s' = s /\ exists err, r = Err err) \/
  (before <= clock /\ closed s = false /\
   handled s (expire_tx (UnixNano before) (Z.to_nat limit)) s' r).
Proof.
  unfold Expire. case_if; [intros [= <- <-]; eauto|]. case_if; [intros [= <- <-]; eauto|].
  destruct (run_tx _ _ _ _) as [r' d] eqn:Erun. intros [= <- <-]. right. rinv.
  split; [lia|]. split; [done|]. by eapply run_tx_handled.
Qed.

Lemma purge_tx_preserves s n limit stmt d a k d1 :
  db_ok s d -> purge_tx n limit stmt (O, d) = Ok (Commit a, (k, d1)) -> db_ok s d1.
Proof.
  unfold purge_tx. intros Hok Hrun. tinv.
  destruct (purge_candidates_ok n limit d) as [Hnd Hall].
  match goal with H : tx_iter _ _ _ _ = Ok (_, ?st) |- _ => apply (purge_iter s) in H; done end.
Qed.

Lemma expire_tx_preserves s n limit stmt d a k d1 :
  db_ok s d -> expire_tx n limit stmt (O, d) = Ok (Commit a, (k, d1)) -> db_ok s d1.
Proof.
  unfold expire_tx. intros Hok Hrun. tinv.
  match goal with H : tx_iter _ _ _ _ = Ok (_, ?st) |- _ => apply (expire_iter s) in H; done end.
Qed.

(** The state machine of a store: every handler, under every fault. *)
Inductive step (s : Store) : Store -> Prop :=
| step_publish io nonce now e r s' : Publish s io nonce now e = (r, s') -> step s s'
| step_claim io entropy sub worker now r s' :
    Store_Claim s io entropy sub worker now = (r, s') -> step s s'
| step_settle io c now ack r s' : settle s io c now ack = (r, s') -> step s s'
| step_purge io clock before limit r s' : Purge s io clock before limit = (r, s') -> step s s'
| step_expire io clock before limit r s' : Expire s io clock before limit = (r, s') -> step s s'
| step_close : step s (Close s).

Context `{!DataProtectorLaws _, !CloudEventsLaws _}.

(** A sealed event row opens to its event. *)
Lemma decode_sealed s nonce e digest sealed :
  publish_ready s nonce e digest sealed ->
  exists e', decode s (ev_Source e) (ev_ID e) digest sealed = Ok e' /\
    ev_Source e' = ev_Source e /\ ev_ID e' = ev_ID e /\ ev_Type e' = ev_Type e.
Proof.
  intros (raw & Henc & -> & Hseal & Hlen).
  destruct (Decode_Encode _ _ _ Henc) as (e' & Hdec & Hs & Hi & Ht).
  exists e'. split; [|done]. unfold decode. rewrite (Open_Seal _ _ _ _ Hseal). cbn [of_option rbind].
  replace (MaxCipherBytes (config s) <? blen sealed) with false by lia.
  cbn [negb guard rbind]. rewrite str_eqb_refl. cbn [guard rbind]. rewrite Hdec. cbn [rbind].
  by rewrite Hs, Hi, !str_eqb_refl.
Qed.

Lemma step_preserves s s' : store_ok s -> step s s' -> store_ok s'.
Proof.
  intros Hok Hstep. pose proof Hok as [Hlim Hdb].
  destruct Hstep as [io nonce now e r s' Hrun|io ent sub worker now r s' Hrun|io c now ack r s' Hrun
                    |io clock before limit r s' Hrun|io clock before limit r s' Hrun|].
  - apply Publish_handled in Hrun as [[-> _]|(digest & sealed & Hrdy & _ & Hh)]; [done|].
    apply (handled_ok _ _ _ _ Hh Hok). intros stmt a n d Hb%publish_tx_effect.
    destruct (decode_sealed _ _ _ _ _ Hrdy) as (e' & Hdec & _). destruct Hrdy as (raw & _ & _ & _ & Hlen).
    eapply publish_preserves; [done|done| |done|done]. cbn. by rewrite Hdec.
  - apply Claim_handled in Hrun as [[-> _]|(Hw & Hn & _ & Hh)]; [done|].
    apply (handled_ok _ _ _ _ Hh Hok). intros. eapply claim_preserves; [done..|]. by eapply claim_tx_effect.
  - apply settle_handled in Hrun as [[-> _]|(_ & _ & _ & Hh)]; [done|].
    apply (handled_ok _ _ _ _ Hh Hok). intros. eapply settle_preserves; [done|]. by eapply settle_tx_effect.
  - apply Purge_handled in Hrun as [[-> _]|(_ & _ & Hh)]; [done|].
    apply (handled_ok _ _ _ _ Hh Hok). intros. by eapply purge_tx_preserves.
  - apply Expire_handled in Hrun as [[-> _]|(_ & _ & Hh)]; [done|].
    apply (handled_ok _ _ _ _ Hh Hok). intros. by eapply expire_tx_preserves.
  - constructor; [done|]. destruct Hdb as [Ht ? ?]. constructor; [|done..]. destruct Ht. by constructor.
Qed.
End inv.
End DurableInv.
