(* ===== verification/DurableProps.v ===== *)
(** * Guarantees of the durable event store

    Recovery: a bootstrapped store reopens after any history of operations and
    faults. Publishing: idempotent, conflicting content refused, atomic fan-out.
    Claims: the longest waiting eligible delivery, fenced by generation, token and
    lease; settled once. Expiry and purge never lose live work. *)
From Stdlib Require Import Strings.Byte ZArith Lia.
From S2P Require Import Prelude GoStrings FabricRef Wire Events SqlTx Durable DurableInv.
#[local] Open Scope Z_scope.

Module DurableProps.
Import Events Durable DurableInv.

Section props.
Context `{Sha256, Wire.JsonDecoder, CloudEvents, DataProtector, DurableJson}.

(** ** Recovery *)
Lemma bounded_cipher_ok c x : blen x <= MaxCipherBytes c -> bounded_cipher c x = x.
Proof. unfold bounded_cipher. intros. by replace (blen x <=? MaxCipherBytes c) with true by lia. Qed.

Lemma decode_rows_ok s d l k :
  Forall (fun kv : EventKey * EventRow => event_row_ok s kv.1 kv.2) l ->
  tx_iter (decode_row s) l (io_stmt io_ok) (k, d) = Ok (tt, (k, d)).
Proof.
  induction 1 as [|[ek e] l (Hlen & Hdec & _) _ IH]; [done|]. cbn [tx_iter fst snd] in *.
  unfold decode_row at 1. cbn [fst snd]. rewrite bounded_cipher_ok by done.
  unfold tx_bind, tx_lift. destruct (decode s ek.1 ek.2 (e_digest e) (e_cipher e)); [|done].
  cbn. exact IH.
Qed.

(** [verify] accepts every state that satisfies the invariant. *)
Lemma verify_ok s d : limits_ok (config s) = true -> db_ok s d ->
  run_read io_ok d (verify s) = Ok tt.
Proof.
  intros Hlim [[Hrows Hbytes Hcost Hev Hpend Hdel Hfk] Hmr Hmb].
  assert (total_bytes d = budget_bytes d) as Htot.
  { unfold total_bytes. rewrite <- (Z.add_0_r (budget_bytes d)), Hbytes. symmetry.
    apply msum_ext. intros ek e He. rewrite (Hcost ek e He). unfold zero_fn. lia. }
  assert (0 <= total_rows d) by (unfold total_rows; lia).
  assert (0 <= total_bytes d).
  { apply msum_nonneg. intros ek e He. unfold event_cost, base_cost, blen, len.
    assert (0 <= deliveries_cost d ek); [|lia].
    apply msum_nonneg. intros k r _. unfold delivery_cost, len. case_bool_decide; lia. }
  unfold run_read, verify, tx_bind, tx_query, tx_guard, tx_lift. cbn [io_stmt io_ok fst snd].
  replace (budget_rows d =? total_rows d) with true by lia.
  replace (budget_bytes d =? total_bytes d) with true by lia.
  replace (budget_rows d <? 0) with false by lia. replace (budget_bytes d <? 0) with false by lia.
  replace (MaxRows (config s) <? budget_rows d) with false by lia.
  replace (MaxBytes (config s) <? budget_bytes d) with false by lia.
  cbn [negb orb guard fst snd].
  assert (mcount (fun k e => negb (e_cost e =? event_cost d k e)) (events d) = 0) as ->.
  { apply mcount_zero. intros ek e He. rewrite (Hcost ek e He). unfold zero_fn. lia. }
  cbn [Z.eqb guard fst snd].
  assert (mcount (fun sub p => negb (p =? pending_count d sub) || (p <? 0) ||
            (MaxPendingPerSubscription (config s) <? p)) (subscriptions d) = 0) as ->.
  { apply mcount_zero. intros sub p Hp. destruct (Hpend sub p Hp) as [-> Hle].
    unfold zero_fn in *. pose proof (mcount_nonneg (fun k r => bool_decide (k.1 = sub) && live r) (deliveries d)).
    unfold pending_count in *. lia. }
  cbn [Z.eqb guard fst snd].
  assert (mcount (fun _ r => bad_delivery (config s) r) (deliveries d) = 0) as ->.
  { apply mcount_zero. intros k r Hk. by destruct (Hdel k r Hk). }
  cbn [Z.eqb guard fst snd]. rewrite decode_rows_ok; [done|].
  apply Forall_forall. intros [ek e] Hin%elem_of_map_to_list. by apply Hev.
Qed.

(** No handler touches the configuration or the identity row. *)
Lemma enqueue_identity ek n l d : identity (fold_left (enqueue_db ek n) l d) = identity d.
Proof. revert d. induction l as [|x l IH]; intros d; [done|]. cbn [fold_left]. by rewrite IH. Qed.

Definition static (s s' : Store) : Prop :=
  scope s' = scope s /\ config s' = config s /\ reference s' = reference s /\
  byType s' = byType s /\ identity (db s') = identity (db s).

Lemma handled_static {A} s (body : tx (finish A)) s' r :
  handled s body s' r ->
  (forall stmt a n d, body stmt (O, db s) = Ok (Commit a, (n, d)) -> identity d = identity (db s)) ->
  static s s'.
Proof.
  intros [-> _|a stmt st -> _ _|a stmt n d -> Hb _] Hc; [done|done|].
  repeat split; try done. cbn. eauto.
Qed.

Lemma step_static s s' : step s s' -> static s s'.
Proof.
  intros [io nonce now e r s1 Hrun|io ent sub worker now r s1 Hrun|io c now ack r s1 Hrun
         |io clock before limit r s1 Hrun|io clock before limit r s1 Hrun|].
  - apply Publish_handled in Hrun as [[-> _]|(digest & sealed & _ & _ & Hh)]; [done|].
    apply (handled_static _ _ _ _ Hh). intros stmt a n d Hb%publish_tx_effect.
    rewrite (pe_db _ _ _ _ _ _ _ _ _ Hb). unfold published_db. cbn [identity add_budget].
    by rewrite enqueue_identity.
  - apply Claim_handled in Hrun as [[-> _]|(_ & _ & _ & Hh)]; [done|].
    apply (handled_static _ _ _ _ Hh). by intros stmt a n d []%claim_tx_effect.
  - apply settle_handled in Hrun as [[-> _]|(_ & _ & _ & Hh)]; [done|].
    apply (handled_static _ _ _ _ Hh). intros stmt a n d []%settle_tx_effect. cbv zeta. by case_bool_decide.
  - apply Purge_handled in Hrun as [[-> _]|(_ & _ & Hh)]; [done|].
    apply (handled_static _ _ _ _ Hh). intros stmt a n d Hb. unfold purge_tx in Hb. tinv.
    match goal with H : tx_iter _ _ _ _ = Ok (_, ?st) |- _ =>
      eapply (tx_iter_ind purge_one (fun _ d' => identity d' = identity (db s))) in H; [exact H| |done] end.
    intros [ek [cost n']] l st st' u Hid Hone%purge_one_effect. by rewrite Hone.
  - apply Expire_handled in Hrun as [[-> _]|(_ & _ & Hh)]; [done|].
    apply (handled_static _ _ _ _ Hh). intros stmt a n d Hb. unfold expire_tx in Hb. tinv.
    match goal with H : tx_iter _ _ _ _ = Ok (_, ?st) |- _ =>
      eapply (tx_iter_ind expire_one (fun _ d' => identity d' = identity (db s))) in H; [exact H| |done] end.
    intros ek l [k d0] [k' d1] u Hid Hone. unfold expire_one in Hone. tinv. simplify_eq.
    match goal with H : tx_iter _ _ _ _ = Ok (_, ?st) |- _ =>
      eapply (tx_iter_ind _ (fun _ d' => identity d' = identity (db s))) in H; [exact H| |done] end.
    intros sub l' st st' u' Hid' Hx. tinv. by simplify_eq.
  - done.
Qed.

Lemma check_subs_length seen budget subs l :
  check_subs seen budget subs = Ok l -> length l = length subs.
Proof.
  revert seen budget l. induction subs as [|x subs IH]; intros seen budget l Hc; cbn [check_subs] in Hc.
  - by simplify_eq.
  - rinv. simpl. f_equal. eauto.
Qed.

Lemma normalize_limits c c' : normalize c = Ok c' -> limits_ok c' = true.
Proof.
  unfold normalize. intros Hn. rinv. unfold limits_ok in *.
  cbn [set_subscriptions MaxSubscriptions Subscriptions MaxFanout MaxRows MaxBytes MaxDatabaseBytes
       MaxEventBytes MaxCipherBytes MaxPendingPerSubscription MaxAttempts LeaseTTL RetryDelay
       DeliveryTTL DedupTTL].
  rewrite (Permutation_length (merge_sort_Permutation sub_le x0)).
  match goal with H : check_subs _ _ _ = _ |- _ => rewrite (check_subs_length _ _ _ _ H) end. done.
Qed.

(** The tables right after bootstrap. *)
Definition fresh_tables (d : DB) : Prop :=
  budget_rows d = 0 /\ budget_bytes d = 0 /\ events d = ∅ /\ deliveries d = ∅ /\
  forall sub p, subscriptions d !! sub = Some p -> p = 0.

Lemma fresh_ok s d : limits_ok (config s) = true -> fresh_tables d -> db_ok s d.
Proof.
  intros Hlim (Hr & Hb & He & Hd & Hs). pose proof (limits_bounds _ Hlim) as Hbd.
  unfold limits_ok in Hlim. rinv. constructor; [|lia..]. constructor.
  - unfold total_rows. rewrite Hr, He, Hd. done.
  - rewrite Hb, He, msum_empty. done.
  - intros ek e. by rewrite He, lookup_empty.
  - intros ek e. by rewrite He, lookup_empty.
  - intros sub p Hp. rewrite (Hs sub p Hp). unfold pending_count, mcount. rewrite Hd, msum_empty.
    unfold zero_fn. split; [done|lia].
  - intros k r. by rewrite Hd, lookup_empty.
  - intros k r. by rewrite Hd, lookup_empty.
Qed.

Lemma boot_tx_commit c ident stmt n d a :
  boot_tx c ident stmt (O, empty_db) = Ok (Commit a, (n, d)) ->
  fresh_tables d /\ identity d = Some ident.
Proof.
  unfold boot_tx. intros Hrun. tinv. cbn [empty_db identity] in *. simplify_eq.
  match goal with H : tx_iter _ _ _ _ = Ok (_, ?st) |- _ =>
    eapply (tx_iter_ind _ (fun _ d' => fresh_tables d' /\ identity d' = Some ident)) in H; [exact H| |] end.
  - intros sub l [k d0] [k' d1] u [(Hr & Hb & He & Hd & Hs) Hid] Hone. tinv.
    unfold insert_sub in *. cbn [fst snd] in *.
    destruct (subscriptions d0 !! sub_ID sub); simplify_eq. split; [|done].
    repeat split; try done. intros sub' p. cbn [subscriptions]. rewrite lookup_insert_Some.
    intros [[_ <-]|[_ Hp]]; [done|]. eauto.
  - split; [|done]. repeat split; done.
Qed.

Lemma bootstrap_disk_Ok s io nonce scopeRaw cfgRaw refRaw checkAAD d :
  bootstrap_disk s io nonce scopeRaw cfgRaw refRaw checkAAD = (Ok tt, d) ->
  exists sealed, Seal nonce checkAAD (scopeRaw ++ cfgRaw) = Some sealed /\ fresh_tables d /\
    identity d = Some (mkIdentity scopeRaw cfgRaw refRaw sealed).
Proof.
  unfold bootstrap_disk. destruct (Seal _ _ _) as [sealed|]; [|done]. case_if; [done|].
  destruct (run_tx _ _ _ _) as [[u|e] d'] eqn:Erun; [|done]. intros [= _ ->].
  apply run_tx_Ok in Erun as [(st & Hb & _)|(n & Hb)].
  - by unfold boot_tx in Hb; tinv.
  - apply boot_tx_commit in Hb as [? ?]. eauto.
Qed.

(** What a successful bootstrap leaves behind. *)
Lemma bootstrap_Ok sc c0 io nonce s disk :
  open sc c0 true io nonce None = (Ok s, disk) ->
  exists c d, normalize c0 = Ok c /\ disk = Some d /\
    s = mkStore sc c Reference (index_subs (Subscriptions c)) false d /\ fresh_tables d /\
    validText (Audience sc) 4096 && validText (sc_Domain sc) 4096 = true /\
    validText (kr_ID Reference) 256 && validText (kr_Version Reference) 128 = true /\
    check_identity s open_ok (marshal_scope sc) (marshal_config c) (marshal_reference Reference)
      (aad s "" "" "identity") d = Ok tt.
Proof.
  unfold open. destruct (rbind _ _) as [c|] eqn:Hchk; [|done].
  case_if; [|done].
  destruct (bootstrap_disk _ _ _ _ _ _ _) as [booted d] eqn:Eb.
  intros [= Hop <-]. destruct booted as [[]|]; [|done]. cbn [rbind] in Hop.
  apply rbind_Ok in Hop as ([] & Hid & Hop). apply rbind_Ok in Hop as (u & Hv & Hop). simplify_eq.
  apply bootstrap_disk_Ok in Eb as (sealed & Hseal & Hfresh & Hident).
  rinv. exists c, d. split_and!; try done; try (apply andb_true_iff; done).
  unfold check_identity in *. rewrite Hident in *. cbn [of_option rbind] in *.
  unfold open_ok. cbn [fs_quick_check]. destruct (fs_quick_check io); [exact Hid|done].
Qed.

Context `{!DataProtectorLaws _, !CloudEventsLaws _}.

Lemma bootstrap_store_ok sc c0 io nonce s disk :
  open sc c0 true io nonce None = (Ok s, disk) -> store_ok s.
Proof.
  intros (c & d & Hn & _ & -> & Hfresh & _)%bootstrap_Ok. apply normalize_limits in Hn.
  constructor; [done|]. by apply fresh_ok.
Qed.

Lemma history_ok s s' : store_ok s -> rtc step s s' -> store_ok s' /\ static s s'.
Proof.
  intros Hok Hrtc. revert Hok. induction Hrtc as [s|s s1 s2 Hstep _ IH]; intros Hok; [done|].
  destruct (IH (step_preserves _ _ Hok Hstep)) as [Hok2 (? & ? & ? & ? & ?)].
  split; [done|]. destruct (step_static _ _ Hstep) as (? & ? & ? & ? & ?). unfold static. split_and!; congruence.
Qed.

Lemma db_ok_static s s' d :
  scope s' = scope s -> config s' = config s -> reference s' = reference s -> db_ok s d -> db_ok s' d.
Proof.
  intros Hs Hc Hr [[R B C E P D F] M1 M2]. constructor; [|by rewrite Hc..].
  constructor; rewrite ?Hc; try done.
  intros ek e He. unfold event_row_ok, decode, aad. rewrite Hs, Hc, Hr. exact (E ek e He).
Qed.

Lemma reopens sc c0 bio nonce nonce' s0 disk s :
  open sc c0 true bio nonce None = (Ok s0, disk) -> rtc step s0 s ->
  open sc c0 false open_ok nonce' (Some (db s)) =
    (Ok (mkStore (scope s) (config s) (reference s) (byType s) false (db s)), Some (db s)).
Proof.
  intros Hopen Hrtc. pose proof (bootstrap_store_ok _ _ _ _ _ _ Hopen) as Hok0.
  destruct (history_ok _ _ Hok0 Hrtc) as [[Hlim Hdb] (Hs & Hc & Hr & Ht & Hi)].
  apply bootstrap_Ok in Hopen as (c & d & Hn & _ & -> & _ & Hsc & Hrefok & Hident).
  cbn [scope config reference byType db] in *. unfold open. rewrite Hsc. cbn [guard rbind].
  rewrite Hn. cbn [guard rbind]. rewrite Hrefok. cbn [guard rbind negb orb andb open_ok fs_dir fs_lock
    fs_create fs_check fs_path fs_open fs_pragma].
  unfold check_identity in Hident |- *. rewrite Hi.
  change (aad (mkStore sc c Reference ∅ false (db s)) "" "" "identity")
    with (aad (mkStore sc c Reference (index_subs (Subscriptions c)) false d) "" "" "identity").
  cbn [config] in *.
  set (chk := let? i := of_option (identity d) unavailable in _) in Hident.
  match goal with |- context [rbind (rbind (of_option (identity d) unavailable) ?k) _] =>
    change (rbind (of_option (identity d) unavailable) k) with chk end.
  rewrite Hident. cbn [rbind].
  assert (run_read (verify_io open_ok) (db s)
    (verify (mkStore sc c Reference (index_subs (Subscriptions c)) false (db s))) = Ok tt) as ->.
  { apply verify_ok; cbn [config]; [by rewrite <- Hc|].
    apply (db_ok_static s); cbn [scope config reference]; done. }
  cbn [rbind]. by rewrite Hs, Hc, Hr, Ht.
Qed.

(** ** Publishing *)
Lemma fold_enqueue_deliveries ek n l d k :
  deliveries (fold_left (enqueue_db ek n) l d) !! k =
  if bool_decide (k.2 = ek /\ k.1 ∈ l) then Some (fresh_delivery n) else deliveries d !! k.
Proof.
  revert d. induction l as [|sub l IH]; intros d; cbn [fold_left].
  - rewrite bool_decide_eq_false_2; [done|]. by intros [_ ?%elem_of_nil].
  - rewrite IH. cbn [enqueue_db add_pending deliveries set_deliveries].
    destruct k as [sub' ek']. cbn [fst snd].
    destruct (decide ((sub', ek') = (sub, ek))) as [[= -> ->]|Hne].
    + rewrite lookup_insert_eq. rewrite (bool_decide_eq_true_2 (ek = ek /\ sub ∈ sub :: l)) by (split; [done|left]).
      by destruct (bool_decide _).
    + rewrite lookup_insert_ne by congruence.
      assert (bool_decide (ek' = ek /\ sub' ∈ sub :: l) = bool_decide (ek' = ek /\ sub' ∈ l)) as ->; [|done].
      apply bool_decide_ext. rewrite elem_of_cons. split; [|tauto]. intros [-> [->|?]]; [|done]. by destruct Hne.
Qed.

Lemma fold_enqueue_subscriptions ek n l d sub :
  NoDup l ->
  subscriptions (fold_left (enqueue_db ek n) l d) !! sub =
  (fun p => if bool_decide (sub ∈ l) then p + 1 else p) <$> subscriptions d !! sub.
Proof.
  revert d. induction l as [|x l IH]; intros d Hnd; cbn [fold_left].
  - rewrite bool_decide_eq_false_2 by (by intros ?%elem_of_nil). symmetry. apply option_fmap_id.
  - apply NoDup_cons in Hnd as [Hx Hnd]. rewrite IH by done.
    cbn [enqueue_db add_pending subscriptions set_deliveries].
    destruct (decide (sub = x)) as [->|Hne].
    + rewrite lookup_alter_eq, (bool_decide_eq_false_2 (x ∈ l)) by done.
      rewrite bool_decide_eq_true_2 by left. by destruct (subscriptions d !! x).
    + rewrite lookup_alter_ne by done.
      assert (bool_decide (sub ∈ x :: l) = bool_decide (sub ∈ l)) as ->; [|done].
      apply bool_decide_ext. rewrite elem_of_cons. naive_solver.
Qed.

(** The subscriptions an event type fans out to. *)
Lemma index_type_elem id m kinds kind sub :
  sub ∈ default [] (fold_left (index_type id) kinds m !! kind) <->
  sub ∈ default [] (m !! kind) \/ (sub = id /\ kind ∈ kinds).
Proof.
  revert m. induction kinds as [|k kinds IH]; intros m; cbn [fold_left].
  - rewrite elem_of_nil. tauto.
  - rewrite IH, elem_of_cons. unfold index_type at 1. destruct (decide (kind = k)) as [->|Hne].
    + rewrite lookup_insert_eq. simpl. rewrite elem_of_app, list_elem_of_singleton. tauto.
    + rewrite lookup_insert_ne by done. tauto.
Qed.

Lemma index_subs_elem subs kind sub :
  sub ∈ default [] (index_subs subs !! kind) <->
  exists x, x ∈ subs /\ sub_ID x = sub /\ kind ∈ sub_Types x.
Proof.
  unfold index_subs. assert (forall m, sub ∈ default [] (fold_left index_sub subs m !! kind) <->
    sub ∈ default [] (m !! kind) \/ exists x, x ∈ subs /\ sub_ID x = sub /\ kind ∈ sub_Types x) as Hgen.
  { induction subs as [|y subs IH]; intros m; cbn [fold_left].
    - setoid_rewrite elem_of_nil. naive_solver.
    - rewrite IH. unfold index_sub. rewrite index_type_elem. setoid_rewrite elem_of_cons. naive_solver. }
  rewrite Hgen, lookup_empty. simpl. rewrite elem_of_nil. naive_solver.
Qed.

(** A stored identity: publishing it again never writes. *)
Lemma publish_known s io nonce now e r s' row :
  events (db s) !! (ev_Source e, ev_ID e) = Some row ->
  Publish s io nonce now e = (r, s') ->
  db s' = db s /\
  forall rc, r = Ok rc ->
    rc = mkReceipt (ev_Source e) (ev_ID e) (e_digest row) (e_created row) true.
Proof.
  intros Hrow [[-> [err ->]]|(digest & sealed & Hrdy & _ & Hh)]%Publish_handled; [done|].
  destruct Hh as [-> [err ->]|a stmt st -> -> Hb|a stmt n d -> Hb _].
  - done.
  - split; [done|]. intros rc [= <-]. unfold publish_tx in Hb. tinv. rewrite Hrow in Hb. tinv.
    match goal with H : str_eqb _ _ = true |- _ => apply str_eqb_eq in H; subst end. done.
  - apply publish_tx_effect in Hb. pose proof (pe_new _ _ _ _ _ _ _ _ _ Hb) as Hn. by rewrite Hrow in Hn.
Qed.

(** Event rows are immutable: a step keeps a row or removes it. *)
Lemma purge_iter_events l stmt st u st1 ek row :
  tx_iter purge_one l stmt st = Ok (u, st1) ->
  events st1.2 !! ek = Some row -> events st.2 !! ek = Some row.
Proof.
  revert st. induction l as [|[x [cost n]] l IH]; intros st Hrun Hrow; cbn [tx_iter] in Hrun; tinv; [done|].
  apply IH in Hrun; [|done].
  match goal with H : purge_one _ _ _ = _ |- _ => apply purge_one_effect in H; rewrite H in Hrun end.
  cbn in Hrun. by apply lookup_delete_Some in Hrun as [_ ?].
Qed.

Lemma handled_case {A} s (body : tx (finish A)) s' r (P : DB -> Prop) :
  handled s body s' r -> P (db s) ->
  (forall stmt a n d, body stmt (O, db s) = Ok (Commit a, (n, d)) -> P d) -> P (db s').
Proof. intros [-> _|a stmt st -> _ _|a stmt n d -> Hb _] HP Hc; [done|done|]. cbn. eauto. Qed.

Lemma expire_iter_shape l stmt st u st1 :
  tx_iter expire_one l stmt st = Ok (u, st1) ->
  events st1.2 = events st.2 /\
  forall k, deliveries st1.2 !! k =
    (fun r => if bool_decide (k.2 ∈ l) && live r then fail_row "delivery_expired" r else r)
      <$> deliveries st.2 !! k.
Proof.
  revert st. induction l as [|ek l IH]; intros st Hrun; cbn [tx_iter] in Hrun; tinv.
  - split; [done|]. intros k. rewrite bool_decide_eq_false_2 by (by intros ?%elem_of_nil).
    symmetry. apply option_fmap_id.
  - apply IH in Hrun as [He Hd].
    match goal with H : expire_one _ _ _ = _ |- _ => unfold expire_one in H; tinv end. simplify_eq.
    match goal with H : tx_iter _ _ _ _ = Ok (_, ?st') |- _ =>
      eapply (tx_iter_ind _ (fun _ d => events d = events st.2 /\ deliveries d = deliveries (fail_live ek st.2)))
        in H as [He1 Hd1]; [rewrite He1 in He; rewrite Hd1 in Hd| |done] end.
    + split; [done|]. intros k. rewrite Hd. cbn [deliveries fail_live]. rewrite map_lookup_imap.
      destruct (deliveries st.2 !! k) as [r|]; [|done]. cbn. f_equal.
      assert (bool_decide (k.2 ∈ ek :: l) = bool_decide (k.2 = ek) || bool_decide (k.2 ∈ l)) as ->.
      { apply Bool.eq_iff_eq_true. rewrite orb_true_iff, !bool_decide_eq_true, elem_of_cons. done. }
      destruct (bool_decide (k.2 = ek)), (bool_decide (k.2 ∈ l)), (live r) eqn:El; cbn; rewrite ?El; done.
    + intros sub l' st2 st3 u' [? ?] Hx. tinv. by simplify_eq.
Qed.

Lemma step_events s s' ek row :
  step s s' -> events (db s') !! ek = Some row -> is_Some (events (db s) !! ek) ->
  events (db s) !! ek = Some row.
Proof.
  intros [io nonce now e r s1 Hrun|io ent sub worker now r s1 Hrun|io c now ack r s1 Hrun
         |io clock before limit r s1 Hrun|io clock before limit r s1 Hrun|] Hrow Hold.
  - apply Publish_handled in Hrun as [[-> _]|(digest & sealed & _ & _ & Hh)]; [done|].
    revert Hrow. apply (handled_case _ _ _ _ (fun d => events d !! ek = Some row -> _) Hh); [done|].
    intros stmt a n d Hb%publish_tx_effect. rewrite (pe_db _ _ _ _ _ _ _ _ _ Hb).
    unfold published_db. cbn [events add_budget].
    rewrite (proj2 (proj2 (fold_enqueue_budget _ _ _ _))). cbn [events].
    rewrite lookup_insert_Some. intros [[<- _]|[_ ?]]; [|done].
    pose proof (pe_new _ _ _ _ _ _ _ _ _ Hb) as Hn. rewrite Hn in Hold. by destruct Hold.
  - apply Claim_handled in Hrun as [[-> _]|(_ & _ & _ & Hh)]; [done|].
    revert Hrow. apply (handled_case _ _ _ _ (fun d => events d !! ek = Some row -> _) Hh); [done|].
    by intros stmt a n d []%claim_tx_effect.
  - apply settle_handled in Hrun as [[-> _]|(_ & _ & _ & Hh)]; [done|].
    revert Hrow. apply (handled_case _ _ _ _ (fun d => events d !! ek = Some row -> _) Hh); [done|].
    intros stmt a n d []%settle_tx_effect. cbv zeta. by case_bool_decide.
  - apply Purge_handled in Hrun as [[-> _]|(_ & _ & Hh)]; [done|].
    revert Hrow. apply (handled_case _ _ _ _ (fun d => events d !! ek = Some row -> _) Hh); [done|].
    intros stmt a n d Hb Hrow. unfold purge_tx in Hb. tinv.
    match goal with H : tx_iter _ _ _ _ = _ |- _ => exact (purge_iter_events _ _ _ _ _ _ _ H Hrow) end.
  - apply Expire_handled in Hrun as [[-> _]|(_ & _ & Hh)]; [done|].
    revert Hrow. apply (handled_case _ _ _ _ (fun d => events d !! ek = Some row -> _) Hh); [done|].
    intros stmt a n d Hb Hrow. unfold expire_tx in Hb. tinv.
    match goal with H : tx_iter _ _ _ _ = _ |- _ => apply expire_iter_shape in H as [He _] end.
    cbn in He. by rewrite <- He.
  - done.
Qed.

(** ** Lease generations *)
(** A claim that can no longer settle: its row has moved past its generation, or
    is at it but not claimed. *)
Definition spent (c : Claim) (d : DB) : Prop :=
  forall r, deliveries d !! claim_key c = Some r ->
    c_Generation c <= d_generation r /\ (d_generation r = c_Generation c -> d_state r <> claimed).

(** Steps during which the delivery stays on record. *)
Definition step_keeping (c : Claim) (s s' : Store) : Prop :=
  step s s' /\ is_Some (deliveries (db s) !! claim_key c) /\
  is_Some (deliveries (db s') !! claim_key c).

Lemma spent_settle s io c now ack r s' :
  spent c (db s) -> settle s io c now ack = (r, s') -> db s' = db s /\ r <> Ok tt.
Proof.
  intros Hsp [[-> [e ->]]|(_ & _ & _ & Hh)]%settle_handled; [done|].
  assert (forall stmt a n d, settle_tx s c now ack stmt (O, db s) = Ok (Commit a, (n, d)) -> False) as Hno.
  { intros stmt a n d [e r0 st reason due He Hr Hhold _]%settle_tx_effect.
    destruct (Hsp r0 Hr) as [_ Hx]. unfold holds_lease in Hhold. rinv. apply Hx; [lia|done]. }
  destruct Hh as [-> [e ->]|a stmt st -> -> Hb|a stmt n d -> Hb _]; [done| |by apply Hno in Hb].
  exfalso. unfold settle_tx in Hb. tinv. destruct (deliveries _ !! _); [|by tinv].
  destruct (events _ !! _); [|by tinv]. destruct (holds_lease _ _ _); [|by tinv].
  destruct (settle_outcome _ _ _ _ _) as [[? ?] ?]. by tinv.
Qed.

(** What a step does to a delivery row that stays. *)
Definition row_evolves (r r' : DeliveryRow) : Prop :=
  r' = r \/ (d_generation r' = d_generation r /\ d_state r' <> claimed) \/
  (d_generation r' = d_generation r + 1).

Lemma row_at k d r r' k0 : deliveries d !! k0 = Some r ->
  (<[k := r']> (deliveries d)) !! k0 = Some (if bool_decide (k = k0) then r' else r).
Proof.
  intros Hr. case_bool_decide as Hk; [subst; by rewrite lookup_insert_eq | by rewrite lookup_insert_ne].
Qed.

Lemma step_row s s' k r r' :
  step s s' -> deliveries (db s) !! k = Some r -> deliveries (db s') !! k = Some r' -> row_evolves r r'.
Proof.
  intros Hstep Hr Hr'. revert Hr'.
  destruct Hstep as [io nonce now e r1 s1 Hrun|io ent sub worker now r1 s1 Hrun|io c now ack r1 s1 Hrun
         |io clock before limit r1 s1 Hrun|io clock before limit r1 s1 Hrun|].
  - apply Publish_handled in Hrun as [[-> _]|(digest & sealed & _ & _ & Hh)]; [left; congruence|].
    apply (handled_case _ _ _ _ (fun d => deliveries d !! k = Some r' -> _) Hh); [left; congruence|].
    intros stmt a n d Hb%publish_tx_effect. rewrite (pe_db _ _ _ _ _ _ _ _ _ Hb).
    unfold published_db. cbn [deliveries add_budget]. rewrite fold_enqueue_deliveries. cbn [deliveries].
    case_bool_decide as Hin; [|left; congruence]. destruct Hin as [Hek Hin].
    destruct (pe_fresh _ _ _ _ _ _ _ _ _ Hb _ Hin) as [Hn _]. destruct k as [sub ek]. cbn in *. congruence.
  - apply Claim_handled in Hrun as [[-> _]|(_ & _ & _ & Hh)]; [left; congruence|].
    apply (handled_case _ _ _ _ (fun d => deliveries d !! k = Some r' -> _) Hh); [left; congruence|].
    intros stmt a n d [ek e r0 reason _ Hr0 _ _|ek e r0 ev tb _ Hr0 _ _ _ _ _ _ _]%claim_tx_effect;
      cbn [deliveries add_pending set_deliveries]; rewrite (row_at _ _ _ _ _ Hr); intros [= <-];
      case_bool_decide; try (by left); subst; simplify_eq; [right; left; done | by right; right].
  - apply settle_handled in Hrun as [[-> _]|(_ & _ & _ & Hh)]; [left; congruence|].
    apply (handled_case _ _ _ _ (fun d => deliveries d !! k = Some r' -> _) Hh); [left; congruence|].
    intros stmt a n d [e r0 st reason due _ Hr0 _ Ho]%settle_tx_effect.
    assert (deliveries (let d' := set_deliveries (db s) (<[claim_key c := settle_row st reason due r0]>
      (deliveries (db s))) in if bool_decide (st = pending) then d' else add_pending (c_Subscription c) (-1) d')
      = <[claim_key c := settle_row st reason due r0]> (deliveries (db s))) as -> by (cbv zeta; by case_bool_decide).
    rewrite (row_at _ _ _ _ _ Hr). intros [= <-]. case_bool_decide; [|by left]. subst. simplify_eq.
    right; left. split; [done|]. cbn. unfold settle_outcome in Ho. repeat case_if; by simplify_eq.
  - apply Purge_handled in Hrun as [[-> _]|(_ & _ & Hh)]; [left; congruence|].
    apply (handled_case _ _ _ _ (fun d => deliveries d !! k = Some r' -> _) Hh); [left; congruence|].
    intros stmt a n d Hb Hr'. unfold purge_tx in Hb. tinv. left.
    match goal with H : tx_iter _ _ _ _ = Ok (_, ?st) |- _ =>
      eapply (tx_iter_ind purge_one (fun _ d' => forall x, deliveries d' !! k = Some x -> x = r)) in H;
        [exact H| |cbn; intros x Hx; congruence|exact Hr'] end.
    intros [ek [cost n']] l st st' u Hx Hone%purge_one_effect x. rewrite Hone.
    cbn [deliveries add_budget delete_deliveries]. rewrite map_lookup_filter_Some. intros [? _]. eauto.
  - apply Expire_handled in Hrun as [[-> _]|(_ & _ & Hh)]; [left; congruence|].
    apply (handled_case _ _ _ _ (fun d => deliveries d !! k = Some r' -> _) Hh); [left; congruence|].
    intros stmt a n d Hb Hr'. unfold expire_tx in Hb. tinv.
    match goal with H : tx_iter _ _ _ _ = _ |- _ => apply expire_iter_shape in H as [_ Hd] end.
    cbn in Hd. rewrite Hd, Hr in Hr'. cbn in Hr'. simplify_eq. case_if; [right; left; done | by left].
  - cbn. left. congruence.
Qed.

Lemma spent_step s s' c : spent c (db s) -> step_keeping c s s' -> spent c (db s').
Proof.
  intros Hsp (Hstep & [r Hr] & _) r' Hr'. destruct (Hsp r Hr) as [Hle Hst].
  destruct (step_row _ _ _ _ _ Hstep Hr Hr') as [->|[[-> ?]|Hg]]; [done|done|]. lia.
Qed.

Lemma spent_history s s' c : spent c (db s) -> rtc (step_keeping c) s s' -> spent c (db s').
Proof. intros Hsp Hrtc. induction Hrtc as [|s s1 s2 Hstep _ IH]; eauto using spent_step. Qed.

(** ** The guarantees *)
Definition event_key (e : Event) : EventKey := (ev_Source e, ev_ID e).

(** The subscription [sub] lists the event type [kind]. *)
Definition subscribed (c : Config) (kind sub : string) : bool :=
  existsb (fun x => str_eqb (sub_ID x) sub && bool_decide (kind ∈ sub_Types x)) (Subscriptions c).

Lemma subscribed_spec c kind sub :
  subscribed c kind sub = true <->
  exists x, x ∈ Subscriptions c /\ sub_ID x = sub /\ kind ∈ sub_Types x.
Proof.
  unfold subscribed. rewrite existsb_exists.
  setoid_rewrite andb_true_iff. setoid_rewrite str_eqb_eq. setoid_rewrite bool_decide_eq_true.
  setoid_rewrite list_elem_of_In. done.
Qed.

(** Steps during which an event stays on record. *)
Definition step_with_event (ek : EventKey) (s s' : Store) : Prop :=
  step s s' /\ is_Some (events (db s) !! ek) /\ is_Some (events (db s') !! ek).

Lemma event_history ek s s' row :
  events (db s) !! ek = Some row -> rtc (step_with_event ek) s s' -> events (db s') !! ek = Some row.
Proof.
  intros Hrow Hrtc. revert Hrow. induction Hrtc as [|s s1 s2 (Hstep & Hold & [row1 H1']) _ IH]; [done|].
  intros Hrow. apply IH. pose proof (step_events _ _ _ _ Hstep H1' Hold). congruence.
Qed.

(** The stored digest of an event that was accepted is the digest of its bytes. *)
Lemma publish_digest s io nonce now e r s1 row raw :
  Publish s io nonce now e = (r, s1) ->
  is_ok r = true \/ events (db s) !! event_key e = None ->
  events (db s1) !! event_key e = Some row ->
  Encode e (MaxEventBytes (config s)) = Ok raw -> e_digest row = hex_digest raw.
Proof.
  intros [[-> [err ->]]|(digest & sealed & (raw' & Henc & -> & _) & _ & Hh)]%Publish_handled Hwhy Hrow Hraw.
  - destruct Hwhy as [?|Hn]; [done|congruence].
  - rewrite Henc in Hraw. simplify_eq. destruct Hh as [-> [err ->]|a stmt st -> -> Hb|a stmt n d -> Hb _].
    + destruct Hwhy as [?|Hn]; [done|congruence].
    + cbn [db with_db] in Hrow. unfold publish_tx in Hb. tinv. unfold event_key in Hrow. rewrite Hrow in Hb.
      tinv. by apply str_eqb_eq.
    + apply publish_tx_effect in Hb. cbn [db with_db] in Hrow.
      rewrite (pe_db _ _ _ _ _ _ _ _ _ Hb) in Hrow. unfold published_db in Hrow. cbn [events add_budget] in Hrow.
      rewrite (proj2 (proj2 (fold_enqueue_budget _ _ _ _))) in Hrow. cbn [events] in Hrow.
      unfold event_key in Hrow. rewrite lookup_insert_eq in Hrow. by simplify_eq.
Qed.

Lemma publish_duplicate s nonce now e row raw sealed :
  closed s = false -> events (db s) !! event_key e = Some row ->
  validText (ev_Source e) 4096 && validText (ev_ID e) 256 && validText (ev_Type e) 256 = true ->
  Encode e (MaxEventBytes (config s)) = Ok raw -> e_digest row = hex_digest raw ->
  Seal nonce (aad s (ev_Source e) (ev_ID e) (hex_digest raw)) raw = Some sealed ->
  blen sealed <= MaxCipherBytes (config s) ->
  Publish s io_ok nonce now e =
    (Ok (mkReceipt (ev_Source e) (ev_ID e) (e_digest row) (e_created row) true), s).
Proof.
  intros Hc Hrow Htxt Henc Hdig Hseal Hlen. unfold Publish. rewrite Henc. cbn [rbind].
  rewrite Htxt. cbn [guard rbind]. rewrite Hseal. cbn [of_option rbind].
  replace (MaxCipherBytes (config s) <? blen sealed) with false by lia. rewrite Hc.
  cbn [negb guard rbind]. unfold run_tx, publish_tx, tx_bind, tx_query, tx_guard, tx_lift.
  cbn [io_begin io_stmt io_ok fst snd]. unfold event_key in Hrow. rewrite Hrow.
  rewrite Hdig, str_eqb_refl. cbn. destruct s. done.
Qed.

(** C25. Recovery: a store that was bootstrapped reopens, with the same scope
    and configuration, after any history of publishes, claims, settlements, expiries,
    purges and closes, whatever statements failed and whatever became of each
    commit: the full verification a reopen runs (budget row, event costs, pending
    counters, delivery rows, every ciphertext) accepts the tables and the opened
    store is the one that was left. *)
Theorem durable_store_reopens_after_any_history (sc : Scope) (c : Config) (bio : OpenIO)
    (nonce nonce' : list byte) (s0 s : Store) (disk : option DB) :
  open sc c true bio nonce None = (Ok s0, disk) -> rtc step s0 s ->
  open sc c false open_ok nonce' (Some (db s)) =
    (Ok (mkStore (scope s) (config s) (reference s) (byType s) false (db s)), Some (db s)).
Proof. apply reopens. Qed.

(** C26. Publishing is idempotent, also across an ambiguous commit: once an
    event is on record, publishing its identity again never changes the store as
    long as it stays on record; a retry of the same bytes answers with the original
    receipt marked as a duplicate, and different bytes under the same identity are
    refused. *)
Theorem publish_is_idempotent (s s1 s2 : Store) (io : TxIO) (nonce : list byte) (now : Time)
    (e : Event) (r : result Error Receipt) (row : EventRow) (raw : list byte) :
  Publish s io nonce now e = (r, s1) ->
  is_ok r = true \/ events (db s) !! event_key e = None ->
  events (db s1) !! event_key e = Some row ->
  Encode e (MaxEventBytes (config s)) = Ok raw ->
  rtc (step_with_event (event_key e)) s1 s2 ->
  (forall io' nonce' now' e' r' s3,
     event_key e' = event_key e -> Publish s2 io' nonce' now' e' = (r', s3) ->
     db s3 = db s2 /\
     (forall rc, r' = Ok rc ->
        rc = mkReceipt (ev_Source e) (ev_ID e) (hex_digest raw) (e_created row) true) /\
     (forall raw', Encode e' (MaxEventBytes (config s2)) = Ok raw' ->
        hex_digest raw' <> hex_digest raw -> is_ok r' = false)) /\
  (forall nonce' now' sealed,
     closed s2 = false -> config s2 = config s ->
     validText (ev_Source e) 4096 && validText (ev_ID e) 256 && validText (ev_Type e) 256 = true ->
     Seal nonce' (aad s2 (ev_Source e) (ev_ID e) (hex_digest raw)) raw = Some sealed ->
     blen sealed <= MaxCipherBytes (config s) ->
     Publish s2 io_ok nonce' now' e =
       (Ok (mkReceipt (ev_Source e) (ev_ID e) (hex_digest raw) (e_created row) true), s2)).
Proof.
  intros Hpub Hwhy Hrow Hraw Hrtc.
  pose proof (publish_digest _ _ _ _ _ _ _ _ _ Hpub Hwhy Hrow Hraw) as Hdig.
  pose proof (event_history _ _ _ _ Hrow Hrtc) as Hrow2. split.
  - intros io' nonce' now' e' r' s3 Hk Hpub'. unfold event_key in *. injection Hk as Hsrc Hid.
    rewrite <- Hsrc, <- Hid in Hrow2.
    destruct (publish_known _ _ _ _ _ _ _ _ Hrow2 Hpub') as [Hdb Hrc].
    split; [done|]. split; [intros rc Hr; rewrite (Hrc rc Hr); congruence|].
    intros raw' Henc Hne. destruct r' as [rc|]; [|done]. exfalso. apply Hne.
    rewrite <- (publish_digest _ _ _ _ _ _ _ row _ Hpub' (or_introl eq_refl)); [done| |done].
    unfold event_key. by rewrite Hdb.
  - intros nonce' now' sealed Hc Hcfg Htxt Hseal Hlen. rewrite <- Hdig.
    eapply publish_duplicate; rewrite ?Hcfg; done.
Qed.

(** C27. Fan-out is atomic: a publish either leaves the tables alone, or
    stores the event together with one fresh pending delivery for exactly the
    subscriptions that list its type, none of which was full, and nothing else; a
    non-duplicate receipt is given only in the second case. *)
Theorem publish_fans_out_atomically (sc : Scope) (c : Config) (bio : OpenIO) (bnonce : list byte)
    (s0 s s' : Store) (disk : option DB) (io : TxIO) (nonce : list byte) (now : Time) (e : Event)
    (r : result Error Receipt) :
  open sc c true bio bnonce None = (Ok s0, disk) -> rtc step s0 s ->
  Publish s io nonce now e = (r, s') ->
  (db s' = db s /\ (forall rc, r = Ok rc -> Duplicate rc = true)) \/
  exists row,
    events (db s) !! event_key e = None /\
    events (db s') = <[event_key e := row]> (events (db s)) /\
    e_kind row = ev_Type e /\ e_created row = UnixNano now /\
    e_expires row = UnixNano now + DeliveryTTL (config s) /\
    (forall k, deliveries (db s') !! k =
       if bool_decide (k.2 = event_key e) && subscribed (config s) (ev_Type e) k.1
       then Some (fresh_delivery (UnixNano now)) else deliveries (db s) !! k) /\
    (forall sub p, subscriptions (db s') !! sub = Some p -> p <= MaxPendingPerSubscription (config s)) /\
    (forall rc, r = Ok rc -> rc = mkReceipt (ev_Source e) (ev_ID e) (e_digest row) now false).
Proof.
  intros Hopen Hrtc Hpub. pose proof (bootstrap_store_ok _ _ _ _ _ _ Hopen) as Hok0.
  destruct (history_ok _ _ Hok0 Hrtc) as [Hok (_ & Hcfg & _ & Hty & _)].
  apply bootstrap_Ok in Hopen as (c' & d & _ & _ & -> & _). cbn [config byType] in *.
  pose proof (step_preserves _ _ Hok (step_publish _ _ _ _ _ _ _ Hpub)) as Hok'.
  pose proof (step_static _ _ (step_publish _ _ _ _ _ _ _ Hpub)) as (_ & Hcfg' & _).
  apply Publish_handled in Hpub as [[-> [err ->]]|(digest & sealed & Hrdy & _ & Hh)]; [by left|].
  destruct Hh as [-> [err ->]|a stmt st -> -> Hb|a stmt n d' -> Hb Hr].
  - by left.
  - left. split; [done|]. intros rc [= <-]. unfold publish_tx in Hb. tinv.
    destruct (events (db s) !! _); tinv; done.
  - right. apply publish_tx_effect in Hb. cbn [db with_db].
    pose proof (pe_db _ _ _ _ _ _ _ _ _ Hb) as ->.
    exists (publish_row s (event_key e) (ev_Type e) digest sealed now).
    destruct (limits_bounds _ (ok_limits _ Hok)) as (_ & _ & _ & HD & HD' & _).
    pose proof (pe_time _ _ _ _ _ _ _ _ _ Hb) as Htime. pose proof (UnixNano_range now) as Hrange.
    split; [by apply (pe_new _ _ _ _ _ _ _ _ _ Hb)|]. split.
    { unfold published_db. cbn [events add_budget].
      by rewrite (proj2 (proj2 (fold_enqueue_budget _ _ _ _))). }
    split; [done|]. split; [done|]. split.
    { cbn. apply wrap64_small. unfold in_int64, min_int64, max_int64, time_Millisecond in *. lia. }
    split.
    { intros k. unfold published_db. cbn [deliveries add_budget]. rewrite fold_enqueue_deliveries.
      cbn [deliveries]. rewrite Hty, Hcfg.
      assert (bool_decide (k.2 = (ev_Source e, ev_ID e) /\
        k.1 ∈ default [] (index_subs (Subscriptions c') !! ev_Type e)) =
        bool_decide (k.2 = event_key e) && subscribed c' (ev_Type e) k.1) as ->; [|done].
      apply Bool.eq_iff_eq_true. rewrite andb_true_iff, !bool_decide_eq_true, subscribed_spec.
      by rewrite index_subs_elem. }
    split.
    { intros sub p Hp. rewrite <- Hcfg'. eapply (ok_pending _ _ _ _ _ _ (ok_tables _ _ (ok_db _ Hok'))). exact Hp. }
    intros rc ->. destruct Hr as [[= <-]|?]; [|done]. by rewrite (pe_receipt _ _ _ _ _ _ _ _ _ Hb).
Qed.

(** ** Claim guarantees *)
(** The arguments [Claim] accepts. *)
Definition claim_args_ok (s : Store) (sub worker : string) (now : Time) : Prop :=
  validText sub 256 = true /\ validText worker 256 = true /\ IsZero now = false /\
  claim_now_ok (config s) now.

Lemma claim_runs s io entropy sub worker now :
  claim_args_ok s sub worker now -> closed s = false ->
  Store_Claim s io entropy sub worker now =
  (let '(r, d) := run_tx unavailable io (db s) (claim_tx s sub worker now entropy) in (r, with_db s d)).
Proof.
  intros (Hs & Hw & Hz & Hpos & Hmax) Hc. unfold Store_Claim. rewrite Hs, Hw, Hz, Hc.
  replace (UnixNano now <=? 0) with false by lia.
  replace (max_int64 - LeaseTTL (config s) <? UnixNano now) with false by lia. done.
Qed.

(** A granted claim: the delivery handed out was eligible (due, or with a
    lease that had run out) and no eligible delivery of the subscription had waited
    longer; its row is now claimed for this worker under the next generation, with
    a lease that ends after [now] and not after the event's expiry; no other
    delivery and no event changed; and the event is the one that was published
    under that identity. *)
Theorem claim_grants_longest_waiting (s s' : Store) (io : TxIO) (entropy : option (list byte))
    (sub worker : string) (now : Time) (dl : Delivery) :
  store_ok s -> Store_Claim s io entropy sub worker now = (Ok (Some dl), s') ->
  let c := dl_Claim dl in
  let k := claim_key c in
  exists r e, deliveries (db s) !! k = Some r /\ events (db s) !! k.2 = Some e /\
    eligible sub (UnixNano now) k r /\
    (forall k' r', deliveries (db s) !! k' = Some r' -> eligible sub (UnixNano now) k' r' ->
       key_le (waiting_since r, k.2) (waiting_since r', k'.2)) /\
    d_attempt r < MaxAttempts (config s) /\
    c_Subscription c = sub /\ c_Worker c = worker /\ c_Generation c = d_generation r + 1 /\
    dl_Attempt dl = d_attempt r + 1 /\ dl_Digest dl = e_digest e /\
    ev_Source (dl_Event dl) = c_Source c /\ ev_ID (dl_Event dl) = c_ID c /\
    db s' = set_deliveries (db s) (<[k := claim_row (UnixNano (dl_LeaseUntil dl)) worker
              (claimHash (c_Token c)) r]> (deliveries (db s))) /\
    UnixNano now < UnixNano (dl_LeaseUntil dl) <= e_expires e.
Proof.
  intros Hok [[-> [err ?]]|(_ & Hnow & _ & Hh)]%Claim_handled; [done|].
  destruct Hh as [-> [err ?]|a stmt st -> [= <-] Hb|a stmt n d -> Hb Hr]; [done| |].
  { by apply claim_tx_rollback in Hb as [? _]. }
  destruct Hr as [[= <-]|?]; [|done]. apply claim_tx_effect in Hb.
  inversion Hb as [|ek e r ev tb He Hr Hch Hexp Hatt Hgen Hmax Hdec Hent Hdl Hd]; subst. clear Hb.
  destruct (choose_Some _ _ _ _ Hch) as (r0 & Hr0 & Hel & Hmin). cbn in Hr0. simplify_eq.
  destruct Hok as [Hlim [Ht _ _]].
  pose proof (row_ok_bounds _ _ (ok_delivery _ _ _ _ _ _ Ht _ _ Hr)) as [Hb Hg].
  pose proof (limits_bounds _ Hlim) as [HM _].
  cbv zeta. unfold claim_key.
  cbn [dl_Claim c_Subscription c_Source c_ID c_Worker c_Generation c_Token dl_Attempt dl_Digest
       dl_Event dl_LeaseUntil db with_db snd].
  assert ((ek.1, ek.2) = ek) as Hek by (by destruct ek). rewrite Hek.
  assert (ev_Source ev = ek.1 /\ ev_ID ev = ek.2) as [Hsrc Hid].
  { unfold decode in Hdec. rinv. split; by apply str_eqb_eq. }
  pose proof (lease_until_pos s now ek e Hlim Hnow (ok_event _ _ _ _ _ _ Ht _ _ He) Hexp) as Hlease.
  exists r, e. split_and!; try done; try lia.
  - rewrite wrap64_small; [done|]. unfold in_int64, min_int64, max_int64 in *. lia.
  - rewrite wrap64_small; [done|]. unfold in_int64, min_int64, max_int64 in *. lia.
Qed.

(** C28. Progress, in order: on a well-formed open store whose statements and commit
    work, a claim with valid arguments never fails. If no delivery of the subscription is
    eligible it answers "none" and changes nothing. Otherwise it takes the eligible
    delivery that no other one has waited longer than, and hands it out, or, exactly when
    its event has expired or its attempts are used up, moves it durably to the failed
    state. *)
Theorem claim_makes_progress (s : Store) (token : list byte) (sub worker : string) (now : Time) :
  store_ok s -> closed s = false -> claim_args_ok s sub worker now ->
  ((forall k r, deliveries (db s) !! k = Some r -> ~ eligible sub (UnixNano now) k r) /\
   Store_Claim s io_ok (Some token) sub worker now = (Ok None, s)) \/
  (exists k r e d,
     deliveries (db s) !! k = Some r /\ events (db s) !! k.2 = Some e /\ eligible sub (UnixNano now) k r /\
     (forall k' r', deliveries (db s) !! k' = Some r' -> eligible sub (UnixNano now) k' r' ->
        key_le (waiting_since r, k.2) (waiting_since r', k'.2)) /\
     deliveries d !! k <> Some r /\
     ((UnixNano now < e_expires e /\ d_attempt r < MaxAttempts (config s) /\
       exists dl, Store_Claim s io_ok (Some token) sub worker now = (Ok (Some dl), with_db s d) /\
         claim_key (dl_Claim dl) = k) \/
      ((e_expires e <= UnixNano now \/ MaxAttempts (config s) <= d_attempt r) /\
       Store_Claim s io_ok (Some token) sub worker now = (Ok None, with_db s d) /\
       exists r', deliveries d !! k = Some r' /\ d_state r' = failed))).
Proof.
  intros [Hlim [Ht _ _]] Hc Hargs. rewrite claim_runs by done.
  unfold run_tx, claim_tx, tx_bind, tx_query. cbn [io_begin io_stmt io_ok fst snd].
  destruct (choose _ _) as [[x ek]|] eqn:Ech; [right|left].
  2:{ split; [by eapply choose_None|]. cbn. by destruct s. }
  destruct (choose_Some _ _ _ _ Ech) as (r & Hr & Hel & Hmin). cbn in Hr.
  destruct (ok_fk _ _ _ _ _ _ Ht _ _ Hr) as [[e He] _]. cbn in He.
  pose proof (row_ok_bounds _ _ (ok_delivery _ _ _ _ _ _ Ht _ _ Hr)) as [Hb Hg].
  pose proof (limits_bounds _ Hlim) as [HM _].
  pose proof (ok_event _ _ _ _ _ _ Ht _ _ He) as (Hlen & Hdec & _).
  cbn [fst snd]. rewrite He, Hr. exists (sub, ek), r, e.
  destruct ((e_expires e <=? UnixNano now) || (MaxAttempts (config s) <=? d_attempt r)) eqn:Eover.
  - unfold tx_exec. cbn [io_stmt io_ok fst snd tx_ret io_commit].
    eexists. split; [exact Hr|]. split; [exact He|]. split; [exact Hel|]. split; [exact Hmin|].
    assert (forall reason, deliveries (add_pending sub (-1) (set_delivery (sub, ek) (fun _ => true)
      (fail_row reason) (db s))) !! (sub, ek) = Some (fail_row reason r)) as Hlk.
    { intros reason. rewrite (set_delivery_eq _ _ _ _ r) by done. cbn. by rewrite lookup_insert_eq. }
    split; [|right; split; [lia|]; split; [reflexivity|]; rewrite Hlk; by eexists].
    rewrite Hlk. intros [= Heq]. apply (f_equal d_state) in Heq. cbn in Heq.
    destruct Hel as [_ [[? _]|[? _]]]; congruence.
  - unfold tx_guard, tx_lift. rewrite bounded_cipher_ok by done.
    destruct (decode s ek.1 ek.2 (e_digest e) (e_cipher e)) as [ev|]; [|done].
    replace (d_generation r <? 0) with false by lia. replace (d_attempt r <? 0) with false by lia.
    replace (d_generation r =? max_int64) with false by (unfold max_int64; lia).
    cbn [orb negb guard of_option tx_exec tx_ret io_stmt io_ok fst snd io_commit]. unfold tx_exec.
    cbn [io_stmt io_ok fst snd].
    eexists. split; [exact Hr|]. split; [exact He|]. split; [exact Hel|]. split; [exact Hmin|].
    split; [|left; split; [lia|]; split; [lia|]; eexists; split; [reflexivity|]; by destruct ek].
    rewrite (set_delivery_eq _ _ _ _ r) by done. cbn. rewrite lookup_insert_eq, Z.eqb_refl.
    intros [= Heq]. apply (f_equal d_generation) in Heq. cbn in Heq. lia.
Qed.

(** C29. Fencing and settle-once: after a claim settled (even if the commit's
    report was lost), and after its delivery was claimed again, the claim can never
    settle the delivery again, whatever happens in between, as long as the delivery
    stays on record: every later attempt fails and changes nothing. *)
Theorem stale_claim_never_settles (s s1 s2 s3 : Store) (c : Claim) (io' : TxIO) (now' : Time)
    (ack' : bool) (r' : result Error unit) :
  ((exists io now ack r, settle s io c now ack = (r, s1) /\ db s1 <> db s) \/
   (exists io entropy sub worker now dl, store_ok s /\
      Store_Claim s io entropy sub worker now = (Ok (Some dl), s1) /\
      claim_key (dl_Claim dl) = claim_key c /\ c_Generation c < c_Generation (dl_Claim dl))) ->
  rtc (step_keeping c) s1 s2 -> settle s2 io' c now' ack' = (r', s3) ->
  db s3 = db s2 /\ r' <> Ok tt.
Proof.
  intros Hlost Hrtc Hset. eapply spent_settle; [|exact Hset]. eapply spent_history; [|exact Hrtc].
  destruct Hlost as [(io & now & ack & r & Hs & Hne)|(io & ent & sub & worker & now & dl & Hok & Hcl & Hk & Hg)].
  - apply settle_handled in Hs as [[-> _]|(_ & _ & _ & Hh)]; [done|].
    destruct Hh as [-> _|a stmt st -> _ _|a stmt n d -> Hb _]; [done|done|].
    apply settle_tx_effect in Hb as [e r0 st reason due He Hr Hhold Ho]. cbn [db with_db].
    assert (c_Generation c = d_generation r0) as Hgen by (unfold holds_lease in Hhold; rinv; lia).
    intros r1 Hr1. assert (r1 = settle_row st reason due r0) as ->.
    { revert Hr1. cbv zeta. case_bool_decide; cbn [deliveries set_deliveries add_pending];
        rewrite lookup_insert_eq; congruence. }
    cbn. split; [lia|]. intros _. unfold settle_outcome in Ho. repeat case_if; by simplify_eq.
  - apply Claim_handled in Hcl as [[_ [err ?]]|(_ & _ & _ & Hh)]; [done|].
    destruct Hh as [_ [err ?]|a stmt st _ [= <-] Hb|a stmt n d -> Hb Hr]; [done| |].
    { by apply claim_tx_rollback in Hb as [? _]. }
    destruct Hr as [[= <-]|?]; [|done]. apply claim_tx_effect in Hb.
    inversion Hb as [|ek e r ev tb He Hr Hch Hexp Hatt Hgen Hmax Hdec Hent Hdl Hd]; subst. clear Hb.
    cbn [dl_Claim claim_key c_Subscription c_Source c_ID c_Generation] in *.
    pose proof (row_ok_bounds _ _ (ok_delivery _ _ _ _ _ _ (ok_tables _ _ (ok_db _ Hok)) _ _ Hr)) as [Hb Hgr].
    pose proof (limits_bounds _ (ok_limits _ Hok)) as [HM _].
    rewrite wrap64_small in Hg by (unfold in_int64, min_int64, max_int64; lia).
    intros r1. cbn [db with_db deliveries set_deliveries]. rewrite <- Hk. unfold claim_key.
    cbn [c_Subscription c_Source c_ID].
    assert ((ek.1, ek.2) = ek) as -> by (by destruct ek). rewrite lookup_insert_eq. intros [= <-].
    cbn [claim_row d_generation d_state]. split; [lia|]. intros. lia.
Qed.

(** ** Expiry and purge *)
Lemma purge_iter_shape l stmt st u st1 :
  tx_iter purge_one l stmt st = Ok (u, st1) ->
  (forall ek, events st1.2 !! ek = if bool_decide (ek ∈ l.*1) then None else events st.2 !! ek) /\
  (forall k, deliveries st1.2 !! k = if bool_decide (k.2 ∈ l.*1) then None else deliveries st.2 !! k) /\
  subscriptions st1.2 = subscriptions st.2.
Proof.
  revert st. induction l as [|[ek0 [cost n]] l IH]; intros st Hrun; cbn [tx_iter] in Hrun; tinv; [done|].
  match goal with H : purge_one _ _ _ = _ |- _ => apply purge_one_effect in H as Hone end.
  apply IH in Hrun as (He & Hd & Hs). rewrite Hone in He, Hd, Hs. cbn [events add_budget] in He.
  cbn [deliveries add_budget delete_deliveries] in Hd.
  assert (forall x : EventKey, bool_decide (x ∈ ((ek0, (cost, n)) :: l).*1) =
    bool_decide (x = ek0) || bool_decide (x ∈ l.*1)) as Hin.
  { intros x. apply Bool.eq_iff_eq_true.
    rewrite orb_true_iff, !bool_decide_eq_true, fmap_cons, elem_of_cons. done. }
  split; [|split; [|done]].
  - intros ek. rewrite He, Hin. destruct (bool_decide (ek ∈ l.*1)); [by rewrite orb_true_r|].
    rewrite orb_false_r. case_bool_decide as Hx; [subst; apply lookup_delete_eq|].
    by rewrite lookup_delete_ne.
  - intros k. rewrite Hd, Hin. destruct (bool_decide (k.2 ∈ l.*1)); [by rewrite orb_true_r|].
    rewrite orb_false_r. case_bool_decide as Hx.
    + apply map_lookup_filter_None. right. intros r _. cbn. by intros Hne.
    + destruct (deliveries st.2 !! k) as [r|] eqn:Ek;
        [by apply map_lookup_filter_Some | apply map_lookup_filter_None; by left].
Qed.

(** A purge forgets an event only when its deduplication retention is over
    and none of its deliveries is pending or claimed; such an event goes with all
    its deliveries, at most [limit] of them, the reported count is exact, and
    everything else, in particular every live delivery, stays untouched. *)
Theorem purge_never_drops_live_work (s s' : Store) (io : TxIO) (clock before : Time) (limit : Z)
    (r : result Error Z) :
  Purge s io clock before limit = (r, s') ->
  exists gone : list EventKey,
    NoDup gone /\ Z.of_nat (length gone) <= Z.max 0 limit /\
    (forall ek, ek ∈ gone -> exists e, events (db s) !! ek = Some e /\
       e_retain_until e <= UnixNano before /\
       forall k d, deliveries (db s) !! k = Some d -> k.2 = ek -> live d = false) /\
    (forall ek, events (db s') !! ek = if bool_decide (ek ∈ gone) then None else events (db s) !! ek) /\
    (forall k, deliveries (db s') !! k =
       if bool_decide (k.2 ∈ gone) then None else deliveries (db s) !! k) /\
    (forall n, r = Ok n -> n = Z.of_nat (length gone)).
Proof.
  assert (forall x, db s' = db x -> s = x -> (exists err, r = Err err) ->
    exists gone : list EventKey, NoDup gone /\ Z.of_nat (length gone) <= Z.max 0 limit /\
    (forall ek, ek ∈ gone -> exists e, events (db s) !! ek = Some e /\ e_retain_until e <= UnixNano before /\
       forall k d, deliveries (db s) !! k = Some d -> k.2 = ek -> live d = false) /\
    (forall ek, events (db s') !! ek = if bool_decide (ek ∈ gone) then None else events (db s) !! ek) /\
    (forall k, deliveries (db s') !! k = if bool_decide (k.2 ∈ gone) then None else deliveries (db s) !! k) /\
    (forall n, r = Ok n -> n = Z.of_nat (length gone))) as Hnone.
  { intros x -> <- [err ->]. exists []. split; [constructor|]. split; [simpl; lia|].
    split; [by intros ek ?%elem_of_nil|]. done. }
  intros [[-> He]|(_ & _ & Hh)]%Purge_handled; [by eapply Hnone|].
  destruct Hh as [-> He|a stmt st -> -> Hb|a stmt n d -> Hb Hr]; [by eapply Hnone| |].
  { unfold purge_tx in Hb. by tinv. }
  unfold purge_tx in Hb. tinv. cbn [db with_db].
  match goal with H : tx_iter _ _ _ _ = _ |- _ => apply purge_iter_shape in H as (He & Hd & _) end.
  set (l := purge_candidates (UnixNano before) (Z.to_nat limit) (db s)) in *.
  exists l.*1. split; [apply purge_candidates_ok|]. split.
  { rewrite length_fmap. unfold l, purge_candidates. rewrite length_fmap. unfold select_limit.
    rewrite length_take. lia. }
  split; [|split; [exact He|split; [exact Hd|]]].
  - intros ek (p & -> & Hin)%list_elem_of_fmap. unfold l, purge_candidates in Hin.
    apply list_elem_of_fmap in Hin as ([ek e] & -> & Hin).
    apply elem_of_select_limit in Hin as [Hev Hp]. rinv. exists e. split; [done|]. split; [lia|].
    intros k dr Hk Hek. unfold has_live in *. rinv. destruct (live dr) eqn:El; [|done].
    match goal with H : ~ map_Exists _ _ |- _ => destruct H end. exists k, dr. done.
  - intros m ->. destruct Hr as [[= ->]|?]; [|done]. by rewrite length_fmap.
Qed.

(** Expiry turns the live deliveries of events whose delivery time is over
    into failed ones and touches nothing else: events, settled deliveries and the
    deliveries of unexpired events stay as they are. *)
Theorem expire_only_fails_overdue_work (s s' : Store) (io : TxIO) (clock before : Time) (limit : Z)
    (r : result Error Z) :
  Expire s io clock before limit = (r, s') ->
  events (db s') = events (db s) /\
  forall k d, deliveries (db s) !! k = Some d ->
    deliveries (db s') !! k = Some d \/
    (live d = true /\ deliveries (db s') !! k = Some (fail_row "delivery_expired" d) /\
     exists e, events (db s) !! k.2 = Some e /\ e_expires e <= UnixNano before).
Proof.
  intros [[-> _]|(_ & _ & Hh)]%Expire_handled; [by auto|].
  apply (handled_case _ _ _ _ (fun x => events x = events (db s) /\
    forall k d, deliveries (db s) !! k = Some d -> deliveries x !! k = Some d \/
    (live d = true /\ deliveries x !! k = Some (fail_row "delivery_expired" d) /\
     exists e, events (db s) !! k.2 = Some e /\ e_expires e <= UnixNano before)) Hh); [by auto|].
  intros stmt a n d Hb. unfold expire_tx in Hb. tinv.
  match goal with H : tx_iter _ _ _ _ = _ |- _ => apply expire_iter_shape in H as (He & Hd) end.
  split; [done|]. intros k dr Hk. cbn [snd] in Hd. rewrite Hd, Hk. cbn [fmap option_fmap option_map].
  case_if; [|by left]. right. rinv. split; [done|]. split; [done|].
  match goal with H : k.2 ∈ expire_candidates _ _ _ |- _ => unfold expire_candidates in H;
    apply list_elem_of_fmap in H as ([ek e] & Hek & Hin) end.
  apply elem_of_select_limit in Hin as [Hev Hp]. rinv. exists e. cbn in Hek. rewrite Hek. split; [done|lia].
Qed.

(** Bounds: in every state the store can reach, attempts never exceed the
    configured maximum, the lease generation equals the number of attempts and
    stays far from its integer limit, every pending counter is exactly the number
    of live deliveries of its subscription and within its bound, and the retained
    rows and bytes are within the configured capacity. *)
Theorem durable_bounds_hold (sc : Scope) (c : Config) (bio : OpenIO) (nonce : list byte)
    (s0 s : Store) (disk : option DB) :
  open sc c true bio nonce None = (Ok s0, disk) -> rtc step s0 s ->
  (forall k d, deliveries (db s) !! k = Some d ->
     0 <= d_attempt d <= MaxAttempts (config s) /\ d_generation d = d_attempt d /\
     d_generation d < 2 ^ 32) /\
  (forall sub p, subscriptions (db s) !! sub = Some p ->
     p = pending_count (db s) sub /\ 0 <= p <= MaxPendingPerSubscription (config s)) /\
  budget_rows (db s) = total_rows (db s) /\ budget_rows (db s) <= MaxRows (config s) /\
  budget_bytes (db s) = msum (fun _ e => e_cost e) (events (db s)) /\
  budget_bytes (db s) <= MaxBytes (config s).
Proof.
  intros Hopen Hrtc. pose proof (bootstrap_store_ok _ _ _ _ _ _ Hopen) as Hok0.
  destruct (history_ok _ _ Hok0 Hrtc) as [[Hlim [Ht Hmr Hmb]] _].
  pose proof (limits_bounds _ Hlim) as [HM _]. destruct Ht as [Hrows Hbytes Hcost Hev Hpend Hdel Hfk].
  split; [|split; [|split_and!; lia]].
  - intros k d Hk. destruct (row_ok_bounds _ _ (Hdel k d Hk)). split; [lia|]. split; [done|lia].
  - intros sub p Hp. destruct (Hpend sub p Hp) as [Heq Hle]. unfold zero_fn in *.
    pose proof (mcount_nonneg (fun k r => bool_decide (k.1 = sub) && live r) (deliveries (db s))).
    unfold pending_count in *. split; lia.
Qed.
End props.
End DurableProps.

(** ** A concrete store *)
Module DurableWitness.
Import Events Durable DurableInv DurableProps FabricRef.RefWitness Wire.WireWitness EventsWitness.

(** A stand-in protector that seals by prefixing the associated data's length. *)
#[export] Instance toy_protector : DataProtector :=
  {| Reference := mkKeyRef "key" "1";
     Seal := fun _ aad plain => Some (be_encode 4 (blen aad) ++ plain);
     Open := fun aad c => if bool_decide (take 4 c = be_encode 4 (blen aad)) then Some (drop 4 c) else None |}.

#[export] Instance toy_protector_laws : DataProtectorLaws toy_protector.
Proof.
  constructor. intros nonce aad plain c Hs.
  assert (c = be_encode 4 (blen aad) ++ plain) as -> by (by injection Hs as <-). cbn [Open toy_protector].
  rewrite take_app_length' by (by rewrite length_be_encode). rewrite bool_decide_eq_true_2 by done.
  by rewrite drop_app_length' by (by rewrite length_be_encode).
Defined.

#[export] Instance toy_durable_json : DurableJson :=
  {| marshal_scope := fun s => bytes_of (Audience s); marshal_config := fun _ => [x01];
     marshal_reference := fun r => bytes_of (kr_ID r);
     marshal_aad := fun v s r src id dig => bytes_of (src ++ id ++ dig) |}.

Definition w_scope : Scope := mkScope "audience" "domain".
Definition w_config : Config := DefaultConfig [mkSub "x.sub" ["a.b"]; mkSub "x.other" ["c.d"]].
Definition w_boot : result Error Store * option DB := open w_scope w_config true open_ok [] None.
Definition w_s0 : Store :=
  match w_boot.1 with
  | Ok s => s
  | Err _ => mkStore w_scope w_config (mkKeyRef "" "") ∅ true empty_db
  end.
Definition w_event : @Event toy_events := bytes_of "e1-payload".
Definition w_now : Time := 1700000000 * 10 ^ 9.
Definition w_published := Publish w_s0 io_ok [] w_now w_event.
Definition w_s1 : Store := w_published.2.
Definition w_token : list byte := replicate 24 x2a.
Definition w_claimed := Store_Claim w_s1 io_ok (Some w_token) "x.sub" "worker" (w_now + 5).
Definition w_s2 : Store := w_claimed.2.
Definition w_claim : Claim := mkClaim "x.sub" "src" "e1" "worker" 1 (base64url w_token).
Definition w_acked := Ack w_s2 io_ok w_claim (w_now + 10).
Definition w_s3 : Store := w_acked.2.

Lemma w_boot_ok : open w_scope w_config true open_ok [] None = (Ok w_s0, Some (db w_s0)).
Proof. vm_compute. reflexivity. Qed.

Lemma w_store_ok : store_ok w_s1.
Proof.
  eapply step_preserves; [by eapply bootstrap_store_ok, w_boot_ok|].
  eapply step_publish. unfold w_s1, w_published. apply surjective_pairing.
Qed.

Lemma w_history : rtc step w_s0 w_s2.
Proof.
  eapply rtc_l; [eapply (step_publish w_s0 io_ok [] w_now w_event); apply surjective_pairing|].
  eapply rtc_l; [eapply (step_claim w_s1 io_ok (Some w_token) "x.sub" "worker" (w_now + 5)); apply surjective_pairing|].
  apply rtc_refl.
Qed.

Lemma durable_store_reopens_witness :
  open w_scope w_config true open_ok [] None = (Ok w_s0, Some (db w_s0)) /\
  size (deliveries (db w_s2)) = 1%nat /\
  (open w_scope w_config false open_ok [] (Some (db w_s2))).2 = Some (db w_s2).
Proof.
  split; [exact w_boot_ok|]. split; [vm_compute; reflexivity|].
  rewrite (durable_store_reopens_after_any_history w_scope w_config open_ok [] [] w_s0 w_s2
    (Some (db w_s0)) w_boot_ok w_history). reflexivity.
Defined.

Lemma publish_is_idempotent_witness :
  exists rc, Publish w_s1 io_ok [x01] (w_now + 7) w_event = (Ok rc, w_s1) /\ Duplicate rc = true.
Proof.
  eexists. split.
  - eapply (publish_is_idempotent w_s0 w_s1 w_s1 io_ok [] w_now w_event).
    + apply surjective_pairing.
    + left. vm_compute. reflexivity.
    + vm_compute. reflexivity.
    + vm_compute. reflexivity.
    + apply rtc_refl.
    + vm_compute. reflexivity.
    + vm_compute. reflexivity.
    + vm_compute. reflexivity.
    + vm_compute. reflexivity.
    + vm_compute. discriminate.
  - reflexivity.
Defined.

Lemma publish_fans_out_witness :
  db w_s1 <> db w_s0 /\ events (db w_s0) !! event_key w_event = None.
Proof.
  destruct (publish_fans_out_atomically w_scope w_config open_ok [] w_s0 w_s0 w_s1 (Some (db w_s0))
    io_ok [] w_now w_event w_published.1 w_boot_ok (rtc_refl _ _) (surjective_pairing _)) as [[H _]|(row & Hn & _)].
  - exfalso. apply (f_equal budget_rows) in H. vm_compute in H. discriminate.
  - split; [|exact Hn]. intros H. apply (f_equal budget_rows) in H. vm_compute in H. discriminate.
Defined.

Lemma claim_grants_witness :
  exists dl, Store_Claim w_s1 io_ok (Some w_token) "x.sub" "worker" (w_now + 5) = (Ok (Some dl), w_s2) /\
    UnixNano (w_now + 5) < UnixNano (dl_LeaseUntil dl).
Proof.
  eexists. split; [vm_compute; reflexivity|].
  edestruct (claim_grants_longest_waiting w_s1 w_s2 io_ok (Some w_token) "x.sub" "worker" (w_now + 5))
    as (r & e & Hrest); [exact w_store_ok | vm_compute; reflexivity|].
  destruct_and! Hrest. eassumption.
Defined.

Lemma claim_makes_progress_witness :
  exists dl s, Store_Claim w_s1 io_ok (Some w_token) "x.sub" "worker" (w_now + 5) = (Ok (Some dl), s).
Proof.
  destruct (claim_makes_progress w_s1 w_token "x.sub" "worker" (w_now + 5)) as [[_ H]|(k & r & e & d & _ & _ & _ & _ & _ & H)].
  - exact w_store_ok.
  - vm_compute. reflexivity.
  - split; [vm_compute; reflexivity|]. split; [vm_compute; reflexivity|]. split; [vm_compute; reflexivity|].
    split; vm_compute; [reflexivity | discriminate].
  - exfalso. apply (f_equal (fun x => is_ok x.1 && match x.1 with Ok (Some _) => true | _ => false end)) in H.
    vm_compute in H. discriminate.
  - destruct H as [(_ & _ & dl & H & _)|(_ & H & _)]; [by exists dl, (with_db w_s1 d)|].
    exfalso. apply (f_equal (fun x => is_ok x.1 && match x.1 with Ok (Some _) => true | _ => false end)) in H.
    vm_compute in H. discriminate.
Defined.

Lemma stale_claim_witness :
  is_ok w_acked.1 = true /\ (settle w_s3 io_ok w_claim (w_now + 11) true).1 <> Ok tt.
Proof.
  split; [vm_compute; reflexivity|].
  apply (stale_claim_never_settles w_s2 w_s3 w_s3 (settle w_s3 io_ok w_claim (w_now + 11) true).2
           w_claim io_ok (w_now + 11) true).
  - left. exists io_ok, (w_now + 10), true, w_acked.1. split; [apply surjective_pairing|].
    intros H. apply (f_equal (fun d => state_count d acked)) in H. vm_compute in H. discriminate.
  - apply rtc_refl.
  - apply surjective_pairing.
Defined.

Definition w_purged := Purge w_s3 io_ok (w_now + 400 * 24 * time_Hour) (w_now + 8 * 24 * time_Hour) 10.

Lemma purge_witness : w_purged.1 = Ok 1 /\ exists gone : list (string * string), Z.of_nat (length gone) = 1.
Proof.
  split; [vm_compute; reflexivity|].
  destruct (purge_never_drops_live_work w_s3 w_purged.2 io_ok (w_now + 400 * 24 * time_Hour)
    (w_now + 8 * 24 * time_Hour) 10 w_purged.1 (surjective_pairing _)) as (gone & _ & _ & _ & _ & _ & Hn).
  exists gone. symmetry. apply Hn. vm_compute. reflexivity.
Defined.

Definition w_expired := Expire w_s2 io_ok (w_now + 400 * 24 * time_Hour) (w_now + 2 * 24 * time_Hour) 10.

Lemma expire_witness : w_expired.1 = Ok 1 /\ events (db w_expired.2) = events (db w_s2).
Proof.
  split; [vm_compute; reflexivity|].
  apply (expire_only_fails_overdue_work w_s2 w_expired.2 io_ok (w_now + 400 * 24 * time_Hour)
    (w_now + 2 * 24 * time_Hour) 10 w_expired.1 (surjective_pairing _)).
Defined.

Lemma durable_bounds_witness :
  budget_rows (db w_s2) = total_rows (db w_s2) /\ budget_rows (db w_s2) = 2.
Proof.
  split; [|vm_compute; reflexivity].
  apply (durable_bounds_hold w_scope w_config open_ok [] w_s0 w_s2 (Some (db w_s0)) w_boot_ok w_history).
Defined.
End DurableWitness.
