(* ===== verification/Ingress.v ===== *)
(** * The volatile ingress of the durable store (src/fabric/events/durable/ingress.go)

    A bounded channel in front of a [Publisher], drained by one writer goroutine.
    [Ingress] is a step machine over the critical sections of TryPublish, the
    writer and Close. The client side is proved against the interface [Publisher]
    and its laws; [durable_publisher] shows that the durable store meets them. *)
From Stdlib Require Import Strings.Byte ZArith Lia.
From S2P Require Import Prelude GoStrings FabricRef Wire Events FabricModel Stream SqlTx Durable DurableInv DurableProps.
#[local] Open Scope Z_scope.

(** The interface the ingress writes to, with the faults of a call as an input. *)
Class Publisher `{CloudEvents} (P : Type) := {
  PubIO : Type;
  pub_Publish : P -> PubIO -> Event -> result Error Durable.Receipt * P;
}.

(** What the ingress is promised: a receipt means the event is stored, and a
    publish never loses a stored event. *)
Class PublisherLaws `{CloudEvents} (P : Type) `{!Publisher P} := {
  pub_stored : P -> string * string -> Prop;
  pub_receipt p io e rc p' : pub_Publish p io e = (Ok rc, p') -> pub_stored p' (ev_Source e, ev_ID e);
  pub_keeps p io e r p' k : pub_Publish p io e = (r, p') -> pub_stored p k -> pub_stored p' k;
}.

Module Ingress.
Import Events Durable.

Record IngressConfig := mkIngressConfig {
  ic_QueueDepth : Z; ic_MaxBytes : Z; ic_MaxEventBytes : Z; ic_WriteTimeout : Duration }.

(** uint64 counters; Pending is an int, Bytes an int64. *)
Record IngressStats := mkIngressStats {
  VolatileAccepted : Z; ig_Rejected : Z; DurableCommitted : Z; DuplicateCommitted : Z;
  WriteFailed : Z; ShutdownDiscarded : Z; ig_Pending : Z; ig_Bytes : Z }.

(** Where the writer is: at the top of its loop, in the select, holding a
    received entry before and after the cancellation check, in the deferred drain,
    or done. *)
Inductive writer :=
| WTop | WSelect | WReceived (raw : list byte) | WPublishing (raw : list byte) | WDrain | WDone.

Record Ingress := mkIngress {
  ig_config : IngressConfig; ig_queue : list (list byte); ig_stats : IngressStats;
  ig_cancelled : bool; ig_closed : bool; ig_writer : writer }.

Definition ValidateIngressConfig (c : IngressConfig) : result Error unit :=
  guard (negb ((ic_QueueDepth c <? 1) || (65536 <? ic_QueueDepth c) || (ic_MaxBytes c <? 1) ||
               (2 ^ 30 <? ic_MaxBytes c) || (ic_MaxEventBytes c <? 1) || (2 ^ 20 <? ic_MaxEventBytes c) ||
               (ic_MaxBytes c <? ic_MaxEventBytes c) ||
               (ic_MaxBytes c <? ic_QueueDepth c * 24 + ic_MaxEventBytes c) ||
               (ic_WriteTimeout c <? time_Millisecond) || (time_Minute <? ic_WriteTimeout c)))
    (invalid "Invalid volatile event ingress limits").

Definition NewIngress (c : IngressConfig) : result Error Ingress :=
  match ValidateIngressConfig c with
  | Err _ => Err (invalid "Invalid volatile event ingress limits")
  | Ok _ => Ok (mkIngress c [] (mkIngressStats 0 0 0 0 0 0 0 0) false false WTop)
  end.

Definition set_istats (i : Ingress) (s : IngressStats) : Ingress :=
  mkIngress (ig_config i) (ig_queue i) s (ig_cancelled i) (ig_closed i) (ig_writer i).
Definition set_writer (i : Ingress) (w : writer) : Ingress :=
  mkIngress (ig_config i) (ig_queue i) (ig_stats i) (ig_cancelled i) (ig_closed i) w.

Definition count_rejected (s : IngressStats) : IngressStats :=
  mkIngressStats (VolatileAccepted s) (wrapu64 (ig_Rejected s + 1)) (DurableCommitted s)
    (DuplicateCommitted s) (WriteFailed s) (ShutdownDiscarded s) (ig_Pending s) (ig_Bytes s).

Definition count_accepted (n : Z) (s : IngressStats) : IngressStats :=
  mkIngressStats (wrapu64 (VolatileAccepted s + 1)) (ig_Rejected s) (DurableCommitted s)
    (DuplicateCommitted s) (WriteFailed s) (ShutdownDiscarded s) (wrap64 (ig_Pending s + 1))
    (wrap64 (ig_Bytes s + n)).

Definition count_discarded (n : Z) (s : IngressStats) : IngressStats :=
  mkIngressStats (VolatileAccepted s) (ig_Rejected s) (DurableCommitted s)
    (DuplicateCommitted s) (WriteFailed s) (wrapu64 (ShutdownDiscarded s + 1)) (wrap64 (ig_Pending s - 1))
    (wrap64 (ig_Bytes s - n)).

(** The settlement of a write, for the receipt or the error it got. *)
Definition count_written (n : Z) (r : result Error Receipt) (s : IngressStats) : IngressStats :=
  let pending := wrap64 (ig_Pending s - 1) in
  let bytes := wrap64 (ig_Bytes s - n) in
  match r with
  | Err _ => mkIngressStats (VolatileAccepted s) (ig_Rejected s) (DurableCommitted s)
      (DuplicateCommitted s) (wrapu64 (WriteFailed s + 1)) (ShutdownDiscarded s) pending bytes
  | Ok rc => mkIngressStats (VolatileAccepted s) (ig_Rejected s) (wrapu64 (DurableCommitted s + 1))
      (if Duplicate rc then wrapu64 (DuplicateCommitted s + 1) else DuplicateCommitted s)
      (WriteFailed s) (ShutdownDiscarded s) pending bytes
  end.

Section ingress.
Context `{Wire.JsonDecoder, CloudEvents}.

Definition ingressError (m : string) : CallError := FabricError (NewError CodeTargetUnavailable m).

(** [ctx] is ctx.Err() on entry, [ctx'] what it is under the lock. *)
Definition TryPublish (i : Ingress) (ctx ctx' : option CallError) (e : Event) :
    result CallError unit * Ingress :=
  match ctx with
  | Some err => (Err err, i)
  | None =>
      match Encode e (ic_MaxEventBytes (ig_config i)) with
      | Err err => (Err (FabricError err), i)
      | Ok raw =>
          let c := ig_config i in
          let rejected := set_istats i (count_rejected (ig_stats i)) in
          match ctx' with
          | Some err => (Err err, rejected)
          | None =>
              if ig_closed i || ig_cancelled i ||
                 (ic_MaxBytes c - ic_QueueDepth c * 24 - ig_Bytes (ig_stats i) <? blen raw)
              then (Err (ingressError "Volatile event ingress unavailable"), rejected)
              else if Z.of_nat (length (ig_queue i)) <? ic_QueueDepth c
              then (Ok tt,
                    mkIngress c (ig_queue i ++ [raw]) (count_accepted (blen raw) (ig_stats i))
                      (ig_cancelled i) (ig_closed i) (ig_writer i))
              else (Err (ingressError "Volatile event ingress capacity exceeded"), rejected)
          end
      end
  end.

(** ** The writer *)
Definition write_top (i : Ingress) : option Ingress :=
  match ig_writer i with
  | WTop => Some (set_writer i (if ig_cancelled i then WDrain else WSelect))
  | _ => None
  end.

(** The two branches of the select. *)
Definition write_done (i : Ingress) : option Ingress :=
  match ig_writer i with
  | WSelect => if ig_cancelled i then Some (set_writer i WDrain) else None
  | _ => None
  end.

Definition write_receive (i : Ingress) : option Ingress :=
  match ig_writer i, ig_queue i with
  | WSelect, raw :: q =>
      Some (mkIngress (ig_config i) q (ig_stats i) (ig_cancelled i) (ig_closed i) (WReceived raw))
  | _, _ => None
  end.

Definition write_check (i : Ingress) : option Ingress :=
  match ig_writer i with
  | WReceived raw =>
      Some (if ig_cancelled i
            then set_writer (set_istats i (count_discarded (blen raw) (ig_stats i))) WDrain
            else set_writer i (WPublishing raw))
  | _ => None
  end.

(** Decode and publish, and the settlement under the lock. *)
Definition write_publish {P} `{!Publisher P} (i : Ingress) (p : P) (io : PubIO) :
    option (result Error Receipt * Ingress * P) :=
  match ig_writer i with
  | WPublishing raw =>
      let '(r, p') :=
        match Decode raw (ic_MaxEventBytes (ig_config i)) with
        | Err err => (Err err, p)
        | Ok e => pub_Publish p io e
        end in
      Some (r, set_writer (set_istats i (count_written (blen raw) r (ig_stats i))) WTop, p')
  | _ => None
  end.

(** The deferred drain of what is left in the channel. *)
Definition write_drain (i : Ingress) : option Ingress :=
  match ig_writer i with
  | WDrain =>
      Some (mkIngress (ig_config i) []
              (fold_left (fun s raw => count_discarded (blen raw) s) (ig_queue i) (ig_stats i))
              (ig_cancelled i) (ig_closed i) WDone)
  | _ => None
  end.

(** Close in its two steps (the flag, then the cancellation), the second of
    which is also what the cancellation of the parent context does. *)
Definition close_flag (i : Ingress) : Ingress :=
  mkIngress (ig_config i) (ig_queue i) (ig_stats i) (ig_cancelled i) true (ig_writer i).
Definition cancel (i : Ingress) : Ingress :=
  mkIngress (ig_config i) (ig_queue i) (ig_stats i) true (ig_closed i) (ig_writer i).
End ingress.
End Ingress.

Module IngressInv.
Import Events Durable Ingress.

(** What became of an admitted entry. *)
Inductive outcome := Written (r : result Error Receipt) | Discarded.

Definition is_committed (o : list byte * outcome) : bool :=
  match o.2 with Written (Ok _) => true | _ => false end.
Definition is_duplicate (o : list byte * outcome) : bool :=
  match o.2 with Written (Ok rc) => Duplicate rc | _ => false end.
Definition is_failed (o : list byte * outcome) : bool :=
  match o.2 with Written (Err _) => true | _ => false end.
Definition is_discarded (o : list byte * outcome) : bool :=
  match o.2 with Discarded => true | _ => false end.

Definition count {A} (f : A -> bool) (l : list A) : Z := Z.of_nat (length (List.filter f l)).

Lemma count_app {A} (f : A -> bool) l k : count f (l ++ k) = count f l + count f k.
Proof. unfold count. rewrite List.filter_app, length_app. lia. Qed.

Definition in_flight (w : writer) : list (list byte) :=
  match w with WReceived raw | WPublishing raw => [raw] | _ => [] end.

Definition raw_bytes (l : list (list byte)) : Z := foldr (fun raw n => blen raw + n) 0 l.

Lemma raw_bytes_app l k : raw_bytes (l ++ k) = raw_bytes l + raw_bytes k.
Proof. unfold raw_bytes. induction l as [|raw l IH]; cbn [foldr app]; [done|]. rewrite IH. apply Z.add_assoc. Qed.

Lemma raw_bytes_nonneg l : 0 <= raw_bytes l.
Proof. unfold raw_bytes. induction l as [|raw l IH]; simpl; [lia|]. assert (0 <= blen raw) by (unfold blen; lia). lia. Qed.

Section inv.
Context `{Wire.JsonDecoder, CloudEvents} {P : Type} `{!Publisher P, !PublisherLaws P}.

(** The state of the ingress and its publisher, with the entries admitted so far
    and what became of those that left the queue, both in order. *)
Record system := mkSystem {
  sy_ingress : Ingress; sy_publisher : P; sy_accepted : list (list byte);
  sy_log : list (list byte * outcome) }.

Inductive writer_step (i : Ingress) : Ingress -> Prop :=
| ws_top i' : write_top i = Some i' -> writer_step i i'
| ws_done i' : write_done i = Some i' -> writer_step i i'
| ws_receive i' : write_receive i = Some i' -> writer_step i i'.

Inductive istep : system -> system -> Prop :=
| is_publish i p acc log ctx ctx' e r i' : TryPublish i ctx ctx' e = (r, i') ->
    istep (mkSystem i p acc log)
      (mkSystem i' p (match r, Encode e (ic_MaxEventBytes (ig_config i)) with
                      | Ok _, Ok raw => acc ++ [raw] | _, _ => acc end) log)
| is_writer i p acc log i' : writer_step i i' ->
    istep (mkSystem i p acc log) (mkSystem i' p acc log)
| is_check i p acc log i' : write_check i = Some i' ->
    istep (mkSystem i p acc log)
      (mkSystem i' p acc
        (log ++ if ig_cancelled i then (fun raw => (raw, Discarded)) <$> in_flight (ig_writer i) else []))
| is_write i p acc log io r i' p' : write_publish i p io = Some (r, i', p') ->
    istep (mkSystem i p acc log)
      (mkSystem i' p' acc (log ++ ((fun raw => (raw, Written r)) <$> in_flight (ig_writer i))))
| is_drain i p acc log i' : write_drain i = Some i' ->
    istep (mkSystem i p acc log)
      (mkSystem i' p acc (log ++ ((fun raw => (raw, Discarded)) <$> ig_queue i)))
| is_close i p acc log : istep (mkSystem i p acc log) (mkSystem (close_flag i) p acc log)
| is_cancel i p acc log : istep (mkSystem i p acc log) (mkSystem (cancel i) p acc log)
| is_environment i p acc log p' : (forall k, pub_stored p k -> pub_stored p' k) ->
    istep (mkSystem i p acc log) (mkSystem i p' acc log).

Definition draining (w : writer) : bool := match w with WDrain | WDone => true | _ => false end.

Record log_counts (s : IngressStats) (acc : list (list byte)) (log : list (list byte * outcome)) : Prop := {
  lc_accepted : VolatileAccepted s = wrapu64 (Z.of_nat (length acc));
  lc_committed : DurableCommitted s = wrapu64 (count is_committed log);
  lc_duplicate : DuplicateCommitted s = wrapu64 (count is_duplicate log);
  lc_failed : WriteFailed s = wrapu64 (count is_failed log);
  lc_discarded : ShutdownDiscarded s = wrapu64 (count is_discarded log);
}.

Record queue_counts (c : IngressConfig) (s : IngressStats) (held : list (list byte)) : Prop := {
  qc_pending : ig_Pending s = Z.of_nat (length held);
  qc_bytes : ig_Bytes s = raw_bytes held;
  qc_pending_max : Z.of_nat (length held) <= ic_QueueDepth c + 1;
  qc_bytes_max : raw_bytes held <= ic_MaxBytes c - ic_QueueDepth c * 24;
}.

Record ing_inv (y : system) : Prop := {
  iv_config : is_ok (ValidateIngressConfig (ig_config (sy_ingress y))) = true;
  iv_log : sy_accepted y = (sy_log y).*1 ++ in_flight (ig_writer (sy_ingress y)) ++ ig_queue (sy_ingress y);
  iv_queue : Z.of_nat (length (ig_queue (sy_ingress y))) <= ic_QueueDepth (ig_config (sy_ingress y));
  iv_held : queue_counts (ig_config (sy_ingress y)) (ig_stats (sy_ingress y))
              (in_flight (ig_writer (sy_ingress y)) ++ ig_queue (sy_ingress y));
  iv_counts : log_counts (ig_stats (sy_ingress y)) (sy_accepted y) (sy_log y);
  iv_draining : draining (ig_writer (sy_ingress y)) = true -> ig_cancelled (sy_ingress y) = true;
  iv_done : ig_writer (sy_ingress y) = WDone -> ig_queue (sy_ingress y) = [];
  iv_stored raw rc : (raw, Written (Ok rc)) ∈ sy_log y ->
    exists e, Decode raw (ic_MaxEventBytes (ig_config (sy_ingress y))) = Ok e /\
      pub_stored (sy_publisher y) (ev_Source e, ev_ID e);
}.

Lemma config_bounds c : is_ok (ValidateIngressConfig c) = true ->
  1 <= ic_QueueDepth c <= 65536 /\ 1 <= ic_MaxBytes c <= 2 ^ 30 /\
  1 <= ic_MaxEventBytes c /\ ic_QueueDepth c * 24 + ic_MaxEventBytes c <= ic_MaxBytes c.
Proof.
  unfold ValidateIngressConfig, guard. case_if; [|done]. intros _.
  apply negb_true_iff in E. rinv. lia.
Qed.

Lemma wrapu64_succ n : 0 <= n -> wrapu64 (wrapu64 n + 1) = wrapu64 (n + 1).
Proof. intros _. unfold wrapu64. by rewrite Zplus_mod_idemp_l. Qed.

Lemma outcome_count_nonneg {A} (f : A -> bool) l : 0 <= count f l.
Proof. unfold count. lia. Qed.

(** The stats after the accepting, discarding and writing updates. *)
Lemma accepted_counts c s held raw :
  is_ok (ValidateIngressConfig c) = true -> queue_counts c s held ->
  Z.of_nat (length held) <= ic_QueueDepth c ->
  blen raw <= ic_MaxBytes c - ic_QueueDepth c * 24 - ig_Bytes s ->
  queue_counts c (count_accepted (blen raw) s) (held ++ [raw]).
Proof.
  intros Hc [Hp Hb Hpm Hbm] Hroom Hfit. apply config_bounds in Hc.
  pose proof (raw_bytes_nonneg held). assert (0 <= blen raw) by (unfold blen; lia).
  constructor; cbn [ig_Pending ig_Bytes count_accepted]; rewrite ?raw_bytes_app, ?length_app; cbn;
    rewrite ?wrap64_small; unfold in_int64, min_int64, max_int64; try lia.
Qed.

Lemma released_counts c raw held p b :
  is_ok (ValidateIngressConfig c) = true ->
  p = Z.of_nat (length (raw :: held)) -> b = raw_bytes (raw :: held) ->
  p <= ic_QueueDepth c + 1 -> b <= ic_MaxBytes c - ic_QueueDepth c * 24 ->
  wrap64 (p - 1) = Z.of_nat (length held) /\ wrap64 (b - blen raw) = raw_bytes held /\
  Z.of_nat (length held) <= ic_QueueDepth c + 1 /\ raw_bytes held <= ic_MaxBytes c - ic_QueueDepth c * 24.
Proof.
  intros Hc -> -> Hpm Hbm. apply config_bounds in Hc. pose proof (raw_bytes_nonneg held).
  assert (0 <= blen raw) by (unfold blen; lia). cbn [raw_bytes foldr length] in *. fold (raw_bytes held) in *.
  rewrite !wrap64_small; unfold in_int64, min_int64, max_int64; split_and!; lia.
Qed.

Lemma discarded_counts c s raw held :
  is_ok (ValidateIngressConfig c) = true -> queue_counts c s (raw :: held) ->
  queue_counts c (count_discarded (blen raw) s) held.
Proof.
  intros Hc [Hp Hb Hpm Hbm]. rewrite <- Hp in Hpm. rewrite <- Hb in Hbm.
  destruct (released_counts _ _ _ _ _ Hc Hp Hb Hpm Hbm) as (? & ? & ? & ?). by constructor.
Qed.

Lemma written_counts c s raw held r :
  is_ok (ValidateIngressConfig c) = true -> queue_counts c s (raw :: held) ->
  queue_counts c (count_written (blen raw) r s) held.
Proof.
  intros Hc [Hp Hb Hpm Hbm]. rewrite <- Hp in Hpm. rewrite <- Hb in Hbm.
  destruct (released_counts _ _ _ _ _ Hc Hp Hb Hpm Hbm) as (? & ? & ? & ?). by destruct r; constructor.
Qed.

Lemma discarded_log s acc log raw : log_counts s acc log ->
  log_counts (count_discarded (blen raw) s) acc (log ++ [(raw, Discarded)]).
Proof.
  intros [Ha Hc Hd Hf Hx]. constructor; cbn; rewrite ?count_app; cbn; rewrite ?Z.add_0_r; try done.
  rewrite Hx. apply wrapu64_succ, outcome_count_nonneg.
Qed.

Lemma written_log s acc log raw r : log_counts s acc log ->
  log_counts (count_written (blen raw) r s) acc (log ++ [(raw, Written r)]).
Proof.
  intros [Ha Hc Hd Hf Hx]. destruct r as [rc|err]; constructor; cbn; rewrite ?count_app; cbn;
    rewrite ?Z.add_0_r; try done; try (rewrite ?Hc, ?Hf; apply wrapu64_succ, outcome_count_nonneg).
  destruct (Duplicate rc) eqn:Ed; unfold count at 2; cbn; rewrite Ed; cbn; rewrite ?Z.add_0_r; [|done].
  rewrite Hd. apply wrapu64_succ, outcome_count_nonneg.
Qed.

Lemma drain_counts c : forall q s acc log,
  is_ok (ValidateIngressConfig c) = true -> queue_counts c s q -> log_counts s acc log ->
  queue_counts c (fold_left (fun s raw => count_discarded (blen raw) s) q s) [] /\
  log_counts (fold_left (fun s raw => count_discarded (blen raw) s) q s) acc
    (log ++ ((fun raw => (raw, Discarded)) <$> q)).
Proof.
  induction q as [|raw q IH]; intros s acc log Hc Hq Hl; cbn [fold_left fmap list_fmap].
  - by rewrite app_nil_r.
  - assert (log ++ (raw, Discarded) :: ((fun raw => (raw, Discarded)) <$> q)
            = (log ++ [(raw, Discarded)]) ++ ((fun raw => (raw, Discarded)) <$> q)) as ->
      by (by rewrite <- app_assoc).
    apply IH; [done|by apply discarded_counts|by apply discarded_log].
Qed.
(** Each step preserves the invariant. *)
Lemma publish_inv i p acc log ctx ctx' e r i' :
  ing_inv (mkSystem i p acc log) -> TryPublish i ctx ctx' e = (r, i') ->
  ing_inv (mkSystem i' p (match r, Encode e (ic_MaxEventBytes (ig_config i)) with
                          | Ok _, Ok raw => acc ++ [raw] | _, _ => acc end) log).
Proof.
  intros Hinv. unfold TryPublish. destruct ctx; [by intros [= <- <-]|].
  destruct (Encode e _) as [raw|err] eqn:Eenc; [|by intros [= <- <-]].
  pose proof Hinv as [Hc Hl Hq Hh Hn Hd Hdone Hst]. cbn in Hc, Hl, Hq, Hh, Hn, Hd, Hdone, Hst.
  assert (ing_inv (mkSystem (set_istats i (count_rejected (ig_stats i))) p acc log)) as Hrej.
  { destruct Hh, Hn. constructor; cbn; try done; by constructor. }
  destruct ctx'; [by intros [= <- <-]|]. case_if; [by intros [= <- <-]|]. rename E into Eopen.
  case_if; [|by intros [= <- <-]]. rename E into Eroom. intros [= <- <-].
  apply orb_false_iff in Eopen as [[_ Ecan]%orb_false_iff Efit].
  constructor; cbn; try done.
  - by rewrite Hl, !app_assoc.
  - rewrite length_app. cbn. lia.
  - rewrite app_assoc. apply accepted_counts; try done; [|lia].
    destruct Hh as [_ _ Hpm _]. rewrite length_app in *. destruct (ig_writer i); cbn in *; lia.
  - destruct Hn as [Ha ?? ??]. constructor; cbn; try done. rewrite Ha, length_app. cbn.
    rewrite Nat2Z.inj_add. apply wrapu64_succ. lia.
  - intros Hw. rewrite Hw in Hd. specialize (Hd eq_refl). congruence.
Qed.

Lemma writer_inv i p acc log i' :
  ing_inv (mkSystem i p acc log) -> writer_step i i' -> ing_inv (mkSystem i' p acc log).
Proof.
  intros [Hc Hl Hq Hh Hn Hd Hdone Hst] [i1 Hs|i1 Hs|i1 Hs]; cbn in *.
  - unfold write_top in Hs. destruct (ig_writer i) eqn:Ew; try done. injection Hs as <-.
    constructor; cbn; try done; destruct (ig_cancelled i); done.
  - unfold write_done in Hs. destruct (ig_writer i) eqn:Ew; try done.
    destruct (ig_cancelled i) eqn:Ec; [|done]. injection Hs as <-. by constructor.
  - unfold write_receive in Hs. destruct (ig_writer i) eqn:Ew; try done.
    destruct (ig_queue i) as [|raw q] eqn:Eq; [done|]. injection Hs as <-.
    constructor; cbn; try done. cbn in Hq. lia.
Qed.

Lemma check_inv i p acc log i' :
  ing_inv (mkSystem i p acc log) -> write_check i = Some i' ->
  ing_inv (mkSystem i' p acc
    (log ++ if ig_cancelled i then (fun raw => (raw, Discarded)) <$> in_flight (ig_writer i) else [])).
Proof.
  intros [Hc Hl Hq Hh Hn Hd Hdone Hst] Hs; cbn in *. unfold write_check in Hs.
  destruct (ig_writer i) as [| |raw|raw| |] eqn:Ew; try done. injection Hs as <-.
  destruct (ig_cancelled i) eqn:Ec; cbn [fmap list_fmap in_flight].
  - constructor; cbn; try done.
    + rewrite Hl, fmap_app, <- app_assoc. done.
    + by apply discarded_counts.
    + by apply discarded_log.
    + intros x rc [Hx|Hx]%elem_of_app; [by eapply Hst|]. by apply list_elem_of_singleton in Hx.
  - rewrite app_nil_r. by constructor.
Qed.

Lemma write_inv i p acc log io r i' p' :
  ing_inv (mkSystem i p acc log) -> write_publish i p io = Some (r, i', p') ->
  ing_inv (mkSystem i' p' acc (log ++ ((fun raw => (raw, Written r)) <$> in_flight (ig_writer i)))).
Proof.
  intros [Hc Hl Hq Hh Hn Hd Hdone Hst] Hs; cbn in *. unfold write_publish in Hs.
  destruct (ig_writer i) as [| |raw|raw| |] eqn:Ew; try done.
  set (attempt := match Decode raw (ic_MaxEventBytes (ig_config i)) with
                  | Err err => (Err err, p) | Ok e => pub_Publish p io e end) in *.
  assert (exists r0, attempt = (r0, p') /\ r0 = r /\
            i' = set_writer (set_istats i (count_written (blen raw) r (ig_stats i))) WTop)
    as (r0 & Hat & -> & ->) by (destruct attempt as [r1 p1]; injection Hs as <- <- <-; eauto).
  clear Hs. assert (forall k, pub_stored p k -> pub_stored p' k) as Hkeep.
  { intros k Hk. unfold attempt in Hat. destruct (Decode _ _); [by eapply pub_keeps|by injection Hat as _ <-]. }
  constructor; cbn [sy_ingress sy_publisher sy_accepted sy_log set_writer set_istats ig_config ig_writer ig_queue
    ig_stats ig_cancelled fmap list_fmap in_flight]; try done.
  - rewrite Hl, fmap_app, <- app_assoc. done.
  - by apply written_counts.
  - by apply written_log.
  - intros x rc [Hx|Hx]%elem_of_app.
    + destruct (Hst _ _ Hx) as (e & He & Hk). eauto.
    + apply list_elem_of_singleton in Hx. injection Hx as -> <-. unfold attempt in Hat.
      destruct (Decode raw _) as [e|] eqn:Edec; [|done]. exists e. split; [done|]. by eapply pub_receipt.
Qed.

Lemma istep_inv y y' : ing_inv y -> istep y y' -> ing_inv y'.
Proof.
  intros Hinv Hstep.
  destruct Hstep as [i p acc log ctx ctx' e r i' Hs|i p acc log i' Hs|i p acc log i' Hs
    |i p acc log io r i' p' Hs|i p acc log i' Hs|i p acc log|i p acc log|i p acc log p' Hk].
  - by eapply publish_inv.
  - by eapply writer_inv.
  - by apply check_inv.
  - by eapply write_inv.
  - destruct Hinv as [Hc Hl Hq Hh Hn Hd Hdone Hst]; cbn in *. unfold write_drain in Hs.
    destruct (ig_writer i) eqn:Ew; try done. injection Hs as <-. cbn [in_flight app] in *.
    destruct (drain_counts _ _ _ _ _ Hc Hh Hn) as [Hq' Hn'].
    pose proof (config_bounds _ Hc). constructor; cbn; try done; try lia.
    + rewrite Hl, fmap_app, app_nil_r, <- list_fmap_compose. f_equal. symmetry. apply list_fmap_id.
    + intros x rc [Hx|Hx]%elem_of_app; [by eapply Hst|]. by apply list_elem_of_fmap in Hx as (? & ? & _).
  - destruct Hinv. by constructor.
  - destruct Hinv. by constructor.
  - destruct Hinv as [Hc Hl Hq Hh Hn Hd Hdone Hst]. constructor; try done.
    intros x rc Hx. destruct (Hst _ _ Hx) as (e & He & Hst'). exists e. eauto.
Qed.

Lemma new_inv c i p : NewIngress c = Ok i -> ing_inv (mkSystem i p [] []).
Proof.
  unfold NewIngress. destruct (ValidateIngressConfig c) as [u|] eqn:Ev; [|done]. intros [= <-].
  assert (is_ok (ValidateIngressConfig c) = true) as Hc by (by rewrite Ev).
  pose proof (config_bounds _ Hc). constructor; cbn; try done; try lia.
  - constructor; cbn; lia.
  - by intros raw rc ?%elem_of_nil.
Qed.

Lemma ingress_run_inv c i p y : NewIngress c = Ok i -> rtc istep (mkSystem i p [] []) y ->
  ing_inv y /\ ig_config (sy_ingress y) = c.
Proof.
  intros Hnew Hrun. pose proof (new_inv _ _ p Hnew) as Hinv.
  assert (ig_config i = c) as Hcfg.
  { unfold NewIngress in Hnew. destruct (ValidateIngressConfig c); [by injection Hnew as <-|done]. }
  revert Hinv. assert (ig_config (sy_ingress (mkSystem i p [] [])) = c) as Hy by done. revert Hy.
  generalize dependent (mkSystem i p [] []). clear.
  intros y0 Hrun. induction Hrun as [|y0 y1 y2 Hs _ IH]; [done|]. intros Hy Hinv.
  apply IH; [|by eapply istep_inv]. rewrite <- Hy. clear IH Hy Hinv.
  destruct Hs as [i p acc log ctx ctx' e r i' Hs|i p acc log i' [i1 Hs|i1 Hs|i1 Hs]|i p acc log i' Hs
    |i p acc log io r i' p' Hs|i p acc log i' Hs|i p acc log|i p acc log|i p acc log p' Hk]; cbn; try done.
  - unfold TryPublish in Hs. repeat (case_match || case_if); by simplify_eq.
  - unfold write_top in Hs. repeat (case_match || case_if); by simplify_eq.
  - unfold write_done in Hs. repeat (case_match || case_if); by simplify_eq.
  - unfold write_receive in Hs. repeat (case_match || case_if); by simplify_eq.
  - unfold write_check in Hs. repeat (case_match || case_if); by simplify_eq.
  - unfold write_publish in Hs. repeat (case_match || case_if); by simplify_eq.
  - unfold write_drain in Hs. repeat (case_match || case_if); by simplify_eq.
Qed.
End inv.
End IngressInv.

(** ** The durable store is a publisher *)
Module DurablePublisher.
Import Events Durable DurableInv DurableProps.

Section instance.
Context `{Sha256, Wire.JsonDecoder, CloudEvents, DataProtector, DurableJson}.

#[export] Instance durable_publisher : Publisher Store :=
  {| PubIO := TxIO * list byte * Time;
     pub_Publish := fun s io e => Publish s io.1.1 io.1.2 io.2 e |}.

Lemma publish_stores s io nonce now e rc s' :
  Publish s io nonce now e = (Ok rc, s') -> is_Some (events (db s') !! (ev_Source e, ev_ID e)).
Proof.
  intros [[_ [err [=]]]|(digest & sealed & _ & _ & Hh)]%Publish_handled.
  destruct Hh as [_ [err [=]]|a stmt st -> _ Hb|a stmt n d -> Hb _].
  - unfold publish_tx in Hb. tinv. cbn [db with_db].
    destruct (events (db s) !! (ev_Source e, ev_ID e)) as [row|] eqn:Er; [by eexists|]. tinv.
  - apply publish_tx_effect in Hb. cbn [db with_db]. rewrite (pe_db _ _ _ _ _ _ _ _ _ Hb).
    unfold published_db. cbn [events add_budget]. rewrite (proj2 (proj2 (fold_enqueue_budget _ _ _ _))).
    cbn [events]. rewrite lookup_insert_eq. by eexists.
Qed.

Lemma publish_keeps s io nonce now e r s' k :
  Publish s io nonce now e = (r, s') -> is_Some (events (db s) !! k) -> is_Some (events (db s') !! k).
Proof.
  intros [[-> _]|(digest & sealed & _ & _ & Hh)]%Publish_handled Hk; [done|].
  destruct Hh as [-> _|a stmt st -> _ Hb|a stmt n d -> Hb _]; cbn [db with_db]; [by destruct s|by destruct s|].
  apply publish_tx_effect in Hb. rewrite (pe_db _ _ _ _ _ _ _ _ _ Hb).
  unfold published_db. cbn [events add_budget]. rewrite (proj2 (proj2 (fold_enqueue_budget _ _ _ _))).
  cbn [events]. destruct (decide (k = (ev_Source e, ev_ID e))) as [->|Hne].
  - rewrite lookup_insert_eq. by eexists.
  - by rewrite lookup_insert_ne.
Qed.

#[export] Instance durable_publisher_laws : PublisherLaws Store :=
  {| pub_stored := fun s k => is_Some (events (db s) !! k);
     pub_receipt := fun s io e rc s' => publish_stores s io.1.1 io.1.2 io.2 e rc s';
     pub_keeps := fun s io e r s' k => publish_keeps s io.1.1 io.1.2 io.2 e r s' k |}.
End instance.
End DurablePublisher.

Module IngressProps.
Import Events Durable Ingress IngressInv.

Section props.
Context `{Wire.JsonDecoder, CloudEvents} {P : Type} `{!Publisher P, !PublisherLaws P}.

Lemma outcomes_partition (log : list (list byte * outcome)) :
  count is_committed log + count is_failed log + count is_discarded log = Z.of_nat (length log).
Proof.
  induction log as [|[raw [[rc|err]|]] log IH]; [done|..];
    unfold count in *; cbn [List.filter is_committed is_failed is_discarded snd length]; lia.
Qed.

(** No event is lost silently: the entries the ingress admitted are, in
    order, those whose outcome is known, the one the writer holds and the queue;
    Pending and Bytes are exact and within the configured limits, the counters are
    the numbers of outcomes (modulo 2^64), so that accepted = committed + failed +
    discarded + pending; and once the writer is done nothing is pending. *)
Theorem ingress_accounts_for_every_event c i p y :
  NewIngress c = Ok i -> rtc istep (mkSystem i p [] []) y ->
  let s := ig_stats (sy_ingress y) in
  let held := in_flight (ig_writer (sy_ingress y)) ++ ig_queue (sy_ingress y) in
  sy_accepted y = (sy_log y).*1 ++ held /\
  ig_Pending s = Z.of_nat (length held) /\ ig_Bytes s = raw_bytes held /\
  ig_Pending s <= ic_QueueDepth c + 1 /\ ig_Bytes s <= ic_MaxBytes c - ic_QueueDepth c * 24 /\
  DurableCommitted s = wrapu64 (count is_committed (sy_log y)) /\
  WriteFailed s = wrapu64 (count is_failed (sy_log y)) /\
  ShutdownDiscarded s = wrapu64 (count is_discarded (sy_log y)) /\
  VolatileAccepted s = wrapu64 (DurableCommitted s + WriteFailed s + ShutdownDiscarded s + ig_Pending s) /\
  (ig_writer (sy_ingress y) = WDone -> ig_Pending s = 0 /\ ig_Bytes s = 0 /\ sy_accepted y = (sy_log y).*1).
Proof.
  intros Hnew Hrun s held. destruct (ingress_run_inv _ _ _ _ Hnew Hrun) as [[Hc Hl Hq Hh Hn Hd Hdone Hst] Hcfg].
  rewrite Hcfg in *. fold held in Hl, Hh. destruct Hh as [Hp Hb Hpm Hbm]. destruct Hn as [Ha Hco Hdu Hf Hx].
  fold s in Hp, Hb, Ha, Hco, Hf, Hx.
  split_and!; try done; [lia|lia| |].
  - rewrite Ha, Hl, Hco, Hf, Hx, Hp, length_app, length_fmap.
    destruct (wrapu64_eq (count is_committed (sy_log y))) as [k1 ->].
    destruct (wrapu64_eq (count is_failed (sy_log y))) as [k2 ->].
    destruct (wrapu64_eq (count is_discarded (sy_log y))) as [k3 ->].
    pose proof (outcomes_partition (sy_log y)). apply (wrapu64_cong _ _ (- k1 - k2 - k3)). lia.
  - intros Hw. assert (held = []) as Heq by (unfold held; rewrite Hw, (Hdone Hw); done).
    rewrite Hp, Hb, Hl, Heq. cbn. by rewrite app_nil_r.
Qed.

(** An event the ingress counts as durably committed is stored: every
    committed entry decodes to an event whose identity the publisher holds, at
    every later point of the run, as long as the rest of the system does not
    remove stored events. *)
Theorem ingress_commits_are_durable c i p y :
  NewIngress c = Ok i -> rtc istep (mkSystem i p [] []) y ->
  forall raw rc, (raw, Written (Ok rc)) ∈ sy_log y ->
  exists e, Decode raw (ic_MaxEventBytes c) = Ok e /\ pub_stored (sy_publisher y) (ev_Source e, ev_ID e).
Proof.
  intros Hnew Hrun raw rc Hin. destruct (ingress_run_inv _ _ _ _ Hnew Hrun) as [Hinv Hcfg].
  destruct (iv_stored _ Hinv raw rc Hin) as (e & He & Hk). rewrite Hcfg in He. eauto.
Qed.

(** How many steps the writer has left after cancellation. *)
Definition steps_left (w : writer) : nat :=
  match w with WTop => 2 | WSelect => 3 | WReceived _ => 2 | WPublishing _ => 3 | WDrain => 1 | WDone => 0 end.

Inductive any_writer_step (i : Ingress) (p : P) : Ingress -> P -> Prop :=
| aw_step i' : writer_step i i' -> any_writer_step i p i' p
| aw_check i' : write_check i = Some i' -> any_writer_step i p i' p
| aw_write io r i' p' : write_publish i p io = Some (r, i', p') -> any_writer_step i p i' p'
| aw_drain i' : write_drain i = Some i' -> any_writer_step i p i' p.

(** Shutdown terminates: once the ingress is cancelled every step of the
    writer brings it strictly nearer to its end, cancellation persists, and until
    the writer is done one of its steps is enabled, so that it drains the queue
    and closes [done] after at most three of its own steps. *)
Theorem ingress_shutdown_terminates (i : Ingress) (p : P) (io : PubIO) :
  ig_cancelled i = true ->
  (forall i' p', any_writer_step i p i' p' ->
     ig_cancelled i' = true /\ (steps_left (ig_writer i') < steps_left (ig_writer i))%nat) /\
  (ig_writer i <> WDone -> exists i' p', any_writer_step i p i' p').
Proof.
  intros Hc. split.
  - intros i' p' [i1 [i2 Hs|i2 Hs|i2 Hs]|i1 Hs|io' r i1 p1 Hs|i1 Hs].
    + unfold write_top in Hs. destruct (ig_writer i) eqn:Ew; simplify_eq. rewrite Hc. cbn. split; [done|lia].
    + unfold write_done in Hs. destruct (ig_writer i) eqn:Ew; try done. rewrite Hc in Hs. simplify_eq. cbn. split; [done|lia].
    + unfold write_receive in Hs. destruct (ig_writer i) eqn:Ew; try done. destruct (ig_queue i); simplify_eq. cbn. split; [done|lia].
    + unfold write_check in Hs. destruct (ig_writer i) eqn:Ew; simplify_eq. rewrite Hc. cbn. split; [done|lia].
    + unfold write_publish in Hs. destruct (ig_writer i) eqn:Ew; try done. destruct (match Decode _ _ with Ok _ => _ | Err _ => _ end). simplify_eq. cbn. split; [done|lia].
    + unfold write_drain in Hs. destruct (ig_writer i) eqn:Ew; simplify_eq. cbn. split; [done|lia].
  - intros Hw. destruct (ig_writer i) as [| |raw|raw| |] eqn:Ew; [| | | | |done].
    + do 2 eexists. apply aw_step, ws_top. unfold write_top. by rewrite Ew.
    + do 2 eexists. apply aw_step, ws_done. unfold write_done. by rewrite Ew, Hc.
    + do 2 eexists. apply aw_check. unfold write_check. by rewrite Ew.
    + destruct (write_publish i p io) as [[[r i1] p1]|] eqn:Ep; [by do 2 eexists; eapply aw_write|].
      unfold write_publish in Ep. rewrite Ew in Ep. by destruct (match Decode _ _ with Ok _ => _ | Err _ => _ end).
    + do 2 eexists. apply aw_drain. unfold write_drain. by rewrite Ew.
Qed.
End props.
End IngressProps.

(** ** A concrete run over the durable store *)
Module IngressWitness.
Import Events Durable Ingress IngressInv IngressProps DurablePublisher DurableWitness
  FabricRef.RefWitness Wire.WireWitness EventsWitness.

Definition w_iconfig : IngressConfig := mkIngressConfig 4 4096 1024 time_Second.
Definition w_i0 : Ingress := mkIngress w_iconfig [] (mkIngressStats 0 0 0 0 0 0 0 0) false false WTop.
Definition w_i1 : Ingress := (TryPublish w_i0 None None w_event).2.
Definition w_i2 : Ingress := default w_i1 (write_top w_i1).
Definition w_i3 : Ingress := default w_i2 (write_receive w_i2).
Definition w_i4 : Ingress := default w_i3 (write_check w_i3).
Definition w_io : PubIO (P := Store) := (io_ok, [], w_now).
Definition w_written := write_publish w_i4 w_s0 w_io.
Definition w_i5 : Ingress := match w_written with Some (_, i, _) => i | None => w_i4 end.
Definition w_rc : result Error Receipt := match w_written with Some (r, _, _) => r | None => Err unavailable end.
Definition w_p5 : Store := match w_written with Some (_, _, p) => p | None => w_s0 end.

Lemma w_irun : rtc istep (mkSystem w_i0 w_s0 [] [])
  (mkSystem w_i5 w_p5 [w_event] [(w_event, Written w_rc)]).
Proof.
  eapply rtc_l; [apply (is_publish w_i0 w_s0 [] [] None None w_event (Ok tt) w_i1); vm_compute; reflexivity|].
  eapply rtc_l; [apply (is_writer w_i1 w_s0 _ [] w_i2); apply ws_top; vm_compute; reflexivity|].
  eapply rtc_l; [apply (is_writer w_i2 w_s0 _ [] w_i3); apply ws_receive; vm_compute; reflexivity|].
  eapply rtc_l; [apply (is_check w_i3 w_s0 _ [] w_i4); vm_compute; reflexivity|].
  eapply rtc_l; [apply (is_write w_i4 w_s0 _ _ w_io w_rc w_i5 w_p5); vm_compute; reflexivity|].
  apply rtc_refl.
Defined.

Lemma ingress_accounting_witness :
  DurableCommitted (ig_stats w_i5) = 1 /\ VolatileAccepted (ig_stats w_i5) = 1 /\ ig_Pending (ig_stats w_i5) = 0.
Proof.
  destruct (ingress_accounts_for_every_event w_iconfig w_i0 w_s0 _ eq_refl w_irun)
    as (_ & Hp & _ & _ & _ & Hd & _ & _ & Ha & _).
  split; [exact Hd|]. split; [exact Ha|exact Hp].
Defined.

Lemma ingress_durable_witness : exists e, Decode w_event 1024 = Ok e /\ pub_stored w_p5 (ev_Source e, ev_ID e).
Proof.
  apply (ingress_commits_are_durable w_iconfig w_i0 w_s0 _ eq_refl w_irun w_event
    (match w_rc with Ok rc => rc | Err _ => mkReceipt "" "" "" 0 false end)).
  vm_compute. left.
Defined.

Lemma ingress_shutdown_witness : exists i' p', any_writer_step (cancel w_i4) w_s0 i' p'.
Proof. apply (ingress_shutdown_terminates (cancel w_i4) w_s0 w_io); [reflexivity|discriminate]. Defined.
End IngressWitness.
