(* ===== verification/Worker.v ===== *)
(** * The workers of the durable store (src/fabric/events/durable/worker.go)

    One sequential worker per handler: claim, call the handler under the lease,
    settle. The claiming and the settling half of a turn are separate steps, so
    that any history of the store may fall between them. *)
From Stdlib Require Import Strings.Byte ZArith Lia.
From S2P Require Import Prelude GoStrings FabricRef Wire Events SqlTx Durable DurableInv DurableProps.
#[local] Open Scope Z_scope.

Module Worker.
Import Events Durable.

(** A handler map: the subscription each handler serves and whether it is set. *)
Record WorkerConfig := mkWorkerConfig {
  wc_Handlers : gmap string bool; wc_Timeout : Duration; wc_PollInterval : Duration }.

(** atomic.Uint64 counters. *)
Record WorkerStats := mkWorkerStats {
  w_delivered : Z; w_retried : Z; w_settlementFailed : Z; w_claimFailed : Z }.

Section worker.
Context `{Sha256, Wire.JsonDecoder, CloudEvents, DataProtector, DurableJson}.

(** The checks of StartWorkers, and the handlers it starts a worker for. *)
Definition StartWorkers (s : Store) (c : WorkerConfig) : result Error (gmap string bool) :=
  let n := Z.of_nat (size (wc_Handlers c)) in
  let? _ := guard (negb ((n <? 1) || (MaxSubscriptions (config s) <? n) ||
                         (wc_Timeout c <? time_Millisecond) || (time_Minute <? wc_Timeout c) ||
                         (wc_PollInterval c <? time_Millisecond) || (time_Second <? wc_PollInterval c)))
              (invalid "Invalid durable event workers") in
  let known := sub_ID <$> Subscriptions (config s) in
  let? _ := guard (bool_decide (map_Forall (fun id h => id ∈ known /\ h = true) (wc_Handlers c)))
              (invalid "Unregistered durable event handler") in
  Ok (wc_Handlers c).

Definition worker_name (sub : string) : string :=
  "events.worker." ++ string_of (take 32 (bytes_of (claimHash sub))).

(** The inputs of the claiming half. *)
Record ClaimIO := mkClaimIO { cl_io : TxIO; cl_entropy : option (list byte); cl_now : Time }.

(** Poll again after the interval, or go on with a delivery. *)
Definition worker_claim (s : Store) (st : WorkerStats) (sub : string) (t : ClaimIO) :
    option Delivery * WorkerStats * Store :=
  let '(r, s') := Store_Claim s (cl_io t) (cl_entropy t) sub (worker_name sub) (cl_now t) in
  match r with
  | Err _ => (None, mkWorkerStats (w_delivered st) (w_retried st) (w_settlementFailed st)
                      (wrapu64 (w_claimFailed st + 1)), s')
  | Ok dl => (dl, st, s')
  end.

(** What happens around the handler: the clock when [until] is computed, before
    and after the call and at the settlement; callCtx.Err() before and after; the
    handler's result (false for an error or a panic, see [callHandler]); the
    settlement's faults. *)
Record TurnIO := mkTurnIO {
  tn_until_at : Time; tn_ctx_before : bool; tn_before : Time; tn_handler : Event -> bool;
  tn_ctx_after : bool; tn_after : Time; tn_settle_io : TxIO; tn_settle_at : Time }.

Definition until (c : WorkerConfig) (dl : Delivery) (t : TurnIO) : Time :=
  let until := tn_until_at t + wc_Timeout c in
  if dl_LeaseUntil dl <? until then dl_LeaseUntil dl else until.

Definition called (c : WorkerConfig) (dl : Delivery) (t : TurnIO) : bool :=
  tn_ctx_before t && (tn_before t <? until c dl t).

Definition accepted (c : WorkerConfig) (dl : Delivery) (t : TurnIO) : bool :=
  called c dl t && tn_handler t (dl_Event dl) && tn_ctx_after t && (tn_after t <? until c dl t).

Definition worker_settle (c : WorkerConfig) (s : Store) (st : WorkerStats) (dl : Delivery) (t : TurnIO) :
    WorkerStats * Store :=
  let ok := accepted c dl t in
  let '(r, s') := if ok then Ack s (tn_settle_io t) (dl_Claim dl) (tn_settle_at t)
                  else Nack s (tn_settle_io t) (dl_Claim dl) (tn_settle_at t) in
  match r with
  | Ok _ =>
      if ok
      then (mkWorkerStats (wrapu64 (w_delivered st + 1)) (w_retried st) (w_settlementFailed st) (w_claimFailed st), s')
      else (mkWorkerStats (w_delivered st) (wrapu64 (w_retried st + 1)) (w_settlementFailed st) (w_claimFailed st), s')
  | Err _ => (mkWorkerStats (w_delivered st) (w_retried st) (wrapu64 (w_settlementFailed st + 1)) (w_claimFailed st), s')
  end.
End worker.
End Worker.

Module WorkerProps.
Import Events Durable DurableInv DurableProps Worker.

Section props.
Context `{Sha256, Wire.JsonDecoder, CloudEvents, DataProtector, DurableJson}.

(** A settlement that succeeded held the lease and wrote the row. *)
Lemma settle_done s io c now ack u s' : settle s io c now ack = (Ok u, s') ->
  exists e r st reason due,
    deliveries (db s) !! claim_key c = Some r /\ events (db s) !! (claim_key c).2 = Some e /\
    holds_lease c (UnixNano now) r = true /\
    settle_outcome (config s) now ack (d_attempt r) (e_expires e) = (st, reason, due) /\
    deliveries (db s') !! claim_key c = Some (settle_row st reason due r).
Proof.
  intros [[_ [err [=]]]|(_ & _ & _ & Hh)]%settle_handled.
  destruct Hh as [_ [err [=]]|a stmt st -> _ Hb|a stmt n d -> Hb _].
  - exfalso. unfold settle_tx in Hb. tinv.
    destruct (deliveries (db s) !! _) as [r|]; [|by tinv]. destruct (events (db s) !! _); [|by tinv].
    destruct (holds_lease _ _ _); [|by tinv]. destruct (settle_outcome _ _ _ _ _) as [[st0 ?] ?]. by tinv.
  - apply settle_tx_effect in Hb. destruct Hb as [e r st reason due He Hr Hl Ho].
    exists e, r, st, reason, due. split_and!; try done. cbn [db with_db].
    destruct (bool_decide _); cbn; by rewrite lookup_insert_eq.
Qed.

(** A worker never reports a late or refused event as delivered: when a
    turn counts a delivery, the handler was called before the deadline, accepted the
    event, and returned with its context alive before the earlier of the lease and
    the timeout; the row was still held under exactly this claim, whatever happened
    to the store since it was granted, and is now acknowledged. *)
Theorem worker_acks_only_accepted_in_lease (c : WorkerConfig) (s2 s3 : Store) (st2 st3 : WorkerStats)
    (dl : Delivery) (t : TurnIO) :
  worker_settle c s2 st2 dl t = (st3, s3) -> w_delivered st3 <> w_delivered st2 ->
  tn_ctx_before t = true /\ tn_before t < dl_LeaseUntil dl /\ tn_handler t (dl_Event dl) = true /\
  tn_ctx_after t = true /\ tn_after t < dl_LeaseUntil dl /\ tn_after t < tn_until_at t + wc_Timeout c /\
  exists r, deliveries (db s2) !! claim_key (dl_Claim dl) = Some r /\
    holds_lease (dl_Claim dl) (UnixNano (tn_settle_at t)) r = true /\
    deliveries (db s3) !! claim_key (dl_Claim dl) = Some (settle_row acked "" (UnixNano (tn_settle_at t)) r).
Proof.
  intros Hs Hd. unfold worker_settle in Hs.
  destruct (accepted c dl t) eqn:Ea.
  2:{ destruct (Nack _ _ _ _) as [[u|err] s']; injection Hs as <- <-; done. }
  destruct (Ack _ _ _ _) as [[u|err] s'] eqn:Eack; injection Hs as <- <-; [|done].
  unfold accepted, called in Ea. rinv.
  assert (until c dl t <= dl_LeaseUntil dl /\ until c dl t <= tn_until_at t + wc_Timeout c) as [? ?]
    by (unfold until; case_if; lia).
  apply settle_done in Eack as (e & r & st & reason & due & Hr & He & Hl & Ho & Hr').
  cbn in Ho. injection Ho as <- <- <-. split_and!; try done; try lia. exists r. done.
Qed.

(** Which one of the counters a settlement advances. *)
Definition turn_counter (ok settled : bool) (st : WorkerStats) : WorkerStats :=
  if settled then
    if ok then mkWorkerStats (wrapu64 (w_delivered st + 1)) (w_retried st) (w_settlementFailed st) (w_claimFailed st)
    else mkWorkerStats (w_delivered st) (wrapu64 (w_retried st + 1)) (w_settlementFailed st) (w_claimFailed st)
  else mkWorkerStats (w_delivered st) (w_retried st) (wrapu64 (w_settlementFailed st + 1)) (w_claimFailed st).

(** A settled turn leaves the delivery where its outcome says: a failed
    attempt returns it to the queue under the retry delay while attempts and lifetime
    remain and to the failed state otherwise; a settlement the store refuses because
    the lease was lost changes nothing; and the turn advances exactly one counter. *)
Theorem worker_turn_settles_once (c : WorkerConfig) (s s' : Store) (st st' : WorkerStats)
    (dl : Delivery) (t : TurnIO) :
  worker_settle c s st dl t = (st', s') ->
  let k := claim_key (dl_Claim dl) in
  let now := tn_settle_at t in
  exists settled, st' = turn_counter (accepted c dl t) settled st /\
  (settled = true -> exists r e, deliveries (db s) !! k = Some r /\ events (db s) !! k.2 = Some e /\
     deliveries (db s') !! k = Some
       (if accepted c dl t then settle_row acked "" (UnixNano now) r
        else if e_expires e <=? UnixNano now
        then settle_row failed "delivery_expired" (UnixNano (now + RetryDelay (config s))) r
        else if MaxAttempts (config s) <=? d_attempt r
        then settle_row failed "attempts_exhausted" (UnixNano (now + RetryDelay (config s))) r
        else settle_row pending "" (UnixNano (now + RetryDelay (config s))) r)) /\
  ((forall r, deliveries (db s) !! k = Some r -> holds_lease (dl_Claim dl) (UnixNano now) r = false) ->
     settled = false /\ s' = s).
Proof.
  intros Hs k now. unfold worker_settle in Hs.
  assert (exists u, settle s (tn_settle_io t) (dl_Claim dl) now (accepted c dl t) = (u, s') /\
            st' = turn_counter (accepted c dl t) (is_ok u) st) as (u & Hset & Hst).
  { unfold Ack, Nack in Hs. fold now in Hs. destruct (accepted c dl t);
      destruct (settle _ _ _ _ _) as [[[]|err] s1]; injection Hs as <- <-; by eexists. }
  clear Hs. exists (is_ok u). split; [done|]. split.
  - destruct u as [u|]; [|done]. intros _.
    apply settle_done in Hset as (e & r & st0 & reason & due & Hr & He & Hl & Ho & Hr').
    exists r, e. split; [done|]. split; [done|]. unfold k. rewrite Hr'. unfold settle_outcome in Ho.
    destruct (accepted c dl t); [by injection Ho as <- <- <-|].
    destruct (e_expires e <=? UnixNano now); [by injection Ho as <- <- <-|].
    destruct (MaxAttempts (config s) <=? d_attempt r); by injection Ho as <- <- <-.
  - intros Hlost. apply settle_handled in Hset as [[-> [err ->]]|(_ & _ & _ & Hh)]; [done|].
    destruct Hh as [-> [err ->]|a stmt st0 -> -> Hb|a stmt n d -> Hb _]; [by destruct s| |]; exfalso.
    + unfold settle_tx in Hb. tinv. destruct (deliveries (db s) !! _) as [r|] eqn:Er; [|by tinv].
      destruct (events (db s) !! _); [|by tinv]. rewrite (Hlost r eq_refl) in Hb. by tinv.
    + apply settle_tx_effect in Hb. destruct Hb as [e r st0 reason due He Hr Hl Ho].
      by rewrite (Hlost r Hr) in Hl.
Qed.
End props.
End WorkerProps.

(** ** A concrete turn *)
Module WorkerWitness.
Import Events Durable DurableInv DurableProps Worker WorkerProps DurableWitness
  FabricRef.RefWitness Wire.WireWitness EventsWitness.

Definition w_wconfig : WorkerConfig := mkWorkerConfig {["x.sub" := true]} time_Second time_Second.
Definition w_stats : WorkerStats := mkWorkerStats 0 0 0 0.
Definition w_cio : ClaimIO := mkClaimIO io_ok (Some w_token) (w_now + 5).
Definition w_turn_claim := worker_claim w_s1 w_stats "x.sub" w_cio.
Definition w_dl : Delivery :=
  match w_turn_claim with
  | (Some dl, _, _) => dl
  | _ => mkDelivery (mkClaim "" "" "" "" 0 "") [] "" 0 0
  end.
Definition w_sa : Store := w_turn_claim.2.
Definition w_tio : TurnIO :=
  mkTurnIO (w_now + 6) true (w_now + 7) (fun _ => true) true (w_now + 8) io_ok (w_now + 9).
Definition w_turn := worker_settle w_wconfig w_sa w_stats w_dl w_tio.

Lemma worker_acks_witness :
  w_delivered w_turn.1 = 1 /\
  exists r, deliveries (db w_sa) !! claim_key (dl_Claim w_dl) = Some r.
Proof.
  split; [vm_compute; reflexivity|].
  destruct (worker_acks_only_accepted_in_lease w_wconfig w_sa w_turn.2 w_stats w_turn.1 w_dl w_tio)
    as (_ & _ & _ & _ & _ & _ & r & Hr & _).
  - apply surjective_pairing.
  - vm_compute. discriminate.
  - exists r. exact Hr.
Defined.

Lemma worker_turn_witness : exists settled, w_turn.1 = turn_counter true settled w_stats.
Proof.
  destruct (worker_turn_settles_once w_wconfig w_sa w_turn.2 w_stats w_turn.1 w_dl w_tio
    (surjective_pairing _)) as (settled & Hs & _).
  exists settled. exact Hs.
Defined.
End WorkerWitness.
