(* ===== verification/Ledger.v ===== *)
(** * The text bridge ledger (src/internal/textbridge/ledger)

    [Ledger] models ledger.go and budget.go over their three SQLite tables: the
    jobs of the bridge (one per ASK), the sealed provider budget and the sealed
    binding. Every row is sealed under associated data that names its key,
    revision, phase and revocation. [replace] reads and writes in two statements,
    so the machine of [LedgerInv] keeps the patches in flight between them.

    Outside the model: normalizeBinding (net/url), the directory, key file and
    PRAGMA handling of Open. *)
From Stdlib Require Import Ascii Strings.Byte ZArith Lia.
From S2P Require Import Prelude GoStrings FabricRef Framing Wire FabricModel SqlTx.
#[local] Open Scope Z_scope.

(** crypto/cipher.AEAD. *)
Class Aead := {
  NonceSize : nat;
  aead_Seal : list byte -> list byte -> list byte -> list byte;          (** nonce, plaintext, data *)
  aead_Open : list byte -> list byte -> list byte -> option (list byte); (** nonce, ciphertext, data *)
}.
Class AeadLaws (A : Aead) : Prop := {
  aead_open_seal nonce plain aad : length nonce = NonceSize ->
    aead_Open nonce (aead_Seal nonce plain aad) aad = Some plain;
}.

Module Calendar.
Import Rfc3339.

(** The civil date of a number of days since 1970-01-01. *)
Definition civil_from_days (days : Z) : Z * Z * Z :=
  let z := days + 719468 in
  let era := z / 146097 in
  let doe := z - era * 146097 in
  let yoe := (doe - doe / 1460 + doe / 36524 - doe / 146096) / 365 in
  let doy := doe - (365 * yoe + yoe / 4 - yoe / 100) in
  let mp := (5 * doy + 2) / 153 in
  let d := doy - (153 * mp + 2) / 5 + 1 in
  let m := if mp <? 10 then mp + 3 else mp - 9 in
  (yoe + era * 400 + (if m <=? 2 then 1 else 0), m, d).

Definition digit (d : Z) : ascii := ascii_of_N (Z.to_N (48 + d)).

(** [width] decimal digits of [n], most significant first. *)
Fixpoint pad (width : nat) (n : Z) : string :=
  match width with
  | O => ""
  | S w => String (digit (n / 10 ^ Z.of_nat w mod 10)) (pad w n)
  end.

(** Format("2006-01-02") of a date. *)
Definition format_year (y : Z) : string :=
  (if y <? 0 then "-" else "") ++
  (if Z.abs y <=? 9999 then pad 4 (Z.abs y) else Handle.print_uint (Z.abs y)).
Definition format_date (ymd : Z * Z * Z) : string :=
  let '(y, m, d) := ymd in format_year y ++ "-" ++ pad 2 m ++ "-" ++ pad 2 d.

(** time.Parse("2006-01-02"). *)
Definition parse_date (s : string) : option (Z * Z * Z) :=
  '(y, s) ← digits 4 0 s; s ← lit "-" s;
  '(m, s) ← digits 2 0 s; s ← lit "-" s;
  '(d, s) ← digits 2 0 s;
  if (1 <=? m) && (m <=? 12) && (1 <=? d) && (d <=? days_in y m) && str_eqb s ""
  then Some (y, m, d) else None.

(** now.UTC().Format("2006-01-02") *)
Definition utc_day (now : Time) : string := format_date (civil_from_days (now / (24 * time_Hour))).

Example utc_day_leap : utc_day (1709210096 * 10 ^ 9) = "2024-02-29".
Proof. reflexivity. Qed.
Example utc_day_before_epoch : utc_day (-1) = "1969-12-31".
Proof. reflexivity. Qed.
Example parse_date_leap : parse_date "2024-02-29" = Some (2024, 2, 29) /\ parse_date "2023-02-29" = None.
Proof. split; reflexivity. Qed.
End Calendar.

Module Ledger.
Import Calendar.

(** A Phase is a string (PhaseAdmitted is the constant "admitted"); [OtherPhase] stands for every text that is not one of
    the constants. *)
Inductive Phase :=
| Queued | ProviderStarted | OutputReady | ReplyPreparing | ReplyPrepared | PhaseAdmitted | Unknown | Rejected
| OtherPhase (s : string).
#[export] Instance phase_eq_dec : EqDecision Phase.
Proof. solve_decision. Defined.

Inductive LedgerErr :=
| ErrConflict | ErrStale (reason : string) | ErrInvalid | ErrLimit (limit : string) | ErrDisabled
| ErrNoRows | ErrAuthentication | ErrJson | ErrIO.
#[export] Instance ledger_err_eq_dec : EqDecision LedgerErr.
Proof. solve_decision. Defined.

Record Binding := mkBinding { ServiceOrigin : string; PrincipalID : string; ProjectContract : string }.

Record Data := mkData {
  dt_Header : list byte; dt_PredecessorWire : list byte; dt_WireDigest : string; dt_Input : list byte;
  dt_ProviderConfigFingerprint : string; dt_Output : list byte; dt_ReplyID : string;
  dt_ReplyDigest : string; dt_Receipt : list byte }.
#[export] Instance data_eq_dec : EqDecision Data.
Proof. solve_decision. Defined.

Record Job := mkJob {
  j_ProjectID : string; j_AskID : string; j_Revision : Z; j_Phase : Phase; j_Revoked : bool; j_Data : Data }.

Record Limits := mkLimits { CallsPerDay : Z; MaxConcurrent : Z }.
#[export] Instance limits_eq_dec : EqDecision Limits.
Proof. solve_decision. Defined.

(** A provider claim is the pair of a project and an ASK, as is a job's key. *)
Notation JobKey := (string * string)%type (only parsing).

Record budgetState := mkBudget {
  b_Limits : Limits; b_Enabled : bool; b_Day : string; b_Calls : Z; b_Active : gmap string JobKey }.

Record Store := mkLedgerStore { st_binding : Binding; st_limits : Limits }.

(** The tables. *)
Record JobRow := mkJobRow { jr_revision : Z; jr_phase : Phase; jr_revoked : bool; jr_sealed : list byte }.
Record LDB := mkLDB {
  binding_sealed : list byte; budget_revision : Z; budget_sealed : list byte; jobs : gmap JobKey JobRow }.

(** encoding/json of what the ledger seals and authenticates. *)
Class LedgerJson := {
  json_Valid : list byte -> bool;
  marshal_binding : Binding -> list byte;
  marshal_job_aad : Binding -> JobKey -> Z -> Phase -> bool -> list byte;
  marshal_budget_aad : string -> Binding -> Z -> list byte;
  marshal_data : Data -> option (list byte);
  unmarshal_data : list byte -> option Data;
  marshal_budget : budgetState -> option (list byte);
  unmarshal_budget : list byte -> option budgetState;
}.

Section ledger.
Context `{Sha256, Aead, LedgerJson}.

(** rand.Read of a nonce; [None] when the source fails. *)
Definition seal (rand : option (list byte)) (plain aad : list byte) : result LedgerErr (list byte) :=
  match rand with
  | None => Err ErrIO
  | Some raw => let nonce := resize NonceSize x00 raw in Ok (nonce ++ aead_Seal nonce plain aad)
  end.

Definition unseal (sealed aad : list byte) : result LedgerErr (list byte) :=
  let? _ := guard (negb (blen sealed <? Z.of_nat NonceSize)) ErrInvalid in
  of_option (aead_Open (take NonceSize sealed) (drop NonceSize sealed) aad) ErrAuthentication.

Definition validPhase (p : Phase) : bool := match p with OtherPhase _ => false | _ => true end.

Definition validDigest (s : string) : bool :=
  match hex_decode s with Some b => blen b =? 32 | None => false end.

Definition validData (d : Data) : bool :=
  (0 <? blen (dt_PredecessorWire d)) &&
  str_eqb (dt_WireDigest d) (hex_encode (sha256 (dt_PredecessorWire d))) &&
  json_Valid (dt_Header d) && ((blen (dt_Receipt d) =? 0) || json_Valid (dt_Receipt d)) &&
  (str_eqb (dt_ReplyDigest d) "" || validDigest (dt_ReplyDigest d)).

Definition job_ok (j : Job) : bool :=
  negb (str_eqb (j_ProjectID j) "" || str_eqb (j_AskID j) "" || (j_Revision j <? 1) ||
        negb (validPhase (j_Phase j)) || negb (validData (j_Data j))).

Definition jobAAD (s : Store) (j : Job) : list byte :=
  marshal_job_aad (st_binding s) (j_ProjectID j, j_AskID j) (j_Revision j) (j_Phase j) (j_Revoked j).

Definition encode (s : Store) (rand : option (list byte)) (j : Job) : result LedgerErr (list byte) :=
  let? _ := guard (job_ok j) ErrInvalid in
  let? p := of_option (marshal_data (j_Data j)) ErrJson in
  seal rand p (jobAAD s j).

Definition empty_data : Data := mkData [] [] "" [] "" [] "" "" [].

Definition scan (s : Store) (k : JobKey) (row : JobRow) : result LedgerErr Job :=
  let j := mkJob k.1 k.2 (jr_revision row) (jr_phase row) (jr_revoked row) empty_data in
  let? p := unseal (jr_sealed row) (jobAAD s j) in
  let? d := of_option (unmarshal_data p) ErrJson in
  let j := mkJob k.1 k.2 (jr_revision row) (jr_phase row) (jr_revoked row) d in
  let? _ := guard (job_ok j) ErrInvalid in
  Ok j.

(** One autocommitted SELECT; [io] tells whether the statement ran. *)
Definition Get (s : Store) (io : bool) (d : LDB) (projectID askID : string) : result LedgerErr Job :=
  if io then
    match jobs d !! (projectID, askID) with
    | None => Err ErrNoRows
    | Some row => scan s (projectID, askID) row
    end
  else Err ErrIO.

Fixpoint scan_all (s : Store) (rows : list (JobKey * JobRow)) : result LedgerErr (list Job) :=
  match rows with
  | [] => Ok []
  | (k, row) :: rows' =>
      let? j := scan s k row in
      let? js := scan_all s rows' in
      Ok (j :: js)
  end.

Definition job_order (k : JobKey) (_ : JobRow) : Z * (string * string) := (0, k).

Definition List_ (s : Store) (io : bool) (d : LDB) (phases : list Phase) : result LedgerErr (list Job) :=
  let? _ := guard (forallb validPhase phases) ErrInvalid in
  if io then
    let? js := scan_all s (select_rows (by_key job_order) (fun _ _ => true) (jobs d)) in
    Ok (List.filter (fun j => Nat.eqb (length phases) 0 || bool_decide (j_Phase j ∈ phases)) js)
  else Err ErrIO.

Definition set_jobs (d : LDB) (js : gmap JobKey JobRow) : LDB :=
  mkLDB (binding_sealed d) (budget_revision d) (budget_sealed d) js.

Definition job_row (j : Job) (sealed : list byte) : JobRow :=
  mkJobRow (j_Revision j) (j_Phase j) (j_Revoked j) sealed.
Definition job_key (j : Job) : JobKey := (j_ProjectID j, j_AskID j).

(** ** Insert *)
(** [out] is the fate of the INSERT, [later] the tables when the second
    statement reads them. *)
Definition Insert (s : Store) (rand : option (list byte)) (out : commit_outcome) (io : bool)
    (d later : LDB) (projectID askID : string) (x : Data) : result LedgerErr Job * LDB :=
  let j := mkJob projectID askID 1 Queued false x in
  match encode s rand j with
  | Err e => (Err e, d)
  | Ok sealed =>
      let k := (projectID, askID) in
      let '(d', inserted) :=
        match jobs d !! k with
        | Some _ => (d, false)
        | None => (set_jobs d (<[k := job_row j sealed]> (jobs d)), true)
        end in
      match out with
      | CommitLost => (Err ErrIO, d)
      | CommitUnknown => (Err ErrIO, d')
      | Committed =>
          if inserted then (Ok j, d')
          else (let? old := Get s io later projectID askID in
                let? _ := guard (str_eqb (dt_WireDigest (j_Data old)) (dt_WireDigest x)) ErrConflict in
                Ok old, d')
      end
  end.

(** ** CompareAndSwap and Revoke *)
Definition allowed (from to : Phase) : bool :=
  if bool_decide (from = PhaseAdmitted) || bool_decide (from = Unknown) || bool_decide (from = Rejected) then false
  else if bool_decide (to = Unknown) then true
  else match from with
       | Queued => bool_decide (to = ProviderStarted) || bool_decide (to = Rejected)
       | ProviderStarted => bool_decide (to = OutputReady)
       | OutputReady => bool_decide (to = ReplyPreparing)
       | ReplyPreparing => bool_decide (to = ReplyPrepared)
       | ReplyPrepared => bool_decide (to = PhaseAdmitted)
       | _ => false
       end.

(** bytes.TrimSpace on ASCII white space (a receipt with any other white space
    is not JSON and is refused by [encode] with the same error). *)
Definition is_space (b : byte) : bool :=
  let n := Z.of_N (Byte.to_N b) in (n =? 32) || ((9 <=? n) && (n <=? 13)).
Fixpoint trim_left (b : list byte) : list byte :=
  match b with
  | [] => []
  | x :: b' => if is_space x then trim_left b' else b
  end.
Definition TrimSpace (b : list byte) : list byte := rev (trim_left (rev (trim_left b))).

(** What [replace] holds between its two statements. *)
Record Patch := mkPatch { pt_stored : Job; pt_job : Job; pt_sealed : list byte }.

Definition set_data (j : Job) (d : Data) : Job :=
  mkJob (j_ProjectID j) (j_AskID j) (j_Revision j) (j_Phase j) (j_Revoked j) d.

Definition same_ask (a b : Data) : bool :=
  str_eqb (dt_WireDigest a) (dt_WireDigest b) &&
  bool_decide (dt_PredecessorWire a = dt_PredecessorWire b) && bool_decide (dt_Header a = dt_Header b) &&
  bool_decide (dt_Input a = dt_Input b) &&
  str_eqb (dt_ProviderConfigFingerprint a) (dt_ProviderConfigFingerprint b).

Definition replace_read (s : Store) (rand : option (list byte)) (io : bool) (d : LDB) (expected j : Job) :
    result LedgerErr Patch :=
  let? stored := Get s io d (j_ProjectID expected) (j_AskID expected) in
  let? _ := guard ((j_Revision stored =? j_Revision expected) &&
                   bool_decide (j_Phase stored = j_Phase expected) &&
                   Bool.eqb (j_Revoked stored) (j_Revoked expected)) (ErrStale "") in
  let? _ := guard (same_ask (j_Data j) (j_Data stored)) ErrInvalid in
  let? _ := guard (negb (j_Revoked expected &&
                     (str_eqb (dt_ReplyID (j_Data stored)) "" ||
                      negb (str_eqb (dt_ReplyID (j_Data j)) (dt_ReplyID (j_Data stored))) ||
                      negb (str_eqb (dt_ReplyDigest (j_Data j)) (dt_ReplyDigest (j_Data stored)))))) ErrInvalid in
  let j := if j_Revoked j && negb (j_Revoked expected) then set_data j (j_Data stored) else j in
  let? sealed := encode s rand j in
  Ok (mkPatch stored j sealed).

(** UPDATE ... WHERE key, revision, phase and revoked are the expected ones,
    which [replace_read] found equal to the stored ones. *)
Definition row_matches (j : Job) (r : JobRow) : bool :=
  (jr_revision r =? j_Revision j) && bool_decide (jr_phase r = j_Phase j) &&
  Bool.eqb (jr_revoked r) (j_Revoked j).

Definition replace_write (out : commit_outcome) (d : LDB) (p : Patch) : result LedgerErr Job * LDB :=
  let k := job_key (pt_job p) in
  let affected := match jobs d !! k with Some r => row_matches (pt_stored p) r | None => false end in
  let d' := if affected then set_jobs d (<[k := job_row (pt_job p) (pt_sealed p)]> (jobs d)) else d in
  match out with
  | CommitLost => (Err ErrIO, d)
  | CommitUnknown => (Err ErrIO, d')
  | Committed => if affected then (Ok (pt_job p), d') else (Err (ErrStale ""), d')
  end.

Definition CompareAndSwap (s : Store) (rand : option (list byte)) (io : bool) (d : LDB)
    (expected : Job) (next : Phase) (x : Data) : result LedgerErr Patch :=
  let? _ := guard (negb (bool_decide (next = ProviderStarted) ||
                         bool_decide (j_Phase expected = ProviderStarted))) ErrInvalid in
  let? _ := guard (negb (j_Revoked expected &&
                     (negb (bool_decide (j_Phase expected = ReplyPrepared)) ||
                      negb (bool_decide (next = PhaseAdmitted)) || (blen (dt_Receipt x) =? 0) ||
                      bool_decide (TrimSpace (dt_Receipt x) = bytes_of "null")))) ErrInvalid in
  let? _ := guard (allowed (j_Phase expected) next &&
                   str_eqb (dt_WireDigest x) (dt_WireDigest (j_Data expected))) ErrInvalid in
  replace_read s rand io d expected
    (mkJob (j_ProjectID expected) (j_AskID expected) (wrap64 (j_Revision expected + 1)) next
       (j_Revoked expected) x).

Definition Revoke (s : Store) (rand : option (list byte)) (io : bool) (d : LDB) (expected : Job) :
    result LedgerErr Patch :=
  let? _ := guard (negb (j_Revoked expected)) ErrInvalid in
  replace_read s rand io d expected
    (mkJob (j_ProjectID expected) (j_AskID expected) (wrap64 (j_Revision expected + 1)) (j_Phase expected)
       true (j_Data expected)).

(** ** The provider budget *)
Definition limits_valid (l : Limits) : bool := (0 <? CallsPerDay l) && (0 <? MaxConcurrent l).

Definition budgetAAD (s : Store) (revision : Z) : list byte :=
  marshal_budget_aad "text-bridge-provider-budget-v1" (st_binding s) revision.

Definition encodeBudget (s : Store) (rand : option (list byte)) (revision : Z) (b : budgetState) :
    result LedgerErr (list byte) :=
  let? p := of_option (marshal_budget b) ErrJson in
  seal rand p (budgetAAD s revision).

Definition day_ok (b : budgetState) : bool :=
  if str_eqb (b_Day b) "" then (b_Calls b =? 0) && Nat.eqb (size (b_Active b)) 0
  else match parse_date (b_Day b) with
       | Some ymd => str_eqb (format_date ymd) (b_Day b)
       | None => false
       end.

Definition claims_ok (b : budgetState) : bool :=
  forallb (fun tc => validDigest tc.1 && negb (str_eqb tc.2.1 "") && negb (str_eqb tc.2.2 ""))
    (map_to_list (b_Active b)) &&
  bool_decide (NoDup (map_to_list (b_Active b)).*2).

Definition budget_ok (s : Store) (revision : Z) (b : budgetState) : bool :=
  negb ((revision <? 1) || negb (bool_decide (b_Limits b = st_limits s)) || negb (limits_valid (b_Limits b)) ||
        (b_Calls b <? 0) || (CallsPerDay (b_Limits b) <? b_Calls b) ||
        (MaxConcurrent (b_Limits b) <? Z.of_nat (size (b_Active b)))).

Definition open_budget (s : Store) (revision : Z) (sealed : list byte) : result LedgerErr (Z * budgetState) :=
  let? p := unseal sealed (budgetAAD s revision) in
  let? b := of_option (unmarshal_budget p) ErrJson in
  let? _ := guard (budget_ok s revision b && day_ok b && claims_ok b) ErrInvalid in
  Ok (revision, b).

Notation tx := (Tx LDB LedgerErr).

Definition readBudget (s : Store) : tx (Z * budgetState) :=
  let! '(revision, sealed) := tx_query ErrIO (fun d => (budget_revision d, budget_sealed d)) in
  tx_lift (open_budget s revision sealed).

Definition writeBudget (s : Store) (rand : option (list byte)) (revision : Z) (b : budgetState) : tx unit :=
  let! sealed := tx_lift (encodeBudget s rand (wrap64 (revision + 1)) b) in
  tx_exec ErrIO (fun d => Some (mkLDB (binding_sealed d) (wrap64 (revision + 1)) sealed (jobs d))).

Definition read_job (s : Store) (k : JobKey) : tx Job :=
  let! row := tx_query ErrIO (fun d => jobs d !! k) in
  match row with
  | None => tx_err ErrNoRows
  | Some row => tx_lift (scan s k row)
  end.

Definition writeProviderJob (s : Store) (rand : option (list byte)) (j : Job) : tx unit :=
  let! sealed := tx_lift (encode s rand j) in
  tx_exec ErrIO (fun d => Some (set_jobs d (alter (fun _ => job_row j sealed) (job_key j) (jobs d)))).

Definition set_enabled (b : budgetState) (enabled : bool) : budgetState :=
  mkBudget (b_Limits b) enabled (b_Day b) (b_Calls b) (b_Active b).

Definition set_enabled_tx (s : Store) (rand : option (list byte)) (enabled : bool) : tx (finish unit) :=
  let! '(revision, b) := readBudget s in
  let! _ := writeBudget s rand revision (set_enabled b enabled) in
  tx_ret (Commit tt).

(** [immediate] is [run_tx]: BEGIN IMMEDIATE, the body, COMMIT, a deferred
    ROLLBACK. *)
Definition SetEnabled (s : Store) (io : TxIO) (rand : option (list byte)) (d : LDB) (enabled : bool) :
    result LedgerErr unit * LDB :=
  run_tx ErrIO io d (set_enabled_tx s rand enabled).

(** Roll the usage day forward, never back. *)
Definition roll_day (b : budgetState) (day : string) : budgetState :=
  if str_lt (b_Day b) day then mkBudget (b_Limits b) (b_Enabled b) day 0 (b_Active b) else b.

(** Three draws of randomness: the token, the job's and the budget's nonce. *)
Record ClaimRand := mkClaimRand {
  rd_token : option (list byte); rd_job : option (list byte); rd_budget : option (list byte) }.

Definition claim_provider_tx (s : Store) (rd : ClaimRand) (expected : Job) (now : Time) :
    tx (finish (Job * string)) :=
  let! '(revision, b) := readBudget s in
  let! _ := tx_guard (b_Enabled b) ErrDisabled in
  let! j := read_job s (job_key expected) in
  let! _ := tx_guard ((j_Revision j =? j_Revision expected) && bool_decide (j_Phase j = j_Phase expected) &&
                      Bool.eqb (j_Revoked j) (j_Revoked expected)) (ErrStale "job revision") in
  let! _ := tx_guard (bool_decide (j_Phase j = Queued) && negb (j_Revoked j)) ErrInvalid in
  let day := utc_day now in
  let! _ := tx_guard (match parse_date day with Some _ => true | None => false end) ErrInvalid in
  let! _ := tx_guard (negb (str_lt day (b_Day b))) (ErrStale "UTC day rollback") in
  let b := roll_day b day in
  let! _ := tx_guard (b_Calls b <? CallsPerDay (b_Limits b)) (ErrLimit "calls per UTC day") in
  let! _ := tx_guard (Z.of_nat (size (b_Active b)) <? MaxConcurrent (b_Limits b)) (ErrLimit "concurrent calls") in
  let! raw := tx_lift (of_option (rd_token rd) ErrIO) in
  let token := hex_encode (resize 32 x00 raw) in
  let! _ := tx_guard (match b_Active b !! token with Some _ => false | None => true end) ErrInvalid in
  let b := mkBudget (b_Limits b) (b_Enabled b) (b_Day b) (b_Calls b + 1)
             (<[token := job_key j]> (b_Active b)) in
  let j := mkJob (j_ProjectID j) (j_AskID j) (wrap64 (j_Revision j + 1)) ProviderStarted (j_Revoked j) (j_Data j) in
  let! _ := writeProviderJob s (rd_job rd) j in
  let! _ := writeBudget s (rd_budget rd) revision b in
  tx_ret (Commit (j, token)).

Definition ClaimProvider (s : Store) (io : TxIO) (rd : ClaimRand) (d : LDB) (expected : Job) (now : Time) :
    result LedgerErr (Job * string) * LDB :=
  run_tx ErrIO io d (claim_provider_tx s rd expected now).

(** The token of a claim; the claims are distinct, so it does not depend on
    the order in which the map is ranged over. *)
Definition find_token (b : budgetState) (k : JobKey) : option string :=
  match list_find (fun tc => tc.2 = k) (map_to_list (b_Active b)) with
  | Some (_, (token, _)) => Some token
  | None => None
  end.

Definition abandon_tx (s : Store) (rj rb : option (list byte)) (projectID askID : string)
    (expectedRevision : Z) : tx (finish Job) :=
  let! '(revision, b) := readBudget s in
  let! _ := tx_guard (negb (b_Enabled b)) ErrInvalid in
  let! j := read_job s (projectID, askID) in
  let! _ := tx_guard (j_Revision j =? expectedRevision) (ErrStale "job revision") in
  let! _ := tx_guard (bool_decide (j_Phase j = Unknown) || bool_decide (j_Phase j = ProviderStarted)) ErrInvalid in
  let! token := tx_lift (of_option (find_token b (projectID, askID)) (ErrStale "claim unavailable")) in
  let b := mkBudget (b_Limits b) (b_Enabled b) (b_Day b) (b_Calls b) (delete token (b_Active b)) in
  let! j' := (if bool_decide (j_Phase j = ProviderStarted) then
                let j' := mkJob (j_ProjectID j) (j_AskID j) (wrap64 (j_Revision j + 1)) Unknown
                            (j_Revoked j) (j_Data j) in
                let! _ := writeProviderJob s rj j' in tx_ret j'
              else tx_ret j) in
  let! _ := writeBudget s rb revision b in
  tx_ret (Commit j').

Definition AbandonProviderClaim (s : Store) (io : TxIO) (rj rb : option (list byte)) (d : LDB)
    (projectID askID : string) (expectedRevision : Z) : result LedgerErr Job * LDB :=
  run_tx ErrIO io d (abandon_tx s rj rb projectID askID expectedRevision).

Definition set_output (d : Data) (output : list byte) : Data :=
  mkData (dt_Header d) (dt_PredecessorWire d) (dt_WireDigest d) (dt_Input d)
    (dt_ProviderConfigFingerprint d) output (dt_ReplyID d) (dt_ReplyDigest d) (dt_Receipt d).

Definition finish_provider_tx (s : Store) (rj rb : option (list byte)) (projectID askID token : string)
    (output : list byte) (succeeded : bool) : tx (finish Job) :=
  let k := (projectID, askID) in
  let! '(revision, b) := readBudget s in
  let! _ := tx_guard (bool_decide (b_Active b !! token = Some k)) (ErrStale "claim token") in
  let! j := read_job s k in
  let! _ := tx_guard (bool_decide (j_Phase j = ProviderStarted)) (ErrStale "provider already finished") in
  let! _ := tx_guard (negb (succeeded && (blen output =? 0))) ErrInvalid in
  let j := mkJob (j_ProjectID j) (j_AskID j) (wrap64 (j_Revision j + 1))
             (if succeeded then OutputReady else Unknown) (j_Revoked j)
             (if succeeded then set_output (j_Data j) output else j_Data j) in
  let b := if succeeded
           then mkBudget (b_Limits b) (b_Enabled b) (b_Day b) (b_Calls b) (delete token (b_Active b)) else b in
  let! _ := writeProviderJob s rj j in
  let! _ := writeBudget s rb revision b in
  tx_ret (Commit j).

Definition FinishProvider (s : Store) (io : TxIO) (rj rb : option (list byte)) (d : LDB)
    (projectID askID token : string) (output : list byte) (succeeded : bool) : result LedgerErr Job * LDB :=
  run_tx ErrIO io d (finish_provider_tx s rj rb projectID askID token output succeeded).

(** ** BudgetSnapshot *)
Record BudgetStatus := mkBudgetStatus {
  bs_Limits : Limits; bs_Enabled : bool; bs_CurrentUTCDay : string; bs_HighWaterDay : string;
  bs_Used : Z; bs_Active : list JobKey }.

Definition claim_order (_ : string) (c : JobKey) : Z * (string * string) := (0, c).

Definition BudgetSnapshot (s : Store) (io : TxIO) (d : LDB) (now : Time) : result LedgerErr BudgetStatus :=
  let? rb := run_read io d (readBudget s) in
  let b := rb.2 in
  let day := utc_day now in
  Ok (mkBudgetStatus (b_Limits b) (b_Enabled b) day (b_Day b)
        (if str_lt (b_Day b) day then 0 else b_Calls b)
        (select_rows (by_key claim_order) (fun _ _ => true) (b_Active b)).*2).

(** ** openDatabase: initialization and the authentication of an existing ledger *)
Definition bindingAAD : list byte := bytes_of "text-bridge-ledger-binding-v1".

Definition initial_budget (limits : Limits) : budgetState := mkBudget limits true "" 0 ∅.

Definition initialize (s : Store) (r1 r2 : option (list byte)) : result LedgerErr LDB :=
  let? sealed := seal r1 (marshal_binding (st_binding s)) bindingAAD in
  let? budgetSealed := encodeBudget s r2 1 (initial_budget (st_limits s)) in
  Ok (mkLDB sealed 1 budgetSealed ∅).

Definition authenticate (s : Store) (d : LDB) : result LedgerErr unit :=
  let? plain := unseal (binding_sealed d) bindingAAD in
  let? _ := guard (bool_decide (plain = marshal_binding (st_binding s))) ErrInvalid in
  let? _ := run_read io_ok d (readBudget s) in
  let? _ := List_ s true d [] in
  Ok tt.
End ledger.
End Ledger.
