(* ===== verification/LedgerInv.v ===== *)
(** * The ledger refines an abstract job machine

    [LedgerSpec] is the contract: a map of jobs and a budget in the clear, with
    the moves a job may make. [LedgerRefine] proves that every operation of
    [Ledger], under any statement and commit faults and any interleaving of the
    two halves of CompareAndSwap and Revoke, is a move of that machine, and that
    the ledger authenticates in every reachable state. *)
From Stdlib Require Import Ascii Strings.Byte ZArith Lia.
From S2P Require Import Prelude GoStrings FabricRef Framing SqlTx Ledger.
#[local] Open Scope Z_scope.
#[local] Arguments str_eqb _ _ : simpl never.
#[local] Arguments Z.ltb _ _ : simpl never.

(** ** Dates and tokens *)
Module CalendarLemmas.
Import Rfc3339 Calendar.

Lemma digit_code x : 0 <= x < 10 -> code (digit x) = 48 + x.
Proof.
  intros Hx. assert (In x [0;1;2;3;4;5;6;7;8;9]) as Hin by (simpl; lia).
  simpl in Hin. repeat destruct Hin as [<-|Hin]; try done.
Qed.

Lemma digit_of_code c : is_digit c = true -> digit (code c - 48) = c /\ 0 <= code c - 48 < 10.
Proof.
  unfold is_digit, between. rewrite andb_true_iff, !Z.leb_le. intros Hc. split; [|lia].
  unfold digit, code in *. replace (Z.to_N (48 + (Z.of_N (N_of_ascii c) - 48))) with (N_of_ascii c) by lia.
  apply ascii_N_embedding.
Qed.

Lemma pad_low w n k : pad w (n + k * 10 ^ Z.of_nat w) = pad w n.
Proof.
  revert n k. induction w as [|w IH]; intros n k; [done|]. cbn [pad].
  replace (10 ^ Z.of_nat (S w)) with (10 ^ Z.of_nat w * 10) by (rewrite Nat2Z.inj_succ, Z.pow_succ_r; lia).
  assert (0 < 10 ^ Z.of_nat w) by (apply Z.pow_pos_nonneg; lia).
  f_equal.
  - f_equal. replace (n + k * (10 ^ Z.of_nat w * 10)) with (n + (k * 10) * 10 ^ Z.of_nat w) by ring.
    rewrite Z.div_add by lia. apply Z_mod_plus_full.
  - rewrite <- (IH n (k * 10)). f_equal. ring.
Qed.

Lemma digits_pad n : forall acc s v rest, digits n acc s = Some (v, rest) ->
  exists u, 0 <= u < 10 ^ Z.of_nat n /\ v = acc * 10 ^ Z.of_nat n + u /\ s = (pad n u ++ rest)%string.
Proof.
  induction n as [|n IH]; intros acc s v rest Hd; cbn [digits] in Hd.
  - simplify_eq. exists 0. split; [lia|]. split; [lia|done].
  - destruct s as [|c s]; [done|]. destruct (is_digit c) eqn:Ec; [|done].
    destruct (IH _ _ _ _ Hd) as (u & Hu & -> & ->). destruct (digit_of_code c Ec) as [Hc Hr].
    assert (0 < 10 ^ Z.of_nat n) by (apply Z.pow_pos_nonneg; lia).
    exists ((code c - 48) * 10 ^ Z.of_nat n + u). rewrite Nat2Z.inj_succ, Z.pow_succ_r by lia.
    split; [nia|]. split; [ring|]. cbn [pad String.append]. f_equal.
    + rewrite <- Hc at 1. f_equal. rewrite Z.add_comm, Z.div_add by lia. rewrite Z.div_small by lia.
      rewrite Z.add_0_l. symmetry. apply Z.mod_small. lia.
    + by rewrite Z.add_comm, pad_low.
Qed.

Lemma lit_Some c s t : lit c s = Some t -> s = String c t.
Proof.
  destruct s as [|d s]; [done|]. cbn. destruct (ceq c d) eqn:E; [|done].
  apply ceq_eq in E as ->. by intros [= ->].
Qed.

(** Every date the layout parses prints back to the same text. *)
Lemma parse_format s ymd : parse_date s = Some ymd -> format_date ymd = s.
Proof.
  unfold parse_date. intros Hp.
  apply bind_Some in Hp as ([y s1] & Ey & Hp). apply bind_Some in Hp as (s2 & E1 & Hp).
  apply bind_Some in Hp as ([m s3] & Em & Hp). apply bind_Some in Hp as (s4 & E2 & Hp).
  apply bind_Some in Hp as ([d s5] & Ed & Hp).
  destruct (_ && str_eqb s5 "") eqn:Eok; [|done]. injection Hp as <-.
  apply andb_true_iff in Eok as [_ ->%str_eqb_eq].
  apply digits_pad in Ey as (uy & Huy & -> & ->). apply digits_pad in Em as (um & Hum & -> & ->).
  apply digits_pad in Ed as (ud & Hud & -> & ->). apply lit_Some in E1 as ->. apply lit_Some in E2 as ->.
  cbn [Z.mul]. unfold format_date, format_year. rewrite !Z.add_0_l.
  replace (uy <? 0) with false by lia. rewrite Z.abs_eq by lia.
  change (10 ^ Z.of_nat 4) with 10000 in Huy. replace (uy <=? 9999) with true by lia.
  by rewrite append_nil_r.
Qed.

(** ASCII text. *)
Definition is_ascii (c : ascii) : bool := code c <? 128.

Lemma ascii_utf8 s : str_forallb is_ascii s = true -> utf8_valid s = true.
Proof.
  induction s as [|c s IH]; [done|]. cbn [str_forallb]. rewrite andb_true_iff. intros [Hc Hs].
  unfold is_ascii in Hc. cbn [utf8_valid]. rewrite Hc. by apply IH.
Qed.

Lemma hex_digit_ascii n : (n < 16)%N -> is_ascii (hex_digit n) = true.
Proof.
  intros Hn. assert (In n [0;1;2;3;4;5;6;7;8;9;10;11;12;13;14;15]%N) as Hin by (simpl; lia).
  simpl in Hin. repeat destruct Hin as [<-|Hin]; try done.
Qed.

Lemma hex_ascii b : str_forallb is_ascii (hex_encode b) = true.
Proof.
  induction b as [|x b IH]; [done|]. cbn [hex_encode str_forallb].
  pose proof (to_N_lt x). rewrite IH, !hex_digit_ascii; [done| |].
  - apply N.mod_lt. lia.
  - apply N.Div0.div_lt_upper_bound. lia.
Qed.

Lemma hex_value_digit n : (n < 16)%N -> hex_value (hex_digit n) = Some n.
Proof.
  intros Hn. assert (In n [0;1;2;3;4;5;6;7;8;9;10;11;12;13;14;15]%N) as Hin by (simpl; lia).
  simpl in Hin. repeat destruct Hin as [<-|Hin]; try done.
Qed.

Lemma hex_round b : hex_decode (hex_encode b) = Some b.
Proof.
  induction b as [|x b IH]; [done|]. cbn [hex_encode hex_decode]. pose proof (to_N_lt x).
  rewrite !hex_value_digit, IH.
  - rewrite <- N.div_mod by lia. by rewrite Byte.of_to_N.
  - apply N.mod_lt. lia.
  - apply N.Div0.div_lt_upper_bound. lia.
Qed.

Lemma pad_ascii w n : str_forallb is_ascii (pad w n) = true.
Proof.
  induction w as [|w IH]; [done|]. cbn [pad str_forallb]. rewrite IH. unfold is_ascii.
  rewrite digit_code by (apply Z.mod_pos_bound; lia).
  pose proof (Z.mod_pos_bound (n / 10 ^ Z.of_nat w) 10). rewrite andb_true_r. lia.
Qed.

Lemma date_ascii s ymd : parse_date s = Some ymd -> str_forallb is_ascii s = true.
Proof.
  intros Hp. rewrite <- (parse_format _ _ Hp). destruct ymd as [[y m] d].
  assert (0 <= y < 10000) as Hy.
  { unfold parse_date in Hp. apply bind_Some in Hp as ([y' s1] & Ey & Hp).
    apply digits_pad in Ey as (uy & Huy & -> & _). change (10 ^ Z.of_nat 4) with 10000 in Huy.
    apply bind_Some in Hp as (s2 & _ & Hp). apply bind_Some in Hp as ([m' s3] & _ & Hp).
    apply bind_Some in Hp as (s4 & _ & Hp). apply bind_Some in Hp as ([d' s5] & _ & Hp).
    case_if; [|done]. simplify_eq. lia. }
  unfold format_date, format_year. replace (y <? 0) with false by lia. rewrite Z.abs_eq by lia.
  replace (y <=? 9999) with true by lia. cbn [String.append].
  repeat first [rewrite str_forallb_append | progress cbn [str_forallb]]. by rewrite !pad_ascii.
Qed.
End CalendarLemmas.

(** ** What the ledger relies on in encoding/json *)
Definition budget_utf8 (b : Ledger.budgetState) : Prop :=
  utf8_valid (Ledger.b_Day b) = true /\
  forall t k, Ledger.b_Active b !! t = Some k ->
    utf8_valid t = true /\ utf8_valid k.1 = true /\ utf8_valid k.2 = true.

(** A RawMessage comes back compacted (an empty one as "null"), a string with
    its invalid UTF-8 replaced, byte slices exactly. *)
Class LedgerJsonLaws (J : Ledger.LedgerJson) := {
  raw_message : list byte -> list byte;
  json_string : string -> string;
  raw_message_idem b : raw_message (raw_message b) = raw_message b;
  raw_message_valid b : Ledger.json_Valid b = true \/ b = [] -> Ledger.json_Valid (raw_message b) = true;
  json_string_valid t : utf8_valid (json_string t) = true;
  json_string_utf8 t : utf8_valid t = true -> json_string t = t;
  unmarshal_marshal_data d p : Ledger.marshal_data d = Some p ->
    Ledger.unmarshal_data p = Some
      (Ledger.mkData (raw_message (Ledger.dt_Header d)) (Ledger.dt_PredecessorWire d)
         (json_string (Ledger.dt_WireDigest d)) (Ledger.dt_Input d)
         (json_string (Ledger.dt_ProviderConfigFingerprint d)) (Ledger.dt_Output d)
         (json_string (Ledger.dt_ReplyID d)) (json_string (Ledger.dt_ReplyDigest d))
         (raw_message (Ledger.dt_Receipt d)));
  unmarshal_marshal_budget b p : budget_utf8 b -> Ledger.marshal_budget b = Some p ->
    Ledger.unmarshal_budget p = Some b;
}.

(** ** The contract *)
Module LedgerSpec.
Import Ledger.

Record AState := mkA { a_jobs : gmap JobKey Job; a_budget : budgetState }.

(** The part of a job that is fixed when its ASK is recorded. *)
Definition ask_of (d : Data) : string * list byte * list byte * list byte * string :=
  (dt_WireDigest d, dt_PredecessorWire d, dt_Header d, dt_Input d, dt_ProviderConfigFingerprint d).

(** The moves of CompareAndSwap and Revoke. *)
Inductive move (j j' : Job) : Prop :=
| mv_revoke : j_Revoked j = false -> j_Revoked j' = true -> j_Phase j' = j_Phase j -> j_Data j' = j_Data j ->
    move j j'
| mv_swap : j_Revoked j' = j_Revoked j -> allowed (j_Phase j) (j_Phase j') = true ->
    j_Phase j <> ProviderStarted -> j_Phase j' <> ProviderStarted ->
    (j_Revoked j = true -> j_Phase j = ReplyPrepared /\ j_Phase j' = PhaseAdmitted /\
       dt_ReplyID (j_Data j) <> "" /\ dt_ReplyID (j_Data j') = dt_ReplyID (j_Data j) /\
       dt_ReplyDigest (j_Data j') = dt_ReplyDigest (j_Data j)) ->
    move j j'.

Definition advance (j j' : Job) : Prop :=
  job_key j' = job_key j /\ j_Revision j' = j_Revision j + 1 /\ ask_of (j_Data j') = ask_of (j_Data j) /\
  move j j'.

Definition next_job (j : Job) (p : Phase) (d : Data) : Job :=
  mkJob (j_ProjectID j) (j_AskID j) (j_Revision j + 1) p (j_Revoked j) d.

Definition with_active (b : budgetState) (a : gmap string JobKey) : budgetState :=
  mkBudget (b_Limits b) (b_Enabled b) (b_Day b) (b_Calls b) a.

Definition charge (b : budgetState) (token : string) (k : JobKey) : budgetState :=
  mkBudget (b_Limits b) (b_Enabled b) (b_Day b) (b_Calls b + 1) (<[token := k]> (b_Active b)).

(** The label of a step: the day and the ASK of a provider call it admitted. *)
Notation label := (option (string * JobKey)).

Inductive astep (A : AState) : label -> AState -> Prop :=
| as_stutter : astep A None A
| as_insert k j : a_jobs A !! k = None -> job_key j = k -> j_Revision j = 1 -> j_Phase j = Queued ->
    j_Revoked j = false -> astep A None (mkA (<[k := j]> (a_jobs A)) (a_budget A))
| as_advance k j j' : a_jobs A !! k = Some j -> advance j j' ->
    astep A None (mkA (<[k := j']> (a_jobs A)) (a_budget A))
| as_enable e : astep A None (mkA (a_jobs A) (set_enabled (a_budget A) e))
| as_claim k j day token : b_Enabled (a_budget A) = true -> a_jobs A !! k = Some j ->
    j_Phase j = Queued -> j_Revoked j = false -> str_lt day (b_Day (a_budget A)) = false ->
    let b := roll_day (a_budget A) day in
    b_Calls b < CallsPerDay (b_Limits b) -> Z.of_nat (size (b_Active b)) < MaxConcurrent (b_Limits b) ->
    b_Active b !! token = None ->
    astep A (Some (day, k)) (mkA (<[k := next_job j ProviderStarted (j_Data j)]> (a_jobs A)) (charge b token k))
| as_finish k j token output : b_Active (a_budget A) !! token = Some k -> a_jobs A !! k = Some j ->
    j_Phase j = ProviderStarted -> output <> [] ->
    astep A None (mkA (<[k := next_job j OutputReady (set_output (j_Data j) output)]> (a_jobs A))
                    (with_active (a_budget A) (delete token (b_Active (a_budget A)))))
| as_unknown k j token : b_Active (a_budget A) !! token = Some k -> a_jobs A !! k = Some j ->
    j_Phase j = ProviderStarted ->
    astep A None (mkA (<[k := next_job j Unknown (j_Data j)]> (a_jobs A)) (a_budget A))
| as_abandon k j token j' : b_Enabled (a_budget A) = false -> b_Active (a_budget A) !! token = Some k ->
    a_jobs A !! k = Some j ->
    (j_Phase j = ProviderStarted /\ j' = next_job j Unknown (j_Data j) \/ j_Phase j = Unknown /\ j' = j) ->
    astep A None (mkA (<[k := j']> (a_jobs A))
                    (with_active (a_budget A) (delete token (b_Active (a_budget A))))).

(** ** What the contract keeps *)
Record a_ok (A : AState) : Prop := {
  ok_keys k j : a_jobs A !! k = Some j -> job_key j = k;
  ok_claims t k : b_Active (a_budget A) !! t = Some k ->
    exists j, a_jobs A !! k = Some j /\ (j_Phase j = ProviderStarted \/ j_Phase j = Unknown);
  ok_started k j : a_jobs A !! k = Some j -> j_Phase j = ProviderStarted ->
    exists t, b_Active (a_budget A) !! t = Some k;
  ok_distinct t t' k : b_Active (a_budget A) !! t = Some k -> b_Active (a_budget A) !! t' = Some k -> t = t';
}.

Lemma roll_day_active b day : b_Active (roll_day b day) = b_Active b /\ b_Limits (roll_day b day) = b_Limits b /\
  b_Enabled (roll_day b day) = b_Enabled b.
Proof. unfold roll_day. by case_if. Qed.

(** A job replaced at a key that holds no claim, or keeps an admissible phase. *)
Lemma a_ok_replace A k j j' a : a_ok A -> a_jobs A !! k = Some j -> job_key j' = k ->
  (forall t c, a !! t = Some c -> b_Active (a_budget A) !! t = Some c) ->
  (forall t c, b_Active (a_budget A) !! t = Some c -> c <> k -> a !! t = Some c) ->
  ((forall t, a !! t <> Some k) /\ j_Phase j' <> ProviderStarted \/
   j_Phase j' = Unknown \/ (j_Phase j' = ProviderStarted /\ exists t, a !! t = Some k)) ->
  forall b, b_Active b = a -> a_ok (mkA (<[k := j']> (a_jobs A)) b).
Proof.
  intros [Hk Hc Hs Hd] Hj Hk' Hsub Hkeep Hphase b Hb. constructor; cbn; rewrite ?Hb.
  - intros x y Hx. apply lookup_insert_Some in Hx as [[<- <-]|[_ Hx]]; [done|by apply Hk].
  - intros t c Ht. destruct (decide (c = k)) as [->|Hne].
    + exists j'. rewrite lookup_insert_eq. split; [done|]. destruct Hphase as [[Hn _]|[?|[? _]]]; [|by right|by left].
      by destruct (Hn t).
    + destruct (Hc t c (Hsub _ _ Ht)) as (y & Hy & Hph). exists y. by rewrite lookup_insert_ne.
  - intros x y Hx Hph. apply lookup_insert_Some in Hx as [[<- <-]|[Hne Hx]].
    + destruct Hphase as [[_ ?]|[?|[_ ?]]]; [done|congruence|done].
    + destruct (Hs x y Hx Hph) as [t Ht]. exists t. by apply Hkeep.
  - intros t t' c Ht Ht'. eapply Hd; by apply Hsub.
Qed.

Lemma astep_ok A l A' : a_ok A -> astep A l A' -> a_ok A'.
Proof.
  intros Hok Hstep. pose proof Hok as [Hk Hc Hs Hd].
  destruct Hstep as [|k j Hn Hkey Hr Hp Hv|k j j' Hj (Hkey & _ & _ & Hm)|e
    |k j day token He Hj Hp Hv Hday b Hcalls Hsize Hnew|k j token output Ht Hj Hp Ho|k j token Ht Hj Hp
    |k j token j' He Ht Hj Hcase]; try done.
  - constructor; cbn.
    + intros x y Hx. apply lookup_insert_Some in Hx as [[<- <-]|[_ Hx]]; [done|by apply Hk].
    + intros t c Ht. destruct (Hc t c Ht) as (y & Hy & Hph). exists y.
      rewrite lookup_insert_ne; [done|]. intros ->. congruence.
    + intros x y Hx Hph. apply lookup_insert_Some in Hx as [[<- <-]|[_ Hx]]; [congruence|by eapply Hs].
    + done.
  - apply (a_ok_replace A k j j' (b_Active (a_budget A))); try done.
    { rewrite Hkey. by apply Hk. }
    destruct Hm as [? _ Hph _|_ Hal Hn1 Hn2 _].
    + destruct (decide (j_Phase j = ProviderStarted)) as [E|E].
      * right. right. split; [congruence|by eapply Hs].
      * destruct (decide (j_Phase j = Unknown)) as [E'|E']; [right; left; congruence|]. left. split; [|congruence].
        intros t Ht. destruct (Hc t k Ht) as (y & Hy & Hor). simplify_eq. by destruct Hor.
    + left. split; [|done]. intros t Ht. destruct (Hc t k Ht) as (y & Hy & Hor). simplify_eq.
      destruct Hor as [?|E]; [done|]. by rewrite E in Hal.
  - unfold b in *. clear b. destruct (roll_day_active (a_budget A) day) as (Ha & _ & _). rewrite Ha in *.
    assert (forall t, b_Active (a_budget A) !! t <> Some k) as Hfree.
    { intros t Ht. destruct (Hc t k Ht) as (y & Hy & Hor). simplify_eq. destruct Hor; congruence. }
    constructor; cbn; rewrite ?Ha.
    + intros x y Hx. apply lookup_insert_Some in Hx as [[<- <-]|[_ Hx]]; [by rewrite <- (Hk _ _ Hj)|by apply Hk].
    + intros t c Ht. apply lookup_insert_Some in Ht as [[<- <-]|[_ Ht]].
      * eexists. rewrite lookup_insert_eq. split; [done|]. by left.
      * destruct (Hc t c Ht) as (y & Hy & Hor). exists y. rewrite lookup_insert_ne; [done|].
        intros ->. by apply (Hfree t).
    + intros x y Hx Hph. apply lookup_insert_Some in Hx as [[<- <-]|[Hne Hx]].
      * exists token. by rewrite lookup_insert_eq.
      * destruct (Hs x y Hx Hph) as [t Ht]. exists t. rewrite lookup_insert_ne; [done|]. intros ->. congruence.
    + intros t t' c Ht Ht'. apply lookup_insert_Some in Ht as [[<- <-]|[_ Ht]];
        apply lookup_insert_Some in Ht' as [[? ?]|[_ Ht']]; subst; try done; [by destruct (Hfree t')|by destruct (Hfree t)|].
      by eapply Hd.
  - apply (a_ok_replace A k j _ (delete token (b_Active (a_budget A)))); try done.
    + by rewrite <- (Hk _ _ Hj).
    + intros t c Hx. by apply lookup_delete_Some in Hx as [_ ?].
    + intros t c Hx Hne. apply lookup_delete_Some. split; [|done]. intros ->. congruence.
    + left. split; [|done]. intros t Hx. apply lookup_delete_Some in Hx as [Hne Hx]. by apply Hne, (Hd _ _ k).
  - apply (a_ok_replace A k j _ (b_Active (a_budget A))); try done.
    + by rewrite <- (Hk _ _ Hj).
    + by right; left.
  - apply (a_ok_replace A k j _ (delete token (b_Active (a_budget A)))); try done.
    + destruct Hcase as [[_ ->]|[_ ->]]; by rewrite <- (Hk _ _ Hj).
    + intros t c Hx. by apply lookup_delete_Some in Hx as [_ ?].
    + intros t c Hx Hne. apply lookup_delete_Some. split; [|done]. intros ->. congruence.
    + right; left. by destruct Hcase as [[_ ->]|[? ->]].
Qed.

(** Whatever a step does to a job it records under a later revision. *)
Lemma astep_revision A l A' k j : astep A l A' -> a_jobs A !! k = Some j ->
  exists j', a_jobs A' !! k = Some j' /\ (j' = j \/ j_Revision j < j_Revision j').
Proof.
  intros Hstep Hj.
  assert (forall k0 j0 j1, a_jobs A !! k0 = Some j0 -> (j1 = j0 \/ j_Revision j0 < j_Revision j1) ->
    exists j', <[k0 := j1]> (a_jobs A) !! k = Some j' /\ (j' = j \/ j_Revision j < j_Revision j')) as Hins.
  { intros k0 j0 j1 Hj0 Hor. destruct (decide (k0 = k)) as [->|Hne].
    - exists j1. rewrite lookup_insert_eq. simplify_eq. auto.
    - exists j. rewrite lookup_insert_ne by done. auto. }
  destruct Hstep as [|k0 j0 Hn Hkey Hr Hp Hv|k0 j0 j' Hj0 (_ & Hrev & _ & _)|e
    |k0 j0 day token He Hj0 Hp Hv Hday b Hcalls Hsize Hnew|k0 j0 token output Ht Hj0 Hp Ho|k0 j0 token Ht Hj0 Hp
    |k0 j0 token j' He Ht Hj0 Hcase]; cbn; eauto.
  - exists j. rewrite lookup_insert_ne; [auto|]. intros ->. congruence.
  - eapply Hins; [done|]. right. lia.
  - eapply Hins; [done|]. right. cbn. lia.
  - eapply Hins; [done|]. right. cbn. lia.
  - eapply Hins; [done|]. right. cbn. lia.
  - eapply Hins; [done|]. destruct Hcase as [[_ ->]|[_ ->]]; [right; cbn; lia|by left].
Qed.

(** ** Histories *)
Inductive arun (A : AState) : list (string * JobKey) -> AState -> Prop :=
| arun_nil : arun A [] A
| arun_step ls A' l A'' : arun A ls A' -> astep A' l A'' ->
    arun A (match l with Some x => ls ++ [x] | None => ls end) A''.

Definition calls_on (day : string) (ls : list (string * JobKey)) : Z :=
  Z.of_nat (length (filter (fun x => x.1 = day) ls)).

Record history_ok (ls : list (string * JobKey)) (A : AState) : Prop := {
  h_today : b_Calls (a_budget A) = calls_on (b_Day (a_budget A)) ls;
  h_past day k : (day, k) ∈ ls -> str_lt (b_Day (a_budget A)) day = false;
  h_bound day : calls_on day ls <= CallsPerDay (b_Limits (a_budget A));
  h_once : NoDup ls.*2;
  h_left k : k ∈ ls.*2 -> exists j, a_jobs A !! k = Some j /\ j_Phase j <> Queued;
}.

Lemma allowed_not_queued p : allowed p Queued = false.
Proof. unfold allowed. destruct p; reflexivity. Qed.

(** No step sends a job back to the queue, and none forgets a job. *)
Lemma astep_left A l A' k j : astep A l A' -> a_jobs A !! k = Some j -> j_Phase j <> Queued ->
  exists j', a_jobs A' !! k = Some j' /\ j_Phase j' <> Queued.
Proof.
  intros Hstep Hj Hq.
  assert (forall k0 j0, a_jobs A !! k0 = Some j0 -> forall j1, (j_Phase j0 <> Queued -> j_Phase j1 <> Queued) ->
    exists j', <[k0 := j1]> (a_jobs A) !! k = Some j' /\ j_Phase j' <> Queued) as Hins.
  { intros k0 j0 Hj0 j1 Hph. destruct (decide (k0 = k)) as [->|Hne].
    - exists j1. rewrite lookup_insert_eq. simplify_eq. auto.
    - exists j. by rewrite lookup_insert_ne. }
  destruct Hstep as [|k0 j0 Hn Hkey Hr Hp Hv|k0 j0 j' Hj0 (Hkey & _ & _ & Hm)|e
    |k0 j0 day token He Hj0 Hp Hv Hday b Hcalls Hsize Hnew|k0 j0 token output Ht Hj0 Hp Ho|k0 j0 token Ht Hj0 Hp
    |k0 j0 token j' He Ht Hj0 Hcase]; cbn; try by exists j.
  - exists j. rewrite lookup_insert_ne; [done|]. intros ->. congruence.
  - eapply Hins; [done|]. intros Hq0. destruct Hm as [_ _ -> _|_ Hal _ _ _]; [done|].
    intros E. by rewrite E, allowed_not_queued in Hal.
  - by eapply Hins.
  - by eapply Hins.
  - by eapply Hins.
  - eapply Hins; [done|]. intros _. destruct Hcase as [[_ ->]|[E ->]]; [done|congruence].
Qed.

Lemma calls_on_snoc day ls x : calls_on day (ls ++ [x]) = calls_on day ls + (if decide (x.1 = day) then 1 else 0).
Proof.
  unfold calls_on. rewrite filter_app, length_app, filter_cons, filter_nil. destruct (decide _); cbn; lia.
Qed.

Lemma calls_on_future day ls : (forall k, (day, k) ∉ ls) -> calls_on day ls = 0.
Proof.
  intros Hn. unfold calls_on. replace (filter _ ls) with (@nil (string * JobKey)); [done|].
  symmetry. induction ls as [|[d k] ls IH]; [done|]. cbn.
  rewrite decide_False.
  - apply IH. intros k' Hk'. apply (Hn k'). by right.
  - cbn. intros ->. apply (Hn k). left.
Qed.

Lemma history_step ls A l A' : 0 <= CallsPerDay (b_Limits (a_budget A)) ->
  history_ok ls A -> astep A l A' ->
  history_ok (match l with Some x => ls ++ [x] | None => ls end) A' /\ b_Limits (a_budget A') = b_Limits (a_budget A).
Proof.
  intros Hlim [Ht Hp Hb Ho Hl] Hstep.
  assert (forall b, b_Calls b = b_Calls (a_budget A) -> b_Day b = b_Day (a_budget A) -> b_Limits b = b_Limits (a_budget A) ->
    forall js, (forall k j, a_jobs A !! k = Some j -> j_Phase j <> Queued ->
       exists j', js !! k = Some j' /\ j_Phase j' <> Queued) ->
    history_ok ls (mkA js b) /\ b_Limits b = b_Limits (a_budget A)) as Hsame.
  { intros b E1 E2 E3 js Hjs. split; [|done]. constructor; cbn; rewrite ?E1, ?E2, ?E3; try done.
    intros k Hk. destruct (Hl k Hk) as (j & Hj & Hq). eauto. }
  pose proof (fun k j => astep_left _ _ _ k j Hstep) as Hleft.
  destruct Hstep as [|k j Hn Hkey Hr Hph Hv|k j j' Hj Hm|e
    |k j day token He Hj Hph Hv Hday b Hcalls Hsize Hnew|k j token output Htok Hj Hph Hout|k j token Htok Hj Hph
    |k j token j' He Htok Hj Hcase]; try (apply Hsame; done).
  { split; [by constructor|done]. }
  cbn in Hleft. unfold b in *. clear b.
  assert (k ∉ ls.*2) as Hfresh.
  { intros Hin. destruct (Hl k Hin) as (y & Hy & Hq). congruence. }
  assert (b_Limits (roll_day (a_budget A) day) = b_Limits (a_budget A)) as HL by (unfold roll_day; by case_if).
  assert (b_Day (roll_day (a_budget A) day) = day /\ b_Calls (roll_day (a_budget A) day) = calls_on day ls /\
    forall d k', (d, k') ∈ ls -> str_lt day d = false) as (HD & HC & HP).
  { unfold roll_day. destruct (str_lt (b_Day (a_budget A)) day) eqn:E; cbn.
    - assert (forall k', (day, k') ∉ ls) as Hno by (intros k' Hin; apply Hp in Hin; congruence).
      split; [done|]. split; [by rewrite calls_on_future|].
      intros d k' Hin. apply not_true_iff_false. intros Hlt. pose proof (str_lt_trans _ _ _ E Hlt) as Hlt'.
      apply Hp in Hin. congruence.
    - destruct (str_lt_total day (b_Day (a_budget A))) as [?|[->|?]]; [congruence| |congruence]. done. }
  cbn. rewrite HL. split; [|done]. constructor; cbn; rewrite ?HL, ?HD.
  - rewrite HC, calls_on_snoc. cbn. rewrite decide_True by done. lia.
  - intros d k' Hin. apply elem_of_app in Hin as [Hin|Hin]; [by eapply HP|].
    apply list_elem_of_singleton in Hin. injection Hin as -> _. apply str_lt_irrefl.
  - intros d. rewrite calls_on_snoc. cbn. pose proof (Hb d). destruct (decide (day = d)) as [<-|]; [|lia].
    rewrite HC, HL in Hcalls. lia.
  - rewrite fmap_app. apply NoDup_app. split; [done|]. split; [|apply NoDup_singleton].
    cbn. intros x Hx Hx'. apply list_elem_of_singleton in Hx'. by subst.
  - intros x Hx. rewrite fmap_app in Hx. apply elem_of_app in Hx as [Hx|Hx].
    + destruct (Hl x Hx) as (y & Hy & Hq). eauto.
    + cbn in Hx. apply list_elem_of_singleton in Hx as ->. eexists. rewrite lookup_insert_eq. done.
Qed.

Definition initial (limits : Limits) : AState := mkA ∅ (initial_budget limits).

Lemma initial_ok limits : a_ok (initial limits).
Proof. constructor; cbn; intros *; rewrite ?lookup_empty; done. Qed.

Lemma arun_ok limits ls A : 0 <= CallsPerDay limits -> arun (initial limits) ls A ->
  a_ok A /\ history_ok ls A /\ b_Limits (a_budget A) = limits.
Proof.
  intros Hlim Hrun. induction Hrun as [|ls A' l A'' _ (Hok & Hh & HL) Hstep].
  - split; [apply initial_ok|]. split; [|done]. constructor; cbn; try done; [by intros d k ?%elem_of_nil|constructor|].
    by intros k ?%elem_of_nil.
  - rewrite <- HL in Hlim. destruct (history_step _ _ _ _ Hlim Hh Hstep) as [Hh' HL'].
    split; [by eapply astep_ok|]. split; [done|]. congruence.
Qed.
End LedgerSpec.

(** ** The refinement *)
Module LedgerRefine.
Import Ledger LedgerSpec Calendar CalendarLemmas.

Section refine.
Context `{Sha256, Aead, LedgerJson, !AeadLaws _, !LedgerJsonLaws _}.

Definition canon (d : Data) : Data :=
  mkData (raw_message (dt_Header d)) (dt_PredecessorWire d) (json_string (dt_WireDigest d)) (dt_Input d)
    (json_string (dt_ProviderConfigFingerprint d)) (dt_Output d) (json_string (dt_ReplyID d))
    (json_string (dt_ReplyDigest d)) (raw_message (dt_Receipt d)).

Lemma json_string_idem t : json_string (json_string t) = json_string t.
Proof. apply json_string_utf8, json_string_valid. Qed.

Lemma canon_idem d : canon (canon d) = canon d.
Proof. unfold canon. cbn. by rewrite !raw_message_idem, !json_string_idem. Qed.

Lemma hex_decode_ascii n : forall t b, (String.length t <= n)%nat -> hex_decode t = Some b ->
  str_forallb is_ascii t = true.
Proof.
  assert (forall c x, hex_value c = Some x -> is_ascii c = true) as Hc.
  { intros c x. unfold hex_value, is_digit, between, is_ascii. repeat case_if; try done; rinv; intros _; lia. }
  induction n as [|n IH]; intros t b Hn Hd.
  - destruct t; [done|cbn in Hn; lia].
  - destruct t as [|h [|l t]]; [done|done|]. cbn [hex_decode] in Hd.
    destruct (hex_value h) eqn:Eh; [|done]. destruct (hex_value l) eqn:El; [|done].
    destruct (hex_decode t) eqn:Et; [|done]. cbn [str_forallb].
    rewrite (Hc _ _ Eh), (Hc _ _ El). cbn. eapply IH; [|done]. cbn in Hn. lia.
Qed.

Lemma valid_canon d : validData d = true -> validData (canon d) = true.
Proof.
  unfold validData, canon. cbn [dt_Header dt_PredecessorWire dt_WireDigest dt_ReplyDigest dt_Receipt].
  intros Hv. rinv.
  match goal with E : str_eqb _ (hex_encode _) = true |- _ => apply str_eqb_eq in E as Hw end.
  rewrite Hw, (json_string_utf8 (hex_encode _)) by (apply ascii_utf8, hex_ascii).
  rewrite str_eqb_refl.
  rewrite (raw_message_valid (dt_Header d)) by (by left).
  rewrite (raw_message_valid (dt_Receipt d)).
  2:{ rename select (_ || json_Valid _ = true) into Hr. apply orb_true_iff in Hr as [Hr|Hr]; [right|by left].
      apply Z.eqb_eq in Hr. unfold blen in Hr. by destruct (dt_Receipt d). }
  rename select (str_eqb (dt_ReplyDigest d) "" || _ = true) into Hd.
  assert (json_string (dt_ReplyDigest d) = dt_ReplyDigest d) as ->.
  { apply json_string_utf8, ascii_utf8. apply orb_true_iff in Hd as [->%str_eqb_eq|Hd]; [done|].
    unfold validDigest in Hd. destruct (hex_decode (dt_ReplyDigest d)) eqn:E; [|done]. by eapply hex_decode_ascii. }
  rewrite Hd. rename select (_ <? _ = true) into Hlen. rewrite Hlen. cbn [andb]. by rewrite orb_true_r.
Qed.

Lemma unseal_seal rand plain aad sealed : seal rand plain aad = Ok sealed -> unseal sealed aad = Ok plain.
Proof.
  unfold seal. destruct rand as [raw|]; [|done]. intros [= <-]. unfold unseal.
  assert (length (resize NonceSize x00 raw) = NonceSize) as Hl by apply length_resize.
  unfold blen. rewrite length_app, Hl.
  replace (Z.of_nat (NonceSize + _) <? Z.of_nat NonceSize) with false by lia. cbn [negb guard rbind].
  rewrite take_app_length' by done. rewrite drop_app_length' by done.
  by rewrite aead_open_seal.
Qed.

Lemma scan_encode s rand j sealed : encode s rand j = Ok sealed ->
  scan s (job_key j) (job_row j sealed) = Ok (set_data j (canon (j_Data j))).
Proof.
  unfold encode. intros He. rinv. destruct (marshal_data (j_Data j)) as [p|] eqn:Em; [|done].
  cbn [of_option] in *. rinv. unfold scan, job_key, job_row. cbn [jr_revision jr_phase jr_revoked jr_sealed fst snd].
  unfold jobAAD. cbn. rename select (seal _ _ _ = Ok _) into Hs. unfold jobAAD in Hs.
  rewrite (unseal_seal _ _ _ _ Hs). cbn [rbind]. rewrite (unmarshal_marshal_data _ _ Em). cbn [of_option rbind].
  rename select (job_ok j = true) into Hj.
  assert (job_ok (set_data j (canon (j_Data j))) = true) as Hj'.
  { unfold job_ok, set_data in *. cbn. rinv. rename select (validData _ = true) into Hv.
    rewrite (valid_canon _ Hv). repeat match goal with E : _ = false |- _ => rewrite E; clear E end. cbn.
    by match goal with E : validPhase _ = true |- _ => rewrite E end. }
  unfold set_data, canon in *. rewrite Hj'. done.
Qed.

(** What the tables stand for. *)
Record sim (s : Store) (n : nat) (d : LDB) (A : AState) : Prop := {
  sim_binding : unseal (binding_sealed d) bindingAAD = Ok (marshal_binding (st_binding s));
  sim_budget : open_budget s (budget_revision d) (budget_sealed d) = Ok (budget_revision d, a_budget A);
  sim_revision : 1 <= budget_revision d <= 1 + Z.of_nat n;
  sim_domain k : jobs d !! k = None <-> a_jobs A !! k = None;
  sim_jobs k row j : jobs d !! k = Some row -> a_jobs A !! k = Some j ->
    scan s k row = Ok j /\ canon (j_Data j) = j_Data j /\ j_Revision j <= max_int64;
  sim_utf8 k j : a_jobs A !! k = Some j -> utf8_valid k.1 = true /\ utf8_valid k.2 = true;
  sim_ok : a_ok A;
}.

Lemma scan_key s k row j : scan s k row = Ok j ->
  job_key j = k /\ j_Revision j = jr_revision row /\ j_Phase j = jr_phase row /\ j_Revoked j = jr_revoked row /\
  job_ok j = true.
Proof. unfold scan. intros Hs. rinv. unfold job_key. cbn. by destruct k. Qed.

Lemma sim_lookup s n d A k row : sim s n d A -> jobs d !! k = Some row ->
  exists j, a_jobs A !! k = Some j /\ scan s k row = Ok j /\ canon (j_Data j) = j_Data j /\ j_Revision j <= max_int64.
Proof.
  intros Hsim Hrow. destruct (a_jobs A !! k) as [j|] eqn:Ej.
  - exists j. split; [done|]. by eapply sim_jobs.
  - apply (sim_domain _ _ _ _ Hsim) in Ej. congruence.
Qed.

(** Replacing one row. *)
Lemma sim_insert s n d A k row j b rev sealed : sim s n d A ->
  scan s k row = Ok j -> canon (j_Data j) = j_Data j -> j_Revision j <= max_int64 -> utf8_valid k.1 = true -> utf8_valid k.2 = true ->
  open_budget s rev sealed = Ok (rev, b) -> 1 <= rev <= 1 + Z.of_nat n ->
  a_ok (mkA (<[k := j]> (a_jobs A)) b) ->
  sim s n (mkLDB (binding_sealed d) rev sealed (<[k := row]> (jobs d))) (mkA (<[k := j]> (a_jobs A)) b).
Proof.
  intros [Hb Hbud Hrev Hdom Hjobs Hu Hok] Hs Hc Hmax Hu1 Hu2 Hopen Hr Hok'.
  constructor; cbn; try done.
  - intros x. rewrite !lookup_insert_None, Hdom. done.
  - intros x r y Hx Hy. destruct (decide (k = x)) as [<-|Hne].
    + rewrite lookup_insert_eq in Hx. rewrite lookup_insert_eq in Hy. simplify_eq. done.
    + rewrite lookup_insert_ne in Hx by done. rewrite lookup_insert_ne in Hy by done. by eapply Hjobs.
  - intros x y Hy. destruct (decide (k = x)) as [<-|Hne]; [done|].
    rewrite lookup_insert_ne in Hy by done. by eapply Hu.
Qed.

Lemma sim_mono s n m d A : (n <= m)%nat -> sim s n d A -> sim s m d A.
Proof. intros Hle []. constructor; try done. lia. Qed.

(** A budget the checks of readBudget accept comes back from the table. *)
Lemma open_encode s rand rev b sealed :
  encodeBudget s rand rev b = Ok sealed -> budget_utf8 b ->
  budget_ok s rev b && day_ok b && claims_ok b = true -> open_budget s rev sealed = Ok (rev, b).
Proof.
  unfold encodeBudget. intros He Hu Hok. rinv. destruct (marshal_budget b) as [p|] eqn:Em; [|done].
  cbn [of_option] in *. rinv. unfold open_budget.
  rename select (seal _ _ _ = Ok _) into Hs. rewrite (unseal_seal _ _ _ _ Hs). cbn [rbind].
  rewrite (unmarshal_marshal_budget _ _ Hu Em). cbn [of_option rbind].
  repeat match goal with E : _ = true |- _ => rewrite E; clear E end. done.
Qed.

Lemma open_budget_ok s rev sealed b : open_budget s rev sealed = Ok (rev, b) ->
  budget_ok s rev b = true /\ day_ok b = true /\ claims_ok b = true.
Proof. unfold open_budget. intros Ho. rinv. done. Qed.

(** *** The budget after a write *)
Lemma claims_ok_spec b : claims_ok b = true <->
  (forall t c, b_Active b !! t = Some c -> validDigest t = true /\ c.1 <> "" /\ c.2 <> "") /\
  (forall t t' c, b_Active b !! t = Some c -> b_Active b !! t' = Some c -> t = t').
Proof.
  unfold claims_ok. rewrite andb_true_iff, forallb_forall, bool_decide_eq_true. split.
  - intros [Hall Hnd]. split.
    + intros t c Ht. apply elem_of_map_to_list, list_elem_of_In, Hall in Ht. cbn in Ht. rinv.
      split; [done|]. split; by apply str_eqb_neq.
    + intros t t' c Ht Ht'. apply elem_of_map_to_list, list_elem_of_lookup in Ht as [i Hi].
      apply elem_of_map_to_list, list_elem_of_lookup in Ht' as [i' Hi'].
      assert (i = i') as ->.
      { eapply (NoDup_lookup _ _ _ c Hnd); rewrite list_lookup_fmap; [by rewrite Hi|by rewrite Hi']. }
      congruence.
  - intros [Hv Hd]. split.
    + intros [t c] Hin. apply list_elem_of_In, elem_of_map_to_list in Hin. cbn.
      destruct (Hv t c Hin) as (-> & H1' & H2'). apply str_eqb_neq in H1', H2'. by rewrite H1', H2'.
    + apply NoDup_fmap_2_strong; [|apply NoDup_map_to_list].
      intros [t c] [t' c'] Hin Hin' Heq. cbn in Heq. subst c'.
      apply elem_of_map_to_list in Hin, Hin'. f_equal. by eapply Hd.
Qed.

Lemma validDigest_ascii t : validDigest t = true -> utf8_valid t = true.
Proof.
  unfold validDigest. destruct (hex_decode t) eqn:E; [|done]. intros _.
  by eapply ascii_utf8, hex_decode_ascii.
Qed.

Lemma budget_utf8_ok (b : budgetState) (js : gmap JobKey Job) :
  day_ok b = true -> claims_ok b = true ->
  (forall t k, b_Active b !! t = Some k -> is_Some (js !! k)) ->
  (forall k j, js !! k = Some j -> utf8_valid k.1 = true /\ utf8_valid k.2 = true) -> budget_utf8 b.
Proof.
  intros Hday Hcl Hact Hu. split.
  - unfold day_ok in Hday. case_if; [apply str_eqb_eq in E; by rewrite E|].
    destruct (parse_date (b_Day b)) eqn:Ep; [|done]. by eapply ascii_utf8, date_ascii.
  - intros t k Ht. apply claims_ok_spec in Hcl as [Hcl _]. destruct (Hcl _ _ Ht) as [Hv _].
    destruct (Hact _ _ Ht) as [j Hj]. split; [by apply validDigest_ascii|]. by eapply Hu.
Qed.

(** The store after the budget row is rewritten, with the jobs of the next
    abstract state. *)
Lemma sim_write_budget (s : Store) (n : nat) (d : LDB) (A : AState) (l : option (string * JobKey)) (A' : AState) (rand : option (list byte)) (sealed : list byte) (js : gmap JobKey JobRow) :
  sim s n d A -> Z.of_nat n < 2 ^ 62 -> astep A l A' ->
  encodeBudget s rand (wrap64 (budget_revision d + 1)) (a_budget A') = Ok sealed ->
  budget_ok s 1 (a_budget A') = true -> day_ok (a_budget A') = true ->
  (forall t c, b_Active (a_budget A') !! t = Some c -> validDigest t = true) ->
  (forall k, js !! k = None <-> a_jobs A' !! k = None) ->
  (forall k row j, js !! k = Some row -> a_jobs A' !! k = Some j ->
     scan s k row = Ok j /\ canon (j_Data j) = j_Data j /\ j_Revision j <= max_int64) ->
  (forall k, is_Some (a_jobs A' !! k) -> is_Some (a_jobs A !! k)) ->
  sim s (S n) (mkLDB (binding_sealed d) (wrap64 (budget_revision d + 1)) sealed js) A'.
Proof.
  intros Hsim Hn Hstep Henc Hbud Hday Htok Hdom Hjobs Hkeys.
  pose proof (astep_ok _ _ _ (sim_ok _ _ _ _ Hsim) Hstep) as Hok.
  pose proof (sim_revision _ _ _ _ Hsim) as Hrev.
  assert (wrap64 (budget_revision d + 1) = budget_revision d + 1) as Hw.
  { apply wrap64_small. unfold in_int64, min_int64, max_int64. lia. }
  rewrite Hw in *.
  assert (forall k j, a_jobs A' !! k = Some j -> utf8_valid k.1 = true /\ utf8_valid k.2 = true) as Hu.
  { intros k j Hj. destruct (Hkeys k (mk_is_Some _ _ Hj)) as [j0 Hj0]. by eapply sim_utf8. }
  assert (claims_ok (a_budget A') = true) as Hcl.
  { apply claims_ok_spec. split; [|apply (ok_distinct _ Hok)]. intros t c Ht. split; [by eapply Htok|].
    destruct (ok_claims _ Hok t c Ht) as (j & Hj & _).
    destruct (js !! c) as [row|] eqn:Er; [|apply Hdom in Er; congruence].
    destruct (Hjobs _ _ _ Er Hj) as (Hs & _). apply scan_key in Hs as (Hk & _ & _ & _ & Hjok).
    rewrite <- Hk. unfold job_ok in Hjok. unfold job_key. cbn [fst snd]. clear -Hjok. rinv. split; by apply str_eqb_neq. }
  constructor; cbn; try done; [by destruct Hsim| |lia].
  eapply open_encode; [done| |].
  - eapply budget_utf8_ok; [done..| |done]. intros t k Ht.
    destruct (ok_claims _ Hok t k Ht) as (j & Hj & _). by exists j.
  - rewrite Hday, Hcl, !andb_true_r. unfold budget_ok in *. rinv.
    replace (budget_revision d + 1 <? 1) with false by lia.
    repeat match goal with E : _ = _ |- _ => rewrite E; clear E end. by rewrite !bool_decide_eq_true_2.
Qed.

(** *** The statements of the transactions *)
Lemma readBudget_Ok s n d A stmt m r st : sim s n d A -> readBudget s stmt (m, d) = Ok (r, st) ->
  r = (budget_revision d, a_budget A) /\ st = (S m, d).
Proof.
  intros Hsim Hr. unfold readBudget in Hr. tinv.
  rewrite (sim_budget _ _ _ _ Hsim) in *. by simplify_eq.
Qed.

Lemma read_job_Ok s n d A k stmt m j st : sim s n d A -> read_job s k stmt (m, d) = Ok (j, st) ->
  st = (S m, d) /\ a_jobs A !! k = Some j /\ canon (j_Data j) = j_Data j /\ j_Revision j <= max_int64 /\
  job_key j = k /\ job_ok j = true /\ utf8_valid k.1 = true /\ utf8_valid k.2 = true.
Proof.
  intros Hsim Hr. unfold read_job in Hr. tinv. destruct (jobs d !! k) as [row|] eqn:Er.
  2:{ tinv. }
  tinv.
  destruct (sim_lookup _ _ _ _ _ _ Hsim Er) as (j' & Hj & Hs & Hc & Hm).
  assert (j' = j) as -> by congruence.
  apply scan_key in Hs as (Hk & _ & _ & _ & Hok). destruct (sim_utf8 _ _ _ _ Hsim _ _ Hj). by split_and!.
Qed.

Lemma writeProviderJob_Ok s rand j stmt m d u st : writeProviderJob s rand j stmt (m, d) = Ok (u, st) ->
  exists sealed, encode s rand j = Ok sealed /\
    st = (S m, set_jobs d (alter (fun _ => job_row j sealed) (job_key j) (jobs d))).
Proof. unfold writeProviderJob. intros Hw. tinv. simplify_eq. eauto. Qed.

Lemma writeBudget_Ok s rand rev b stmt m d u st : writeBudget s rand rev b stmt (m, d) = Ok (u, st) ->
  exists sealed, encodeBudget s rand (wrap64 (rev + 1)) b = Ok sealed /\
    st = (S m, mkLDB (binding_sealed d) (wrap64 (rev + 1)) sealed (jobs d)).
Proof. unfold writeBudget. intros Hw. tinv. simplify_eq. eauto. Qed.

(** The rows after one job is rewritten. *)
Lemma rewritten_rows (s : Store) (n : nat) (d : LDB) (A : AState) (k : JobKey) (j j' : Job)
    (rand : option (list byte)) (sealed : list byte) :
  sim s n d A -> a_jobs A !! k = Some j -> job_key j' = k -> encode s rand j' = Ok sealed ->
  canon (j_Data j') = j_Data j' -> j_Revision j' <= max_int64 ->
  let js := alter (fun _ => job_row j' sealed) k (jobs d) in
  (forall x, js !! x = None <-> <[k := j']> (a_jobs A) !! x = None) /\
  (forall x row y, js !! x = Some row -> <[k := j']> (a_jobs A) !! x = Some y ->
     scan s x row = Ok y /\ canon (j_Data y) = j_Data y /\ j_Revision y <= max_int64) /\
  (forall x, is_Some (<[k := j']> (a_jobs A) !! x) -> is_Some (a_jobs A !! x)).
Proof.
  intros Hsim Hj Hk Henc Hc Hm js. split; [|split].
  - intros x. unfold js. rewrite lookup_alter_None, lookup_insert_None, (sim_domain _ _ _ _ Hsim).
    split; [|by intros [? _]]. intros Hx. split; [done|]. intros ->. congruence.
  - intros x row y Hx Hy. unfold js in Hx. destruct (decide (k = x)) as [<-|Hne].
    + rewrite lookup_insert_eq in Hy. rewrite lookup_alter_eq in Hx. apply fmap_Some in Hx as (r0 & _ & ->).
      injection Hy as <-. pose proof (scan_encode _ _ _ _ Henc) as Hs. rewrite Hc, Hk in Hs.
      unfold set_data in Hs. by destruct j'.
    + rewrite lookup_insert_ne in Hy by done. rewrite lookup_alter_ne in Hx by done.
      by eapply sim_jobs.
  - intros x [y Hy]. destruct (decide (k = x)) as [<-|Hne]; [by exists j|].
    rewrite lookup_insert_ne in Hy by done. by exists y.
Qed.

(** Revisions never wrap: [encode] refuses the job whose revision did. *)
Lemma next_revision r : 1 <= r <= max_int64 -> 1 <= wrap64 (r + 1) -> wrap64 (r + 1) = r + 1 /\ r + 1 <= max_int64.
Proof.
  intros Hr Hw. destruct (decide (r = max_int64)) as [->|Hne].
  - by vm_compute in Hw.
  - rewrite wrap64_small; [lia|]. unfold in_int64, min_int64, max_int64 in *. lia.
Qed.

Lemma encode_ok s rand j sealed : encode s rand j = Ok sealed -> job_ok j = true.
Proof. unfold encode. intros. by rinv. Qed.

Lemma job_ok_revision j : job_ok j = true -> 1 <= j_Revision j.
Proof. unfold job_ok. intros. rinv. lia. Qed.

(** The job a transition writes has the next revision. *)
Lemma encoded_next s rand j p x sealed : job_ok j = true -> j_Revision j <= max_int64 ->
  encode s rand (mkJob (j_ProjectID j) (j_AskID j) (wrap64 (j_Revision j + 1)) p (j_Revoked j) x) = Ok sealed ->
  mkJob (j_ProjectID j) (j_AskID j) (wrap64 (j_Revision j + 1)) p (j_Revoked j) x = next_job j p x /\
  j_Revision j + 1 <= max_int64.
Proof.
  intros Hj Hm He. apply encode_ok in He. apply job_ok_revision in Hj, He. cbn in He.
  destruct (next_revision (j_Revision j)) as [E ?]; [lia|done|]. unfold next_job. by rewrite E.
Qed.

Lemma budget_ok_any s r b : budget_ok s r b = true -> budget_ok s 1 b = true.
Proof.
  unfold budget_ok. intros. rinv. replace (1 <? 1) with false by lia.
  repeat match goal with E : _ = _ |- _ => rewrite E; clear E end. by rewrite !bool_decide_eq_true_2.
Qed.

(** *** Every transaction is a step of the contract *)
Definition simulated (s : Store) (n : nat) (A : AState) (l : option (string * JobKey)) (d' : LDB) : Prop :=
  exists A', astep A l A' /\ sim s (S n) d' A'.

Lemma set_enabled_sim s n d A rand e stmt a m d1 : sim s n d A -> Z.of_nat n < 2 ^ 62 ->
  set_enabled_tx s rand e stmt (O, d) = Ok (Commit a, (m, d1)) -> simulated s n A None d1.
Proof.
  intros Hsim Hn Hrun. unfold set_enabled_tx in Hrun. tinv.
  rename select (readBudget _ _ _ = _) into Hr. apply (readBudget_Ok _ _ _ _ _ _ _ _ Hsim) in Hr as [-> ->].
  cbn in Hrun. tinv. rename select (writeBudget _ _ _ _ _ _ = _) into Hw.
  apply writeBudget_Ok in Hw as (sealed & Henc & ?). simplify_eq.
  eexists. split; [apply (as_enable _ e)|].
  destruct (open_budget_ok _ _ _ _ (sim_budget _ _ _ _ Hsim)) as (Hb & Hd & Hc).
  eapply (sim_write_budget s n d A None); try done; [apply as_enable|..].
  - by eapply budget_ok_any.
  - intros t c Ht. apply claims_ok_spec in Hc as [Hc _]. by destruct (Hc t c Ht).
  - apply (sim_domain _ _ _ _ Hsim).
  - intros k row j. apply (sim_jobs _ _ _ _ Hsim).
Qed.

Lemma hex_token raw : validDigest (hex_encode (resize 32 x00 raw)) = true.
Proof. unfold validDigest. rewrite hex_round. unfold blen. by rewrite length_resize. Qed.

Lemma charged_budget s r b day token k ymd :
  budget_ok s r b = true -> parse_date day = Some ymd -> str_lt day (b_Day b) = false ->
  b_Calls (roll_day b day) < CallsPerDay (b_Limits (roll_day b day)) ->
  Z.of_nat (size (b_Active (roll_day b day))) < MaxConcurrent (b_Limits (roll_day b day)) ->
  b_Active (roll_day b day) !! token = None ->
  budget_ok s 1 (charge (roll_day b day) token k) = true /\ day_ok (charge (roll_day b day) token k) = true.
Proof.
  intros Hb Hp Hday Hcalls Hsize Hnew.
  assert (b_Day (roll_day b day) = day) as HD.
  { unfold roll_day. case_if; [done|].
    destruct (str_lt_total day (b_Day b)) as [?|[->|?]]; [congruence|done|congruence]. }
  destruct (roll_day_active b day) as (Hact & Hlims & _).
  assert (0 <= b_Calls (roll_day b day)) as Hnn.
  { unfold roll_day. case_if; cbn; [lia|]. unfold budget_ok in Hb. rinv. lia. }
  split.
  - unfold budget_ok in *. cbn [charge b_Limits b_Calls b_Active]. rewrite map_size_insert_None by done.
    rewrite Hlims in *. rinv. rewrite !bool_decide_eq_true_2 by done.
    rename select (limits_valid _ = true) into Hlv. rewrite Hlv. cbn [negb orb].
    repeat match goal with |- context [?x <? ?y] => replace (x <? y) with false by lia end. done.
  - unfold day_ok. cbn [charge b_Day b_Calls b_Active]. rewrite HD.
    destruct (str_eqb day "") eqn:E; [apply str_eqb_eq in E; subst; done|].
    rewrite Hp, (parse_format _ _ Hp). apply str_eqb_refl.
Qed.

Lemma claim_provider_sim s n d A rd expected now stmt a m d1 : sim s n d A -> Z.of_nat n < 2 ^ 62 ->
  claim_provider_tx s rd expected now stmt (O, d) = Ok (Commit a, (m, d1)) ->
  simulated s n A (Some (utc_day now, job_key expected)) d1.
Proof.
  intros Hsim Hn Hrun. unfold claim_provider_tx in Hrun. tinv.
  rename select (readBudget _ _ _ = _) into Hr. apply (readBudget_Ok _ _ _ _ _ _ _ _ Hsim) in Hr as [-> ->].
  cbn beta iota in Hrun. tinv.
  rename select (read_job _ _ _ _ = _) into Hj.
  apply (read_job_Ok _ _ _ _ _ _ _ _ _ Hsim) in Hj as (-> & Hj & Hcan & Hmax & Hkey & Hjok & _).
  destruct (rd_token rd) as [raw|]; cbn [of_option] in *; tinv.
  rename select (writeProviderJob _ _ _ _ _ = _) into Hw. apply writeProviderJob_Ok in Hw as (sealed & Henc & ->).
  rename select (writeBudget _ _ _ _ _ _ = _) into Hwb.
  apply writeBudget_Ok in Hwb as (bsealed & Hbenc & Hst). injection Hst as -> ->.
  destruct (encoded_next _ _ _ _ _ _ Hjok Hmax Henc) as [Hnext Hle]. rewrite Hnext in *.
  set (day := utc_day now) in *. set (token := hex_encode _) in *.
  destruct (roll_day_active (a_budget A) day) as (Hact & Hlims & Hen).
  assert (astep A (Some (day, job_key expected))
    (mkA (<[job_key expected := next_job x0 ProviderStarted (j_Data x0)]> (a_jobs A))
       (charge (roll_day (a_budget A) day) token (job_key expected)))) as Hstep.
  { apply as_claim; try done; try lia.
    by destruct (b_Active (roll_day (a_budget A) day) !! token). }
  eexists. split; [exact Hstep|].
  destruct (open_budget_ok _ _ _ _ (sim_budget _ _ _ _ Hsim)) as (Hb & Hd & Hc).
  assert (job_key (next_job x0 ProviderStarted (j_Data x0)) = job_key expected) as Hk' by (by rewrite <- Hkey).
  destruct (rewritten_rows _ _ _ _ _ _ _ _ _ Hsim Hj Hk' Henc Hcan Hle) as (Hdom & Hrows & Hold).
  cbn [binding_sealed set_jobs jobs]. rewrite Hk', <- Hkey in *.
  destruct (parse_date day) as [ymd|] eqn:Ep; [|done].
  destruct (charged_budget s (budget_revision d) (a_budget A) day token (job_key x0) ymd) as [Hb' Hd']; try done; try lia.
  { by destruct (b_Active (roll_day (a_budget A) day) !! token). }
  eapply (sim_write_budget s n d A _ _ (rd_budget rd)); try done.
  cbn [a_budget charge b_Active]. intros t c Ht. apply lookup_insert_Some in Ht as [[<- _]|[_ Ht]]; [apply hex_token|].
  rewrite Hact in Ht. apply claims_ok_spec in Hc as [Hc _]. by destruct (Hc t c Ht).
Qed.

(** A budget with fewer reservations stays well formed. *)
Lemma released_budget s r b a : budget_ok s r b = true -> day_ok b = true -> a ⊆ b_Active b ->
  budget_ok s 1 (with_active b a) = true /\ day_ok (with_active b a) = true.
Proof.
  intros Hb Hd Hsub. pose proof (map_subseteq_size _ _ Hsub) as Hsz. split.
  - unfold budget_ok in *. cbn [with_active b_Limits b_Calls b_Active]. rinv.
    rename select (limits_valid _ = true) into Hlv. rewrite Hlv, bool_decide_eq_true_2 by done. cbn [negb orb].
    repeat match goal with |- context [?x <? ?y] => replace (x <? y) with false by lia end. done.
  - unfold day_ok in *. cbn [with_active b_Day b_Calls b_Active]. case_if; [|done]. rinv.
    rename select (Nat.eqb _ _ = true) into Hz. apply Nat.eqb_eq in Hz.
    replace (size a) with 0%nat by lia. rename select (_ =? 0 = true) into Hc. by rewrite Hc.
Qed.

Lemma tokens_valid b a : claims_ok b = true -> a ⊆ b_Active b ->
  forall t c, a !! t = Some c -> validDigest t = true.
Proof.
  intros Hc Hsub t c Ht. apply claims_ok_spec in Hc as [Hc _].
  by destruct (Hc t c (lookup_weaken _ _ _ _ Ht Hsub)).
Qed.

Lemma canon_output x output : canon x = x -> canon (set_output x output) = set_output x output.
Proof. destruct x. unfold canon, set_output. cbn. intros Hc. injection Hc. intros. congruence. Qed.

Lemma finish_provider_sim s n d A rj rb p ask token output ok stmt a m d1 : sim s n d A -> Z.of_nat n < 2 ^ 62 ->
  finish_provider_tx s rj rb p ask token output ok stmt (O, d) = Ok (Commit a, (m, d1)) -> simulated s n A None d1.
Proof.
  intros Hsim Hn Hrun. unfold finish_provider_tx in Hrun. tinv.
  rename select (readBudget _ _ _ = _) into Hr. apply (readBudget_Ok _ _ _ _ _ _ _ _ Hsim) in Hr as [-> ->].
  cbn beta iota in Hrun. tinv.
  rename select (read_job _ _ _ _ = _) into Hj.
  apply (read_job_Ok _ _ _ _ _ _ _ _ _ Hsim) in Hj as (-> & Hj & Hcan & Hmax & Hkey & Hjok & _).
  rename select (writeProviderJob _ _ _ _ _ = _) into Hw. apply writeProviderJob_Ok in Hw as (sealed & Henc & ->).
  rename select (writeBudget _ _ _ _ _ _ = _) into Hwb.
  apply writeBudget_Ok in Hwb as (bsealed & Hbenc & Hst). injection Hst as -> ->.
  destruct (encoded_next _ _ _ _ _ _ Hjok Hmax Henc) as [Hnext Hle]. rewrite Hnext in *.
  destruct (open_budget_ok _ _ _ _ (sim_budget _ _ _ _ Hsim)) as (Hb & Hd & Hc).
  assert (forall ph x, job_key (next_job x0 ph x) = (p, ask)) as Hk' by (intros; by rewrite <- Hkey).
  cbn [binding_sealed set_jobs jobs]. rewrite Hk' in *. destruct ok.
  - destruct (rewritten_rows _ _ _ _ _ _ _ _ _ Hsim Hj (Hk' _ _) Henc (canon_output _ output Hcan) Hle)
      as (Hdom & Hrows & Hold).
    assert (delete token (b_Active (a_budget A)) ⊆ b_Active (a_budget A)) as Hsub by apply delete_subseteq.
    destruct (released_budget _ _ _ _ Hb Hd Hsub) as [Hb' Hd'].
    assert (astep A None (mkA (<[(p, ask) := next_job x0 OutputReady (set_output (j_Data x0) output)]> (a_jobs A))
              (with_active (a_budget A) (delete token (b_Active (a_budget A)))))) as Hstep.
    { apply as_finish; try done. by intros ->. }
    eexists. split; [exact Hstep|]. eapply (sim_write_budget s n d A _ _ rb); try done.
    by apply (tokens_valid (a_budget A)).
  - destruct (rewritten_rows _ _ _ _ _ _ _ _ _ Hsim Hj (Hk' _ _) Henc Hcan Hle) as (Hdom & Hrows & Hold).
    assert (astep A None (mkA (<[(p, ask) := next_job x0 Unknown (j_Data x0)]> (a_jobs A)) (a_budget A))) as Hstep
      by (by apply (as_unknown A _ x0 token)).
    eexists. split; [exact Hstep|]. eapply (sim_write_budget s n d A _ _ rb); try done.
    + by eapply budget_ok_any.
    + by apply (tokens_valid (a_budget A)).
Qed.

Lemma find_token_Some b k token : find_token b k = Some token -> b_Active b !! token = Some k.
Proof.
  unfold find_token. destruct (list_find _ _) as [[i [t c]]|] eqn:E; [|done]. intros [= <-].
  apply list_find_Some in E as (Hi & Hc & _). cbn in Hc. subst c.
  apply elem_of_map_to_list. by eapply list_elem_of_lookup_2.
Qed.

Lemma abandon_sim s n d A rj rb p ask rev stmt a m d1 : sim s n d A -> Z.of_nat n < 2 ^ 62 ->
  abandon_tx s rj rb p ask rev stmt (O, d) = Ok (Commit a, (m, d1)) -> simulated s n A None d1.
Proof.
  intros Hsim Hn Hrun. unfold abandon_tx in Hrun. tinv.
  rename select (readBudget _ _ _ = _) into Hr. apply (readBudget_Ok _ _ _ _ _ _ _ _ Hsim) in Hr as [-> ->].
  cbn beta iota in Hrun. tinv.
  rename select (read_job _ _ _ _ = _) into Hj.
  apply (read_job_Ok _ _ _ _ _ _ _ _ _ Hsim) in Hj as (-> & Hj & Hcan & Hmax & Hkey & Hjok & _).
  destruct (find_token (a_budget A) (p, ask)) as [tok|] eqn:Et; cbn [of_option] in *; tinv.
  match goal with E : find_token _ _ = Some ?t |- _ => rename t into token; apply find_token_Some in E as Htok end.
  destruct (open_budget_ok _ _ _ _ (sim_budget _ _ _ _ Hsim)) as (Hb & Hd & Hc).
  assert (delete token (b_Active (a_budget A)) ⊆ b_Active (a_budget A)) as Hsub by apply delete_subseteq.
  destruct (released_budget _ _ _ _ Hb Hd Hsub) as [Hb' Hd'].
  assert (forall ph x, job_key (next_job x0 ph x) = (p, ask)) as Hk' by (intros; by rewrite <- Hkey).
  rename select (writeBudget _ _ _ _ _ _ = _) into Hwb.
  destruct (decide (j_Phase x0 = ProviderStarted)) as [Hps|Hps].
  - rewrite (bool_decide_eq_true_2 _ Hps) in *. tinv.
    rename select (writeProviderJob _ _ _ _ _ = _) into Hw. apply writeProviderJob_Ok in Hw as (sealed & Henc & ->).
    apply writeBudget_Ok in Hwb as (bsealed & Hbenc & Hst). injection Hst as -> ->.
    destruct (encoded_next _ _ _ _ _ _ Hjok Hmax Henc) as [Hnext Hle]. rewrite Hnext in *.
    cbn [binding_sealed set_jobs jobs]. rewrite Hk' in *.
    destruct (rewritten_rows _ _ _ _ _ _ _ _ _ Hsim Hj (Hk' _ _) Henc Hcan Hle) as (Hdom & Hrows & Hold).
    assert (astep A None (mkA (<[(p, ask) := next_job x0 Unknown (j_Data x0)]> (a_jobs A))
              (with_active (a_budget A) (delete token (b_Active (a_budget A)))))) as Hstep
      by (apply (as_abandon A _ x0); try done; by left).
    eexists. split; [exact Hstep|]. eapply (sim_write_budget s n d A _ _ rb); try done.
    by apply (tokens_valid (a_budget A)).
  - rewrite (bool_decide_eq_false_2 _ Hps) in *. tinv.
    apply writeBudget_Ok in Hwb as (bsealed & Hbenc & Hst). injection Hst as -> ->.
    assert (j_Phase x0 = Unknown) as Hun.
    { rename select (_ || _ = true) into Hor. apply orb_true_iff in Hor as [Hor|?]; [|done].
      by apply bool_decide_eq_true in Hor. }
    assert (astep A None (mkA (<[(p, ask) := x0]> (a_jobs A))
              (with_active (a_budget A) (delete token (b_Active (a_budget A)))))) as Hstep
      by (apply (as_abandon A _ x0); try done; by right).
    assert (<[(p, ask) := x0]> (a_jobs A) = a_jobs A) as Hid by (by apply insert_id).
    eexists. split; [exact Hstep|]. eapply (sim_write_budget s n d A _ _ rb); try done.
    + by apply (tokens_valid (a_budget A)).
    + cbn. rewrite Hid. apply (sim_domain _ _ _ _ Hsim).
    + cbn. rewrite Hid. apply (sim_jobs _ _ _ _ Hsim).
    + cbn. by rewrite Hid.
Qed.

(** *** CompareAndSwap and Revoke *)
Record patch_ok (s : Store) (A : AState) (p : Patch) : Prop := {
  po_key : job_key (pt_job p) = job_key (pt_stored p);
  po_seen : exists j, a_jobs A !! job_key (pt_stored p) = Some j /\ j_Revision (pt_stored p) <= j_Revision j /\
    (j_Revision j = j_Revision (pt_stored p) -> j = pt_stored p);
  po_advance : advance (pt_stored p) (set_data (pt_job p) (canon (j_Data (pt_job p))));
  po_encoded : exists rand, encode s rand (pt_job p) = Ok (pt_sealed p);
  po_revision : j_Revision (pt_job p) <= max_int64;
}.

Lemma patch_ok_step s A l A' p : patch_ok s A p -> astep A l A' -> patch_ok s A' p.
Proof.
  intros [Hk (j & Hj & Hle & Heq) Ha He Hr] Hstep. constructor; try done.
  destruct (astep_revision _ _ _ _ _ Hstep Hj) as (j' & Hj' & [->|Hlt]); [eauto|].
  exists j'. split; [done|]. split; [lia|]. intros. lia.
Qed.

Lemma Get_Ok s n d A io p a j : sim s n d A -> Get s io d p a = Ok j ->
  a_jobs A !! (p, a) = Some j /\ canon (j_Data j) = j_Data j /\ j_Revision j <= max_int64 /\
  job_key j = (p, a) /\ job_ok j = true.
Proof.
  intros Hsim. unfold Get. destruct io; [|done]. destruct (jobs d !! (p, a)) as [row|] eqn:Er; [|done].
  intros Hs. destruct (sim_lookup _ _ _ _ _ _ Hsim Er) as (j' & Hj & Hs' & Hc & Hm).
  assert (j' = j) as -> by congruence. apply scan_key in Hs as (? & _ & _ & _ & ?). done.
Qed.

Lemma same_ask_canon x y : same_ask x y = true -> canon y = y -> ask_of (canon x) = ask_of y.
Proof.
  unfold same_ask. intros Hs Hc. rinv.
  repeat match goal with E : str_eqb _ _ = true |- _ => apply str_eqb_eq in E end.
  rewrite <- Hc. unfold ask_of, canon. cbn. congruence.
Qed.

(** The read half of [replace]: what its two callers share. *)
Record read_ok (s : Store) (A : AState) (expected : Job) (next : Phase) (rev : bool) (x : Data) (p : Patch) : Prop := {
  ro_stored : a_jobs A !! job_key expected = Some (pt_stored p);
  ro_canon : canon (j_Data (pt_stored p)) = j_Data (pt_stored p);
  ro_key : job_key (pt_stored p) = job_key expected;
  ro_phase : j_Phase (pt_stored p) = j_Phase expected;
  ro_revoked : j_Revoked (pt_stored p) = j_Revoked expected;
  ro_job : pt_job p = mkJob (j_ProjectID expected) (j_AskID expected) (j_Revision (pt_stored p) + 1) next rev
             (if rev && negb (j_Revoked expected) then j_Data (pt_stored p) else x);
  ro_max : j_Revision (pt_stored p) + 1 <= max_int64;
  ro_encoded : exists rand, encode s rand (pt_job p) = Ok (pt_sealed p);
  ro_ask : same_ask x (j_Data (pt_stored p)) = true;
  ro_reply : j_Revoked expected = true -> dt_ReplyID (j_Data (pt_stored p)) <> "" /\
    dt_ReplyID x = dt_ReplyID (j_Data (pt_stored p)) /\ dt_ReplyDigest x = dt_ReplyDigest (j_Data (pt_stored p));
}.

Lemma replace_read_Ok s n d A rand io expected next rev x p :
  sim s n d A ->
  replace_read s rand io d expected
    (mkJob (j_ProjectID expected) (j_AskID expected) (wrap64 (j_Revision expected + 1)) next rev x) = Ok p ->
  read_ok s A expected next rev x p.
Proof.
  intros Hsim Hr. unfold replace_read in Hr.
  apply rbind_Ok in Hr as (stored & Hget & Hr).
  apply rbind_Ok in Hr as (u1 & Hg1 & Hr). apply guard_Ok in Hg1.
  apply rbind_Ok in Hr as (u2 & Hask & Hr). apply guard_Ok in Hask.
  apply rbind_Ok in Hr as (u3 & Hrep & Hr). apply guard_Ok, negb_true_iff in Hrep.
  apply rbind_Ok in Hr as (sealed & Henc & Hr). injection Hr as <-.
  destruct (Get_Ok _ _ _ _ _ _ _ _ Hsim Hget) as (Hst & Hc & Hm & Hk & Hjok).
  apply andb_true_iff in Hg1 as [[Hrev Hph]%andb_true_iff Hrv].
  apply Z.eqb_eq in Hrev. apply bool_decide_eq_true in Hph. apply Bool.eqb_prop in Hrv.
  cbn [j_Revoked j_Data] in *.
  assert (wrap64 (j_Revision expected + 1) = j_Revision stored + 1 /\ j_Revision stored + 1 <= max_int64) as [Hw Hmax].
  { rewrite <- Hrev. apply next_revision; [split; [by apply job_ok_revision|done]|].
    apply encode_ok, job_ok_revision in Henc. rewrite <- Hrev in Henc.
    by destruct (rev && negb (j_Revoked expected)). }
  rewrite Hw in *.
  constructor; cbn [pt_stored pt_job pt_sealed]; try done.
  - unfold set_data. cbn. by case_if.
  - eexists. exact Henc.
  - intros Hv. rewrite Hv in Hrep. cbn [andb] in Hrep. rinv.
    repeat match goal with E : str_eqb _ _ = true |- _ => apply str_eqb_eq in E end.
    split; [by apply str_eqb_neq|]. done.
Qed.

Lemma read_ok_patch s A expected next rev x p : read_ok s A expected next rev x p ->
  move (pt_stored p) (set_data (pt_job p) (canon (j_Data (pt_job p)))) ->
  patch_ok s A p.
Proof.
  intros [Hst Hc Hk Hph Hrv Hjob Hmax Henc Hask Hrep] Hmove.
  assert (job_key (pt_job p) = job_key (pt_stored p)) as Hkey by (rewrite Hjob, Hk; done).
  constructor; try done.
  - exists (pt_stored p). rewrite Hk. split; [done|]. split; [lia|done].
  - split; [by rewrite <- Hkey|]. split; [by rewrite Hjob|]. split; [|done]. cbn [set_data j_Data].
    rewrite Hjob. cbn [j_Data]. case_if; [by rewrite Hc|by apply same_ask_canon].
  - by rewrite Hjob.
Qed.

Lemma CompareAndSwap_patch s n d A rand io expected next x p : sim s n d A ->
  CompareAndSwap s rand io d expected next x = Ok p -> patch_ok s A p.
Proof.
  intros Hsim Hcas. unfold CompareAndSwap in Hcas.
  apply rbind_Ok in Hcas as (u1 & Hg1 & Hcas). apply guard_Ok, negb_true_iff, orb_false_iff in Hg1 as [Hn1 Hn2].
  apply rbind_Ok in Hcas as (u2 & Hg2 & Hcas). apply guard_Ok, negb_true_iff in Hg2.
  apply rbind_Ok in Hcas as (u3 & Hg3 & Hcas). apply guard_Ok, andb_true_iff in Hg3 as [Hal _].
  apply bool_decide_eq_false in Hn1, Hn2.
  pose proof (replace_read_Ok _ _ _ _ _ _ _ _ _ _ _ Hsim Hcas) as Hro.
  apply (read_ok_patch _ _ _ _ _ _ _ Hro). destruct Hro as [Hst Hc Hk Hph Hrv Hjob Hmax Henc Hask Hrep].
  assert (j_Data (pt_job p) = x) as Hx by (rewrite Hjob; cbn; by destruct (j_Revoked expected)).
  apply mv_swap; cbn [set_data j_Revoked j_Phase]; rewrite ?Hx, ?Hph; rewrite ?Hjob; cbn [j_Revoked j_Phase]; try done.
  intros Hv. rewrite Hrv in Hv. destruct (Hrep Hv) as (H1' & H2' & H3'). rewrite Hv in Hg2. cbn [andb] in Hg2. rinv.
  cbn [set_data j_Data]. split; [done|]. split; [done|]. split; [done|].
  rewrite <- Hc. unfold canon. cbn. rewrite H2', H3'. done.
Qed.

Lemma Revoke_patch s n d A rand io expected p : sim s n d A ->
  Revoke s rand io d expected = Ok p -> patch_ok s A p.
Proof.
  intros Hsim Hr. unfold Revoke in Hr. apply rbind_Ok in Hr as (u1 & Hg1 & Hr).
  apply guard_Ok, negb_true_iff in Hg1.
  pose proof (replace_read_Ok _ _ _ _ _ _ _ _ _ _ _ Hsim Hr) as Hro.
  apply (read_ok_patch _ _ _ _ _ _ _ Hro). destruct Hro as [Hst Hc Hk Hph Hrv Hjob Hmax Henc Hask Hrep].
  rewrite Hg1 in Hjob. cbn [andb negb] in Hjob.
  apply mv_revoke; cbn [set_data j_Revoked j_Phase j_Data]; rewrite ?Hjob; cbn [j_Revoked j_Phase j_Data]; try done;
    congruence.
Qed.

(** The write half: an unchanged ledger or one step of the contract. *)
Lemma replace_write_sim s n d A out p r d' : sim s n d A -> patch_ok s A p ->
  replace_write out d p = (r, d') -> d' = d \/ simulated s n A None d'.
Proof.
  intros Hsim [Hk (j & Hj & Hle & Heq) Ha [rand He] Hr] Hw. unfold replace_write in Hw.
  destruct (jobs d !! job_key (pt_job p)) as [row|] eqn:Erow.
  2:{ left. destruct out; by injection Hw as _ <-. }
  destruct (row_matches (pt_stored p) row) eqn:Em.
  2:{ left. destruct out; by injection Hw as _ <-. }
  assert (d' = d \/ d' = set_jobs d (<[job_key (pt_job p) := job_row (pt_job p) (pt_sealed p)]> (jobs d))) as [->| ->].
  { destruct out; injection Hw as _ <-; auto. }
  { by left. }
  right. destruct (sim_lookup _ _ _ _ _ _ Hsim Erow) as (j' & Hj' & Hs & Hc & Hm).
  rewrite Hk in Hj'. assert (j' = j) as -> by congruence.
  unfold row_matches in Em. apply andb_true_iff in Em as [[Hm1 _]%andb_true_iff _]. apply Z.eqb_eq in Hm1.
  apply scan_key in Hs as (_ & Hrev & _).
  assert (j = pt_stored p) as -> by (apply Heq; lia).
  pose proof (scan_encode _ _ _ _ He) as Hnew.
  destruct (sim_utf8 _ _ _ _ Hsim _ _ Hj) as [Hu1 Hu2].
  set (j' := set_data (pt_job p) (canon (j_Data (pt_job p)))) in *.
  assert (astep A None (mkA (<[job_key (pt_job p) := j']> (a_jobs A)) (a_budget A))) as Hstep.
  { apply (as_advance A _ (pt_stored p)); [by rewrite Hk|done]. }
  eexists. split; [exact Hstep|].
  apply (sim_mono s n); [lia|]. destruct d as [bd br bs js]. cbn in *.
  apply (sim_insert s n (mkLDB bd br bs js) A); try done.
  - cbn. apply canon_idem.
  - by rewrite Hk.
  - by rewrite Hk.
  - apply (sim_budget _ _ _ _ Hsim).
  - apply (sim_revision _ _ _ _ Hsim).
  - by apply (astep_ok _ _ _ (sim_ok _ _ _ _ Hsim) Hstep).
Qed.

(** *** Insert *)
Lemma Insert_sim s n d A rand out io later p a x r d' : sim s n d A ->
  utf8_valid p = true -> utf8_valid a = true ->
  Insert s rand out io d later p a x = (r, d') -> d' = d \/ simulated s n A None d'.
Proof.
  intros Hsim Hu1 Hu2 Hi. unfold Insert in Hi.
  destruct (encode s rand _) as [sealed|err] eqn:Henc; [|left; by injection Hi as _ <-].
  destruct (jobs d !! (p, a)) as [row|] eqn:Erow.
  { left. destruct out; by injection Hi as _ <-. }
  set (j := mkJob p a 1 Queued false x) in *.
  assert (d' = d \/ d' = set_jobs d (<[(p, a) := job_row j sealed]> (jobs d))) as [->| ->].
  { destruct out; injection Hi as _ <-; auto. }
  { by left. }
  right. pose proof (scan_encode _ _ _ _ Henc) as Hnew.
  assert (astep A None (mkA (<[(p, a) := set_data j (canon x)]> (a_jobs A)) (a_budget A))) as Hstep.
  { apply as_insert; try done. by apply (sim_domain _ _ _ _ Hsim). }
  eexists. split; [exact Hstep|].
  apply (sim_mono s n); [lia|]. destruct d as [bd br bs js]. cbn in *.
  apply (sim_insert s n (mkLDB bd br bs js) A); try done.
  - cbn. apply canon_idem.
  - apply (sim_budget _ _ _ _ Hsim).
  - apply (sim_revision _ _ _ _ Hsim).
  - by apply (astep_ok _ _ _ (sim_ok _ _ _ _ Hsim) Hstep).
Qed.
End refine.
End LedgerRefine.
