(* ===== verification/LedgerProps.v ===== *)
(** * What the text bridge ledger guarantees

    Histories of the ledger are sequences of its operations under any faults,
    with the two statements of CompareAndSwap and Revoke as separate steps. *)
From Stdlib Require Import Ascii Strings.Byte ZArith Lia.
From S2P Require Import Prelude GoStrings FabricRef SqlTx Ledger LedgerInv.
#[local] Open Scope Z_scope.
#[local] Arguments str_eqb _ _ : simpl never.

Module LedgerProps.
Import Ledger LedgerSpec LedgerRefine Calendar.

Section steps.
Context `{Sha256, Aead, LedgerJson}.

(** The tables and the patches between the two statements of [replace]. *)
Notation state := (LDB * list Patch)%type.

(** The provider call a ClaimProvider transaction made durable, if it did. *)
Definition claim_label (d d' : LDB) (day : string) (k : JobKey) : option (string * JobKey) :=
  match jobs d !! k, jobs d' !! k with
  | Some r, Some r' =>
      if bool_decide (jr_phase r = Queued) && bool_decide (jr_phase r' = ProviderStarted)
      then Some (day, k) else None
  | _, _ => None
  end.

Inductive cstep (s : Store) : state -> option (string * JobKey) -> state -> Prop :=
| cs_insert d ps rand out io later p a x r d' : utf8_valid p = true -> utf8_valid a = true ->
    Insert s rand out io d later p a x = (r, d') -> cstep s (d, ps) None (d', ps)
| cs_swap d ps rand io expected next x p :
    CompareAndSwap s rand io d expected next x = Ok p -> cstep s (d, ps) None (d, p :: ps)
| cs_revoke d ps rand io expected p :
    Revoke s rand io d expected = Ok p -> cstep s (d, ps) None (d, p :: ps)
| cs_write d ps1 p ps2 out r d' : replace_write out d p = (r, d') ->
    cstep s (d, ps1 ++ p :: ps2) None (d', ps1 ++ ps2)
| cs_enable d ps io rand e r d' : SetEnabled s io rand d e = (r, d') -> cstep s (d, ps) None (d', ps)
| cs_claim d ps io rd expected now r d' : ClaimProvider s io rd d expected now = (r, d') ->
    cstep s (d, ps) (claim_label d d' (utc_day now) (job_key expected)) (d', ps)
| cs_finish d ps io rj rb p a token output ok r d' :
    FinishProvider s io rj rb d p a token output ok = (r, d') -> cstep s (d, ps) None (d', ps)
| cs_abandon d ps io rj rb p a rev r d' :
    AbandonProviderClaim s io rj rb d p a rev = (r, d') -> cstep s (d, ps) None (d', ps).

(** A history with its number of steps and the provider calls it admitted. *)
Inductive crun (s : Store) (x : state) : nat -> list (string * JobKey) -> state -> Prop :=
| crun_nil : crun s x 0 [] x
| crun_step n ls y l z : crun s x n ls y -> cstep s y l z ->
    crun s x (S n) (match l with Some c => ls ++ [c] | None => ls end) z.

Context `{!AeadLaws _, !LedgerJsonLaws _}.

Definition invariant (s : Store) (n : nat) (x : state) (A : AState) : Prop :=
  sim s n x.1 A /\ Forall (patch_ok s A) x.2.

Lemma patches_step s A l A' ps : astep A l A' -> Forall (patch_ok s A) ps -> Forall (patch_ok s A') ps.
Proof. intros Hs Hps. eapply Forall_impl; [exact Hps|]. intros p Hp. by eapply patch_ok_step. Qed.

Lemma invariant_step s n A l d' ps' :
  Forall (patch_ok s A) ps' -> simulated s n A l d' -> exists A', astep A l A' /\ invariant s (S n) (d', ps') A'.
Proof.
  intros Hps (A' & Hstep & Hsim). exists A'. split; [done|]. split; [done|]. by eapply patches_step.
Qed.

(** A transaction that persists is its body's step, whatever was reported. *)
Lemma run_tx_simulated {B} s n d A l io (body : Tx LDB LedgerErr (finish B)) r d' :
  sim s n d A -> run_tx ErrIO io d body = (r, d') ->
  (forall stmt a m d1, body stmt (O, d) = Ok (Commit a, (m, d1)) -> simulated s n A l d1) ->
  d' = d \/ simulated s n A l d'.
Proof.
  intros Hsim Hrun Hbody. apply run_tx_cases in Hrun as [[-> _]|[(a & st & _ & _ & ->)|(a & m & Hb & _)]]; auto.
  right. by eapply Hbody.
Qed.

Lemma claim_label_commit s n d A d' A' day k :
  sim s n d A -> sim s (S n) d' A' -> astep A (Some (day, k)) A' -> claim_label d d' day k = Some (day, k).
Proof.
  intros Hsim Hsim' Hstep. inversion Hstep as [| | | |k0 j0 day0 token He Hj Hp Hv Hday b Hc Hs Hn| | |]; subst.
  clear Hstep. unfold claim_label.
  destruct (jobs d !! k) as [row|] eqn:Er; [|apply (sim_domain _ _ _ _ Hsim) in Er; congruence].
  destruct (sim_jobs _ _ _ _ Hsim _ _ _ Er Hj) as [Hscan _]. apply scan_key in Hscan as (_ & _ & Hph & _).
  destruct (jobs d' !! k) as [row'|] eqn:Er'.
  2:{ apply (sim_domain _ _ _ _ Hsim') in Er'. cbn in Er'. by rewrite lookup_insert_eq in Er'. }
  destruct (sim_jobs _ _ _ _ Hsim' _ _ (next_job j0 ProviderStarted (j_Data j0)) Er') as [Hscan' _].
  { cbn. by rewrite lookup_insert_eq. }
  apply scan_key in Hscan' as (_ & _ & Hph' & _). cbn in Hph'.
  by rewrite !bool_decide_eq_true_2 by congruence.
Qed.

Lemma claim_label_same d day k : claim_label d d day k = None.
Proof. unfold claim_label. destruct (jobs d !! k) as [r|]; [|done]. case_if; [|done]. rinv. congruence. Qed.

(** Every step of the ledger is a step of the contract. *)
Lemma cstep_refines s n x A l y : invariant s n x A -> Z.of_nat n < 2 ^ 62 -> cstep s x l y ->
  exists A', astep A l A' /\ invariant s (S n) y A'.
Proof.
  intros [Hsim Hps] Hn Hstep.
  assert (forall d' ps', d' = x.1 \/ simulated s n A None d' -> Forall (patch_ok s A) ps' ->
    exists A', astep A None A' /\ invariant s (S n) (d', ps') A') as Hcase.
  { intros d' ps' [->|Hs] Hps'; [|by eapply (invariant_step s n)].
    exists A. split; [constructor|]. split; [by eapply sim_mono; [|done]; lia|done]. }
  destruct Hstep as [d ps rand out io later p a dt r d' Hu1 Hu2 Hi|d ps rand io expected next dt p Hi
    |d ps rand io expected p Hi|d ps1 p ps2 out r d' Hi|d ps io rand e r d' Hi|d ps io rd expected now r d' Hi
    |d ps io rj rb p a token output ok r d' Hi|d ps io rj rb p a rev r d' Hi]; cbn [fst snd] in *.
  - apply Hcase; [|done]. exact (Insert_sim _ _ _ _ _ _ _ _ _ _ _ _ _ Hsim Hu1 Hu2 Hi).
  - apply Hcase; [by left|]. constructor; [|done]. by eapply CompareAndSwap_patch.
  - apply Hcase; [by left|]. constructor; [|done]. by eapply Revoke_patch.
  - apply Forall_app in Hps as [Hp1 Hp2]. apply Forall_cons in Hp2 as [Hp Hp2].
    apply Hcase; [|by apply Forall_app]. by eapply replace_write_sim.
  - apply Hcase; [|done]. eapply run_tx_simulated; [done..|]. intros. by eapply set_enabled_sim.
  - assert (d' = d \/ simulated s n A (Some (utc_day now, job_key expected)) d') as [->|(A' & Hs & Hsim')].
    { eapply run_tx_simulated; [done..|]. intros. by eapply claim_provider_sim. }
    + rewrite claim_label_same. apply Hcase; [by left|done].
    + rewrite (claim_label_commit _ _ _ _ _ _ _ _ Hsim Hsim' Hs). exists A'. split; [done|].
      split; [done|]. by eapply patches_step.
  - apply Hcase; [|done]. eapply run_tx_simulated; [done..|]. intros. by eapply finish_provider_sim.
  - apply Hcase; [|done]. eapply run_tx_simulated; [done..|]. intros. by eapply abandon_sim.
Qed.

(** Histories of the contract compose. *)
Inductive asteps (A : AState) : list (string * JobKey) -> AState -> Prop :=
| asteps_nil : asteps A [] A
| asteps_step ls A' l A'' : asteps A ls A' -> astep A' l A'' ->
    asteps A (match l with Some x => ls ++ [x] | None => ls end) A''.

Lemma crun_refines s n0 x A n ls y : invariant s n0 x A -> Z.of_nat (n0 + n) < 2 ^ 62 -> crun s x n ls y ->
  exists A', asteps A ls A' /\ invariant s (n0 + n) y A'.
Proof.
  intros Hinv Hn Hrun. induction Hrun as [|n ls y l z Hrun IH Hstep].
  - exists A. rewrite Nat.add_0_r. split; [constructor|done].
  - destruct IH as (A1 & Hs1 & Hi1); [lia|].
    destruct (cstep_refines _ _ _ _ _ _ Hi1 ltac:(lia) Hstep) as (A2 & Hs2 & Hi2).
    exists A2. rewrite Nat.add_succ_r. split; [by econstructor|done].
Qed.

Lemma asteps_arun A ls A' : asteps A ls A' -> arun A ls A'.
Proof. induction 1; by econstructor. Qed.

Lemma initialize_inv s r1 r2 d : limits_valid (st_limits s) = true -> initialize s r1 r2 = Ok d ->
  invariant s 0 (d, []) (initial (st_limits s)).
Proof.
  intros Hlv Hi. unfold initialize in Hi. apply rbind_Ok in Hi as (sealed & Hseal & Hi).
  apply rbind_Ok in Hi as (bsealed & Hb & Hi). injection Hi as <-.
  split; [|constructor]. constructor; cbn; try done; try lia.
  - by eapply unseal_seal.
  - eapply open_encode; [done| |].
    + split; [done|]. intros t k Ht. cbn in Ht. by rewrite lookup_empty in Ht.
    + unfold limits_valid in Hlv. apply andb_true_iff in Hlv as [Hl1 Hl2].
      assert (claims_ok (initial_budget (st_limits s)) = true) as ->
        by (apply claims_ok_spec; split; intros *; cbn; rewrite lookup_empty; done).
      assert (day_ok (initial_budget (st_limits s)) = true) as -> by done.
      rewrite !andb_true_r. unfold budget_ok. cbn. rewrite bool_decide_eq_true_2 by done.
      unfold limits_valid. rewrite Hl1, Hl2. cbn. rewrite map_size_empty.
      replace (CallsPerDay (st_limits s) <? 0) with false by lia.
      by replace (MaxConcurrent (st_limits s) <? Z.of_nat 0) with false by lia.
Qed.

Lemma history_refines s r1 r2 d0 n ls d ps : limits_valid (st_limits s) = true ->
  initialize s r1 r2 = Ok d0 -> crun s (d0, []) n ls (d, ps) -> Z.of_nat n < 2 ^ 62 ->
  exists A, arun (initial (st_limits s)) ls A /\ invariant s n (d, ps) A /\ a_ok A /\ history_ok ls A /\
    b_Limits (a_budget A) = st_limits s.
Proof.
  intros Hlv Hinit Hrun Hn. pose proof (initialize_inv _ _ _ _ Hlv Hinit) as Hinv.
  destruct (crun_refines _ _ _ _ _ _ _ Hinv Hn Hrun) as (A & Hs & Hi). apply asteps_arun in Hs.
  destruct (arun_ok (st_limits s) ls A) as (Hok & Hh & HL); [|done|].
  { unfold limits_valid in Hlv. rinv. lia. }
  exists A. done.
Qed.

Lemma authenticates s n d A : sim s n d A -> authenticate s d = Ok tt.
Proof.
  intros Hsim. unfold authenticate. rewrite (sim_binding _ _ _ _ Hsim). cbn [rbind].
  rewrite bool_decide_eq_true_2 by done. cbn [guard rbind].
  unfold run_read, readBudget, tx_bind, tx_query, tx_lift. cbn [io_ok io_stmt fst snd].
  rewrite (sim_budget _ _ _ _ Hsim). cbn [rbind]. unfold List_. cbn [forallb guard rbind].
  assert (forall rows, (forall k r, (k, r) ∈ rows -> jobs d !! k = Some r) -> exists js, scan_all s rows = Ok js) as Hall.
  { induction rows as [|[k r] rows IH]; intros Hin; [by eexists|]. cbn.
    destruct (sim_lookup s n d A k r Hsim) as (j & _ & Hs & _); [apply Hin; left|].
    destruct IH as [js Hjs]; [intros; apply Hin; by right|]. rewrite Hs, Hjs. by eexists. }
  destruct (Hall (select_rows (by_key job_order) (fun _ _ => true) (jobs d))) as [js ->]; [|done].
  intros k r Hin. by apply elem_of_select_rows in Hin as [? _].
Qed.

(** C30. The ledger refines its contract: after any history of operations,
    statement failures, lost and ambiguous commits, and interleavings of the two
    halves of CompareAndSwap and Revoke, there is a history of the abstract job
    machine with the same admitted provider calls that leads to a map of jobs and a
    budget which the tables hold: each row opens to the abstract job under its key,
    the budget row opens to the abstract budget, and no row is missing or extra. *)
Theorem ledger_refines_contract s r1 r2 d0 n ls d ps :
  limits_valid (st_limits s) = true -> initialize s r1 r2 = Ok d0 ->
  crun s (d0, []) n ls (d, ps) -> Z.of_nat n < 2 ^ 62 ->
  exists A, arun (initial (st_limits s)) ls A /\
    open_budget s (budget_revision d) (budget_sealed d) = Ok (budget_revision d, a_budget A) /\
    (forall k, jobs d !! k = None <-> a_jobs A !! k = None) /\
    (forall k row j, jobs d !! k = Some row -> a_jobs A !! k = Some j -> scan s k row = Ok j).
Proof.
  intros Hlv Hi Hrun Hn. destruct (history_refines _ _ _ _ _ _ _ _ Hlv Hi Hrun Hn) as (A & Ha & [Hsim _] & _).
  exists A. split; [done|]. split; [by apply (sim_budget _ _ _ _ Hsim)|].
  split; [by apply (sim_domain _ _ _ _ Hsim)|]. intros k row j Hr Hj.
  by destruct (sim_jobs _ _ _ _ Hsim _ _ _ Hr Hj).
Qed.

(** Recovery: after any such history the ledger authenticates on reopen:
    the binding row, the budget row and every job row open and pass their checks. *)
Theorem ledger_reopens_after_any_history s r1 r2 d0 n ls d ps :
  limits_valid (st_limits s) = true -> initialize s r1 r2 = Ok d0 ->
  crun s (d0, []) n ls (d, ps) -> Z.of_nat n < 2 ^ 62 -> authenticate s d = Ok tt.
Proof.
  intros Hlv Hi Hrun Hn. destruct (history_refines _ _ _ _ _ _ _ _ Hlv Hi Hrun Hn) as (A & _ & [Hsim _] & _).
  by eapply authenticates.
Qed.

(** C31. The owner's allowances are never exceeded: over any history at most
    CallsPerDay provider calls are admitted for one UTC day, each ASK gets at most
    one provider call ever, and at most MaxConcurrent reservations are open, where
    every job whose call has started holds a reservation of its own. *)
Theorem provider_budget_is_never_exceeded s r1 r2 d0 n ls d ps :
  limits_valid (st_limits s) = true -> initialize s r1 r2 = Ok d0 ->
  crun s (d0, []) n ls (d, ps) -> Z.of_nat n < 2 ^ 62 ->
  (forall day, calls_on day ls <= CallsPerDay (st_limits s)) /\ NoDup ls.*2 /\
  exists b, open_budget s (budget_revision d) (budget_sealed d) = Ok (budget_revision d, b) /\
    Z.of_nat (size (b_Active b)) <= MaxConcurrent (st_limits s) /\
    (forall k row, jobs d !! k = Some row -> jr_phase row = ProviderStarted ->
       exists token, b_Active b !! token = Some k) /\
    (forall t t' k, b_Active b !! t = Some k -> b_Active b !! t' = Some k -> t = t').
Proof.
  intros Hlv Hi Hrun Hn.
  destruct (history_refines _ _ _ _ _ _ _ _ Hlv Hi Hrun Hn) as (A & _ & [Hsim _] & Hok & Hh & HL). cbn in Hsim.
  split; [intros day; rewrite <- HL; apply (h_bound _ _ Hh)|]. split; [apply (h_once _ _ Hh)|].
  pose proof (sim_budget _ _ _ _ Hsim) as Hb. exists (a_budget A). split; [done|].
  destruct (open_budget_ok _ _ _ _ Hb) as (Hbok & _ & _).
  split; [unfold budget_ok in Hbok; rewrite <- HL; rinv; lia|]. split; [|apply (ok_distinct _ Hok)].
  intros k row Hr Hph. destruct (sim_lookup _ _ _ _ _ _ Hsim Hr) as (j & Hj & Hs & _).
  apply scan_key in Hs as (_ & _ & Hp & _). eapply (ok_started _ Hok); [done|congruence].
Qed.

(** How a recorded job may differ at two points of a history. *)
Definition job_evolves (j j' : Job) : Prop :=
  job_key j' = job_key j /\ ask_of (j_Data j') = ask_of (j_Data j) /\ j_Revision j <= j_Revision j' /\
  (j_Revoked j = true -> j_Revoked j' = true) /\ (j_Phase j <> Queued -> j_Phase j' <> Queued) /\
  (j_Phase j = PhaseAdmitted \/ j_Phase j = Rejected \/ j_Phase j = Unknown -> j_Phase j' = j_Phase j) /\
  (j_Revoked j = true -> j_Phase j' = ReplyPreparing \/ j_Phase j' = ReplyPrepared -> j_Phase j' = j_Phase j) /\
  (j_Revoked j = true -> j_Phase j' = PhaseAdmitted ->
     j_Phase j = PhaseAdmitted \/ j_Phase j = ReplyPrepared).

Lemma allowed_final from to : allowed from to = true ->
  from <> PhaseAdmitted /\ from <> Rejected /\ from <> Unknown /\ to <> Queued.
Proof.
  intros Ha. split_and!; intros ->; try done. by rewrite allowed_not_queued in Ha.
Qed.

Lemma advance_evolves j j' : advance j j' -> job_evolves j j'.
Proof.
  intros (Hk & Hr & Ha & Hm). unfold job_evolves. split; [done|]. split; [done|]. split; [lia|].
  destruct Hm as [Hv Hv' Hp Hd|Hv Hal Hn1 Hn2 Hrv].
  - rewrite Hp, Hv'. split_and!; try done; congruence.
  - apply allowed_final in Hal as (? & ? & ? & ?). rewrite Hv.
    split_and!; try done.
    + intros [?|[?|?]]; done.
    + intros Ht Hor. destruct (Hrv Ht) as (_ & Hpa & _). destruct Hor; congruence.
    + intros Ht Hpa. destruct (Hrv Ht) as (Hrp & _). by right.
Qed.

(** One step of the contract keeps and evolves every job. *)
Lemma astep_evolves A l A' k j : astep A l A' -> a_jobs A !! k = Some j ->
  exists j', a_jobs A' !! k = Some j' /\ job_evolves j j'.
Proof.
  intros Hstep Hj.
  assert (forall i, job_evolves i i) as Hrefl by (intros i; unfold job_evolves; split_and!; try done; auto).
  assert (forall k0 j0 j1, a_jobs A !! k0 = Some j0 -> job_evolves j0 j1 ->
    exists j', <[k0 := j1]> (a_jobs A) !! k = Some j' /\ job_evolves j j') as Hins.
  { intros k0 j0 j1 Hj0 He. destruct (decide (k0 = k)) as [->|Hne].
    - exists j1. rewrite lookup_insert_eq. by simplify_eq.
    - exists j. by rewrite lookup_insert_ne. }
  assert (forall j0 p x, p = ProviderStarted /\ j_Phase j0 = Queued /\ j_Revoked j0 = false \/
      (p = OutputReady \/ p = Unknown) /\ j_Phase j0 = ProviderStarted ->
    ask_of x = ask_of (j_Data j0) -> job_evolves j0 (next_job j0 p x)) as Hnext.
  { intros j0 p x Hp Hx. unfold job_evolves, next_job, job_key. cbn.
    split_and!; try done; try lia; try (intros; destruct Hp as [(-> & ? & ?)|[[->| ->] ?]]; try done; try congruence; naive_solver congruence). }
  destruct Hstep as [|k0 j0 Hn Hkey Hr Hp Hv|k0 j0 j' Hj0 Hadv|e
    |k0 j0 day token He Hj0 Hp Hv Hday b Hcalls Hsize Hnew|k0 j0 token output Ht Hj0 Hp Ho|k0 j0 token Ht Hj0 Hp
    |k0 j0 token j' He Ht Hj0 Hcase]; cbn; eauto.
  - exists j. rewrite lookup_insert_ne; [auto|]. intros ->. congruence.
  - eapply Hins; [done|]. by apply advance_evolves.
  - eapply Hins; [done|]. apply Hnext; auto.
  - eapply Hins; [done|]. apply Hnext; auto.
  - eapply Hins; [done|]. apply Hnext; auto.
  - eapply Hins; [done|]. destruct Hcase as [[? ->]|[_ ->]]; [apply Hnext; auto|done].
Qed.

Lemma evolves_trans i j k : job_evolves i j -> job_evolves j k -> job_evolves i k.
Proof.
  intros (K1 & A1 & R1 & V1 & Q1 & F1 & P1 & D1) (K2 & A2 & R2 & V2 & Q2 & F2 & P2 & D2).
  unfold job_evolves. split; [congruence|]. split; [congruence|]. split; [lia|]. split; [auto|]. split; [auto|].
  split; [|split].
  - intros Hf. pose proof (F1 Hf) as E. rewrite <- E in Hf. rewrite (F2 Hf). done.
  - intros Hv Hp. pose proof (P2 (V1 Hv) Hp) as E. rewrite E in Hp |- *. by apply P1.
  - intros Hv Hp. destruct (D2 (V1 Hv) Hp) as [Hj|Hj]; [by apply D1|]. right.
    rewrite <- (P1 Hv); [done|]. by right.
Qed.

Lemma asteps_evolve A ls A' k j : asteps A ls A' -> a_jobs A !! k = Some j ->
  exists j', a_jobs A' !! k = Some j' /\ job_evolves j j'.
Proof.
  intros Hs Hj. induction Hs as [|ls A1 l A2 _ (j1 & Hj1 & He1) Hstep].
  - exists j. split; [done|]. unfold job_evolves. split_and!; try done; auto.
  - destruct (astep_evolves _ _ _ _ _ Hstep Hj1) as (j2 & Hj2 & He2).
    exists j2. split; [done|]. by eapply evolves_trans.
Qed.

(** Between any two points of a history a recorded job keeps its identity
    and its ASK (wire bytes and digest, header, input, provider configuration), its
    revision only grows, it never returns to the queue, its final phases are final,
    and a revocation is never undone: from a revoked job no new reply is ever
    prepared, and it is admitted only if its reply was prepared before. *)
Theorem recorded_asks_are_immutable s r1 r2 d0 n1 ls1 d1 ps1 n2 ls2 d2 ps2 k row1 :
  limits_valid (st_limits s) = true -> initialize s r1 r2 = Ok d0 ->
  crun s (d0, []) n1 ls1 (d1, ps1) -> crun s (d1, ps1) n2 ls2 (d2, ps2) -> Z.of_nat (n1 + n2) < 2 ^ 62 ->
  jobs d1 !! k = Some row1 ->
  exists row2 j1 j2, jobs d2 !! k = Some row2 /\ scan s k row1 = Ok j1 /\ scan s k row2 = Ok j2 /\
    job_evolves j1 j2.
Proof.
  intros Hlv Hi Hrun1 Hrun2 Hn Hr1.
  destruct (history_refines _ _ _ _ _ _ _ _ Hlv Hi Hrun1 ltac:(lia)) as (A1 & _ & Hinv & _).
  destruct (crun_refines _ _ _ _ _ _ _ Hinv Hn Hrun2) as (A2 & Hs & [Hsim2 _]).
  destruct Hinv as [Hsim1 _]. cbn in Hsim1, Hsim2.
  destruct (sim_lookup _ _ _ _ _ _ Hsim1 Hr1) as (j1 & Hj1 & Hs1 & _).
  destruct (asteps_evolve _ _ _ _ _ Hs Hj1) as (j2 & Hj2 & He).
  destruct (jobs d2 !! k) as [row2|] eqn:Er2; [|apply (sim_domain _ _ _ _ Hsim2) in Er2; congruence].
  destruct (sim_jobs _ _ _ _ Hsim2 _ _ _ Er2 Hj2) as [Hs2 _]. by exists row2, j1, j2.
Qed.

(** Redelivery of an ASK: on a recorded key Insert changes nothing; it
    returns the recorded job, in whatever phase it is, when the wire digest is the
    recorded one, and a conflict otherwise. On a new key it records the ASK in the
    queue, readable under that key. *)
Theorem insert_deduplicates_asks s r1 r2 d0 n ls d ps rand p a x :
  limits_valid (st_limits s) = true -> initialize s r1 r2 = Ok d0 ->
  crun s (d0, []) n ls (d, ps) -> Z.of_nat n < 2 ^ 62 ->
  is_ok (encode s rand (mkJob p a 1 Queued false x)) = true ->
  match jobs d !! (p, a) with
  | Some row => exists j, scan s (p, a) row = Ok j /\
      Insert s rand Committed true d d p a x =
        ((if str_eqb (dt_WireDigest (j_Data j)) (dt_WireDigest x) then Ok j else Err ErrConflict), d)
  | None => exists d' j, Insert s rand Committed true d d p a x = (Ok (mkJob p a 1 Queued false x), d') /\
      Get s true d' p a = Ok j /\ j_Phase j = Queued /\ dt_WireDigest (j_Data j) = dt_WireDigest x /\
      (forall k, k <> (p, a) -> jobs d' !! k = jobs d !! k)
  end.
Proof.
  intros Hlv Hi Hrun Hn Henc.
  destruct (history_refines _ _ _ _ _ _ _ _ Hlv Hi Hrun Hn) as (A & _ & [Hsim _] & _). cbn in Hsim.
  destruct (encode s rand _) as [sealed|] eqn:Ee; [|done].
  destruct (jobs d !! (p, a)) as [row|] eqn:Er.
  - destruct (sim_lookup _ _ _ _ _ _ Hsim Er) as (j & _ & Hs & _). exists j. split; [done|].
    unfold Insert. rewrite Ee, Er. unfold Get. rewrite Er, Hs. cbn [rbind].
    by destruct (str_eqb _ _).
  - unfold Insert. rewrite Ee, Er. do 2 eexists. split; [done|].
    unfold Get. cbn [set_jobs jobs]. rewrite lookup_insert_eq.
    pose proof (scan_encode _ _ _ _ Ee) as Hs. unfold job_key in Hs. cbn [j_ProjectID j_AskID] in Hs.
    split; [exact Hs|]. split; [done|]. split; [|intros k Hk; by rewrite lookup_insert_ne].
    cbn. apply encode_ok in Ee. unfold job_ok, validData in Ee. cbn in Ee. rinv.
    match goal with E : str_eqb _ (hex_encode _) = true |- _ => apply str_eqb_eq in E as -> end.
    apply json_string_utf8, CalendarLemmas.ascii_utf8, CalendarLemmas.hex_ascii.
Qed.
End steps.
End LedgerProps.

(** ** A concrete ledger *)
Module LedgerWitness.
Import Ledger LedgerSpec LedgerRefine LedgerProps Calendar FabricRef.RefWitness.

#[export] Instance toy_aead : Aead :=
  {| NonceSize := 2; aead_Seal := fun _ plain aad => be_encode 4 (blen aad) ++ plain;
     aead_Open := fun _ c aad => if bool_decide (take 4 c = be_encode 4 (blen aad)) then Some (drop 4 c) else None |}.

#[export] Instance toy_aead_laws : AeadLaws toy_aead.
Proof.
  constructor. intros nonce plain aad _. cbn [aead_Open aead_Seal toy_aead].
  rewrite take_app_length' by (by rewrite length_be_encode). rewrite bool_decide_eq_true_2 by done.
  by rewrite drop_app_length' by (by rewrite length_be_encode).
Defined.

Definition w_limits : Limits := mkLimits 3 2.
Definition w_lstore : Store := mkLedgerStore (mkBinding "https://host" "principal" "") w_limits.
Definition w_wire : list byte := bytes_of "wire".
Definition w_data : Data := mkData (bytes_of "{}") w_wire (hex_encode (sha256 w_wire)) [x01] "config" [] "" "" (bytes_of "null").
Definition w_at : Time := 1700000000 * 10 ^ 9.
Definition w_tok : list byte := replicate 32 x2a.
Definition w_charged : budgetState :=
  mkBudget w_limits true (utc_day w_at) 1 {[hex_encode w_tok := ("p", "a")]}.

#[export] Instance budget_eq_dec : EqDecision budgetState.
Proof. solve_decision. Defined.

(** A codec for the two budgets and the one payload of the example. *)
#[export] Instance toy_ledger_json : LedgerJson :=
  {| json_Valid := fun _ => true; marshal_binding := fun b => bytes_of (PrincipalID b);
     marshal_job_aad := fun _ k r _ _ => bytes_of (k.1 ++ k.2); marshal_budget_aad := fun _ _ _ => [];
     marshal_data := fun d => if bool_decide (d = w_data) then Some [x01] else None;
     unmarshal_data := fun p => if bool_decide (p = [x01]) then Some w_data else None;
     marshal_budget := fun b => if bool_decide (b = initial_budget w_limits) then Some [x01]
                                else if bool_decide (b = w_charged) then Some [x02] else None;
     unmarshal_budget := fun p => if bool_decide (p = [x01]) then Some (initial_budget w_limits)
                                  else if bool_decide (p = [x02]) then Some w_charged else None |}.

#[export] Instance toy_ledger_json_laws : LedgerJsonLaws toy_ledger_json.
Proof.
  refine {| raw_message := fun b => b; json_string := fun t => if utf8_valid t then t else "" |}.
  - done.
  - done.
  - intros t. by destruct (utf8_valid t) eqn:E.
  - by intros t ->.
  - intros d p. cbn. case_bool_decide; [subst d|done]. intros [= <-]. vm_compute. done.
  - intros b p _. cbn. case_bool_decide; [subst b; by intros [= <-]|].
    case_bool_decide; [subst b; by intros [= <-]|done].
Defined.

Definition w_l0 : LDB := match initialize w_lstore (Some []) (Some []) with Ok d => d | Err _ => mkLDB [] 0 [] ∅ end.
Definition w_l1 : LDB := (Insert w_lstore (Some []) Committed true w_l0 w_l0 "p" "a" w_data).2.
Definition w_job : Job := mkJob "p" "a" 1 Queued false w_data.
Definition w_rand : ClaimRand := mkClaimRand (Some w_tok) (Some []) (Some []).
Definition w_claim := ClaimProvider w_lstore io_ok w_rand w_l1 w_job w_at.
Definition w_l2 : LDB := w_claim.2.

Lemma w_run1 : crun w_lstore (w_l0, []) 1 [] (w_l1, []).
Proof.
  apply (crun_step _ _ 0 [] (w_l0, []) None (w_l1, [])); [constructor|].
  apply (cs_insert w_lstore w_l0 [] (Some []) Committed true w_l0 "p" "a" w_data (Ok w_job)); [done..|].
  vm_compute. reflexivity.
Defined.

Lemma w_claims : cstep w_lstore (w_l1, []) (Some (utc_day w_at, ("p", "a"))) (w_l2, []).
Proof.
  assert (claim_label w_l1 w_l2 (utc_day w_at) (job_key w_job) = Some (utc_day w_at, ("p", "a"))) as <-
    by (vm_compute; reflexivity).
  apply (cs_claim w_lstore w_l1 [] io_ok w_rand w_job w_at w_claim.1). apply surjective_pairing.
Defined.

Lemma w_run2 : crun w_lstore (w_l0, []) 2 [(utc_day w_at, ("p", "a"))] (w_l2, []).
Proof. exact (crun_step _ _ 1 [] (w_l1, []) _ (w_l2, []) w_run1 w_claims). Defined.

Lemma w_init : initialize w_lstore (Some []) (Some []) = Ok w_l0.
Proof. vm_compute. reflexivity. Defined.

Lemma ledger_refines_witness : exists A, arun (initial w_limits) [(utc_day w_at, ("p", "a"))] A /\
  a_budget A = w_charged.
Proof.
  destruct (ledger_refines_contract w_lstore _ _ _ _ _ _ _ eq_refl w_init w_run2 eq_refl) as (A & Hr & Hb & _).
  exists A. split; [exact Hr|].
  assert (open_budget w_lstore (budget_revision w_l2) (budget_sealed w_l2) = Ok (budget_revision w_l2, w_charged)) as E
    by (vm_compute; reflexivity).
  rewrite E in Hb. apply (f_equal (fun r => match r with Ok x => x.2 | Err _ => w_charged end)) in Hb.
  exact (eq_sym Hb).
Defined.

Lemma ledger_reopens_witness : authenticate w_lstore w_l2 = Ok tt.
Proof. exact (ledger_reopens_after_any_history w_lstore _ _ _ _ _ _ _ eq_refl w_init w_run2 eq_refl). Defined.

Lemma provider_budget_witness : calls_on (utc_day w_at) [(utc_day w_at, ("p", "a"))] = 1 /\
  calls_on (utc_day w_at) [(utc_day w_at, ("p", "a"))] <= 3.
Proof.
  split; [vm_compute; reflexivity|].
  apply (provider_budget_is_never_exceeded w_lstore _ _ _ _ _ _ _ eq_refl w_init w_run2 eq_refl).
Defined.

Lemma recorded_asks_witness : exists row2, jobs w_l2 !! ("p", "a") = Some row2 /\ jr_phase row2 = ProviderStarted.
Proof.
  destruct (recorded_asks_are_immutable w_lstore _ _ _ 1 _ w_l1 [] 1 _ w_l2 [] ("p", "a")
    (mkJobRow 1 Queued false (default [] (jr_sealed <$> jobs w_l1 !! ("p", "a")))) eq_refl w_init w_run1
    (crun_step _ _ 0 [] (w_l1, []) _ (w_l2, []) (crun_nil _ _) w_claims) eq_refl) as (row2 & j1 & j2 & Hr & _).
  { vm_compute. reflexivity. }
  exists row2. split; [exact Hr|]. vm_compute in Hr. injection Hr as <-. reflexivity.
Defined.

Definition w_sealed : list byte := default [] (jr_sealed <$> jobs w_l2 !! ("p", "a")).

Lemma insert_dedup_witness :
  Insert w_lstore (Some []) Committed true w_l2 w_l2 "p" "a" w_data = (Ok (next_job w_job ProviderStarted w_data), w_l2).
Proof.
  pose proof (insert_deduplicates_asks w_lstore _ _ _ _ _ _ _ (Some []) "p" "a" w_data eq_refl w_init w_run2
    eq_refl ltac:(vm_compute; reflexivity)) as Hd.
  assert (jobs w_l2 !! ("p", "a") = Some (mkJobRow 2 ProviderStarted false w_sealed)) as Er by (vm_compute; reflexivity).
  assert (scan w_lstore ("p", "a") (mkJobRow 2 ProviderStarted false w_sealed)
          = Ok (next_job w_job ProviderStarted w_data)) as Es by (vm_compute; reflexivity).
  rewrite Er in Hd. destruct Hd as (j & Hs & Hi). rewrite Es in Hs. injection Hs as <-. exact Hi.
Defined.
End LedgerWitness.
