(* ===== verification/Encodings.v ===== *)
(** * Text encodings of the standard library used by the private stores

    [Base64] is encoding/base64's strict RawURLEncoding decoder, the inverse of
    [base64url]; [Stamp] is the RFC3339Nano layout of package time. Both round
    trips are proved here and used by the continuation store. *)
From Stdlib Require Import Ascii Strings.Byte ZArith Lia.
From S2P Require Import Prelude GoStrings Framing Ledger LedgerInv.
#[local] Open Scope Z_scope.

Module Base64.
(** The value of a character of the URL alphabet. *)
Definition b64_value (c : ascii) : option N :=
  if is_upper c then Some (N_of_ascii c - 65)%N
  else if is_lower c then Some (N_of_ascii c - 71)%N
  else if is_digit c then Some (N_of_ascii c + 4)%N
  else if ceq c "-" then Some 62%N
  else if ceq c "_" then Some 63%N
  else None.

(** The decoder skips line breaks anywhere in its input. *)
Fixpoint skip_breaks (s : string) : string :=
  match s with
  | EmptyString => EmptyString
  | String c s' => if (code c =? 10) || (code c =? 13) then skip_breaks s' else String c (skip_breaks s')
  end.

Definition low_zero (n m : N) : bool := (n mod m =? 0)%N.

(** Strict: the unused low bits of the last character are zero. *)
Fixpoint decode_quanta (s : string) : option (list byte) :=
  match s with
  | EmptyString => Some []
  | String a (String b EmptyString) =>
      x ← b64_value a; y ← b64_value b;
      if low_zero y 16 then b ← Byte.of_N (4 * x + y / 16); Some [b] else None
  | String a (String b (String c EmptyString)) =>
      x ← b64_value a; y ← b64_value b; z ← b64_value c;
      if low_zero z 4 then
        p ← Byte.of_N (4 * x + y / 16); q ← Byte.of_N (16 * (y mod 16) + z / 4); Some [p; q]
      else None
  | String a (String b (String c (String d s'))) =>
      x ← b64_value a; y ← b64_value b; z ← b64_value c; w ← b64_value d;
      p ← Byte.of_N (4 * x + y / 16); q ← Byte.of_N (16 * (y mod 16) + z / 4);
      r ← Byte.of_N (64 * (z mod 4) + w);
      rest ← decode_quanta s'; Some (p :: q :: r :: rest)
  | _ => None
  end.

Definition base64url_decode (s : string) : option (list byte) := decode_quanta (skip_breaks s).

(** *** Round trip *)
Lemma below_64 n : (n < 64)%N -> In n (N.of_nat <$> seq 0 64).
Proof.
  intros Hn. apply list_elem_of_In. apply list_elem_of_fmap. exists (N.to_nat n).
  split; [lia|]. apply elem_of_seq. lia.
Qed.

Lemma b64_char_ok n : (n < 64)%N ->
  b64_value (b64_char n) = Some n /\ (code (b64_char n) =? 10) || (code (b64_char n) =? 13) = false.
Proof.
  intros Hn. apply below_64 in Hn.
  assert (Forall (fun n => b64_value (b64_char n) = Some n /\
            (code (b64_char n) =? 10) || (code (b64_char n) =? 13) = false) (N.of_nat <$> seq 0 64)) as Hall.
  { apply (bool_decide_eq_true_1 _). vm_compute. reflexivity. }
  rewrite Forall_forall in Hall. apply Hall. by apply list_elem_of_In.
Qed.

Lemma b64_value_char n : (n < 64)%N -> b64_value (b64_char n) = Some n.
Proof. apply b64_char_ok. Qed.
Lemma b64_char_break n : (n < 64)%N -> (code (b64_char n) =? 10) || (code (b64_char n) =? 13) = false.
Proof. apply b64_char_ok. Qed.

Lemma list_ind3 {A} (P : list A -> Prop) :
  P [] -> (forall x, P [x]) -> (forall x y, P [x; y]) ->
  (forall x y z l, P l -> P (x :: y :: z :: l)) -> forall l, P l.
Proof.
  intros H0 H1 H2 H3. fix IH 1. intros [|x [|y [|z l]]]; [exact H0 | exact (H1 x) | exact (H2 x y) |]. apply H3, IH.
Qed.

(** Six-bit groups of a byte sequence, and their recombination. *)
Lemma sextets x y z : (x < 256)%N -> (y < 256)%N -> (z < 256)%N ->
  (x / 4 < 64 /\ 16 * (x mod 4) + y / 16 < 64 /\ 4 * (y mod 16) + z / 64 < 64 /\ z mod 64 < 64 /\
   4 * (x / 4) + (16 * (x mod 4) + y / 16) / 16 = x /\
   16 * ((16 * (x mod 4) + y / 16) mod 16) + (4 * (y mod 16) + z / 64) / 4 = y /\
   64 * ((4 * (y mod 16) + z / 64) mod 4) + z mod 64 = z)%N.
Proof.
  intros. repeat split; try (zify; Z.to_euclidean_division_equations; lia).
Qed.

Lemma skip_base64url b : skip_breaks (base64url b) = base64url b.
Proof.
  induction b as [|x|x y|x y z b IH] using list_ind3; [done|..];
    pose proof (to_N_lt x); try pose proof (to_N_lt y); try pose proof (to_N_lt z);
    cbn [base64url skip_breaks].
  - destruct (sextets (Byte.to_N x) 0 0) as (? & Hs & _); [lia..|].
    rewrite N.Div0.div_0_l, N.add_0_r in Hs.
    by rewrite !b64_char_break by lia.
  - destruct (sextets (Byte.to_N x) (Byte.to_N y) 0) as (? & ? & Hs & _); [lia..|].
    rewrite N.Div0.div_0_l, N.add_0_r in Hs.
    by rewrite !b64_char_break by lia.
  - destruct (sextets (Byte.to_N x) (Byte.to_N y) (Byte.to_N z)) as (? & ? & ? & ? & _); [lia..|].
    by rewrite !b64_char_break, IH by lia.
Qed.

Lemma decode_base64url b : base64url_decode (base64url b) = Some b.
Proof.
  unfold base64url_decode. rewrite skip_base64url.
  induction b as [|x|x y|x y z b IH] using list_ind3; [done|..];
    pose proof (to_N_lt x); try pose proof (to_N_lt y); try pose proof (to_N_lt z);
    cbn [base64url].
  - destruct (sextets (Byte.to_N x) 0 0) as (? & Hs & _ & _ & Hx & _); [lia..|].
    rewrite !N.Div0.div_0_l, !N.add_0_r in *. cbn [decode_quanta].
    rewrite !b64_value_char by lia. cbn [mbind option_bind].
    unfold low_zero. replace ((16 * (Byte.to_N x mod 4)) mod 16)%N with 0%N
      by (rewrite N.mul_comm, N.Div0.mod_mul; done).
    rewrite Hx, Byte.of_to_N. done.
  - destruct (sextets (Byte.to_N x) (Byte.to_N y) 0) as (? & ? & Hs & _ & Hx & Hy & _); [lia..|].
    rewrite !N.Div0.div_0_l, !N.add_0_r in *. cbn [decode_quanta].
    rewrite !b64_value_char by lia. cbn [mbind option_bind].
    unfold low_zero. replace ((4 * (Byte.to_N y mod 16)) mod 4)%N with 0%N
      by (rewrite N.mul_comm, N.Div0.mod_mul; done).
    rewrite Hx, Hy, !Byte.of_to_N. done.
  - destruct (sextets (Byte.to_N x) (Byte.to_N y) (Byte.to_N z)) as (? & ? & ? & ? & Hx & Hy & Hz); [lia..|].
    cbn [decode_quanta]. rewrite !b64_value_char by lia. cbn [mbind option_bind].
    rewrite Hx, Hy, Hz, !Byte.of_to_N. cbn [mbind option_bind]. by rewrite IH.
Qed.

Lemma length_base64url_32 b : length b = 32%nat -> len (base64url b) = 43.
Proof.
  do 32 (destruct b as [|? b]; [done|]). destruct b; [|done]. intros _. unfold len. reflexivity.
Qed.
End Base64.

(** ** The Gregorian calendar: days and dates are inverse *)
Module CivilLemmas.
Import Rfc3339 Calendar.

(** Days before year [k] of an era, years starting in March. *)
Definition year_start (k : Z) : Z := 365 * k + k / 4 - k / 100.
(** The year of era of a day of era, before the division by 365. *)
Definition scaled (doe : Z) : Z := doe - doe / 1460 + doe / 36524 - doe / 146096.

Lemma scaled_mono a b : 0 <= a -> a <= b < 146097 -> scaled a <= scaled b.
Proof. unfold scaled. intros. Z.to_euclidean_division_equations. lia. Qed.

Definition check_year (k : Z) : bool :=
  (365 * k <=? scaled (year_start k)) &&
  (scaled (Z.min 146096 (year_start (k + 1) - 1)) <? 365 * (k + 1)) &&
  (year_start (k + 1) - year_start k <=? 366) &&
  ((year_start (k + 1) - year_start k <=? 365) || leap (k + 1) || (k =? 399)) &&
  (year_start k <=? 146096).

Lemma check_years k : 0 <= k < 400 -> check_year k = true.
Proof.
  assert (forallb check_year (Z.of_nat <$> seq 0 400) = true) as Hall by (vm_compute; reflexivity).
  intros Hk. rewrite forallb_forall in Hall. apply Hall. apply list_elem_of_In, list_elem_of_fmap.
  exists (Z.to_nat k). split; [lia|]. apply elem_of_seq. lia.
Qed.

(** Which year of the era a day is in. *)
Lemma year_find doe : 0 <= doe < 146097 ->
  exists k, 0 <= k < 400 /\ year_start k <= doe /\ (doe < year_start (k + 1) \/ (k = 399 /\ doe = 146096)).
Proof.
  intros Hd. assert (year_start 0 = 0) by done.
  assert (forall n : nat, (Z.of_nat n <= 400) -> doe < year_start (Z.of_nat n) ->
    exists k, 0 <= k < 400 /\ year_start k <= doe /\ doe < year_start (k + 1)) as Hfind.
  { induction n as [|n IH]; intros Hn Hlt; [change (Z.of_nat 0) with 0 in Hlt; lia|].
    destruct (Z.ltb_spec doe (year_start (Z.of_nat n))) as [Hl|Hl].
    - apply IH; lia.
    - exists (Z.of_nat n). split; [lia|]. split; [lia|].
      by replace (Z.of_nat n + 1) with (Z.of_nat (S n)) by lia. }
  assert (year_start 400 = 146096) as H400 by done.
  destruct (decide (doe = 146096)) as [->|Hne].
  - exists 399. split; [lia|]. split; [by apply Z.leb_le|]. by right.
  - destruct (Hfind 400%nat) as (k & ? & ? & ?); [lia | change (Z.of_nat 400) with 400; lia |].
    exists k. auto.
Qed.
Lemma year_of doe k : 0 <= doe < 146097 -> 0 <= k < 400 -> year_start k <= doe ->
  (doe < year_start (k + 1) \/ (k = 399 /\ doe = 146096)) ->
  scaled doe / 365 = k /\ 0 <= doe - year_start k <= 365 /\
  (doe - year_start k = 365 -> leap (k + 1) = true).
Proof.
  intros Hd Hk Hlo Hhi. pose proof (check_years k Hk) as Hc. unfold check_year in Hc.
  repeat rewrite andb_true_iff in Hc. destruct Hc as [[[[H1 H2] H3] H4] H5].
  apply Z.leb_le in H1, H3, H5. apply Z.ltb_lt in H2.
  assert (0 <= year_start k) by (unfold year_start; Z.to_euclidean_division_equations; lia).
  assert (365 * k <= scaled doe) by (etrans; [exact H1|]; apply scaled_mono; lia).
  assert (doe <= Z.min 146096 (year_start (k + 1) - 1) \/ (k = 399 /\ doe = 146096)) as [Hle|[-> ->]] by lia.
  - assert (scaled doe <= scaled (Z.min 146096 (year_start (k + 1) - 1))) by (apply scaled_mono; lia).
    split; [symmetry; apply (Z.div_unique_pos _ _ _ (scaled doe - 365 * k)); lia|].
    split; [lia|]. intros Hday.
    rewrite !orb_true_iff in H4. destruct H4 as [[H4|H4]|H4]; [apply Z.leb_le in H4; lia | done |].
    apply Z.eqb_eq in H4 as ->. done.
  - split; [done|]. split; [|done]. split; apply Z.leb_le; reflexivity.
Qed.

Definition month_of (doy : Z) : Z := let mp := (5 * doy + 2) / 153 in if mp <? 10 then mp + 3 else mp - 9.
Definition day_of (doy : Z) : Z := doy - (153 * ((5 * doy + 2) / 153) + 2) / 5 + 1.

Definition check_day (doy : Z) : bool :=
  let m := month_of doy in let d := day_of doy in
  (1 <=? m) && (m <=? 12) && (1 <=? d) &&
  (if m =? 2 then (d <=? 28) || ((d =? 29) && (doy =? 365)) else d <=? days_in 2000 m) &&
  ((153 * ((m + 9) mod 12) + 2) / 5 + d - 1 =? doy).

Lemma check_days doy : 0 <= doy <= 365 -> check_day doy = true.
Proof.
  assert (forallb check_day (Z.of_nat <$> seq 0 366) = true) as Hall by (vm_compute; reflexivity).
  intros Hk. rewrite forallb_forall in Hall. apply Hall. apply list_elem_of_In, list_elem_of_fmap.
  exists (Z.to_nat doy). split; [lia|]. apply elem_of_seq. lia.
Qed.

Lemma leap_era k e : leap (k + e * 400) = leap k.
Proof.
  unfold leap. replace (k + e * 400) with (k + (e * 100) * 4) at 1 by ring. rewrite Z_mod_plus_full.
  replace (k + e * 400) with (k + (e * 4) * 100) at 1 by ring. rewrite Z_mod_plus_full.
  by rewrite Z_mod_plus_full.
Qed.

Lemma civil_round days : let '(y, m, d) := civil_from_days days in
  days_from_civil y m d = days /\ 1 <= m <= 12 /\ 1 <= d <= days_in y m.
Proof.
  unfold civil_from_days. set (z := days + 719468). set (era := z / 146097).
  set (doe := z - era * 146097).
  assert (0 <= doe < 146097) as Hdoe.
  { pose proof (Z.mod_pos_bound z 146097). pose proof (Z.div_mod z 146097). unfold doe, era. lia. }
  destruct (year_find doe Hdoe) as (k & Hk & Hlo & Hhi).
  destruct (year_of doe k Hdoe Hk Hlo Hhi) as (Hyoe & Hdoy & Hleap).
  fold (scaled doe). rewrite Hyoe.
  assert (doe - (365 * k + k / 4 - k / 100) = doe - year_start k) as -> by done.
  set (doy := doe - year_start k) in *.
  pose proof (check_days doy Hdoy) as Hc. unfold check_day in Hc.
  repeat rewrite andb_true_iff in Hc. destruct Hc as [[[[Hm1 Hm2] Hd1] Hd2] Hc].
  apply Z.leb_le in Hm1, Hm2, Hd1. apply Z.eqb_eq in Hc.
  fold (month_of doy). fold (day_of doy).
  set (m := month_of doy) in *. set (d := day_of doy) in *.
  split.
  - unfold days_from_civil. rewrite Hc.
    assert (forall y : Z, (if m <=? 2 then y + (if m <=? 2 then 1 else 0) - 1 else y + (if m <=? 2 then 1 else 0)) = y) as Hy
      by (intros; destruct (m <=? 2); lia).
    rewrite Hy. replace ((k + era * 400) / 400) with era by (apply (Z.div_unique_pos _ _ _ k); lia).
    replace (k + era * 400 - era * 400) with k by lia.
    unfold doy, year_start, doe, z. lia.
  - split; [lia|]. split; [lia|]. unfold days_in in *. destruct (m =? 2) eqn:Em; [|].
    + apply Z.eqb_eq in Em. replace (m <=? 2) with true by lia.
      replace (k + era * 400 + 1) with (k + 1 + era * 400) by lia. rewrite leap_era.
      apply orb_true_iff in Hd2 as [Hd2|Hd2]; [case_if; lia|].
      apply andb_true_iff in Hd2 as [Hd2 Hy]. rewrite (Hleap ltac:(lia)). lia.
    + apply Z.leb_le in Hd2. exact Hd2.
Qed.
End CivilLemmas.

Module Stamp.
Import Rfc3339 Calendar CalendarLemmas CivilLemmas.

(** The fraction of a second without trailing zeros: [k] digits of [ns]. *)
Fixpoint trim_fraction (k : nat) (ns : Z) : string :=
  match k with
  | O => ""
  | S k' => if ns mod 10 =? 0 then trim_fraction k' (ns / 10) else pad k ns
  end.

Definition format_fraction (ns : Z) : string :=
  if ns =? 0 then "" else String "." (trim_fraction 9 ns).

(** t.UTC().Format(time.RFC3339Nano) *)
Definition format (t : Time) : string :=
  let secs := t / 10 ^ 9 in
  let tod := secs mod 86400 in
  format_date (civil_from_days (secs / 86400)) ++ "T" ++ pad 2 (tod / 3600) ++ ":" ++
  pad 2 (tod / 60 mod 60) ++ ":" ++ pad 2 (tod mod 60) ++ format_fraction (t mod 10 ^ 9) ++ "Z".

Example format_nanos : format 1709210096000000001 = "2024-02-29T12:34:56.000000001Z".
Proof. vm_compute. reflexivity. Qed.
Example format_trims : format (1709210096 * 10 ^ 9 + 120000000) = "2024-02-29T12:34:56.12Z" /\
  format (-1) = "1969-12-31T23:59:59.999999999Z" /\ format zero_time = "0001-01-01T00:00:00Z".
Proof. vm_compute. auto. Qed.

(** The instants whose year has at most four digits: 0000-01-01 to 9999-12-31. *)
Definition year_of_time (t : Time) : Z := (civil_from_days (t / 10 ^ 9 / 86400)).1.1.
Definition four_digit_year (t : Time) : bool := (0 <=? year_of_time t) && (year_of_time t <=? 9999).

(** *** Round trip *)
Lemma pad_digits w : forall n acc rest, 0 <= n < 10 ^ Z.of_nat w ->
  digits w acc (pad w n ++ rest) = Some (acc * 10 ^ Z.of_nat w + n, rest).
Proof.
  induction w as [|w IH]; intros n acc rest Hn.
  - change (10 ^ Z.of_nat 0) with 1 in *. cbn. do 2 f_equal. lia.
  - rewrite Nat2Z.inj_succ, Z.pow_succ_r in Hn |- * by lia. cbn [pad String.append digits].
    assert (0 < 10 ^ Z.of_nat w) as Hp by (apply Z.pow_pos_nonneg; lia).
    set (q := n / 10 ^ Z.of_nat w).
    assert (0 <= q < 10) as Hq.
    { unfold q. split; [apply Z.div_pos; lia|]. apply Z.div_lt_upper_bound; lia. }
    rewrite (Z.mod_small q) by lia. rewrite digit_code by lia.
    assert (is_digit (digit q) = true) as -> by (unfold is_digit, between; rewrite digit_code; lia).
    set (r := n mod 10 ^ Z.of_nat w).
    assert (n = q * 10 ^ Z.of_nat w + r /\ 0 <= r < 10 ^ Z.of_nat w) as [Hnr Hr].
    { unfold q, r. pose proof (Z.div_mod n (10 ^ Z.of_nat w)).
      pose proof (Z.mod_pos_bound n (10 ^ Z.of_nat w)). lia. }
    replace (pad w n) with (pad w r) by (rewrite Hnr; rewrite Z.add_comm; symmetry; apply pad_low).
    rewrite IH by lia. do 2 f_equal. rewrite Hnr. ring.
Qed.

Lemma pad_snoc w n : 0 <= n -> pad (S w) n = (pad w (n / 10) ++ String (digit (n mod 10)) "")%string.
Proof.
  intros Hn. induction w as [|w IH]; [cbn [pad String.append]; change (10 ^ Z.of_nat 0) with 1; by rewrite Z.div_1_r|].
  remember (S w) as w1 eqn:Ew1. cbn [pad]. rewrite IH. subst w1. cbn [pad String.append]. do 3 f_equal.
  rewrite Nat2Z.inj_succ, Z.pow_succ_r by lia. rewrite Z.div_div by lia. done.
Qed.

Lemma length_pad w n : String.length (pad w n) = w.
Proof. induction w as [|w IH]; [done|]. cbn. by rewrite IH. Qed.

Lemma fraction_digit scale acc d c s : fraction scale acc (String d (String c s)) =
  if is_digit d && (1 <? scale) then fraction (scale / 10) (acc * 10 + (code d - 48)) (String c s) else None.
Proof. reflexivity. Qed.

Lemma fraction_pad w : forall n acc, 0 <= n < 10 ^ Z.of_nat w -> (w <= 9)%nat ->
  forall k, (k + w <= 9)%nat ->
  fraction (10 ^ Z.of_nat (9 - k)) acc (pad w n ++ "Z") =
  Some ((acc * 10 ^ Z.of_nat w + n) * 10 ^ Z.of_nat (9 - k - w), true).
Proof.
  induction w as [|w IH]; intros n acc Hn Hw k Hk.
  - change (10 ^ Z.of_nat 0) with 1 in *. cbn. do 2 f_equal. rewrite Nat.sub_0_r. f_equal. lia.
  - rewrite Nat2Z.inj_succ, Z.pow_succ_r in Hn by lia. cbn [pad String.append].
    assert (0 < 10 ^ Z.of_nat w) as Hp by (apply Z.pow_pos_nonneg; lia).
    set (q := n / 10 ^ Z.of_nat w).
    assert (0 <= q < 10) as Hq.
    { unfold q. split; [apply Z.div_pos; lia|]. apply Z.div_lt_upper_bound; lia. }
    rewrite (Z.mod_small q) by lia.
    assert (n = q * 10 ^ Z.of_nat w + n mod 10 ^ Z.of_nat w /\ 0 <= n mod 10 ^ Z.of_nat w < 10 ^ Z.of_nat w) as [Hnr Hr].
    { unfold q. pose proof (Z.div_mod n (10 ^ Z.of_nat w)).
      pose proof (Z.mod_pos_bound n (10 ^ Z.of_nat w)). lia. }
    set (r := n mod 10 ^ Z.of_nat w) in *.
    replace (pad w n) with (pad w r) by (rewrite Hnr; rewrite Z.add_comm; symmetry; apply pad_low).
    assert (exists c s, (pad w r ++ "Z")%string = String c s) as (c & s & Es) by (destruct w; cbn; eauto).
    rewrite Es, fraction_digit, digit_code by lia.
    assert (is_digit (digit q) = true) as -> by (unfold is_digit, between; rewrite digit_code; lia).
    replace (1 <? 10 ^ Z.of_nat (9 - k)) with true
      by (symmetry; apply Z.ltb_lt, (Z.pow_gt_1 10); lia).
    replace (10 ^ Z.of_nat (9 - k) / 10) with (10 ^ Z.of_nat (9 - S k)).
    2: { replace (9 - k)%nat with (S (9 - S k)) by lia. rewrite Nat2Z.inj_succ, Z.pow_succ_r by lia.
         rewrite Z.mul_comm, Z.div_mul; lia. }
    cbn [andb]. rewrite <- Es. rewrite IH by lia.
    replace (9 - S k - w)%nat with (9 - k - S w)%nat by lia. do 3 f_equal.
    rewrite Nat2Z.inj_succ, Z.pow_succ_r by lia. rewrite Hnr. ring.
Qed.

(** The trimmed fraction is [k] digits whose last is not zero. *)
Lemma trim_fraction_spec k ns : 0 < ns < 10 ^ Z.of_nat k ->
  exists w u, (w < k)%nat /\ trim_fraction k ns = pad (S w) u /\ 0 <= u < 10 ^ Z.of_nat (S w) /\
    u mod 10 <> 0 /\ ns = u * 10 ^ Z.of_nat (k - S w).
Proof.
  revert ns. induction k as [|k IH]; intros ns Hns; [change (10 ^ Z.of_nat 0) with 1 in Hns; lia|].
  cbn [trim_fraction]. destruct (ns mod 10 =? 0) eqn:E.
  - apply Z.eqb_eq in E. rewrite Nat2Z.inj_succ, Z.pow_succ_r in Hns by lia.
    pose proof (Z.div_mod ns 10 ltac:(lia)). destruct (IH (ns / 10)) as (w & u & Hw & -> & Hu & Hm & He); [lia|].
    exists w, u. split; [lia|]. do 3 (split; [done|]). replace (S k - S w)%nat with (S (k - S w)) by lia.
    rewrite Nat2Z.inj_succ, Z.pow_succ_r by lia. lia.
  - apply Z.eqb_neq in E. exists k, ns. split; [lia|]. split; [done|]. split; [lia|]. split; [done|].
    rewrite Nat.sub_diag. change (10 ^ Z.of_nat 0) with 1. lia.
Qed.

Lemma digit_zero x : 0 <= x < 10 -> digit x = "0"%char -> x = 0.
Proof. intros Hx Hd. pose proof (digit_code x Hx) as Hc. rewrite Hd in Hc. change (code "0") with 48 in Hc. lia. Qed.

Lemma parse_format_fraction ns : 0 <= ns < 10 ^ 9 -> parse_fraction (format_fraction ns ++ "Z") = Some ns.
Proof.
  intros Hns. unfold format_fraction. destruct (ns =? 0) eqn:E0; [apply Z.eqb_eq in E0 as ->; done|].
  apply Z.eqb_neq in E0. destruct (trim_fraction_spec 9 ns) as (w & u & Hw & -> & Hu & Hm & He).
  { change (Z.of_nat 9) with 9. lia. }
  cbn [String.append]. unfold parse_fraction.
  assert (exists c s, (pad (S w) u ++ "Z")%string = String c s) as (c & s & Es) by (cbn; eauto).
  rewrite Es, <- Es. replace (ceq "." ".") with true by done. cbv iota.
  pose proof (fraction_pad (S w) u 0 Hu ltac:(lia) 0%nat ltac:(lia)) as Hf.
  change (10 ^ 9) with (10 ^ Z.of_nat (9 - 0)). rewrite Hf.
  assert (has_suffix (pad (S w) u ++ "Z") "0Z" = false) as ->.
  { rewrite pad_snoc by lia. rewrite append_assoc. cbn [String.append].
    unfold has_suffix. apply andb_false_intro2.
    rewrite length_append, length_pad. cbn [String.length].
    replace (w + 2 - 2)%nat with (String.length (pad w (u / 10))) by (rewrite length_pad; lia).
    rewrite str_drop_append. apply str_eqb_neq. intros Heq. injection Heq as Heq.
    apply Hm, digit_zero; [apply Z.mod_pos_bound; lia | done]. }
  assert (str_eqb (pad (S w) u ++ "Z") "Z" = false) as ->.
  { apply str_eqb_neq. intros Heq. apply (f_equal String.length) in Heq.
    rewrite length_append, length_pad in Heq. cbn in Heq. lia. }
  cbn [orb]. f_equal. rewrite He. rewrite Nat.sub_0_r. lia.
Qed.

Lemma lit_here c s : lit c (String c s) = Some s.
Proof. cbn. unfold ceq. by rewrite Ascii.eqb_refl. Qed.

Lemma parse_stamp t : four_digit_year t = true -> parse (format t) = Some t.
Proof.
  unfold four_digit_year, year_of_time, format. set (secs := t / 10 ^ 9).
  pose proof (civil_round (secs / 86400)) as Hc. destruct (civil_from_days (secs / 86400)) as [[y m] d].
  destruct Hc as (Hdays & Hm & Hd). cbn [fst]. intros Hy.
  set (tod := secs mod 86400). assert (0 <= tod < 86400) by (apply Z.mod_pos_bound; lia).
  assert (d <= 31) by (unfold days_in in Hd; repeat case_if; lia).
  unfold format_date, format_year. replace (y <? 0) with false by lia. rewrite Z.abs_eq by lia.
  replace (y <=? 9999) with true by lia. cbn [String.append].
  repeat first [rewrite append_assoc | progress cbn [String.append]].
  unfold parse. rewrite (pad_digits 4) by (change (10 ^ Z.of_nat 4) with 10000; lia).
  cbn [mbind option_bind]. rewrite lit_here. cbn [mbind option_bind].
  rewrite (pad_digits 2) by (change (10 ^ Z.of_nat 2) with 100; lia).
  cbn [mbind option_bind]. rewrite lit_here. cbn [mbind option_bind].
  rewrite (pad_digits 2) by (change (10 ^ Z.of_nat 2) with 100; lia).
  cbn [mbind option_bind]. rewrite lit_here. cbn [mbind option_bind].
  assert (0 <= tod / 3600 < 24) by (split; [apply Z.div_pos | apply Z.div_lt_upper_bound]; lia).
  assert (0 <= tod / 60 mod 60 < 60) by (apply Z.mod_pos_bound; lia).
  assert (0 <= tod mod 60 < 60) by (apply Z.mod_pos_bound; lia).
  rewrite (pad_digits 2) by (change (10 ^ Z.of_nat 2) with 100; lia).
  cbn [mbind option_bind]. rewrite lit_here. cbn [mbind option_bind].
  rewrite (pad_digits 2) by (change (10 ^ Z.of_nat 2) with 100; lia).
  cbn [mbind option_bind]. rewrite lit_here. cbn [mbind option_bind].
  rewrite (pad_digits 2) by (change (10 ^ Z.of_nat 2) with 100; lia).
  cbn [mbind option_bind]. rewrite parse_format_fraction by (apply Z.mod_pos_bound; lia).
  cbn [mbind option_bind]. rewrite !Z.mul_0_l, !Z.add_0_l.
  replace (_ && _) with true by lia. f_equal. rewrite Hdays.
  pose proof (Z.div_mod secs 86400 ltac:(lia)). pose proof (Z.div_mod t (10 ^ 9) ltac:(lia)).
  fold secs in H4. fold tod in H3.
  assert (tod = (tod / 3600 * 60 + tod / 60 mod 60) * 60 + tod mod 60).
  { Z.to_euclidean_division_equations. lia. }
  lia.
Qed.
End Stamp.
