(* ===== verification/Continuation.v ===== *)
(** * The continuation store (src/fabric/extension/continuation)

    [Continuation] models types.go, store.go, protection.go, transitions.go,
    notifications.go, read.go, fresh_claim.go and verify.go: private, single-use
    deferred executions over three SQLite tables. A continuation is created
    with a sealed snapshot and a secret capability, claimed once with it,
    executed through an in-process [FreshClaim], and completed with a sealed
    outcome. Every blob is sealed under associated data naming its purpose, the
    audience, the continuation and the key.

    The entropy of rand.Reader and of the protector, and every clock reading, are
    arguments of the operations; files, locks and the SQLite driver are the
    outcomes of [Durable.OpenIO] and [TxIO]. *)
From Stdlib Require Import Ascii Strings.Byte ZArith Lia.
From S2P Require Import Prelude GoStrings FabricRef Framing Wire FabricModel SqlTx Durable Ledger Encodings.
#[local] Open Scope Z_scope.

Module Continuation.
Import Wire.Wire Model.
Import (notations) Wire.Wire.

(** ** types.go *)
Record Options := mkOptions {
  MaxRecords : Z; o_MaxBytes : Z; MaxSnapshotBytes : Z; MaxOutcomeBytes : Z; MaxDatabaseBytes : Z;
  MaxTTL : Duration; MaxJSONDepth : Z; MaxJSONMembers : Z }.

Definition DefaultOptions : Options :=
  {| MaxRecords := 100000; o_MaxBytes := 256 * 2 ^ 20; MaxSnapshotBytes := 8 * 2 ^ 20;
     MaxOutcomeBytes := 2 ^ 20; MaxDatabaseBytes := 512 * 2 ^ 20; MaxTTL := 7 * 24 * time_Hour;
     MaxJSONDepth := 64; MaxJSONMembers := 65536 |}.

Record Snapshot := mkSnapshot {
  s_Format : Z; DeferralID : string; OriginalEnvelope : list byte; OriginalPrincipal : Principal;
  AllowedResumePrincipals : list Principal; PlanRevision : string; PlanVersion : string;
  s_PlanDigest : string; Pipeline : list byte; s_State : list byte; DeferredAdmission : list byte }.
#[export] Instance snapshot_eq_dec : EqDecision Snapshot.
Proof. solve_decision. Defined.

(** A Capability is its token. *)
Record Issued := mkIssued {
  is_ID : string; is_CapabilityRevision : Z; is_Created : bool; is_Capability : string }.

(** The CHECK of the table: a state column holds one of the three constants. *)
Inductive State := Pending | Claimed | Complete_.
#[export] Instance state_eq_dec : EqDecision State.
Proof. solve_decision. Defined.

Record Receipt := mkReceipt {
  rc_ID : string; rc_ClaimID : string; rc_Principal : Principal; rc_Audience : string;
  rc_SnapshotDigest : string; rc_PlanDigest : string; rc_CapabilityRevision : Z; rc_ClaimedAt : Time }.
#[export] Instance receipt_eq_dec : EqDecision Receipt.
Proof. solve_decision. Defined.

(** An EffectState is a string. *)
Record Outcome := mkOutcome { oc_Effect : string; oc_Data : list byte }.
#[export] Instance outcome_eq_dec : EqDecision Outcome.
Proof. solve_decision. Defined.

(** ** fresh_claim.go: the once-only execution capability. [fc_store] is the
    identity of the *Store it points to. *)
Record FreshClaim := mkFresh {
  fc_store : nat; fc_receipt : list byte; fc_snapshot : list byte; fc_used : bool }.

Record ClaimResult := mkClaimResult {
  cr_Claim : option FreshClaim; cr_Receipt : option Receipt; cr_Snapshot : option Snapshot;
  cr_State : option State; cr_Fresh : bool; cr_Outcome : option Outcome }.

(** ** notifications.go *)
Record PrivateDelivery := mkDelivery {
  pd_ID : string; pd_Recipient : Principal; pd_Revision : Z; pd_ExpiresAt : Time; pd_Published : bool;
  pd_capability : string }.

Record notificationPlain := mkPlain {
  np_Format : Z; np_ID : string; np_Recipient : Principal; np_Revision : Z; np_Expiry : string;
  np_Token : string }.

(** ** protection.go *)
Record protectedIdentity := mkProtected {
  pi_Format : Z; pi_Scope : string; pi_Key : Durable.KeyReference; pi_Proof : list byte }.

(** encoding/json of the structs above (a Scope is its audience). *)
Class ContinuationJson := {
  marshal_snapshot : Snapshot -> option (list byte);
  unmarshal_snapshot : list byte -> option Snapshot;
  marshal_receipt : Receipt -> option (list byte);
  unmarshal_receipt : list byte -> option Receipt;
  marshal_outcome : Outcome -> option (list byte);
  unmarshal_outcome : list byte -> option Outcome;
  marshal_notification : notificationPlain -> option (list byte);
  unmarshal_notification : list byte -> option notificationPlain;
  marshal_identity : protectedIdentity -> option (list byte);
  unmarshal_identity : list byte -> option protectedIdentity;
  marshal_principal : Principal -> list byte;
  marshal_protection : string -> string -> string -> string -> Durable.KeyReference -> list byte;
}.

(** ** The Go types decoded through fabric.DecodeJSONWithLimits. Type 2 stands
    for strings, numbers, booleans and byte slices, 3 for fabric.Principal, 4 for
    []fabric.Principal, 5 for time.Time, 6 for Scope, 7 for KeyReference. *)
Definition shared_types : list TypeDecl :=
  [ mkType KOther false false;
    mkType (KStruct [field "Ref" "ref" 2; field "Kind" "kind" 2; field "Issuer" "issuer" 2]) false false;
    mkType (KSlice 3%nat) false false;
    mkType KOther false true;
    mkType (KStruct [field "Audience" "audience" 2]) false false;
    mkType (KStruct [field "ID" "id" 2; field "Version" "version" 2]) false false ].

Definition pointer_to (fields : list StructField) : list TypeDecl :=
  mkType (KPointer 1%nat) false false :: mkType (KStruct fields) false false :: shared_types.

Definition snapshot_types : list TypeDecl := pointer_to
  [ field "Format" "format" 2; field "DeferralID" "deferralId" 2;
    field "OriginalEnvelope" "originalEnvelope" 2; field "OriginalPrincipal" "originalPrincipal" 3;
    field "AllowedResumePrincipals" "allowedResumePrincipals" 4;
    field "PlanRevision" "planRevision" 2; field "PlanVersion" "planVersion" 2;
    field "PlanDigest" "planDigest" 2; field "Pipeline" "pipeline" 2; field "State" "state" 2;
    field "DeferredAdmission" "deferredAdmission,omitempty" 2 ].

Definition receipt_types : list TypeDecl := pointer_to
  [ field "ID" "id" 2; field "ClaimID" "claimId" 2; field "Principal" "principal" 3;
    field "Audience" "audience" 2; field "SnapshotDigest" "snapshotDigest" 2;
    field "PlanDigest" "planDigest" 2; field "CapabilityRevision" "capabilityRevision" 2;
    field "ClaimedAt" "claimedAt" 5 ].

Definition outcome_types : list TypeDecl := pointer_to
  [ field "Effect" "effect" 2; field "Data" "data" 2 ].

Definition notification_types : list TypeDecl := pointer_to
  [ field "Format" "" 2; field "ID" "" 2; field "Recipient" "" 3; field "Revision" "" 2;
    field "Expiry" "" 2; field "Token" "" 2 ].

Definition identity_types : list TypeDecl := pointer_to
  [ field "Format" "format" 2; field "Scope" "scope" 6; field "Key" "key" 7; field "Proof" "proof" 2 ].

(** ** Tables *)
Record Row := mkRow {
  w_snapshot : list byte; w_digest : string; w_expires : string; w_hash : list byte; w_revision : Z;
  w_state : State; w_receipt : option (list byte); w_outcome : option (list byte) }.

Record NotificationRow := mkNotification { n_revision : Z; n_payload : list byte; n_published : bool }.

Record CDB := mkCDB {
  identity : option (list byte); b_records : Z; b_bytes : Z;
  continuations : gmap string Row; notifications : gmap (string * string) NotificationRow }.

Definition empty_db : CDB := mkCDB None 0 0 ∅ ∅.

Definition set_rows (d : CDB) (m : gmap string Row) : CDB :=
  mkCDB (identity d) (b_records d) (b_bytes d) m (notifications d).
Definition set_notifications (d : CDB) (m : gmap (string * string) NotificationRow) : CDB :=
  mkCDB (identity d) (b_records d) (b_bytes d) (continuations d) m.

(** [st_ident] is the identity of the *Store value. *)
Record Store := mkStore {
  st_ident : nat; audience : string; options : Options; keyRef : Durable.KeyReference; closed : bool;
  db : CDB }.

Definition with_db (s : Store) (d : CDB) : Store :=
  mkStore (st_ident s) (audience s) (options s) (keyRef s) (closed s) d.

(** ** store.go *)
Definition invalid (m : string) : Error := NewError CodeInvalidInput m.
Definition stale : Error := NewError CodeStaleContinuation "Continuation unavailable or stale".
Definition internal : Error := NewError CodeProtocolError "Private continuation state unavailable".

Definition text (s : string) (n : Z) : bool :=
  (0 <? len s) && (len s <=? n) && utf8_valid s && negb (contains_char zero s).

Definition hexID (s : string) : bool :=
  (len s =? 64) &&
  match hex_decode s with
  | Some b => (blen b =? 32) && str_eqb (hex_encode b) s
  | None => false
  end.

Definition max_uint32 : Z := 2 ^ 32 - 1.

Definition validate (o : Options) : result Error unit :=
  guard (negb ((MaxJSONDepth o <=? 0) || (MaxJSONMembers o <=? 0) || (MaxRecords o <=? 0) ||
               (max_int64 / 2 <? MaxRecords o) || (o_MaxBytes o <=? 0) || (MaxDatabaseBytes o <? 4096) ||
               (MaxSnapshotBytes o <=? 0) || (MaxOutcomeBytes o <=? 0) || (MaxTTL o <=? 0) ||
               (o_MaxBytes o <? MaxSnapshotBytes o) || (o_MaxBytes o <? MaxOutcomeBytes o) ||
               (max_int64 / 2 <? o_MaxBytes o) || (max_uint32 <? MaxDatabaseBytes o / 4096)))
    (invalid "Invalid continuation limits").

Definition ValidateOptions (o : Options) : result Error unit := validate o.

Definition validPrincipal (p : Principal) : bool :=
  text (p_Ref p) 4096 && text (p_Issuer p) 4096 && ValidNamespacedName (p_Kind p).

Definition allowed (v : Snapshot) (p : Principal) : bool :=
  existsb (fun a => bool_decide (a = p)) (AllowedResumePrincipals v).

Definition maxSealOverhead : Z := 64 * 1024.
Definition maxReceiptBytes : Z := 16384.
Definition maxNotificationBytes : Z := 16384.

Section store.
Context `{Sha256, JsonDecoder, EnvelopeJson, Durable.DataProtector, ContinuationJson}.

Definition ctx_tx (A : Type) : Type := Tx CDB Error A.

Definition digest (b : list byte) : string := hex_encode (sha256 b).

(** fabric.DecodeJSONWithLimits into a fresh variable of the table's type. *)
Definition decode_limits {A} (types : list TypeDecl) (unmarshal : list byte -> option A) (b : list byte)
    (limits : WireLimits) (e : Error) : result Error A :=
  match DecodeJSONWithLimits types b (Some 0%nat)
          (fun raw => match unmarshal raw with Some _ => Decoded | None => ShapeMismatch end) limits with
  | Ok _ => of_option (unmarshal b) e
  | Err _ => Err e
  end.

Definition decode {A} (types : list TypeDecl) (unmarshal : list byte -> option A) (b : list byte)
    (bound : Z) : result Error A :=
  decode_limits types unmarshal b (mkLimits bound 64 4096) (invalid "Invalid bounded continuation JSON").

Definition private_limits (s : Store) (bound : Z) : WireLimits :=
  mkLimits bound (MaxJSONDepth (options s)) (MaxJSONMembers (options s)).
Definition private_error : Error := invalid "Invalid bounded private continuation JSON".

Definition decodePrivate {A} (s : Store) (types : list TypeDecl) (unmarshal : list byte -> option A)
    (b : list byte) (bound : Z) : result Error A :=
  decode_limits types unmarshal b (private_limits s bound) private_error.

(** decodePrivate into a variable of type any. *)
Definition decodePrivateAny (s : Store) (b : list byte) (bound : Z) : result Error unit :=
  match DecodeJSONAny b (private_limits s bound) with Ok _ => Ok tt | Err _ => Err private_error end.

Fixpoint distinct_resumers (seen : list Principal) (l : list Principal) : bool :=
  match l with
  | [] => true
  | p :: l' => validPrincipal p && negb (bool_decide (p ∈ seen)) && distinct_resumers (p :: seen) l'
  end.

Definition validateSnapshot (s : Store) (v : Snapshot) : result Error unit :=
  let resumers := Z.of_nat (length (AllowedResumePrincipals v)) in
  let? _ := guard (negb (negb (s_Format v =? 1) || negb (hexID (DeferralID v)) ||
                         negb (validPrincipal (OriginalPrincipal v)) || (resumers =? 0) ||
                         (64 <? resumers) || negb (text (PlanRevision v) 4096) ||
                         negb (text (PlanVersion v) 256) || negb (hexID (s_PlanDigest v)) ||
                         (blen (OriginalEnvelope v) =? 0)))
              (invalid "Invalid continuation snapshot") in
  let? _ := guard (distinct_resumers [] (AllowedResumePrincipals v))
              (invalid "Invalid continuation resumers") in
  let? _ := guard (str_eqb (hex_encode (sha256 (Pipeline v))) (s_PlanDigest v))
              (invalid "Pipeline digest mismatch") in
  let? _ := decodePrivateAny s (Pipeline v) (MaxSnapshotBytes (options s)) in
  decodePrivateAny s (s_State v) (MaxSnapshotBytes (options s)).

(** s.snapshot *)
Definition snapshot (s : Store) (b : list byte) : result Error Snapshot :=
  let? v := decodePrivate s snapshot_types unmarshal_snapshot b (MaxSnapshotBytes (options s)) in
  let? _ := validateSnapshot s v in
  Ok v.

(** io.ReadFull of 32 bytes of rand.Reader: [None] when the source fails. *)
Definition mint (id : string) (rand : option (list byte)) : result Error (string * list byte) :=
  match rand with
  | Some b => if blen b =? 32 then Ok ((id ++ "." ++ base64url b)%string, sha256 b) else Err internal
  | None => Err internal
  end.

Definition parseToken (t : string) : result Error (string * list byte) :=
  let id := str_take 64 t in
  let? _ := guard ((len t =? 108) && has_prefix (str_drop 64 t) "." && hexID id) stale in
  let? b := of_option (Base64.base64url_decode (str_drop 65 t)) stale in
  let? _ := guard ((blen b =? 32) && str_eqb (base64url b) (str_drop 65 t)) stale in
  Ok (id, sha256 b).

Definition authenticated (s : Store) (c : ExecutionContext) : result Error unit :=
  VerifyAuthenticated c (audience s).

(** An UPDATE whose RowsAffected the caller reads: [None] when no row matches. *)
Definition tx_update (fail : Error) (f : CDB -> option CDB) : ctx_tx bool :=
  fun io s => if io s.1 then
                match f s.2 with
                | Some d => Ok (true, (S s.1, d))
                | None => Ok (false, (S s.1, s.2))
                end
              else Err fail.

Definition charge_rows (s : Store) (records bytes : Z) (d : CDB) : option CDB :=
  if (b_records d + records <=? MaxRecords (options s)) && (b_bytes d + bytes <=? o_MaxBytes (options s))
  then Some (mkCDB (identity d) (b_records d + records) (b_bytes d + bytes) (continuations d)
               (notifications d))
  else None.

Definition charge (s : Store) (records bytes : Z) : ctx_tx unit :=
  let! n := tx_update internal (charge_rows s records bytes) in
  tx_guard n (invalid "Continuation store capacity reached").

(** ** protection.go *)
Definition protectionAAD (s : Store) (purpose id : string) : list byte :=
  marshal_protection "pagnet.continuation.private.v3" purpose (audience s) id (keyRef s).

Definition sealBlob (s : Store) (nonce : list byte) (purpose id : string) (plain : list byte) (max : Z) :
    result Error (list byte) :=
  let? _ := guard (negb (max <? blen plain)) internal in
  let? cipher := of_option (Durable.Seal nonce (protectionAAD s purpose id) plain) internal in
  let? _ := guard (negb ((blen cipher =? 0) || (blen plain + maxSealOverhead <? blen cipher))) internal in
  Ok cipher.

Definition openBlob (s : Store) (purpose id : string) (cipher : list byte) (max : Z) :
    result Error (list byte) :=
  let? _ := guard (negb ((blen cipher =? 0) || (max + maxSealOverhead <? blen cipher))) internal in
  let? plain := of_option (Durable.Open (protectionAAD s purpose id) cipher) internal in
  let? _ := guard (negb (max <? blen plain)) internal in
  Ok plain.

Definition identity_plain : list byte := bytes_of "pagnet.continuation.identity.v3".

Definition sealIdentity (s : Store) (nonce : list byte) : result Error (list byte) :=
  let? proof := sealBlob s nonce "identity" "configuration" identity_plain 64 in
  of_option (marshal_identity (mkProtected 3 (audience s) (keyRef s) proof)) internal.

Definition same_key (a b : Durable.KeyReference) : bool :=
  str_eqb (Durable.kr_ID a) (Durable.kr_ID b) && str_eqb (Durable.kr_Version a) (Durable.kr_Version b).

Definition verifyIdentity (s : Store) (raw : list byte) : result Error unit :=
  match decode identity_types unmarshal_identity raw (maxSealOverhead + 1024) with
  | Err _ => Err internal
  | Ok pin =>
      let? _ := guard ((pi_Format pin =? 3) && str_eqb (pi_Scope pin) (audience s) &&
                       same_key (pi_Key pin) (keyRef s)) internal in
      match openBlob s "identity" "configuration" (pi_Proof pin) 64 with
      | Ok plain => guard (bool_decide (plain = identity_plain)) internal
      | Err _ => Err internal
      end
  end.

(** ** transitions.go: a row as read and opened *)
Record row := mkrow {
  r_snapshot : list byte; r_digest : string; r_expires : string; r_hash : list byte; r_revision : Z;
  r_state : State; r_receipt : list byte; r_outcome : list byte }.

(** [CASE WHEN length(x)<=n THEN x END] scanned into a byte slice: NULL is nil. *)
Definition bounded (n : Z) (b : option (list byte)) : list byte :=
  match b with Some b => if blen b <=? n then b else [] | None => [] end.

(** A column that may be NULL, opened when it is not empty. *)
Definition open_optional (s : Store) (purpose id : string) (cipher : list byte) (max : Z) :
    result Error (list byte) :=
  if negb (blen cipher =? 0) then openBlob s purpose id cipher max else Ok cipher.

Definition openRow (s : Store) (id : string) (r : row) : result Error row :=
  let? plain := openBlob s "snapshot" id (r_snapshot r) (MaxSnapshotBytes (options s)) in
  let? _ := guard (str_eqb (digest plain) (r_digest r)) internal in
  let? receipt := open_optional s "receipt" id (r_receipt r) maxReceiptBytes in
  let? outcome := open_optional s "outcome" id (r_outcome r) (MaxOutcomeBytes (options s)) in
  Ok (mkrow plain (r_digest r) (r_expires r) (r_hash r) (r_revision r) (r_state r) receipt outcome).

Definition scan_row (s : Store) (w : Row) : row :=
  mkrow (bounded (MaxSnapshotBytes (options s) + maxSealOverhead) (Some (w_snapshot w))) (w_digest w)
    (w_expires w) (w_hash w) (w_revision w) (w_state w)
    (bounded (maxReceiptBytes + maxSealOverhead) (w_receipt w))
    (bounded (MaxOutcomeBytes (options s) + maxSealOverhead) (w_outcome w)).

(** What load does with the result of its SELECT. *)
Definition load_row (s : Store) (id : string) (o : option Row) : result Error row :=
  match o with
  | None => Err stale
  | Some w => openRow s id (scan_row s w)
  end.

Definition load (s : Store) (id : string) : ctx_tx row :=
  let! o := tx_query internal (fun d => continuations d !! id) in
  tx_lift (load_row s id o).

(** s.transaction, the body, and the store afterwards. *)
Definition transaction {A} (s : Store) (io : TxIO) (body : ctx_tx (finish A)) : result Error A * Store :=
  if closed s then (Err internal, s)
  else let '(r, d) := run_tx internal io (db s) body in (r, with_db s d).

(** Expiry of a row: time.Parse of its text, with the error of the caller. *)
Definition parse_expiry (r : row) (e : Error) : result Error Time :=
  of_option (Rfc3339.parse (r_expires r)) e.

(** s.snapshot of a loaded row, every failure reported as [e]. *)
Definition row_snapshot (s : Store) (r : row) (e : Error) : result Error Snapshot :=
  match snapshot s (r_snapshot r) with Ok v => Ok v | Err _ => Err e end.

(** ** notifications.go: the outbox *)
Definition notificationRecipient (p : Principal) : string :=
  hex_encode (sha256 (bytes_of "pagnet.continuation.recipient.v1" ++ [x00] ++ marshal_principal p)).

Definition notificationPurpose (recipient : string) (revision : Z) : string :=
  ("notification." ++ recipient ++ "." ++ Handle.print_uint revision)%string.

(** COALESCE((SELECT length(payload) ...), 0) *)
Definition payload_length (k : string * string) (d : CDB) : Z :=
  match notifications d !! k with Some n => blen (n_payload n) | None => 0 end.

Definition upsert_notification (k : string * string) (revision : Z) (cipher : list byte) (d : CDB) : CDB :=
  set_notifications d (<[k := mkNotification revision cipher false]> (notifications d)).

(** One recipient; the protector draws [nonce]. *)
Definition write_notification (s : Store) (id token : string) (revision : Z) (expiry : string)
    (x : list byte * Principal) : ctx_tx unit :=
  let '(nonce, recipient) := x in
  let key := notificationRecipient recipient in
  let! raw := tx_lift (of_option (marshal_notification (mkPlain 1 id recipient revision expiry token)) internal) in
  let! _ := tx_guard (negb (maxNotificationBytes <? blen raw)) internal in
  let! cipher := tx_lift (sealBlob s nonce (notificationPurpose key revision) id raw maxNotificationBytes) in
  let! previous := tx_query internal (payload_length (id, key)) in
  let! _ := charge s 0 (blen cipher - previous) in
  tx_exec internal (fun d => Some (upsert_notification (id, key) revision cipher d)).

Definition writeNotifications (s : Store) (nonces : nat -> list byte) (v : Snapshot) (token : string)
    (revision : Z) (expiry : string) : ctx_tx unit :=
  tx_iter (write_notification s (DeferralID v) token revision expiry)
    (imap (fun i p => (nonces i, p)) (AllowedResumePrincipals v)).

(** ** transitions.go: Create, RotatePendingCapability *)
Record Rand := mkRand {
  rd_secret : option (list byte);        (** rand.Reader *)
  rd_nonce : list byte;                  (** Seal of the row's blob *)
  rd_notices : nat -> list byte }.       (** Seal of the i-th notification *)

Definition insert_row (id : string) (w : Row) (d : CDB) : option CDB :=
  match continuations d !! id with
  | Some _ => None
  | None => Some (set_rows d (<[id := w]> (continuations d)))
  end.

(** expires.Sub(now), saturated at the largest Duration. *)
Definition time_Sub (a b : Time) : Duration := Z.max min_int64 (Z.min max_int64 (a - b)).

Definition create_tx (s : Store) (rnd : Rand) (v : Snapshot) (b : list byte) (expires : Time) (now : Time) :
    ctx_tx (finish Issued) :=
  let id := DeferralID v in
  let expiry := Stamp.format expires in
  let! o := tx_query internal (fun d => continuations d !! id) in
  match load_row s id o with
  | Ok prior =>
      let! _ := tx_guard (bool_decide (r_snapshot prior = b) && str_eqb (r_expires prior) expiry) stale in
      tx_ret (Rollback (mkIssued id (wrapu64 (r_revision prior)) false ""))
  | Err e =>
      let! _ := tx_guard (bool_decide (err_code e = CodeStaleContinuation)) e in
      let! _ := tx_guard (negb (IsZero expires || negb (now <? expires) ||
                                (MaxTTL (options s) <? time_Sub expires now)))
                  (invalid "Invalid continuation expiry") in
      let! '(token, hash) := tx_lift (mint id (rd_secret rnd)) in
      let! sealed := tx_lift (sealBlob s (rd_nonce rnd) "snapshot" id b (MaxSnapshotBytes (options s))) in
      let! _ := charge s 1 (blen sealed) in
      let! _ := tx_exec internal (insert_row id
                  (mkRow sealed (digest b) expiry hash 1 Pending None None)) in
      let! _ := writeNotifications s (rd_notices rnd) v token 1 expiry in
      tx_ret (Commit (mkIssued id 1 true token))
  end.

Definition create_check (s : Store) (c : ExecutionContext) (v : Snapshot) : result Error (list byte) :=
  let? _ := authenticated s c in
  let? _ := guard (bool_decide (ec_principal c = OriginalPrincipal v))
              (NewError CodeUnauthenticated "Original principal mismatch") in
  let? _ := DecodeVerifiedEnvelope c (OriginalEnvelope v) (audience s) in
  let? _ := guard (negb ((MaxSnapshotBytes (options s) <? blen (Pipeline v)) ||
                         (MaxSnapshotBytes (options s) <? blen (s_State v))))
              (invalid "Snapshot exceeds capacity") in
  let? _ := validateSnapshot s v in
  let? b := of_option (marshal_snapshot v) (invalid "Snapshot exceeds capacity") in
  let? _ := guard (negb (MaxSnapshotBytes (options s) <? blen b)) (invalid "Snapshot exceeds capacity") in
  Ok b.

Definition Create (s : Store) (io : TxIO) (rnd : Rand) (c : ExecutionContext) (v : Snapshot)
    (expires now : Time) : result Error Issued * Store :=
  match create_check s c v with
  | Err e => (Err e, s)
  | Ok b => transaction s io (create_tx s rnd v b expires now)
  end.

Definition rotate_row (id : string) (hash : list byte) (revision : Z) (d : CDB) : option CDB :=
  match continuations d !! id with
  | Some w =>
      if bool_decide (w_state w = Pending) && (w_revision w =? revision) then
        Some (set_rows d (<[id := mkRow (w_snapshot w) (w_digest w) (w_expires w) hash (w_revision w + 1)
                                    (w_state w) (w_receipt w) (w_outcome w)]> (continuations d)))
      else None
  | None => None
  end.

Definition rotate_tx (s : Store) (rnd : Rand) (p : Principal) (id : string) (expected : Z) (now : Time) :
    ctx_tx (finish Issued) :=
  let! r := load s id in
  let! v := tx_lift (row_snapshot s r internal) in
  let! expiry := tx_lift (parse_expiry r internal) in
  let! _ := tx_guard (negb (negb (allowed v p) || negb (bool_decide (r_state r = Pending)) ||
                            negb (wrapu64 (r_revision r) =? expected) || negb (now <? expiry))) stale in
  let! '(token, hash) := tx_lift (mint id (rd_secret rnd)) in
  let! n := tx_update internal (rotate_row id hash (r_revision r)) in
  let! _ := tx_guard n stale in
  let! _ := writeNotifications s (rd_notices rnd) v token (expected + 1) (r_expires r) in
  tx_ret (Commit (mkIssued id (expected + 1) false token)).

(** [expected] is a uint64. *)
Definition RotatePendingCapability (s : Store) (io : TxIO) (rnd : Rand) (c : ExecutionContext)
    (id : string) (expected : Z) (now : Time) : result Error Issued * Store :=
  match authenticated s c with
  | Err e => (Err e, s)
  | Ok _ =>
      if negb (hexID id) || (expected =? 0) || (max_int64 <=? expected) then (Err stale, s)
      else transaction s io (rotate_tx s rnd (ec_principal c) id expected now)
  end.

(** ** transitions.go: Claim *)
Definition claim_row (id : string) (sealed : list byte) (revision : Z) (d : CDB) : option CDB :=
  match continuations d !! id with
  | Some w =>
      if bool_decide (w_state w = Pending) && (w_revision w =? revision) then
        Some (set_rows d (<[id := mkRow (w_snapshot w) (w_digest w) (w_expires w) (w_hash w) (w_revision w)
                                    Claimed (Some sealed) (w_outcome w)]> (continuations d)))
      else None
  | None => None
  end.

(** The outcome of a settled row, when it has one. *)
Definition row_outcome (s : Store) (r : row) : result Error (option Outcome) :=
  if 0 <? blen (r_outcome r) then
    match decode outcome_types unmarshal_outcome (r_outcome r) (MaxOutcomeBytes (options s)) with
    | Ok out => Ok (Some out)
    | Err _ => Err internal
    end
  else Ok None.

Definition row_receipt (r : row) : result Error Receipt :=
  match decode receipt_types unmarshal_receipt (r_receipt r) maxReceiptBytes with
  | Ok x => Ok x
  | Err _ => Err internal
  end.

(** The retry of a claim that is already recorded. *)
Definition claimed_before (s : Store) (p : Principal) (claimID : string) (v : Snapshot) (r : row) :
    result Error ClaimResult :=
  let? receipt := row_receipt r in
  let? _ := guard (str_eqb (rc_ClaimID receipt) claimID && bool_decide (rc_Principal receipt = p) &&
                   str_eqb (rc_Audience receipt) (audience s)) stale in
  let? out := row_outcome s r in
  Ok (mkClaimResult None (Some receipt) (Some v) (Some (r_state r)) false out).

Definition claim_tx (s : Store) (nonce : list byte) (p : Principal) (id : string) (hash : list byte)
    (claimID : string) (now : Time) : ctx_tx (finish ClaimResult) :=
  let! r := load s id in
  let! v := tx_lift (row_snapshot s r internal) in
  let! _ := tx_guard (negb (negb (allowed v p) || negb (bool_decide (hash = r_hash r)))) stale in
  if negb (bool_decide (r_state r = Pending)) then
    let! res := tx_lift (claimed_before s p claimID v r) in
    tx_ret (Rollback res)
  else
    let! expiry := tx_lift (parse_expiry r internal) in
    let! _ := tx_guard (now <? expiry) stale in
    let receipt := mkReceipt id claimID p (audience s) (r_digest r) (s_PlanDigest v)
                     (wrapu64 (r_revision r)) now in
    let! b := tx_lift (of_option (marshal_receipt receipt) internal) in
    let! _ := tx_guard (negb (maxReceiptBytes <? blen b)) internal in
    let! sealed := tx_lift (sealBlob s nonce "receipt" id b maxReceiptBytes) in
    let! _ := charge s 0 (blen sealed) in
    let! n := tx_update internal (claim_row id sealed (r_revision r)) in
    let! _ := tx_guard n stale in
    tx_ret (Commit (mkClaimResult (Some (mkFresh (st_ident s) b (r_snapshot r) false)) (Some receipt)
                      (Some v) (Some Claimed) true None)).

Definition Claim (s : Store) (io : TxIO) (rnd : Rand) (c : ExecutionContext) (token claimID : string)
    (now : Time) : result Error ClaimResult * Store :=
  match (let? _ := authenticated s c in
         let? t := parseToken token in
         let? _ := guard (hexID claimID) (invalid "Claim identity must be a stable 256-bit identity") in
         Ok t) with
  | Err e => (Err e, s)
  | Ok (id, hash) => transaction s io (claim_tx s (rd_nonce rnd) (ec_principal c) id hash claimID now)
  end.

(** ** transitions.go: Complete *)
Definition complete_row (id : string) (sealed : list byte) (d : CDB) : option CDB :=
  match continuations d !! id with
  | Some w =>
      if bool_decide (w_state w = Claimed) then
        Some (set_rows d (<[id := mkRow (w_snapshot w) (w_digest w) (w_expires w) (w_hash w) (w_revision w)
                                    Complete_ (w_receipt w) (Some sealed)]> (continuations d)))
      else None
  | None => None
  end.

Definition valid_effect (e : string) : bool :=
  str_eqb e "unknown" || str_eqb e "not_started" || str_eqb e "completed".

Definition complete_check (s : Store) (c : ExecutionContext) (receipt : Receipt) (out : Outcome) :
    result Error (list byte * list byte) :=
  let? _ := authenticated s c in
  let? _ := guard (hexID (rc_ID receipt) && hexID (rc_ClaimID receipt) && hexID (rc_PlanDigest receipt) &&
                   hexID (rc_SnapshotDigest receipt) && negb (rc_CapabilityRevision receipt =? 0) &&
                   negb (IsZero (rc_ClaimedAt receipt)) &&
                   bool_decide (rc_Principal receipt = ec_principal c) &&
                   str_eqb (rc_Audience receipt) (audience s)) stale in
  let? _ := guard (valid_effect (oc_Effect out)) (invalid "Invalid effect evidence") in
  let? _ := decodePrivateAny s (oc_Data out) (MaxOutcomeBytes (options s)) in
  let? b := of_option (marshal_outcome out) (invalid "Outcome exceeds capacity") in
  let? _ := guard (negb (MaxOutcomeBytes (options s) <? blen b)) (invalid "Outcome exceeds capacity") in
  let? want := of_option (marshal_receipt receipt) stale in
  Ok (b, want).

Definition complete_tx (s : Store) (nonce : list byte) (id : string) (want b : list byte) (out : Outcome) :
    ctx_tx (finish Outcome) :=
  let! r := load s id in
  let! _ := tx_guard (negb (bool_decide (r_state r = Pending) || negb (bool_decide (r_receipt r = want)))) stale in
  if bool_decide (r_state r = Complete_) then
    let! _ := tx_guard (bool_decide (r_outcome r = b)) stale in
    tx_ret (Rollback out)
  else
    let! sealed := tx_lift (sealBlob s nonce "outcome" id b (MaxOutcomeBytes (options s))) in
    let! _ := charge s 0 (blen sealed) in
    let! n := tx_update internal (complete_row id sealed) in
    let! _ := tx_guard n stale in
    tx_ret (Commit out).

Definition Complete (s : Store) (io : TxIO) (rnd : Rand) (c : ExecutionContext) (receipt : Receipt)
    (out : Outcome) : result Error Outcome * Store :=
  match complete_check s c receipt out with
  | Err e => (Err e, s)
  | Ok (b, want) => transaction s io (complete_tx s (rd_nonce rnd) (rc_ID receipt) want b out)
  end.

(** ** notifications.go: reading and acknowledging the outbox *)
Definition decodeNotification (s : Store) (id key : string) (revision : Z) (cipher : list byte) :
    result Error notificationPlain :=
  let? raw := openBlob s (notificationPurpose key revision) id cipher maxNotificationBytes in
  match decode notification_types unmarshal_notification raw maxNotificationBytes with
  | Err _ => Err internal
  | Ok v =>
      let? _ := guard ((np_Format v =? 1) && str_eqb (np_ID v) id && (np_Revision v =? revision) &&
                       str_eqb (notificationRecipient (np_Recipient v)) key) internal in
      Ok v
  end.

Definition bounded_payload (n : NotificationRow) : list byte :=
  bounded (maxNotificationBytes + maxSealOverhead) (Some (n_payload n)).

(** Any failure of [c] reported as [e]. *)
Definition or_err {A} (c : result Error A) (e : Error) : result Error A :=
  match c with Ok a => Ok a | Err _ => Err e end.

Definition private_notification_tx (s : Store) (p : Principal) (id : string) (now : Time) :
    ctx_tx (finish PrivateDelivery) :=
  let! r := load s id in
  let! v := tx_lift (row_snapshot s r stale) in
  let! _ := tx_guard (allowed v p && bool_decide (r_state r = Pending)) stale in
  let! expiry := tx_lift (parse_expiry r stale) in
  let! _ := tx_guard (now <? expiry) stale in
  let key := notificationRecipient p in
  let! o := tx_query stale (fun d => notifications d !! (id, key)) in
  let! n := tx_lift (of_option o stale) in
  let! _ := tx_guard (wrapu64 (r_revision r) =? n_revision n) stale in
  let! value := tx_lift (or_err (decodeNotification s id key (n_revision n) (bounded_payload n)) stale) in
  let! _ := tx_guard (bool_decide (np_Recipient value = p) && str_eqb (np_Expiry value) (r_expires r)) stale in
  let! '(tokenID, hash) := tx_lift (or_err (parseToken (np_Token value)) stale) in
  let! _ := tx_guard (str_eqb tokenID id && bool_decide (hash = r_hash r)) stale in
  tx_ret (Rollback (mkDelivery id (np_Recipient value) (n_revision n) expiry (n_published n) (np_Token value))).

Definition PrivateNotification (s : Store) (io : TxIO) (c : ExecutionContext) (id : string) (now : Time) :
    result Error PrivateDelivery * Store :=
  if is_ok (authenticated s c) && hexID id
  then transaction s io (private_notification_tx s (ec_principal c) id now)
  else (Err stale, s).

Definition publish_notification (k : string * string) (revision : Z) (d : CDB) : option CDB :=
  match notifications d !! k with
  | Some n =>
      if n_revision n =? revision then
        Some (set_notifications d (<[k := mkNotification (n_revision n) (n_payload n) true]> (notifications d)))
      else None
  | None => None
  end.

Definition acknowledge_tx (s : Store) (p : Principal) (id : string) (hash : list byte) (revision : Z)
    (now : Time) : ctx_tx (finish unit) :=
  let! r := load s id in
  let! v := tx_lift (row_snapshot s r stale) in
  let! _ := tx_guard (allowed v p && bool_decide (r_state r = Pending) && (wrapu64 (r_revision r) =? revision) &&
                      bool_decide (hash = r_hash r)) stale in
  let! expiry := tx_lift (parse_expiry r stale) in
  let! _ := tx_guard (now <? expiry) stale in
  let! n := tx_update internal (publish_notification (id, notificationRecipient p) revision) in
  let! _ := tx_guard n stale in
  tx_ret (Commit tt).

Definition AcknowledgePrivateNotification (s : Store) (io : TxIO) (c : ExecutionContext) (token : string)
    (revision : Z) (now : Time) : result Error unit * Store :=
  match parseToken token with
  | Ok (id, hash) =>
      if is_ok (authenticated s c)
      then transaction s io (acknowledge_tx s (ec_principal c) id hash revision now)
      else (Err stale, s)
  | Err _ => (Err stale, s)
  end.

Definition verify_publication_tx (s : Store) (token id : string) (hash : list byte) (revision : Z)
    (recipient : Principal) (now : Time) : ctx_tx (finish PrivateDelivery) :=
  let! r := load s id in
  let! v := tx_lift (row_snapshot s r stale) in
  let! _ := tx_guard (allowed v recipient && bool_decide (r_state r = Pending) &&
                      (wrapu64 (r_revision r) =? revision) && bool_decide (hash = r_hash r)) stale in
  let! expiry := tx_lift (parse_expiry r stale) in
  let! _ := tx_guard (now <? expiry) stale in
  let key := notificationRecipient recipient in
  let! o := tx_query stale (fun d => notifications d !! (id, key)) in
  let! n := tx_lift (of_option o stale) in
  let! _ := tx_guard (n_revision n =? revision) stale in
  let! value := tx_lift (or_err (decodeNotification s id key revision (bounded_payload n)) stale) in
  let! _ := tx_guard (bool_decide (np_Recipient value = recipient) && str_eqb (np_Expiry value) (r_expires r) &&
                      str_eqb (np_Token value) token) stale in
  tx_ret (Rollback (mkDelivery id recipient revision expiry (n_published n) token)).

Definition VerifyPrivatePublication (s : Store) (io : TxIO) (token : string) (revision : Z)
    (recipient : Principal) (now : Time) : result Error PrivateDelivery * Store :=
  match parseToken token with
  | Ok (id, hash) => transaction s io (verify_publication_tx s token id hash revision recipient now)
  | Err _ => (Err stale, s)
  end.

(** ** read.go *)
Definition claim_receipt_tx (s : Store) (p : Principal) (id claimID : string) :
    ctx_tx (finish (option ClaimResult)) :=
  let! r := load s id in
  let! v := tx_lift (row_snapshot s r stale) in
  let! _ := tx_guard (allowed v p) stale in
  if bool_decide (r_state r = Pending) then tx_ret (Rollback None)
  else
    let! receipt := tx_lift (row_receipt r) in
    let! _ := tx_guard (str_eqb (rc_ID receipt) id && str_eqb (rc_ClaimID receipt) claimID &&
                        bool_decide (rc_Principal receipt = p) &&
                        str_eqb (rc_Audience receipt) (audience s)) stale in
    let! out := tx_lift (row_outcome s r) in
    tx_ret (Rollback (Some (mkClaimResult None (Some receipt) None (Some (r_state r)) false out))).

(** [None] is found=false. *)
Definition ClaimReceipt (s : Store) (io : TxIO) (c : ExecutionContext) (id claimID : string) :
    result Error (option ClaimResult) * Store :=
  if is_ok (authenticated s c) && hexID id && hexID claimID
  then transaction s io (claim_receipt_tx s (ec_principal c) id claimID)
  else (Err stale, s).

(** ** fresh_claim.go *)
Definition consume_tx (s : Store) (p : FreshClaim) (receipt : Receipt) : ctx_tx (finish Snapshot) :=
  let! r := load s (rc_ID receipt) in
  let! _ := tx_guard (bool_decide (r_state r = Claimed) && bool_decide (r_receipt r = fc_receipt p) &&
                      bool_decide (r_snapshot r = fc_snapshot p) &&
                      str_eqb (r_digest r) (rc_SnapshotDigest receipt)) stale in
  let! v := tx_lift (snapshot s (fc_snapshot p)) in
  tx_ret (Rollback v).

(** [ctx_ok] is false for a nil or finished context. *)
Definition Consume (p : FreshClaim) (ctx_ok : bool) (s : Store) (io : TxIO) (resumer : ExecutionContext)
    (receipt : Receipt) : result Error Snapshot * FreshClaim :=
  let refused := (Err stale, p) in
  if negb ctx_ok then refused
  else if fc_used p || negb (Nat.eqb (fc_store p) (st_ident s)) || negb (is_ok (authenticated s resumer)) ||
          negb (bool_decide (rc_Principal receipt = ec_principal resumer)) ||
          negb (str_eqb (rc_Audience receipt) (audience s)) then refused
  else match marshal_receipt receipt with
       | None => refused
       | Some raw =>
           if bool_decide (raw = fc_receipt p) then
             match transaction s io (consume_tx s p receipt) with
             | (Ok v, _) => (Ok v, mkFresh (fc_store p) (fc_receipt p) (fc_snapshot p) true)
             | (Err e, _) => (Err e, p)
             end
           else refused
       end.

(** ** verify.go *)
Definition validOutcome (s : Store) (o : Outcome) : bool :=
  valid_effect (oc_Effect o) && is_ok (decodePrivateAny s (oc_Data o) (MaxOutcomeBytes (options s))).

Definition opt_blen (b : option (list byte)) : Z := match b with Some b => blen b | None => 0 end.

(** The EXISTS of the first query: NULL comparisons are not true. *)
Definition malformed (s : Store) (w : Row) : bool :=
  (MaxSnapshotBytes (options s) + maxSealOverhead <? blen (w_snapshot w)) ||
  (16384 + 65536 <? opt_blen (w_receipt w)) ||
  (MaxOutcomeBytes (options s) + maxSealOverhead <? opt_blen (w_outcome w)) ||
  negb (blen (w_hash w) =? 32) || (w_revision w <? 1).

(** The columns as [rows.Scan] reads them, unbounded. *)
Definition raw_row (w : Row) : row :=
  mkrow (w_snapshot w) (w_digest w) (w_expires w) (w_hash w) (w_revision w) (w_state w)
    (default [] (w_receipt w)) (default [] (w_outcome w)).

Definition row_bytes (w : Row) : Z := blen (w_snapshot w) + opt_blen (w_receipt w) + opt_blen (w_outcome w).

Definition verify_receipt (s : Store) (id : string) (v : Snapshot) (expiry : Time) (r : row) :
    result Error unit :=
  let? receipt := or_err (decode receipt_types unmarshal_receipt (r_receipt r) 16384) internal in
  let? _ := guard (str_eqb (rc_ID receipt) id && hexID (rc_ClaimID receipt) &&
                   allowed v (rc_Principal receipt) && str_eqb (rc_Audience receipt) (audience s) &&
                   str_eqb (rc_SnapshotDigest receipt) (r_digest r) &&
                   str_eqb (rc_PlanDigest receipt) (s_PlanDigest v) &&
                   (rc_CapabilityRevision receipt =? wrapu64 (r_revision r)) &&
                   negb (IsZero (rc_ClaimedAt receipt)) && (rc_ClaimedAt receipt <? expiry)) internal in
  guard (bool_decide (default [] (marshal_receipt receipt) = r_receipt r)) internal.

(** The body of the row loop after the totals; the result is the number of
    notifications the row must have. *)
Definition verify_row (s : Store) (id : string) (w : Row) : result Error Z :=
  let? r := openRow s id (raw_row w) in
  let? _ := guard (negb ((MaxSnapshotBytes (options s) <? blen (r_snapshot r)) ||
                         (16384 <? blen (r_receipt r)) ||
                         (MaxOutcomeBytes (options s) <? blen (r_outcome r)) ||
                         negb (blen (r_hash r) =? 32) || (r_revision r <? 1) ||
                         negb (str_eqb (r_digest r) (digest (r_snapshot r))))) internal in
  let? v := or_err (snapshot s (r_snapshot r)) internal in
  let? _ := guard (str_eqb (DeferralID v) id) internal in
  let? expiry := parse_expiry r internal in
  let? _ := guard (negb (IsZero expiry) && str_eqb (Stamp.format expiry) (r_expires r)) internal in
  let? _ := match r_state r with
            | Pending => guard ((blen (r_receipt r) =? 0) && (blen (r_outcome r) =? 0)) internal
            | Claimed =>
                let? _ := verify_receipt s id v expiry r in
                guard (blen (r_outcome r) =? 0) internal
            | Complete_ =>
                let? _ := verify_receipt s id v expiry r in
                let? out := or_err (decode outcome_types unmarshal_outcome (r_outcome r)
                                      (MaxOutcomeBytes (options s))) internal in
                guard (validOutcome s out) internal
            end in
  Ok (Z.of_nat (length (AllowedResumePrincipals v))).

(** The running totals of the scan: rows, bytes, expected notifications. *)
Fixpoint verify_rows (s : Store) (count total notices : Z) (rows : list (string * Row)) :
    result Error (Z * Z * Z) :=
  match rows with
  | [] => Ok (count, total, notices)
  | (id, w) :: rows' =>
      let count := count + 1 in
      let n := row_bytes w in
      let? _ := guard (negb ((o_MaxBytes (options s) - total <? n) || (MaxRecords (options s) <? count))) internal in
      let? k := verify_row s id w in
      verify_rows s count (total + n) (notices + k) rows'
  end.

(** One row of the LEFT JOIN; a notification without its continuation has NULL
    columns, which do not scan. *)
Definition verify_notice (s : Store) (parents : gmap string Row) (k : string * string) (n : NotificationRow) :
    result Error unit :=
  let cipher := bounded_payload n in
  let? c := of_option (parents !! k.1) internal in
  let? _ := guard (n_revision n =? w_revision c) internal in
  let? v := or_err (decodeNotification s k.1 k.2 (n_revision n) cipher) internal in
  let? _ := guard (str_eqb (np_Expiry v) (w_expires c)) internal in
  let? '(tokenID, want) := or_err (parseToken (np_Token v)) internal in
  guard (str_eqb tokenID k.1 && bool_decide (want = w_hash c)) internal.

Fixpoint verify_notices (s : Store) (parents : gmap string Row) (count total : Z)
    (rows : list ((string * string) * NotificationRow)) : result Error (Z * Z) :=
  match rows with
  | [] => Ok (count, total)
  | (k, n) :: rows' =>
      let count := count + 1 in
      let size := blen (bounded_payload n) in
      let? _ := of_option (parents !! k.1) internal in
      let? _ := guard (negb ((MaxRecords (options s) <? (count + 63) / 64) ||
                             (o_MaxBytes (options s) - total <? size))) internal in
      let? _ := verify_notice s parents k n in
      verify_notices s parents count (total + size) rows'
  end.

Definition row_le (a b : string * Row) : Prop := String.le a.1 b.1.
#[global] Instance row_le_dec : RelDecision row_le.
Proof. intros a b. unfold row_le. apply _. Defined.

Definition notice_le (a b : (string * string) * NotificationRow) : Prop :=
  str_lt a.1.1 b.1.1 = true \/ (a.1.1 = b.1.1 /\ String.le a.1.2 b.1.2).
#[global] Instance notice_le_dec : RelDecision notice_le.
Proof. intros a b. unfold notice_le. apply _. Defined.

Definition verify (s : Store) : ctx_tx unit :=
  let! bad := tx_query internal (fun d => mcount (fun _ w => malformed s w) (continuations d)) in
  let! _ := tx_guard (bad =? 0) internal in
  let! rows := tx_query internal (fun d => merge_sort row_le (map_to_list (continuations d))) in
  let! '(count, total, expected) := tx_lift (verify_rows s 0 0 0 rows) in
  let! '(parents, notices) := tx_query internal (fun d =>
    (continuations d, merge_sort notice_le (map_to_list (notifications d)))) in
  let! '(found, total) := tx_lift (verify_notices s parents 0 total notices) in
  let! _ := tx_guard (found =? expected) internal in
  let! '(records, bytes) := tx_query internal (fun d => (b_records d, b_bytes d)) in
  tx_guard ((records =? count) && (bytes =? total)) internal.

(** ** store.go: open *)
Definition boot_tx (s : Store) (nonce : list byte) : ctx_tx (finish unit) :=
  let! _ := tx_exec internal (fun d =>
    match identity d with Some _ => None | None => Some empty_db end) in
  let! b := tx_lift (sealIdentity s nonce) in
  let! _ := tx_exec internal (fun d =>
    Some (mkCDB (Some b) (b_records d) (b_bytes d) (continuations d) (notifications d))) in
  tx_ret (Commit tt).

Definition boot (s : Store) (io : Durable.OpenIO) (nonce : list byte) : result Error unit * CDB :=
  match run_tx internal (Durable.boot_io io) (db s) (boot_tx s nonce) with
  | (Ok _, d) => (guard (Durable.fs_sync io) internal, d)
  | (Err e, d) => (Err e, d)
  end.

(** The checks of a stored database: version, quick_check, identity, rows. *)
Definition open_checks (s : Store) (io : Durable.OpenIO) : result Error Store :=
  let? raw := of_option (identity (db s)) internal in
  let? _ := guard (Durable.fs_quick_check io) internal in
  let? _ := verifyIdentity s (bounded (maxSealOverhead + 1024) (Some raw)) in
  let? _ := run_read (Durable.verify_io io) (db s) (verify s) in
  Ok s.

Definition open_config (aud : string) (o : Options) : result Error unit :=
  let? _ := guard (text (Durable.kr_ID Durable.Reference) 4096 && text (Durable.kr_Version Durable.Reference) 256)
              (invalid "Private continuation protector required") in
  let? _ := validate o in
  guard (text aud 4096) (invalid "Invalid continuation audience").

(** [disk] is the database file of the directory, if there is one; the result
    carries it afterwards. [ident] is the identity of the new *Store. *)
Definition open (ident : nat) (aud : string) (o : Options) (create : bool) (io : Durable.OpenIO)
    (nonce : list byte) (disk : option CDB) : result Error Store * option CDB :=
  match open_config aud o with
  | Err e => (Err e, disk)
  | Ok _ =>
      if (negb create || Durable.fs_dir io) && Durable.fs_lock io &&
         (negb create || (Durable.fs_create io && bool_decide (disk = None))) then
        match (if create then Some empty_db else disk) with
        | None => (Err internal, disk)
        | Some d =>
            if Durable.fs_check io && Durable.fs_path io && Durable.fs_open io && Durable.fs_pragma io then
              let s := mkStore ident aud o Durable.Reference false d in
              let '(booted, d) := if create then boot s io nonce else (Ok tt, d) in
              (let? _ := booted in open_checks (with_db s d) io, Some d)
            else (Err internal, Some d)
        end
      else (Err internal, disk)
  end.

Definition Bootstrap (ident : nat) (aud : string) (o : Options) (io : Durable.OpenIO) (nonce : list byte)
    (disk : option CDB) := open ident aud o true io nonce disk.
Definition Open (ident : nat) (aud : string) (o : Options) (io : Durable.OpenIO) (disk : option CDB) :=
  open ident aud o false io [] disk.

Definition Close (s : Store) : Store :=
  mkStore (st_ident s) (audience s) (options s) (keyRef s) true (db s).
End store.
End Continuation.
