(* ===== verification/ContinuationInv.v ===== *)
(** * The continuation store: what each operation does to its tables

    [ContinuationInv] inverts every transaction of [Continuation] once, defines
    how a row may evolve ([row_step]) and the accounting invariant ([Inv]), and
    proves that the store machine keeps both under any sequence of operations,
    statement failures, ambiguous commits and restarts. *)
From Stdlib Require Import Ascii Strings.Byte ZArith Lia.
From S2P Require Import Prelude GoStrings FabricRef Framing Wire FabricModel SqlTx Durable Ledger Encodings Continuation.
#[local] Open Scope Z_scope.
#[local] Arguments str_eqb _ _ : simpl never.
#[local] Arguments Z.ltb _ _ : simpl never.

Module ContinuationInv.
Import Wire.Wire Model Continuation.

(** The SQL [length] totals the budget row must equal. *)
Definition row_total (d : CDB) : Z := msum (fun _ w => row_bytes w) (continuations d).
Definition notice_total (d : CDB) : Z := msum (fun _ n => blen (n_payload n)) (notifications d).

(** Which blobs a row of each state has. *)
Definition row_ok (w : Row) : Prop :=
  match w_state w with
  | Pending => w_receipt w = None /\ w_outcome w = None
  | Claimed => w_outcome w = None
  | Complete_ => True
  end.

Record Inv (o : Options) (d : CDB) : Prop := {
  inv_records : b_records d = Z.of_nat (size (continuations d));
  inv_bytes : b_bytes d = row_total d + notice_total d;
  inv_max_records : b_records d <= MaxRecords o;
  inv_max_bytes : b_bytes d <= o_MaxBytes o;
  inv_rows : forall id w, continuations d !! id = Some w -> row_ok w }.

(** The evolution of a row: rotation, claim, completion. *)
Inductive row_step : Row -> Row -> Prop :=
| step_rotate w hash : w_state w = Pending ->
    row_step w (mkRow (w_snapshot w) (w_digest w) (w_expires w) hash (w_revision w + 1) Pending
                  (w_receipt w) (w_outcome w))
| step_claim w sealed : w_state w = Pending ->
    row_step w (mkRow (w_snapshot w) (w_digest w) (w_expires w) (w_hash w) (w_revision w) Claimed
                  (Some sealed) (w_outcome w))
| step_complete w sealed : w_state w = Claimed ->
    row_step w (mkRow (w_snapshot w) (w_digest w) (w_expires w) (w_hash w) (w_revision w) Complete_
                  (w_receipt w) (Some sealed)).

Definition rank (st : State) : Z := match st with Pending => 0 | Claimed => 1 | Complete_ => 2 end.

(** What may have become of a row after any number of steps. *)
Record row_later (w w' : Row) : Prop := {
  later_fixed : w_snapshot w' = w_snapshot w /\ w_digest w' = w_digest w /\ w_expires w' = w_expires w;
  later_rank : rank (w_state w) <= rank (w_state w');
  later_revision : w_revision w <= w_revision w';
  later_claimed : w_state w <> Pending ->
    w_hash w' = w_hash w /\ w_revision w' = w_revision w /\ w_receipt w' = w_receipt w;
  later_complete : w_state w = Complete_ -> w' = w }.

Lemma row_later_refl w : row_later w w.
Proof. split; auto; lia. Qed.

Lemma row_step_later w w' : row_step w w' -> row_later w w'.
Proof. destruct 1 as [w h Hw|w b Hw|w b Hw]; split; simpl; rewrite ?Hw; simpl; try done; try lia. Qed.

Lemma row_later_trans w1 w2 w3 : row_later w1 w2 -> row_later w2 w3 -> row_later w1 w3.
Proof.
  intros [F1 R1 V1 C1 X1] [F2 R2 V2 C2 X2]. split.
  - destruct F1 as (? & ? & ?), F2 as (? & ? & ?). split_and!; congruence.
  - lia.
  - lia.
  - intros Hp. destruct (C1 Hp) as (? & ? & ?). destruct C2 as (? & ? & ?).
    { intros E. rewrite E in R1. destruct (w_state w1); simpl in R1; [done|lia..]. }
    split_and!; congruence.
  - intros Hc. specialize (X1 Hc) as ->. by apply X2.
Qed.

(** One operation: every row stays or makes one step, new rows are pending. *)
Definition fresh_row (w : Row) : Prop :=
  w_state w = Pending /\ w_revision w = 1 /\ w_receipt w = None /\ w_outcome w = None.

Definition rows_step (m m' : gmap string Row) : Prop := forall id,
  m' !! id = m !! id \/
  (m !! id = None /\ exists w, m' !! id = Some w /\ fresh_row w) \/
  (exists w w', m !! id = Some w /\ m' !! id = Some w' /\ row_step w w').

Lemma rows_step_refl m : rows_step m m.
Proof. by left. Qed.

Lemma rows_step_insert m id w : m !! id = None -> fresh_row w -> rows_step m (<[id := w]> m).
Proof.
  intros Hn Hf j. destruct (decide (j = id)) as [->|Hne].
  - right; left. rewrite lookup_insert_eq. eauto.
  - left. by rewrite lookup_insert_ne.
Qed.

Lemma rows_step_update m id w w' : m !! id = Some w -> row_step w w' -> rows_step m (<[id := w']> m).
Proof.
  intros Hw Hs j. destruct (decide (j = id)) as [->|Hne].
  - right; right. rewrite lookup_insert_eq. eauto.
  - left. by rewrite lookup_insert_ne.
Qed.

Lemma rows_step_later m m' id w : rows_step m m' -> m !! id = Some w ->
  exists w', m' !! id = Some w' /\ row_later w w'.
Proof.
  intros Hs Hw. destruct (Hs id) as [He|[[Hn _]|(w0 & w' & H0 & H1 & Hst)]].
  - exists w. rewrite He. split; [done|apply row_later_refl].
  - congruence.
  - rewrite Hw in H0. injection H0 as <-. eauto using row_step_later.
Qed.

(** ** Sums *)
Lemma msum_upsert {K V} `{Countable K} (f : K -> V -> Z) (m : gmap K V) (k : K) (v : V) :
  msum f (<[k := v]> m) = msum f m - (match m !! k with Some w => f k w | None => 0 end) + f k v.
Proof.
  destruct (m !! k) as [w|] eqn:Hk; [by rewrite (msum_update f m k w)|].
  rewrite msum_insert by done. lia.
Qed.

Section ops.
Context `{Sha256, JsonDecoder, EnvelopeJson, Durable.DataProtector, ContinuationJson}.
Implicit Types (s : Store) (d : CDB).

(** ** Statements *)
Lemma tx_update_Ok fail (f : CDB -> option CDB) io (st : nat * CDB) b st' :
  tx_update fail f io st = Ok (b, st') ->
  (b = true /\ exists d, f st.2 = Some d /\ st' = (S st.1, d)) \/
  (b = false /\ f st.2 = None /\ st' = (S st.1, st.2)).
Proof.
  unfold tx_update. destruct (io st.1); [|done].
  destruct (f st.2) as [d|] eqn:E; intros [= <- <-]; [left; eauto | right; auto].
Qed.

Lemma update_guard_Ok {A} fail e (f : CDB -> option CDB) (k : ctx_tx A) io st a st' :
  tx_bind (tx_update fail f) (fun n => tx_bind (tx_guard n e) (fun _ => k)) io st = Ok (a, st') ->
  exists d, f st.2 = Some d /\ k io (S st.1, d) = Ok (a, st').
Proof.
  intros (n & s1 & Hu & Hk)%tx_bind_Ok. apply tx_bind_Ok in Hk as (u & s2 & Hg & Hk).
  apply tx_guard_Ok in Hg as [-> ->].
  apply tx_update_Ok in Hu as [(_ & d & Hf & ->)|(? & _)]; [eauto | done].
Qed.

Definition charged (records bytes : Z) (d : CDB) : CDB :=
  mkCDB (identity d) (b_records d + records) (b_bytes d + bytes) (continuations d) (notifications d).

Lemma charge_Ok s records bytes io st u st' : charge s records bytes io st = Ok (u, st') ->
  st'.2 = charged records bytes st.2 /\ b_records st.2 + records <= MaxRecords (options s) /\
  b_bytes st.2 + bytes <= o_MaxBytes (options s).
Proof.
  unfold charge. intros (n & s1 & Hu & Hg)%tx_bind_Ok. apply tx_guard_Ok in Hg as [-> ->].
  apply tx_update_Ok in Hu as [(_ & d & Hf & ->)|(? & _)]; [|done].
  unfold charge_rows in Hf. destruct (_ && _) eqn:E; [|done]. injection Hf as <-.
  apply andb_true_iff in E as [E1%Z.leb_le E2%Z.leb_le]. auto.
Qed.

(** ** The outbox *)
Record notice_step (o : Options) (d d' : CDB) : Prop := {
  ns_identity : identity d' = identity d;
  ns_rows : continuations d' = continuations d;
  ns_records : b_records d' = b_records d;
  ns_bytes : b_bytes d' - notice_total d' = b_bytes d - notice_total d;
  ns_max : b_bytes d <= o_MaxBytes o -> b_bytes d' <= o_MaxBytes o }.

Lemma notice_step_refl o d : notice_step o d d.
Proof. by split. Qed.

Lemma notice_step_trans o d1 d2 d3 : notice_step o d1 d2 -> notice_step o d2 d3 -> notice_step o d1 d3.
Proof. intros [] []. split; try congruence; try lia; auto. Qed.

Lemma write_notification_step s id token revision expiry x io st u st' :
  write_notification s id token revision expiry x io st = Ok (u, st') ->
  notice_step (options s) st.2 st'.2.
Proof.
  unfold write_notification. destruct x as [nonce recipient]. intros Hrun.
  apply tx_bind_Ok in Hrun as (raw & s1 & Hm & Hrun). apply tx_lift_Ok in Hm as [Hm ->].
  apply tx_bind_Ok in Hrun as (u1 & s2 & Hg & Hrun). apply tx_guard_Ok in Hg as [Hg ->].
  apply tx_bind_Ok in Hrun as (cipher & s3 & Hc & Hrun). apply tx_lift_Ok in Hc as [Hc ->].
  apply tx_bind_Ok in Hrun as (prev & s4 & Hp & Hrun). apply tx_query_Ok in Hp as (_ & -> & ->).
  apply tx_bind_Ok in Hrun as (u2 & s5 & Hch & Hrun).
  apply charge_Ok in Hch as (Hd & Hr & Hb). cbn [snd] in *.
  apply tx_exec_Ok in Hrun as (_ & d & Hd' & ->). injection Hd' as <-. rewrite Hd. clear Hd.
  unfold upsert_notification, set_notifications, charged. cbn [snd].
  split; cbn [identity continuations b_records b_bytes notifications snd]; try done; [lia|..].
  unfold notice_total. cbn [notifications]. rewrite msum_upsert. cbn [n_payload].
  unfold payload_length. destruct (notifications st.2 !! _); lia.
Qed.

Lemma write_notifications_step s nonces v token revision expiry io st u st' :
  writeNotifications s nonces v token revision expiry io st = Ok (u, st') ->
  notice_step (options s) st.2 st'.2.
Proof.
  unfold writeNotifications. intros Hrun.
  apply (tx_iter_ind _ (fun _ d => notice_step (options s) st.2 d) _ _ _ _ _) in Hrun; [done| |apply notice_step_refl].
  intros x l s1 s2 u1 Hs Hw. eapply notice_step_trans; [exact Hs|]. by eapply write_notification_step.
Qed.

(** ** Transactions *)
Lemma with_db_same s : with_db s (db s) = s.
Proof. by destruct s. Qed.

Lemma transaction_cases {A} s (io : TxIO) (body : ctx_tx (finish A)) r s' :
  transaction s io body = (r, s') ->
  (s' = s /\ exists e, r = Err e) \/
  (exists a st, body (io_stmt io) (O, db s) = Ok (Rollback a, st) /\ r = Ok a /\ s' = s) \/
  (exists a n d, body (io_stmt io) (O, db s) = Ok (Commit a, (n, d)) /\ s' = with_db s d /\
     (r = Ok a \/ r = Err internal)).
Proof.
  unfold transaction. destruct (closed s); [intros [= <- <-]; eauto|].
  destruct (run_tx internal io (db s) body) as [r1 d] eqn:E. intros [= <- <-].
  apply run_tx_cases in E as [[-> He]|[(a & st & Hb & -> & ->)|(a & n & Hb & Hr)]].
  - rewrite with_db_same. auto.
  - rewrite with_db_same. right; left. eauto.
  - right; right. exists a, n, d. split; [done|]. split; [done|]. destruct Hr as [[-> _]|[-> _]]; auto.
Qed.

(** Rows after a commit: [d] is the table before, [d'] after. *)
Lemma create_commit s rnd v b expires now io d a n d' :
  create_tx s rnd v b expires now io (O, d) = Ok (Commit a, (n, d')) ->
  exists sealed hash token, continuations d !! DeferralID v = None /\
    mint (DeferralID v) (rd_secret rnd) = Ok (token, hash) /\ a = mkIssued (DeferralID v) 1 true token /\
    sealBlob s (rd_nonce rnd) "snapshot" (DeferralID v) b (MaxSnapshotBytes (options s)) = Ok sealed /\
    b_records d + 1 <= MaxRecords (options s) /\ b_bytes d + blen sealed <= o_MaxBytes (options s) /\
    now < expires /\
    notice_step (options s) (set_rows (charged 1 (blen sealed) d) (<[DeferralID v :=
      mkRow sealed (digest b) (Stamp.format expires) hash 1 Pending None None]> (continuations d))) d'.
Proof.
  unfold create_tx. intros Hrun.
  apply tx_bind_Ok in Hrun as (o & s1 & Hq & Hrun). apply tx_query_Ok in Hq as (_ & -> & ->).
  cbn [fst snd] in Hrun. destruct (load_row s _ _) as [prior|e].
  { apply tx_bind_Ok in Hrun as (? & ? & _ & Hrun). apply tx_ret_Ok in Hrun as [? _]. done. }
  apply tx_bind_Ok in Hrun as (u1 & s2 & Hg & Hrun). apply tx_guard_Ok in Hg as [_ ->].
  apply tx_bind_Ok in Hrun as (u2 & s3 & Hg & Hrun). apply tx_guard_Ok in Hg as [Hexp ->].
  apply tx_bind_Ok in Hrun as ([token hash] & s4 & Hm & Hrun). apply tx_lift_Ok in Hm as [Hm ->].
  apply tx_bind_Ok in Hrun as (sealed & s5 & Hs & Hrun). apply tx_lift_Ok in Hs as [Hs ->].
  apply tx_bind_Ok in Hrun as (u3 & [n6 d6] & Hc & Hrun). apply charge_Ok in Hc as (Hd & Hr & Hb).
  cbn [fst snd] in *. subst d6.
  apply tx_bind_Ok in Hrun as (u4 & s7 & Hi & Hrun). apply tx_exec_Ok in Hi as (_ & d7 & Hi & ->).
  apply tx_bind_Ok in Hrun as (u5 & [n8 d8] & Hw & Hrun). apply write_notifications_step in Hw.
  apply tx_ret_Ok in Hrun as [Ha [= -> ->]]. injection Ha as ->. cbn [fst snd] in *.
  unfold insert_row in Hi. cbn [continuations charged] in Hi.
  destruct (continuations d !! DeferralID v) eqn:El; [done|]. injection Hi as <-.
  exists sealed, hash, token. split_and!; try done.
  apply negb_true_iff in Hexp. apply orb_false_iff in Hexp as [Hexp _].
  apply orb_false_iff in Hexp as [_ Hexp]. apply negb_false_iff, Z.ltb_lt in Hexp. done.
Qed.

(** A loaded row carries the clear columns of the stored one. *)
Record loaded (s : Store) (d : CDB) (id : string) (w : Row) (r : row) : Prop := {
  ld_row : continuations d !! id = Some w;
  ld_open : openRow s id (scan_row s w) = Ok r;
  ld_digest : r_digest r = w_digest w;
  ld_expires : r_expires r = w_expires w;
  ld_hash : r_hash r = w_hash w;
  ld_revision : r_revision r = w_revision w;
  ld_state : r_state r = w_state w }.

Lemma load_Ok s id io st r st' : load s id io st = Ok (r, st') ->
  exists w, loaded s st.2 id w r /\ st' = (S st.1, st.2).
Proof.
  unfold load. intros (o & s1 & Hq & Hl)%tx_bind_Ok. apply tx_query_Ok in Hq as (_ & -> & ->).
  apply tx_lift_Ok in Hl as [Hl ->]. unfold load_row in Hl.
  destruct (continuations st.2 !! id) as [w|] eqn:Ew; [|done]. exists w. split; [|done].
  pose proof Hl as Hopen. unfold openRow in Hopen. cbn [scan_row r_digest r_expires r_hash r_revision r_state] in Hopen.
  apply rbind_Ok in Hopen as (plain & _ & Hopen). apply rbind_Ok in Hopen as (u & _ & Hopen).
  apply rbind_Ok in Hopen as (x & _ & Hopen). apply rbind_Ok in Hopen as (y & _ & Hopen).
  injection Hopen as <-. by split.
Qed.

Lemma row_snapshot_Ok s r e v : row_snapshot s r e = Ok v -> snapshot s (r_snapshot r) = Ok v.
Proof. unfold row_snapshot. by destruct (snapshot s (r_snapshot r)). Qed.

Lemma rotate_commit s rnd p id expected now io d a n d' :
  rotate_tx s rnd p id expected now io (O, d) = Ok (Commit a, (n, d')) ->
  exists w r v hash token expiry, loaded s d id w r /\ w_state w = Pending /\
    snapshot s (r_snapshot r) = Ok v /\ allowed v p = true /\
    Rfc3339.parse (w_expires w) = Some expiry /\ now < expiry /\ wrapu64 (w_revision w) = expected /\
    mint id (rd_secret rnd) = Ok (token, hash) /\ a = mkIssued id (expected + 1) false token /\
    notice_step (options s) (set_rows d (<[id := mkRow (w_snapshot w) (w_digest w) (w_expires w) hash
      (w_revision w + 1) Pending (w_receipt w) (w_outcome w)]> (continuations d))) d'.
Proof.
  unfold rotate_tx. intros Hrun.
  apply tx_bind_Ok in Hrun as (r & s1 & Hl & Hrun). apply load_Ok in Hl as (w & Hl & ->). cbn [fst snd] in *.
  apply tx_bind_Ok in Hrun as (v & s2 & Hv & Hrun). apply tx_lift_Ok in Hv as [Hv%row_snapshot_Ok ->].
  apply tx_bind_Ok in Hrun as (expiry & s3 & He & Hrun). apply tx_lift_Ok in He as [He ->].
  apply tx_bind_Ok in Hrun as (u1 & s4 & Hg & Hrun). apply tx_guard_Ok in Hg as [Hg ->].
  apply tx_bind_Ok in Hrun as ([token hash] & s5 & Hm & Hrun). apply tx_lift_Ok in Hm as [Hm ->].
  apply update_guard_Ok in Hrun as (d6 & Hu & Hrun). cbn [fst snd] in *.
  apply tx_bind_Ok in Hrun as (u5 & [n8 d8] & Hw & Hrun). apply write_notifications_step in Hw.
  apply tx_ret_Ok in Hrun as [Ha [= -> ->]]. injection Ha as ->. cbn [fst snd] in *.
  unfold rotate_row in Hu. rewrite (ld_row _ _ _ _ _ Hl) in Hu.
  rewrite (ld_revision _ _ _ _ _ Hl), (ld_state _ _ _ _ _ Hl) in *.
  unfold parse_expiry in He. rewrite (ld_expires _ _ _ _ _ Hl) in *.
  destruct (_ && _) eqn:Ec in Hu; [|done]. apply andb_true_iff in Ec as [Hst%bool_decide_eq_true_1 _].
  rewrite Hst in Hu. injection Hu as <-.
  destruct (Rfc3339.parse (w_expires w)) as [x|] eqn:Ex; [|done]. injection He as ->.
  rewrite !negb_orb, !negb_involutive, !andb_true_iff in Hg. destruct Hg as [[[Ha Hp] Hr%Z.eqb_eq] Hx%Z.ltb_lt].
  exists w, r, v, hash, token, expiry. by split_and!.
Qed.

(** The result of a claim that found its continuation already claimed. *)
Lemma claim_rollback s nonce p id hash claimID now io d a st :
  claim_tx s nonce p id hash claimID now io (O, d) = Ok (Rollback a, st) ->
  exists w r v, loaded s d id w r /\ w_state w <> Pending /\ snapshot s (r_snapshot r) = Ok v /\
    allowed v p = true /\ w_hash w = hash /\ claimed_before s p claimID v r = Ok a.
Proof.
  unfold claim_tx. intros Hrun.
  apply tx_bind_Ok in Hrun as (r & s1 & Hl & Hrun). apply load_Ok in Hl as (w & Hl & ->). cbn [fst snd] in *.
  apply tx_bind_Ok in Hrun as (v & s2 & Hv & Hrun). apply tx_lift_Ok in Hv as [Hv%row_snapshot_Ok ->].
  apply tx_bind_Ok in Hrun as (u1 & s4 & Hg & Hrun). apply tx_guard_Ok in Hg as [Hg ->].
  rewrite !negb_orb, !negb_involutive, !andb_true_iff in Hg. destruct Hg as [Ha Hh%bool_decide_eq_true_1].
  rewrite (ld_hash _ _ _ _ _ Hl), (ld_state _ _ _ _ _ Hl) in *.
  destruct (bool_decide (w_state w = Pending)) eqn:Ep; cbn [negb] in Hrun.
  - exfalso. tinv.
  - apply tx_bind_Ok in Hrun as (res & s5 & Hc & Hrun). apply tx_lift_Ok in Hc as [Hc ->].
    apply tx_ret_Ok in Hrun as [Hr _]. injection Hr as ->. apply bool_decide_eq_false_1 in Ep.
    exists w, r, v. by split_and!.
Qed.

Lemma claim_commit s nonce p id hash claimID now io d a n d' :
  claim_tx s nonce p id hash claimID now io (O, d) = Ok (Commit a, (n, d')) ->
  exists w r v expiry receipt b sealed, loaded s d id w r /\ w_state w = Pending /\
    snapshot s (r_snapshot r) = Ok v /\ allowed v p = true /\ w_hash w = hash /\
    Rfc3339.parse (w_expires w) = Some expiry /\ now < expiry /\
    receipt = mkReceipt id claimID p (audience s) (w_digest w) (s_PlanDigest v) (wrapu64 (w_revision w)) now /\
    marshal_receipt receipt = Some b /\ sealBlob s nonce "receipt" id b maxReceiptBytes = Ok sealed /\
    b_records d <= MaxRecords (options s) /\ b_bytes d + blen sealed <= o_MaxBytes (options s) /\
    a = mkClaimResult (Some (mkFresh (st_ident s) b (r_snapshot r) false)) (Some receipt) (Some v)
          (Some Claimed) true None /\
    d' = set_rows (charged 0 (blen sealed) d) (<[id := mkRow (w_snapshot w) (w_digest w) (w_expires w)
           (w_hash w) (w_revision w) Claimed (Some sealed) (w_outcome w)]> (continuations d)).
Proof.
  unfold claim_tx. intros Hrun.
  apply tx_bind_Ok in Hrun as (r & s1 & Hl & Hrun). apply load_Ok in Hl as (w & Hl & ->). cbn [fst snd] in *.
  apply tx_bind_Ok in Hrun as (v & s2 & Hv & Hrun). apply tx_lift_Ok in Hv as [Hv%row_snapshot_Ok ->].
  apply tx_bind_Ok in Hrun as (u1 & s4 & Hg & Hrun). apply tx_guard_Ok in Hg as [Hg ->].
  rewrite !negb_orb, !negb_involutive, !andb_true_iff in Hg. destruct Hg as [Ha Hh%bool_decide_eq_true_1].
  unfold parse_expiry in Hrun.
  rewrite (ld_hash _ _ _ _ _ Hl), (ld_state _ _ _ _ _ Hl), (ld_expires _ _ _ _ _ Hl), (ld_revision _ _ _ _ _ Hl),
    (ld_digest _ _ _ _ _ Hl) in *.
  destruct (bool_decide (w_state w = Pending)) eqn:Ep; cbn [negb] in Hrun; [|exfalso; by tinv].
  apply bool_decide_eq_true_1 in Ep.
  apply tx_bind_Ok in Hrun as (expiry & s3 & He & Hrun). apply tx_lift_Ok in He as [He ->].
  apply tx_bind_Ok in Hrun as (u2 & s5 & Hg & Hrun). apply tx_guard_Ok in Hg as [Hx%Z.ltb_lt ->].
  apply tx_bind_Ok in Hrun as (b & s6 & Hm & Hrun). apply tx_lift_Ok in Hm as [Hm ->].
  apply tx_bind_Ok in Hrun as (u3 & s7 & Hg & Hrun). apply tx_guard_Ok in Hg as [_ ->].
  apply tx_bind_Ok in Hrun as (sealed & s8 & Hs & Hrun). apply tx_lift_Ok in Hs as [Hs ->].
  apply tx_bind_Ok in Hrun as (u4 & [n9 d9] & Hc & Hrun). apply charge_Ok in Hc as (Hd & Hr & Hb).
  cbn [fst snd] in *. subst d9. apply update_guard_Ok in Hrun as (d6 & Hu & Hrun). cbn [fst snd] in *.
  apply tx_ret_Ok in Hrun as [Hres [= -> ->]]. injection Hres as ->.
  unfold claim_row in Hu. cbn [charged continuations] in Hu. rewrite (ld_row _ _ _ _ _ Hl), Ep in Hu.
  destruct (_ && _) eqn:Ec in Hu; [|done]. injection Hu as <-.
  destruct (Rfc3339.parse (w_expires w)) as [x|] eqn:Ex; [|done]. injection He as ->.
  destruct (marshal_receipt _) as [b'|] eqn:Em in Hm; [|done]. injection Hm as ->.
  eexists w, r, v, expiry, _, b, sealed. split_and!; try done. lia.
Qed.

Lemma complete_commit s nonce id want b out io d a n d' :
  complete_tx s nonce id want b out io (O, d) = Ok (Commit a, (n, d')) ->
  exists w r sealed, loaded s d id w r /\ w_state w = Claimed /\ r_receipt r = want /\ a = out /\
    sealBlob s nonce "outcome" id b (MaxOutcomeBytes (options s)) = Ok sealed /\
    b_bytes d + blen sealed <= o_MaxBytes (options s) /\
    d' = set_rows (charged 0 (blen sealed) d) (<[id := mkRow (w_snapshot w) (w_digest w) (w_expires w)
           (w_hash w) (w_revision w) Complete_ (w_receipt w) (Some sealed)]> (continuations d)).
Proof.
  unfold complete_tx. intros Hrun.
  apply tx_bind_Ok in Hrun as (r & s1 & Hl & Hrun). apply load_Ok in Hl as (w & Hl & ->). cbn [fst snd] in *.
  apply tx_bind_Ok in Hrun as (u1 & s4 & Hg & Hrun). apply tx_guard_Ok in Hg as [Hg ->].
  rewrite negb_orb, negb_involutive, andb_true_iff in Hg. destruct Hg as [_ Hw%bool_decide_eq_true_1].
  destruct (bool_decide (r_state r = Complete_)); [exfalso; by tinv|].
  apply tx_bind_Ok in Hrun as (sealed & s8 & Hs & Hrun). apply tx_lift_Ok in Hs as [Hs ->].
  apply tx_bind_Ok in Hrun as (u4 & [n9 d9] & Hc & Hrun). apply charge_Ok in Hc as (Hd & Hr & Hb).
  cbn [fst snd] in *. subst d9. apply update_guard_Ok in Hrun as (d6 & Hu & Hrun). cbn [fst snd] in *.
  apply tx_ret_Ok in Hrun as [Hres [= -> ->]]. injection Hres as ->.
  unfold complete_row in Hu. cbn [charged continuations] in Hu. rewrite (ld_row _ _ _ _ _ Hl) in Hu.
  destruct (bool_decide (w_state w = Claimed)) eqn:Ec; [|done]. injection Hu as <-.
  apply bool_decide_eq_true_1 in Ec. exists w, r, sealed. by split_and!.
Qed.

(** A completion that changes nothing found the row complete. *)
Lemma complete_rollback s nonce id want b out io d a st :
  complete_tx s nonce id want b out io (O, d) = Ok (Rollback a, st) ->
  exists w r, loaded s d id w r /\ w_state w = Complete_.
Proof.
  unfold complete_tx. intros Hrun.
  apply tx_bind_Ok in Hrun as (r & s1 & Hl & Hrun). apply load_Ok in Hl as (w & Hl & ->). cbn [fst snd] in *.
  apply tx_bind_Ok in Hrun as (u1 & s4 & Hg & Hrun). apply tx_guard_Ok in Hg as [Hg ->].
  rewrite (ld_state _ _ _ _ _ Hl) in *. destruct (bool_decide (w_state w = Complete_)) eqn:Ec; [|exfalso; by tinv].
  apply bool_decide_eq_true_1 in Ec. eauto.
Qed.

Lemma acknowledge_commit s p id hash revision now io d a n d' :
  acknowledge_tx s p id hash revision now io (O, d) = Ok (Commit a, (n, d')) -> notice_step (options s) d d'.
Proof.
  unfold acknowledge_tx. intros Hrun.
  apply tx_bind_Ok in Hrun as (r & s1 & Hl & Hrun). apply load_Ok in Hl as (w & Hl & ->). cbn [fst snd] in *.
  apply tx_bind_Ok in Hrun as (v & s2 & Hv & Hrun). apply tx_lift_Ok in Hv as [_ ->].
  apply tx_bind_Ok in Hrun as (u1 & s4 & Hg & Hrun). apply tx_guard_Ok in Hg as [_ ->].
  apply tx_bind_Ok in Hrun as (e & s3 & He & Hrun). apply tx_lift_Ok in He as [_ ->].
  apply tx_bind_Ok in Hrun as (u2 & s5 & Hg & Hrun). apply tx_guard_Ok in Hg as [_ ->].
  apply update_guard_Ok in Hrun as (d6 & Hu & Hrun). cbn [fst snd] in *.
  apply tx_ret_Ok in Hrun as [_ [= -> ->]]. unfold publish_notification in Hu.
  destruct (notifications d !! _) as [x|] eqn:Ex; [|done]. destruct (n_revision x =? revision); [|done].
  injection Hu as <-. split; try done. unfold notice_total. cbn [notifications set_notifications b_bytes].
  rewrite msum_upsert, Ex. cbn [n_payload]. lia.
Qed.

(** Read-only handlers end in a rollback. *)
Lemma reads_never_commit s io d n d' :
  (forall p id now a, private_notification_tx s p id now io (O, d) <> Ok (Commit a, (n, d'))) /\
  (forall t id h rev p now a, verify_publication_tx s t id h rev p now io (O, d) <> Ok (Commit a, (n, d'))) /\
  (forall p id claimID a, claim_receipt_tx s p id claimID io (O, d) <> Ok (Commit a, (n, d'))) /\
  (forall p receipt a, consume_tx s p receipt io (O, d) <> Ok (Commit a, (n, d'))).
Proof.
  split_and!; intros * Hrun.
  - unfold private_notification_tx in Hrun. repeat (apply tx_bind_Ok in Hrun as (? & ? & _ & Hrun); cbv beta zeta in Hrun).
    case_match. apply tx_bind_Ok in Hrun as (? & ? & _ & Hrun). by apply tx_ret_Ok in Hrun as [? _].
  - unfold verify_publication_tx in Hrun. repeat (apply tx_bind_Ok in Hrun as (? & ? & _ & Hrun); cbv beta zeta in Hrun).
    by apply tx_ret_Ok in Hrun as [? _].
  - unfold claim_receipt_tx in Hrun. repeat (apply tx_bind_Ok in Hrun as (? & ? & _ & Hrun); cbv beta zeta in Hrun).
    case_match; repeat (apply tx_bind_Ok in Hrun as (? & ? & _ & Hrun); cbv beta zeta in Hrun);
      by apply tx_ret_Ok in Hrun as [? _].
  - unfold consume_tx in Hrun. repeat (apply tx_bind_Ok in Hrun as (? & ? & _ & Hrun); cbv beta zeta in Hrun).
    by apply tx_ret_Ok in Hrun as [? _].
Qed.

(** ** The accounting invariant *)
Lemma inv_notice o d d' : Inv o d -> notice_step o d d' -> Inv o d'.
Proof.
  intros [H1' H2' H3' H4' H5'] [N1 N2 N3 N4 N5]. unfold row_total in *.
  split; unfold row_total; rewrite ?N2, ?N3 in *; auto. lia.
Qed.

Lemma inv_insert o d id sealed dig exp hash : Inv o d -> continuations d !! id = None ->
  b_records d + 1 <= MaxRecords o -> b_bytes d + blen sealed <= o_MaxBytes o ->
  Inv o (set_rows (charged 1 (blen sealed) d)
           (<[id := mkRow sealed dig exp hash 1 Pending None None]> (continuations d))).
Proof.
  intros [H1' H2' H3' H4' H5'] Hn Hr Hb. split; cbn [set_rows charged b_records b_bytes continuations].
  - rewrite map_size_insert_None by done. lia.
  - unfold row_total, notice_total. cbn [set_rows charged continuations notifications].
    rewrite msum_insert by done. unfold row_bytes at 1. cbn [w_snapshot w_receipt w_outcome opt_blen].
    unfold row_total, notice_total in H2'. lia.
  - done.
  - done.
  - intros j w. rewrite lookup_insert_Some. intros [[<- <-]|[_ Hj]]; [done | eauto].
Qed.

(** An update that grows a row by the charged bytes. *)
Lemma inv_update o d id w w' bytes : Inv o d -> continuations d !! id = Some w -> row_ok w' ->
  row_bytes w' = row_bytes w + bytes -> b_bytes d + bytes <= o_MaxBytes o ->
  Inv o (set_rows (charged 0 bytes d) (<[id := w']> (continuations d))).
Proof.
  intros [H1' H2' H3' H4' H5'] Hw Hok Hg Hb. split; cbn [set_rows charged b_records b_bytes continuations].
  - rewrite map_size_insert_Some by eauto. lia.
  - unfold row_total, notice_total. cbn [set_rows charged continuations notifications].
    rewrite (msum_update _ _ id w w' Hw). unfold row_total, notice_total in H2'. lia.
  - lia.
  - done.
  - intros j v. rewrite lookup_insert_Some. intros [[<- <-]|[_ Hj]]; [done | eauto].
Qed.

(** What an operation may do to the tables. *)
Record op_effect (o : Options) (d d' : CDB) : Prop := {
  oe_rows : rows_step (continuations d) (continuations d');
  oe_inv : Inv o d -> Inv o d' }.

Lemma op_effect_refl o d : op_effect o d d.
Proof. split; [apply rows_step_refl | auto]. Qed.

Lemma create_effect s rnd v b expires now io d a n d' :
  create_tx s rnd v b expires now io (O, d) = Ok (Commit a, (n, d')) -> op_effect (options s) d d'.
Proof.
  intros (sealed & hash & token & Hn & _ & _ & _ & Hr & Hb & _ & Hs)%create_commit. split.
  - rewrite (ns_rows _ _ _ Hs). cbn [continuations set_rows]. by apply rows_step_insert.
  - intros HI. eapply inv_notice; [|exact Hs]. by apply inv_insert.
Qed.

Lemma rotate_effect s rnd p id expected now io d a n d' :
  rotate_tx s rnd p id expected now io (O, d) = Ok (Commit a, (n, d')) -> op_effect (options s) d d'.
Proof.
  intros (w & r & v & hash & token & expiry & Hl & Hp & _ & _ & _ & _ & _ & _ & _ & Hs)%rotate_commit. split.
  - rewrite (ns_rows _ _ _ Hs). cbn [continuations set_rows].
    eapply rows_step_update; [apply (ld_row _ _ _ _ _ Hl)|]. by constructor.
  - intros HI. eapply inv_notice; [|exact Hs]. pose proof (ld_row _ _ _ _ _ Hl) as Hw.
    pose proof (inv_rows _ _ HI _ _ Hw) as Hok. unfold row_ok in Hok. rewrite Hp in Hok.
    pose proof (inv_max_bytes _ _ HI) as Hmb.
    pose proof (inv_update (options s) d id w (mkRow (w_snapshot w) (w_digest w) (w_expires w) hash
      (w_revision w + 1) Pending (w_receipt w) (w_outcome w)) 0 HI Hw Hok) as HI'.
    unfold charged in HI'. rewrite !Z.add_0_r in HI'. apply HI'; [done|]. by rewrite ?Z.add_0_r.
Qed.

Lemma claim_effect s nonce p id hash claimID now io d a n d' :
  claim_tx s nonce p id hash claimID now io (O, d) = Ok (Commit a, (n, d')) -> op_effect (options s) d d'.
Proof.
  intros (w & r & v & expiry & receipt & b & sealed & Hl & Hp & _ & _ & _ & _ & _ & _ & _ & _ & _ & Hb & _ & ->)%claim_commit.
  pose proof (ld_row _ _ _ _ _ Hl) as Hw. split.
  - cbn [continuations set_rows]. eapply rows_step_update; [exact Hw|]. by constructor.
  - intros HI. pose proof (inv_rows _ _ HI _ _ Hw) as Hok. unfold row_ok in Hok. rewrite Hp in Hok.
    destruct Hok as [Hr Ho]. apply (inv_update _ _ _ w); try done. unfold row_bytes.
    cbn [w_snapshot w_receipt w_outcome]. rewrite Hr. cbn [opt_blen]. lia.
Qed.

Lemma complete_effect s nonce id want b out io d a n d' :
  complete_tx s nonce id want b out io (O, d) = Ok (Commit a, (n, d')) -> op_effect (options s) d d'.
Proof.
  intros (w & r & sealed & Hl & Hp & _ & _ & _ & Hb & ->)%complete_commit.
  pose proof (ld_row _ _ _ _ _ Hl) as Hw. split.
  - cbn [continuations set_rows]. eapply rows_step_update; [exact Hw|]. by constructor.
  - intros HI. pose proof (inv_rows _ _ HI _ _ Hw) as Hok. unfold row_ok in Hok. rewrite Hp in Hok.
    apply (inv_update _ _ _ w); try done. unfold row_bytes.
    cbn [w_snapshot w_receipt w_outcome]. rewrite Hok. cbn [opt_blen]. lia.
Qed.

Lemma acknowledge_effect s p id hash revision now io d a n d' :
  acknowledge_tx s p id hash revision now io (O, d) = Ok (Commit a, (n, d')) -> op_effect (options s) d d'.
Proof.
  intros Hs%acknowledge_commit. split; [|intros HI; by eapply inv_notice].
  rewrite (ns_rows _ _ _ Hs). apply rows_step_refl.
Qed.

(** A handler changes the store only through its committed transaction. *)
Record store_step (s s' : Store) : Prop := {
  ss_frame : st_ident s' = st_ident s /\ audience s' = audience s /\ options s' = options s /\
             keyRef s' = keyRef s;
  ss_effect : op_effect (options s) (db s) (db s') }.

Lemma store_step_refl s : store_step s s.
Proof. split; [done | apply op_effect_refl]. Qed.

Lemma transaction_step {A} s (io : TxIO) (body : ctx_tx (finish A)) r s' :
  (forall stmt a n d, body stmt (O, db s) = Ok (Commit a, (n, d)) -> op_effect (options s) (db s) d) ->
  transaction s io body = (r, s') -> store_step s s'.
Proof.
  intros Hb [[-> _]|[(? & ? & _ & _ & ->)|(a & n & d & Hc & -> & _)]]%transaction_cases;
    try apply store_step_refl. split; [done|]. cbn [with_db db options]. eauto.
Qed.

(** ** The store machine *)
Inductive Op :=
| OpCreate (io : TxIO) (rnd : Rand) (c : ExecutionContext) (v : Snapshot) (expires now : Time)
| OpRotate (io : TxIO) (rnd : Rand) (c : ExecutionContext) (id : string) (expected : Z) (now : Time)
| OpClaim (io : TxIO) (rnd : Rand) (c : ExecutionContext) (token claimID : string) (now : Time)
| OpComplete (io : TxIO) (rnd : Rand) (c : ExecutionContext) (receipt : Receipt) (out : Outcome)
| OpNotification (io : TxIO) (c : ExecutionContext) (id : string) (now : Time)
| OpAcknowledge (io : TxIO) (c : ExecutionContext) (token : string) (revision : Z) (now : Time)
| OpVerifyPublication (io : TxIO) (token : string) (revision : Z) (p : Principal) (now : Time)
| OpClaimReceipt (io : TxIO) (c : ExecutionContext) (id claimID : string)
| OpConsume (i : nat) (ctx_ok : bool) (io : TxIO) (c : ExecutionContext) (receipt : Receipt)
| OpClose
| OpRestart (io : Durable.OpenIO).

(** A FreshClaim with the continuation it was granted for and the snapshot the
    claim returned. *)
Record Grant := mkGrant { g_id : string; g_snapshot : Snapshot; g_claim : FreshClaim }.

(** The process: the open store, the fresh claims handed out so far (by this and
    earlier processes), the snapshots released for execution, and the identity
    of the next *Store. *)
Record Machine := mkMachine {
  m_store : Store; m_grants : list Grant; m_executed : list (string * Snapshot); m_next : nat }.

Definition set_store (m : Machine) (s : Store) : Machine :=
  mkMachine s (m_grants m) (m_executed m) (m_next m).

(** The grant in a claim's result. *)
Definition granted (r : result Error ClaimResult) : list Grant :=
  match r with
  | Ok (mkClaimResult (Some fc) (Some receipt) (Some v) _ _ _) => [mkGrant (rc_ID receipt) v fc]
  | _ => []
  end.

Definition step (o : Op) (m : Machine) : Machine :=
  let s := m_store m in
  match o with
  | OpCreate io rnd c v expires now => set_store m (Create s io rnd c v expires now).2
  | OpRotate io rnd c id expected now => set_store m (RotatePendingCapability s io rnd c id expected now).2
  | OpClaim io rnd c token claimID now =>
      let '(r, s') := Claim s io rnd c token claimID now in
      mkMachine s' (m_grants m ++ granted r) (m_executed m) (m_next m)
  | OpComplete io rnd c receipt out => set_store m (Complete s io rnd c receipt out).2
  | OpNotification io c id now => set_store m (PrivateNotification s io c id now).2
  | OpAcknowledge io c token revision now =>
      set_store m (AcknowledgePrivateNotification s io c token revision now).2
  | OpVerifyPublication io token revision p now =>
      set_store m (VerifyPrivatePublication s io token revision p now).2
  | OpClaimReceipt io c id claimID => set_store m (ClaimReceipt s io c id claimID).2
  | OpConsume i ctx_ok io c receipt =>
      match m_grants m !! i with
      | None => m
      | Some g =>
          let '(r, fc) := Consume (g_claim g) ctx_ok s io c receipt in
          mkMachine s (<[i := mkGrant (g_id g) (g_snapshot g) fc]> (m_grants m))
            (m_executed m ++ match r with Ok v => [(g_id g, v)] | Err _ => [] end) (m_next m)
      end
  | OpClose => set_store m (Close s)
  | OpRestart io =>
      let s' := match Open (m_next m) (audience s) (options s) io (Some (db s)) with
                | (Ok s', _) => s'
                | (Err _, _) => Close s
                end in
      mkMachine s' (m_grants m) (m_executed m) (S (m_next m))
  end.

Definition run (ops : list Op) (m : Machine) : Machine := fold_left (fun m o => step o m) ops m.

(** A process that has just opened [s]. *)
Definition start (s : Store) : Machine := mkMachine s [] [] (S (st_ident s)).

Lemma create_step s io rnd c v expires now : store_step s (Create s io rnd c v expires now).2.
Proof.
  destruct (Create s io rnd c v expires now) as [r s'] eqn:E. unfold Create in E.
  destruct (create_check s c v); [|injection E as _ <-; apply store_step_refl].
  eapply transaction_step; [|exact E]. intros. by eapply create_effect.
Qed.

Lemma rotate_step s io rnd c id expected now : store_step s (RotatePendingCapability s io rnd c id expected now).2.
Proof.
  destruct (RotatePendingCapability s io rnd c id expected now) as [r s'] eqn:E.
  unfold RotatePendingCapability in E.
  destruct (authenticated s c); [|injection E as _ <-; apply store_step_refl].
  destruct (_ || _) in E; [injection E as _ <-; apply store_step_refl|].
  eapply transaction_step; [|exact E]. intros. by eapply rotate_effect.
Qed.

(** The checks of Claim before its transaction. *)
Lemma claim_entry s io rnd c token claimID now r s' : Claim s io rnd c token claimID now = (r, s') ->
  (s' = s /\ exists e, r = Err e) \/
  (exists id hash, authenticated s c = Ok tt /\ parseToken token = Ok (id, hash) /\ hexID claimID = true /\
     transaction s io (claim_tx s (rd_nonce rnd) (ec_principal c) id hash claimID now) = (r, s')).
Proof.
  unfold Claim. destruct (authenticated s c) as [[]|]; cbn [rbind]; [|intros [= <- <-]; eauto].
  destruct (parseToken token) as [[id hash]|]; cbn [rbind]; [|intros [= <- <-]; eauto].
  destruct (hexID claimID); cbn [rbind guard]; [|intros [= <- <-]; eauto]. intros. right. exists id, hash. by split_and!.
Qed.

Lemma claim_step s io rnd c token claimID now : store_step s (Claim s io rnd c token claimID now).2.
Proof.
  destruct (Claim s io rnd c token claimID now) as [r s'] eqn:E.
  apply claim_entry in E as [[-> _]|(id & hash & _ & _ & _ & E)]; [apply store_step_refl|].
  eapply transaction_step; [|exact E]. intros. by eapply claim_effect.
Qed.

Lemma complete_step s io rnd c receipt out : store_step s (Complete s io rnd c receipt out).2.
Proof.
  destruct (Complete s io rnd c receipt out) as [r s'] eqn:E. unfold Complete in E.
  destruct (complete_check s c receipt out) as [[b want]|]; [|injection E as _ <-; apply store_step_refl].
  eapply transaction_step; [|exact E]. intros. by eapply complete_effect.
Qed.

Lemma acknowledge_step s io c token revision now :
  store_step s (AcknowledgePrivateNotification s io c token revision now).2.
Proof.
  destruct (AcknowledgePrivateNotification s io c token revision now) as [r s'] eqn:E.
  unfold AcknowledgePrivateNotification in E.
  destruct (parseToken token) as [[id hash]|]; [|injection E as _ <-; apply store_step_refl].
  destruct (is_ok _); [|injection E as _ <-; apply store_step_refl].
  eapply transaction_step; [|exact E]. intros. by eapply acknowledge_effect.
Qed.

(** The reading handlers leave the store as it is. *)
Lemma read_same {A} s (io : TxIO) (body : ctx_tx (finish A)) r s' :
  (forall stmt a n d, body stmt (O, db s) <> Ok (Commit a, (n, d))) ->
  transaction s io body = (r, s') -> s' = s.
Proof.
  intros Hb [[-> _]|[(? & ? & _ & _ & ->)|(a & n & d & Hc & _ & _)]]%transaction_cases; [done..|].
  by destruct (Hb _ _ _ _ Hc).
Qed.

Lemma notification_same s io c id now : (PrivateNotification s io c id now).2 = s.
Proof.
  destruct (PrivateNotification s io c id now) as [r s'] eqn:E. unfold PrivateNotification in E.
  destruct (_ && _) in E; [|by injection E as _ <-].
  eapply read_same; [|exact E]. intros. apply (reads_never_commit s stmt (db s) n d).
Qed.

Lemma publication_same s io token revision p now : (VerifyPrivatePublication s io token revision p now).2 = s.
Proof.
  destruct (VerifyPrivatePublication s io token revision p now) as [r s'] eqn:E.
  unfold VerifyPrivatePublication in E. destruct (parseToken token) as [[id hash]|]; [|by injection E as _ <-].
  eapply read_same; [|exact E]. intros. apply (reads_never_commit s stmt (db s) n d).
Qed.

Lemma claim_receipt_same s io c id claimID : (ClaimReceipt s io c id claimID).2 = s.
Proof.
  destruct (ClaimReceipt s io c id claimID) as [r s'] eqn:E. unfold ClaimReceipt in E.
  destruct (_ && _) in E; [|by injection E as _ <-].
  eapply read_same; [|exact E]. intros. apply (reads_never_commit s stmt (db s) n d).
Qed.

(** Opening an existing database never changes it, and yields a store over it
    that passed verification. *)
Lemma open_existing ident aud o io nonce d r disk :
  open ident aud o false io nonce (Some d) = (r, disk) ->
  disk = Some d /\ forall s, r = Ok s -> s = mkStore ident aud o Durable.Reference false d /\
    validate o = Ok tt /\ run_read (Durable.verify_io io) d (verify s) = Ok tt.
Proof.
  unfold open. destruct (open_config aud o) as [u|] eqn:Ec; [|by intros [= <- <-]].
  cbn [negb orb]. destruct (_ && _); [|by intros [= <- <-]].
  destruct (_ && _); [|by intros [= <- <-]]. intros [= <- <-]. split; [done|].
  intros s Hs. cbn [rbind] in Hs. unfold open_checks in Hs. cbn [with_db db] in Hs.
  apply rbind_Ok in Hs as (raw & _ & Hs). apply rbind_Ok in Hs as (u1 & _ & Hs).
  apply rbind_Ok in Hs as (u2 & _ & Hs). apply rbind_Ok in Hs as (u3 & Hv & Hs).
  injection Hs as <-. split; [done|]. destruct u3. split; [|done].
  unfold open_config in Ec. apply rbind_Ok in Ec as (? & _ & Ec). apply rbind_Ok in Ec as ([] & Ev & _). done.
Qed.

(** Every step keeps the configuration and acts on the tables as one operation. *)
Record machine_step (m m' : Machine) : Prop := {
  ms_options : options (m_store m') = options (m_store m);
  ms_audience : audience (m_store m') = audience (m_store m);
  ms_effect : op_effect (options (m_store m)) (db (m_store m)) (db (m_store m')) }.

Lemma store_machine_step m m' : store_step (m_store m) (m_store m') -> machine_step m m'.
Proof. intros [(_ & ? & ? & _) ?]. by split. Qed.

Lemma step_step o m : machine_step m (step o m).
Proof.
  destruct o; cbn [step]; lazymatch goal with |- context [Open] => idtac | _ => apply store_machine_step; cbn [m_store set_store] end;
    rewrite ?notification_same, ?publication_same, ?claim_receipt_same; try apply store_step_refl.
  - apply create_step.
  - apply rotate_step.
  - pose proof (claim_step (m_store m) io rnd c token claimID now) as Hs.
    destruct (Claim (m_store m) io rnd c token claimID now) as [r s']. done.
  - apply complete_step.
  - apply acknowledge_step.
  - destruct (m_grants m !! i) as [g|]; [|apply store_step_refl].
    destruct (Consume _ _ _ _ _ _) as [r fc]. apply store_step_refl.
  - split; [done|apply op_effect_refl].
  - destruct (Open (m_next m) _ _ io (Some (db (m_store m)))) as [[s'|e] disk] eqn:E.
    + apply open_existing in E as [_ Hs]. destruct (Hs s' eq_refl) as (-> & _ & _).
      split; cbn; try done. apply op_effect_refl.
    + split; cbn; try done. apply op_effect_refl.
Qed.

Lemma run_ind (P : Machine -> Prop) ops m :
  P m -> (forall o m, P m -> P (step o m)) -> P (run ops m).
Proof. intros HP Hs. revert m HP. induction ops as [|o ops IH]; intros m HP; [done|]. apply IH, Hs, HP. Qed.

Lemma run_options ops m : options (m_store (run ops m)) = options (m_store m) /\
  audience (m_store (run ops m)) = audience (m_store m).
Proof.
  apply (run_ind (fun m' => options (m_store m') = options (m_store m) /\ audience (m_store m') = audience (m_store m)));
    [done|]. intros o m' [Ho Ha]. destruct (step_step o m') as [-> -> _]. done.
Qed.

Lemma run_inv_exact ops m : Inv (options (m_store m)) (db (m_store m)) ->
  Inv (options (m_store m)) (db (m_store (run ops m))).
Proof.
  intros HI. apply (run_ind (fun m' => options (m_store m') = options (m_store m) /\ Inv (options (m_store m)) (db (m_store m'))));
    [done|]. intros o m' [Ho HI']. destruct (step_step o m') as [-> _ He]. split; [done|].
  rewrite Ho in He. by apply (oe_inv _ _ _ He).
Qed.

Lemma run_rows_later ops m id w : continuations (db (m_store m)) !! id = Some w ->
  exists w', continuations (db (m_store (run ops m))) !! id = Some w' /\ row_later w w'.
Proof.
  intros Hw. apply (run_ind (fun m' => exists w', continuations (db (m_store m')) !! id = Some w' /\ row_later w w')).
  - exists w. split; [done|apply row_later_refl].
  - intros o m' (w' & Hw' & Hl). destruct (step_step o m') as [_ _ He].
    destruct (rows_step_later _ _ _ _ (oe_rows _ _ _ He) Hw') as (w2 & Hw2 & Hl2).
    exists w2. split; [done|]. by eapply row_later_trans.
Qed.
End ops.
End ContinuationInv.
