(* ===== verification/ContinuationProps.v ===== *)
(** * Guarantees of the continuation store

    [ContinuationProps]: at most one execution per continuation, rows that only
    advance, exact accounting, capabilities (canonical tokens, rotation, private
    delivery), idempotent creation and the claim a fresh capability is good
    for. [ContinuationWitness] runs a store end to end. *)
From Stdlib Require Import Ascii Strings.Byte ZArith Lia.
From S2P Require Import Prelude GoStrings FabricRef Framing Wire FabricModel SqlTx Durable DurableProps Ledger.
From S2P Require Import Encodings Continuation ContinuationInv.
#[local] Open Scope Z_scope.
#[local] Arguments str_eqb _ _ : simpl never.
#[local] Arguments Z.ltb _ _ : simpl never.

Module ContinuationProps.
Import Wire.Wire Model Continuation ContinuationInv.

(** One step of a transaction that is known to succeed. *)
Ltac go_step := apply tx_bind_Ok; eexists _, _; split.
Ltac go_guard := apply tx_bind_Ok; eexists tt, _; split.

Section props.
Context `{Sha256, JsonDecoder, EnvelopeJson, Durable.DataProtector, ContinuationJson}.
Implicit Types (s : Store) (d : CDB) (m : Machine).

(** ** Grants *)
Lemma snapshot_options s s' b : options s' = options s -> snapshot s' b = snapshot s b.
Proof.
  intros Ho. unfold snapshot, decodePrivate, private_limits, validateSnapshot, decodePrivateAny, private_limits.
  by rewrite Ho.
Qed.

Record GInv (m : Machine) : Prop := {
  gi_nodup : NoDup (g_id <$> m_grants m);
  gi_rows : forall g, g ∈ m_grants m ->
    exists w, continuations (db (m_store m)) !! g_id g = Some w /\ w_state w <> Pending;
  gi_snapshot : forall g, g ∈ m_grants m ->
    snapshot (m_store m) (fc_snapshot (g_claim g)) = Ok (g_snapshot g);
  gi_once : NoDup (m_executed m).*1;
  gi_executed : forall id v, (id, v) ∈ m_executed m ->
    exists g, g ∈ m_grants m /\ g_id g = id /\ g_snapshot g = v /\ fc_used (g_claim g) = true }.

Lemma not_pending_later w w' : row_later w w' -> w_state w <> Pending -> w_state w' <> Pending.
Proof.
  intros Hl Hp E. pose proof (later_rank _ _ Hl) as Hr. rewrite E in Hr.
  destruct (w_state w); simpl in Hr; [done|lia..].
Qed.

(** A step that grants and executes nothing. *)
Lemma ginv_frame m m' : machine_step m m' -> m_grants m' = m_grants m -> m_executed m' = m_executed m ->
  GInv m -> GInv m'.
Proof.
  intros [Ho _ He] Hg Hx [G1 G2 G3 G4 G5]. split; rewrite ?Hg, ?Hx; auto.
  - intros g Hin. destruct (G2 g Hin) as (w & Hw & Hp).
    destruct (rows_step_later _ _ _ _ (oe_rows _ _ _ He) Hw) as (w' & Hw' & Hl).
    eauto using not_pending_later.
  - intros g Hin. rewrite (snapshot_options (m_store m)) by done. auto.
Qed.

(** What a claim may add. *)
Lemma claim_grants s io rnd c token claimID now r s' g :
  Claim s io rnd c token claimID now = (r, s') -> g ∈ granted r ->
  granted r = [g] /\ (exists w, continuations (db s) !! g_id g = Some w /\ w_state w = Pending) /\
  (exists w, continuations (db s') !! g_id g = Some w /\ w_state w = Claimed) /\
  snapshot s (fc_snapshot (g_claim g)) = Ok (g_snapshot g) /\ fc_used (g_claim g) = false.
Proof.
  intros [[-> [e ->]]|(id & hash & _ & _ & _ & E)]%claim_entry Hin; [by apply elem_of_nil in Hin|].
  apply transaction_cases in E as [[-> [e ->]]|[(a & st & Hb & -> & ->)|(a & n & d & Hb & -> & [->| ->])]].
  - by apply elem_of_nil in Hin.
  - apply claim_rollback in Hb as (w & x & v & _ & _ & _ & _ & _ & Hc). unfold claimed_before in Hc.
    apply rbind_Ok in Hc as (rc & _ & Hc). apply rbind_Ok in Hc as (u & _ & Hc).
    apply rbind_Ok in Hc as (out & _ & Hc). injection Hc as <-. by apply elem_of_nil in Hin.
  - apply claim_commit in Hb
      as (w & x & v & expiry & receipt & b & sealed & Hl & Hp & Hv & _ & _ & _ & _ & -> & _ & _ & _ & _ & -> & ->).
    cbn [granted rc_ID] in *. apply list_elem_of_singleton in Hin as ->. cbn [g_id g_claim g_snapshot fc_snapshot fc_used].
    split; [done|]. split; [exists w; split; [apply (ld_row _ _ _ _ _ Hl)|done]|]. split; [|done].
    cbn [with_db db set_rows continuations]. rewrite lookup_insert_eq. eauto.
  - by apply elem_of_nil in Hin.
Qed.

Lemma consume_spec p ctx_ok s io c receipt r p' : Consume p ctx_ok s io c receipt = (r, p') ->
  (p' = p /\ exists e, r = Err e) \/
  (exists v, r = Ok v /\ fc_used p = false /\ p' = mkFresh (fc_store p) (fc_receipt p) (fc_snapshot p) true /\
     snapshot s (fc_snapshot p) = Ok v).
Proof.
  unfold Consume. destruct ctx_ok; cbn [negb]; [|intros [= <- <-]; eauto].
  destruct (_ || _) eqn:Eg; [intros [= <- <-]; eauto|].
  repeat apply orb_false_iff in Eg as [Eg _]. rename Eg into Eu.
  destruct (marshal_receipt receipt); [|intros [= <- <-]; eauto].
  destruct (bool_decide _); [|intros [= <- <-]; eauto].
  destruct (transaction s io (consume_tx s p receipt)) as [[v|e] s'] eqn:E; intros [= <- <-]; [|eauto].
  right. exists v. split_and!; try done.
  apply transaction_cases in E as [[_ [? ?]]|[(a & st & Hb & [= ->] & _)|(a & n & d & Hb & _)]]; [done| |].
  - unfold consume_tx in Hb. apply tx_bind_Ok in Hb as (x & s1 & _ & Hb).
    apply tx_bind_Ok in Hb as (u & s2 & _ & Hb). apply tx_bind_Ok in Hb as (v & s3 & Hv & Hb).
    apply tx_lift_Ok in Hv as [Hv _]. apply tx_ret_Ok in Hb as [Hb _]. by injection Hb as ->.
  - by apply reads_never_commit in Hb.
Qed.

Lemma ginv_claim m io rnd c token claimID now : GInv m -> GInv (step (OpClaim io rnd c token claimID now) m).
Proof.
  intros HG. pose proof (step_step (OpClaim io rnd c token claimID now) m) as Hs. cbn [step] in *.
  destruct (Claim (m_store m) io rnd c token claimID now) as [r s'] eqn:E.
  destruct (granted r) as [|g gs] eqn:Eg.
  { apply (ginv_frame m); try done. cbn [m_grants]. apply app_nil_r. }
  destruct (claim_grants _ _ _ _ _ _ _ _ _ g E ltac:(rewrite Eg; left)) as (Hg & (w & Hw & Hp) & (w' & Hw' & Hc) & Hsn & Hu).
  rewrite Eg in Hg. injection Hg as ->. destruct HG as [G1 G2 G3 G4 G5]. destruct Hs as [Ho _ He].
  cbn [m_store] in *. split; cbn [m_grants m_store m_executed].
  - rewrite fmap_app. apply NoDup_app. split; [done|]. split; [|apply NoDup_singleton].
    intros x Hx Hx'. apply list_elem_of_singleton in Hx' as ->. apply list_elem_of_fmap in Hx as (g' & Hid & Hin).
    destruct (G2 g' Hin) as (w2 & Hw2 & Hp2). rewrite <- Hid, Hw in Hw2. by injection Hw2 as <-.
  - intros g' [Hin| ->%list_elem_of_singleton]%elem_of_app.
    + destruct (G2 g' Hin) as (w2 & Hw2 & Hp2).
      destruct (rows_step_later _ _ _ _ (oe_rows _ _ _ He) Hw2) as (w3 & Hw3 & Hl). eauto using not_pending_later.
    + exists w'. split; [done|]. by rewrite Hc.
  - intros g' Hin. rewrite (snapshot_options (m_store m)) by done.
    apply elem_of_app in Hin as [Hin| ->%list_elem_of_singleton]; auto.
  - done.
  - intros id v Hin. destruct (G5 id v Hin) as (g' & Hg' & ?). exists g'. rewrite elem_of_app. auto.
Qed.

Lemma grants_unique m i j g g' : GInv m -> m_grants m !! i = Some g -> m_grants m !! j = Some g' ->
  g_id g = g_id g' -> i = j.
Proof.
  intros HG Hi Hj He. eapply (NoDup_lookup _ i j (g_id g)); [apply (gi_nodup _ HG)|..].
  - by rewrite list_lookup_fmap, Hi.
  - by rewrite list_lookup_fmap, Hj, He.
Qed.

Lemma ginv_consume m i ctx_ok io c receipt : GInv m -> GInv (step (OpConsume i ctx_ok io c receipt) m).
Proof.
  intros HG. cbn [step]. destruct (m_grants m !! i) as [g|] eqn:Ei; [|done].
  destruct (Consume (g_claim g) ctx_ok (m_store m) io c receipt) as [r fc] eqn:E.
  apply consume_spec in E as [[-> [e ->]]|(v & -> & Hu & -> & Hv)].
  { rewrite app_nil_r. rewrite list_insert_id by (by destruct g). by destruct m. }
  assert (Hid : g_id <$> <[i := mkGrant (g_id g) (g_snapshot g)
      (mkFresh (fc_store (g_claim g)) (fc_receipt (g_claim g)) (fc_snapshot (g_claim g)) true)]> (m_grants m) =
    g_id <$> m_grants m).
  { rewrite list_fmap_insert. cbn [g_id]. apply list_insert_id. by rewrite list_lookup_fmap, Ei. }
  pose proof (gi_snapshot _ HG g (list_elem_of_lookup_2 _ _ _ Ei)) as Hsn. rewrite Hsn in Hv. injection Hv as <-.
  assert (Hlt : (i < length (m_grants m))%nat) by by eapply lookup_lt_Some.
  assert (Hsub : forall g', g' ∈ m_grants m -> g' = g \/ g' ∈ <[i := mkGrant (g_id g) (g_snapshot g)
      (mkFresh (fc_store (g_claim g)) (fc_receipt (g_claim g)) (fc_snapshot (g_claim g)) true)]> (m_grants m)).
  { intros g' (j & Hj)%list_elem_of_lookup. destruct (decide (i = j)) as [<-|Hne]; [left; congruence|].
    right. apply list_elem_of_lookup. exists j. by rewrite list_lookup_insert_ne. }
  assert (Hold : forall g', g' ∈ <[i := mkGrant (g_id g) (g_snapshot g)
      (mkFresh (fc_store (g_claim g)) (fc_receipt (g_claim g)) (fc_snapshot (g_claim g)) true)]> (m_grants m) ->
      exists g0, g0 ∈ m_grants m /\ g_id g0 = g_id g' /\ g_snapshot g0 = g_snapshot g' /\
        fc_snapshot (g_claim g0) = fc_snapshot (g_claim g')).
  { intros g' (j & Hj)%list_elem_of_lookup. apply list_lookup_insert_Some in Hj as [(-> & <- & _)|(_ & Hj)].
    - exists g. split; [by eapply list_elem_of_lookup_2|done].
    - exists g'. split; [by eapply list_elem_of_lookup_2|done]. }
  split; cbn [m_grants m_store m_executed].
  - rewrite Hid. apply (gi_nodup _ HG).
  - intros g' Hin. destruct (Hold g' Hin) as (g0 & Hin0 & <- & _). by apply (gi_rows _ HG).
  - intros g' Hin. destruct (Hold g' Hin) as (g0 & Hin0 & _ & <- & <-). by apply (gi_snapshot _ HG).
  - rewrite fmap_app. apply NoDup_app. split; [apply (gi_once _ HG)|]. split; [|apply NoDup_singleton].
    intros x Hx Hx'. apply list_elem_of_singleton in Hx'. cbn in Hx'. subst x.
    apply list_elem_of_fmap in Hx as ([id v] & Hid' & Hin). cbn in Hid'. subst id.
    destruct (gi_executed _ HG _ _ Hin) as (g' & Hg' & He & _ & Hused).
    apply list_elem_of_lookup in Hg' as (j & Hj). pose proof (grants_unique m i j g g' HG Ei Hj ltac:(done)) as <-.
    congruence.
  - intros id v [Hin|Hin]%elem_of_app.
    + destruct (gi_executed _ HG _ _ Hin) as (g' & Hg' & He & Hs & Hused).
      destruct (Hsub g' Hg') as [->|Hin']; [congruence|]. eauto 6.
    + apply list_elem_of_singleton in Hin as [= -> ->]. eexists. split.
      * apply list_elem_of_lookup. exists i. by rewrite list_lookup_insert_eq.
      * by split_and!.
Qed.

Lemma ginv_step o m : GInv m -> GInv (step o m).
Proof.
  intros HG. pose proof (step_step o m) as Hs.
  destruct o; try (apply (ginv_frame m); done); [by apply ginv_claim | by apply ginv_consume].
Qed.

Lemma ginv_start s : GInv (start s).
Proof. split; cbn; try apply NoDup_nil_2; intros *; by intros ?%elem_of_nil. Qed.

Lemma ginv_run ops s : GInv (run ops (start s)).
Proof. apply (run_ind GInv); [apply ginv_start | intros; by apply ginv_step]. Qed.

(** C32. Single use. Whatever sequence of operations runs against a continuation
    store (claims with any tokens and claim identities, retries, failing
    statements, commits whose report was lost, consumptions, closes and
    restarts), each continuation is handed out for execution at most once: at
    most one FreshClaim is ever granted for it, every released snapshot is the
    one its claim returned, and its row is durably no longer pending. *)
Theorem continuation_executes_at_most_once (s : Store) (ops : list Op) :
  let m := run ops (start s) in
  NoDup (g_id <$> m_grants m) /\ NoDup (m_executed m).*1 /\
  forall id v, (id, v) ∈ m_executed m ->
    (exists g, g ∈ m_grants m /\ g_id g = id /\ g_snapshot g = v) /\
    exists w, continuations (db (m_store m)) !! id = Some w /\ w_state w <> Pending.
Proof.
  intros m. destruct (ginv_run ops s) as [G1 G2 G3 G4 G5]. split; [done|]. split; [done|].
  intros id v Hin. destruct (G5 id v Hin) as (g & Hg & <- & <- & _). split; [eauto|]. by apply G2.
Qed.

(** C33. Rows only advance. Whatever operations follow, a continuation is never
    deleted, its snapshot, digest and expiry never change, its state never goes
    back; once claimed, its capability, revision and receipt are frozen, and once
    complete the whole row is. *)
Theorem continuations_only_advance (m : Machine) (ops : list Op) (id : string) (w : Row) :
  continuations (db (m_store m)) !! id = Some w ->
  exists w', continuations (db (m_store (run ops m))) !! id = Some w' /\
    w_snapshot w' = w_snapshot w /\ w_digest w' = w_digest w /\ w_expires w' = w_expires w /\
    rank (w_state w) <= rank (w_state w') /\ w_revision w <= w_revision w' /\
    (w_state w <> Pending ->
       w_hash w' = w_hash w /\ w_revision w' = w_revision w /\ w_receipt w' = w_receipt w) /\
    (w_state w = Complete_ -> w' = w).
Proof.
  intros Hw. destruct (run_rows_later ops m id w Hw) as (w' & Hw' & [(F1 & F2 & F3) L2 L3 L4 L5]).
  exists w'. by split_and!.
Qed.

(** ** Accounting *)
Definition zsum {A} (f : A -> Z) (l : list A) : Z := foldr (fun a acc => f a + acc) 0 l.

Lemma zsum_perm {A} (f : A -> Z) (l l' : list A) : l ≡ₚ l' -> zsum f l = zsum f l'.
Proof. induction 1; simpl; lia. Qed.

Lemma zsum_sorted {K V} `{Countable K} (R : relation (K * V)) `{!RelDecision R} (f : K -> V -> Z) (m : gmap K V) :
  zsum (fun kv => f kv.1 kv.2) (merge_sort R (map_to_list m)) = msum f m.
Proof. rewrite (zsum_perm _ _ _ (merge_sort_Permutation R _)). by rewrite msum_list. Qed.

Lemma length_sorted {K V} `{Countable K} (R : relation (K * V)) `{!RelDecision R} (m : gmap K V) :
  length (merge_sort R (map_to_list m)) = size m.
Proof. rewrite (merge_sort_Permutation R (map_to_list m)). by rewrite length_map_to_list. Qed.

Lemma verify_rows_Ok s rows count total notices c t n :
  verify_rows s count total notices rows = Ok (c, t, n) ->
  c = count + Z.of_nat (length rows) /\ t = total + zsum (fun kv => row_bytes kv.2) rows /\
  (count <= MaxRecords (options s) -> c <= MaxRecords (options s)) /\
  (total <= o_MaxBytes (options s) -> t <= o_MaxBytes (options s)).
Proof.
  revert count total notices. induction rows as [|[id w] rows IH]; intros count total notices Hv; cbn [verify_rows] in Hv.
  - injection Hv as <- <- <-. simpl. split_and!; try done; lia.
  - apply rbind_Ok in Hv as (u & Hg & Hv). apply guard_Ok in Hg.
    apply rbind_Ok in Hv as (k & _ & Hv). apply IH in Hv as (-> & -> & H1' & H2').
    rewrite negb_true_iff, orb_false_iff, !Z.ltb_ge in Hg. cbn [length zsum foldr snd].
    unfold zsum in *. split_and!; lia.
Qed.

Lemma verify_notices_Ok s parents rows count total c t :
  verify_notices s parents count total rows = Ok (c, t) ->
  t = total + zsum (fun kv => blen (n_payload kv.2)) rows /\
  (total <= o_MaxBytes (options s) -> t <= o_MaxBytes (options s)).
Proof.
  revert count total. induction rows as [|[k n] rows IH]; intros count total Hv; cbn [verify_notices] in Hv.
  - injection Hv as <- <-. simpl. split; [lia|done].
  - apply rbind_Ok in Hv as (p & _ & Hv). apply rbind_Ok in Hv as (u & Hg & Hv). apply guard_Ok in Hg.
    apply rbind_Ok in Hv as (u1 & Hn & Hv). apply IH in Hv as (-> & H2').
    rewrite negb_true_iff, orb_false_iff, !Z.ltb_ge in Hg.
    assert (bounded_payload n = n_payload n) as Hbp.
    { unfold verify_notice in Hn. apply rbind_Ok in Hn as (w & _ & Hn). apply rbind_Ok in Hn as (u2 & _ & Hn).
      apply rbind_Ok in Hn as (v & Hd & _). unfold or_err in Hd. destruct (decodeNotification _ _ _ _ _) eqn:Ed; [|done].
      unfold decodeNotification in Ed. apply rbind_Ok in Ed as (raw & Ho & _). unfold openBlob in Ho.
      apply rbind_Ok in Ho as (u3 & Hg' & _). apply guard_Ok in Hg'. unfold bounded_payload, bounded in *.
      destruct (blen (n_payload n) <=? _); [done|]. discriminate Hg'. }
    clear IH. rewrite Hbp in *. cbn [zsum foldr snd]. unfold zsum in *. split; lia.
Qed.

(** What a database that verifies is known to satisfy. *)
Lemma verify_exact s (io : TxIO) d : validate (options s) = Ok tt -> run_read io d (verify s) = Ok tt ->
  b_records d = Z.of_nat (size (continuations d)) /\ b_bytes d = row_total d + notice_total d /\
  b_records d <= MaxRecords (options s) /\ b_bytes d <= o_MaxBytes (options s).
Proof.
  intros Ho Hrun. unfold validate in Ho. apply guard_Ok in Ho. rewrite negb_true_iff, !orb_false_iff in Ho.
  destruct Ho as [[[[[[[[[[[[_ _] Hr] _] Hb] _] _] _] _] _] _] _] _]. apply Z.leb_gt in Hr, Hb.
  unfold run_read in Hrun. destruct (verify s _ _) as [[u st]|] eqn:Ev; [|done]. clear Hrun. unfold verify in Ev.
  apply tx_bind_Ok in Ev as (bad & s1 & Hq & Ev). apply tx_query_Ok in Hq as (_ & _ & ->).
  apply tx_bind_Ok in Ev as (u1 & s2 & Hg & Ev). apply tx_guard_Ok in Hg as [_ ->].
  apply tx_bind_Ok in Ev as (rows & s3 & Hq & Ev). apply tx_query_Ok in Hq as (_ & -> & ->).
  apply tx_bind_Ok in Ev as ([[count total] expected] & s4 & Hl & Ev). apply tx_lift_Ok in Hl as [Hl ->].
  apply tx_bind_Ok in Ev as ([parents notices] & s5 & Hq & Ev). apply tx_query_Ok in Hq as (_ & Hpn & ->).
  injection Hpn as -> ->.
  apply tx_bind_Ok in Ev as ([found total'] & s6 & Hl' & Ev). apply tx_lift_Ok in Hl' as [Hl' ->].
  apply tx_bind_Ok in Ev as (u2 & s7 & Hg & Ev). apply tx_guard_Ok in Hg as [_ ->].
  apply tx_bind_Ok in Ev as ([records bytes] & s8 & Hq & Ev). apply tx_query_Ok in Hq as (_ & Hrb & ->).
  injection Hrb as -> ->. apply tx_guard_Ok in Ev as [Ev _]. cbn [fst snd] in *.
  apply andb_true_iff in Ev as [E1%Z.eqb_eq E2%Z.eqb_eq].
  apply verify_rows_Ok in Hl as (Hc & Ht & Hmr & Hmb). apply verify_notices_Ok in Hl' as (Ht' & Hmb').
  rewrite length_sorted in Hc. rewrite (zsum_sorted row_le (fun _ w => row_bytes w)) in Ht.
  rewrite (zsum_sorted notice_le (fun _ n => blen (n_payload n))) in Ht'.
  unfold row_total, notice_total. split_and!; lia.
Qed.

(** A bootstrapped store is empty. *)
Lemma bootstrap_db ident aud o io nonce disk s disk' :
  Bootstrap ident aud o io nonce disk = (Ok s, disk') ->
  options s = o /\ validate o = Ok tt /\ disk = None /\ exists b, db s = mkCDB (Some b) 0 0 ∅ ∅ /\ disk' = Some (db s).
Proof.
  unfold Bootstrap, open. destruct (open_config aud o) as [u|] eqn:Ec; [|done].
  destruct (_ && _) eqn:E1; [|done]. destruct (_ && _) in |- *; [|done]. cbn [negb orb] in E1.
  destruct (boot _ io nonce) as [booted d] eqn:Eb. intros [= Hs <-].
  apply rbind_Ok in Hs as (u1 & -> & Hs). unfold open_checks in Hs.
  apply rbind_Ok in Hs as (raw & _ & Hs). apply rbind_Ok in Hs as (u2 & _ & Hs).
  apply rbind_Ok in Hs as (u3 & _ & Hs). apply rbind_Ok in Hs as (u4 & _ & Hs). injection Hs as <-.
  split; [done|]. split.
  { unfold open_config in Ec. apply rbind_Ok in Ec as (? & _ & Ec). by apply rbind_Ok in Ec as ([] & Ev & _). }
  split. { rewrite !andb_true_iff in E1. destruct E1 as [_ [_ Hd%bool_decide_eq_true_1]]. done. }
  unfold boot in Eb. destruct (run_tx _ _ _ _) as [[[]|] d1] eqn:Er; [|done]. injection Eb as _ ->.
  apply run_tx_Ok in Er as [(st & Hb & _)|(n & Hb)]; unfold boot_tx in Hb.
  - exfalso. tinv.
  - apply tx_bind_Ok in Hb as (v1 & s1 & He & Hb). apply tx_exec_Ok in He as (_ & d2 & He & ->).
    cbn in He. injection He as <-.
    apply tx_bind_Ok in Hb as (b & s2 & Hl & Hb). apply tx_lift_Ok in Hl as [_ ->].
    apply tx_bind_Ok in Hb as (v3 & s3 & He & Hb). apply tx_exec_Ok in He as (_ & d3 & He & ->).
    injection He as <-. apply tx_ret_Ok in Hb as [_ [= -> ->]]. exists b. done.
Qed.

Lemma inv_empty o b : validate o = Ok tt -> Inv o (mkCDB (Some b) 0 0 ∅ ∅).
Proof.
  intros Ho. unfold validate in Ho. apply guard_Ok in Ho. rewrite negb_true_iff, !orb_false_iff in Ho.
  destruct Ho as [[[[[[[[[[[[_ _] Hr] _] Hb] _] _] _] _] _] _] _] _]. apply Z.leb_gt in Hr, Hb.
  split; cbn [b_records b_bytes continuations]; try lia.
  - by rewrite map_size_empty.
  - unfold row_total, notice_total. cbn [continuations notifications]. by rewrite !msum_empty.
  - by intros id w ?%lookup_empty_Some.
Qed.

(** Exact, bounded accounting. In a store that was bootstrapped, after any
    history the budget row counts exactly the continuations and the stored bytes
    of their blobs and notifications, both within the configured limits; and a
    database from anywhere opens only if its budget row is exact and within the
    limits. *)
Theorem continuation_budget_is_exact (ident : nat) (aud : string) (o : Options) (io : Durable.OpenIO)
    (nonce : list byte) (disk disk' : option CDB) (s : Store) (ops : list Op) (found : CDB) (s' : Store) :
  (Bootstrap ident aud o io nonce disk = (Ok s, disk') ->
   let d := db (m_store (run ops (start s))) in
   b_records d = Z.of_nat (size (continuations d)) /\ b_bytes d = row_total d + notice_total d /\
   b_records d <= MaxRecords o /\ b_bytes d <= o_MaxBytes o) /\
  (Open ident aud o io (Some found) = (Ok s', disk') ->
   db s' = found /\
   b_records found = Z.of_nat (size (continuations found)) /\
   b_bytes found = row_total found + notice_total found /\
   b_records found <= MaxRecords o /\ b_bytes found <= o_MaxBytes o).
Proof.
  split.
  - intros (Ho & Hv & _ & b & Hd & _)%bootstrap_db.
    assert (Inv o (db (m_store (run ops (start s))))) as [].
    { rewrite <- Ho. apply (run_inv_exact ops (start s)). cbn [start m_store]. rewrite Hd, Ho. by apply inv_empty. }
    by split_and!.
  - intros [_ Hs]%open_existing. destruct (Hs s' eq_refl) as (-> & Hv & Hr). split; [done|].
    by apply verify_exact in Hr.
Qed.

(** ** Capabilities *)
Lemma hexID_length id : hexID id = true -> String.length id = 64%nat.
Proof. unfold hexID, len. rewrite andb_true_iff, Z.eqb_eq. lia. Qed.

Lemma mint_Ok id rand token hash : mint id rand = Ok (token, hash) ->
  exists b, rand = Some b /\ length b = 32%nat /\ token = (id ++ "." ++ base64url b)%string /\ hash = sha256 b.
Proof.
  unfold mint. destruct rand as [b|]; [|done]. destruct (blen b =? 32) eqn:E; [|done].
  intros [= <- <-]. exists b. apply Z.eqb_eq in E. unfold blen in E. split_and!; try done. lia.
Qed.

Lemma parse_minted id rand token hash : hexID id = true -> mint id rand = Ok (token, hash) ->
  parseToken token = Ok (id, hash).
Proof.
  intros Hid (b & _ & Hb & -> & ->)%mint_Ok. pose proof (hexID_length id Hid) as Hl. unfold parseToken.
  assert (str_take 64 (id ++ "." ++ base64url b) = id) as ->.
  { rewrite <- Hl at 1. apply str_take_append. }
  assert (str_drop 64 (id ++ "." ++ base64url b) = ("." ++ base64url b)%string) as Hd.
  { rewrite <- Hl at 1. apply str_drop_append. }
  assert (str_drop 65 (id ++ "." ++ base64url b) = base64url b) as Hd1.
  { replace 65%nat with (64 + 1)%nat by lia. rewrite <- Ref.str_drop_drop, Hd. by destruct (base64url b). }
  rewrite Hd, Hd1, Hid. replace (len _ =? 108) with true.
  2: { symmetry. apply Z.eqb_eq. rewrite !len_append, Base64.length_base64url_32 by done. unfold len at 1. rewrite Hl. done. }
  rewrite has_prefix_append. cbn [andb guard rbind]. rewrite Base64.decode_base64url. cbn [of_option rbind].
  rewrite str_eqb_refl. unfold blen. rewrite Hb. done.
Qed.

Lemma parse_only_minted token id hash : parseToken token = Ok (id, hash) ->
  hexID id = true /\ exists b, mint id (Some b) = Ok (token, hash).
Proof.
  unfold parseToken. intros Hp. apply rbind_Ok in Hp as (u & Hg & Hp). apply guard_Ok in Hg.
  rewrite !andb_true_iff in Hg. destruct Hg as [[_ Hdot] Hid].
  apply rbind_Ok in Hp as (b & Hb & Hp). apply rbind_Ok in Hp as (u1 & Hg & Hp). apply guard_Ok in Hg.
  apply andb_true_iff in Hg as [Hlen He%str_eqb_eq]. injection Hp as <- <-. split; [done|]. exists b.
  unfold mint. rewrite Hlen. do 2 f_equal. rewrite He.
  apply has_prefix_spec in Hdot as [rest Hrest].
  assert (str_drop 65 token = rest) as ->.
  { replace 65%nat with (64 + 1)%nat by lia. rewrite <- Ref.str_drop_drop, Hrest. by destruct rest. }
  rewrite <- Hrest. apply Ref.str_take_drop.
Qed.

(** Capability tokens are canonical: the token minted for a continuation
    parses to that continuation and the stored hash of its secret, and every
    text that parses is the one token mint writes for its secret. *)
Theorem capability_tokens_round_trip (id token : string) (rand : option (list byte)) (hash : list byte) :
  (hexID id = true -> mint id rand = Ok (token, hash) -> parseToken token = Ok (id, hash)) /\
  (parseToken token = Ok (id, hash) -> hexID id = true /\ exists b, mint id (Some b) = Ok (token, hash)).
Proof. split; [apply parse_minted | apply parse_only_minted]. Qed.

Lemma allowed_In v p : allowed v p = true <-> p ∈ AllowedResumePrincipals v.
Proof.
  unfold allowed. rewrite existsb_exists. setoid_rewrite bool_decide_eq_true. rewrite list_elem_of_In.
  split; [by intros (x & ? & ->) | eauto].
Qed.

Lemma authenticated_Ok s c u : authenticated s c = Ok u -> ec_verified c = true /\ ec_audience c = audience s.
Proof. unfold authenticated, VerifyAuthenticated. rewrite guard_Ok, andb_true_iff, str_eqb_eq. done. Qed.

(** A successful claim was made by an authenticated, allowed principal holding
    the row's current secret; a fresh one found it pending and unexpired. *)
Record claim_justified (s : Store) (c : ExecutionContext) (token claimID : string) (now : Time)
    (res : ClaimResult) (s' : Store) (id : string) (w : Row) (v : Snapshot) : Prop := {
  cj_context : ec_verified c = true /\ ec_audience c = audience s;
  cj_row : continuations (db s) !! id = Some w;
  cj_capability : parseToken token = Ok (id, w_hash w);
  cj_allowed : ec_principal c ∈ AllowedResumePrincipals v;
  cj_snapshot : cr_Snapshot res = Some v /\
    exists r, openRow s id (scan_row s w) = Ok r /\ snapshot s (r_snapshot r) = Ok v;
  cj_fresh : cr_Fresh res = true ->
    w_state w = Pending /\ (exists expiry, Rfc3339.parse (w_expires w) = Some expiry /\ now < expiry) /\
    notifications (db s') = notifications (db s) /\
    exists sealed, continuations (db s') = <[id := mkRow (w_snapshot w) (w_digest w) (w_expires w) (w_hash w)
      (w_revision w) Claimed (Some sealed) (w_outcome w)]> (continuations (db s));
  cj_retry : cr_Fresh res = false ->
    w_state w <> Pending /\ s' = s /\ cr_Claim res = None /\
    exists rc, cr_Receipt res = Some rc /\ rc_ClaimID rc = claimID /\ rc_Principal rc = ec_principal c /\
      rc_Audience rc = audience s }.

Lemma claim_Ok s io rnd c token claimID now res s' :
  Claim s io rnd c token claimID now = (Ok res, s') ->
  exists id w v, claim_justified s c token claimID now res s' id w v.
Proof.
  intros [[_ [e ?]]|(id & hash & Ha & Ht & Hc & E)]%claim_entry; [done|].
  apply authenticated_Ok in Ha.
  apply transaction_cases in E as [[_ [e ?]]|[(a & st & Hb & [= ->] & ->)|(a & n & d & Hb & -> & [[= ->]|?])]]; try done.
  - apply claim_rollback in Hb as (w & r & v & Hl & Hp & Hv & Hal & Hh & Hcb).
    pose proof (ld_row _ _ _ _ _ Hl) as Hw. pose proof (ld_open _ _ _ _ _ Hl) as Hop.
    unfold claimed_before in Hcb. apply rbind_Ok in Hcb as (rc & _ & Hcb).
    apply rbind_Ok in Hcb as (u & Hg & Hcb). apply guard_Ok in Hg.
    rewrite !andb_true_iff, !str_eqb_eq, bool_decide_eq_true in Hg.
    apply rbind_Ok in Hcb as (out & _ & Hcb). injection Hcb as <-.
    exists id, w, v. destruct Hg as [[Hg1 Hg2] Hg3]. split; cbn [cr_Fresh cr_Snapshot cr_Claim cr_Receipt]; try done.
    + by rewrite Hh.
    + by apply allowed_In.
    + eauto.
    + intros _. split_and!; try done. exists rc. by split_and!.
  - apply claim_commit in Hb
      as (w & r & v & expiry & receipt & b & sealed & Hl & Hp & Hv & Hal & Hh & Hx & Hnow & -> & _ & _ & _ & _ & -> & ->).
    pose proof (ld_row _ _ _ _ _ Hl) as Hw. pose proof (ld_open _ _ _ _ _ Hl) as Hop.
    exists id, w, v. split; cbn [cr_Fresh cr_Snapshot cr_Claim cr_Receipt]; try done.
    + by rewrite Hh.
    + by apply allowed_In.
    + eauto.
    + intros _. split_and!; eauto.
Qed.

Lemma rotate_Ok s io rnd c id expected now iss s1 :
  RotatePendingCapability s io rnd c id expected now = (Ok iss, s1) ->
  is_ID iss = id /\ hexID id = true /\
  exists hash w, mint id (rd_secret rnd) = Ok (is_Capability iss, hash) /\
    continuations (db s1) !! id = Some w /\ w_hash w = hash /\ w_state w = Pending.
Proof.
  unfold RotatePendingCapability. destruct (authenticated s c) as [au|]; [|done].
  destruct (_ || _) eqn:Eg; [done|]. rewrite !orb_false_iff in Eg. destruct Eg as [[Hid%negb_false_iff _] _].
  intros E. apply transaction_cases in E as [[_ [e ?]]|[(a & st & Hb & [= ->] & ->)|(a & n & d & Hb & -> & [[= ->]|?])]]; try done.
  - exfalso. unfold rotate_tx in Hb.
    repeat (apply tx_bind_Ok in Hb as (? & ? & _ & Hb); cbv beta zeta in Hb). case_match.
    repeat (apply tx_bind_Ok in Hb as (? & ? & _ & Hb); cbv beta zeta in Hb). by apply tx_ret_Ok in Hb as [? _].
  - apply rotate_commit in Hb
      as (w & r & v & hash & token & expiry & Hl & Hp & _ & _ & _ & _ & _ & Hm & -> & Hs).
    split; [done|]. split; [done|]. exists hash, (mkRow (w_snapshot w) (w_digest w) (w_expires w) hash (w_revision w + 1)
      Pending (w_receipt w) (w_outcome w)). cbn [is_Capability with_db db]. rewrite (ns_rows _ _ _ Hs).
    cbn [set_rows continuations]. by rewrite lookup_insert_eq.
Qed.

(** C34. Claims need the current capability. Every successful claim was made in a
    verified context for the store's audience, by a principal the snapshot
    allows, with a token of the row's current secret. A fresh claim found the row
    pending and unexpired and only marks it claimed; a repeated one changes
    nothing, carries no execution right, and needs the claim identity and
    principal on record. After a rotation only a token with the new secret's
    hash claims. *)
Theorem claims_need_the_current_capability (s : Store) (io : TxIO) (rnd : Rand) (c : ExecutionContext)
    (token claimID : string) (now : Time) (res : ClaimResult) (s' : Store) :
  Claim s io rnd c token claimID now = (Ok res, s') ->
  (exists id w v, claim_justified s c token claimID now res s' id w v) /\
  (forall s0 io0 rnd0 c0 id0 expected now0 iss h,
     RotatePendingCapability s0 io0 rnd0 c0 id0 expected now0 = (Ok iss, s) ->
     parseToken token = Ok (id0, h) -> parseToken (is_Capability iss) = Ok (id0, h)).
Proof.
  intros Hc. apply claim_Ok in Hc as (id & w & v & Hj). split; [eauto|].
  intros s0 io0 rnd0 c0 id0 expected now0 iss h (_ & Hid & hash & w1 & Hm & Hw1 & Hh & _)%rotate_Ok Hp.
  destruct Hj as [_ Hw Ht _ _ _ _]. rewrite Ht in Hp. injection Hp as -> <-.
  rewrite Hw in Hw1. injection Hw1 as <-. rewrite Hh. by apply parse_minted with (rand := rd_secret rnd0).
Qed.

(** ** Creation and the first claim *)
Section sealed.
Context `{!Durable.DataProtectorLaws H2}.

(** What is sealed opens, and is within the bound a reader uses. *)
Lemma sealed_opens s nonce purpose id plain max c : sealBlob s nonce purpose id plain max = Ok c ->
  openBlob s purpose id c max = Ok plain /\ bounded (max + maxSealOverhead) (Some c) = c /\ blen c <> 0.
Proof.
  unfold sealBlob. intros Hs. apply rbind_Ok in Hs as (u & Hg & Hs). apply guard_Ok in Hg.
  apply rbind_Ok in Hs as (c' & Hc & Hs). apply rbind_Ok in Hs as (u1 & Hg' & Hs). apply guard_Ok in Hg'.
  injection Hs as ->. destruct (Durable.Seal _ _ _) as [x|] eqn:Es; [|done]. injection Hc as ->.
  apply Durable.Open_Seal in Es. rewrite negb_true_iff in Hg, Hg'. apply orb_false_iff in Hg' as [Hz Hm].
  split; [|split; [|lia]].
  - unfold openBlob. rewrite Hz. replace (max + maxSealOverhead <? blen c) with false by lia.
    cbn [orb negb guard rbind]. rewrite Es. cbn [of_option rbind]. by rewrite Hg.
  - unfold bounded. by replace (blen c <=? max + maxSealOverhead) with true by lia.
Qed.

Lemma created_opens s nonce id b sealed expiry hash :
  sealBlob s nonce "snapshot" id b (MaxSnapshotBytes (options s)) = Ok sealed ->
  openRow s id (scan_row s (mkRow sealed (digest b) expiry hash 1 Pending None None)) =
  Ok (mkrow b (digest b) expiry hash 1 Pending [] []).
Proof.
  intros (Ho & Hb & _)%sealed_opens. unfold openRow, scan_row.
  cbn [w_snapshot w_digest w_expires w_hash w_revision w_state w_receipt w_outcome
       r_snapshot r_digest r_expires r_hash r_revision r_state r_receipt r_outcome].
  rewrite Hb, Ho. cbn [rbind]. by rewrite str_eqb_refl.
Qed.

Lemma claimed_opens s nonce nonce' id b rb sealed sealed' expiry hash :
  sealBlob s nonce "snapshot" id b (MaxSnapshotBytes (options s)) = Ok sealed ->
  sealBlob s nonce' "receipt" id rb maxReceiptBytes = Ok sealed' ->
  openRow s id (scan_row s (mkRow sealed (digest b) expiry hash 1 Claimed (Some sealed') None)) =
  Ok (mkrow b (digest b) expiry hash 1 Claimed rb []).
Proof.
  intros (Ho & Hb & _)%sealed_opens (Ho' & Hb' & Hz)%sealed_opens. unfold openRow, scan_row.
  cbn [w_snapshot w_digest w_expires w_hash w_revision w_state w_receipt w_outcome
       r_snapshot r_digest r_expires r_hash r_revision r_state r_receipt r_outcome].
  rewrite Hb, Ho, Hb'. cbn [rbind]. rewrite str_eqb_refl. cbn [guard rbind].
  unfold open_optional. replace (blen sealed' =? 0) with false by lia. cbn [negb]. rewrite Ho'. done.
Qed.

(** A creation that issued a capability. *)
Lemma create_Ok s io rnd c v expires now iss s1 :
  Create s io rnd c v expires now = (Ok iss, s1) -> is_Created iss = true ->
  closed s = false /\ exists b sealed hash token d, create_check s c v = Ok b /\ s1 = with_db s d /\
    iss = mkIssued (DeferralID v) 1 true token /\ mint (DeferralID v) (rd_secret rnd) = Ok (token, hash) /\
    sealBlob s (rd_nonce rnd) "snapshot" (DeferralID v) b (MaxSnapshotBytes (options s)) = Ok sealed /\
    b_records d <= MaxRecords (options s) /\ now < expires /\
    continuations d !! DeferralID v =
      Some (mkRow sealed (digest b) (Stamp.format expires) hash 1 Pending None None).
Proof.
  unfold Create. destruct (create_check s c v) as [b|] eqn:Eb; [|done]. intros E Hcr.
  destruct (closed s) eqn:Ec; [unfold transaction in E; rewrite Ec in E; done|]. split; [done|].
  apply transaction_cases in E as [[_ [e ?]]|[(a & st & Hb & [= ->] & ->)|(a & n & d & Hb & -> & [[= ->]|?])]]; try done.
  - exfalso. unfold create_tx in Hb.
    apply tx_bind_Ok in Hb as (o & s1 & Hq & Hb). destruct (load_row s _ _).
    + apply tx_bind_Ok in Hb as (? & ? & _ & Hb). apply tx_ret_Ok in Hb as [Hb _]. injection Hb as ->. done.
    + repeat (apply tx_bind_Ok in Hb as (? & ? & _ & Hb); cbv beta zeta in Hb). case_match.
      repeat (apply tx_bind_Ok in Hb as (? & ? & _ & Hb); cbv beta zeta in Hb). by apply tx_ret_Ok in Hb as [? _].
  - apply create_commit in Hb as (sealed & hash & token & _ & Hm & -> & Hs & Hr & _ & Hx & Hn).
    exists b, sealed, hash, token, d. split_and!; try done.
    + rewrite (ns_records _ _ _ Hn). done.
    + rewrite (ns_rows _ _ _ Hn). cbn [set_rows continuations]. apply lookup_insert_eq.
Qed.

Lemma create_check_snapshot s c v b : create_check s c v = Ok b ->
  marshal_snapshot v = Some b /\ hexID (DeferralID v) = true.
Proof.
  unfold create_check. intros Hc. apply rbind_Ok in Hc as (u1 & _ & Hc). apply rbind_Ok in Hc as (u2 & _ & Hc).
  apply rbind_Ok in Hc as (u3 & _ & Hc). apply rbind_Ok in Hc as (u4 & _ & Hc).
  apply rbind_Ok in Hc as (u5 & Hv & Hc). apply rbind_Ok in Hc as (b' & Hm & Hc).
  apply rbind_Ok in Hc as (u6 & _ & Hc). injection Hc as ->.
  destruct (marshal_snapshot v); [|done]. injection Hm as ->. split; [done|].
  unfold validateSnapshot in Hv. apply rbind_Ok in Hv as (u7 & Hg & _). apply guard_Ok in Hg.
  rewrite negb_true_iff, !orb_false_iff in Hg. destruct Hg as [[[[[[[[_ Hid%negb_false_iff] _] _] _] _] _] _] _]. done.
Qed.

(** Creation is idempotent. Once Create has issued a capability for a
    deferral, no later Create of that deferral, whatever its snapshot, expiry,
    context or faults, changes anything or yields a secret: it succeeds only for
    the same encoded snapshot and expiry, with the recorded revision, and the
    exact retry does succeed. *)
Theorem create_is_idempotent (s : Store) (io io' : TxIO) (rnd rnd' : Rand) (c c' : ExecutionContext)
    (v v' : Snapshot) (expires expires' now now' : Time) (iss : Issued) (s1 : Store) :
  Create s io rnd c v expires now = (Ok iss, s1) -> is_Created iss = true -> DeferralID v' = DeferralID v ->
  let '(r, s2) := Create s1 io' rnd' c' v' expires' now' in
  s2 = s1 /\
  (forall iss', r = Ok iss' -> iss' = mkIssued (DeferralID v) 1 false "" /\
     marshal_snapshot v' = marshal_snapshot v /\ Stamp.format expires' = Stamp.format expires) /\
  (c' = c -> v' = v -> expires' = expires -> io_begin io' = true -> io_stmt io' O = true ->
     r = Ok (mkIssued (DeferralID v) 1 false "")).
Proof.
  intros Hc Hcr Hid. destruct (create_Ok _ _ _ _ _ _ _ _ _ Hc Hcr)
    as (Hcl & b & sealed & hash & token & d & Hck & -> & _ & _ & Hs & _ & _ & Hrow).
  pose proof (created_opens s _ _ _ _ (Stamp.format expires) hash Hs) as Hop.
  destruct (create_check_snapshot _ _ _ _ Hck) as [Hms _].
  assert (Hbody : forall b' stmt, stmt O = true ->
    create_tx (with_db s d) rnd' v' b' expires' now' stmt (O, d) =
    if bool_decide (b = b') && str_eqb (Stamp.format expires) (Stamp.format expires')
    then Ok (Rollback (mkIssued (DeferralID v) 1 false ""), (1%nat, d)) else Err stale).
  { intros b' stmt Hst. unfold create_tx, tx_bind, tx_query. cbn [fst snd]. rewrite Hst, Hid, Hrow.
    change (load_row (with_db s d)) with (load_row s). cbn [load_row]. rewrite Hop.
    unfold tx_guard, tx_lift, guard, tx_ret. cbn [r_snapshot r_expires r_revision].
    by destruct (_ && _). }
  destruct (Create (with_db s d) io' rnd' c' v' expires' now') as [r s2] eqn:E. unfold Create in E.
  destruct (create_check (with_db s d) c' v') as [b'|e'] eqn:Ek.
  - pose proof (proj1 (create_check_snapshot _ _ _ _ Ek)) as Hms'.
    unfold transaction in E. cbn [with_db closed db] in E. rewrite Hcl in E. unfold run_tx in E.
    destruct (io_begin io') eqn:Eb.
    2: { injection E as <- <-. rewrite with_db_same. by split_and!. }
    destruct (io_stmt io' O) eqn:Es.
    + rewrite Hbody in E by done. destruct (_ && _) eqn:Ec; injection E as <- <-.
      * rewrite with_db_same. apply andb_true_iff in Ec as [Hbb%bool_decide_eq_true_1 Hee%str_eqb_eq].
        split_and!; try done. intros iss' [= <-]. by split_and!; [|congruence|].
      * rewrite with_db_same. split_and!; try done. intros -> -> -> _ _.
        change (create_check (with_db s d)) with (create_check s) in Ek. rewrite Hck in Ek. injection Ek as <-.
        rewrite str_eqb_refl, bool_decide_eq_true_2 in Ec; done.
    + replace (create_tx _ _ _ _ _ _ _ _) with (Err internal : result Error (finish Issued * (nat * CDB))) in E.
      2: { unfold create_tx, tx_bind, tx_query. cbn [fst]. by rewrite Es. }
      injection E as <- <-. rewrite with_db_same. by split_and!.
  - injection E as <- <-. split_and!; try done. intros -> -> _ _ _.
    change (create_check (with_db s d)) with (create_check s) in Ek. by rewrite Hck in Ek.
Qed.

Lemma load_run s id stmt n d w r : stmt n = true -> continuations d !! id = Some w ->
  openRow s id (scan_row s w) = Ok r -> load s id stmt (n, d) = Ok (r, (S n, d)).
Proof. intros Hst Hw Ho. unfold load, tx_bind, tx_query. cbn [fst snd]. by rewrite Hst, Hw; cbn; rewrite Ho. Qed.

Lemma charge_run s records bytes (stmt : nat -> bool) n d : stmt n = true -> b_records d + records <= MaxRecords (options s) ->
  b_bytes d + bytes <= o_MaxBytes (options s) ->
  charge s records bytes stmt (n, d) = Ok (tt, (S n, charged records bytes d)).
Proof.
  intros Hst Hr Hb. unfold charge, tx_bind, tx_update, charge_rows. cbn [fst snd]. rewrite Hst.
  apply Z.leb_le in Hr, Hb. by rewrite Hr, Hb.
Qed.

(** The claim of a created row, statement by statement. *)
Lemma claim_run s nonce p id b sealed expires hash claimID now v rb rsealed d nonce' :
  continuations d !! id = Some (mkRow sealed (digest b) (Stamp.format expires) hash 1 Pending None None) ->
  sealBlob s nonce' "snapshot" id b (MaxSnapshotBytes (options s)) = Ok sealed ->
  snapshot s b = Ok v -> allowed v p = true -> Stamp.four_digit_year expires = true -> now < expires ->
  marshal_receipt (mkReceipt id claimID p (audience s) (digest b) (s_PlanDigest v) 1 now) = Some rb ->
  sealBlob s nonce "receipt" id rb maxReceiptBytes = Ok rsealed ->
  b_records d <= MaxRecords (options s) -> b_bytes d + blen rsealed <= o_MaxBytes (options s) ->
  claim_tx s nonce p id hash claimID now (fun _ => true) (O, d) =
  Ok (Commit (mkClaimResult (Some (mkFresh (st_ident s) rb b false))
        (Some (mkReceipt id claimID p (audience s) (digest b) (s_PlanDigest v) 1 now)) (Some v) (Some Claimed) true None),
      (3%nat, set_rows (charged 0 (blen rsealed) d) (<[id := mkRow sealed (digest b) (Stamp.format expires) hash 1
         Claimed (Some rsealed) None]> (continuations d)))).
Proof.
  intros Hw Hs Hv Hal Hy Hnow Hm Hrs Hr Hb. pose proof (created_opens s _ _ _ _ (Stamp.format expires) hash Hs) as Hop.
  assert (negb (maxReceiptBytes <? blen rb) = true) as Hlen.
  { unfold sealBlob in Hrs. apply rbind_Ok in Hrs as (u & Hg & _). by apply guard_Ok in Hg. }
  unfold claim_tx. go_step; [by apply (load_run s id (fun _ => true) O d _ _ eq_refl Hw Hop)|].
  go_step; [apply tx_lift_Ok; split; [unfold row_snapshot; cbn [r_snapshot]; by rewrite Hv|reflexivity]|].
  go_guard; [apply tx_guard_Ok; split; [|reflexivity]; rewrite Hal; cbn [r_hash]; by rewrite bool_decide_eq_true_2|].
  cbn [r_state]. rewrite bool_decide_eq_true_2 by done. cbn [negb].
  go_step; [apply tx_lift_Ok; split; [unfold parse_expiry; cbn [r_expires]; by rewrite Stamp.parse_stamp|reflexivity]|].
  go_guard; [apply tx_guard_Ok; split; [lia|reflexivity]|]. cbn [r_digest r_revision].
  change (wrapu64 1) with 1.
  go_step; [apply tx_lift_Ok; split; [by rewrite Hm|reflexivity]|].
  go_guard; [apply tx_guard_Ok; split; [done|reflexivity]|].
  go_step; [apply tx_lift_Ok; split; [done|reflexivity]|].
  go_step; [apply charge_run; [done|lia|done]|].
  unfold tx_bind, tx_update, claim_row. cbn [fst snd charged continuations]. rewrite Hw. cbn [w_state w_revision].
  rewrite bool_decide_eq_true_2 by done. reflexivity.
Qed.

(** The text of a snapshot is within the byte, depth and member limits its readers
    apply. Create only checks its length. *)
Definition json_in_limits (s : Store) (b : list byte) : Prop :=
  DecodeJSONWithLimits snapshot_types b (Some 0%nat) (fun _ => Decoded) (private_limits s (MaxSnapshotBytes (options s))) = Ok tt.

Lemma read_in_limits s b v : snapshot s b = Ok v -> json_in_limits s b.
Proof.
  unfold snapshot, decodePrivate, decode_limits, json_in_limits. intros (v' & Hd & _)%rbind_Ok.
  destruct (DecodeJSONWithLimits _ _ _ _ _) as [[]|] eqn:E; [|done]. rewrite <- E. unfold DecodeJSONWithLimits.
  destruct (unmarshal_snapshot b); done.
Qed.

Lemma created_reads_back s c v b : create_check s c v = Ok b -> json_in_limits s b -> unmarshal_snapshot b = Some v ->
  snapshot s b = Ok v.
Proof.
  intros Hc Hj Hu. unfold create_check in Hc. do 4 apply rbind_Ok in Hc as (? & _ & Hc).
  apply rbind_Ok in Hc as ([] & Hv & _). unfold snapshot, decodePrivate, decode_limits.
  assert (DecodeJSONWithLimits snapshot_types b (Some 0%nat)
    (fun raw => match unmarshal_snapshot raw with Some _ => Decoded | None => ShapeMismatch end)
    (private_limits s (MaxSnapshotBytes (options s))) = Ok tt) as ->.
  { rewrite <- Hj. unfold DecodeJSONWithLimits. by rewrite Hu. }
  rewrite Hu. cbn [of_option rbind]. by rewrite Hv.
Qed.

(** Create can issue a capability that is good for nothing: a snapshot whose text is
    beyond the limits of its readers is stored, and every claim with its capability is
    refused. *)
Theorem unreadable_snapshot_is_issued (s : Store) (io io2 : TxIO) (rnd rnd2 : Rand) (c c2 : ExecutionContext) (v : Snapshot)
    (expires now now2 : Time) (iss : Issued) (s1 : Store) (claimID : string) (b : list byte) :
  Create s io rnd c v expires now = (Ok iss, s1) -> is_Created iss = true -> marshal_snapshot v = Some b -> ~ json_in_limits s b ->
  exists e, (Claim s1 io2 rnd2 c2 (is_Capability iss) claimID now2).1 = Err e.
Proof.
  intros Hc Hcr Hms Hj. destruct (Claim s1 io2 rnd2 c2 (is_Capability iss) claimID now2) as [[res|e] s2] eqn:Ec; [|by exists e].
  exfalso. destruct (create_Ok _ _ _ _ _ _ _ _ _ Hc Hcr)
    as (_ & b' & sealed & hash & token & d & Hck & -> & -> & Hmint & Hs & _ & _ & Hrow).
  destruct (create_check_snapshot _ _ _ _ Hck) as [Hms' Hid]. rewrite Hms in Hms'. injection Hms' as <-.
  cbn [is_Capability] in Ec. apply claim_Ok in Ec as (id & w & v' & [_ Hw Ht _ [_ (r & Hr & Hv)] _ _]).
  rewrite (parse_minted _ _ _ _ Hid Hmint) in Ht. injection Ht as <- _. cbn [with_db db] in Hw. rewrite Hrow in Hw. injection Hw as <-.
  change (openRow (with_db s d)) with (openRow s) in Hr. change (scan_row (with_db s d)) with (scan_row s) in Hr.
  rewrite (created_opens s _ _ _ _ (Stamp.format expires) hash Hs) in Hr. injection Hr as <-. by apply Hj, (read_in_limits _ _ v').
Qed.

(** C35. A capability is good for one execution. After Create has issued a capability
    for a snapshot, an allowed principal that claims with it before the expiry gets a
    fresh claim for exactly that snapshot; consuming the claim with its receipt releases
    the snapshot, and consuming it again is refused. Conditions: the snapshot's text is
    within the JSON limits of its readers and decodes to the snapshot (Create does not
    check the limits: [unreadable_snapshot_is_issued]), the expiry has a four-digit year,
    the receipt can be encoded and sealed and fits the capacity, and the statements of the
    claim and of its consumption work. *)
Theorem issued_capability_executes_once (s : Store) (io : TxIO) (rnd rnd2 : Rand) (c c2 : ExecutionContext)
    (v : Snapshot) (expires now now2 : Time) (iss : Issued) (s1 : Store) (claimID : string)
    (b rb rsealed : list byte) :
  Create s io rnd c v expires now = (Ok iss, s1) -> is_Created iss = true ->
  marshal_snapshot v = Some b -> json_in_limits s b -> unmarshal_snapshot b = Some v -> Stamp.four_digit_year expires = true ->
  authenticated s c2 = Ok tt -> ec_principal c2 ∈ AllowedResumePrincipals v -> hexID claimID = true ->
  now2 < expires ->
  let receipt := mkReceipt (DeferralID v) claimID (ec_principal c2) (audience s) (digest b) (s_PlanDigest v) 1 now2 in
  marshal_receipt receipt = Some rb ->
  sealBlob s (rd_nonce rnd2) "receipt" (DeferralID v) rb maxReceiptBytes = Ok rsealed ->
  b_bytes (db s1) + blen rsealed <= o_MaxBytes (options s) ->
  exists s2 fc, let res := mkClaimResult (Some fc) (Some receipt) (Some v) (Some Claimed) true None in
    Claim s1 io_ok rnd2 c2 (is_Capability iss) claimID now2 = (Ok res, s2) /\
    exists fc', Consume fc true s2 io_ok c2 receipt = (Ok v, fc') /\
      forall ctx_ok s3 io3 c3 receipt3, Consume fc' ctx_ok s3 io3 c3 receipt3 = (Err stale, fc').
Proof.
  intros Hc Hcr Hms Hj Hu Hy Ha Hal Hcid Hnow receipt Hm Hrs Hcap.
  destruct (create_Ok _ _ _ _ _ _ _ _ _ Hc Hcr)
    as (Hcl & b' & sealed & hash & token & d & Hck & -> & -> & Hmint & Hs & Hr & _ & Hrow).
  destruct (create_check_snapshot _ _ _ _ Hck) as [Hms' Hid]. rewrite Hms in Hms'. injection Hms' as <-.
  pose proof (created_reads_back _ _ _ _ Hck Hj Hu) as Hv. cbn [is_Capability with_db db] in *. apply allowed_In in Hal.
  pose proof (claim_run (with_db s d) (rd_nonce rnd2) (ec_principal c2) (DeferralID v) b sealed expires hash claimID
    now2 v rb rsealed d (rd_nonce rnd) Hrow Hs Hv Hal Hy Hnow Hm Hrs Hr Hcap) as Hrun.
  exists (with_db s (set_rows (charged 0 (blen rsealed) d) (<[DeferralID v := mkRow sealed (digest b) (Stamp.format expires)
    hash 1 Claimed (Some rsealed) None]> (continuations d)))), (mkFresh (st_ident s) rb b false).
  split.
  { unfold Claim. change (authenticated (with_db s d) c2) with (authenticated s c2). rewrite Ha. cbn [rbind].
    rewrite (parse_minted _ _ _ _ Hid Hmint). cbn [rbind]. rewrite Hcid. cbn [guard rbind].
    unfold transaction. change (closed (with_db s d)) with (closed s). rewrite Hcl. unfold run_tx.
    cbn [io_ok io_begin io_stmt io_commit]. change (db (with_db s d)) with d. rewrite Hrun. reflexivity. }
  exists (mkFresh (st_ident s) rb b true). split; [|by intros []].
  unfold Consume. cbn [negb fc_used fc_store fc_receipt fc_snapshot orb with_db st_ident].
  rewrite Nat.eqb_refl. change (authenticated (with_db s _) c2) with (authenticated s c2). rewrite Ha.
  cbn [is_ok negb orb receipt rc_Principal rc_Audience]. rewrite bool_decide_eq_true_2 by done.
  cbn [audience with_db]. rewrite str_eqb_refl. cbn [negb orb]. fold receipt. rewrite Hm.
  rewrite bool_decide_eq_true_2 by done. unfold transaction. cbn [with_db closed]. rewrite Hcl.
  unfold run_tx. cbn [io_ok io_begin io_stmt io_commit].
  pose proof (claimed_opens s _ _ _ _ _ _ _ (Stamp.format expires) hash Hs Hrs) as Hop.
  match goal with |- context [consume_tx ?s2 ?p ?rc ?stmt ?st] =>
    assert (consume_tx s2 p rc stmt st = Ok (Rollback v, (1%nat, st.2))) as -> end; [|done].
  unfold consume_tx. cbn [snd].
  go_step; [eapply load_run; [done| |exact Hop]; cbn [with_db db set_rows continuations rc_ID receipt]; apply lookup_insert_eq|].
  cbn [r_state r_receipt r_snapshot r_digest rc_SnapshotDigest receipt].
  go_guard; [apply tx_guard_Ok; split; [rewrite !bool_decide_eq_true_2 by done; apply str_eqb_refl|reflexivity]|].
  go_step; [apply tx_lift_Ok; split; [exact Hv|reflexivity]|]. by apply tx_ret_Ok.
Qed.
End sealed.

(** ** The private outbox *)
Lemma or_err_Ok {A} (x : result Error A) e a : or_err x e = Ok a -> x = Ok a.
Proof. by destruct x. Qed.

Lemma private_notification_rollback s p id now stmt d a st :
  private_notification_tx s p id now stmt (O, d) = Ok (Rollback a, st) ->
  exists w r v n plain expiry, loaded s d id w r /\ w_state w = Pending /\ snapshot s (r_snapshot r) = Ok v /\
    allowed v p = true /\ Rfc3339.parse (w_expires w) = Some expiry /\ now < expiry /\
    notifications d !! (id, notificationRecipient p) = Some n /\ n_revision n = wrapu64 (w_revision w) /\
    decodeNotification s id (notificationRecipient p) (n_revision n) (bounded_payload n) = Ok plain /\
    np_Recipient plain = p /\ np_Expiry plain = w_expires w /\ parseToken (np_Token plain) = Ok (id, w_hash w) /\
    a = mkDelivery id p (n_revision n) expiry (n_published n) (np_Token plain).
Proof.
  unfold private_notification_tx. intros Hrun.
  apply tx_bind_Ok in Hrun as (r & s1 & Hl & Hrun). apply load_Ok in Hl as (w & Hl & ->). cbn [fst snd] in *.
  apply tx_bind_Ok in Hrun as (v & s2 & Hv & Hrun). apply tx_lift_Ok in Hv as [Hv%row_snapshot_Ok ->].
  apply tx_bind_Ok in Hrun as (u1 & s4 & Hg & Hrun). apply tx_guard_Ok in Hg as [Hg ->].
  apply tx_bind_Ok in Hrun as (expiry & s3 & He & Hrun). apply tx_lift_Ok in He as [He ->].
  apply tx_bind_Ok in Hrun as (u2 & s5 & Hg' & Hrun). apply tx_guard_Ok in Hg' as [Hx%Z.ltb_lt ->].
  apply tx_bind_Ok in Hrun as (o & s6 & Hq & Hrun). apply tx_query_Ok in Hq as (_ & -> & ->). cbn [fst snd] in *.
  apply tx_bind_Ok in Hrun as (n & s7 & Hn & Hrun). apply tx_lift_Ok in Hn as [Hn ->].
  apply tx_bind_Ok in Hrun as (u3 & s8 & Hg' & Hrun). apply tx_guard_Ok in Hg' as [Hrev%Z.eqb_eq ->].
  apply tx_bind_Ok in Hrun as (plain & s9 & Hp & Hrun). apply tx_lift_Ok in Hp as [Hp%or_err_Ok ->].
  apply tx_bind_Ok in Hrun as (u4 & s10 & Hg' & Hrun). apply tx_guard_Ok in Hg' as [Hg' ->].
  apply tx_bind_Ok in Hrun as ([tid hash] & s11 & Ht & Hrun). apply tx_lift_Ok in Ht as [Ht%or_err_Ok ->].
  apply tx_bind_Ok in Hrun as (u5 & s12 & Hg2 & Hrun). apply tx_guard_Ok in Hg2 as [Hg2 ->].
  apply tx_ret_Ok in Hrun as [Ha _]. injection Ha as ->.
  apply andb_true_iff in Hg as [Hal Hst%bool_decide_eq_true_1].
  apply andb_true_iff in Hg' as [Hpp%bool_decide_eq_true_1 Hee%str_eqb_eq].
  apply andb_true_iff in Hg2 as [->%str_eqb_eq ->%bool_decide_eq_true_1].
  unfold parse_expiry in He.
  rewrite (ld_hash _ _ _ _ _ Hl), (ld_state _ _ _ _ _ Hl), (ld_expires _ _ _ _ _ Hl), (ld_revision _ _ _ _ _ Hl) in *.
  destruct (Rfc3339.parse (w_expires w)) as [x|] eqn:Ex; [|done]. injection He as ->.
  destruct (notifications d !! _) as [n'|] eqn:En; [|done]. injection Hn as ->.
  exists w, r, v, n, plain, expiry. split_and!; try done. by rewrite Hpp.
Qed.

(** The outbox discloses only the current capability, to its addressee. A
    delivery returned by PrivateNotification belongs to a pending, unexpired
    continuation that allows the authenticated caller, was sealed for that very
    recipient and revision, and holds the token of the row's current secret; the
    call changes nothing. The publication check accepts that delivery, as the
    same delivery, for as long as the continuation is unexpired. *)
Theorem outbox_discloses_current_capability (s : Store) (io : TxIO) (c : ExecutionContext) (id : string)
    (now now' : Time) (pd : PrivateDelivery) (s' : Store) :
  PrivateNotification s io c id now = (Ok pd, s') ->
  s' = s /\ ec_verified c = true /\ ec_audience c = audience s /\ pd_ID pd = id /\
  pd_Recipient pd = ec_principal c /\ now < pd_ExpiresAt pd /\
  (exists w r v, loaded s (db s) id w r /\ w_state w = Pending /\ snapshot s (r_snapshot r) = Ok v /\
     ec_principal c ∈ AllowedResumePrincipals v /\ pd_Revision pd = wrapu64 (w_revision w) /\
     Rfc3339.parse (w_expires w) = Some (pd_ExpiresAt pd) /\ parseToken (pd_capability pd) = Ok (id, w_hash w)) /\
  (now' < pd_ExpiresAt pd ->
   VerifyPrivatePublication s io_ok (pd_capability pd) (pd_Revision pd) (pd_Recipient pd) now' = (Ok pd, s)).
Proof.
  unfold PrivateNotification. destruct (_ && _) eqn:Eg; [|done]. apply andb_true_iff in Eg as [Ha Hid].
  destruct (authenticated s c) as [au|] eqn:Eau; [|done]. apply authenticated_Ok in Eau as [Hve Hau].
  intros E. destruct (closed s) eqn:Ecl; [unfold transaction in E; by rewrite Ecl in E|].
  apply transaction_cases in E as [[_ [e ?]]|[(a & st & Hb & [= ->] & ->)|(a & n & d & Hb & _)]]; [done| |].
  2: { by apply reads_never_commit in Hb. }
  apply private_notification_rollback in Hb
    as (w & r & v & n & plain & expiry & Hl & Hp & Hv & Hal & Hx & Hnow & Hn & Hrev & Hd & Hpp & Hee & Ht & ->).
  cbn [pd_ID pd_Recipient pd_ExpiresAt pd_Revision pd_capability]. rewrite Hrev in *.
  split_and!; try done.
  { exists w, r, v. split_and!; try done. by apply allowed_In. }
  intros Hnow'. unfold VerifyPrivatePublication. rewrite Ht. unfold transaction. rewrite Ecl. unfold run_tx.
  cbn [io_ok io_begin io_stmt io_commit].
  assert (verify_publication_tx s (np_Token plain) id (w_hash w) (wrapu64 (w_revision w)) (ec_principal c) now'
    (fun _ => true) (O, db s) = Ok (Rollback (mkDelivery id (ec_principal c) (wrapu64 (w_revision w)) expiry
      (n_published n) (np_Token plain)), (2%nat, db s))) as ->; [|by rewrite with_db_same].
  unfold verify_publication_tx.
  go_step; [apply (load_run s id (fun _ => true) O _ _ _ eq_refl (ld_row _ _ _ _ _ Hl) (ld_open _ _ _ _ _ Hl))|].
  go_step; [apply tx_lift_Ok; split; [unfold row_snapshot; by rewrite Hv|reflexivity]|].
  rewrite (ld_state _ _ _ _ _ Hl), (ld_revision _ _ _ _ _ Hl), (ld_hash _ _ _ _ _ Hl), (ld_expires _ _ _ _ _ Hl).
  go_guard; [apply tx_guard_Ok; split; [rewrite Hal, Hp, Z.eqb_refl, !bool_decide_eq_true_2 by done; done|reflexivity]|].
  unfold parse_expiry. rewrite (ld_expires _ _ _ _ _ Hl), Hx. cbn [of_option].
  go_step; [apply tx_lift_Ok; split; reflexivity|].
  go_guard; [apply tx_guard_Ok; split; [lia|reflexivity]|].
  go_step; [apply tx_query_Ok; split_and!; reflexivity|]. cbn [fst snd]. rewrite Hn. cbn [of_option].
  go_step; [apply tx_lift_Ok; split; reflexivity|].
  go_guard; [apply tx_guard_Ok; split; [lia|reflexivity]|].
  go_step; [apply tx_lift_Ok; split; [by rewrite Hd|reflexivity]|].
  go_guard; [apply tx_guard_Ok; split; [by rewrite Hpp, Hee, !str_eqb_refl, bool_decide_eq_true_2|reflexivity]|].
  by apply tx_ret_Ok.
Qed.
End props.
End ContinuationProps.

(** ** A concrete store *)
Module ContinuationWitness.
Import Wire.Wire Model Continuation ContinuationInv ContinuationProps DurableWitness
  FabricRef.RefWitness Wire.WireWitness FabricModel.ModelWitness.

Definition k_id : string := hex_encode (replicate 32 x0a).
Definition k_claim_id : string := hex_encode (replicate 32 x0b).
Definition k_now : Time := 1700000000 * 10 ^ 9.
Definition k_expires : Time := k_now + time_Hour.

Definition k_snapshot : Snapshot :=
  mkSnapshot 1 k_id [x01] sample_principal [sample_principal] "rev-1" "1" (hex_encode (sha256 [x7b; x7d])) [x7b; x7d]
    [x7b; x7d] [].

(** Codecs for the values of the example. *)
#[export] Instance toy_continuation_json : ContinuationJson :=
  {| marshal_snapshot := fun v => Some (bytes_of (DeferralID v ++ PlanVersion v));
     unmarshal_snapshot := fun _ => Some k_snapshot;
     marshal_receipt := fun r => Some (bytes_of (rc_ID r ++ rc_ClaimID r));
     unmarshal_receipt := fun _ => Some (mkReceipt k_id k_claim_id sample_principal "aud"
       (hex_encode (sha256 (bytes_of (k_id ++ "1")))) (s_PlanDigest k_snapshot) 1 (k_now + 1));
     marshal_outcome := fun o => Some (oc_Data o);
     unmarshal_outcome := fun b => Some (mkOutcome "completed" b);
     marshal_notification := fun n => Some (bytes_of (np_Token n));
     unmarshal_notification := fun b => Some (mkPlain 1 k_id sample_principal 1 (Stamp.format k_expires) (string_of b));
     marshal_identity := fun i => Some (pi_Proof i);
     unmarshal_identity := fun b => Some (mkProtected 3 "aud" (Durable.mkKeyRef "key" "1") b);
     marshal_principal := fun p => bytes_of (p_Ref p);
     marshal_protection := fun format purpose aud id key => bytes_of (purpose ++ aud ++ id) |}.

Definition store_of (r : result Error Store * option CDB) : Store :=
  match r.1 with Ok s => s | Err _ => mkStore 0 "" DefaultOptions (Durable.mkKeyRef "" "") true empty_db end.
Definition context_of (r : result Error ExecutionContext) : ExecutionContext :=
  match r with Ok c => c | Err _ => mkContext None sample_principal "" [] false (mkProvenance "" "" [] 0 [] []) end.
Definition claim_of (r : result Error ClaimResult) : ClaimResult :=
  match r with Ok x => x | Err _ => mkClaimResult None None None None false None end.

Definition k_boot := Bootstrap 0 "aud" DefaultOptions Durable.open_ok [] None.
Definition k_s0 : Store := store_of k_boot.
Definition k_context : ExecutionContext := context_of (NewAuthenticatedContext sample_principal "aud" [x01]).
Definition k_rand : Rand := mkRand (Some (replicate 32 x2a)) [] (fun _ => []).
Definition k_issued : Issued := mkIssued k_id 1 true (k_id ++ "." ++ base64url (replicate 32 x2a)).
Definition k_s1 : Store := (Create k_s0 io_ok k_rand k_context k_snapshot k_expires k_now).2.
Definition k_claimed := Claim k_s1 io_ok k_rand k_context (is_Capability k_issued) k_claim_id (k_now + 1).
Definition k_s2 : Store := k_claimed.2.

(** A pair whose first component is a success. *)
Lemma ok_pair {A B} (x : result Error A * B) (a : A) : x.1 = Ok a -> x = (Ok a, x.2).
Proof. intros <-. apply surjective_pairing. Qed.

Lemma k_boot_ok : Bootstrap 0 "aud" DefaultOptions Durable.open_ok [] None = (Ok k_s0, k_boot.2).
Proof. apply (ok_pair k_boot). vm_compute. reflexivity. Qed.

Lemma k_created : Create k_s0 io_ok k_rand k_context k_snapshot k_expires k_now = (Ok k_issued, k_s1).
Proof. apply (ok_pair (Create k_s0 io_ok k_rand k_context k_snapshot k_expires k_now)). vm_compute. reflexivity. Qed.

Lemma k_claimed_ok : Claim k_s1 io_ok k_rand k_context (is_Capability k_issued) k_claim_id (k_now + 1) =
  (Ok (claim_of k_claimed.1), k_s2).
Proof. apply (ok_pair k_claimed). vm_compute. reflexivity. Qed.

Lemma continuations_advance_witness :
  exists w, continuations (db k_s1) !! k_id = Some w /\ w_state w = Pending /\
    exists w', continuations (db (m_store (run [OpClaim io_ok k_rand k_context (is_Capability k_issued) k_claim_id (k_now + 1)]
      (start k_s1)))) !! k_id = Some w' /\ w_state w' = Claimed /\ w_snapshot w' = w_snapshot w.
Proof.
  eexists. split; [vm_compute; reflexivity|]. split; [reflexivity|].
  edestruct (continuations_only_advance (start k_s1)
    [OpClaim io_ok k_rand k_context (is_Capability k_issued) k_claim_id (k_now + 1)] k_id) as (w' & Hw' & Hs & _);
    [vm_compute; reflexivity|].
  exists w'. split; [exact Hw'|]. split; [|exact Hs].
  assert (option_map w_state (Some w') = Some Claimed) as [= E] by (rewrite <- Hw'; vm_compute; reflexivity).
  exact E.
Defined.

Lemma continuation_budget_witness :
  let d := db (m_store (run [OpCreate io_ok k_rand k_context k_snapshot k_expires k_now] (start k_s0))) in
  b_records d = 1 /\ b_bytes d <= o_MaxBytes DefaultOptions /\
  exists s', Open 1 "aud" DefaultOptions Durable.open_ok (Some (db k_s2)) = (Ok s', Some (db k_s2)) /\
    b_records (db k_s2) <= MaxRecords DefaultOptions.
Proof.
  destruct (continuation_budget_is_exact 0 "aud" DefaultOptions Durable.open_ok [] None k_boot.2 k_s0
    [OpCreate io_ok k_rand k_context k_snapshot k_expires k_now] (db k_s2) k_s2) as [Hb _].
  destruct (Hb k_boot_ok) as (_ & _ & _ & Hmax).
  split; [vm_compute; reflexivity|]. split; [exact Hmax|].
  assert (is_ok (Open 1 "aud" DefaultOptions Durable.open_ok (Some (db k_s2))).1 = true) as Hok
    by (vm_compute; reflexivity).
  destruct (Open 1 "aud" DefaultOptions Durable.open_ok (Some (db k_s2))) as [[s'|e] disk] eqn:E; [|discriminate Hok].
  destruct (continuation_budget_is_exact 1 "aud" DefaultOptions Durable.open_ok [] None disk k_s0
    [] (db k_s2) s') as [_ Ho]. destruct (Ho E) as (Hd & _ & _ & Hr & _).
  exists s'. apply open_existing in E as [-> _]. split; [reflexivity|exact Hr].
Defined.

Lemma capability_tokens_witness : parseToken (is_Capability k_issued) = Ok (k_id, sha256 (replicate 32 x2a)).
Proof.
  apply (capability_tokens_round_trip k_id (is_Capability k_issued) (Some (replicate 32 x2a)) (sha256 (replicate 32 x2a)));
    vm_compute; reflexivity.
Defined.

Lemma claims_need_capability_witness :
  exists id w v, claim_justified k_s1 k_context (is_Capability k_issued) k_claim_id (k_now + 1)
    (claim_of k_claimed.1) k_s2 id w v /\ cr_Fresh (claim_of k_claimed.1) = true.
Proof.
  destruct (claims_need_the_current_capability k_s1 io_ok k_rand k_context (is_Capability k_issued) k_claim_id
    (k_now + 1) (claim_of k_claimed.1) k_s2 k_claimed_ok) as [(id & w & v & Hj) _].
  exists id, w, v. split; [exact Hj|]. vm_compute. reflexivity.
Defined.

Lemma create_idempotent_witness :
  (Create k_s1 io_ok k_rand k_context k_snapshot k_expires (k_now + 5)).1 = Ok (mkIssued k_id 1 false "").
Proof.
  pose proof (create_is_idempotent k_s0 io_ok io_ok k_rand k_rand k_context k_context k_snapshot k_snapshot k_expires
    k_expires k_now (k_now + 5) k_issued k_s1 k_created eq_refl eq_refl) as Hi.
  destruct (Create k_s1 io_ok k_rand k_context k_snapshot k_expires (k_now + 5)) as [r s2].
  destruct Hi as (_ & _ & Hr). exact (Hr eq_refl eq_refl eq_refl eq_refl eq_refl).
Defined.

Lemma issued_capability_witness :
  exists s2 res, Claim k_s1 io_ok k_rand k_context (is_Capability k_issued) k_claim_id (k_now + 1) = (Ok res, s2) /\
    cr_Snapshot res = Some k_snapshot.
Proof.
  edestruct (issued_capability_executes_once k_s0 io_ok k_rand k_rand k_context k_context k_snapshot k_expires k_now
    (k_now + 1) k_issued k_s1 k_claim_id) as (s2 & fc & Hc & _);
    [exact k_created | reflexivity | reflexivity | vm_compute; reflexivity | vm_compute; reflexivity | vm_compute; reflexivity
    | vm_compute; reflexivity | left | vm_compute; reflexivity | vm_compute; reflexivity | reflexivity
    | vm_compute; reflexivity | apply Z.leb_le; vm_compute; reflexivity |].
  eexists s2, _. split; [exact Hc|reflexivity].
Defined.

Lemma outbox_witness :
  exists pd, PrivateNotification k_s1 io_ok k_context k_id (k_now + 1) = (Ok pd, k_s1) /\
    pd_capability pd = is_Capability k_issued /\ pd_Recipient pd = sample_principal.
Proof.
  assert (exists pd, (PrivateNotification k_s1 io_ok k_context k_id (k_now + 1)).1 = Ok pd /\
    pd_capability pd = is_Capability k_issued) as (pd & Hp & Hc).
  { eexists. split; vm_compute; reflexivity. }
  apply ok_pair in Hp. rewrite notification_same in Hp. exists pd. split; [exact Hp|]. split; [exact Hc|].
  destruct (outbox_discloses_current_capability k_s1 io_ok k_context k_id (k_now + 1) (k_now + 2) pd k_s1 Hp)
    as (_ & _ & _ & _ & Hr & _). rewrite Hr. vm_compute. reflexivity.
Defined.
End ContinuationWitness.
