(* ===== verification/EngineStream.v ===== *)
(** * Intercepted streams (src/fabric/extension/engine_stream.go, output_patch.go)

    What the consumer of an intercepted invocation pulls: every frame of the
    checked endpoint stream passes the hooks of the entered interceptors, innermost
    first, before it is released. [FrameOutput] is the projection of a frame that a
    hook may patch; [EngineStream] the stream itself. As in Stream.v the environment
    of one Next (contexts, the endpoint's answer) is an explicit input, and the
    interceptors run in the engine's world; the theorems hold for all of them and for
    every interleaving of Next and Close. *)
From Stdlib Require Import Ascii Strings.Byte ZArith Lia.
From S2P Require Import Prelude GoStrings FabricRef Framing Wire FabricModel Stream Patch Manifest ManifestProps Engine EngineProps Ledger Encodings.
#[local] Open Scope Z_scope.
#[local] Arguments str_eqb _ _ : simpl never.

(** base64.StdEncoding and its strict decoder. *)
Module StdBase64.

Definition std_char (c : ascii) : ascii := if ceq c "-" then "+"%char else if ceq c "_" then "/"%char else c.

Definition url_char (c : ascii) : option ascii :=
  if ceq c "+" then Some "-"%char else if ceq c "/" then Some "_"%char
  else if ceq c "-" || ceq c "_" then None else Some c.

Fixpoint std_text (s : string) : string :=
  match s with EmptyString => EmptyString | String c s => String (std_char c) (std_text s) end.

Fixpoint url_text (s : string) : option string :=
  match s with
  | EmptyString => Some EmptyString
  | String c s => c ← url_char c; s ← url_text s; Some (String c s)
  end.

Definition padding (n : nat) : string :=
  match (n mod 3)%nat with 1%nat => "==" | 2%nat => "=" | _ => "" end.

Definition EncodeToString (b : list byte) : string := (std_text (base64url b) ++ padding (length b))%string.

Definition strip_padding (s : string) : string :=
  if has_suffix s "==" then str_take (String.length s - 2) s
  else if has_suffix s "=" then str_take (String.length s - 1) s else s.

(** The alphabet has no padding character, so any other one is refused. *)
Definition DecodeString (s : string) : option (list byte) :=
  let s := Base64.skip_breaks s in
  if Nat.eqb (String.length s mod 4) 0 then s ← url_text (strip_padding s); Base64.decode_quanta s else None.
End StdBase64.

(** ** Frame projections (output_patch.go) *)
Module FrameOutput.
Import Ref Wire.Wire Model Stream.Stream Patch.Patch Output.

(** mime.ParseMediaType: the media type, [None] for an error. *)
Class MediaTypes := { parse_media_type : string -> option string }.

Section frames.
Context `{JsonDecoder, EnvelopeJson, PatchJson, OutputJson, MediaTypes}.

Definition frame_limits : WireLimits := mkLimits MaxFrameBytes 64 4096.

(** json.Marshal of a string does not fail. *)
Definition string_json (s : string) : list byte := default [] (marshal_string s).

Definition frameContent (frame : InvocationFrame) : list byte * string :=
  let media := parse_media_type (fr_ContentType frame) in
  let json := match media with Some m => str_eqb m "application/json" || has_suffix m "+json" | None => false end in
  let text := match media with Some m => has_prefix m "text/" | None => false end in
  if json then
    if is_ok (DecodeJSONAny (fr_Data frame) frame_limits) then (fr_Data frame, "json") else ([], "unavailable")
  else if text then
    if utf8_valid (string_of (fr_Data frame)) then (string_json (string_of (fr_Data frame)), "text") else ([], "unavailable")
  else (string_json (StdBase64.EncodeToString (fr_Data frame)), "base64").

(** fabric.DecodeJSON into a string *)
Definition decode_string (raw : list byte) : option string :=
  if is_ok (DecodeJSON any_types raw (Some 0%nat) (fun raw => outcome_of (unmarshal_string raw)))
  then unmarshal_string raw else None.

(** The switch on the encoding: the bytes a projection stands for. *)
Definition projected_data (encoding : string) (projected : list byte) : result Error (list byte) :=
  if str_eqb encoding "json" then Ok projected
  else if str_eqb encoding "text" then
    of_option (value ← decode_string projected; _ ← require (utf8_valid value); Some (bytes_of value))
      (NewError CodeInvalidMutation "Invalid text projection")
  else if str_eqb encoding "base64" then
    of_option (value ← decode_string projected; data ← StdBase64.DecodeString value;
               _ ← require (str_eqb (StdBase64.EncodeToString data) value); Some data)
      (NewError CodeInvalidMutation "Invalid binary projection")
  else Ok [].

Definition set_Data (frame : InvocationFrame) (data : list byte) : InvocationFrame :=
  mkFrame (fr_InvocationID frame) (fr_Sequence frame) (fr_Kind frame) (fr_ContentType frame) data (fr_Error frame).

Definition content_kind (k : FrameKind) : bool := match k with FrameChunk | FrameProgress => true | _ => false end.

Definition applyFrameOutput (envelope : Envelope) (id : string) (frame : InvocationFrame) (patch : list byte) :
    result Error InvocationFrame :=
  let? _ := guard (content_kind (fr_Kind frame) && negb (MaxFrameBytes <? blen (fr_Data frame)))
              (NewError CodeInvalidMutation "Immutable terminal frame or invalid original content") in
  let '(content, encoding) := frameContent frame in
  let? _ := guard (negb (str_eqb encoding "unavailable"))
              (NewError CodeInvalidMutation "Frame is not a complete mutable content projection") in
  let? projected := applyOutputJSON envelope id "content" content patch (6 * MaxFrameBytes + 2) in
  let? data := projected_data encoding projected in
  let? _ := guard (negb (MaxFrameBytes <? blen data))
              (NewError CodeInvalidMutation "Output frame exceeds size limit") in
  Ok (set_Data frame data).
End frames.
End FrameOutput.

(** ** The stream (engine_stream.go) *)
Module EngineStream.
Import Ref Wire.Wire Model Stream.Stream Patch.Patch Manifest Protocol HostWorld Output Remote Engine.Engine FrameOutput.

Section stream.
Context `{Sha256, JsonDecoder, EnvelopeJson, PatchJson, OutputJson, InterceptJson, EngineJson, MediaTypes, !Host}.
Context (e : EngineConfig).

(** The failure a hook sees. *)
Definition stream_failure (failure : CallError) : Error :=
  match failure with FabricError err => err | _ => NewError CodeProtocolError "Stream failed" end.

Definition observe_request (envelope : Envelope) (c : CompiledRegistration) (phase : string)
    (frame : option InvocationFrame) (failure : option CallError) : InterceptRequest :=
  let base := request envelope (m_Stage (r_Match (c_Registration c))) c phase in
  let '(content, encoding) := match frame with Some f => frameContent f | None => ([], "") end in
  mkRequest (ir_ProtocolVersion base) (ir_InterceptorID base) (ir_Operation base) (ir_Stage base) (ir_Phase base)
    (ir_Envelope base) content encoding (ir_Response base)
    (match failure with Some err => Some (stream_failure err) | None => frame ≫= fr_Error end) frame.

Definition observe_answer (envelope : Envelope) (c : CompiledRegistration) (answer : result CallError Decision)
    (frame : option InvocationFrame) (failure : option CallError) : option InvocationFrame * option CallError :=
  match answer with
  | Err err => (frame, Some err)
  | Ok decision =>
      if str_eqb (d_Action decision) Modify then
        match frame with
        | None => (frame, Some (FabricError (NewError CodeInvalidMutation "Missing content frame")))
        | Some f =>
            match applyFrameOutput envelope (r_ID (c_Registration c)) f (d_Patch decision) with
            | Err err => (frame, Some (FabricError err))
            | Ok projected => (Some projected, failure)
            end
        end
      else if str_eqb (d_Action decision) Reject then (frame, FabricError <$> d_Failure decision)
      else (frame, failure)
  end.

(** [entered] is the stack from its last element down. *)
Fixpoint observe_loop (ctx : Ctx) (envelope : Envelope) (entered : list CompiledRegistration) (phase : string)
    (frame : option InvocationFrame) (failure : option CallError) : M (option InvocationFrame * option CallError) :=
  match entered with
  | [] => ret (frame, failure)
  | c :: entered =>
      let current := match failure with Some _ => PhaseError | None => phase end in
      if negb (containsPhase (r_Phases (c_Registration c)) current) then observe_loop ctx envelope entered phase frame failure
      else
        let* answer := call e ctx c (observe_request envelope c current frame failure) true in
        let '(frame, failure) := observe_answer envelope c answer frame failure in
        observe_loop ctx envelope entered phase frame failure
  end.

(** The frame as the hooks left it, and the failure they end with. *)
Definition observe (ctx : Ctx) (s : InterceptedStream) (phase : string) (frame : option InvocationFrame)
    (failure : option CallError) : M (option InvocationFrame * option CallError) :=
  let* cancelled := host (ctx_err ctx) in
  let ctx := match cancelled with Some _ => Cleanup | None => ctx end in
  observe_loop ctx (is_envelope s) (reverse (is_stack s)) phase frame failure.

Definition set_checked (s : InterceptedStream) (checked : CheckedStream) : InterceptedStream :=
  mkIntercepted (is_envelope s) (is_stage s) (is_stack s) checked (is_upstream s) (is_terminal s) (is_closed s).

Definition end_stream (s : InterceptedStream) : InterceptedStream :=
  mkIntercepted (is_envelope s) (is_stage s) (is_stack s) (is_checked s) (is_upstream s) true (is_closed s).

Definition Intercepted_Close (s : InterceptedStream) : InterceptedStream :=
  mkIntercepted (is_envelope s) (is_stage s) (is_stack s) (if is_closed s then is_checked s else Stream_Close (is_checked s))
    (is_upstream s) (is_terminal s) true.

(** What one Next meets: whether a context was given, an error of the run's
    lifetime, and what the checked stream's Next meets. *)
Record StreamIO := mkStreamIO { ix_ctx : bool; ix_lifetime : option CallError; ix_next : NextIO }.

Definition frame_phase (k : FrameKind) : string :=
  match k with
  | FrameStart => PhaseResponse
  | FrameComplete => PhaseCompletion
  | FrameError => PhaseError
  | _ => PhaseChunk
  end.

Definition Intercepted_Next (s : InterceptedStream) (io : StreamIO) : M (result CallError InvocationFrame * InterceptedStream) :=
  if is_terminal s then ret (Err EOF, s)
  else if negb (ix_ctx io) then ret (Err (FabricError (NewError CodeInvalidInput "Missing stream context")), s)
  else
    match (if is_closed s then Some (ContextError false) else ix_lifetime io) with
    | Some err => ret (Err err, s)
    | None =>
        let '(answer, checked) := Stream_Next (is_checked s) (ix_next io) in
        let s := set_checked s checked in
        match answer with
        | Err err =>
            let* _ := match err with
                      | EOF => ret (None, None)
                      | _ => observe Consumer s PhaseError None (Some err)
                      end in
            ret (Err err, Intercepted_Close (end_stream s))
        | Ok frame =>
            if MaxFrameBytes <? blen (fr_Data frame) then
              ret (Err (FabricError (NewError CodeProtocolError "Source frame exceeds size limit")), Intercepted_Close (end_stream s))
            else
              let* '(observed, failure) := observe Consumer s (frame_phase (fr_Kind frame)) (Some frame) None in
              match failure with
              | Some err => ret (Err err, Intercepted_Close (end_stream s))
              | None =>
                  let frame := default frame observed in
                  ret (Ok frame, if terminal_kind (fr_Kind frame) then Intercepted_Close (end_stream s) else s)
              end
        end
    end.

(** lifetimeStream *)
Definition Lifetime_Close (s : LifetimeStream) : LifetimeStream := mkLifetime (Intercepted_Close (ls_upstream s)) true.

Definition Lifetime_Next (s : LifetimeStream) (io : StreamIO) : M (result CallError InvocationFrame * LifetimeStream) :=
  let* '(answer, upstream) := Intercepted_Next (ls_upstream s) io in
  let s := mkLifetime upstream (ls_cancelled s) in
  let ends := match answer with Err _ => true | Ok frame => terminal_kind (fr_Kind frame) end in
  ret (answer, if ends then Lifetime_Close s else s).

(** ** Consumers: any interleaving of Next and Close *)
Inductive ConsumerCall := ConsumerNext (io : StreamIO) | ConsumerClose.

Fixpoint consume_stream (s : LifetimeStream) (calls : list ConsumerCall) : M (list InvocationFrame * LifetimeStream) :=
  match calls with
  | [] => ret ([], s)
  | ConsumerClose :: calls => consume_stream (Lifetime_Close s) calls
  | ConsumerNext io :: calls =>
      let* '(answer, s) := Lifetime_Next s io in
      let* '(frames, s) := consume_stream s calls in
      ret (match answer with Ok f => f :: frames | Err _ => frames end, s)
  end.
End stream.
End EngineStream.

(** ** What the hooks do to a frame *)
Module StreamSpec.
Import Ref Wire.Wire Model Stream.Stream Patch.Patch Manifest Protocol HostWorld Output Remote Engine.Engine FrameOutput EngineStream.

Section spec.
Context `{Sha256, JsonDecoder, EnvelopeJson, PatchJson, OutputJson, InterceptJson, EngineJson, MediaTypes, !Host}.

(** A frame [f] passes the hooks of [entered], which are asked in that order, and
    leaves them as [g]: each hook of the phase gets the frame as the previous ones
    left it, and answers with a decision that does not reject it. *)
Inductive observed (envelope : Envelope) (phase : string) :
    list CompiledRegistration -> InvocationFrame -> list Event -> InvocationFrame -> Prop :=
| observed_all f : observed envelope phase [] f [] f
| observed_skip c entered f log g :
    containsPhase (r_Phases (c_Registration c)) phase = false ->
    observed envelope phase entered f log g -> observed envelope phase (c :: entered) f log g
| observed_ask c entered f d f' log g :
    containsPhase (r_Phases (c_Registration c)) phase = true -> d_Action d <> Reject ->
    (if str_eqb (d_Action d) Modify then applyFrameOutput envelope (r_ID (c_Registration c)) f (d_Patch d) = Ok f' else f' = f) ->
    observed envelope phase entered f' log g ->
    observed envelope phase (c :: entered) f (ECall c (observe_request envelope c phase (Some f) None) (Ok d) :: log) g.

(** The interceptors a log asks. *)
Definition asked (log : list Event) : list CompiledRegistration :=
  omap (fun ev => match ev with ECall c _ _ => Some c | _ => None end) log.

(** Interceptors change the bytes of content frames only, within the frame limit. *)
Definition same_frame (f g : InvocationFrame) : Prop :=
  g = set_Data f (fr_Data g) /\
  (fr_Data g = fr_Data f \/ content_kind (fr_Kind f) = true /\ blen (fr_Data g) <= MaxFrameBytes).

(** The frames the endpoint answered with. *)
Definition endpoint_frames (calls : list ConsumerCall) : list InvocationFrame :=
  omap (fun c => match c with
                 | ConsumerNext io => match nx_upstream (ix_next io) with Ok f => Some f | Err _ => None end
                 | ConsumerClose => None
                 end) calls.

#[export] Instance same_frame_preorder : PreOrder same_frame.
Proof.
  split.
  - intros []. by split; [|left].
  - intros f g h [Eg Hg] [Eh Hh]. split; [by rewrite Eh, Eg|].
    assert (fr_Kind g = fr_Kind f) as Ek by by rewrite Eg. rewrite Ek in Hh.
    destruct Hh as [->|?]; [done|by right].
Qed.

Lemma frame_output_same envelope id f patch g : applyFrameOutput envelope id f patch = Ok g -> same_frame f g.
Proof.
  unfold applyFrameOutput. intros Hp. apply rbind_Ok in Hp as ([] & Hk & Hp). rinv.
  destruct (frameContent f) as [content encoding]. rinv. split; [done|right]. split; [done|]. simpl. lia.
Qed.

Lemma observed_same envelope phase entered f log g : observed envelope phase entered f log g -> same_frame f g.
Proof.
  induction 1 as [f|c entered f log g Hc Ho IH|c entered f d f' log g Hc Hr Hf Ho IH]; [reflexivity|done|].
  etrans; [|exact IH]. destruct (str_eqb (d_Action d) Modify); [by eapply frame_output_same|by subst].
Qed.

Lemma observed_asked envelope phase entered f log g : observed envelope phase entered f log g ->
  asked log = filter (fun c => containsPhase (r_Phases (c_Registration c)) phase = true) entered.
Proof.
  induction 1 as [f|c entered f log g Hc Ho IH|c entered f d f' log g Hc Hr Hf Ho IH]; [done| |].
  - rewrite filter_cons_False; [done|by rewrite Hc].
  - rewrite filter_cons_True by done. by rewrite <- IH.
Qed.

Lemma framed_same id i f g : same_frame f g -> frame_ok id i f -> frame_ok id i g.
Proof.
  intros [Eg Hd] (E1 & E2 & E3 & E4 & E5). unfold frame_ok. rewrite Eg. simpl.
  assert (blen (fr_Data g) <= MaxFrameBytes) as Hl by (destruct Hd as [->|[_ ?]]; done).
  split_and!; try done. destruct (fr_Kind f); try done; destruct Hd as [->|[? _]]; done.
Qed.

Lemma well_framed_same id fs gs : Forall2 same_frame fs gs -> well_framed id fs -> well_framed id gs.
Proof.
  intros Hall [Hok Hterm]. split; intros i g Hg; destruct (Forall2_lookup_r _ _ _ _ _ Hall Hg) as (f & Hf & Hs).
  - eapply framed_same; [done|]. by apply Hok.
  - intros Ht. rewrite <- (Forall2_length _ _ _ Hall). apply (Hterm i f Hf). destruct Hs as [Eg _]. by rewrite Eg in Ht.
Qed.

Lemma well_framed_prefix id fs gs : well_framed id (fs ++ gs) -> well_framed id fs.
Proof.
  intros [Hok Hterm]. split; intros i f Hf.
  - apply Hok. by apply lookup_app_l_Some.
  - intros Ht. pose proof (Hterm i f (lookup_app_l_Some _ _ _ _ Hf) Ht) as E. rewrite length_app in E.
    apply lookup_lt_Some in Hf. lia.
Qed.
End spec.
End StreamSpec.

Module StreamProofs.
Import Ref Wire.Wire Model Stream.Stream Patch.Patch Manifest Protocol HostWorld Output Remote Engine.Engine FrameOutput EngineStream StreamSpec EngineLog EngineRefine.

Section proofs.
Context `{Sha256, JsonDecoder, EnvelopeJson, PatchJson, OutputJson, InterceptJson, EngineJson, MediaTypes, !Host}.
Context (e : EngineConfig).
Implicit Types (s : InterceptedStream) (l : LifetimeStream).

(** A failure stays one. *)
Lemma observe_failed ctx envelope phase entered : forall frame err,
  emits (observe_loop e ctx envelope entered phase frame (Some err)) (fun r _ => is_Some r.2).
Proof.
  induction entered as [|c entered IH]; intros frame err; cbn [observe_loop]; [by apply emits_ret|].
  case_if; [apply IH|]. eapply emits_bind; [apply call_spec|]. intros answer e1 [-> Ha].
  destruct (observe_answer envelope c answer frame (Some err)) as [frame' failure'] eqn:Eo.
  assert (is_Some failure') as [err' ->]; [|apply IH].
  unfold observe_answer in Eo. destruct answer as [d|]; [|by simplify_eq].
  case_if; [destruct frame; [destruct (applyFrameOutput _ _ _ _)|]; by simplify_eq|].
  destruct (str_eqb (d_Action d) Reject) eqn:Er; [|by simplify_eq]. apply str_eqb_eq in Er.
  destruct (accepted_reject _ _ _ Ha Er) as [f Hf]. simplify_eq. rewrite Hf. by eexists.
Qed.

(** Hooks that end without a failure let the frame pass. *)
Lemma observe_passes ctx envelope phase entered : forall f,
  emits (observe_loop e ctx envelope entered phase (Some f) None)
    (fun r log => r.2 = None -> exists g, r.1 = Some g /\ observed envelope phase entered f log g).
Proof.
  induction entered as [|c entered IH]; intros f; cbn [observe_loop].
  { apply emits_ret. intros _. exists f. split; [done|constructor]. }
  destruct (containsPhase (r_Phases (c_Registration c)) phase) eqn:Hc; cbn [negb].
  2:{ eapply emits_impl; [apply IH|]. intros r log Hr Hn. destruct (Hr Hn) as (g & ? & ?). exists g. split; [done|by constructor]. }
  eapply emits_bind; [apply call_spec|]. intros answer e1 [-> Ha]. simpl app.
  destruct (observe_answer envelope c answer (Some f) None) as [frame' failure'] eqn:Eo.
  destruct failure' as [err|].
  { eapply emits_impl; [apply observe_failed|]. intros r log [? Hr]. by rewrite Hr. }
  unfold observe_answer in Eo. destruct answer as [d|]; [|done].
  assert (exists f', frame' = Some f' /\ d_Action d <> Reject /\
    (if str_eqb (d_Action d) Modify then applyFrameOutput envelope (r_ID (c_Registration c)) f (d_Patch d) = Ok f' else f' = f))
    as (f' & -> & Hr & Hf').
  { destruct (str_eqb (d_Action d) Modify) eqn:Em.
    - apply str_eqb_eq in Em. rewrite Em. destruct (applyFrameOutput _ _ _ _) as [p|]; simplify_eq. by exists p.
    - exists f. destruct (str_eqb (d_Action d) Reject) eqn:Er.
      + apply str_eqb_eq in Er. destruct (accepted_reject _ _ _ Ha Er) as [x Hx]. rewrite Hx in Eo. done.
      + simplify_eq. split_and!; try done. intros Ea. by rewrite Ea in Er. }
  eapply emits_impl; [apply IH|]. intros r log Hr' Hn. destruct (Hr' Hn) as (g & ? & ?). exists g. split; [done|by econstructor].
Qed.

Lemma next_upstream cs io f cs' : Stream_Next cs io = (Ok f, cs') -> nx_upstream io = Ok f.
Proof.
  unfold Stream_Next. repeat (case_if; [done|]). destruct (lifetime_err cs io); [done|].
  destruct (nx_upstream io) as [g|]; [|done]. destruct (nx_call io); [done|].
  unfold check_frame, stream_fail. repeat (case_if; [done|]). destruct (check_kind g); [|done].
  case_if; [done|]. by intros [= -> _].
Qed.

(** The state of a stream that has released [fs] for the endpoint's [origs]. *)
Definition intercepted_inv (id : string) (origs fs : list InvocationFrame) s : Prop :=
  exists extra, stream_inv id (origs ++ extra) (is_checked s) /\ Forall2 same_frame origs fs /\
    (is_terminal s = false -> extra = []) /\ (is_terminal s = true -> is_closed s = true) /\
    (is_closed s = true -> cs_closed (is_checked s) = true) /\
    (forall f, last fs = Some f -> terminal_kind (fr_Kind f) = true -> is_terminal s = true).

Lemma inv_ends id origs fs s extra : stream_inv id (origs ++ extra) (is_checked s) -> Forall2 same_frame origs fs ->
  (is_closed s = true -> cs_closed (is_checked s) = true) -> intercepted_inv id origs fs (Intercepted_Close (end_stream s)).
Proof.
  intros Hs Hf Hc. exists extra. simpl. destruct (is_closed s) eqn:Ec; split_and!; try done. by apply inv_close.
Qed.

Lemma inv_closed id origs fs s : intercepted_inv id origs fs s -> intercepted_inv id origs fs (Intercepted_Close s).
Proof.
  intros (extra & Hs & Hf & Ht & Htc & Hc & Hl). exists extra. simpl.
  destruct (is_closed s) eqn:Ec; split_and!; try done. by apply inv_close.
Qed.

(** One Next: what it releases, and the state it leaves. *)
Definition next_spec s (io : StreamIO) (r : result CallError InvocationFrame) s' (log : list Event) : Prop :=
  is_envelope s' = is_envelope s /\ is_stack s' = is_stack s /\
  (is_terminal s = true -> s' = s /\ exists err, r = Err err) /\
  match r with
  | Ok g => exists f, nx_upstream (ix_next io) = Ok f /\
              observed (is_envelope s) (frame_phase (fr_Kind f)) (reverse (is_stack s)) f log g /\
              forall id origs fs, intercepted_inv id origs fs s -> intercepted_inv id (origs ++ [f]) (fs ++ [g]) s'
  | Err _ => (log = [] /\ s' = s \/ is_terminal s' = true) /\
             forall id origs fs, intercepted_inv id origs fs s -> intercepted_inv id origs fs s'
  end.

Lemma next_checked s io r checked id origs fs : intercepted_inv id origs fs s -> is_terminal s = false -> is_closed s = false ->
  Stream_Next (is_checked s) (ix_next io) = (r, checked) ->
  Forall2 same_frame origs fs /\ stream_inv id (match r with Ok f => origs ++ [f] | Err _ => origs end) checked.
Proof.
  intros (extra & Hs & Hf & Ht & _) Hterm Hcl Hn. rewrite (Ht Hterm), app_nil_r in Hs. split; [done|].
  pose proof (next_inv _ _ _ _ _ _ Hs Hn) as Hi. by destruct r.
Qed.

Lemma next_ok s io : emits (Intercepted_Next e s io) (fun r log => next_spec s io r.1 r.2 log).
Proof.
  unfold Intercepted_Next, next_spec. destruct (is_terminal s) eqn:Ht.
  { apply emits_ret. simpl. split_and!; eauto. }
  case_if; [apply emits_ret; simpl; split_and!; eauto|].
  destruct (is_closed s) eqn:Hc; [apply emits_ret; simpl; split_and!; eauto|].
  destruct (ix_lifetime io); [apply emits_ret; simpl; split_and!; eauto|].
  destruct (Stream_Next (is_checked s) (ix_next io)) as [answer checked] eqn:Hn.
  assert (forall id origs fs extra, stream_inv id (origs ++ extra) checked -> Forall2 same_frame origs fs ->
    intercepted_inv id origs fs (Intercepted_Close (end_stream (set_checked s checked)))) as Hend.
  { intros id origs fs extra Hs Hf. eapply inv_ends; [done..|]. simpl. by rewrite Hc. }
  destruct answer as [f|err].
  - assert (forall id origs fs, intercepted_inv id origs fs s ->
      intercepted_inv id origs fs (Intercepted_Close (end_stream (set_checked s checked)))) as Hrej.
    { intros id origs fs Hi. destruct (next_checked _ _ _ _ _ _ _ Hi Ht Hc Hn) as [Hf Hs]. by eapply Hend. }
    case_if; [apply emits_ret; simpl; split_and!; eauto; done|].
    apply emits_bind with (P := fun r log => r.2 = None -> exists g, r.1 = Some g /\
      observed (is_envelope s) (frame_phase (fr_Kind f)) (reverse (is_stack s)) f log g).
    { unfold observe. apply emits_host_bind. intros cancelled. apply observe_passes. }
    intros [observed' failure] log Ho. simpl in Ho. destruct failure as [err|].
    { apply emits_ret. simpl. split_and!; eauto; done. }
    destruct (Ho eq_refl) as (g & -> & Hg). apply emits_ret. rewrite app_nil_r. simpl.
    assert (fr_Kind g = fr_Kind f) as Ek by (destruct (observed_same _ _ _ _ _ _ Hg) as [Eg _]; by rewrite Eg).
    split_and!; [by case_if..|done|]. exists f. split_and!; [by eapply next_upstream|done|].
    intros id origs fs Hi. destruct (next_checked _ _ _ _ _ _ _ Hi Ht Hc Hn) as [Hf Hs].
    assert (Forall2 same_frame (origs ++ [f]) (fs ++ [g])) as Hf'.
    { apply Forall2_app; [done|]. constructor; [by eapply observed_same|constructor]. }
    destruct (terminal_kind (fr_Kind g)) eqn:Ek'; [apply (Hend _ _ _ []); [by rewrite app_nil_r|done]|].
    exists []. rewrite app_nil_r. simpl. rewrite Ht, Hc. split_and!; try done.
    intros f0. rewrite last_snoc. intros [= <-] E1. by rewrite E1 in Ek'.
  - apply emits_bind with (P := fun _ _ => True).
    { destruct err; try (apply emits_ret; done); unfold observe; apply emits_host_bind; intros cancelled;
        (eapply emits_impl; [apply observe_failed|done]). }
    intros _ log _. apply emits_ret. rewrite app_nil_r. simpl. split_and!; eauto; [done|].
    intros id origs fs Hi. destruct (next_checked _ _ _ _ _ _ _ Hi Ht Hc Hn) as [Hf Hs]. apply (Hend _ _ _ []); [by rewrite app_nil_r|done].
Qed.

(** Lifetime_Next adds closing only. *)
Definition lifetime_spec l (io : StreamIO) (r : result CallError InvocationFrame) l' (log : list Event) : Prop :=
  exists s', next_spec (ls_upstream l) io r s' log /\ (ls_upstream l' = s' \/ ls_upstream l' = Intercepted_Close s').

Lemma lifetime_next_ok l io : emits (Lifetime_Next e l io) (fun r log => lifetime_spec l io r.1 r.2 log).
Proof.
  unfold Lifetime_Next. eapply emits_bind; [apply next_ok|]. intros [answer s'] log Hs. apply emits_ret.
  rewrite app_nil_r. exists s'. split; [done|]. simpl. case_if; auto.
Qed.

Lemma consume_ok calls : forall l,
  emits (consume_stream e l calls) (fun r _ =>
    (is_terminal (ls_upstream l) = true -> r.1 = [] /\ is_terminal (ls_upstream r.2) = true) /\
    forall id origs fs, intercepted_inv id origs fs (ls_upstream l) ->
      exists more, sublist more (endpoint_frames calls) /\ intercepted_inv id (origs ++ more) (fs ++ r.1) (ls_upstream r.2)).
Proof.
  induction calls as [|[io|] calls IH]; intros l; cbn [consume_stream].
  - apply emits_ret. split; [done|]. intros id origs fs Hi. exists []. simpl. rewrite !app_nil_r. by split; [constructor|].
  - eapply emits_bind; [apply lifetime_next_ok|]. intros [answer l'] log (s' & (_ & _ & Hterm & Hnext) & Hl). simpl in Hnext, Hl, Hterm.
    eapply emits_bind; [apply IH|]. intros [frames l''] log' [Hsil Hinv]. simpl in Hsil, Hinv. apply emits_ret. simpl.
    assert (forall id origs fs, intercepted_inv id origs fs s' -> intercepted_inv id origs fs (ls_upstream l')) as Hcl.
    { intros id origs fs Hi. destruct Hl as [->| ->]; [done|by apply inv_closed]. }
    split.
    + intros Ht. destruct (Hterm Ht) as [-> [err ->]]. apply Hsil. by destruct Hl as [->| ->].
    + intros id origs fs Hi. destruct answer as [g|err].
      * destruct Hnext as (f & Hup & _ & Hi'). destruct (Hinv _ _ _ (Hcl _ _ _ (Hi' _ _ _ Hi))) as (more & Hsub & Hm).
        exists (f :: more). rewrite <- !app_assoc in Hm. split; [|done]. unfold endpoint_frames. simpl. rewrite Hup. by constructor.
      * destruct Hnext as [_ Hi']. destruct (Hinv _ _ _ (Hcl _ _ _ (Hi' _ _ _ Hi))) as (more & Hsub & Hm).
        exists more. split; [|done]. etrans; [exact Hsub|]. unfold endpoint_frames. simpl. destruct (nx_upstream (ix_next io)); [by constructor|done].
  - eapply emits_impl; [apply IH|]. intros r log [Hsil Hinv]. split; [done|]. intros id origs fs Hi. by apply Hinv, inv_closed.
Qed.
End proofs.
End StreamProofs.

Module EngineStreamProps.
Import Ref Wire.Wire Model Stream.Stream Patch.Patch Manifest Protocol HostWorld Output Remote Engine.Engine FrameOutput EngineStream StreamSpec EngineLog EngineRefine StreamProofs EngineProps.EngineProps.

Section props.
Context `{Sha256, JsonDecoder, EnvelopeJson, PatchJson, OutputJson, InterceptJson, EngineJson, MediaTypes, !Host}.
Context (e : EngineConfig).

(** The stream an execution returns. *)
Definition fresh_stream (envelope : Envelope) (stage : string) (stack : list CompiledRegistration) (checked : CheckedStream)
    (upstream : Upstream) : LifetimeStream :=
  mkLifetime (mkIntercepted envelope stage stack checked upstream false false) false.

(** C9. Intercepted streams stay well framed. Whatever the endpoint delivers,
    whatever the interceptors decide, and however the consumer interleaves Next and
    Close, the frames it receives from an intercepted stream are correctly framed:
    the invocation's identity, sequence numbers 0, 1, 2, ..., one start, bounded data,
    nothing after a terminal frame. They are frames of the endpoint, in its order,
    changed at most in the bytes of chunk and progress frames. The endpoint's stream is
    closed at most once, exactly once when the stream has ended, and an ended stream
    releases nothing more. *)
Theorem intercepted_streams_stay_well_framed envelope stage stack checked upstream calls w log fs l w' log' :
  NewCheckedStream (v_ID envelope) = Ok checked ->
  consume_stream e (fresh_stream envelope stage stack checked upstream) calls (w, log) = ((fs, l), (w', log')) ->
  well_framed (v_ID envelope) fs /\
  (exists origs, sublist origs (endpoint_frames calls) /\ Forall2 same_frame origs fs) /\
  (cs_closes (is_checked (ls_upstream l)) <= 1)%nat /\
  (is_terminal (ls_upstream l) = true -> cs_closes (is_checked (ls_upstream l)) = 1%nat) /\
  (forall f, last fs = Some f -> terminal_kind (fr_Kind f) = true -> is_terminal (ls_upstream l) = true) /\
  (is_terminal (ls_upstream l) = true -> forall more w2 log2, (consume_stream e l more (w2, log2)).1.1 = []).
Proof.
  intros Hnew Hrun. apply rbind_Ok in Hnew as ([] & _ & [= <-]).
  destruct (consume_ok e calls (fresh_stream envelope stage stack (mkStream (v_ID envelope) 0 false false 0) upstream) w log)
    as (w1 & evs & _ & _ & Hinv). rewrite Hrun in Hinv. simpl in Hinv.
  destruct (Hinv (v_ID envelope) [] []) as (origs & Hsub & extra & Hs & Hf & Ht & Htc & Hc & Hl).
  { exists []. simpl. split; [apply inv_new|done]. }
  simpl in *. pose proof Hs as (_ & _ & _ & _ & Hcloses & Hw & _). split_and!.
  - eapply well_framed_same; [exact Hf|]. by eapply well_framed_prefix.
  - by exists origs.
  - rewrite Hcloses. case_match; lia.
  - intros Hterm. by rewrite Hcloses, (Hc (Htc Hterm)).
  - done.
  - intros Hterm more w2 log2. destruct (consume_ok e more l w2 log2) as (w3 & evs3 & _ & Hsil & _). by apply Hsil.
Qed.

(** C10. No frame escapes a hook. A frame the consumer receives has been seen, as the
    hooks before left it, by every entered interceptor with a hook for its kind, from
    the last entered one to the first, each once, and none of them rejected it; what
    is released is the endpoint's frame with their accepted modifications. A Next that
    releases nothing either asked nobody and changed nothing but closing, or has ended the
    stream. *)
Theorem no_frame_escapes_a_hook (l : LifetimeStream) (io : StreamIO) w r l' w' log :
  Lifetime_Next e l io (w, []) = ((r, l'), (w', log)) ->
  match r with
  | Ok g => exists f, nx_upstream (ix_next io) = Ok f /\
      observed (is_envelope (ls_upstream l)) (frame_phase (fr_Kind f)) (reverse (is_stack (ls_upstream l))) f log g /\
      asked log = filter (fun c => containsPhase (r_Phases (c_Registration c)) (frame_phase (fr_Kind f)) = true)
                    (reverse (is_stack (ls_upstream l)))
  | Err _ => log = [] /\ ls_upstream l' ∈ [ls_upstream l; Intercepted_Close (ls_upstream l)] \/ is_terminal (ls_upstream l') = true
  end.
Proof.
  intros Hr. eapply emits_run in Hr; [|apply lifetime_next_ok]. destruct Hr as (s' & (_ & _ & _ & Hn) & Hl). simpl in Hn, Hl.
  destruct r as [g|err].
  - destruct Hn as (f & Hup & Ho & _). exists f. split_and!; [done..|]. by eapply observed_asked.
  - destruct Hn as [[[-> ->]|Ht] _]; [left|right].
    + split; [done|]. destruct Hl as [->| ->]; set_solver.
    + by destruct Hl as [->| ->].
Qed.
End props.
End EngineStreamProps.

Module EngineStreamWitness.
Import Ref Wire.Wire Model Stream.Stream Patch.Patch Manifest Protocol HostWorld Output Remote Engine.Engine FrameOutput EngineStream StreamSpec EngineLog EngineStreamProps.
Import RefWitness Wire.WireWitness FabricModel.ModelWitness PatchWitness PlanWitness EngineProps.EngineWitness.

(** The decision of an interceptor replaces the content, the converted patch the payload. *)
#[export] Instance s_patch_json : PatchJson :=
  {| decode_tree := d_tree;
     decode_operations := fun raw => Some [if bool_decide (raw = [x5b]) then <["path" := bytes_of "/content"]> d_operation else d_operation];
     unmarshal_string := fun raw => Some (string_of raw); patch_single := d_patch |}.
#[export] Instance s_output_json : OutputJson :=
  {| marshal_string := fun s => Some (bytes_of s); marshal_operations := fun _ => Some [x7b] |}.
#[export] Instance s_media : MediaTypes := {| parse_media_type := fun s => Some s |}.

Definition s_hook : CompiledRegistration :=
  mkCompiled "acme.guard" (mkRegistration "acme.guard.hook" 0 [] [] (mkMatch "invoke" "invoke.dispatch" [] [] [] [] [])
    "source" true [PhaseChunk; PhaseCompletion] 10 FailClosed false "binding").
Definition s_envelope : Envelope := d_envelope (bytes_of "{}").
Definition s_frame (n : Z) (k : FrameKind) (data : list byte) : InvocationFrame :=
  mkFrame (v_ID s_envelope) n k "application/json" data None.
Definition s_checked : CheckedStream := mkStream (v_ID s_envelope) 0 false false 0.
Definition s_stream : LifetimeStream := fresh_stream s_envelope "invoke.dispatch" [s_hook] s_checked tt.
Definition s_next (f : InvocationFrame) : ConsumerCall := ConsumerNext (mkStreamIO true None (mkNextIO true None (Ok f) None)).
Definition s_calls : list ConsumerCall :=
  [s_next (s_frame 0 FrameStart []); s_next (s_frame 1 FrameChunk (bytes_of "{}")); s_next (s_frame 2 FrameComplete []);
   ConsumerClose; s_next (s_frame 3 FrameChunk [])].
Definition s_consume := consume_stream w_engine s_stream s_calls ([w_modify; continue_decision], []).

(** The chunk is modified, the completion is observed. *)
Lemma s_frames : fr_Data <$> s_consume.1.1 = [[]; bytes_of "[]"; []].
Proof. vm_compute. reflexivity. Defined.

Lemma intercepted_streams_witness : well_framed (v_ID s_envelope) s_consume.1.1 /\ s_consume.1.1 <> [].
Proof.
  assert (s_consume.1.1 <> []) as Hne by (intros Hn; pose proof s_frames as Hf; rewrite Hn in Hf; discriminate Hf).
  split; [|exact Hne]. unfold s_consume. destruct (consume_stream w_engine s_stream s_calls _) as [[fs l] [w' log']] eqn:Ec.
  exact (proj1 (intercepted_streams_stay_well_framed w_engine s_envelope "invoke.dispatch" [s_hook] s_checked tt s_calls
    [w_modify; continue_decision] [] fs l w' log' eq_refl Ec)).
Defined.

Definition s_started : LifetimeStream := (consume_stream w_engine s_stream [s_next (s_frame 0 FrameStart [])] ([], [])).1.2.
Definition s_pulled := Lifetime_Next w_engine s_started
  (mkStreamIO true None (mkNextIO true None (Ok (s_frame 1 FrameChunk (bytes_of "{}"))) None)) ([w_modify], []).

Lemma no_frame_escapes_witness : exists g, s_pulled.1.1 = Ok g /\ asked s_pulled.2.2 = [s_hook].
Proof.
  assert (is_ok s_pulled.1.1 = true) as Hok by (vm_compute; reflexivity).
  unfold s_pulled in *. destruct (Lifetime_Next w_engine s_started _ _) as [[[g|err] l'] [w' log]] eqn:En; [|discriminate Hok].
  exists g. split; [reflexivity|].
  destruct (no_frame_escapes_a_hook w_engine s_started _ _ _ _ _ _ En) as (f & Hup & _ & Hasked).
  injection Hup as <-. change (asked log = [s_hook]). rewrite Hasked. vm_compute. reflexivity.
Defined.
End EngineStreamWitness.
