(* ===== verification/Recorder.v ===== *)
(** * Durable deferrals (src/fabric/node/continuations)

    The recorder composes the continuation store with the extension engine: [Save]
    persists a deferred pipeline for the engine, [Resume] claims it, restores the
    original caller, runs the rest of the pipeline once and settles the claim with
    verified evidence. Its trusted ports are the class [Ports]; the node's state
    joins the host's world with the store, and the hosts of the engine ([stage_host],
    [resume_host]) are built from it, so that deferring and resuming really read and
    write the store. *)
From Stdlib Require Import Ascii Strings.Byte ZArith Lia.
From S2P Require Import Prelude GoStrings FabricRef Framing Wire FabricModel Stream Patch Manifest ManifestProps Engine EngineProps.
From S2P Require Import SqlTx Durable Continuation ContinuationInv ContinuationProps.
#[local] Open Scope Z_scope.
#[local] Arguments str_eqb _ _ : simpl never.

(** ** Data, ports and the state of a node *)
Module Node.
Import Ref Wire.Wire Model Stream.Stream Patch.Patch Manifest Protocol HostWorld Output Remote Engine.Engine.

Notation Store := Continuation.Store (only parsing).
Notation Snapshot := Continuation.Snapshot (only parsing).
Notation Receipt := Continuation.Receipt (only parsing).

Record PrivateNotification := mkNotice {
  pn_ID : string; pn_Capability : string; pn_Revision : Z; pn_ExpiresAt : Time; pn_Recipients : list Principal }.

Record HistoricalAdmission := mkAdmission {
  ha_SnapshotDigest : string; ha_Principal : Principal; ha_Audience : string; ha_OriginalBytes : list byte;
  ha_Provenance : Provenance; ha_Claim : Receipt; ha_DeferredProof : list byte; ha_SnapshotCommitment : list byte;
  ha_PlanRevision : string }.

Inductive EvidenceKind := TargetUnary | TargetTerminal | TargetFailure | NoTarget | Abandoned.

(** [ev_Failure] is the list of the errors joined in the failure, empty for none. *)
Record Evidence := mkEvidence {
  ev_Kind : EvidenceKind; ev_InvocationID : string; ev_Frame : option InvocationFrame; ev_Response : list byte;
  ev_Failure : list CallError }.

Record persistedState := mkPersisted {
  pst_Format : string; pst_State : PipelineState; pst_Deferral : Deferral; pst_Registration : CompiledRegistration;
  pst_Provenance : Provenance }.

(** ResumeClaim, as the resume authority sees it. *)
Record ResumeClaim := mkResumeClaim { rl_snapshot : Snapshot; rl_receipt : Receipt }.

(** encoding/json of a persistedState. *)
Class RecorderJson := {
  marshal_persisted : persistedState -> option (list byte);
  decode_persisted : list byte -> option persistedState;
}.

Definition persisted_types : list TypeDecl :=
  envelope_types ++
  [ (* 11: *persistedState *) mkType (KPointer 12%nat) false false;
    (* 12: persistedState *)
    mkType (KStruct [field "Format" "format" 2; field "State" "state" 13; field "Deferral" "deferral" 14;
                     field "Registration" "registration" 15; field "Provenance" "provenance" 18]) false false;
    (* 13: PipelineState *)
    mkType (KStruct
      [field "Format" "format" 2; field "PlanRevision" "planRevision" 2; field "Envelope" "envelope" 1;
       field "Stage" "stage" 2; field "Placement" "placement" 2; field "Cursor" "cursor" 2; field "Chain" "chain" 8;
       field "Entered" "entered" 8; field "Redirects" "redirects" 2;
       field "VisitedTargets" "visitedTargets,omitempty" 8; field "DeferralID" "deferralId,omitempty" 2]) false false;
    (* 14: Deferral *)
    mkType (KStruct [field "ExpiresAt" "expiresAt" 5; field "ResumePrincipals" "resumePrincipals" 8;
                     field "Durable" "durable" 2]) false false;
    (* 15: CompiledRegistration *)
    mkType (KStruct [field "ExtensionID" "" 2; field "Registration" "" 16]) false false;
    (* 16: Registration *)
    mkType (KStruct
      [field "ID" "id" 2; field "Priority" "priority" 2; field "Before" "before,omitempty" 8;
       field "After" "after,omitempty" 8; field "Match" "match" 17; field "Placement" "placement" 2;
       field "NeedsPlaintext" "needsPlaintext" 2; field "Phases" "phases" 8;
       field "TimeoutMillis" "timeoutMillis" 2; field "FailureMode" "failureMode,omitempty" 2;
       field "AllowSelfRecursion" "allowSelfRecursion,omitempty" 2; field "Binding" "binding" 2]) false false;
    (* 17: Match *)
    mkType (KStruct
      [field "Operation" "operation" 2; field "Stage" "stage" 2; field "SourceKinds" "sourceKinds,omitempty" 8;
       field "TargetKinds" "targetKinds,omitempty" 8; field "TargetProtocols" "targetProtocols,omitempty" 8;
       field "Domains" "domains,omitempty" 8; field "Tags" "tags,omitempty" 8]) false false;
    (* 18: Provenance *)
    mkType (KStruct
      [field "Origin" "" 2; field "ParentID" "" 2; field "Ancestry" "" 8; field "Hops" "" 2;
       field "ExtensionChain" "" 8; field "TriggerLineage" "" 8]) false false ].

(** The trusted ports of the composition, besides those of the engine. The
    resume authority is split at its callback: which context it enters the callback
    with, if it does, and what it returns, having called it again or not. *)
Class Ports `{Host} := {
  tx_io : World -> TxIO * World;
  randomness : World -> Continuation.Rand * World;
  provide_plan : World -> result CallError (option Plan * list byte) * World;
  ResolvePrincipal : string -> World -> result CallError Principal * World;
  SaveDeferredAdmission : ExecutionContext -> Snapshot -> World -> result CallError (list byte) * World;
  Notify : PrivateNotification -> World -> option CallError * World;
  RestoreOriginal : HistoricalAdmission -> World -> result CallError ExecutionContext * World;
  VerifyEvidence : ExecutionContext -> Evidence -> World -> result CallError Continuation.Outcome * World;
  authority_enters : ExecutionContext -> ExecutionContext -> ResumeClaim -> World -> option ExecutionContext * World;
  authority_returns : option CallError -> World -> (bool * option CallError) * World;
  release_claim : World -> unit * World;
}.

Record Recorder := mkRecorder {
  rec_Audience : string; rec_SnapshotLimits : WireLimits; rec_planRevision : string; rec_pipeline : list byte }.

Definition invalid (message : string) : Error := NewError CodeInvalidInput message.
Definition stale : Error := NewError CodeStaleContinuation "Continuation configuration or authority is stale".
Definition unauthenticated (message : string) : Error := NewError CodeUnauthenticated message.

Section node.
Context `{Sha256, JsonDecoder, EnvelopeJson, PatchJson, OutputJson, InterceptJson, EngineJson, RecorderJson}.
Context `{Durable.DataProtector, Continuation.ContinuationJson}.
Context `{!Host, !Ports}.

(** settler: the mutable settlement of one resumption. [sl_release] tells that
    a release function is installed, [sl_released] that releaseOnce has run. *)
Record Settler := mkSettler {
  sl_resumer : ExecutionContext; sl_claim : Receipt; sl_caller : ExecutionContext; sl_invocationID : string;
  sl_settled : bool; sl_release : bool; sl_released : bool }.

(** The state of the node: the host's world, the continuation store, and the
    settlement and [invoked] variable of the resumption that runs. *)
Record NodeWorld := mkNode {
  nw_world : World; nw_store : Store; nw_settler : Settler; nw_invoked : bool }.

Definition St (A : Type) : Type := NodeWorld -> A * NodeWorld.
Definition sret {A} (a : A) : St A := fun n => (a, n).
Definition sbind {A B} (m : St A) (k : A -> St B) : St B := fun n => let '(a, n') := m n in k a n'.

(** A port call. *)
Definition port {A} (f : World -> A * World) : St A :=
  fun n => let '(a, w) := f (nw_world n) in (a, mkNode w (nw_store n) (nw_settler n) (nw_invoked n)).

Definition on_store {A} (f : Store -> A * Store) : St A :=
  fun n => let '(a, s) := f (nw_store n) in (a, mkNode (nw_world n) s (nw_settler n) (nw_invoked n)).

Definition set_settler (f : Settler -> Settler) : St unit :=
  fun n => (tt, mkNode (nw_world n) (nw_store n) (f (nw_settler n)) (nw_invoked n)).
Definition get_settler : St Settler := fun n => (nw_settler n, n).
Definition set_invoked (b : bool) : St unit := fun n => (tt, mkNode (nw_world n) (nw_store n) (nw_settler n) b).
Definition get_invoked : St bool := fun n => (nw_invoked n, n).
End node.
End Node.

Notation "'let^' x ':=' m 'in' k" := (Node.sbind m (fun x => k))
  (at level 10, x name, m at level 100, k at level 200) : go_scope.
Notation "'let^' ' p ':=' m 'in' k" := (Node.sbind m (fun p => k))
  (at level 10, p strict pattern, m at level 100, k at level 200) : go_scope.

(** ** Operations (recorder.go, resume.go, configured_plan.go, deferred_admission.go) *)
Module Recorder.
Import Ref Wire.Wire Model Stream.Stream Patch.Patch Manifest Protocol HostWorld Output Remote Engine.Engine Node.

Section recorder.
Context `{Sha256, JsonDecoder, EnvelopeJson, PatchJson, OutputJson, InterceptJson, EngineJson, RecorderJson}.
Context `{Durable.DataProtector, Continuation.ContinuationJson}.
Context `{!Host, !Ports}.

Definition hash (b : list byte) : string := hex_encode (sha256 b).

(** A store transaction, with the faults, randomness and time it meets. *)
Definition transact {A} (f : Store -> TxIO -> Continuation.Rand -> Time -> A * Store) : St A :=
  let^ io := port tx_io in
  let^ rnd := port randomness in
  let^ now := port clock in
  on_store (fun s => f s io rnd now).

(** [err] is ctx.Err(), which is nil for a background context. *)
Definition configuredPlan (err : St (option CallError)) (limits : WireLimits) : St (result CallError (Plan * list byte)) :=
  let^ ended := err in
  if bool_decide (is_Some ended) then sret (Err (FabricError (invalid "Missing configured plan provider")))
  else
    let^ provided := port provide_plan in
    sret match provided with
    | Err err => Err err
    | Ok (None, _) => Err (FabricError (invalid "Incomplete configured plan snapshot"))
    | Ok (Some plan, evidence) =>
        if str_eqb (p_revision plan) "" || (blen evidence =? 0) then
          Err (FabricError (invalid "Incomplete configured plan snapshot"))
        else if negb (is_ok (DecodeJSONAny evidence limits)) then
          Err (FabricError (invalid "Invalid bounded configured plan evidence"))
        else Ok (plan, evidence)
    end.

Definition no_limits (l : WireLimits) : bool := (MaxBytes l =? 0) && (MaxDepth l =? 0) && (MaxMembers l =? 0).

(** New, with all ports installed. *)
Definition New (audience : string) (settlementTimeout : Duration) (limits : WireLimits) : St (result CallError Recorder) :=
  if str_eqb audience "" || (settlementTimeout <=? 0) || (time_Minute <? settlementTimeout) then
    sret (Err (FabricError (invalid "Incomplete trusted continuation composition")))
  else
    let limits := if no_limits limits then mkLimits (8 * 2 ^ 20) 64 65536 else limits in
    if (MaxBytes limits <=? 0) || (MaxDepth limits <=? 0) || (MaxMembers limits <=? 0) then
      sret (Err (FabricError (invalid "Invalid private snapshot limits")))
    else
      let^ plan := configuredPlan (sret None) limits in
      sret match plan with
      | Err err => Err err
      | Ok (plan, evidence) => Ok (mkRecorder audience limits (p_revision plan) evidence)
      end.

Context (r : Recorder).

(** The configured plan is still the one the recorder was built for. *)
Definition current_plan (ctx : Ctx) : St (result CallError bool) :=
  let^ current := configuredPlan (port (ctx_err ctx)) (rec_SnapshotLimits r) in
  sret match current with
  | Err err => Err err
  | Ok (plan, evidence) => Ok (str_eqb (p_revision plan) (rec_planRevision r) && bool_decide (evidence = rec_pipeline r))
  end.

Fixpoint resolve_principals (refs : list string) : St (option (list Principal)) :=
  match refs with
  | [] => sret (Some [])
  | ref :: refs =>
      let^ p := port (ResolvePrincipal ref) in
      match p with
      | Err _ => sret None
      | Ok p => if negb (str_eqb (p_Ref p) ref) then sret None
                else let^ rest := resolve_principals refs in sret (rest ← rest; Some (p :: rest))
      end
  end.

Definition node_format : string := "pagnet.node-continuation.v1".
Definition plan_version : string := "pagnet.extension-plan.v1".

(** fabric.DecodeJSONWithLimits into a persistedState *)
Definition decode_stored (raw : list byte) : option persistedState :=
  if is_ok (DecodeJSONWithLimits persisted_types raw (Some 11%nat) (fun raw => outcome_of (decode_persisted raw))
              (rec_SnapshotLimits r))
  then decode_persisted raw else None.

Definition decode_snapshot (raw : list byte) : option Snapshot :=
  if is_ok (DecodeJSONWithLimits Continuation.snapshot_types raw (Some 0%nat)
              (fun raw => outcome_of (Continuation.unmarshal_snapshot raw)) (rec_SnapshotLimits r))
  then Continuation.unmarshal_snapshot raw else None.

Definition set_DeferredAdmission (v : Snapshot) (proof : list byte) : Snapshot :=
  Continuation.mkSnapshot (Continuation.s_Format v) (Continuation.DeferralID v) (Continuation.OriginalEnvelope v)
    (Continuation.OriginalPrincipal v) (Continuation.AllowedResumePrincipals v) (Continuation.PlanRevision v)
    (Continuation.PlanVersion v) (Continuation.s_PlanDigest v) (Continuation.Pipeline v) (Continuation.s_State v) proof.

Definition SnapshotCommitment (v : Snapshot) : option (list byte) :=
  raw ← Continuation.marshal_snapshot (set_DeferredAdmission v []); Some (sha256 raw).

(** The end of Save: the admission proof, the durable creation, the notification. *)
Definition save_snapshot (caller : ExecutionContext) (snapshot : Snapshot) (expires : Time) (allowed : list Principal) :
    St (string * option CallError) :=
  match raw ← Continuation.marshal_snapshot snapshot; decode_snapshot raw with
  | None => sret ("", Some (FabricError (invalid "Invalid private deferred snapshot")))
  | Some owned =>
      let^ proof := port (SaveDeferredAdmission caller owned) in
      match proof with
      | Err err => sret ("", Some err)
      | Ok proof =>
          if (blen proof =? 0) || (64 * 2 ^ 10 <? blen proof) then
            sret ("", Some (FabricError (invalid "Missing bounded deferred admission proof")))
          else
            let snapshot := set_DeferredAdmission snapshot proof in
            let^ issued := transact (fun s io rnd now => Continuation.Create s io rnd caller snapshot expires now) in
            match issued with
            | Err err => sret ("", Some (FabricError err))
            | Ok issued =>
                let id := Continuation.is_ID issued in
                if negb (Continuation.is_Created issued) then sret (id, None)
                else
                  let^ failed := port (Notify (mkNotice id (Continuation.is_Capability issued)
                                                 (Continuation.is_CapabilityRevision issued) expires allowed)) in
                  sret (id, match failed with
                            | Some _ => Some (FabricError (NewError CodeTargetUnavailable
                                "Private continuation delivery failed; pending capability can be rotated"))
                            | None => None
                            end)
            end
      end
  end.

Definition Save (ctx : Ctx) (caller : ExecutionContext) (original : list byte) (state : PipelineState) (deferral : Deferral)
    (registration : CompiledRegistration) : St (string * option CallError) :=
  let fail err := sret ("", Some (FabricError err)) in
  let^ current := current_plan ctx in
  match current with
  | Err err => sret ("", Some err)
  | Ok false => fail stale
  | Ok true =>
      let n := Z.of_nat (length (df_ResumePrincipals deferral)) in
      if (n <? 1) || (64 <? n) then fail (invalid "Invalid bounded resume principals")
      else if negb (str_eqb (ps_PlanRevision state) (rec_planRevision r)) || str_eqb (ps_DeferralID state) "" ||
              negb (df_Durable deferral) then fail stale
      else
        match DecodeVerifiedEnvelope caller original (rec_Audience r) with
        | Err err => fail err
        | Ok _ =>
            let^ allowed := resolve_principals (df_ResumePrincipals deferral) in
            match allowed with
            | None => fail (unauthenticated "Resume identity resolution failed")
            | Some allowed =>
                let body := mkPersisted node_format state deferral registration (ec_provenance caller) in
                match raw ← marshal_persisted body; _ ← decode_stored raw; Some raw with
                | None => fail (invalid "Invalid pipeline state")
                | Some raw =>
                    save_snapshot caller
                      (Continuation.mkSnapshot 1 (ps_DeferralID state) original (ec_principal caller) allowed
                         (rec_planRevision r) plan_version (hash (rec_pipeline r)) (rec_pipeline r) raw [])
                      (df_ExpiresAt deferral) allowed
                end
            end
        end
  end.

Record RotationResult := mkRotation { rot_ID : string; rot_Revision : Z; rot_Delivered : bool }.

Definition RotatePending (resumer : ExecutionContext) (id : string) (revision : Z) : St (RotationResult * option CallError) :=
  let^ issued := transact (fun s io rnd now => Continuation.RotatePendingCapability s io rnd resumer id revision now) in
  match issued with
  | Err err => sret (mkRotation "" 0 false, Some (FabricError err))
  | Ok issued =>
      let revision := Continuation.is_CapabilityRevision issued in
      let^ failed := port (Notify (mkNotice id (Continuation.is_Capability issued) revision zero_time [ec_principal resumer])) in
      match failed with
      | Some _ => sret (mkRotation id revision false,
                        Some (FabricError (NewError CodeTargetUnavailable "Private pending capability delivery failed")))
      | None => sret (mkRotation id revision true, None)
      end
  end.

(** ** Settlement *)
Definition mark_settled (s : Settler) : Settler :=
  mkSettler (sl_resumer s) (sl_claim s) (sl_caller s) (sl_invocationID s) true (sl_release s) (sl_released s).
Definition mark_released (s : Settler) : Settler :=
  mkSettler (sl_resumer s) (sl_claim s) (sl_caller s) (sl_invocationID s) (sl_settled s) (sl_release s) true.
Definition install_release (s : Settler) : Settler :=
  mkSettler (sl_resumer s) (sl_claim s) (sl_caller s) (sl_invocationID s) (sl_settled s) true (sl_released s).
Definition adopt (caller : ExecutionContext) (invocationID : string) (s : Settler) : Settler :=
  mkSettler (sl_resumer s) (sl_claim s) caller invocationID (sl_settled s) (sl_release s) (sl_released s).

Definition releaseBinding : St unit :=
  let^ s := get_settler in
  if sl_released s then sret tt
  else let^ _ := set_settler mark_released in
       if sl_release s then port release_claim else sret tt.

(** recordWithRelease: the claim is completed with the verified outcome, once. *)
Definition recordWithRelease (evidence : Evidence) (release : bool) : St (option CallError) :=
  let^ s := get_settler in
  let^ failed := (if sl_settled s then sret None
                  else
                    let^ verified := port (VerifyEvidence (sl_caller s) evidence) in
                    match verified with
                    | Err _ => sret (Some (FabricError (NewError CodeProtocolError "Continuation effect evidence rejected")))
                    | Ok outcome =>
                        let^ completed := transact (fun st io rnd _ => Continuation.Complete st io rnd (sl_resumer s) (sl_claim s) outcome) in
                        match completed with
                        | Err err => sret (Some (FabricError err))
                        | Ok _ => let^ _ := set_settler mark_settled in sret None
                        end
                    end) in
  let^ _ := (if release then releaseBinding else sret tt) in
  sret failed.

Definition record (evidence : Evidence) : St (option CallError) := recordWithRelease evidence true.

(** [fail]: the errors Resume returns. *)
Definition fail (cause : CallError) (evidence : Evidence) : St (list CallError) :=
  let^ failed := record evidence in
  sret match failed with Some err => [err] | None => [cause] end.

(** ** The engine's hosts *)
Definition lift {A} (f : World -> A * World) : NodeWorld -> A * NodeWorld := port f.

Definition node_host (U : Type) (down : Ctx -> ExecutionContext -> Envelope -> NodeWorld -> (Outcome U * option CallError) * NodeWorld)
    (close : U -> NodeWorld -> unit * NodeWorld) : Host :=
  {| HostWorld.World := NodeWorld; HostWorld.Handler := Handler; HostWorld.Upstream := U;
     HostWorld.ctx_err := fun ctx => lift (ctx_err ctx); HostWorld.call_err := fun ctx ms => lift (call_err ctx ms);
     HostWorld.clock := lift clock; HostWorld.acquire := fun ctx ms => lift (acquire ctx ms); HostWorld.release := lift release;
     HostWorld.intercept := fun h req => lift (intercept h req); HostWorld.await := fun ctx ms => lift (await ctx ms);
     HostWorld.resolver := fun ctx c v stage placement => lift (resolver ctx c v stage placement);
     HostWorld.validate := fun ctx stage c v => lift (validate ctx stage c v);
     HostWorld.downstream := down; HostWorld.close_stream := close; HostWorld.save := Save |}.

(** The host of first executions. *)
Definition stage_host : Host :=
  node_host Upstream (fun ctx c v => lift (downstream ctx c v)) (fun u => lift (close_stream u)).

(** targetStream: the checked endpoint stream whose end settles the claim. *)
Definition TargetStream : Type := CheckedStream * Upstream.

(** The [wrapped] endpoint of a resumption: it settles a unary result before the
    pipeline sees it. *)
Definition wrapped (ctx : Ctx) (c : ExecutionContext) (envelope : Envelope) : St (Outcome TargetStream * option CallError) :=
  let^ _ := set_invoked true in
  let^ '(target, err) := port (downstream ctx c envelope) in
  match oc_Stream target with
  | Some upstream =>
      match NewCheckedStream (v_ID envelope) with
      | Err failed => let^ _ := port (close_stream upstream) in sret (no_outcome, Some (FabricError failed))
      | Ok checked =>
          sret (mkOutcome (oc_Response target) (Some (checked, upstream)) (oc_DeferredID target) (oc_DeferredNotificationError target), err)
      end
  | None =>
      let kind := match err with Some _ => TargetFailure | None => TargetUnary end in
      let^ failed := record (mkEvidence kind (v_ID envelope) None (oc_Response target) (option_list err)) in
      match failed with
      | Some err => sret (no_outcome, Some err)
      | None => sret (mkOutcome (oc_Response target) None (oc_DeferredID target) (oc_DeferredNotificationError target), err)
      end
  end.

Definition resume_host : Host := node_host TargetStream wrapped (fun t => lift (close_stream t.2)).

Definition resume_engine (e : EngineConfig) : @EngineConfig resume_host :=
  @mkEngine resume_host (e_plan e) (e_handlers e) (e_continuations e) (e_maxRedirects e).
Definition stage_engine (e : EngineConfig) : @EngineConfig stage_host :=
  @mkEngine stage_host (e_plan e) (e_handlers e) (e_continuations e) (e_maxRedirects e).

(** ** Resume *)
Record ResumeResult := mkResult { rr_Claim : option Continuation.ClaimResult; rr_Outcome : Outcome (@LifetimeStream resume_host) }.

(** errors.Join *)
Definition join (errs : list (option CallError)) : list CallError := omap (fun e => e) errs.

Definition no_evidence (kind : EvidenceKind) : Evidence := mkEvidence kind "" None [] [].

(** The checks of the restored pipeline state. *)
Definition stored_state (snapshot : Snapshot) (receipt : Receipt) : option persistedState :=
  _ ← require (str_eqb (Continuation.PlanVersion snapshot) plan_version &&
               str_eqb (Continuation.PlanRevision snapshot) (rec_planRevision r) &&
               str_eqb (Continuation.s_PlanDigest snapshot) (hash (rec_pipeline r)) &&
               bool_decide (Continuation.Pipeline snapshot = rec_pipeline r));
  stored ← decode_stored (Continuation.s_State snapshot);
  _ ← require (str_eqb (pst_Format stored) node_format &&
               str_eqb (ps_DeferralID (pst_State stored)) (Continuation.rc_ID receipt) &&
               str_eqb (ps_PlanRevision (pst_State stored)) (rec_planRevision r));
  Some stored.

Definition admission_of (snapshot : Snapshot) (receipt : Receipt) (stored : persistedState) (commitment : list byte) : HistoricalAdmission :=
  mkAdmission (Continuation.rc_SnapshotDigest receipt) (Continuation.OriginalPrincipal snapshot) (rec_Audience r)
    (Continuation.OriginalEnvelope snapshot) (pst_Provenance stored) receipt (Continuation.DeferredAdmission snapshot) commitment
    (Continuation.PlanRevision snapshot).

(** From the consumed claim to the original caller, the stored state and its
    permit, or the cause of a refusal. *)
Definition prepare (ctx : Ctx) (snapshot : Snapshot) (receipt : Receipt) :
    St (result CallError (ExecutionContext * PipelineState * ResumePermit)) :=
  let refuse err := sret (Err (FabricError err)) in
  let^ current := current_plan ctx in
  match current with
  | Ok true =>
      match stored_state snapshot receipt with
      | None => refuse stale
      | Some stored =>
          match SnapshotCommitment snapshot with
          | None => sret (Err (OtherError 0))
          | Some commitment =>
              let^ restored := port (RestoreOriginal (admission_of snapshot receipt stored commitment)) in
              match restored with
              | Err _ => refuse (unauthenticated "Historical original admission restoration failed")
              | Ok caller =>
                  if negb (bool_decide (ec_principal caller = Continuation.OriginalPrincipal snapshot)) ||
                     negb (is_ok (VerifyAuthenticated caller (rec_Audience r))) then
                    refuse (unauthenticated "Historical original admission mismatch")
                  else
                    match DecodeVerifiedEnvelope caller (Continuation.OriginalEnvelope snapshot) (rec_Audience r) with
                    | Err err => refuse err
                    | Ok _ =>
                        let^ _ := set_settler (adopt caller (v_ID (ps_Envelope (pst_State stored)))) in
                        match NewVerifiedResumePermit caller (Continuation.OriginalEnvelope snapshot) (pst_State stored) with
                        | Err err => sret (Err err)
                        | Ok permit => sret (Ok (caller, pst_State stored, permit))
                        end
                    end
              end
          end
      end
  | _ => refuse stale
  end.

(** The callback of the resume authority: the engine's outcome, error and calls. *)
Definition resume_callback (e : EngineConfig) (caller original : ExecutionContext) (bytes : list byte) (state : PipelineState)
    (permit : ResumePermit) : St (Outcome (@LifetimeStream resume_host) * option CallError * list Event) :=
  if negb (bool_decide (ec_principal original = ec_principal caller)) ||
     negb (is_ok (VerifyAuthenticatedData original bytes (rec_Audience r))) then
    sret (no_outcome, Some (FabricError stale), [])
  else fun n =>
    let '((result, _), (n, log)) := @ResumeStage _ _ _ _ _ _ _ resume_host (resume_engine e) (Some permit) original bytes state (n, []) in
    match result with
    | Some (Ok outcome) => ((outcome, None, log), n)
    | Some (Err err) => ((no_outcome, Some err, log), n)
    | None => ((no_outcome, None, log), n)
    end.

(** runResumeAuthority with that callback: only the first call is let through. *)
Definition runResumeAuthority (e : EngineConfig) (resumer caller : ExecutionContext) (claim : ResumeClaim) (bytes : list byte)
    (state : PipelineState) (permit : ResumePermit) : St (Outcome (@LifetimeStream resume_host) * list CallError * list Event) :=
  let^ entered := port (authority_enters resumer caller claim) in
  match entered with
  | None =>
      let^ '(_, err) := port (authority_returns None) in
      sret (no_outcome, join [err; None; Some (FabricError stale)], [])
  | Some original =>
      let^ '(outcome, callback, log) := resume_callback e caller original bytes state permit in
      let^ '(misused, err) := port (authority_returns callback) in
      sret (outcome, join (if misused then [err; callback; Some (FabricError stale)] else [err; callback]), log)
  end.

(** The end of Resume: a stream keeps its settlement, everything else is settled
    now unless the endpoint's result was. *)
Definition settle_outcome (result : ResumeResult) (errs : list CallError) : St (ResumeResult * list CallError) :=
  if bool_decide (is_Some (oc_Stream (rr_Outcome result))) && bool_decide (errs = []) then sret (result, [])
  else
    let^ s := get_settler in
    if sl_settled s then sret (result, errs)
    else
      let^ invoked := get_invoked in
      let kind := if invoked then Abandoned else NoTarget in
      let^ failed := record (mkEvidence kind (sl_invocationID s) None (oc_Response (rr_Outcome result)) errs) in
      sret (result, match failed with Some err => [err] | None => errs end).

Definition zero_context : ExecutionContext :=
  mkContext None (mkPrincipal "" "" "") "" (replicate 32 x00) false (mkProvenance "" "" [] 0 [] []).

(** [settlement.fail] as the result of Resume. *)
Definition refuse (claim : Continuation.ClaimResult) (cause : CallError) : St (ResumeResult * list CallError * list Event) :=
  let^ errs := fail cause (no_evidence NoTarget) in
  sret (mkResult (Some claim) no_outcome, errs, []).

(** Resume from the consumed snapshot on. *)
Definition resume_consumed (ctx : Ctx) (e : EngineConfig) (resumer : ExecutionContext) (claim : Continuation.ClaimResult)
    (receipt : Receipt) (snapshot : Snapshot) : St (ResumeResult * list CallError * list Event) :=
  let^ prepared := prepare ctx snapshot receipt in
  match prepared with
  | Err cause => refuse claim cause
  | Ok (caller, state, permit) =>
      let^ _ := set_invoked false in
      let^ _ := set_settler install_release in
      let^ '(outcome, errs, log) := runResumeAuthority e resumer caller (mkResumeClaim snapshot receipt)
                                      (Continuation.OriginalEnvelope snapshot) state permit in
      let^ '(result, errs) := settle_outcome (mkResult (Some claim) outcome) errs in
      sret (result, errs, log)
  end.

(** Resume; its last component is the log of the engine's calls. *)
Definition Resume (ctx : Ctx) (e : EngineConfig) (resumer : ExecutionContext) (token claimID : string) :
    St (ResumeResult * list CallError * list Event) :=
  let^ claimed := transact (fun s io rnd now => Continuation.Claim s io rnd resumer token claimID now) in
  match claimed with
  | Err err => sret (mkResult None no_outcome, [FabricError err], [])
  | Ok claim =>
      match Continuation.cr_Fresh claim, Continuation.cr_Claim claim, Continuation.cr_Receipt claim with
      | true, Some fresh, Some receipt =>
          let^ _ := set_settler (fun _ => mkSettler resumer receipt zero_context "" false false false) in
          let^ ended := port (ctx_err ctx) in
          let^ consumed := transact (fun s io _ _ =>
            ((Continuation.Consume fresh (negb (bool_decide (is_Some ended))) s io resumer receipt).1, s)) in
          match consumed with
          | Err err => refuse claim (FabricError err)
          | Ok snapshot => resume_consumed ctx e resumer claim receipt snapshot
          end
      | _, _, _ => sret (mkResult (Some claim) no_outcome, [], [])
      end
  end.
End recorder.
End Recorder.
