(* ===== verification/RecorderProps.v ===== *)
(** * Guarantees of durable deferrals

    [EngineFrame]: the engine changes the world only through its host.
    [RecorderProofs]: every operation of a node is a sequence of operations of the
    continuation store. [RecorderProps]: a deferred invocation executes at most once,
    as its original caller, and a resumption that reports success is settled. *)
From Stdlib Require Import Ascii Strings.Byte ZArith Lia.
From S2P Require Import Prelude GoStrings FabricRef Framing Wire FabricModel Stream Patch Manifest ManifestProps Engine EngineProps.
From S2P Require Import SqlTx Durable Continuation ContinuationInv ContinuationProps Recorder.
#[local] Open Scope Z_scope.
#[local] Arguments str_eqb _ _ : simpl never.

(** ** The engine's effect on the world is its host's *)
Module EngineFrame.
Import Ref Wire.Wire Model Stream.Stream Patch.Patch Manifest Protocol HostWorld Output Remote Engine.Engine.

Section frame.
Context `{Sha256, JsonDecoder, EnvelopeJson, PatchJson, OutputJson, InterceptJson, EngineJson, !Host}.
Context (R : World -> World -> Prop) `{!PreOrder R}.

Definition keeps_op {A} (f : World -> A * World) : Prop := forall w, R w (f w).2.

Record HostKeeps : Prop := {
  hk_ctx ctx : keeps_op (ctx_err ctx); hk_call ctx ms : keeps_op (call_err ctx ms); hk_clock : keeps_op clock;
  hk_acquire ctx ms : keeps_op (acquire ctx ms); hk_release : keeps_op release;
  hk_intercept h req : keeps_op (intercept h req); hk_await ctx ms : keeps_op (await ctx ms);
  hk_resolver ctx c v stage placement : keeps_op (resolver ctx c v stage placement);
  hk_validate ctx stage c v : keeps_op (validate ctx stage c v);
  hk_downstream ctx c v : keeps_op (downstream ctx c v); hk_close u : keeps_op (close_stream u);
  hk_save ctx c original st d cr : keeps_op (save ctx c original st d cr) }.

Definition keeps {A} (m : M A) : Prop := forall w log, R w (m (w, log)).2.1.

Lemma keeps_ret {A} (a : A) : keeps (ret a).
Proof. intros w log. simpl. reflexivity. Qed.
Lemma keeps_emit ev : keeps (emit ev).
Proof. intros w log. simpl. reflexivity. Qed.
Lemma keeps_host {A} (f : World -> A * World) : keeps_op f -> keeps (host f).
Proof. intros Hf w log. specialize (Hf w). unfold host. simpl. by destruct (f w). Qed.
Lemma keeps_bind {A B} (m : M A) (k : A -> M B) : keeps m -> (forall a, keeps (k a)) -> keeps (HostWorld.mbind m k).
Proof.
  intros Hm Hk w log. unfold HostWorld.mbind. specialize (Hm w log). destruct (m (w, log)) as [a [w1 log1]]. simpl in Hm.
  etrans; [exact Hm|apply Hk].
Qed.

Context (HK : HostKeeps).

Ltac keep :=
  repeat match goal with
  | |- keeps (HostWorld.mbind _ _) => apply keeps_bind; [|intros ?]
  | |- keeps (ret _) => apply keeps_ret
  | |- keeps (emit _) => apply keeps_emit
  | |- keeps (host _) => apply keeps_host; by apply HK
  | |- keeps (match ?x with _ => _ end) => destruct x
  | |- keeps (if ?x then _ else _) => destruct x
  | |- keeps (let '(_, _) := ?x in _) => destruct x
  end.

Lemma keeps_executor ctx c h req : keeps (Executor_Call ctx c h req).
Proof. unfold Executor_Call, run_handler. keep. Qed.

Context (e : EngineConfig).

Lemma keeps_call ctx c req started : keeps (call e ctx c req started).
Proof. unfold call, decide_call. keep; apply keeps_executor. Qed.

Lemma keeps_unwind_loop ctx envelope todo : forall outcome failure, keeps (unwind_loop e ctx envelope todo outcome failure).
Proof.
  induction todo as [|c todo IH]; intros outcome failure; cbn [unwind_loop]; [keep|]. keep; try apply IH. apply keeps_call.
Qed.

Lemma keeps_unwind ctx envelope stack outcome failure : keeps (unwind e ctx envelope stack outcome failure).
Proof. unfold unwind. keep; apply keeps_unwind_loop. Qed.

Lemma keeps_selectChain ctx caller st : keeps (selectChain e ctx caller st).
Proof. unfold selectChain. keep. Qed.

Lemma keeps_finish m : keeps m -> keeps (finish m).
Proof. intros Hm. unfold finish. keep. exact Hm. Qed.

Lemma keeps_walk ctx caller original chain rest : forall index st stack, keeps (walk e ctx caller original chain index rest st stack).
Proof.
  induction rest as [|c rest IH]; intros index st stack; cbn [walk]; [keep|].
  case_if; [apply IH|]. apply keeps_bind; [apply keeps_call|]. intros answer.
  keep; try apply IH; try (apply keeps_finish, keeps_unwind); try apply keeps_selectChain.
  apply keeps_finish. unfold suspend. keep.
Qed.

Lemma keeps_dispatch ctx caller st stack : keeps (dispatch e ctx caller st stack).
Proof. unfold dispatch. keep; apply keeps_unwind. Qed.

Lemma keeps_passes fuel ctx caller original : forall st stack chain, keeps (passes e fuel ctx caller original st stack chain).
Proof.
  induction fuel as [|fuel IH]; intros st stack chain; cbn [passes]; keep; try apply IH;
    [apply keeps_unwind|apply keeps_walk|apply keeps_dispatch].
Qed.

Lemma keeps_runWithDeadline caller original st resuming : keeps (runWithDeadline e caller original st resuming).
Proof. unfold runWithDeadline, run. keep; [apply keeps_selectChain|apply keeps_passes|apply keeps_unwind]. Qed.

Lemma keeps_ExecuteStage caller original audience stage placement : keeps (ExecuteStage e caller original audience stage placement).
Proof. unfold ExecuteStage. keep; apply keeps_runWithDeadline. Qed.

Lemma keeps_ResumeStage permit caller original st : keeps (ResumeStage e permit caller original st).
Proof. unfold ResumeStage. keep; apply keeps_runWithDeadline. Qed.
End frame.
End EngineFrame.

(** ** A resumed pipeline executes at most once *)
Module ResumeLog.
Import Ref Wire.Wire Model Stream.Stream Patch.Patch Manifest Protocol HostWorld Output Remote Engine.Engine Pipeline EngineLog EngineRefine PipelineProofs EngineProps.EngineProps.

(** The endpoint executions in a log. *)
Definition endpoint_calls (log : list Event) : nat := length (filter (fun ev => is_downstream ev = true) log).

Lemma endpoint_calls_app l l' : endpoint_calls (l ++ l') = (endpoint_calls l + endpoint_calls l')%nat.
Proof. unfold endpoint_calls. by rewrite filter_app, length_app. Qed.

Lemma endpoint_calls_none l : Forall (fun ev => is_downstream ev = false) l -> endpoint_calls l = 0%nat.
Proof.
  intros Hf. unfold endpoint_calls. induction Hf as [|ev l He Hf IH]; [done|]. rewrite filter_cons_False; [done|by rewrite He].
Qed.

Section log.
Context `{Sha256, JsonDecoder, EnvelopeJson, PatchJson, OutputJson, InterceptJson, EngineJson, !Host}.

Lemma endpoint_log_once plan rest entered log envelope answer :
  endpoint_log plan rest entered log envelope answer -> endpoint_calls log = 1%nat.
Proof.
  induction 1 as [rest entered asked stage envelope answer after Hall Hq Hu Hc
                 |rest entered before stage envelope' chain log envelope answer entered' Hb Hm Hl IH].
  - rewrite endpoint_calls_app, (endpoint_calls_none asked) by (eapply Forall_impl; [exact Hq|]; naive_solver).
    change (endpoint_calls (EValidate stage envelope None :: EDownstream envelope answer :: after)) with (S (endpoint_calls after)).
    apply unwinding_quiet in Hu as (Hd & _). by rewrite (endpoint_calls_none after).
  - rewrite endpoint_calls_app, (endpoint_calls_none before) by done. exact IH.
Qed.

Lemma asking_once plan max continuations rest entered st log r0 :
  traces plan max continuations (Asking rest entered st) log (Done r0) -> (endpoint_calls log <= 1)%nat.
Proof.
  intros Ht. destruct (decide (Exists (fun ev => is_downstream ev = true) log)) as [Hd|Hd].
  - apply Exists_exists in Hd as (ev & Hin & Hev). destruct ev as [| | |envelope answer|]; try done.
    rewrite (endpoint_log_once plan rest entered log envelope answer); [lia|]. by eapply asking_endpoint.
  - rewrite endpoint_calls_none; [lia|]. apply not_Exists_Forall in Hd; [|apply _]. eapply Forall_impl; [exact Hd|].
    intros ev. simpl. by destruct (is_downstream ev).
Qed.

(** What ResumeStage calls: nothing, or the rest of the stored pipeline. *)
Lemma resume_traces (e : EngineConfig) permit caller original st w r permit' w' log :
  ResumeStage e permit caller original st (w, []) = ((r, permit'), (w', log)) ->
  is_Some r /\
  (log = [] \/
   Envelope_Validate (ps_Envelope st) = Ok tt /\ ps_PlanRevision st = p_revision (e_plan e) /\ exists entered r0,
     resolveEntered e (ps_Entered st) = Ok entered /\
     ((exists err, traces (e_plan e) (e_maxRedirects e) (e_continuations e)
         (Unwinding (ps_Envelope st) (rev entered) no_outcome (Some err)) log (Done r0)) \/
      exists chain, resolveEntered e (ps_Chain st) = Ok chain /\
        traces (e_plan e) (e_maxRedirects e) (e_continuations e)
          (Asking (drop (Z.to_nat (ps_Cursor st)) chain) entered st) log (Done r0))).
Proof.
  unfold ResumeStage. destruct (stale_pipeline e st) eqn:Hstale; [intros [= <- <- <- <-]; eauto|].
  destruct (DecodeVerifiedEnvelope caller original (ec_audience caller)); [|intros [= <- <- <- <-]; eauto].
  destruct (Envelope_Validate (ps_Envelope st)) as [[]|] eqn:Hv; cbn [is_ok negb]; [|intros [= <- <- <- <-]; eauto].
  destruct (consume permit caller original st) as [[[]|err] p1]; [|intros [= <- <- <- <-]; eauto].
  unfold HostWorld.mbind. destruct (runWithDeadline e caller original st true (w, [])) as [r0 s0] eqn:Hrun. intros [= <- <- ->].
  apply deadline_run in Hrun as (r1 & Hrun & ->).
  assert (0 <= ps_Cursor st) as Hcur by (unfold stale_pipeline in Hstale; rewrite !orb_false_iff in Hstale; lia).
  eapply emits_run in Hrun; [|by apply run_spec]. destruct Hrun as (r0 & -> & Hrun). split; [done|].
  destruct (resolveEntered e (ps_Entered st)) as [entered|]; [|left; apply Hrun]. right. split; [done|].
  assert (ps_PlanRevision st = p_revision (e_plan e)) as Hrev.
  { unfold stale_pipeline in Hstale. rewrite !orb_false_iff, !negb_false_iff in Hstale. apply str_eqb_eq. apply Hstale. }
  split; [done|]. exists entered, r0. split; [done|].
  destruct Hrun as [(err & Hun & _)|(chain & evs & Ht & Hch & ->)]; [left|right]; eauto.
Qed.

Lemma resume_once (e : EngineConfig) permit caller original st w r permit' w' log :
  ResumeStage e permit caller original st (w, []) = ((r, permit'), (w', log)) -> (endpoint_calls log <= 1)%nat.
Proof.
  intros [_ [->|(_ & _ & entered & r0 & _ & [[err Hu]|(chain & _ & Ht)])]]%resume_traces; [unfold endpoint_calls; simpl; lia| |by eapply asking_once].
  apply unwinding_log in Hu as [(Hd & _)%unwinding_quiet _]. rewrite endpoint_calls_none; [lia|done].
Qed.
End log.
End ResumeLog.

(** ** The store under a node *)
Module RecorderProofs.
Import Ref Wire.Wire Model Stream.Stream Patch.Patch Manifest Protocol HostWorld Output Remote Engine.Engine Node Recorder EngineFrame ResumeLog.
Import ContinuationInv.

Section proofs.
Context `{Sha256, JsonDecoder, EnvelopeJson, PatchJson, OutputJson, InterceptJson, EngineJson, RecorderJson}.
Context `{Durable.DataProtector, Continuation.ContinuationJson}.
Context `{!Host, !Ports}.
Context (r : Recorder).
Implicit Types (n : NodeWorld) (m : Machine).

Lemma run_ops_app ops ops' m : ContinuationInv.run (ops ++ ops') m = ContinuationInv.run ops' (ContinuationInv.run ops m).
Proof. apply fold_left_app. Qed.

(** The store of [s'] follows from [s] by operations that release nothing for
    execution. *)
Definition store_advances (s s' : Store) : Prop :=
  forall m, m_store m = s -> exists ops, m_store (ContinuationInv.run ops m) = s' /\
    m_executed (ContinuationInv.run ops m) = m_executed m /\ m_next (ContinuationInv.run ops m) = m_next m.

(** The row of a continuation is durably complete. *)
Definition completed (s : Store) (id : string) : Prop :=
  exists w, Continuation.continuations (Continuation.db s) !! id = Some w /\ Continuation.w_state w = Continuation.Complete_.

(** A settlement that is marked settled is one. *)
Definition settled_ok n : Prop :=
  sl_settled (nw_settler n) = true -> completed (nw_store n) (Continuation.rc_ID (sl_claim (nw_settler n))).

Definition advances n n' : Prop :=
  store_advances (nw_store n) (nw_store n') /\ sl_claim (nw_settler n') = sl_claim (nw_settler n) /\
  (settled_ok n -> settled_ok n').

#[export] Instance store_advances_preorder : PreOrder store_advances.
Proof.
  split.
  - intros s m Hm. by exists [].
  - intros s s1 s2 H01 H12 m Hm. destruct (H01 m Hm) as (ops & Hs & He & Hn). destruct (H12 _ Hs) as (ops' & Hs' & He' & Hn').
    exists (ops ++ ops'). rewrite run_ops_app. split_and!; [done|by rewrite He', He|by rewrite Hn', Hn].
Qed.

#[export] Instance advances_preorder : PreOrder advances.
Proof.
  split.
  - intros n. split_and!; [reflexivity|done..].
  - intros n n1 n2 (A1 & B1 & C1) (A2 & B2 & C2). split_and!; [by etrans|congruence|auto].
Qed.

Lemma completed_later s s' id : store_advances s s' -> completed s id -> completed s' id.
Proof.
  intros Ha (w & Hw & Hc). destruct (Ha (mkMachine s [] [] 0) eq_refl) as (ops & Hs & _).
  destruct (run_rows_later ops (mkMachine s [] [] 0) id w Hw) as (w' & Hw' & Hl). rewrite Hs in Hw'.
  exists w'. split; [done|]. by rewrite (later_complete _ _ Hl Hc).
Qed.

Lemma advances_store n n' : store_advances (nw_store n) (nw_store n') -> nw_settler n' = nw_settler n -> advances n n'.
Proof.
  intros Hs He. split_and!; [done|by rewrite He|]. intros Hok Hset. rewrite He in *. eapply completed_later; [exact Hs|auto].
Qed.

Lemma advances_settler n n' : nw_store n' = nw_store n -> sl_claim (nw_settler n') = sl_claim (nw_settler n) ->
  sl_settled (nw_settler n') = sl_settled (nw_settler n) -> advances n n'.
Proof.
  intros Hs Hc He. split_and!; [by rewrite Hs|done|]. unfold settled_ok. by rewrite Hs, Hc, He.
Qed.

Definition skeeps {A} (c : St A) : Prop := forall n, advances n (c n).2.

Lemma skeeps_ret {A} (a : A) : skeeps (sret a).
Proof. intros n. simpl. reflexivity. Qed.
Lemma skeeps_port {A} (f : World -> A * World) : skeeps (port f).
Proof. intros n. unfold port. destruct (f (nw_world n)). by apply advances_settler. Qed.
Lemma skeeps_settler f : (forall s, sl_claim (f s) = sl_claim s /\ sl_settled (f s) = sl_settled s) -> skeeps (set_settler f).
Proof. intros Hf n. destruct (Hf (nw_settler n)). by apply advances_settler. Qed.
Lemma skeeps_get : skeeps get_settler.
Proof. intros n. by apply advances_settler. Qed.
Lemma skeeps_invoked b : skeeps (set_invoked b).
Proof. intros n. by apply advances_settler. Qed.
Lemma skeeps_get_invoked : skeeps get_invoked.
Proof. intros n. by apply advances_settler. Qed.
Lemma skeeps_bind {A B} (c : St A) (k : A -> St B) : skeeps c -> (forall a, skeeps (k a)) -> skeeps (sbind c k).
Proof.
  intros Hc Hk n. unfold sbind. specialize (Hc n). destruct (c n) as [a n1]. simpl in Hc. etrans; [exact Hc|apply Hk].
Qed.

(** ** Runs of node operations *)
Lemma sbind_runs {A B} (c : St A) (k : A -> St B) n b n' : sbind c k n = (b, n') -> exists a n1, c n = (a, n1) /\ k a n1 = (b, n').
Proof. unfold sbind. destruct (c n) as [a n1]. eauto. Qed.

Lemma port_runs {A} (f : World -> A * World) n a n' : port f n = (a, n') ->
  nw_store n' = nw_store n /\ nw_settler n' = nw_settler n /\ nw_invoked n' = nw_invoked n.
Proof. unfold port. destruct (f (nw_world n)). by intros [= <- <-]. Qed.

Lemma transact_runs {A} (f : Store -> TxIO -> Continuation.Rand -> Time -> A * Store) n a n' : transact f n = (a, n') ->
  (exists io rnd now, f (nw_store n) io rnd now = (a, nw_store n')) /\ nw_settler n' = nw_settler n /\ nw_invoked n' = nw_invoked n.
Proof.
  unfold transact. intros (io & n1 & (E1 & F1 & G1)%port_runs & Hr)%sbind_runs.
  apply sbind_runs in Hr as (rnd & n2 & (E2 & F2 & G2)%port_runs & Hr). apply sbind_runs in Hr as (now & n3 & (E3 & F3 & G3)%port_runs & Hr).
  unfold on_store in Hr. destruct (f (nw_store n3) io rnd now) as [a' s'] eqn:Ef. injection Hr as <- <-. simpl.
  rewrite <- E1, <- E2, <- E3, <- F1, <- F2, <- F3, <- G1, <- G2, <- G3. split_and!; eauto.
Qed.

(** A transaction that is one step of the store machine. *)
Lemma skeeps_transact {A} (f : Store -> TxIO -> Continuation.Rand -> Time -> A * Store) :
  (forall s io rnd now m, m_store m = s -> exists o, m_store (step o m) = (f s io rnd now).2 /\
     m_executed (step o m) = m_executed m /\ m_next (step o m) = m_next m) ->
  skeeps (transact f).
Proof.
  intros Hf. unfold transact. apply skeeps_bind; [apply skeeps_port|]. intros io. apply skeeps_bind; [apply skeeps_port|]. intros rnd.
  apply skeeps_bind; [apply skeeps_port|]. intros now n. unfold on_store.
  destruct (f (nw_store n) io rnd now) as [a s'] eqn:Ef. apply advances_store; [|done]. intros m Hm.
  destruct (Hf (nw_store n) io rnd now m Hm) as (o & Hs & He & Hn). rewrite Ef in Hs. by exists [o].
Qed.

Ltac skeep :=
  repeat match goal with
  | |- skeeps (sbind _ _) => apply skeeps_bind; [|intros ?]
  | |- skeeps (sret _) => apply skeeps_ret
  | |- skeeps (port _) => apply skeeps_port
  | |- skeeps (lift _) => apply skeeps_port
  | |- skeeps (set_settler _) => apply skeeps_settler; by intros []
  | |- skeeps get_settler => apply skeeps_get
  | |- skeeps (set_invoked _) => apply skeeps_invoked
  | |- skeeps get_invoked => apply skeeps_get_invoked
  | |- skeeps (match ?x with _ => _ end) => destruct x
  | |- skeeps (if ?x then _ else _) => destruct x
  | |- skeeps (let '(_, _) := ?x in _) => destruct x
  end.

Lemma skeeps_create caller v expires :
  skeeps (transact (fun s io rnd now => Continuation.Create s io rnd caller v expires now)).
Proof. apply skeeps_transact. intros s io rnd now m <-. by exists (OpCreate io rnd caller v expires now). Qed.

Lemma skeeps_complete resumer receipt outcome :
  skeeps (transact (fun s io rnd _ => Continuation.Complete s io rnd resumer receipt outcome)).
Proof. apply skeeps_transact. intros s io rnd now m <-. by exists (OpComplete io rnd resumer receipt outcome). Qed.

Lemma skeeps_rotate resumer id revision : skeeps (RotatePending resumer id revision).
Proof.
  unfold RotatePending. apply skeeps_bind; [|intros []; skeep]. apply skeeps_transact. intros s io rnd now m <-.
  by exists (OpRotate io rnd resumer id revision now).
Qed.

Lemma skeeps_current ctx : skeeps (current_plan r ctx).
Proof. unfold current_plan, configuredPlan. skeep. Qed.

Lemma skeeps_resolve refs : skeeps (resolve_principals refs).
Proof. induction refs as [|ref refs IH]; cbn [resolve_principals]; skeep. exact IH. Qed.

Lemma skeeps_Save ctx caller original st d c : skeeps (Save r ctx caller original st d c).
Proof.
  unfold Save, save_snapshot. apply skeeps_bind; [apply skeeps_current|]. intros current.
  skeep; try apply skeeps_resolve. apply skeeps_create.
Qed.

(** A claim is marked settled when its completion has been committed. *)
Lemma complete_completes s io rnd c receipt outcome o s' :
  Continuation.Complete s io rnd c receipt outcome = (Ok o, s') -> completed s' (Continuation.rc_ID receipt).
Proof.
  unfold Continuation.Complete. destruct (Continuation.complete_check _ _ _ _) as [[b want]|]; [|done].
  intros [[_ [err Ee]]|[(a & st & Hb & _ & ->)|(a & k & d & Hb & -> & _)]]%transaction_cases; [discriminate Ee| |].
  - apply complete_rollback in Hb as (w & x & Hl & Hc). exists w. split; [apply (ld_row _ _ _ _ _ Hl)|done].
  - apply complete_commit in Hb as (w & x & sealed & _ & _ & _ & _ & _ & _ & ->). simpl. unfold completed. simpl. rewrite lookup_insert_eq. eauto.
Qed.

Lemma bind_advances {A B} (c : St A) (k : A -> St B) n : advances n (c n).2 -> (forall a, skeeps (k a)) -> advances n (sbind c k n).2.
Proof. intros Hc Hk. unfold sbind. destruct (c n) as [a n1]. simpl in Hc. etrans; [exact Hc|apply Hk]. Qed.

Lemma complete_settles n outcome :
  advances n (sbind (transact (fun st io rnd _ => Continuation.Complete st io rnd (sl_resumer (nw_settler n)) (sl_claim (nw_settler n)) outcome))
    (fun completed => match completed with
       | Err err => sret (Some (FabricError err))
       | Ok _ => let^ _ := set_settler mark_settled in sret None
       end) n).2.
Proof.
  pose proof (skeeps_complete (sl_resumer (nw_settler n)) (sl_claim (nw_settler n)) outcome n) as (Hs & Hc & Hok).
  unfold sbind. destruct (transact _ n) as [[o|err] n1] eqn:Et; simpl in *; [|done].
  apply transact_runs in Et as ((io & rnd & now & Hcomp) & Hset & _). split_and!; [done|by rewrite Hset|].
  intros _ _. simpl. rewrite Hset. by eapply complete_completes.
Qed.

Lemma skeeps_record evidence release : skeeps (recordWithRelease evidence release).
Proof.
  intros n. unfold recordWithRelease, releaseBinding. unfold sbind at 1, get_settler at 1.
  apply bind_advances; [|intros ?; skeep]. destruct (sl_settled (nw_settler n)) eqn:Hs; [by apply skeeps_ret|].
  unfold sbind at 1. destruct (port (VerifyEvidence _ evidence) n) as [verified n1] eqn:Ep.
  assert (nw_settler n = nw_settler n1) as Hn by by apply port_runs in Ep as (_ & -> & _).
  assert (advances n n1) as H1' by (pose proof (skeeps_port (VerifyEvidence (sl_caller (nw_settler n)) evidence) n) as Hp; by rewrite Ep in Hp).
  etrans; [exact H1'|]. destruct verified as [outcome|]; [|by apply skeeps_ret]. rewrite Hn. apply complete_settles.
Qed.

Lemma skeeps_wrapped ctx c envelope : skeeps (wrapped ctx c envelope).
Proof. unfold wrapped, record. skeep. apply skeeps_record. Qed.

Lemma resume_host_keeps : @HostKeeps (resume_host r) advances.
Proof. split; intros; intros n; try apply (skeeps_port _ n); [apply skeeps_wrapped|apply skeeps_Save]. Qed.

Lemma stage_host_keeps : @HostKeeps (stage_host r) advances.
Proof. split; intros; intros n; try apply (skeeps_port _ n). apply skeeps_Save. Qed.

Lemma skeeps_refuse claim cause : skeeps (refuse r claim cause).
Proof. unfold refuse, fail, record. skeep. apply skeeps_record. Qed.

Lemma skeeps_callback e caller original bytes st permit : skeeps (resume_callback r e caller original bytes st permit).
Proof.
  unfold resume_callback. skeep. intros n. pose proof (@keeps_ResumeStage _ _ _ _ _ _ _ (resume_host r) advances _ resume_host_keeps (resume_engine r e)
    (Some permit) original bytes st n []) as Hk.
  destruct (ResumeStage _ _ _ _ _ _) as [[result permit'] [n' log]]. simpl in Hk. by destruct result as [[]|].
Qed.

Lemma skeeps_authority e resumer caller claim bytes st permit : skeeps (runResumeAuthority r e resumer caller claim bytes st permit).
Proof. unfold runResumeAuthority. skeep. apply skeeps_callback. Qed.

Lemma skeeps_prepare ctx v receipt : skeeps (prepare r ctx v receipt).
Proof. unfold prepare. skeep; apply skeeps_current. Qed.

Lemma skeeps_consumed ctx e resumer claim receipt v : skeeps (resume_consumed r ctx e resumer claim receipt v).
Proof.
  unfold resume_consumed, settle_outcome, record. skeep; [apply skeeps_prepare|apply skeeps_authority|apply skeeps_record|apply skeeps_refuse].
Qed.

(** A fresh claim is a grant of the store machine. *)
Lemma claim_fresh s io rnd c token claimID now claim s' fresh receipt :
  Continuation.Claim s io rnd c token claimID now = (Ok claim, s') ->
  Continuation.cr_Claim claim = Some fresh -> Continuation.cr_Receipt claim = Some receipt ->
  exists v w x, granted (Ok claim) = [mkGrant (Continuation.rc_ID receipt) v fresh] /\
    loaded s (Continuation.db s) (Continuation.rc_ID receipt) w x /\ Continuation.w_state w = Continuation.Pending /\
    Continuation.snapshot s (Continuation.fc_snapshot fresh) = Ok v /\ Continuation.allowed v (ec_principal c) = true /\
    Continuation.fc_snapshot fresh = Continuation.r_snapshot x /\ Continuation.options s' = Continuation.options s.
Proof.
  intros [[_ [err Ee]]|(id & h & _ & _ & _ & Et)]%claim_entry Hf Hrc; [discriminate Ee|].
  apply transaction_cases in Et as [[_ [err Ee]]|[(a & st & Hb & [= ->] & _)|(a & k & d & Hb & -> & Hok)]]; [discriminate Ee| |].
  - apply claim_rollback in Hb as (w & x & v & _ & _ & _ & _ & _ & Hc). unfold Continuation.claimed_before in Hc.
    apply rbind_Ok in Hc as (rc & _ & Hc). apply rbind_Ok in Hc as (u & _ & Hc). apply rbind_Ok in Hc as (out & _ & Hc).
    injection Hc as <-. discriminate Hf.
  - destruct Hok as [[= ->]|]; [|done].
    apply claim_commit in Hb as (w & x & v & expiry & rc & b & sealed & Hl & Hp & Hv & Ha & _ & _ & _ & -> & _ & _ & _ & _ & -> & _).
    simpl in Hf, Hrc. injection Hf as <-. injection Hrc as <-. by exists v, w, x.
Qed.

Lemma consumed_log ctx e resumer claim receipt v n res errs log n' :
  resume_consumed r ctx e resumer claim receipt v n = ((res, errs, log), n') ->
  rr_Claim r res = Some claim /\ (endpoint_calls log <= 1)%nat.
Proof.
  unfold resume_consumed. intros (prepared & n1 & _ & Hr)%sbind_runs. destruct prepared as [[[caller st] permit]|cause].
  2:{ unfold refuse in Hr. apply sbind_runs in Hr as (errs0 & n2 & _ & [= <- _ <- _]). split; [done|unfold endpoint_calls; simpl; lia]. }
  apply sbind_runs in Hr as (? & n2 & _ & Hr). apply sbind_runs in Hr as (? & n3 & _ & Hr).
  apply sbind_runs in Hr as ([[outcome errs0] log0] & n4 & Ha & Hr). apply sbind_runs in Hr as ([res0 errs1] & n5 & Hs & Hr).
  injection Hr as -> -> -> ->. split.
  - unfold settle_outcome in Hs. destruct (_ && _); [by injection Hs as <- _ _|].
    apply sbind_runs in Hs as (s & n6 & _ & Hs). case_if; [by injection Hs as <- _ _|].
    apply sbind_runs in Hs as (? & n7 & _ & Hs). apply sbind_runs in Hs as (? & n8 & _ & Hs). by injection Hs as <- _ _.
  - unfold runResumeAuthority in Ha. apply sbind_runs in Ha as ([original|] & n6 & _ & Ha).
    2:{ apply sbind_runs in Ha as ([] & n7 & _ & Ha). injection Ha as _ _ <- _. unfold endpoint_calls. simpl. lia. }
    apply sbind_runs in Ha as ([[outcome1 cb] log1] & n7 & Hcb & Ha). apply sbind_runs in Ha as ([] & n8 & _ & Ha). injection Ha as _ _ <- _.
    unfold resume_callback in Hcb. case_if; [injection Hcb as _ _ <- _; unfold endpoint_calls; simpl; lia|].
    destruct (ResumeStage _ _ _ _ _ _) as [[result p'] [n9 log9]] eqn:Er. apply (@resume_once _ _ _ _ _ _ _ (resume_host r)) in Er.
    destruct result as [[]|]; by injection Hcb as _ _ <- _.
Qed.

(** Resume, in the store machine: it releases at most its own claim's snapshot,
    and calls the engine only with it. *)
Lemma resume_simulated ctx e resumer token claimID n res errs log n' m :
  Resume r ctx e resumer token claimID n = ((res, errs, log), n') -> m_store m = nw_store n ->
  exists ops, m_store (ContinuationInv.run ops m) = nw_store n' /\ m_next (ContinuationInv.run ops m) = m_next m /\
    (endpoint_calls log = 0%nat /\ m_executed m `sublist_of` m_executed (ContinuationInv.run ops m) \/
     exists claim receipt v, rr_Claim r res = Some claim /\ Continuation.cr_Receipt claim = Some receipt /\
       (endpoint_calls log <= 1)%nat /\ m_executed (ContinuationInv.run ops m) = m_executed m ++ [(Continuation.rc_ID receipt, v)]).
Proof.
  unfold Resume. intros (claimed & n1 & ((io & rnd & now & Hcl) & _ & _)%transact_runs & Hr)%sbind_runs Hm.
  assert (forall o, m_store (step o m) = nw_store n1 -> m_executed (step o m) = m_executed m -> m_next (step o m) = m_next m ->
    n' = n1 -> log = [] -> exists ops, m_store (ContinuationInv.run ops m) = nw_store n' /\ m_next (ContinuationInv.run ops m) = m_next m /\
    (endpoint_calls log = 0%nat /\ m_executed m `sublist_of` m_executed (ContinuationInv.run ops m) \/
     exists claim receipt v, rr_Claim r res = Some claim /\ Continuation.cr_Receipt claim = Some receipt /\
       (endpoint_calls log <= 1)%nat /\ m_executed (ContinuationInv.run ops m) = m_executed m ++ [(Continuation.rc_ID receipt, v)])) as Hidle.
  { intros o E1 E2 E3 -> ->. exists [o]. simpl. rewrite E2. split_and!; [done..|]. by left. }
  assert (m_store (step (OpClaim io rnd resumer token claimID now) m) = nw_store n1 /\
    m_grants (step (OpClaim io rnd resumer token claimID now) m) = m_grants m ++ granted claimed /\
    m_executed (step (OpClaim io rnd resumer token claimID now) m) = m_executed m /\
    m_next (step (OpClaim io rnd resumer token claimID now) m) = m_next m) as (S1 & G1 & E1 & N1).
  { cbn [step]. rewrite Hm, Hcl. done. }
  destruct claimed as [claim|err]; [|injection Hr as <- <- <- <-; by eapply Hidle].
  destruct (Continuation.cr_Fresh claim); [|injection Hr as <- <- <- <-; by eapply Hidle].
  destruct (Continuation.cr_Claim claim) as [fresh|] eqn:Hf; [|injection Hr as <- <- <- <-; by eapply Hidle].
  destruct (Continuation.cr_Receipt claim) as [receipt|] eqn:Hrc; [|injection Hr as <- <- <- <-; by eapply Hidle]. clear Hidle.
  destruct (claim_fresh _ _ _ _ _ _ _ _ _ _ _ Hcl Hf Hrc) as (v0 & w0 & x0 & Hg & _). rewrite Hg in G1.
  set (m1 := step (OpClaim io rnd resumer token claimID now) m) in *.
  apply sbind_runs in Hr as (u & n2 & [= _ <-] & Hr). apply sbind_runs in Hr as (ended & n3 & (E3 & _)%port_runs & Hr). simpl in E3.
  apply sbind_runs in Hr as (consumed & n4 & ((io2 & rnd2 & now2 & Hco) & _ & _)%transact_runs & Hr).
  injection Hco as Hco E4. rewrite E3 in Hco, E4.
  set (o2 := OpConsume (length (m_grants m)) (negb (bool_decide (is_Some ended))) io2 resumer receipt).
  assert (m_store (step o2 m1) = nw_store n4 /\ m_next (step o2 m1) = m_next m /\
    m_executed (step o2 m1) = m_executed m ++ match consumed with Ok v => [(Continuation.rc_ID receipt, v)] | Err _ => [] end) as (S2 & N2 & E2).
  { unfold o2. cbn [step]. rewrite G1, lookup_app_r, Nat.sub_diag by lia. cbn [lookup list_lookup g_claim]. rewrite S1.
    destruct (Continuation.Consume fresh _ (nw_store n1) io2 resumer receipt) as [rc fc]. simpl in Hco. subst rc. simpl. by rewrite E1, N1. }
  assert (exists ops, ContinuationInv.run ops m = step o2 m1) as [ops0 Hops] by by exists [OpClaim io rnd resumer token claimID now; o2].
  destruct consumed as [v|err].
  - pose proof (skeeps_consumed ctx e resumer claim receipt v n4) as (Hadv & _). rewrite Hr in Hadv. simpl in Hadv.
    destruct (Hadv _ S2) as (ops & S5 & X5 & N5). apply consumed_log in Hr as [Hclaim Honce].
    exists (ops0 ++ ops). rewrite run_ops_app, Hops. split_and!; [done|congruence|]. right. exists claim, receipt, v. split_and!; [done..|congruence].
  - pose proof (skeeps_refuse claim (FabricError err) n4) as (Hadv & _). rewrite Hr in Hadv. simpl in Hadv.
    destruct (Hadv _ S2) as (ops & S5 & X5 & N5). unfold refuse in Hr. apply sbind_runs in Hr as (? & ? & _ & Hr). injection Hr as _ _ <- _.
    exists (ops0 ++ ops). rewrite run_ops_app, Hops. split_and!; [done|congruence|]. left. split; [done|]. by rewrite X5, E2, app_nil_r.
Qed.

(** Recording without an error leaves the claim completed. *)
Lemma record_completes evidence release n n' : settled_ok n -> recordWithRelease evidence release n = (None, n') ->
  completed (nw_store n') (Continuation.rc_ID (sl_claim (nw_settler n))).
Proof.
  intros Hok. unfold recordWithRelease. unfold sbind at 1, get_settler at 1. intros (failed & n1 & H1' & Hr)%sbind_runs.
  apply sbind_runs in Hr as (u & n2 & Hrel & [= -> <-]).
  assert (store_advances (nw_store n1) (nw_store n2)) as Hadv.
  { assert (skeeps (if release then releaseBinding else sret tt)) as Hk by (unfold releaseBinding; skeep).
    destruct (Hk n1) as [Ha _]. by rewrite Hrel in Ha. }
  eapply completed_later; [exact Hadv|]. destruct (sl_settled (nw_settler n)) eqn:Hs; [injection H1' as <-; by apply Hok|].
  apply sbind_runs in H1' as (verified & n3 & (_ & Hset & _)%port_runs & H1'). destruct verified as [outcome|]; [|done].
  apply sbind_runs in H1' as (o & n4 & ((io & rnd & now & Hc) & _)%transact_runs & H1'). destruct o as [o|]; [|done].
  injection H1' as <-. simpl. by eapply complete_completes.
Qed.

(** Only a committed claim is fresh. *)
Lemma claim_shape s io rnd c token claimID now claim s' : Continuation.Claim s io rnd c token claimID now = (Ok claim, s') ->
  Continuation.cr_Fresh claim = true ->
  exists fresh receipt, Continuation.cr_Claim claim = Some fresh /\ Continuation.cr_Receipt claim = Some receipt.
Proof.
  intros [[_ [err Ee]]|(id & h & _ & _ & _ & Et)]%claim_entry Hf; [discriminate Ee|].
  apply transaction_cases in Et as [[_ [err Ee]]|[(a & st & Hb & [= ->] & _)|(a & k & d & Hb & -> & Hok)]]; [discriminate Ee| |].
  - apply claim_rollback in Hb as (w & x & v & _ & _ & _ & _ & _ & Hc). unfold Continuation.claimed_before in Hc.
    apply rbind_Ok in Hc as (rc & _ & Hc). apply rbind_Ok in Hc as (u & _ & Hc). apply rbind_Ok in Hc as (out & _ & Hc).
    injection Hc as <-. discriminate Hf.
  - destruct Hok as [[= ->]|]; [|done].
    apply claim_commit in Hb as (w & x & v & expiry & rc & b & sealed & _ & _ & _ & _ & _ & _ & _ & _ & _ & _ & _ & _ & -> & _). eauto.
Qed.

(** What a fresh resumption has before it refuses or runs. *)
Definition fresh_claim resumer n claim receipt (v : Snapshot) n4 : Prop :=
  Continuation.cr_Fresh claim = true /\ Continuation.cr_Receipt claim = Some receipt /\
  sl_claim (nw_settler n4) = receipt /\ sl_settled (nw_settler n4) = false /\
  exists w x, loaded (nw_store n) (Continuation.db (nw_store n)) (Continuation.rc_ID receipt) w x /\
    Continuation.w_state w = Continuation.Pending /\ Continuation.snapshot (nw_store n) (Continuation.r_snapshot x) = Ok v /\
    Continuation.allowed v (ec_principal resumer) = true.

Lemma resume_inv ctx e resumer token claimID n out n' : Resume r ctx e resumer token claimID n = (out, n') ->
  (exists claim, out.2 = [] /\ rr_Claim r out.1.1 = claim /\ (forall c, claim = Some c -> Continuation.cr_Fresh c = false)) \/
  exists claim receipt v n4, fresh_claim resumer n claim receipt v n4 /\
    ((exists cause, refuse r claim cause n4 = (out, n')) \/ resume_consumed r ctx e resumer claim receipt v n4 = (out, n')).
Proof.
  unfold Resume. intros (claimed & n1 & ((io & rnd & now & Hcl) & _ & _)%transact_runs & Hr)%sbind_runs.
  destruct claimed as [claim|err]; [|injection Hr as <- <-; left; exists None; done].
  destruct (Continuation.cr_Fresh claim) eqn:Hfr; [|injection Hr as <- <-; left; exists (Some claim); split_and!; [done..|]; by intros c [= <-]].
  destruct (claim_shape _ _ _ _ _ _ _ _ _ Hcl Hfr) as (fresh & receipt & Hf & Hrc). rewrite Hf, Hrc in Hr. right.
  destruct (claim_fresh _ _ _ _ _ _ _ _ _ _ _ Hcl Hf Hrc) as (v & w & x & _ & Hl & Hp & Hv & Ha & Hx & Ho).
  apply sbind_runs in Hr as (u & n2 & [= _ <-] & Hr). apply sbind_runs in Hr as (ended & n3 & (E3 & F3 & _)%port_runs & Hr). simpl in E3, F3.
  apply sbind_runs in Hr as (consumed & n4 & ((io2 & rnd2 & now2 & Hco) & F4 & _)%transact_runs & Hr). injection Hco as Hco E4. rewrite F3 in F4.
  exists claim, receipt, v, n4. split.
  { unfold fresh_claim. rewrite F4. split_and!; [done..|]. exists w, x. by rewrite <- Hx. }
  destruct consumed as [v'|err]; [|left; eauto]. right.
  destruct (Continuation.Consume fresh _ (nw_store n3) io2 resumer receipt) as [rc fc] eqn:Ec. simpl in Hco. subst rc.
  apply ContinuationProps.consume_spec in Ec as [[_ [err Ee]]|(v2 & [= <-] & _ & _ & Hsn)]; [discriminate Ee|].
  rewrite E3, (ContinuationProps.snapshot_options (nw_store n)), Hv in Hsn by done. by injection Hsn as ->.
Qed.

Lemma prepare_facts ctx v receipt n caller st permit n' : prepare r ctx v receipt n = (Ok (caller, st, permit), n') ->
  exists stored authenticated, stored_state r v receipt = Some stored /\ st = pst_State stored /\
    ec_principal caller = Continuation.OriginalPrincipal v /\
    DecodeVerifiedEnvelope caller (Continuation.OriginalEnvelope v) (rec_Audience r) = Ok authenticated /\
    immutable_part authenticated = immutable_part (ps_Envelope st).
Proof.
  unfold prepare. intros ([[]|] & n1 & _ & Hr)%sbind_runs; [|discriminate Hr..].
  destruct (stored_state r v receipt) as [stored|] eqn:Hst; [|discriminate Hr].
  destruct (SnapshotCommitment v); [|discriminate Hr]. apply sbind_runs in Hr as ([c|] & n2 & _ & Hr); [|discriminate Hr].
  destruct (_ || _) eqn:Hb in Hr; [discriminate Hr|].
  destruct (DecodeVerifiedEnvelope c _ _) as [authenticated|] eqn:Hd; [|discriminate Hr].
  apply sbind_runs in Hr as (u & n3 & _ & Hr). destruct (NewVerifiedResumePermit c _ _) as [p|] eqn:Hp; [|discriminate Hr].
  injection Hr as <- <- <- _. apply orb_false_iff in Hb as [Hb _]. apply negb_false_iff, bool_decide_eq_true_1 in Hb.
  assert (ec_audience c = rec_Audience r) as Ha.
  { unfold DecodeVerifiedEnvelope in Hd. apply rbind_Ok in Hd as ([] & Hg & _). rinv. by apply str_eqb_eq. }
  unfold NewVerifiedResumePermit in Hp. rewrite Ha, Hd in Hp. destruct (bool_decide _) eqn:Hi in Hp; [|discriminate Hp].
  apply bool_decide_eq_true_1 in Hi. by exists stored, authenticated.
Qed.

(** A resumption that executes the endpoint does so in ResumeStage, from the stored state. *)
Lemma consumed_enters ctx e resumer claim receipt v n res errs log n' envelope answer :
  resume_consumed r ctx e resumer claim receipt v n = ((res, errs, log), n') -> EDownstream envelope answer ∈ log ->
  exists caller st authenticated stored, stored_state r v receipt = Some stored /\ st = pst_State stored /\
    ec_principal caller = Continuation.OriginalPrincipal v /\
    DecodeVerifiedEnvelope caller (Continuation.OriginalEnvelope v) (rec_Audience r) = Ok authenticated /\
    immutable_part authenticated = immutable_part (ps_Envelope st) /\
    exists original permit n5 result p' n6, @ResumeStage _ _ _ _ _ _ _ (resume_host r) (resume_engine r e) (Some permit) original
      (Continuation.OriginalEnvelope v) st (n5, []) = ((result, p'), (n6, log)).
Proof.
  unfold resume_consumed. intros (prepared & n1 & Hp & Hr)%sbind_runs Hin. destruct prepared as [[[caller st] permit]|cause].
  2:{ unfold refuse in Hr. apply sbind_runs in Hr as (? & ? & _ & Hr). injection Hr as _ _ <- _. by apply elem_of_nil in Hin. }
  destruct (prepare_facts _ _ _ _ _ _ _ _ Hp) as (stored & authenticated & Hst & Hs & Hpr & Hd & Hi).
  exists caller, st, authenticated, stored. split_and!; [done..|].
  apply sbind_runs in Hr as (? & n2 & _ & Hr). apply sbind_runs in Hr as (? & n3 & _ & Hr).
  apply sbind_runs in Hr as ([[outcome errs0] log0] & n4 & Ha & Hr). apply sbind_runs in Hr as ([res0 errs1] & n5 & _ & Hr).
  injection Hr as _ _ -> _. unfold runResumeAuthority in Ha. apply sbind_runs in Ha as ([original|] & n6 & _ & Ha).
  2:{ apply sbind_runs in Ha as ([] & n7 & _ & Ha). injection Ha as _ _ <- _. by apply elem_of_nil in Hin. }
  apply sbind_runs in Ha as ([[outcome1 cb] log1] & n7 & Hcb & Ha). apply sbind_runs in Ha as ([] & n8 & _ & Ha). injection Ha as _ _ -> _.
  unfold resume_callback in Hcb. case_if; [injection Hcb as _ _ <- _; by apply elem_of_nil in Hin|].
  destruct (ResumeStage _ _ _ _ _ _) as [[result p'] [n9 log9]] eqn:Er. exists original, permit, n6, result, p', n9.
  assert (log9 = log) as ->; [|exact Er]. destruct result as [[]|]; by injection Hcb as _ _ <- _.
Qed.

(** The worlds after a transaction, and after asking for the plan's context. *)
Definition after {A} (f : World -> A * World) (w : World) : World := (f w).2.
Definition after_transaction (w : World) : World := after clock (after randomness (after tx_io w)).

(** The world in which Resume asks for the configured plan: after the transactions of
    the claim and of its consumption, and the two checks of the context. *)
Definition plan_world (ctx : Ctx) (w : World) : World :=
  after (ctx_err ctx) (after_transaction (after (ctx_err ctx) (after_transaction w))).

Lemma transact_world {A} (f : Store -> TxIO -> Continuation.Rand -> Time -> A * Store) n a n' :
  transact f n = (a, n') -> nw_world n' = after_transaction (nw_world n).
Proof.
  unfold transact, sbind, port, on_store, after_transaction, after.
  destruct (tx_io (nw_world n)) as [io w1]. simpl. destruct (randomness w1) as [rnd w2]. simpl. destruct (clock w2) as [now w3]. simpl.
  destruct (f (nw_store n) io rnd now) as [a' s']. by intros [= _ <-].
Qed.

(** A resumption with calls found the plan and the evidence of the recorder configured. *)
Lemma consumed_plan ctx e resumer claim receipt v n res errs log n' :
  resume_consumed r ctx e resumer claim receipt v n = ((res, errs, log), n') -> log <> [] ->
  exists plan, (provide_plan (after (ctx_err ctx) (nw_world n))).1 = Ok (Some plan, rec_pipeline r) /\
    p_revision plan = rec_planRevision r.
Proof.
  unfold resume_consumed. intros (prepared & n1 & Hp & Hr)%sbind_runs Hne. destruct prepared as [[[caller st] permit]|cause].
  2:{ unfold refuse in Hr. apply sbind_runs in Hr as (? & ? & _ & Hr). injection Hr as _ _ <- _. done. }
  unfold prepare in Hp. apply sbind_runs in Hp as ([[]|] & n2 & Hc & Hp); [clear Hp|discriminate Hp..].
  unfold current_plan, configuredPlan, sbind, port, sret in Hc. unfold after.
  destruct (ctx_err ctx (nw_world n)) as [ended w1]. simpl in Hc |- *.
  destruct (bool_decide (is_Some ended)); [by simplify_eq|]. simpl in Hc.
  destruct (provide_plan w1) as [[[[plan|] evidence]|err] w2]; simpl in Hc |- *; [|by simplify_eq..].
  injection Hc as Hc _. destruct (_ || _) in Hc; [discriminate Hc|]. destruct (negb _) in Hc; [discriminate Hc|].
  injection Hc as Hc. apply andb_true_iff in Hc as [Hc1 Hc2].
  apply str_eqb_eq in Hc1. apply bool_decide_eq_true_1 in Hc2 as ->. by exists plan.
Qed.

Lemma resume_plan ctx e resumer token claimID n res errs log n' :
  Resume r ctx e resumer token claimID n = ((res, errs, log), n') -> log <> [] ->
  exists plan, (provide_plan (plan_world ctx (nw_world n))).1 = Ok (Some plan, rec_pipeline r) /\
    p_revision plan = rec_planRevision r.
Proof.
  unfold Resume. intros (claimed & n1 & Hcl & Hr)%sbind_runs Hne. destruct claimed as [claim|err]; [|by injection Hr as _ _ <- _].
  destruct (Continuation.cr_Fresh claim); [|by injection Hr as _ _ <- _]. destruct (Continuation.cr_Claim claim); [|by injection Hr as _ _ <- _].
  destruct (Continuation.cr_Receipt claim); [|by injection Hr as _ _ <- _].
  apply sbind_runs in Hr as (u & n2 & [= _ <-] & Hr). apply sbind_runs in Hr as (ended & n3 & Hc & Hr).
  apply sbind_runs in Hr as (consumed & n4 & Hco & Hr). apply transact_world in Hcl, Hco.
  assert (nw_world n3 = after (ctx_err ctx) (nw_world n1)) as Hw.
  { unfold port in Hc. unfold after. simpl in Hc. destruct (ctx_err ctx (nw_world n1)). by injection Hc as _ <-. }
  unfold plan_world. rewrite <- Hcl, <- Hw, <- Hco.
  destruct consumed as [v|err]; [by eapply consumed_plan|].
  unfold refuse in Hr. apply sbind_runs in Hr as (? & ? & _ & Hr). injection Hr as _ _ <- _. done.
Qed.

Lemma consumed_settles ctx e resumer claim receipt v n res log n' : settled_ok n ->
  resume_consumed r ctx e resumer claim receipt v n = ((res, [], log), n') -> oc_Stream (rr_Outcome r res) = None ->
  completed (nw_store n') (Continuation.rc_ID (sl_claim (nw_settler n))).
Proof.
  intros Hok. unfold resume_consumed. intros (prepared & n1 & Hp & Hr)%sbind_runs Hstream.
  pose proof (skeeps_prepare ctx v receipt n) as A1. rewrite Hp in A1. simpl in A1.
  destruct prepared as [[[caller st] permit]|cause].
  2:{ unfold refuse, fail in Hr. apply sbind_runs in Hr as (l & n5 & Hf & Hr). injection Hr as _ -> _ _.
      apply sbind_runs in Hf as ([err|] & n6 & _ & Hf); discriminate Hf. }
  apply sbind_runs in Hr as (? & n2 & H2' & Hr). apply sbind_runs in Hr as (? & n3 & H3' & Hr).
  apply sbind_runs in Hr as ([[outcome errs0] log0] & n4 & Ha & Hr). apply sbind_runs in Hr as ([res0 errs1] & n5 & Hs & Hr).
  injection Hr as -> -> _ ->.
  assert (advances n n4) as (_ & Hclaim & Hok4).
  { etrans; [exact A1|]. pose proof (skeeps_invoked false n1) as A2. rewrite H2' in A2. etrans; [exact A2|].
    assert (skeeps (set_settler install_release)) as A3 by skeep. specialize (A3 n2). rewrite H3' in A3. etrans; [exact A3|].
    pose proof (skeeps_authority e resumer caller (mkResumeClaim v receipt) (Continuation.OriginalEnvelope v) st permit n3) as A4. by rewrite Ha in A4. }
  specialize (Hok4 Hok). rewrite <- Hclaim. unfold settle_outcome in Hs. destruct (_ && _) eqn:Hb in Hs.
  { injection Hs as <- _. apply andb_true_iff in Hb as [Hb%bool_decide_eq_true_1 _]. rewrite Hstream in Hb. by destruct Hb. }
  unfold sbind at 1, get_settler at 1 in Hs. destruct (sl_settled (nw_settler n4)) eqn:Hset; [injection Hs as _ _ <-; by apply Hok4|].
  unfold sbind at 1, get_invoked at 1 in Hs. apply sbind_runs in Hs as (failed & n6 & Hrec & Hs). injection Hs as _ Hf <-.
  destruct failed as [err|]; [done|]. by eapply record_completes.
Qed.
End proofs.
End RecorderProofs.

(** ** Theorems *)
Module RecorderProps.
Import Ref Wire.Wire Model Stream.Stream Patch.Patch Manifest Protocol HostWorld Output Remote Engine.Engine Node Recorder EngineFrame ResumeLog RecorderProofs.
Import ContinuationInv Pipeline PipelineProofs EngineProps.EngineProps.

Section props.
Context `{Sha256, JsonDecoder, EnvelopeJson, PatchJson, OutputJson, InterceptJson, EngineJson, RecorderJson}.
Context `{Durable.DataProtector, Continuation.ContinuationJson}.
Context `{!Host, !Ports}.
Context (r : Recorder) (e : EngineConfig).
Implicit Types (n : NodeWorld).

(** ** Histories of a node: first executions, which may defer, resumptions with any
    token, rotations, closing and restarting. *)
Inductive NodeOp :=
| NodeStage (caller : ExecutionContext) (original : list byte) (audience stage placement : string)
| NodeResume (ctx : Ctx) (resumer : ExecutionContext) (token claimID : string)
| NodeRotate (resumer : ExecutionContext) (id : string) (revision : Z)
| NodeClose
| NodeRestart (io : Durable.OpenIO).

(** The identity of the continuation a resumption claimed. *)
Definition claimed_id (res : ResumeResult r) : string :=
  match rr_Claim r res ≫= Continuation.cr_Receipt with Some receipt => Continuation.rc_ID receipt | None => "" end.

Definition replace_store n (s : Store) : NodeWorld := mkNode (nw_world n) s (nw_settler n) (nw_invoked n).

(** One operation: the resumption it was, with its log, and the next state with
    the number of the next *Store. *)
Definition node_step (o : NodeOp) (n : NodeWorld) (next : nat) : list (string * list Event) * (NodeWorld * nat) :=
  match o with
  | NodeStage caller original audience stage placement =>
      ([], ((@ExecuteStage _ _ _ _ _ _ _ (stage_host r) (stage_engine r e) caller original audience stage placement (n, [])).2.1, next))
  | NodeResume ctx resumer token claimID =>
      let '((res, _, log), n') := Resume r ctx e resumer token claimID n in ([(claimed_id res, log)], (n', next))
  | NodeRotate resumer id revision => ([], ((RotatePending resumer id revision n).2, next))
  | NodeClose => ([], (replace_store n (Continuation.Close (nw_store n)), next))
  | NodeRestart io =>
      let s := nw_store n in
      let s' := match Continuation.Open next (Continuation.audience s) (Continuation.options s) io (Some (Continuation.db s)) with
                | (Ok s', _) => s'
                | (Err _, _) => Continuation.Close s
                end in
      ([], (replace_store n s', S next))
  end.

Fixpoint run_node (ops : list NodeOp) (n : NodeWorld) (next : nat) : list (string * list Event) * (NodeWorld * nat) :=
  match ops with
  | [] => ([], (n, next))
  | o :: ops =>
      let '(l, (n, next)) := node_step o n next in
      let '(l', s) := run_node ops n next in (l ++ l', s)
  end.

(** The endpoint executions of resumptions, by continuation. *)
Definition executions (results : list (string * list Event)) : list string :=
  concat ((fun p => replicate (endpoint_calls p.2) p.1) <$> results).

Lemma node_simulated o n next l n' next' m : node_step o n next = (l, (n', next')) -> m_store m = nw_store n -> m_next m = next ->
  exists ops more, m_store (ContinuationInv.run ops m) = nw_store n' /\ m_next (ContinuationInv.run ops m) = next' /\
    m_executed m ++ more `sublist_of` m_executed (ContinuationInv.run ops m) /\ more.*1 = executions l.
Proof.
  intros Ho Hm Hn. assert (forall n1, advances n n1 -> l = [] -> n' = n1 -> next' = next -> exists ops more,
    m_store (ContinuationInv.run ops m) = nw_store n' /\ m_next (ContinuationInv.run ops m) = next' /\
    m_executed m ++ more `sublist_of` m_executed (ContinuationInv.run ops m) /\ more.*1 = executions l) as Hadv.
  { intros n1 (Ha & _) -> -> ->. destruct (Ha m Hm) as (ops & Hs & He & Hx). exists ops, []. rewrite app_nil_r, He, Hx. done. }
  destruct o as [caller original audience stage placement|ctx resumer token claimID|resumer id revision| |io]; simpl in Ho.
  - injection Ho as <- <- <-. eapply Hadv; [|done..].
    apply (@keeps_ExecuteStage _ _ _ _ _ _ _ (stage_host r) advances _ (stage_host_keeps r) (stage_engine r e)).
  - destruct (Resume r ctx e resumer token claimID n) as [[[res errs] log] n1] eqn:Er. injection Ho as <- <- <-.
    destruct (resume_simulated r _ _ _ _ _ _ _ _ _ _ _ Er Hm) as (ops & Hs & Hx & [[H0' Hsub]|(claim & receipt & v & Hc & Hrc & Hle & He)]).
    + exists ops, []. rewrite app_nil_r. split_and!; [done|congruence|done|]. unfold executions. simpl. by rewrite H0'.
    + assert (claimed_id res = Continuation.rc_ID receipt) as Hid by (unfold claimed_id; rewrite Hc; simpl; by rewrite Hrc).
      exists ops, (replicate (endpoint_calls log) (Continuation.rc_ID receipt, v)).
      split_and!; [done|congruence| |unfold executions; simpl; by rewrite app_nil_r, Hid, fmap_replicate].
      rewrite He. apply sublist_app; [done|]. destruct (endpoint_calls log) as [|[|]]; simpl; [by constructor|done|lia].
  - injection Ho as <- <- <-. eapply Hadv; [|done..]. apply skeeps_rotate.
  - injection Ho as <- <- <-. exists [OpClose], []. simpl. rewrite app_nil_r, Hm. done.
  - injection Ho as <- <- <-. exists [OpRestart io], []. simpl. rewrite app_nil_r, Hm, Hn. done.
Qed.

Lemma nodes_simulated ops : forall n next l n' next' m, run_node ops n next = (l, (n', next')) -> m_store m = nw_store n -> m_next m = next ->
  exists sops more, m_store (ContinuationInv.run sops m) = nw_store n' /\ m_executed m ++ more `sublist_of` m_executed (ContinuationInv.run sops m) /\
    more.*1 = executions l.
Proof.
  induction ops as [|o ops IH]; intros n next l n' next' m Hr Hm Hn; cbn [run_node] in Hr.
  { injection Hr as <- <- <-. exists [], []. simpl. by rewrite app_nil_r. }
  destruct (node_step o n next) as [l1 [n1 next1]] eqn:Eo. destruct (run_node ops n1 next1) as [l2 s2] eqn:Er. injection Hr as <- ->.
  destruct (node_simulated _ _ _ _ _ _ _ Eo Hm Hn) as (ops1 & more1 & S1 & N1 & X1 & M1).
  destruct (IH _ _ _ _ _ _ Er S1 N1) as (ops2 & more2 & S2 & X2 & M2).
  exists (ops1 ++ ops2), (more1 ++ more2). rewrite run_ops_app. split_and!; [done| |].
  - etrans; [|exact X2]. rewrite app_assoc. by apply sublist_app.
  - unfold executions in *. by rewrite !fmap_app, concat_app, M1, M2.
Qed.

(** C7. A deferred invocation executes at most once. Over any history of a node, its
    first executions deferring whatever they defer, resumptions by anyone with any tokens
    and claim identities, capability rotations, failing statements and lost commit reports,
    closes and restarts, the endpoint is executed at most once for each continuation. *)
Theorem deferred_invocations_execute_at_most_once (ops : list NodeOp) n l s :
  run_node ops n (S (Continuation.st_ident (nw_store n))) = (l, s) -> NoDup (executions l).
Proof.
  destruct s as [n' next']. intros Hr.
  destruct (nodes_simulated _ _ _ _ _ _ (start (nw_store n)) Hr eq_refl eq_refl) as (sops & more & _ & Hsub & <-).
  eapply sublist_NoDup; [|apply (fmap_sublist fst); exact Hsub]. apply (ContinuationProps.gi_once _ (ContinuationProps.ginv_run sops (nw_store n))).
Qed.

(** The plan of a restored state is the recorder's. *)
Lemma stored_plan v receipt stored : stored_state r v receipt = Some stored ->
  Continuation.PlanRevision v = rec_planRevision r /\ Continuation.Pipeline v = rec_pipeline r /\
  ps_PlanRevision (pst_State stored) = rec_planRevision r.
Proof.
  unfold stored_state. intros (u & Hb & (stored' & _ & (u' & Hb' & [= ->])%bind_Some)%bind_Some)%bind_Some.
  unfold require in Hb, Hb'. case_match eqn:E'; [|done]. case_match eqn:E; [|done].
  rewrite !andb_true_iff in E. rewrite !andb_true_iff in E'. destruct E as [[[_ E1] _] E2], E' as [_ E3].
  apply str_eqb_eq in E1, E3. by apply bool_decide_eq_true_1 in E2.
Qed.

Lemma verified_text `{!ReadsBack} caller original audience v :
  DecodeVerifiedEnvelope caller original audience = Ok v -> json_text v = true.
Proof.
  unfold DecodeVerifiedEnvelope. intros Hv. rinv. eapply (decoded_text original).
  destruct (decode_envelope original); simpl in *; by simplify_eq.
Qed.

(** C8. Resumptions run as the original caller, under the plan configured now. If a
    resumption executes the endpoint, then the presented capability claimed a pending
    continuation whose stored snapshot allows the resumer; the plan provider, asked during
    this resumption, gave the plan revision and the pipeline evidence of the snapshot, and the
    engine runs that revision; the snapshot's original request authenticates, for the original
    principal; and the envelope the endpoint gets is valid and equals that original request in
    everything but target, expected revision, payload and metadata. *)
Theorem resumptions_run_as_the_original_caller ctx resumer token claimID n res errs log n' envelope answer :
  PatchProps.PatchLaws -> ReadsBack ->
  Resume r ctx e resumer token claimID n = ((res, errs, log), n') -> EDownstream envelope answer ∈ log ->
  exists w x v plan caller authenticated,
    loaded (nw_store n) (Continuation.db (nw_store n)) (claimed_id res) w x /\ Continuation.w_state w = Continuation.Pending /\
    Continuation.snapshot (nw_store n) (Continuation.r_snapshot x) = Ok v /\
    Continuation.allowed v (ec_principal resumer) = true /\ Continuation.PlanRevision v = rec_planRevision r /\
    (provide_plan (plan_world ctx (nw_world n))).1 = Ok (Some plan, Continuation.Pipeline v) /\
    p_revision plan = Continuation.PlanRevision v /\ p_revision (e_plan e) = Continuation.PlanRevision v /\
    ec_principal caller = Continuation.OriginalPrincipal v /\
    DecodeVerifiedEnvelope caller (Continuation.OriginalEnvelope v) (rec_Audience r) = Ok authenticated /\
    immutable_part envelope = immutable_part authenticated /\ Envelope_Validate envelope = Ok tt.
Proof.
  intros Hlaws Hread Hres Hin. destruct (resume_plan r _ _ _ _ _ _ _ _ _ _ Hres) as (plan & Hplan & Hrevision); [by intros ->; apply elem_of_nil in Hin|].
  destruct (resume_inv r _ _ _ _ _ _ _ _ Hres) as [(claim & Hl & _)|(claim & receipt & v & n4 & Hfc & Hrun)].
  { simpl in Hl. subst log. by apply elem_of_nil in Hin. }
  destruct Hfc as (_ & Hrc & _ & _ & w & x & Hload & Hp & Hv & Ha).
  destruct Hrun as [[cause Hrun]|Hrun].
  { unfold refuse in Hrun. apply sbind_runs in Hrun as (? & ? & _ & Hrun). injection Hrun as _ _ <- _. by apply elem_of_nil in Hin. }
  assert (claimed_id res = Continuation.rc_ID receipt) as Hid.
  { apply consumed_log in Hrun as [Hc _]. unfold claimed_id. rewrite Hc. simpl. by rewrite Hrc. }
  rewrite Hid. destruct (consumed_enters r _ _ _ _ _ _ _ _ _ _ _ _ _ Hrun Hin)
    as (caller & st & authenticated & stored & Hst & -> & Hpr & Hd & Himm & original & permit & n5 & result & p' & n6 & Hstage).
  assert (immutable_part envelope = immutable_part authenticated /\ Envelope_Validate envelope = Ok tt /\
    ps_PlanRevision (pst_State stored) = p_revision (e_plan e)) as (Hi & Hval' & Hengine).
  { apply (@resume_traces _ _ _ _ _ _ _ (resume_host r)) in Hstage
      as [_ [->|(Hval & Hrev & entered & r0 & _ & [[err Hu]|(chain & _ & Ht)])]]; [by apply elem_of_nil in Hin| |].
    { apply (@unwinding_log _ _ _ _ (resume_host r)) in Hu as [(Hq & _)%unwinding_quiet _]. by destruct (no_endpoint _ _ _ Hq Hin). }
    rewrite Himm. apply and_assoc. split; [|exact Hrev]. eapply (@asking_preserves _ _ _ _ (resume_host r)); [done..|exact Ht| |done|exact Hin|done].
    rewrite <- (immutable_text _ _ Himm). by eapply verified_text. }
  destruct (stored_plan _ _ _ Hst) as (E1 & E2 & E3). exists w, x, v, plan, caller, authenticated.
  split_and!; try done; congruence.
Qed.

(** A resumption that reports success is settled. When Resume returns without an error and
    without a stream, the continuation it freshly claimed is durably complete: its outcome was
    verified and recorded, whatever failed on the way. *)
Theorem successful_resumptions_are_settled ctx resumer token claimID n res log n' claim :
  Resume r ctx e resumer token claimID n = ((res, [], log), n') -> rr_Claim r res = Some claim ->
  Continuation.cr_Fresh claim = true -> oc_Stream (rr_Outcome r res) = None -> completed (nw_store n') (claimed_id res).
Proof.
  intros Hres Hcl Hfr Hstream. destruct (resume_inv r _ _ _ _ _ _ _ _ Hres) as [(c & _ & Hc & Hno)|(c & receipt & v & n4 & Hfc & Hrun)].
  { simpl in Hc. rewrite Hcl in Hc. rewrite (Hno _ (eq_sym Hc)) in Hfr. done. }
  destruct Hrun as [[cause Hrun]|Hrun].
  { unfold refuse, fail in Hrun. apply sbind_runs in Hrun as (l & n5 & Hf & Hrun). injection Hrun as _ -> _ _.
    apply sbind_runs in Hf as ([err|] & n6 & _ & Hf); discriminate Hf. }
  destruct Hfc as (_ & Hrc & Hsl & Hset & _). destruct (consumed_log _ _ _ _ _ _ _ _ _ _ _ _ Hrun) as [Hclaim _].
  assert (claimed_id res = Continuation.rc_ID receipt) as -> by (unfold claimed_id; rewrite Hclaim; simpl; by rewrite Hrc).
  rewrite <- Hsl. eapply consumed_settles; [|exact Hrun|done]. intros Hs. by rewrite Hset in Hs.
Qed.
End props.
End RecorderProps.

Module RecorderWitness.
Import Ref Wire.Wire Model Stream.Stream Patch.Patch Manifest Protocol HostWorld Output Remote Engine.Engine Node Recorder ResumeLog RecorderProofs RecorderProps.
Import RefWitness Wire.WireWitness FabricModel.ModelWitness PatchWitness PlanWitness EngineProps.EngineWitness.
Import DurableProps.DurableWitness.

Definition n_id : string := hex_encode (replicate 32 x0a).
Definition n_claim_id : string := hex_encode (replicate 32 x0b).
Definition n_now : Time := 1700000000 * 10 ^ 9.
Definition n_pipeline : list byte := [x7b; x7d].
Definition n_recorder : Recorder := mkRecorder "aud" DefaultWireLimits (p_revision w_compiled) n_pipeline.

(** Both interceptors were entered; the invocation waits for the endpoint. *)
Definition n_state : PipelineState :=
  mkState pipeline_format (p_revision w_compiled) (d_envelope (bytes_of "{}")) "invoke.dispatch" "source" 2
    ["acme.guard.second"; "acme.guard.first"] ["acme.guard.second"; "acme.guard.first"] 0 [] n_id.
Definition n_persisted : persistedState :=
  mkPersisted node_format n_state (mkDeferral (n_now + time_Hour) ["user:ann"] true) w_first (ec_provenance w_caller).
Definition n_snapshot : Snapshot :=
  Continuation.mkSnapshot 1 n_id w_original sample_principal [sample_principal] (p_revision w_compiled) plan_version
    (hash n_pipeline) n_pipeline [x5b; x5d] [].

#[export] Instance n_recorder_json : RecorderJson :=
  {| marshal_persisted := fun _ => Some [x5b; x5d]; decode_persisted := fun _ => Some n_persisted |}.
#[export] Instance n_continuation_json : Continuation.ContinuationJson :=
  {| Continuation.marshal_snapshot := fun v => Some (bytes_of (Continuation.DeferralID v));
     Continuation.unmarshal_snapshot := fun _ => Some n_snapshot;
     Continuation.marshal_receipt := fun rc => Some (bytes_of (Continuation.rc_ID rc ++ Continuation.rc_ClaimID rc));
     Continuation.unmarshal_receipt := fun _ => Some (Continuation.mkReceipt n_id n_claim_id sample_principal "aud"
       (hex_encode (sha256 (bytes_of n_id))) (hash n_pipeline) 1 0);
     Continuation.marshal_outcome := fun o => Some (Continuation.oc_Data o);
     Continuation.unmarshal_outcome := fun b => Some (Continuation.mkOutcome "completed" b);
     Continuation.marshal_notification := fun n => Some (bytes_of (Continuation.np_Token n));
     Continuation.unmarshal_notification := fun b => None;
     Continuation.marshal_identity := fun i => Some (Continuation.pi_Proof i);
     Continuation.unmarshal_identity := fun b => Some (Continuation.mkProtected 3 "aud" (Durable.mkKeyRef "key" "1") b);
     Continuation.marshal_principal := fun p => bytes_of (p_Ref p);
     Continuation.marshal_protection := fun format purpose aud id key => bytes_of (purpose ++ aud ++ id) |}.

#[export] Instance n_ports : Ports :=
  {| tx_io := fun w => (io_ok, w);
     randomness := fun w => (Continuation.mkRand (Some (replicate 32 x2a)) [] (fun _ => []), w);
     provide_plan := fun w => (Ok (Some w_compiled, n_pipeline), w);
     ResolvePrincipal := fun _ w => (Ok sample_principal, w);
     SaveDeferredAdmission := fun _ _ w => (Ok [x01], w);
     Notify := fun _ w => (None, w);
     RestoreOriginal := fun _ w => (Ok w_caller, w);
     VerifyEvidence := fun _ _ w => (Ok (Continuation.mkOutcome "completed" n_pipeline), w);
     authority_enters := fun _ _ _ w => (Some w_caller, w);
     authority_returns := fun _ w => ((false, None), w);
     release_claim := fun w => (tt, w) |}.

Definition n_empty : Continuation.Store :=
  match (Continuation.Bootstrap 0 "aud" Continuation.DefaultOptions Durable.open_ok [] None).1 with
  | Ok s => s
  | Err _ => Continuation.mkStore 0 "" Continuation.DefaultOptions (Durable.mkKeyRef "" "") true Continuation.empty_db
  end.
Definition n_token : string := n_id ++ "." ++ base64url (replicate 32 x2a).
Definition n_node : NodeWorld :=
  mkNode [] (Continuation.Create n_empty io_ok (Continuation.mkRand (Some (replicate 32 x2a)) [] (fun _ => [])) w_caller n_snapshot
               (n_now + time_Hour) n_now).2
    (mkSettler w_caller (Continuation.mkReceipt "" "" sample_principal "" "" "" 0 0) zero_context "" false false false) false.

Definition n_resume := NodeResume Consumer w_caller n_token n_claim_id.

(** Two resumptions with the same capability, a restart between them. *)
Lemma n_executed : executions (run_node n_recorder w_engine [n_resume; NodeRestart Durable.open_ok; n_resume] n_node 1).1 = [n_id].
Proof. vm_compute. reflexivity. Defined.

Lemma deferred_invocations_witness :
  exists l s, run_node n_recorder w_engine [n_resume; NodeRestart Durable.open_ok; n_resume] n_node 1 = (l, s) /\
    executions l = [n_id] /\ NoDup (executions l).
Proof.
  pose proof n_executed as Hx.
  destruct (run_node n_recorder w_engine [n_resume; NodeRestart Durable.open_ok; n_resume] n_node 1) as [l s] eqn:Er.
  exists l, s. split; [reflexivity|]. split; [exact Hx|].
  apply (deferred_invocations_execute_at_most_once n_recorder w_engine [n_resume; NodeRestart Durable.open_ok; n_resume] n_node l s).
  exact Er.
Defined.

Definition n_resumed := Resume n_recorder Consumer w_engine w_caller n_token n_claim_id n_node.

Lemma n_endpoint : exists v answer, EDownstream v answer ∈ n_resumed.1.2.
Proof.
  assert (length (endpoints n_resumed.1.2) = 1%nat) as Hl by (vm_compute; reflexivity).
  destruct (endpoints n_resumed.1.2) as [|v l] eqn:Ev; [discriminate Hl|].
  exists v. apply elem_of_endpoints. rewrite Ev. by left.
Defined.

Lemma resumptions_run_witness :
  exists envelope answer authenticated, EDownstream envelope answer ∈ n_resumed.1.2 /\ immutable_part envelope = immutable_part authenticated.
Proof.
  destruct n_endpoint as (envelope & answer & Hin). unfold n_resumed in *.
  destruct (Resume n_recorder Consumer w_engine w_caller n_token n_claim_id n_node) as [[[res errs] log] n'] eqn:Er.
  destruct (resumptions_run_as_the_original_caller n_recorder w_engine Consumer w_caller n_token n_claim_id n_node res errs log n' envelope answer
    d_laws w_reads_back Er Hin) as (w & x & v & plan & caller & authenticated & _ & _ & _ & _ & _ & _ & _ & _ & _ & _ & Hi & _).
  exists envelope, answer, authenticated. split; [exact Hin|exact Hi].
Defined.

Definition n_succeeds (out : ResumeResult n_recorder * list CallError * list Event) : bool :=
  match out with
  | (mkResult _ (Some claim) outcome, [], _) => Continuation.cr_Fresh claim && negb (bool_decide (is_Some (oc_Stream outcome)))
  | _ => false
  end.

Lemma successful_resumptions_witness : completed (nw_store n_resumed.2) n_id.
Proof.
  assert (n_succeeds n_resumed.1 = true /\ claimed_id n_recorder n_resumed.1.1.1 = n_id) as [Hs Hid] by (vm_compute; split; reflexivity).
  unfold n_resumed in *.
  destruct (Resume n_recorder Consumer w_engine w_caller n_token n_claim_id n_node) as [[[res errs] log] n'] eqn:Er.
  cbn [fst snd] in *. destruct res as [[claim|] outcome]; [|discriminate Hs]. destruct errs; [|discriminate Hs].
  apply andb_true_iff in Hs as [Hf Hn]. rewrite <- Hid.
  apply (successful_resumptions_are_settled n_recorder w_engine Consumer w_caller n_token n_claim_id n_node _ log n' claim Er);
    [reflexivity|exact Hf|]. cbn [rr_Outcome]. destruct (oc_Stream outcome); [discriminate Hn|reflexivity].
Defined.
End RecorderWitness.
