(* ===== verification/FileStore.v ===== *)
(** * Private files that survive power loss

    The bridges keep small files in a private directory and replace them with
    the temporary-write, sync, rename, directory-sync sequence. [Disk] keeps the
    directory twice: what the running system sees, and what a power loss would
    leave behind. A rename is visible at once and durable once the directory is
    synced; the file system may also persist any pending entry by itself
    ([flush]). [atomicWrite], [syncDir] and [readPrivate] are those of
    src/internal/textbridge/sender/store.go.

    File modes, symbolic links and the creation of the directory are outcome
    flags: no other program writes to the directory. *)
From Stdlib Require Import Strings.Byte ZArith Lia.
From S2P Require Import Prelude GoStrings.
#[local] Open Scope Z_scope.

Module FileStore.

(** Directory entries and their contents. *)
Notation Dir := (gmap string (list byte)) (only parsing).

Record Disk := mkDisk { visible : Dir; durable : Dir }.

(** fsync of the directory. *)
Definition sync (d : Disk) : Disk := mkDisk (visible d) (visible d).
(** The file system persists one pending entry of its own accord. *)
Definition flush (name : string) (d : Disk) : Disk :=
  mkDisk (visible d) (partial_alter (fun _ => visible d !! name) name (durable d)).
(** Power is lost and the directory mounted again. *)
Definition power_loss (d : Disk) : Disk := mkDisk (durable d) (durable d).

Definition put (name : string) (data : list byte) (d : Disk) : Disk :=
  mkDisk (<[name := data]> (visible d)) (durable d).
Definition unlink (name : string) (d : Disk) : Disk := mkDisk (delete name (visible d)) (durable d).
Definition rename (from to : string) (data : list byte) (d : Disk) : Disk :=
  mkDisk (<[to := data]> (delete from (visible d))) (durable d).

(** What each system call of a write does; [w_temp] is the random part of the
    temporary name. *)
Record WriteIO := mkWriteIO {
  w_temp : string; w_create : bool; w_write : bool; w_sync : bool; w_close : bool;
  w_lstat : bool; w_rename : bool; w_dirsync : bool; w_remove : bool }.

Definition write_ok (temp : string) : WriteIO := mkWriteIO temp true true true true true true true true.

(** os.CreateTemp(dir, ".sender-*"). *)
Definition temp_name (io : WriteIO) : string := ".sender-" ++ w_temp io.

(** syncDir(dir). *)
Definition syncDir (ok : bool) (d : Disk) : bool * Disk := if ok then (true, sync d) else (false, d).

(** The deferred os.Remove of the temporary file. *)
Definition remove_temp (io : WriteIO) (d : Disk) : Disk := if w_remove io then unlink (temp_name io) d else d.

(** atomicWrite: true when it returned nil. *)
Definition atomicWrite (io : WriteIO) (name : string) (data : list byte) (d : Disk) : bool * Disk :=
  let temp := temp_name io in
  if negb (w_create io) || bool_decide (is_Some (visible d !! temp)) then (false, d) else
  let d := put temp [] d in
  if negb (w_write io) then (false, remove_temp io d) else
  let d := put temp data d in
  if negb (w_sync io && w_close io && w_lstat io && w_rename io) then (false, remove_temp io d) else
  let d := rename temp name data d in
  let '(ok, d) := syncDir (w_dirsync io) d in
  (ok, remove_temp io d).

Inductive ReadErr := ReadFailed | TooLarge.

(** readPrivate, on the visible directory. *)
Definition readPrivate (io : bool) (name : string) (max : Z) (d : Disk) : result ReadErr (list byte) :=
  let? _ := guard io ReadFailed in
  let? b := of_option (visible d !! name) ReadFailed in
  let? _ := guard (blen b <=? max) TooLarge in
  Ok b.

(** ** What a write can do to an entry *)
Definition is_temp (name : string) : bool := has_prefix name ".sender-".

Lemma temp_name_is_temp io : is_temp (temp_name io) = true.
Proof. unfold is_temp, temp_name. cbn. by destruct (w_temp io). Qed.

Lemma not_temp io name : is_temp name = false -> temp_name io <> name.
Proof. intros Hn Heq. pose proof (temp_name_is_temp io). congruence. Qed.

Lemma remove_temp_durable io d : durable (remove_temp io d) = durable d.
Proof. unfold remove_temp. by case_match. Qed.

Lemma remove_temp_visible io d name : is_temp name = false -> visible (remove_temp io d) !! name = visible d !! name.
Proof. intros Hn. unfold remove_temp. case_match; [|done]. cbn. by rewrite lookup_delete_ne by by apply not_temp. Qed.

(** A write that reports success has made its contents durable. *)
Lemma atomicWrite_ok io name data d d' : is_temp name = false -> atomicWrite io name data d = (true, d') ->
  forall n, is_temp n = false ->
  durable d' !! n = <[name := data]> (visible d) !! n /\ visible d' !! n = <[name := data]> (visible d) !! n.
Proof.
  intros Hn. unfold atomicWrite, syncDir. destruct (_ || _); [done|]. destruct (negb (w_write io)); [done|].
  destruct (negb _); [done|]. destruct (w_dirsync io); [|done]. intros [= <-] n Hm.
  rewrite remove_temp_durable, remove_temp_visible by done. cbn.
  destruct (decide (n = name)) as [->|]; [by rewrite !lookup_insert_eq|].
  rewrite !lookup_insert_ne by done. by rewrite lookup_delete_ne, !lookup_insert_ne by by apply not_temp.
Qed.

(** A write that fails leaves the durable directory alone; the entry is the old
    one or the new one, and no other entry changes. *)
Lemma atomicWrite_fail io name data d d' : is_temp name = false -> atomicWrite io name data d = (false, d') ->
  durable d' = durable d /\
  (forall n, is_temp n = false -> n <> name -> visible d' !! n = visible d !! n) /\
  (visible d' !! name = visible d !! name \/ visible d' !! name = Some data).
Proof.
  intros Hn. assert (Hput : forall n c d0, is_temp n = false -> visible (put (temp_name io) c d0) !! n = visible d0 !! n).
  { intros n c d0 Hm. cbn. by rewrite lookup_insert_ne by by apply not_temp. }
  unfold atomicWrite, syncDir. destruct (_ || _); [intros [= <-]; by eauto|]. destruct (negb (w_write io)).
  { intros [= <-]. rewrite remove_temp_durable. split; [done|]. split; [|left]; intros; by rewrite remove_temp_visible, Hput. }
  destruct (negb _).
  { intros [= <-]. rewrite remove_temp_durable. split; [done|]. split; [|left]; intros; by rewrite remove_temp_visible, !Hput. }
  destruct (w_dirsync io); [done|]. intros [= <-]. rewrite remove_temp_durable. split; [done|].
  split; [|right; rewrite remove_temp_visible by done; cbn; by rewrite lookup_insert_eq].
  intros n Hm Hne. rewrite remove_temp_visible by done. cbn. rewrite lookup_insert_ne by done.
  by rewrite lookup_delete_ne, !lookup_insert_ne by by apply not_temp.
Qed.

(** The atomic write of a fault-free system succeeds. *)
Lemma atomicWrite_writes temp name data d : visible d !! temp_name (write_ok temp) = None ->
  (atomicWrite (write_ok temp) name data d).1 = true.
Proof. intros Hn. unfold atomicWrite. rewrite Hn. rewrite bool_decide_false by (by intros []). done. Qed.
End FileStore.
