(* ===== verification/Sender.v ===== *)
(** * The sender's operation store (src/internal/textbridge/sender/store.go)

    The sender of the text bridge keeps its ASKs in one sealed file. An ASK is
    reserved, enters preparation, is prepared by the SDK, admitted by the
    service, and finally answered. Every method loads and authenticates the file
    again, and replaces it atomically when it changes something; a handle whose
    write failed is unusable until the store is opened again.

    A method is a computation of [M]: it takes the outcomes of its system calls
    ([OpIO]) and the handle and disk it runs on. Parameters: AES-GCM ([AesGcm]),
    encoding/json of the state ([SenderJson]), github.com/google/uuid ([Uuid])
    and net/url with strings.ToLower ([UrlParser]). *)
From Stdlib Require Import Ascii Strings.Byte ZArith Lia.
From S2P Require Import Prelude GoStrings FabricRef Framing Wire FabricModel SqlTx Ledger FileStore.
#[local] Open Scope Z_scope.

(** ** Runes of valid UTF-8 *)
Module Runes.

(** A continuation byte contributes its low six bits. *)
Definition low6 (c : ascii) : Z := code c mod 64.

(** The runes of a valid UTF-8 string. *)
Fixpoint runes (s : string) : list Z :=
  match s with
  | EmptyString => []
  | String a s1 =>
      if code a <? 128 then code a :: runes s1
      else match s1 with
      | EmptyString => [65533]
      | String b s2 =>
          if code a <? 224 then (code a mod 32 * 64 + low6 b) :: runes s2
          else match s2 with
          | EmptyString => [65533]
          | String c s3 =>
              if code a <? 240 then ((code a mod 16 * 64 + low6 b) * 64 + low6 c) :: runes s3
              else match s3 with
              | EmptyString => [65533]
              | String d s4 => (((code a mod 8 * 64 + low6 b) * 64 + low6 c) * 64 + low6 d) :: runes s4
              end
          end
      end
  end.

(** unicode.IsSpace. *)
Definition IsSpace (r : Z) : bool :=
  ((9 <=? r) && (r <=? 13)) || (r =? 32) || (r =? 133) || (r =? 160) || (r =? 5760) ||
  ((8192 <=? r) && (r <=? 8202)) || (r =? 8232) || (r =? 8233) || (r =? 8239) || (r =? 8287) || (r =? 12288).

(** [strings.TrimSpace(s) != ""]. *)
Definition not_blank (s : string) : bool := existsb (fun r => negb (IsSpace r)) (runes s).
(** utf8.RuneCountInString. *)
Definition RuneCount (s : string) : Z := Z.of_nat (length (runes s)).
End Runes.

(** github.com/google/uuid: what the store asks of a parsed identifier. *)
Record UUID := mkUUID { u_nil : bool; u_rfc4122 : bool; u_version : Z; u_String : string }.
Class Uuid := { uuid_Parse : string -> option UUID }.

(** net/url: what the store asks of a parsed URL. *)
Record URL := mkURL {
  u_Scheme : string; u_HasUser : bool; u_Host : string; u_Hostname : string; u_Port : string;
  u_Path : string; u_RawQuery : string; u_Fragment : string }.
Class UrlParser := { url_Parse : string -> option URL; ToLower : string -> string }.

(** crypto/aes and crypto/cipher: the AEAD of a key, and its overhead. *)
Class AesGcm := { gcm : list byte -> Aead; Overhead : nat }.

Module Sender.
Import FileStore.

Definition MaxPromptChars : Z := 16000.
Definition MaxReplyChars : Z := 16000.
Definition maxStateBytes : Z := 67108864.

(** A Phase is a string ([PhaseAdmitted] is the constant "admitted"); [OtherPhase] stands for every other text. *)
Inductive Phase := Reserved | Preparing | Prepared | PhaseAdmitted | OtherPhase (s : string).
#[export] Instance phase_eq_dec : EqDecision Phase.
Proof. solve_decision. Defined.

Inductive SendErr :=
| ErrInvalid | ErrConflict | ErrDisabled | ErrNotFound | ErrContext | ErrIO | ErrJson
| ErrText (message : string) | RetryableError (e : SendErr) | TerminalError (e : SendErr).
#[export] Instance send_err_eq_dec : EqDecision SendErr.
Proof. solve_decision. Defined.

Record Binding := mkBinding { ServiceOrigin : string; PrincipalID : string; ProjectContract : string }.
#[export] Instance binding_eq_dec : EqDecision Binding.
Proof. solve_decision. Defined.

(** sdk.SharingProjectMessageReceipt. *)
Record Receipt := mkReceipt {
  rc_MessageID : string; rc_AdmissionSeq : Z; rc_RequestDigest : list byte; rc_Status : string;
  rc_CreatedAt : Time; rc_AcknowledgedAt : option Time }.
#[export] Instance receipt_eq_dec : EqDecision Receipt.
Proof. solve_decision. Defined.

Record Reply := mkReply {
  rp_ProjectID : string; rp_AskID : string; rp_ReplyID : string; rp_WireDigest : string;
  rp_SenderID : string; rp_RecipientID : string; rp_Text : string }.
#[export] Instance reply_eq_dec : EqDecision Reply.
Proof. solve_decision. Defined.

Record Operation := mkOperation {
  o_ProjectID : string; o_AskID : string; o_RecipientID : string; o_PromptDigest : string;
  o_Phase : Phase; o_WireDigest : string; o_Receipt : option Receipt; o_Reply : option Reply }.
#[export] Instance operation_eq_dec : EqDecision Operation.
Proof. solve_decision. Defined.

Record storedOperation := mkStored { so_Operation : Operation; so_Prompt : string }.

Record state := mkState {
  Disabled : bool; Version : Z; st_Binding : Binding; Operations : gmap string storedOperation }.

(** The handle. The AEAD is the one of [s_key]. *)
Record Store := mkStore { s_key : list byte; s_keyDigest : string; s_state : state; s_failed : bool }.

(** sdk.PreparedSharingProjectMessage. *)
Record PreparedMessage := mkPrepared { pm_ID : string; pm_Wire : list byte }.

(** encoding/json of the state. Unmarshal also tells whether the operations were
    present: a missing or null object leaves a nil map. *)
Class SenderJson := {
  marshal_state : state -> option (list byte);
  unmarshal_state : list byte -> option (state * bool);
}.

(** The outcomes of the system calls of one method: ctx.Err() is nil, the key
    and state files are readable, the random nonce, the write, and the order in
    which Go ranges over the operations. *)
Record OpIO := mkOpIO {
  io_ctx : bool; io_key : bool; io_state : bool; io_nonce : option (list byte); io_write : WriteIO;
  io_range : gset string -> list string }.

Section sender.
Context `{Sha256, AesGcm, SenderJson, Uuid, UrlParser}.

Definition validID (id : string) (v7 : bool) : bool :=
  match uuid_Parse id with
  | Some u => negb (u_nil u) && u_rfc4122 u && str_eqb (u_String u) id && (negb v7 || (u_version u =? 7))
  | None => false
  end.

(** The decimal value of a port ([URL.Port] holds digits only). *)
Fixpoint port_value (acc : Z) (s : string) : option Z :=
  match s with
  | EmptyString => Some acc
  | String c s' => if is_digit c then port_value (acc * 10 + (code c - 48)) s' else None
  end.

(** net.JoinHostPort. *)
Definition JoinHostPort (host port : string) : string :=
  if contains_char ":" host then "[" ++ host ++ "]:" ++ port else host ++ ":" ++ port.

Definition normalizeBinding (b : Binding) : result SendErr Binding :=
  let? _ := guard (negb (negb (str_eqb (ProjectContract b) "") && negb (str_eqb (ProjectContract b) "sdk_project_v2") &&
                         negb (str_eqb (ProjectContract b) "owner_text_project_v1"))) ErrInvalid in
  let? u := of_option (url_Parse (ServiceOrigin b)) ErrInvalid in
  let? _ := guard (negb (str_eqb (u_Host u) "" ||
                         (negb (str_eqb (u_Scheme u) "https") && negb (str_eqb (u_Scheme u) "http")) ||
                         u_HasUser u || negb (str_eqb (u_RawQuery u) "") || negb (str_eqb (u_Fragment u) "") ||
                         (negb (str_eqb (u_Path u) "") && negb (str_eqb (u_Path u) "/")) ||
                         negb (validID (PrincipalID b) false))) ErrInvalid in
  let host := ToLower (u_Hostname u) in
  let port := u_Port u in
  let? _ := guard (negb (str_eqb host "")) ErrInvalid in
  let? _ := guard (str_eqb port "" ||
                   match port_value 0 port with Some n => negb ((n <? 1) || (65535 <? n)) | None => false end) ErrInvalid in
  let port := if (str_eqb (u_Scheme u) "https" && str_eqb port "443") || (str_eqb (u_Scheme u) "http" && str_eqb port "80")
              then ""%string else port in
  let host := if negb (str_eqb port "") then JoinHostPort host port
              else if contains_char ":" host then ("[" ++ host ++ "]")%string else host in
  Ok (mkBinding (u_Scheme u ++ "://" ++ host) (PrincipalID b) (ProjectContract b)).

Definition digest (raw : list byte) : string := hex_encode (sha256 raw).

Definition validDigest (s : string) : bool :=
  match hex_decode s with Some b => (blen b =? 32) && str_eqb (hex_encode b) s | None => false end.

Definition validText (s : string) (limit : Z) : bool :=
  (len s <=? limit * 4) && utf8_valid s && Runes.not_blank s && (Runes.RuneCount s <=? limit).

Definition operationKey (project ask : string) : string := project ++ "/" ++ ask.

Definition validReceipt (o : Operation) (r : Receipt) : bool :=
  str_eqb (rc_MessageID r) (o_AskID o) && str_eqb (hex_encode (rc_RequestDigest r)) (o_WireDigest o) &&
  (0 <? rc_AdmissionSeq r) && negb (IsZero (rc_CreatedAt r)) &&
  (str_eqb (rc_Status r) "pending" || str_eqb (rc_Status r) "acknowledged").

Definition validReply (b : Binding) (o : Operation) (r : Reply) : bool :=
  str_eqb (rp_ProjectID r) (o_ProjectID o) && str_eqb (rp_AskID r) (o_AskID o) && validID (rp_ReplyID r) true &&
  validDigest (rp_WireDigest r) && str_eqb (rp_SenderID r) (o_RecipientID o) &&
  str_eqb (rp_RecipientID r) (PrincipalID b) && validText (rp_Text r) MaxReplyChars.

(** The checks [read] makes of one stored operation. *)
Definition phase_ok (o : Operation) : bool :=
  match o_Phase o with
  | Reserved | Preparing => str_eqb (o_WireDigest o) "" && bool_decide (o_Receipt o = None)
  | Prepared => validDigest (o_WireDigest o) && bool_decide (o_Receipt o = None)
  | PhaseAdmitted => validDigest (o_WireDigest o) && match o_Receipt o with Some r => validReceipt o r | None => false end
  | OtherPhase _ => false
  end.

Definition stored_ok (b : Binding) (key : string) (stored : storedOperation) : bool :=
  let o := so_Operation stored in
  str_eqb key (operationKey (o_ProjectID o) (o_AskID o)) && validID (o_ProjectID o) false && validID (o_AskID o) true &&
  validID (o_RecipientID o) false && validText (so_Prompt stored) MaxPromptChars &&
  str_eqb (o_PromptDigest o) (digest (bytes_of (so_Prompt stored))) && phase_ok o &&
  match o_Reply o with Some r => validReply b o r | None => true end.

Definition senderAAD : list byte := bytes_of "text-bridge-sender-v1".

(** (s *Store) read. *)
Definition read (io : OpIO) (key : list byte) (d : Disk) : result SendErr state :=
  match readPrivate (io_state io) "state" maxStateBytes d with
  | Err TooLarge => Err ErrInvalid
  | Err ReadFailed => Err ErrIO
  | Ok sealed =>
      let n := @NonceSize (gcm key) in
      let? _ := guard (negb (blen sealed <? Z.of_nat n)) ErrInvalid in
      let? plain := of_option (@aead_Open (gcm key) (take n sealed) (drop n sealed) senderAAD) ErrInvalid in
      let? '(st, present) := of_option (unmarshal_state plain) ErrInvalid in
      let? _ := guard ((Version st =? 1) && present) ErrInvalid in
      let? _ := guard (match normalizeBinding (st_Binding st) with
                       | Ok b => bool_decide (b = st_Binding st) | Err _ => false end) ErrInvalid in
      let? _ := guard (forallb (fun kv => stored_ok (st_Binding st) kv.1 kv.2) (map_to_list (Operations st))) ErrInvalid in
      Ok st
  end.

(** (s *Store) persist. *)
Definition persist (io : OpIO) (key : list byte) (st : state) (d : Disk) : result SendErr unit * Disk :=
  match marshal_state st with
  | None => (Err ErrJson, d)
  | Some plain =>
      let n := @NonceSize (gcm key) in
      if maxStateBytes <? blen plain + Z.of_nat n + Z.of_nat Overhead then (Err ErrInvalid, d) else
      match io_nonce io with
      | None => (Err ErrIO, d)
      | Some raw =>
          let nonce := resize n x00 raw in
          let '(ok, d') := atomicWrite (io_write io) "state" (nonce ++ @aead_Seal (gcm key) nonce plain senderAAD) d in
          (if ok then Ok tt else Err ErrIO, d')
      end
  end.

(** ** Methods *)
Definition M (A : Type) : Type := OpIO -> Store -> Disk -> result SendErr A * (Store * Disk).

Definition m_ret {A} (a : A) : M A := fun _ s d => (Ok a, (s, d)).
Definition m_err {A} (e : SendErr) : M A := fun _ s d => (Err e, (s, d)).
Definition m_bind {A B} (c : M A) (k : A -> M B) : M B :=
  fun io s d => match c io s d with
                | (Ok a, (s', d')) => k a io s' d'
                | (Err e, sd) => (Err e, sd)
                end.
Definition m_guard (b : bool) (e : SendErr) : M unit := if b then m_ret tt else m_err e.
(** The handle's own copy of the state, after [load] what the file holds. *)
Definition m_state : M state := fun _ s d => (Ok (s_state s), (s, d)).

#[local] Notation "'let^' x ':=' c 'in' k" := (m_bind c (fun x => k))
  (at level 10, x name, c at level 100, k at level 200).

Definition set_state (s : Store) (st : state) : Store := mkStore (s_key s) (s_keyDigest s) st (s_failed s).
Definition fail_store (s : Store) : Store := mkStore (s_key s) (s_keyDigest s) (s_state s) true.

(** (s *Store) load. *)
Definition load_state (io : OpIO) (s : Store) (d : Disk) : result SendErr state :=
  let? _ := guard (io_ctx io) ErrContext in
  let? _ := guard (negb (s_failed s)) ErrInvalid in
  let? key := match readPrivate (io_key io) "key" 32 d with Ok k => Ok k | Err _ => Err ErrInvalid end in
  let? _ := guard ((blen key =? 32) && str_eqb (digest key) (s_keyDigest s)) ErrInvalid in
  let? st := read io (s_key s) d in
  let? _ := guard (bool_decide (st_Binding st = st_Binding (s_state s))) ErrInvalid in
  Ok st.

Definition load : M unit := fun io s d =>
  match load_state io s d with
  | Ok st => (Ok tt, (set_state s st, d))
  | Err e => (Err e, (s, d))
  end.

(** s.persist(s.state), where a failure makes the handle unusable. *)
Definition persist_or_fail (st : state) : M unit := fun io s d =>
  match persist io (s_key s) st d with
  | (Ok _, d') => (Ok tt, (set_state s st, d'))
  | (Err e, d') => (Err e, (fail_store (set_state s st), d'))
  end.

Definition set_operations (st : state) (ops : gmap string storedOperation) : state :=
  mkState (Disabled st) (Version st) (st_Binding st) ops.
Definition stored_key (stored : storedOperation) : string :=
  operationKey (o_ProjectID (so_Operation stored)) (o_AskID (so_Operation stored)).

(** (s *Store) save; the clones of the source are copies of immutable values. *)
Definition save (stored : storedOperation) : M Operation :=
  let^ st := m_state in
  let^ _ := persist_or_fail (set_operations st (<[stored_key stored := stored]> (Operations st))) in
  m_ret (so_Operation stored).

(** (s *Store) get. *)
Definition get (project ask : string) : M storedOperation :=
  let^ _ := m_guard (validID project false && validID ask true) ErrInvalid in
  let^ st := m_state in
  match Operations st !! operationKey project ask with
  | Some o => m_ret o
  | None => m_err ErrNotFound
  end.

(** The first operation of the range with this ASK. *)
Definition find_ask (order : list string) (ops : gmap string storedOperation) (ask : string) : option storedOperation :=
  head (filter (fun stored => o_AskID (so_Operation stored) = ask) (omap (fun k => ops !! k) order)).

Definition ReserveWithID (project recipient ask prompt : string) : M Operation := fun io =>
  (let^ _ := load in
   let^ st := m_state in
   let^ _ := m_guard (negb (Disabled st)) ErrDisabled in
   let^ _ := m_guard (validID project false && validID recipient false && validID ask true &&
                      validText prompt MaxPromptChars) ErrInvalid in
   let promptDigest := digest (bytes_of prompt) in
   match find_ask (io_range io (dom (Operations st))) (Operations st) ask with
   | Some stored =>
       let o := so_Operation stored in
       let^ _ := m_guard (negb (negb (str_eqb (o_ProjectID o) project) || negb (str_eqb (o_RecipientID o) recipient) ||
                                negb (str_eqb (o_PromptDigest o) promptDigest) ||
                                negb (str_eqb (so_Prompt stored) prompt))) ErrConflict in
       m_ret o
   | None => save (mkStored (mkOperation project ask recipient promptDigest Reserved "" None None) prompt)
   end) io.

(** Reserve; [id] is uuid.NewV7. *)
Definition Reserve (id : option string) (project recipient prompt : string) : M Operation :=
  match id with
  | None => m_err ErrIO
  | Some id => ReserveWithID project recipient id prompt
  end.

Definition Get (project ask : string) : M Operation :=
  let^ _ := load in
  let^ o := get project ask in
  m_ret (so_Operation o).

Definition known_phase (p : Phase) : bool := match p with OtherPhase _ => false | _ => true end.

(** The rows are ordered by operation key, the key of the map. *)
Definition key_le (a b : string * storedOperation) : Prop := String.le a.1 b.1.
#[export] Instance key_le_dec a b : Decision (key_le a b).
Proof. unfold key_le. apply _. Defined.

Definition List_ (phases : list Phase) : M (list Operation) :=
  let^ _ := load in
  let^ _ := m_guard (forallb known_phase phases) ErrInvalid in
  let^ st := m_state in
  m_ret (map (fun kv => so_Operation kv.2)
    (merge_sort key_le (filter (fun kv => (bool_decide (phases = []) || bool_decide (o_Phase (so_Operation kv.2) ∈ phases)) = true)
                               (map_to_list (Operations st))))).

Definition RecoverPrompt (project ask : string) : M string :=
  let^ _ := load in
  let^ o := get project ask in
  m_ret (so_Prompt o).

Definition set_phase (stored : storedOperation) (p : Phase) (wire : string) (r : option Receipt) : storedOperation :=
  let o := so_Operation stored in
  mkStored (mkOperation (o_ProjectID o) (o_AskID o) (o_RecipientID o) (o_PromptDigest o) p wire r (o_Reply o)) (so_Prompt stored).

Definition MarkPreparing (project ask : string) : M Operation :=
  let^ _ := load in
  let^ stored := get project ask in
  let o := so_Operation stored in
  let^ _ := m_guard (bool_decide (o_Phase o = Reserved)) ErrInvalid in
  save (set_phase stored Preparing (o_WireDigest o) (o_Receipt o)).

Definition MarkPrepared (project ask : string) (prepared : PreparedMessage) : M Operation :=
  let^ _ := load in
  let^ stored := get project ask in
  let o := so_Operation stored in
  let^ _ := m_guard (negb (negb (str_eqb (pm_ID prepared) ask) || (blen (pm_Wire prepared) =? 0))) ErrInvalid in
  let^ _ := m_guard (negb (bool_decide (o_Phase o = Reserved))) ErrInvalid in
  let d := digest (pm_Wire prepared) in
  if negb (bool_decide (o_Phase o = Preparing)) then
    let^ _ := m_guard (str_eqb (o_WireDigest o) d) ErrConflict in
    m_ret o
  else save (set_phase stored Prepared d (o_Receipt o)).

Definition MarkAdmitted (project ask : string) (receipt : Receipt) : M Operation :=
  let^ _ := load in
  let^ stored := get project ask in
  let o := so_Operation stored in
  let^ _ := m_guard (negb ((negb (bool_decide (o_Phase o = Prepared)) && negb (bool_decide (o_Phase o = PhaseAdmitted))) ||
                           negb (validReceipt o receipt))) ErrInvalid in
  match o_Receipt o with
  | Some old =>
      let^ _ := m_guard (negb (negb (rc_AdmissionSeq old =? rc_AdmissionSeq receipt) ||
                               negb (rc_CreatedAt old =? rc_CreatedAt receipt))) ErrConflict in
      m_ret o
  | None => save (set_phase stored PhaseAdmitted (o_WireDigest o) (Some receipt))
  end.

Definition set_reply (stored : storedOperation) (r : Reply) : storedOperation :=
  let o := so_Operation stored in
  mkStored (mkOperation (o_ProjectID o) (o_AskID o) (o_RecipientID o) (o_PromptDigest o) (o_Phase o) (o_WireDigest o)
              (o_Receipt o) (Some r)) (so_Prompt stored).

(** (s *Store) RecordReply. *)
Definition Store_RecordReply (reply : Reply) : M Operation :=
  let^ _ := load in
  let^ stored := get (rp_ProjectID reply) (rp_AskID reply) in
  let o := so_Operation stored in
  let^ st := m_state in
  let^ _ := m_guard (validReply (st_Binding st) o reply) ErrInvalid in
  match o_Reply o with
  | Some old =>
      let^ _ := m_guard (bool_decide (old = reply)) ErrConflict in
      m_ret o
  | None => save (set_reply stored reply)
  end.

Definition Close : M unit := fun _ s d => (Ok tt, (fail_store s, d)).

Definition Enabled : M bool :=
  let^ _ := load in
  let^ st := m_state in
  m_ret (negb (Disabled st)).

Definition Disable : M unit :=
  let^ _ := load in
  let^ st := m_state in
  persist_or_fail (mkState true (Version st) (st_Binding st) (Operations st)).

(** ** openWithSync

    [oi_dir]: the directory exists or was created, its path synced; the chmod,
    the sync and the listing of the directory; the random key and its write. *)
Record OpenIO := mkOpenIO {
  oi_dir : bool; oi_chmod : bool; oi_sync : bool; oi_list : bool; oi_rand : option (list byte);
  oi_keywrite : WriteIO; oi_op : OpIO }.

Definition Open (io : OpenIO) (binding : Binding) (d : Disk) : result SendErr Store * Disk :=
  match normalizeBinding binding with
  | Err e => (Err e, d)
  | Ok b =>
      if negb (oi_dir io && oi_chmod io) then (Err ErrIO, d) else
      let '(ok, d) := syncDir (oi_sync io) d in
      if negb (ok && oi_list io) then (Err ErrIO, d) else
      if bool_decide (visible d = ∅) then
        match oi_rand io with
        | None => (Err ErrIO, d)
        | Some raw =>
            let key := resize 32 x00 raw in
            let '(ok, d) := atomicWrite (oi_keywrite io) "key" key d in
            if negb ok then (Err ErrIO, d) else
            let s := mkStore key (digest key) (mkState false 1 b ∅) false in
            let '(r, d) := persist (oi_op io) key (s_state s) d in
            (let? _ := r in Ok s, d)
        end
      else
        match readPrivate (io_key (oi_op io)) "key" 32 d with
        | Err _ => (Err ErrInvalid, d)
        | Ok key =>
            if negb (blen key =? 32) then (Err ErrInvalid, d) else
            (let? st := read (oi_op io) key d in
             let? _ := guard (bool_decide (st_Binding st = b)) ErrInvalid in
             Ok (mkStore key (digest key) st false), d)
        end
  end.
End sender.
End Sender.
