(* ===== verification/SenderEngine.v ===== *)
(** * The sender's engine and controller (src/internal/textbridge/sender)

    engine.go reconciles one saved ASK with the SDK: it prepares a reserved ASK
    once, loads the prepared ciphertext of any other, and sends it until the
    service has admitted it. controller.go multiplexes all saved ASKs on one
    connection.

    Functions are programs: trees of [Call]s with their answers, so that the
    goroutines of the sender interleave between any two calls and may stop after
    any of them. The connection is the interface [Connection]; the SDK behind it
    answers anything. Loops that wait for events run on a number of rounds. *)
From Stdlib Require Import Strings.Byte ZArith Lia.
From S2P Require Import Prelude GoStrings FabricRef SqlTx Ledger FileStore Sender.
#[local] Open Scope Z_scope.

Module SenderEngine.
Import Sender.

(** What errors.Is and errors.As find in an error of the SDK. *)
Record SdkError := mkSdkError {
  is_NotExist : bool; is_Abandoned : bool; is_CredentialDead : bool; is_Disabled : bool;
  is_Invalid : bool; is_Conflict : bool; as_Quota : option Z }.

(** The error a fenced controllerConnection returns. *)
Definition sdk_disabled : SdkError := mkSdkError false false false true false false None.

(** sdk.SharingProjectStatus and sdk.Identity, the fields the sender reads. *)
Record ProjectStatus := mkProjectStatus { ps_ProjectID : string; ps_State : string; ps_EndpointProved : bool }.
Record Identity := mkIdentity { id_Kind : string; id_PrincipalID : string }.

(** sdk.SharingProjectMessage and its header, the fields the sender reads. *)
Record Message := mkMessage {
  h_ProjectID : string; h_ID : string; h_ThreadID : string; h_CorrelationID : option string; h_Kind : string;
  h_SenderPrincipalID : string; h_RecipientPrincipalID : string; m_Plaintext : list byte; m_Wire : list byte }.

(** What a select statement of the engine or the controller received. *)
Inductive RunEvent := RunReady | RunReceived | RunCallbackError | RunConnectionDone | RunContextDone.
Inductive LoopEvent := LoopContextDone | LoopConnectionDone | LoopWake | LoopRetry.
Inductive WaitEvent := WaitContextDone | WaitRunDone | WaitConnectionDone | WaitChanged.

(** Calls: the methods of the store, of the SDK connection, of the controller's
    own state, and questions to the environment. *)
Inductive Call : Type -> Type :=
| CReserveWithID (project recipient ask prompt : string) : Call (result SendErr Operation)
| CGet (project ask : string) : Call (result SendErr Operation)
| CList (phases : list Phase) : Call (result SendErr (list Operation))
| CRecoverPrompt (project ask : string) : Call (result SendErr string)
| CMarkPreparing (project ask : string) : Call (result SendErr Operation)
| CMarkPrepared (project ask : string) (prepared : PreparedMessage) : Call (result SendErr Operation)
| CMarkAdmitted (project ask : string) (receipt : Receipt) : Call (result SendErr Operation)
| CRecordReply (reply : Reply) : Call (result SendErr Operation)
| CEnabled : Call (result SendErr bool)
| CDisable : Call (result SendErr unit)
| CClose : Call (result SendErr unit)
| SWhoAmI : Call (option Identity)
| SReceipt (project ask : string) : Call (result SdkError Receipt)
| SStatus (project : string) : Call (result SdkError ProjectStatus)
| SPrepare (project to kind id : string) (input : list byte) : Call (result SdkError PreparedMessage)
| SLoad (project ask : string) : Call (result SdkError PreparedMessage)
| SSend (project ask : string) : Call (result SdkError Receipt)
| SEnrollProjects : Call (option (option SendErr))
| SDone : Call bool
| KTryStart : Call bool
| KStop : Call unit
| KSetLive (live : bool) : Call unit
| KLive : Call bool
| KReady (project : string) : Call bool
| KSetReady (project : string) : Call unit
| KNotify : Call unit
| KRevision : Call Z
| KWake : Call unit
| EContext : Call bool
| ERunContext : Call bool
| EGate (project : string) : Call bool
| ENewV7 : Call (option string)
| EReport (e : SendErr) : Call unit
| ERunEvent : Call RunEvent
| ELoopEvent (retry : bool) (delay : Z) : Call LoopEvent
| EWait (revision : Z) : Call WaitEvent.

Inductive prog (R : Type) : Type :=
| Ret (r : R)
| Do {A : Type} (c : Call A) (k : A -> prog R).
Arguments Ret {R} r.
Arguments Do {R A} c k.

Definition call {A} (c : Call A) : prog A := Do c Ret.

Fixpoint pbind {R S} (p : prog R) (f : R -> prog S) : prog S :=
  match p with
  | Ret r => f r
  | Do c k => Do c (fun a => pbind (k a) f)
  end.

#[local] Notation "'let~' x ':=' c 'in' k" := (pbind c (fun x => k))
  (at level 10, x name, c at level 100, k at level 200).
#[local] Notation "'let~' ' p ':=' c 'in' k" := (pbind c (fun p => k))
  (at level 10, p strict pattern, c at level 100, k at level 200).

(** The methods of Connection that [Reconcile] uses. *)
Record Connection := mkConnection {
  conn_Receipt : string -> string -> prog (result SdkError Receipt);
  conn_Status : string -> prog (result SdkError ProjectStatus);
  conn_Prepare : string -> string -> string -> string -> list byte -> prog (result SdkError PreparedMessage);
  conn_Load : string -> string -> prog (result SdkError PreparedMessage);
  conn_Send : string -> string -> prog (result SdkError Receipt) }.

(** The SDK's own connection. *)
Definition sdk_connection : Connection :=
  mkConnection (fun p a => call (SReceipt p a)) (fun p => call (SStatus p))
    (fun p to kind id input => call (SPrepare p to kind id input)) (fun p a => call (SLoad p a))
    (fun p a => call (SSend p a)).

(** controllerConnection.enabled: the connection is not done, the context is
    live and the gate admits the project. *)
Definition gate_enabled (project : string) : prog bool :=
  let~ isdone := call SDone in
  if isdone then Ret false else
  let~ live := call ERunContext in
  if negb live then Ret false else call (EGate project).

Definition controllerConnection : Connection :=
  mkConnection (conn_Receipt sdk_connection) (conn_Status sdk_connection)
    (fun p to kind id input =>
       let~ enabled := gate_enabled p in
       if negb enabled then Ret (Err sdk_disabled) else conn_Prepare sdk_connection p to kind id input)
    (conn_Load sdk_connection)
    (fun p a =>
       let~ enabled := gate_enabled p in
       if negb enabled then Ret (Err sdk_disabled) else conn_Send sdk_connection p a).

(** http.StatusTooManyRequests. *)
Definition StatusTooManyRequests : Z := 429.

Definition retryableSDKError (e : SdkError) : bool :=
  if is_NotExist e || is_Abandoned e || is_CredentialDead e || is_Disabled e || is_Invalid e || is_Conflict e then false
  else match as_Quota e with None => true | Some status => status =? StatusTooManyRequests end.

Section engine.
Context `{Sha256}.

(** The zero Operation a failed method returns. *)
Definition zero_operation : Operation := mkOperation "" "" "" "" (OtherPhase "") "" None None.
Definition returned (r : result SendErr Operation) : Operation * option SendErr :=
  match r with Ok o => (o, None) | Err e => (zero_operation, Some e) end.

(** engine.go's RecordReply. *)
Definition RecordReply (principal : string) (message : Message) : prog (result SendErr Operation) :=
  match h_CorrelationID message with
  | Some correlation =>
      if negb (str_eqb (h_Kind message) "REPLY") || negb (str_eqb (h_ThreadID message) correlation) ||
         negb (str_eqb (h_RecipientPrincipalID message) principal) || (blen (m_Wire message) =? 0)
      then Ret (Err (ErrText "sender requires an authenticated correlated REPLY"))
      else call (CRecordReply (mkReply (h_ProjectID message) correlation (h_ID message) (hex_encode (sha256 (m_Wire message)))
                                 (h_SenderPrincipalID message) (h_RecipientPrincipalID message)
                                 (string_of (m_Plaintext message))))
  | None => Ret (Err (ErrText "sender requires an authenticated correlated REPLY"))
  end.

(** An SDK failure, marked for the controller's retries. *)
Definition marked (e : SdkError) (message : string) : SendErr :=
  if retryableSDKError e then RetryableError (ErrText message) else TerminalError (ErrText message).

Definition not_ready : string := "sender project is not ready; resume the saved ASK after enrollment".
Definition unprepared : string :=
  "saved ASK has no recoverable prepared ciphertext; preparation outcome remains unresolved and must not be prepared again".
Definition unadmitted : string := "sender admission outcome unresolved; resume the same saved ASK".

(** The durable gate: [None] when the sender is enabled. *)
Definition gate_error : prog (option SendErr) :=
  let~ enabled := call CEnabled in
  Ret (match enabled with Err e => Some e | Ok false => Some ErrDisabled | Ok true => None end).

(** The sole preparation of a reserved ASK, or the ciphertext of an earlier one.
    A store failure ends the reconciliation ([inl]). *)
Definition obtain_prepared (conn : Connection) (o : Operation) :
    prog (Operation * SendErr + Operation * result SdkError PreparedMessage) :=
  if bool_decide (o_Phase o = Reserved) then
    let~ prompt := call (CRecoverPrompt (o_ProjectID o) (o_AskID o)) in
    match prompt with
    | Err e => Ret (inl (o, e))
    | Ok prompt =>
        let~ marked := call (CMarkPreparing (o_ProjectID o) (o_AskID o)) in
        match marked with
        | Err e => Ret (inl (zero_operation, e))
        | Ok o =>
            let~ prepared := conn_Prepare conn (o_ProjectID o) (o_RecipientID o) "ASK" (o_AskID o) (bytes_of prompt) in
            match prepared with
            | Ok m => Ret (inr (o, Ok m))
            | Err _ => let~ loaded := conn_Load conn (o_ProjectID o) (o_AskID o) in Ret (inr (o, loaded))
            end
        end
    end
  else
    let~ loaded := conn_Load conn (o_ProjectID o) (o_AskID o) in
    Ret (inr (o, loaded)).

(** The last part of [Reconcile]: admission of a prepared ASK. *)
Definition admit_prepared (conn : Connection) (o : Operation) : prog (Operation * option SendErr) :=
  let~ receipt := conn_Receipt conn (o_ProjectID o) (o_AskID o) in
  match receipt with
  | Ok receipt =>
      let~ admitted := call (CMarkAdmitted (o_ProjectID o) (o_AskID o) receipt) in
      Ret (returned admitted)
  | Err _ =>
      let~ fenced := gate_error in
      match fenced with
      | Some e => Ret (o, Some e)
      | None =>
          let~ sent := conn_Send conn (o_ProjectID o) (o_AskID o) in
          match sent with
          | Err e =>
              if is_Disabled e then Ret (o, Some ErrDisabled) else Ret (o, Some (marked e unadmitted))
          | Ok receipt =>
              let~ admitted := call (CMarkAdmitted (o_ProjectID o) (o_AskID o) receipt) in
              Ret (returned admitted)
          end
      end
  end.

(** The middle part: project status, preparation, and its durable record. *)
Definition prepare_and_admit (conn : Connection) (o : Operation) : prog (Operation * option SendErr) :=
  let~ fenced := gate_error in
  match fenced with
  | Some e => Ret (o, Some e)
  | None =>
      let~ status := conn_Status conn (o_ProjectID o) in
      match status with
      | Err e => Ret (o, Some (marked e not_ready))
      | Ok status =>
          if negb (str_eqb (ps_ProjectID status) (o_ProjectID o)) || negb (str_eqb (ps_State status) "active") ||
             negb (ps_EndpointProved status)
          then Ret (o, Some (ErrText not_ready)) else
          let~ obtained := obtain_prepared conn o in
          match obtained with
          | inl (o, e) => Ret (o, Some e)
          | inr (o, Err e) =>
              Ret (o, Some (if retryableSDKError e then RetryableError (ErrText unprepared)
                            else if negb (is_NotExist e) then TerminalError (ErrText unprepared)
                            else ErrText unprepared))
          | inr (o, Ok prepared) =>
              let~ recorded := call (CMarkPrepared (o_ProjectID o) (o_AskID o) prepared) in
              match recorded with
              | Err e => Ret (zero_operation, Some e)
              | Ok o => admit_prepared conn o
              end
          end
      end
  end.

Definition Reconcile (conn : Connection) (operation : Operation) : prog (Operation * option SendErr) :=
  let~ saved := call (CGet (o_ProjectID operation) (o_AskID operation)) in
  match saved with
  | Err e => Ret (zero_operation, Some e)
  | Ok o =>
      if bool_decide (o_Phase o = PhaseAdmitted) then Ret (o, None) else
      if bool_decide (o_Phase o = Prepared) then
        let~ receipt := conn_Receipt conn (o_ProjectID o) (o_AskID o) in
        match receipt with
        | Ok receipt =>
            let~ admitted := call (CMarkAdmitted (o_ProjectID o) (o_AskID o) receipt) in
            Ret (returned admitted)
        | Err _ => prepare_and_admit conn o
        end
      else prepare_and_admit conn o
  end.

Definition answered (o : Operation) : bool := bool_decide (o_Phase o = PhaseAdmitted) && bool_decide (is_Some (o_Reply o)).

(** The callback [Run] installs for messages: nil acknowledges the delivery. *)
Definition run_callback (principal : string) (message : Message) : prog (option SendErr) :=
  if negb (str_eqb (h_Kind message) "REPLY") then Ret None else
  let~ r := RecordReply principal message in
  Ret (match r with Ok _ => None | Err e => Some e end).

(** The select loop of [Run]. *)
Fixpoint run_loop (rounds : nat) (conn : Connection) (o : Operation) : prog (Operation * option SendErr) :=
  match rounds with
  | O => Ret (o, Some (ErrText "waiting"))
  | S rounds =>
      let~ event := call ERunEvent in
      match event with
      | RunReady =>
          let~ '(o, err) := Reconcile conn o in
          match err with
          | Some e => Ret (o, Some e)
          | None => if answered o then Ret (o, None) else run_loop rounds conn o
          end
      | RunReceived =>
          let~ r := call (CGet (o_ProjectID o) (o_AskID o)) in
          match r with
          | Err e => Ret (zero_operation, Some e)
          | Ok o => if answered o then Ret (o, None) else run_loop rounds conn o
          end
      | RunCallbackError =>
          Ret (o, Some (ErrText "sender could not persist an authenticated reply; inbox delivery remains pending"))
      | RunConnectionDone => Ret (o, Some (ErrText "sender connection ended; resume the saved ASK"))
      | RunContextDone => Ret (o, Some ErrContext)
      end
  end.

Definition wrong_identity : SendErr := ErrText "sender authenticated identity does not match saved service".
Definition identity_ok (principal : string) (i : option Identity) : bool :=
  match i with
  | Some i => str_eqb (id_Kind i) "service" && str_eqb (id_PrincipalID i) principal
  | None => false
  end.

(** engine.go's Run: one saved ASK. *)
Definition Run (rounds : nat) (conn : Connection) (principal : string) (operation : Operation) :
    prog (Operation * option SendErr) :=
  let~ identity := call SWhoAmI in
  if negb (identity_ok principal identity) then Ret (operation, Some wrong_identity) else
  let~ '(o, err) :=
    if bool_decide (o_Phase operation = Prepared) then
      let~ receipt := conn_Receipt conn (o_ProjectID operation) (o_AskID operation) in
      match receipt with
      | Ok receipt =>
          let~ admitted := call (CMarkAdmitted (o_ProjectID operation) (o_AskID operation) receipt) in
          Ret (returned admitted)
      | Err _ => Ret (operation, None)
      end
    else Ret (operation, None) in
  match err with
  | Some e => Ret (o, Some e)
  | None => if answered o then Ret (o, None) else run_loop rounds conn o
  end.

(** ** controller.go *)

(** (c *Controller) authority. *)
Definition authority (project : string) : prog (option SendErr) :=
  let~ ctx := call EContext in
  if negb ctx then Ret (Some ErrContext) else
  let~ live := call KLive in
  if negb live then Ret (Some ErrDisabled) else
  let~ run := call ERunContext in
  if negb run then Ret (Some ErrDisabled) else
  let~ gate := call (EGate project) in
  if negb gate then Ret (Some ErrDisabled) else
  let~ isdone := call SDone in
  Ret (if isdone then Some ErrDisabled else None).

Definition Controller_ReserveWithID (project recipient ask prompt : string) : prog (result SendErr Operation) :=
  let~ denied := authority project in
  match denied with
  | Some e => Ret (Err e)
  | None =>
      let~ r := call (CReserveWithID project recipient ask prompt) in
      match r with
      | Ok o => let~ _ := call KNotify in let~ _ := call KWake in Ret (Ok o)
      | Err e => Ret (Err e)
      end
  end.

Definition Controller_Reserve (project recipient prompt : string) : prog (result SendErr Operation) :=
  let~ id := call ENewV7 in
  match id with
  | None => Ret (Err ErrIO)
  | Some id => Controller_ReserveWithID project recipient id prompt
  end.

Definition Controller_Get (project ask : string) : prog (result SendErr Operation) :=
  let~ denied := authority project in
  match denied with
  | Some e => Ret (Err e)
  | None => call (CGet project ask)
  end.

Definition Controller_Resume (project ask : string) : prog (result SendErr Operation) :=
  let~ r := Controller_Get project ask in
  match r with
  | Ok o => let~ _ := call KWake in Ret (Ok o)
  | Err e => Ret (Err e)
  end.

(** Wait: the notification is snapshotted before the read. *)
Fixpoint Controller_Wait (rounds : nat) (project ask : string) : prog (result SendErr Operation) :=
  match rounds with
  | O => Ret (Err (ErrText "waiting"))
  | S rounds =>
      let~ changed := call KRevision in
      let~ r := Controller_Get project ask in
      match r with
      | Err e => Ret (Err e)
      | Ok o =>
          if answered o then Ret (Ok o) else
          let~ event := call (EWait changed) in
          match event with
          | WaitContextDone => Ret (Err ErrContext)
          | WaitRunDone | WaitConnectionDone => Ret (Err ErrDisabled)
          | WaitChanged => Controller_Wait rounds project ask
          end
      end
  end.

Section ids.
Context `{Uuid}.
Definition Controller_List (project after : string) (limit : Z) : prog (result SendErr (list Operation)) :=
  if (limit <? 1) || (100 <? limit) || negb (validID project false) || (negb (str_eqb after "") && negb (validID after true))
  then Ret (Err ErrInvalid) else
  let~ denied := authority project in
  match denied with
  | Some e => Ret (Err e)
  | None =>
      let~ r := call (CList []) in
      match r with
      | Err e => Ret (Err e)
      | Ok all => Ret (Ok (take (Z.to_nat limit)
          (filter (fun o => (str_eqb (o_ProjectID o) project && str_lt after (o_AskID o)) = true) all)))
      end
  end.
End ids.

Definition Controller_Revision (project : string) : prog (result SendErr Z) :=
  let~ denied := authority project in
  match denied with
  | Some e => Ret (Err e)
  | None => let~ r := call KRevision in Ret (Ok r)
  end.

Fixpoint Controller_WaitRevision (rounds : nat) (project : string) (after : Z) : prog (result SendErr Z) :=
  match rounds with
  | O => Ret (Err (ErrText "waiting"))
  | S rounds =>
      let~ r := Controller_Revision project in
      match r with
      | Err e => Ret (Err e)
      | Ok revision =>
          if negb (revision =? after) then Ret (Ok revision) else
          let~ event := call (EWait revision) in
          match event with
          | WaitContextDone => Ret (Err ErrContext)
          | WaitRunDone | WaitConnectionDone => Ret (Err ErrDisabled)
          | WaitChanged => Controller_WaitRevision rounds project after
          end
      end
  end.

(** HandleMessage: nil acknowledges the delivery. *)
Definition HandleMessage (principal : string) (message : Message) : prog (option SendErr) :=
  if negb (str_eqb (h_Kind message) "REPLY") then Ret None else
  let~ r := RecordReply principal message in
  match r with
  | Ok _ => let~ _ := call KNotify in let~ _ := call KWake in Ret None
  | Err e => Ret (Some e)
  end.

(** The ready callback. *)
Definition HandleReady (project : string) : prog unit :=
  let~ _ := call (KSetReady project) in call KWake.

Definition report (e : option SendErr) : prog unit :=
  match e with Some e => call (EReport e) | None => Ret tt end.

Definition is_terminal_error (e : SendErr) : bool := match e with TerminalError _ => true | _ => false end.
Definition is_retryable_error (e : SendErr) : bool := match e with RetryableError _ => true | _ => false end.

(** What the historical receipt of a prepared operation gave: settled, or
    whether the lookup should be retried. *)
Definition receipt_pass (o : Operation) : prog (option bool) :=
  if bool_decide (o_Phase o = Prepared) then
    let~ receipt := call (SReceipt (o_ProjectID o) (o_AskID o)) in
    match receipt with
    | Ok receipt =>
        let~ r := call (CMarkAdmitted (o_ProjectID o) (o_AskID o) receipt) in
        match r with
        | Ok _ => let~ _ := call KNotify in Ret None
        | Err e => let~ _ := report (Some e) in Ret None
        end
    | Err e =>
        if retryableSDKError e then let~ _ := call (EReport (ErrText "receipt lookup")) in Ret (Some true) else Ret (Some false)
    end
  else Ret (Some false).

(** One operation of a recovery pass: whether it needs a retry. *)
Definition operation_pass (o : Operation) : prog bool :=
  let~ historical := receipt_pass o in
  match historical with
  | None => Ret false
  | Some receiptRetry =>
      let~ ready := call (KReady (o_ProjectID o)) in
      let~ enabled := if negb ready then Ret false else gate_enabled (o_ProjectID o) in
      if negb (ready && enabled) then
        if receiptRetry then gate_enabled (o_ProjectID o) else Ret false
      else
        let~ '(_, err) := Reconcile controllerConnection o in
        let~ _ := call KNotify in
        let~ _ := report err in
        match err with
        | None => Ret false
        | Some e =>
            let~ enabled := gate_enabled (o_ProjectID o) in
            Ret (enabled && negb (is_terminal_error e) && (receiptRetry || is_retryable_error e))
        end
  end.

(** The range over the listed operations; [None] when the context ended. *)
Fixpoint pass (operations : list Operation) (retryNeeded : bool) : prog (option bool) :=
  match operations with
  | [] => Ret (Some retryNeeded)
  | o :: rest =>
      let~ ctx := call ERunContext in
      if negb ctx then Ret None else
      let~ retry := operation_pass o in
      pass rest (retryNeeded || retry)
  end.

Definition retryDelay : Z := 10 ^ 9.
Definition retryMaxDelay : Z := 30 * 10 ^ 9.

(** The loop of (c *Controller) Run; [retry] tells that the timer is armed. *)
Fixpoint controller_loop (rounds : nat) (retry : bool) (delay : Z) : prog SendErr :=
  match rounds with
  | O => Ret (ErrText "running")
  | S rounds =>
      let~ event := call (ELoopEvent retry delay) in
      match event with
      | LoopContextDone => Ret ErrContext
      | LoopConnectionDone => Ret (ErrText "sender connection ended; saved ASKs remain recoverable")
      | LoopWake | LoopRetry =>
          let delay := match event with LoopWake => retryDelay | _ => delay end in
          let~ listed := call (CList [Reserved; Preparing; Prepared]) in
          match listed with
          | Err e => Ret e
          | Ok operations =>
              let~ result := pass operations false in
              match result with
              | None => Ret ErrContext
              | Some true => controller_loop rounds true (Z.min (delay * 2) retryMaxDelay)
              | Some false => controller_loop rounds false delay
              end
          end
      end
  end.

(** (c *Controller) Run. *)
Definition Controller_Run (rounds : nat) (principal : string) : prog SendErr :=
  let~ started := call KTryStart in
  if negb started then Ret (ErrText "sender controller already running") else
  let~ result :=
    (let~ identity := call SWhoAmI in
     if negb (identity_ok principal identity) then Ret wrong_identity else
     let~ enrolled := call SEnrollProjects in
     match enrolled with
     | Some (Some e) => Ret e
     | _ =>
         let~ _ := call (KSetLive true) in
         let~ _ := call KWake in
         controller_loop rounds false retryDelay
     end) in
  let~ _ := call (KSetLive false) in
  let~ _ := call KNotify in
  let~ _ := call KStop in
  Ret result.
End engine.
End SenderEngine.
