(* ===== verification/SenderInv.v ===== *)
(** * The sender's store keeps what it acknowledged

    The order [advances] in which a store may change, the invariant [linked]
    between a handle, what the system sees and what power loss leaves, and for
    every method of the store: it keeps the invariant, advances the durable
    state, and an answer without error describes the durable state. *)
From Stdlib Require Import Ascii Strings.Byte ZArith Lia.
From S2P Require Import Prelude GoStrings FabricRef SqlTx Ledger LedgerInv FileStore Sender.
#[local] Open Scope Z_scope.

Module SenderInv.
Import FileStore Sender.

(** ** Laws of the parameters *)

(** github.com/google/uuid prints hexadecimal digits and dashes. *)
Definition uuid_char (c : ascii) : bool := is_digit c || is_lower c || ceq c "-".
Class UuidLaws (U : Uuid) : Prop :=
  uuid_string_chars id u : uuid_Parse id = Some u -> str_forallb uuid_char (u_String u) = true.

(** AES-GCM opens what it sealed, adds [Overhead] bytes. *)
Class AesGcmLaws (G : AesGcm) : Prop := {
  gcm_laws key : length key = 32%nat -> AeadLaws (gcm key);
  gcm_overhead key nonce plain aad :
    length key = 32%nat -> length (@aead_Seal (gcm key) nonce plain aad) = (length plain + Overhead)%nat;
}.

(** encoding/json reads back a state whose strings are UTF-8. *)
Definition receipt_utf8 (r : Receipt) : bool := utf8_valid (rc_MessageID r) && utf8_valid (rc_Status r).
Definition reply_utf8 (r : Reply) : bool :=
  utf8_valid (rp_ProjectID r) && utf8_valid (rp_AskID r) && utf8_valid (rp_ReplyID r) && utf8_valid (rp_WireDigest r) &&
  utf8_valid (rp_SenderID r) && utf8_valid (rp_RecipientID r) && utf8_valid (rp_Text r).
Definition optional {A} (p : A -> bool) (o : option A) : bool := match o with Some a => p a | None => true end.
Definition stored_utf8 (key : string) (stored : storedOperation) : bool :=
  let o := so_Operation stored in
  utf8_valid key && utf8_valid (o_ProjectID o) && utf8_valid (o_AskID o) && utf8_valid (o_RecipientID o) &&
  utf8_valid (o_PromptDigest o) && utf8_valid (o_WireDigest o) && utf8_valid (so_Prompt stored) &&
  match o_Phase o with OtherPhase s => utf8_valid s | _ => true end &&
  optional receipt_utf8 (o_Receipt o) && optional reply_utf8 (o_Reply o).
Definition binding_utf8 (b : Binding) : bool :=
  utf8_valid (ServiceOrigin b) && utf8_valid (PrincipalID b) && utf8_valid (ProjectContract b).

Class SenderJsonLaws (J : SenderJson) : Prop :=
  unmarshal_marshal st raw : marshal_state st = Some raw -> binding_utf8 (st_Binding st) = true ->
    map_Forall (fun k v => stored_utf8 k v = true) (Operations st) -> unmarshal_state raw = Some (st, true).

(** ** The order of operations and states *)
Definition rank (p : Phase) : Z :=
  match p with Reserved => 0 | Preparing => 1 | Prepared => 2 | PhaseAdmitted => 3 | OtherPhase _ => -1 end.

(** A later version of an operation: the input is the same, the phase has not
    gone back, and the wire digest, receipt and reply stay once they are there. *)
Record op_advances (o o' : Operation) : Prop := {
  oa_project : o_ProjectID o' = o_ProjectID o;
  oa_ask : o_AskID o' = o_AskID o;
  oa_recipient : o_RecipientID o' = o_RecipientID o;
  oa_digest : o_PromptDigest o' = o_PromptDigest o;
  oa_rank : rank (o_Phase o) <= rank (o_Phase o');
  oa_wire : 2 <= rank (o_Phase o) -> o_WireDigest o' = o_WireDigest o;
  oa_receipt r : o_Receipt o = Some r -> o_Receipt o' = Some r;
  oa_reply r : o_Reply o = Some r -> o_Reply o' = Some r;
}.
Definition stored_advances (v v' : storedOperation) : Prop :=
  op_advances (so_Operation v) (so_Operation v') /\ so_Prompt v' = so_Prompt v.
Definition advances (st st' : state) : Prop :=
  (Disabled st = true -> Disabled st' = true) /\
  (forall k v, Operations st !! k = Some v -> exists v', Operations st' !! k = Some v' /\ stored_advances v v') /\
  (Disabled st = true -> forall k, is_Some (Operations st' !! k) -> is_Some (Operations st !! k)).

#[export] Instance op_advances_po : PreOrder op_advances.
Proof.
  split.
  - intros o. by split.
  - intros a b c [] []. split; try congruence; try lia; eauto. intros Hr. rewrite oa_wire1 by lia. auto.
Qed.
#[export] Instance stored_advances_po : PreOrder stored_advances.
Proof.
  split; [intros v; by split|]. intros a b c [Hab Pab] [Hbc Pbc]. split; [by etrans | congruence].
Qed.
#[export] Instance advances_po : PreOrder advances.
Proof.
  split.
  - intros st. split_and!; [done| |done]. intros k v Hk. exists v. by split.
  - intros a b c (Dab & Oab & Fab) (Dbc & Obc & Fbc). split_and!; [auto| |auto]. intros k v Hk.
    destruct (Oab _ _ Hk) as (v1 & Hk1 & H1). destruct (Obc _ _ Hk1) as (v2 & Hk2 & H2).
    exists v2. split; [done|]. by etrans.
Qed.

(** The operation of a key, as the durable state must keep it. *)
Definition recorded (st : state) (o : Operation) : Prop :=
  exists v, Operations st !! operationKey (o_ProjectID o) (o_AskID o) = Some v /\ op_advances o (so_Operation v).

Lemma recorded_advances st st' o : advances st st' -> recorded st o -> recorded st' o.
Proof.
  intros (_ & Hadv & _) (v & Hv & Ho). destruct (Hadv _ _ Hv) as (v' & Hv' & [Hv1 _]). exists v'. split; [done|]. by etrans.
Qed.

Section store.
Context `{Sha256, AesGcm, SenderJson, Uuid, UrlParser}.
Context `{!UuidLaws _, !AesGcmLaws _, !SenderJsonLaws _}.
Context (b : Binding) (Hb : normalizeBinding b = Ok b) (Hutf : binding_utf8 b = true).

(** ** Identifiers, digests and keys *)
Lemma validID_chars id v7 : validID id v7 = true -> str_forallb uuid_char id = true.
Proof.
  unfold validID. destruct (uuid_Parse id) as [u|] eqn:Hu; [|done]. intros Hv. rinv.
  match goal with He : str_eqb _ _ = true |- _ => apply str_eqb_eq in He; rewrite <- He end.
  by eapply uuid_string_chars.
Qed.

Lemma uuid_char_ascii c : uuid_char c = true -> CalendarLemmas.is_ascii c = true.
Proof.
  unfold uuid_char, CalendarLemmas.is_ascii, is_digit, is_lower, between, ceq. intros Hc.
  destruct (Ascii.eqb_spec c "-"); [by subst|]. lia.
Qed.

Lemma forallb_impl (p q : ascii -> bool) s : (forall c, p c = true -> q c = true) ->
  str_forallb p s = true -> str_forallb q s = true.
Proof. intros Hpq. induction s as [|c s IH]; [done|]. cbn. intros. rinv. rewrite Hpq by done. by rewrite IH. Qed.

Lemma validID_utf8 id v7 : validID id v7 = true -> utf8_valid id = true.
Proof. intros Hv. apply CalendarLemmas.ascii_utf8. eapply forallb_impl, validID_chars, Hv. apply uuid_char_ascii. Qed.

Lemma digest_utf8 raw : utf8_valid (digest raw) = true.
Proof. apply CalendarLemmas.ascii_utf8, CalendarLemmas.hex_ascii. Qed.

Lemma validDigest_utf8 s : validDigest s = true -> utf8_valid s = true.
Proof.
  unfold validDigest. destruct (hex_decode s); [|done]. intros Hv. rinv.
  match goal with He : str_eqb _ _ = true |- _ => apply str_eqb_eq in He; rewrite <- He end.
  apply CalendarLemmas.ascii_utf8, CalendarLemmas.hex_ascii.
Qed.

Lemma validDigest_digest raw : validDigest (digest raw) = true.
Proof.
  unfold validDigest, digest. rewrite CalendarLemmas.hex_round, str_eqb_refl. unfold blen. by rewrite sha256_length.
Qed.

Lemma validText_utf8 s n : validText s n = true -> utf8_valid s = true.
Proof. unfold validText. intros. by rinv. Qed.

(** A key names one project and one ASK: identifiers hold no slash. *)
Lemma slash_split p a p' a' : str_forallb uuid_char p = true -> str_forallb uuid_char p' = true ->
  operationKey p a = operationKey p' a' -> p = p' /\ a = a'.
Proof.
  unfold operationKey. revert p'. induction p as [|c p IH]; intros [|c' p'] Hp Hp' Heq; cbn in *; simplify_eq.
  - done.
  - rinv. destruct (IH p') as [-> ->]; done.
Qed.

Lemma operationKey_inj p a p' a' v v' : validID p v = true -> validID p' v' = true ->
  operationKey p a = operationKey p' a' -> p = p' /\ a = a'.
Proof. intros Hp Hp'. apply slash_split; eapply validID_chars; eassumption. Qed.

(** ** Valid states *)
Record state_ok (st : state) : Prop := {
  ok_version : Version st = 1;
  ok_binding : st_Binding st = b;
  ok_stored : map_Forall (fun k v => stored_ok b k v = true) (Operations st);
  ok_asks k k' v v' : Operations st !! k = Some v -> Operations st !! k' = Some v' ->
    o_AskID (so_Operation v) = o_AskID (so_Operation v') -> k = k';
}.

(** What [stored_ok] says, field by field. *)
Record stored_facts (k : string) (v : storedOperation) : Prop := {
  sf_key : k = operationKey (o_ProjectID (so_Operation v)) (o_AskID (so_Operation v));
  sf_project : validID (o_ProjectID (so_Operation v)) false = true;
  sf_ask : validID (o_AskID (so_Operation v)) true = true;
  sf_recipient : validID (o_RecipientID (so_Operation v)) false = true;
  sf_prompt : validText (so_Prompt v) MaxPromptChars = true;
  sf_digest : o_PromptDigest (so_Operation v) = digest (bytes_of (so_Prompt v));
  sf_phase : phase_ok (so_Operation v) = true;
  sf_reply r : o_Reply (so_Operation v) = Some r -> validReply b (so_Operation v) r = true;
}.

Lemma stored_ok_facts k v : stored_ok b k v = true <-> stored_facts k v.
Proof.
  unfold stored_ok. rewrite !andb_true_iff, !str_eqb_eq. split.
  - intros (((((((? & ?) & ?) & ?) & ?) & ?) & ?) & Hr). split; try done. intros r Hr'. by rewrite Hr' in Hr.
  - intros []. repeat split; try done. destruct (o_Reply (so_Operation v)); auto.
Qed.

Lemma append_utf8 s t : str_forallb CalendarLemmas.is_ascii s = true -> str_forallb CalendarLemmas.is_ascii t = true ->
  utf8_valid (s ++ t) = true.
Proof. intros Hs Ht. apply CalendarLemmas.ascii_utf8. rewrite str_forallb_append. by rewrite Hs, Ht. Qed.

Lemma validID_ascii id v7 : validID id v7 = true -> str_forallb CalendarLemmas.is_ascii id = true.
Proof. intros Hv. eapply forallb_impl, validID_chars, Hv. apply uuid_char_ascii. Qed.

Lemma key_utf8 p a v v' : validID p v = true -> validID a v' = true -> utf8_valid (operationKey p a) = true.
Proof. intros Hp Ha. apply append_utf8; [by eapply validID_ascii|]. cbn. by eapply validID_ascii. Qed.

Lemma phase_ok_utf8 o : phase_ok o = true -> validID (o_AskID o) true = true ->
  utf8_valid (o_WireDigest o) = true /\ optional receipt_utf8 (o_Receipt o) = true /\
  match o_Phase o with OtherPhase s => utf8_valid s | _ => true end = true.
Proof.
  unfold phase_ok. intros Hp Ha. destruct (o_Phase o) eqn:Hph; rinv; try done;
    repeat match goal with He : str_eqb _ _ = true |- _ => apply str_eqb_eq in He end;
    repeat match goal with He : o_Receipt o = None |- _ => rewrite He end; try (split_and!; [|done|done]).
  - by match goal with He : o_WireDigest o = _ |- _ => rewrite He end.
  - by match goal with He : o_WireDigest o = _ |- _ => rewrite He end.
  - by apply validDigest_utf8.
  - destruct (o_Receipt o) as [r|]; [|done]. split_and!; [by apply validDigest_utf8| |done].
    unfold validReceipt in *. rinv. cbn. unfold receipt_utf8.
    repeat match goal with He : str_eqb _ _ = true |- _ => apply str_eqb_eq in He end.
    match goal with He : rc_MessageID r = _ |- _ => rewrite He end. rewrite (validID_utf8 _ _ Ha). cbn.
    match goal with Hs : _ || _ = true |- _ => apply orb_true_iff in Hs as [Hs|Hs]; apply str_eqb_eq in Hs; rewrite Hs end; done.
Qed.

Lemma validReply_utf8 o r : validReply b o r = true -> validID (o_ProjectID o) false = true ->
  validID (o_AskID o) true = true -> validID (o_RecipientID o) false = true -> reply_utf8 r = true.
Proof.
  unfold validReply, reply_utf8. intros Hr Hp Ha Ht. rinv.
  repeat match goal with He : str_eqb _ _ = true |- _ => apply str_eqb_eq in He; rewrite He end.
  rewrite (validID_utf8 _ _ Hp), (validID_utf8 _ _ Ha), (validID_utf8 _ _ Ht).
  pose proof Hutf as Hu. unfold binding_utf8 in Hu. rinv.
  repeat (apply andb_true_intro; split); eauto using validID_utf8, validDigest_utf8, validText_utf8.
Qed.

Lemma stored_ok_utf8 k v : stored_ok b k v = true -> stored_utf8 k v = true.
Proof.
  rewrite stored_ok_facts. intros [Hk Hp Ha Hr Ht Hd Hph Hrep]. unfold stored_utf8.
  destruct (phase_ok_utf8 _ Hph Ha) as (-> & -> & ->).
  rewrite Hk, (key_utf8 _ _ _ _ Hp Ha), (validID_utf8 _ _ Hp), (validID_utf8 _ _ Ha), (validID_utf8 _ _ Hr).
  rewrite Hd, digest_utf8, (validText_utf8 _ _ Ht). cbn.
  destruct (o_Reply (so_Operation v)) as [r|]; [|done]. cbn. eapply validReply_utf8; eauto.
Qed.

(** ** Sealed files *)

(** The bytes of a state file that holds [st]. *)
Definition holds (key raw : list byte) (st : state) : Prop :=
  blen raw <= maxStateBytes /\ exists nonce plain,
    length nonce = @NonceSize (gcm key) /\ raw = nonce ++ @aead_Seal (gcm key) nonce plain senderAAD /\
    unmarshal_state plain = Some (st, true).

Lemma read_holds io key raw st d : length key = 32%nat -> visible d !! "state"%string = Some raw -> holds key raw st -> state_ok st ->
  read io key d = if io_state io then Ok st else Err ErrIO.
Proof.
  intros Hkey Hraw (Hlen & nonce & plain & Hn & -> & Hu) [Hv Hbd Hall _]. unfold read, readPrivate.
  destruct (io_state io); [|done]. cbn [guard rbind]. rewrite Hraw. cbn [of_option rbind].
  replace (blen _ <=? maxStateBytes) with true by lia. cbn [guard rbind].
  assert (Hge : blen (nonce ++ @aead_Seal (gcm key) nonce plain senderAAD) <? Z.of_nat (@NonceSize (gcm key)) = false).
  { unfold blen. rewrite length_app. lia. }
  rewrite Hge. cbn [negb guard rbind]. rewrite take_app_length', drop_app_length' by done.
  rewrite (@aead_open_seal _ (gcm_laws key Hkey)) by done. cbn [of_option rbind]. rewrite Hu. cbn [of_option rbind].
  rewrite Hv. cbn [Z.eqb Pos.eqb andb guard rbind]. rewrite Hbd, Hb, bool_decide_true by done. cbn [guard rbind].
  assert (Hf : forallb (fun kv => stored_ok b kv.1 kv.2) (map_to_list (Operations st)) = true).
  { apply forallb_forall. intros [k v] Hin. apply list_elem_of_In, elem_of_map_to_list in Hin. by apply Hall. }
  by rewrite Hf.
Qed.

(** What one layer of the disk keeps. *)
Definition layer (key : list byte) (st : state) (dir : gmap string (list byte)) : Prop :=
  dir !! "key"%string = Some key /\ exists raw, dir !! "state"%string = Some raw /\ holds key raw st.

Lemma layer_ext key st dir dir' : (forall n, is_temp n = false -> dir' !! n = dir !! n) -> layer key st dir -> layer key st dir'.
Proof. intros Hext (Hk & raw & Hr & Hh). split; [by rewrite Hext|]. exists raw. by rewrite Hext. Qed.

(** Sealing a state makes a file that holds it. *)
Lemma sealed_holds key st plain raw : length key = 32%nat -> state_ok st -> marshal_state st = Some plain ->
  (maxStateBytes <? blen plain + Z.of_nat (@NonceSize (gcm key)) + Z.of_nat Overhead) = false ->
  let nonce := resize (@NonceSize (gcm key)) x00 raw in
  holds key (nonce ++ @aead_Seal (gcm key) nonce plain senderAAD) st.
Proof.
  intros Hkey [Hv Hbd Hall _] Hm Hlen nonce. split.
  - unfold blen in *. unfold nonce. rewrite length_app, length_resize, gcm_overhead by done. lia.
  - exists nonce, plain. split; [apply length_resize|]. split; [done|]. apply unmarshal_marshal; [done|by rewrite Hbd|].
    intros k v Hk. apply stored_ok_utf8. by apply Hall.
Qed.

(** ** The invariant

    [kept]: both layers of the disk hold valid states under one key, the visible
    one advances the durable one. [handled]: a handle that has not failed sees
    the durable state. *)
Record kept (key : list byte) (stv std : state) (d : Disk) : Prop := {
  kp_key : length key = 32%nat;
  kp_visible : layer key stv (visible d);
  kp_durable : layer key std (durable d);
  kp_okv : state_ok stv;
  kp_okd : state_ok std;
  kp_adv : advances std stv;
}.
Record handled (key : list byte) (stv std : state) (s : Store) : Prop := {
  hd_key : s_key s = key;
  hd_digest : s_keyDigest s = digest key;
  hd_binding : st_Binding (s_state s) = b;
  hd_fresh : s_failed s = false -> stv = std;
}.
Definition linked key stv std s d : Prop := kept key stv std d /\ handled key stv std s.

(** The range statement enumerates every key once. *)
Definition range_ok (io : OpIO) : Prop := forall X, io_range io X ≡ₚ elements X.

(** How a method leaves the store: the durable state has advanced, and an answer
    without error comes from a handle in good order and satisfies [P]. *)
Definition outcome {A} (key : list byte) (std : state) (P : A -> state -> Prop) (r : result SendErr A) (s' : Store) (d' : Disk) : Prop :=
  exists stv' std', linked key stv' std' s' d' /\ advances std std' /\ forall a, r = Ok a -> P a std'.

(** From a handle in good order whose copy is the durable state... *)
Definition at_state {A} (st : state) (m : M A) (P : A -> state -> Prop) : Prop :=
  forall key s d io r s' d', range_ok io -> linked key st st s d -> s_failed s = false -> s_state s = st ->
    m io s d = (r, (s', d')) -> outcome key st P r s' d'.
(** ... and from any handle: [P] relates the durable state before, the answer
    and the durable state after. *)
Definition method {A} (m : M A) (P : state -> A -> state -> Prop) : Prop :=
  forall key stv std s d io r s' d', range_ok io -> linked key stv std s d -> m io s d = (r, (s', d')) ->
    outcome key std (P std) r s' d'.

Lemma at_ret {A} st (a : A) (P : A -> state -> Prop) : P a st -> at_state st (m_ret a) P.
Proof. intros HP key s d io r s' d' _ Hl _ _ [= <- <- <-]. exists st, st. split_and!; [done|done|]. by intros ? [= <-]. Qed.

Lemma at_err {A} st e (P : A -> state -> Prop) : at_state st (m_err e) P.
Proof. intros key s d io r s' d' _ Hl _ _ [= <- <- <-]. exists st, st. by split_and!. Qed.

Lemma at_guard {A} st c e (k : M A) P : (c = true -> at_state st k P) -> at_state st (m_bind (m_guard c e) (fun _ => k)) P.
Proof.
  intros Hk key s d io r s' d' Hio Hl Hf Hs. unfold m_bind, m_guard. destruct c; [by apply Hk|].
  by apply (at_err st e P key s d io r s' d').
Qed.

Lemma at_read {A} st (k : state -> M A) P : at_state st (k st) P -> at_state st (m_bind m_state k) P.
Proof. intros Hk key s d io r s' d' Hio Hl Hf Hs. unfold m_bind, m_state. rewrite Hs. by apply Hk. Qed.

(** A write: durable when it succeeds; when it fails the file is the old one or
    the new one, and the durable directory is untouched. *)
Lemma persist_spec io key st d r d' : length key = 32%nat -> state_ok st -> persist io key st d = (r, d') ->
  match r with
  | Ok _ => exists data, holds key data st /\ forall n, is_temp n = false ->
      durable d' !! n = <["state"%string := data]> (visible d) !! n /\ visible d' !! n = <["state"%string := data]> (visible d) !! n
  | Err _ => durable d' = durable d /\ (forall n, is_temp n = false -> n <> "state"%string -> visible d' !! n = visible d !! n) /\
      (visible d' !! "state"%string = visible d !! "state"%string \/
       exists data, holds key data st /\ visible d' !! "state"%string = Some data)
  end.
Proof.
  intros Hlen Hok. unfold persist. destruct (marshal_state st) as [plain|] eqn:Hm; [|intros [= <- <-]; by eauto].
  destruct (_ <? _) eqn:Hmax; [intros [= <- <-]; by eauto|].
  destruct (io_nonce io) as [nonce|]; [|intros [= <- <-]; by eauto].
  pose proof (sealed_holds key st plain nonce Hlen Hok Hm Hmax) as Hholds. cbv zeta in Hholds.
  set (data := resize _ _ _ ++ _) in *. clearbody data.
  destruct (atomicWrite _ _ _ d) as [[] d1] eqn:Hw; intros [= <- <-].
  - exists data. split; [done|]. by apply (atomicWrite_ok _ "state" _ _ _ eq_refl Hw).
  - destruct (atomicWrite_fail _ "state"%string _ _ _ eq_refl Hw) as (Hdur & Hother & Hstate). split_and!; [done|done|].
    destruct Hstate as [?|?]; eauto.
Qed.

Lemma layer_write key st data (dir dir' : gmap string (list byte)) : holds key data st -> dir !! "key"%string = Some key ->
  (forall n, is_temp n = false -> dir' !! n = <["state"%string := data]> dir !! n) -> layer key st dir'.
Proof.
  intros Hh Hk Hdir. split; [by rewrite Hdir, lookup_insert_ne|]. exists data. by rewrite Hdir, lookup_insert_eq.
Qed.

Lemma at_persist st st' (P : unit -> state -> Prop) :
  state_ok st' -> advances st st' -> P tt st' -> at_state st (persist_or_fail st') P.
Proof.
  intros Hok Hadv HP key s d io r s' d' _ [Hk Hh] Hf Hs. destruct Hk as [Hlen Hv Hd Hokv Hokd _]. destruct Hh as [Hkey Hdig Hbd _].
  unfold persist_or_fail. rewrite Hkey. destruct (persist io key st' d) as [rp d1] eqn:Hp.
  pose proof (persist_spec _ _ _ _ _ _ Hlen Hok Hp) as Hspec. pose proof (ok_binding _ Hok) as Hbd'.
  destruct Hv as (Hvk & raw & Hvr & Hvh). destruct rp as [u|e]; intros [= <- <- <-].
  - destruct Hspec as (data & Hh & Hnew). exists st', st'. split_and!; [|done|by intros [] _].
    assert (forall dir, (forall n, is_temp n = false -> dir !! n = <["state"%string := data]> (visible d) !! n) -> layer key st' dir)
      as Hlay by (intros; by eapply (layer_write _ _ data (visible d))).
    split; split; try done; apply Hlay; intros n Hn; by apply Hnew.
  - destruct Hspec as (Hdur & Hother & Hstate).
    assert (exists stv, layer key stv (visible d1) /\ state_ok stv /\ advances st stv) as (stv & Hlay & Hokv' & Hadv').
    { destruct Hstate as [Hsame|(data & Hh & Hnew)]; [exists st | exists st']; (split; [|by split]);
        (split; [by rewrite Hother|]); eexists; [rewrite Hsame | rewrite Hnew]; by split. }
    exists stv, st. split_and!; [|done|done]. split; split; try done. by rewrite Hdur.
Qed.

Lemma load_linked key stv std s d io r s' d' : linked key stv std s d -> load io s d = (r, (s', d')) ->
  (exists e, r = Err e /\ s' = s /\ d' = d) \/
  (r = Ok tt /\ s_failed s = false /\ stv = std /\ s' = set_state s std /\ d' = d).
Proof.
  intros [[Hlen Hv Hd Hokv Hokd _] [Hkey Hdig Hbd Hfresh]]. unfold load, load_state.
  destruct (io_ctx io); [|intros [= <- <- <-]; left; eauto]. cbn [guard rbind].
  destruct (s_failed s) eqn:Hf; [intros [= <- <- <-]; left; eauto|]. cbn [negb guard rbind].
  specialize (Hfresh eq_refl) as ->. unfold readPrivate at 1. destruct (io_key io); [|intros [= <- <- <-]; left; eauto].
  destruct Hv as (Hvk & raw & Hvr & Hvh). cbn [guard rbind]. rewrite Hvk. cbn [of_option rbind].
  assert (blen key = 32) as Hbl by (unfold blen; by rewrite Hlen). rewrite !Hbl.
  cbn [Z.leb Z.compare Pos.compare Pos.compare_cont Z.eqb Pos.eqb andb guard rbind]. rewrite Hbl, Hdig, str_eqb_refl.
  cbn [Z.leb Z.compare Pos.compare Pos.compare_cont Z.eqb Pos.eqb andb guard rbind].
  rewrite Hkey, (read_holds _ _ raw std) by done. destruct (io_state io); [|intros [= <- <- <-]; left; eauto].
  cbn [rbind]. rewrite bool_decide_true by by rewrite Hbd, (ok_binding _ Hokd). cbn [guard rbind].
  intros [= <- <- <-]. right. split_and!; done.
Qed.

(** Every method loads first. *)
Lemma method_load {A} (k : M A) (P : state -> A -> state -> Prop) :
  (forall st, state_ok st -> at_state st k (P st)) -> method (m_bind load (fun _ => k)) P.
Proof.
  intros Hk key stv std s d io r s' d' Hio Hl. unfold m_bind. destruct (load io s d) as [r0 [s0 d0]] eqn:Hload.
  destruct (load_linked _ _ _ _ _ _ _ _ _ Hl Hload) as [(e & -> & -> & ->)|(-> & Hf & -> & -> & ->)].
  - intros [= <- <- <-]. exists stv, std. by split_and!.
  - destruct Hl as [Hkp [Hkey Hdig Hbd Hfr]]. apply Hk; try done; [apply Hkp|].
    split; [done|]. split; try done. cbn. apply Hkp.
Qed.

(** ** Operations of a valid state *)
Lemma at_get {A} st p a (k : storedOperation -> M A) P : state_ok st ->
  (forall v, Operations st !! operationKey p a = Some v -> o_ProjectID (so_Operation v) = p -> o_AskID (so_Operation v) = a ->
     stored_facts (operationKey p a) v -> at_state st (k v) P) ->
  at_state st (m_bind (get p a) k) P.
Proof.
  intros Hok Hk key s d io r s' d' Hio Hl Hf Hs. unfold m_bind, get, m_guard.
  destruct (_ && _) eqn:Hids; [|by apply (at_err st _ P key s d io r s' d')].
  apply andb_true_iff in Hids as [Hid1 Hid2]. unfold m_bind, m_ret, m_state.
  rewrite Hs. destruct (Operations st !! _) as [v|] eqn:Hv; [|by apply (at_err st _ P key s d io r s' d')].
  pose proof (proj1 (stored_ok_facts _ _) (ok_stored _ Hok _ _ Hv)) as Hfacts.
  destruct (operationKey_inj _ _ _ _ _ _ Hid1 (sf_project _ _ Hfacts) (sf_key _ _ Hfacts)) as [Hp Ha].
  by apply Hk.
Qed.

Lemma at_then {A B} st (c : M A) (f : A -> B) (P : B -> state -> Prop) :
  at_state st c (fun a st' => P (f a) st') -> at_state st (m_bind c (fun a => m_ret (f a))) P.
Proof.
  intros Hc key s d io r s' d' Hio Hl Hf Hs. unfold m_bind. destruct (c io s d) as [r0 [s0 d0]] eqn:Hrun.
  specialize (Hc _ _ _ _ _ _ _ Hio Hl Hf Hs Hrun) as (stv & std & Hl' & Hadv & HP).
  destruct r0 as [a|e]; intros [= <- <- <-]; exists stv, std; split_and!; try done. intros ? [= <-]. by apply HP.
Qed.

Lemma insert_ok st v : state_ok st -> stored_ok b (stored_key v) v = true ->
  (forall k w, Operations st !! k = Some w -> o_AskID (so_Operation w) = o_AskID (so_Operation v) -> k = stored_key v) ->
  state_ok (set_operations st (<[stored_key v := v]> (Operations st))).
Proof.
  intros [Hv Hbd Hall Hask] Hok Hnew. split; [done|done|by apply map_Forall_insert_2|].
  cbn. intros k k' w w' Hk Hk' Heq. apply lookup_insert_Some in Hk as [[<- <-]|[Hne Hk]];
    apply lookup_insert_Some in Hk' as [[<- <-]|[Hne' Hk']]; eauto; symmetry; eauto.
Qed.

(** A changed operation is saved in place of its earlier version. *)
Lemma at_update st v v' (P : Operation -> state -> Prop) : state_ok st ->
  Operations st !! stored_key v' = Some v -> stored_ok b (stored_key v') v' = true -> stored_advances v v' ->
  (forall st', Operations st' !! stored_key v' = Some v' -> P (so_Operation v') st') -> at_state st (save v') P.
Proof.
  intros Hok Hv Hok' Hadv HP. apply at_read.
  apply (at_then _ _ (fun _ => so_Operation v')). apply at_persist.
  - apply insert_ok; [done|done|]. intros k w Hk Heq. eapply ok_asks; [done|exact Hk|exact Hv|]. rewrite Heq. apply Hadv.
  - split_and!; [done| |].
    + intros k w Hk. cbn. destruct (decide (k = stored_key v')) as [->|Hne].
      * rewrite lookup_insert_eq. simplify_eq. eauto.
      * rewrite lookup_insert_ne by done. exists w. by split.
    + intros _ k. cbn. destruct (decide (k = stored_key v')) as [->|Hne]; [by eauto|]. by rewrite lookup_insert_ne.
  - apply HP. cbn. by rewrite lookup_insert_eq.
Qed.

(** A new operation is added to an enabled store. *)
Lemma at_add st v (P : Operation -> state -> Prop) : state_ok st -> Disabled st = false ->
  stored_ok b (stored_key v) v = true ->
  (forall k w, Operations st !! k = Some w -> o_AskID (so_Operation w) <> o_AskID (so_Operation v)) ->
  (forall st', Operations st' !! stored_key v = Some v -> P (so_Operation v) st') -> at_state st (save v) P.
Proof.
  intros Hok Hdis Hv Hnew HP. apply at_read.
  apply (at_then _ _ (fun _ => so_Operation v)). apply at_persist.
  - apply insert_ok; [done|done|]. intros k w Hk Heq. by destruct (Hnew k w).
  - split_and!; [done| |by rewrite Hdis]. intros k w Hk. cbn. destruct (decide (k = stored_key v)) as [->|Hne].
    + apply stored_ok_facts in Hv as Hf. pose proof (proj1 (stored_ok_facts _ _) (ok_stored _ Hok _ _ Hk)) as Hw.
      destruct (operationKey_inj _ _ _ _ _ _ (sf_project _ _ Hf) (sf_project _ _ Hw) (sf_key _ _ Hw)) as [_ Ha].
      by destruct (Hnew _ _ Hk).
    + rewrite lookup_insert_ne by done. exists w. by split.
  - apply HP. cbn. by rewrite lookup_insert_eq.
Qed.

Lemma find_ask_some io ops ask v : range_ok io -> find_ask (io_range io (dom ops)) ops ask = Some v ->
  o_AskID (so_Operation v) = ask /\ exists k, ops !! k = Some v.
Proof.
  intros Hio Hf. apply head_Some_elem_of, list_elem_of_filter in Hf as [Ha Hin]. split; [done|].
  apply list_elem_of_omap in Hin as (k & _ & Hk). eauto.
Qed.

Lemma find_ask_none io ops ask k v : range_ok io -> find_ask (io_range io (dom ops)) ops ask = None -> ops !! k = Some v ->
  o_AskID (so_Operation v) <> ask.
Proof.
  unfold find_ask. intros Hio Hf Hk Ha. apply head_None in Hf.
  assert (v ∈ filter (fun stored => o_AskID (so_Operation stored) = ask) (omap (fun k => ops !! k) (io_range io (dom ops)))) as Hin.
  { apply list_elem_of_filter. split; [done|]. apply list_elem_of_omap. exists k. split; [|done].
    rewrite (Hio (dom ops)). apply elem_of_elements, elem_of_dom. eauto. }
  rewrite Hf in Hin. by apply not_elem_of_nil in Hin.
Qed.

(** An operation found in a state is recorded there. *)
Lemma recorded_here st k v : state_ok st -> Operations st !! k = Some v -> recorded st (so_Operation v).
Proof.
  intros Hok Hk. exists v. pose proof (proj1 (stored_ok_facts _ _) (ok_stored _ Hok _ _ Hk)) as Hf.
  by rewrite <- (sf_key _ _ Hf).
Qed.

(** ** The methods *)
Lemma method_mono {A} (m : M A) (P Q : state -> A -> state -> Prop) :
  (forall st a st', P st a st' -> Q st a st') -> method m P -> method m Q.
Proof.
  intros HPQ Hm key stv std s d io r s' d' Hio Hl Hrun.
  destruct (Hm _ _ _ _ _ _ _ _ _ Hio Hl Hrun) as (stv' & std' & ? & ? & HP). exists stv', std'. split_and!; eauto.
Qed.

Lemma Get_method p a : method (Get p a) (fun _ o st' => recorded st' o /\ o_ProjectID o = p /\ o_AskID o = a).
Proof.
  apply method_load. intros st Hok. apply at_get; [done|]. intros v Hv Hp Ha Hf. apply at_ret. split_and!; [|done|done].
  by eapply recorded_here.
Qed.

Lemma List_method phases : method (List_ phases) (fun _ os st' => forall o, o ∈ os -> recorded st' o).
Proof.
  apply method_load. intros st Hok. apply at_guard. intros _. apply at_read, at_ret. intros o Ho.
  apply list_elem_of_fmap in Ho as ([k v] & -> & Hin). rewrite merge_sort_Permutation in Hin.
  apply list_elem_of_filter in Hin as [_ Hin]. apply elem_of_map_to_list in Hin. by eapply recorded_here.
Qed.

Lemma RecoverPrompt_method p a :
  method (RecoverPrompt p a) (fun _ s st' => exists v, Operations st' !! operationKey p a = Some v /\ so_Prompt v = s).
Proof. apply method_load. intros st Hok. apply at_get; [done|]. intros v Hv Hp Ha Hf. apply at_ret. eauto. Qed.

Lemma Enabled_method : method Enabled (fun st e st' => e = negb (Disabled st)).
Proof. apply method_load. intros st Hok. by apply at_read, at_ret. Qed.

Lemma Disable_method : method Disable (fun _ _ st' => Disabled st' = true).
Proof.
  apply method_load. intros st Hok. apply at_read, at_persist; [by destruct Hok| |done].
  split_and!; [done| |done]. intros k v Hk. exists v. by split.
Qed.

Lemma set_phase_key v ph wire r : stored_key (set_phase v ph wire r) = stored_key v.
Proof. done. Qed.

Lemma set_phase_ok k v ph wire r : stored_facts k v -> phase_ok (so_Operation (set_phase v ph wire r)) = true ->
  stored_ok b k (set_phase v ph wire r) = true.
Proof. intros [] Hph. apply stored_ok_facts. split; try done. Qed.

(** Moving to a later phase, with the wire digest and receipt still there. *)
Lemma set_phase_advances v ph wire r : rank (o_Phase (so_Operation v)) <= rank ph ->
  (2 <= rank (o_Phase (so_Operation v)) -> wire = o_WireDigest (so_Operation v)) ->
  (forall r', o_Receipt (so_Operation v) = Some r' -> r = Some r') -> stored_advances v (set_phase v ph wire r).
Proof. intros. split; [|done]. split; cbn; eauto. Qed.

Lemma recorded_at st v : Operations st !! stored_key v = Some v -> recorded st (so_Operation v).
Proof. intros Hv. exists v. by split. Qed.

Lemma MarkPreparing_method p a : method (MarkPreparing p a) (fun st o st' =>
  recorded st' o /\ o_ProjectID o = p /\ o_AskID o = a /\ o_Phase o = Preparing /\
  exists v, Operations st !! operationKey p a = Some v /\ o_Phase (so_Operation v) = Reserved).
Proof.
  apply method_load. intros st Hok. apply at_get; [done|]. intros v Hv Hp Ha Hf. apply at_guard. intros Hph.
  apply bool_decide_eq_true_1 in Hph. assert (stored_key v = operationKey p a) as Hkey by by unfold stored_key; rewrite Hp, Ha.
  apply (at_update _ v); rewrite ?set_phase_key, ?Hkey; try done.
  - apply set_phase_ok; [done|]. pose proof (sf_phase _ _ Hf) as Hpo. unfold phase_ok in *. by rewrite Hph in Hpo.
  - apply set_phase_advances; rewrite ?Hph; cbn; [lia|lia|]. intros r Hr. by rewrite Hr.
  - intros st' Hst. split_and!; [by apply recorded_at; rewrite set_phase_key, Hkey | done | done | done |]. eauto.
Qed.

Lemma MarkPrepared_method p a m : method (MarkPrepared p a m) (fun st o st' =>
  recorded st' o /\ o_ProjectID o = p /\ o_AskID o = a /\ 2 <= rank (o_Phase o) /\ o_WireDigest o = digest (pm_Wire m)).
Proof.
  apply method_load. intros st Hok. apply at_get; [done|]. intros v Hv Hp Ha Hf. apply at_guard. intros _.
  apply at_guard. intros Hres. apply negb_true_iff, bool_decide_eq_false_1 in Hres.
  assert (stored_key v = operationKey p a) as Hkey by by unfold stored_key; rewrite Hp, Ha.
  pose proof (sf_phase _ _ Hf) as Hpo. unfold phase_ok in Hpo.
  destruct (decide (o_Phase (so_Operation v) = Preparing)) as [Hph|Hph].
  - rewrite bool_decide_true by done. rewrite Hph in Hpo. rinv. cbn [negb].
    apply (at_update _ v); rewrite ?set_phase_key, ?Hkey; try done.
    + apply set_phase_ok; [done|]. unfold phase_ok. cbn. rewrite validDigest_digest. by apply bool_decide_eq_true_2.
    + apply set_phase_advances; rewrite ?Hph; cbn; [lia|lia|]. intros r Hr. by rewrite Hr.
    + intros st' Hst. split_and!; [by apply recorded_at; rewrite set_phase_key, Hkey | done | done | cbn; lia | done].
  - rewrite bool_decide_false by done. cbn [negb]. apply at_guard. intros Hw. apply str_eqb_eq in Hw. apply at_ret.
    split_and!; [by eapply recorded_here | done | done | | done]. by destruct (o_Phase (so_Operation v)).
Qed.

Lemma MarkAdmitted_method p a receipt : method (MarkAdmitted p a receipt) (fun st o st' =>
  recorded st' o /\ o_ProjectID o = p /\ o_AskID o = a /\ o_Phase o = PhaseAdmitted).
Proof.
  apply method_load. intros st Hok. apply at_get; [done|]. intros v Hv Hp Ha Hf. apply at_guard. intros Hg. rinv.
  match goal with Hr : validReceipt _ _ = true |- _ => rename Hr into Hvr end.
  assert (stored_key v = operationKey (o_ProjectID (so_Operation v)) (o_AskID (so_Operation v))) as Hkey by done.
  pose proof (sf_phase _ _ Hf) as Hpo. unfold phase_ok in Hpo.
  destruct (o_Receipt (so_Operation v)) as [old|] eqn:Hold.
  - apply at_guard. intros _. apply at_ret. split_and!; [by eapply recorded_here | done | done |].
    destruct (o_Phase (so_Operation v)); rinv; try done.
  - assert (o_Phase (so_Operation v) = Prepared) as Hph.
    { destruct (o_Phase (so_Operation v)); rinv; try done. }
    rewrite Hph in Hpo. rinv.
    apply (at_update _ v); rewrite ?set_phase_key, ?Hkey; try done.
    + apply set_phase_ok; [done|]. unfold phase_ok. cbn [set_phase so_Operation o_Phase o_WireDigest o_Receipt].
      match goal with Hd : validDigest _ = true |- _ => rewrite Hd end. exact Hvr.
    + apply set_phase_advances; rewrite ?Hph; cbn; [lia|done|]. intros r Hr. congruence.
    + intros st' Hst. split_and!; [by apply recorded_at; rewrite set_phase_key, Hkey | done | done | done].
Qed.

Lemma RecordReply_method reply : method (Store_RecordReply reply) (fun st o st' =>
  recorded st' o /\ o_ProjectID o = rp_ProjectID reply /\ o_AskID o = rp_AskID reply /\ o_Reply o = Some reply).
Proof.
  apply method_load. intros st Hok. apply at_get; [done|]. intros v Hv Hp Ha Hf. apply at_read, at_guard. intros Hr.
  rewrite (ok_binding _ Hok) in Hr.
  destruct (o_Reply (so_Operation v)) as [old|] eqn:Hold.
  - apply at_guard. intros Heq. apply bool_decide_eq_true_1 in Heq as ->. apply at_ret.
    split_and!; [by eapply recorded_here | done | done | done].
  - assert (stored_key (set_reply v reply) = operationKey (rp_ProjectID reply) (rp_AskID reply)) as Hkey.
    { unfold stored_key. cbn. by rewrite Hp, Ha. }
    apply (at_update _ v); rewrite ?Hkey; try done.
    + apply stored_ok_facts. destruct Hf. split; try done. intros r [= <-]. done.
    + split; [|done]. split; cbn; try done. congruence.
    + intros st' Hst. split_and!; [by apply recorded_at; rewrite Hkey | done | done | done].
Qed.

Lemma ReserveWithID_method p recipient a prompt : method (ReserveWithID p recipient a prompt) (fun st o st' =>
  Disabled st = false /\ recorded st' o /\ o_ProjectID o = p /\ o_AskID o = a /\ o_RecipientID o = recipient /\
  o_PromptDigest o = digest (bytes_of prompt)).
Proof.
  intros key stv std s d io r s' d' Hio. unfold ReserveWithID. revert Hio.
  cut (range_ok io -> method (m_bind load (fun _ => m_bind m_state (fun st =>
    m_bind (m_guard (negb (Disabled st)) ErrDisabled) (fun _ =>
    m_bind (m_guard (validID p false && validID recipient false && validID a true && validText prompt MaxPromptChars) ErrInvalid) (fun _ =>
    match find_ask (io_range io (dom (Operations st))) (Operations st) a with
    | Some stored =>
        m_bind (m_guard (negb (negb (str_eqb (o_ProjectID (so_Operation stored)) p) ||
                  negb (str_eqb (o_RecipientID (so_Operation stored)) recipient) ||
                  negb (str_eqb (o_PromptDigest (so_Operation stored)) (digest (bytes_of prompt))) ||
                  negb (str_eqb (so_Prompt stored) prompt))) ErrConflict) (fun _ => m_ret (so_Operation stored))
    | None => save (mkStored (mkOperation p a recipient (digest (bytes_of prompt)) Reserved "" None None) prompt)
    end))))) (fun st o st' =>
      Disabled st = false /\ recorded st' o /\ o_ProjectID o = p /\ o_AskID o = a /\ o_RecipientID o = recipient /\
      o_PromptDigest o = digest (bytes_of prompt))).
  { intros Hm Hio. by apply (Hm Hio). }
  intros Hio. apply method_load. intros st Hok. apply at_read, at_guard. intros Hdis. apply negb_true_iff in Hdis.
  apply at_guard. intros Hvalid. rinv. destruct (find_ask _ _ a) as [v|] eqn:Hfind.
  - destruct (find_ask_some _ _ _ _ Hio Hfind) as [Ha [k Hk]]. apply at_guard. intros Hsame. rinv.
    repeat match goal with He : str_eqb _ _ = true |- _ => apply str_eqb_eq in He end.
    apply at_ret. split_and!; try done. by eapply recorded_here.
  - apply at_add; try done.
    + apply stored_ok_facts. split; try done.
    + intros k w Hk. by eapply find_ask_none.
    + intros st' Hst. split_and!; try done. by apply recorded_at.
Qed.

Lemma Close_method : method Close (fun _ _ _ => True).
Proof.
  intros key stv std s d io r s' d' _ [Hk [Hkey Hdig Hbd _]] [= <- <- <-]. exists stv, std. split; [|by split].
  split; [done|]. by split.
Qed.

(** ** The disk, whatever happened to it

    Either no state was ever durable (and perhaps the first one is visible), or
    both layers hold one: the index is the durable state. *)
Inductive disk_ok (d : Disk) : option state -> Prop :=
| disk_none : visible d !! "state"%string = None -> durable d !! "state"%string = None -> disk_ok d None
| disk_pending key st : length key = 32%nat -> state_ok st -> layer key st (visible d) ->
    durable d !! "key"%string = Some key -> durable d !! "state"%string = None -> disk_ok d None
| disk_kept key stv std : kept key stv std d -> disk_ok d (Some std).

(** The durable state is there, in a later version. *)
Definition later (o o' : option state) : Prop := forall st, o = Some st -> exists st', o' = Some st' /\ advances st st'.

Lemma later_refl o : later o o.
Proof. intros st ->. by exists st. Qed.

Lemma later_trans o o' o'' : later o o' -> later o' o'' -> later o o''.
Proof.
  intros H12 H23 st Hst. destruct (H12 _ Hst) as (st' & Hst' & Ha). destruct (H23 _ Hst') as (st'' & Hst'' & Ha').
  exists st''. split; [done|]. by etrans.
Qed.

Lemma kept_sync key stv std d : kept key stv std d -> kept key stv stv (sync d).
Proof. intros []. by split. Qed.

Lemma sync_ok d o : disk_ok d o -> exists o', disk_ok (sync d) o' /\ later o o' /\
  ((visible d !! "state"%string = None /\ o' = None) \/ exists key st, o' = Some st /\ kept key st st (sync d)).
Proof.
  intros [Hv Hd|key st Hlen Hok Hlay Hk Hd|key stv std Hkp].
  - exists None. split_and!; [by apply disk_none|by intros ?|]. by left.
  - exists (Some st). assert (kept key st st (sync d)) as Hkp by by split.
    split_and!; [by eapply disk_kept|by intros ?|]. right. eauto.
  - exists (Some stv). pose proof (kept_sync _ _ _ _ Hkp) as Hs. split_and!; [by eapply disk_kept| |right; eauto].
    intros ? [= <-]. exists stv. split; [done|]. apply Hkp.
Qed.

Lemma flush_ok name d o : disk_ok d o -> exists o', disk_ok (flush name d) o' /\ later o o'.
Proof.
  assert (Hl : forall n, durable (flush name d) !! n = if decide (n = name) then visible d !! n else durable d !! n).
  { intros n. cbn. destruct (decide (n = name)) as [->|]; [by rewrite lookup_partial_alter_eq | by rewrite lookup_partial_alter_ne]. }
  intros [Hv Hd|key st Hlen Hok [Hvk (raw & Hvr & Hvh)] Hk Hd|key stv std [Hlen Hv Hd Hokv Hokd Hadv]].
  - exists None. split; [|by intros ?]. apply disk_none; [done|]. rewrite Hl. by case_decide.
  - destruct (decide ("state"%string = name)) as [<-|Hne].
    + exists (Some st). split; [|by intros ?]. eapply (disk_kept _ key st st). split; try done; [by split; eauto|].
      split; [rewrite Hl; by case_decide|]. exists raw. rewrite Hl. by rewrite decide_True.
    + exists None. split; [|by intros ?]. eapply (disk_pending _ key st); try done; [by split; eauto| |].
      * rewrite Hl. by case_decide.
      * rewrite Hl. by rewrite decide_False.
  - destruct Hv as (Hvk & raw & Hvr & Hvh). destruct Hd as (Hdk & raw' & Hdr & Hdh).
    destruct (decide ("state"%string = name)) as [<-|Hne].
    + exists (Some stv). split; [|intros ? [= <-]; eauto]. eapply (disk_kept _ key stv stv). split; try done; [by split; eauto|].
      split; [rewrite Hl; by case_decide|]. exists raw. rewrite Hl. by rewrite decide_True.
    + exists (Some std). split; [|intros ? [= <-]; by exists std]. eapply (disk_kept _ key stv std). split; try done; [by split; eauto|].
      split; [rewrite Hl; by case_decide|]. exists raw'. rewrite Hl. by rewrite decide_False.
Qed.

Lemma power_loss_ok d o : disk_ok d o -> disk_ok (power_loss d) o.
Proof.
  intros [Hv Hd|key st Hlen Hok Hlay Hk Hd|key stv std Hkp].
  - by apply disk_none.
  - by apply disk_none.
  - eapply (disk_kept _ key std std). destruct Hkp. by split.
Qed.

(** The first state of a fresh store. *)
Lemma initial_state_ok : state_ok (mkState false 1 b ∅).
Proof. split; [done|done|apply map_Forall_empty|]. cbn. intros ????. by rewrite lookup_empty. Qed.

(** How [Open] leaves the disk. *)
Definition opened (o : option state) (r : result SendErr Store) (d' : Disk) : Prop :=
  match r with
  | Err _ => exists o', disk_ok d' o' /\ later o o'
  | Ok s => exists key st, linked key st st s d' /\ later o (Some st)
  end.

Lemma initialize_ok io raw d r d' : visible d = ∅ -> durable d = ∅ ->
  (let key := resize 32 x00 raw in
   let '(ok, d) := atomicWrite (oi_keywrite io) "key" key d in
   if negb ok then (Err ErrIO, d) else
   let '(r, d) := persist (oi_op io) key (mkState false 1 b ∅) d in
   (let? _ := r in Ok (mkStore key (digest key) (mkState false 1 b ∅) false), d)) = (r, d') -> opened None r d'.
Proof.
  intros Hv Hd. cbv zeta. set (key := resize 32 x00 raw). assert (length key = 32%nat) as Hlen by apply length_resize.
  assert (Hnone : forall d1, visible d1 !! "state"%string = None -> durable d1 !! "state"%string = None -> opened None (Err ErrIO) d1).
  { intros d1 ? ?. exists None. split; [by apply disk_none|by intros ?]. }
  destruct (atomicWrite _ _ key d) as [[] d1] eqn:Hw; cbn [negb].
  2:{ intros [= <- <-]. destruct (atomicWrite_fail _ "key"%string _ _ _ eq_refl Hw) as (Hdur & Hother & _).
      apply Hnone; [by rewrite Hother, Hv|by rewrite Hdur, Hd]. }
  pose proof (atomicWrite_ok _ "key"%string _ _ _ eq_refl Hw) as Hkey. rewrite Hv in Hkey.
  assert (visible d1 !! "state"%string = None /\ durable d1 !! "state"%string = None) as [Hvs Hds].
  { destruct (Hkey "state"%string eq_refl) as [-> ->]. by rewrite lookup_insert_ne. }
  assert (visible d1 !! "key"%string = Some key /\ durable d1 !! "key"%string = Some key) as [Hvk Hdk].
  { destruct (Hkey "key"%string eq_refl) as [-> ->]. by rewrite lookup_insert_eq. }
  destruct (persist _ _ _ d1) as [rp d2] eqn:Hp. pose proof (persist_spec _ _ _ _ _ _ Hlen initial_state_ok Hp) as Hspec.
  destruct rp as [u|e]; intros [= <- <-].
  - destruct Hspec as (data & Hh & Hnew). exists key, (mkState false 1 b ∅). split; [|by intros ?].
    assert (forall dir, (forall n, is_temp n = false -> dir !! n = <["state"%string := data]> (visible d1) !! n) ->
      layer key (mkState false 1 b ∅) dir) as Hlay by (intros; by eapply (layer_write _ _ data (visible d1))).
    split; split; try done; try apply initial_state_ok; apply Hlay; intros n Hn; by apply Hnew.
  - destruct Hspec as (Hdur & Hother & [Hsame|(data & Hh & Hnew)]).
    + exists None. split; [|by intros ?]. apply disk_none; [by rewrite Hsame|by rewrite Hdur].
    + exists None. split; [|by intros ?]. eapply (disk_pending _ key (mkState false 1 b ∅)); rewrite ?Hdur; try done; try apply initial_state_ok.
      split; [by rewrite Hother|]. eauto.
Qed.

Lemma open_kept io key st d : kept key st st d -> io_key io = true ->
  readPrivate (io_key io) "key" 32 d = Ok key /\ read io key d = (if io_state io then Ok st else Err ErrIO).
Proof.
  intros [Hlen (Hvk & raw & Hvr & Hvh) _ Hok _ _] Hio. split.
  - unfold readPrivate. rewrite Hio. cbn. rewrite Hvk. cbn. unfold blen. by rewrite Hlen.
  - by eapply read_holds.
Qed.

Lemma Open_ok io d o r d' : disk_ok d o -> Open io b d = (r, d') -> opened o r d'.
Proof.
  intros Hdisk. unfold Open. rewrite Hb. destruct (oi_dir io && oi_chmod io); [|intros [= <- <-]; exists o; split; [done|apply later_refl]].
  cbn [negb]. unfold syncDir. destruct (oi_sync io); [|intros [= <- <-]; exists o; split; [done|apply later_refl]]. cbn [andb].
  destruct (sync_ok _ _ Hdisk) as (o' & Hdisk' & Hlater & Hcase).
  assert (Herr : forall e, opened o (Err e) (sync d)) by (intros e; by exists o').
  destruct (oi_list io); [|intros [= <- <-]; apply Herr]. cbn [negb].
  destruct (bool_decide (visible (sync d) = ∅)) eqn:Hempty.
  - apply bool_decide_eq_true_1 in Hempty. assert (visible d !! "state"%string = None) as Hnone by by cbn in Hempty; rewrite Hempty.
    destruct Hcase as [[_ ->]|(key & st & -> & Hkp)].
    2:{ destruct Hkp as [_ (Hvk & _) _ _ _ _]. cbn in Hvk, Hempty. by rewrite Hempty in Hvk. }
    assert (o = None) as -> by (destruct o as [st|]; [|done]; by destruct (Hlater st eq_refl) as (? & ? & _)).
    destruct (oi_rand io) as [raw|]; [|intros [= <- <-]; apply Herr]. intros Hrun. by eapply initialize_ok.
  - destruct (readPrivate _ _ _ _) as [key|e] eqn:Hread; [|intros [= <- <-]; apply Herr].
    destruct (blen key =? 32); [|intros [= <- <-]; apply Herr]. cbn [negb].
    destruct Hcase as [[Hnone ->]|(key' & st & -> & Hkp)].
    + unfold read, readPrivate. destruct (io_state (oi_op io)); cbn [guard rbind]; [|intros [= <- <-]; apply Herr].
      cbn [sync visible]. rewrite Hnone. cbn [of_option rbind]. intros [= <- <-]. apply Herr.
    + assert (io_key (oi_op io) = true) as Hio.
      { destruct (io_key (oi_op io)); [done|]. done. }
      destruct (open_kept (oi_op io) _ _ _ Hkp Hio) as [Hrk Hrs]. rewrite Hread in Hrk. injection Hrk as ->.
      rewrite Hrs. destruct (io_state (oi_op io)); [|intros [= <- <-]; apply Herr]. cbn [rbind].
      rewrite bool_decide_true by apply Hkp. cbn [guard rbind]. intros [= <- <-].
      exists key', st. split; [|done]. split; [done|]. split; try done. apply Hkp.
Qed.

(** Without faults a kept store opens, and answers with its durable state. *)
Definition faultless (io : OpIO) : Prop := io_ctx io = true /\ io_key io = true /\ io_state io = true.
Definition faultless_open (io : OpenIO) : Prop :=
  oi_dir io = true /\ oi_chmod io = true /\ oi_sync io = true /\ oi_list io = true /\ faultless (oi_op io).

Lemma Open_reopens io key stv std d : kept key stv std d -> faultless_open io ->
  Open io b d = (Ok (mkStore key (digest key) stv false), sync d) /\
  linked key stv stv (mkStore key (digest key) stv false) (sync d).
Proof.
  intros Hkp (Hd1 & Hd2 & Hd3 & Hd4 & _ & Hk & Hs). pose proof (kept_sync _ _ _ _ Hkp) as Hkp'. split.
  - unfold Open, syncDir. rewrite Hb, Hd1, Hd2, Hd3, Hd4. cbn [andb negb].
    destruct (open_kept (oi_op io) _ _ _ Hkp' Hk) as [-> ->]. rewrite Hs. rewrite bool_decide_false.
    2:{ destruct Hkp as [_ (Hvk & _) _ _ _ _]. cbn. intros He. by rewrite He in Hvk. }
    assert (blen key = 32) as -> by (unfold blen; by rewrite (kp_key _ _ _ _ Hkp)). cbn [Z.eqb Pos.eqb negb rbind].
    rewrite bool_decide_true by apply Hkp. done.
  - split; [done|]. split; try done. cbn. apply Hkp.
Qed.

Lemma Get_answers key st s d io v p a : linked key st st s d -> faultless io -> s_failed s = false ->
  Operations st !! operationKey p a = Some v -> validID p false = true -> validID a true = true ->
  (Get p a io s d).1 = Ok (so_Operation v).
Proof.
  intros [[Hlen (Hvk & raw & Hvr & Hvh) _ Hok _ _] [Hkey Hdig Hbd _]] (Hc & Hk & Hs) Hf Hv Hp Ha.
  unfold Get, m_bind, load, load_state. rewrite Hc, Hf. cbn [guard rbind negb]. unfold readPrivate at 1. rewrite Hk, Hvk. cbn [guard rbind of_option].
  assert (blen key = 32) as Hbl by (unfold blen; by rewrite Hlen). rewrite !Hbl.
  cbn [Z.leb Z.compare Pos.compare Pos.compare_cont Z.eqb Pos.eqb andb guard rbind]. rewrite Hbl, Hdig, str_eqb_refl.
  cbn [Z.leb Z.compare Pos.compare Pos.compare_cont Z.eqb Pos.eqb andb guard rbind].
  rewrite Hkey, (read_holds _ _ raw st) by done. rewrite Hs. cbn [rbind].
  rewrite bool_decide_true by by rewrite Hbd, (ok_binding _ Hok). cbn [guard rbind].
  unfold get, m_bind, m_guard, m_state. rewrite Hp, Ha. cbn [andb m_ret s_state set_state]. by rewrite Hv.
Qed.
End store.
End SenderInv.
