(* ===== verification/SenderMachine.v ===== *)
(** * The sender in operation

    Any number of goroutines run the sender's programs; between any two of their
    calls another goroutine may run, the file system may persist a pending entry,
    the process may exit and power may be lost. The store is opened again after
    each exit; system calls fail at will and the SDK answers anything.

    [disciplined] and [quiet] are what the programs promise; [world_ok] is the
    invariant of every reachable world. *)
From Stdlib Require Import Strings.Byte ZArith Lia.
From S2P Require Import Prelude GoStrings FabricRef SqlTx Ledger LedgerInv FileStore Sender SenderEngine SenderInv.
#[local] Open Scope Z_scope.

Module SenderMachine.
Import FileStore Sender SenderEngine SenderInv.

(** ** The controller's own state *)
Record Controller := mkController {
  c_running : bool; c_live : bool; c_ready : gset string; c_revision : Z; c_wake : bool }.

(** NewController. *)
Definition NewController : Controller := mkController false false ∅ 0 false.

(** notifyLocked; the channel [changed] is identified by the revision. *)
Definition notify (c : Controller) : Controller :=
  mkController (c_running c) (c_live c) (c_ready c) (wrapu64 (c_revision c + 1)) (c_wake c).
(** Wake: signals coalesce. *)
Definition Wake (c : Controller) : Controller := mkController (c_running c) (c_live c) (c_ready c) (c_revision c) true.
Definition set_live (live : bool) (c : Controller) : Controller :=
  mkController (c_running c) live (c_ready c) (c_revision c) (c_wake c).
Definition set_running (running : bool) (c : Controller) : Controller :=
  mkController running (c_live c) (c_ready c) (c_revision c) (c_wake c).
Definition set_ready (project : string) (c : Controller) : Controller :=
  mkController (c_running c) (c_live c) ({[project]} ∪ c_ready c) (c_revision c) (c_wake c).

Section machine.
Context `{Sha256, AesGcm, SenderJson, Uuid, UrlParser}.

(** The calls the store answers; a method of [M] answers with its result. *)
Definition Method (A : Type) : Type := OpIO -> Store -> Disk -> A * (Store * Disk).
Definition store_method {A} (c : Call A) : option (Method A) :=
  match c in Call A return option (Method A) with
  | CReserveWithID p r a t => Some (ReserveWithID p r a t)
  | CGet p a => Some (Get p a)
  | CList phases => Some (List_ phases)
  | CRecoverPrompt p a => Some (RecoverPrompt p a)
  | CMarkPreparing p a => Some (MarkPreparing p a)
  | CMarkPrepared p a m => Some (MarkPrepared p a m)
  | CMarkAdmitted p a r => Some (MarkAdmitted p a r)
  | CRecordReply r => Some (Store_RecordReply r)
  | CEnabled => Some Enabled
  | CDisable => Some Disable
  | CClose => Some Close
  | _ => None
  end.

(** The calls the controller's state answers. *)
Definition controller_method {A} (c : Call A) : option (Controller -> A * Controller) :=
  match c in Call A return option (Controller -> A * Controller) with
  | KTryStart => Some (fun k => if c_running k then (false, k) else (true, set_running true k))
  | KStop => Some (fun k => (tt, set_running false k))
  | KSetLive live => Some (fun k => (tt, set_live live k))
  | KLive => Some (fun k => (c_live k, k))
  | KReady p => Some (fun k => (bool_decide (p ∈ c_ready k), k))
  | KSetReady p => Some (fun k => (tt, set_ready p k))
  | KNotify => Some (fun k => (tt, notify k))
  | KRevision => Some (fun k => (c_revision k, k))
  | KWake => Some (fun k => (tt, Wake k))
  | _ => None
  end.

(** What the environment may answer: a wait on a notification ends with it only
    after the notification, a loop wakes only when woken. *)
Definition answer_ok {A} (k : Controller) (c : Call A) : A -> Prop :=
  match c in Call A return A -> Prop with
  | EWait revision => fun e => e = WaitChanged -> c_revision k <> revision
  | ELoopEvent retry _ => fun e => (e = LoopRetry -> retry = true) /\ (e = LoopWake -> c_wake k = true)
  | _ => fun _ => True
  end.

(** A received wake-up empties the channel. *)
Definition environment_effect {A} (c : Call A) : A -> Controller -> Controller :=
  match c in Call A return A -> Controller -> Controller with
  | ELoopEvent _ _ => fun e k => match e with
      | LoopWake => mkController (c_running k) (c_live k) (c_ready k) (c_revision k) false
      | _ => k end
  | _ => fun _ k => k
  end.

(** ** Events: what left the sender, and what its store acknowledged *)
Inductive Event :=
| EvPrepare (project to kind id : string) (input : list byte)
| EvSend (project ask : string)
| EvAcknowledged (o : Operation)
| EvDisabled.
#[export] Instance event_eq_dec : EqDecision Event.
Proof. solve_decision. Defined.

Definition acknowledgement (r : result SendErr Operation) : list Event :=
  match r with Ok o => [EvAcknowledged o] | Err _ => [] end.

Definition events {A} (c : Call A) : A -> list Event :=
  match c in Call A return A -> list Event with
  | SPrepare p to kind id input => fun _ => [EvPrepare p to kind id input]
  | SSend p a => fun _ => [EvSend p a]
  | CReserveWithID _ _ _ _ | CGet _ _ | CMarkPreparing _ _ | CMarkPrepared _ _ _ | CMarkAdmitted _ _ _ | CRecordReply _ =>
      acknowledgement
  | CDisable => fun r => match r with Ok _ => [EvDisabled] | Err _ => [] end
  | _ => fun _ => []
  end.

(** ** The machine *)
Record World := mkWorld {
  w_disk : Disk; w_store : option Store; w_controller : Controller; w_threads : list (prog unit); w_log : list Event }.

Definition initial : World := mkWorld (mkDisk ∅ ∅) None NewController [] [].

(** A goroutine whose result nobody reads. *)
Definition go {R} (p : prog R) : prog unit := pbind p (fun _ => Ret tt).

(** The programs a process may start. *)
Inductive entry : prog unit -> Prop :=
| entry_reconcile conn o : conn = sdk_connection \/ conn = controllerConnection -> entry (go (Reconcile conn o))
| entry_run rounds principal o : entry (go (Run rounds sdk_connection principal o))
| entry_callback principal m : entry (go (run_callback principal m))
| entry_controller rounds principal : entry (go (Controller_Run rounds principal))
| entry_message principal m : entry (go (HandleMessage principal m))
| entry_ready p : entry (go (HandleReady p))
| entry_reserve p r a t : entry (go (Controller_ReserveWithID p r a t))
| entry_reserve_new p r t : entry (go (Controller_Reserve p r t))
| entry_get p a : entry (go (Controller_Get p a))
| entry_resume p a : entry (go (Controller_Resume p a))
| entry_wait rounds p a : entry (go (Controller_Wait rounds p a))
| entry_list p after limit : entry (go (Controller_List p after limit))
| entry_revision p : entry (go (Controller_Revision p))
| entry_wait_revision rounds p after : entry (go (Controller_WaitRevision rounds p after))
| entry_store_reserve p r a t : entry (go (call (CReserveWithID p r a t)))
| entry_store_get p a : entry (go (call (CGet p a)))
| entry_disable : entry (go (call CDisable))
| entry_close : entry (go (call CClose)).

Context (b : Binding).

Definition opened_store (r : result SendErr Store) : option Store := match r with Ok s => Some s | Err _ => None end.

Inductive step (w : World) : World -> Prop :=
| step_open io r d' : w_store w = None -> Open io b (w_disk w) = (r, d') ->
    step w (mkWorld d' (opened_store r) NewController [] (w_log w))
| step_start s p : w_store w = Some s -> entry p ->
    step w (mkWorld (w_disk w) (w_store w) (w_controller w) (w_threads w ++ [p]) (w_log w))
| step_store i A (c : Call A) k m io s a s' d' : w_threads w !! i = Some (Do c k) -> store_method c = Some m ->
    w_store w = Some s -> range_ok io -> m io s (w_disk w) = (a, (s', d')) ->
    step w (mkWorld d' (Some s') (w_controller w) (<[i := k a]> (w_threads w)) (w_log w ++ events c a))
| step_controller i A (c : Call A) k f a c' : w_threads w !! i = Some (Do c k) -> controller_method c = Some f ->
    f (w_controller w) = (a, c') ->
    step w (mkWorld (w_disk w) (w_store w) c' (<[i := k a]> (w_threads w)) (w_log w ++ events c a))
| step_environment i A (c : Call A) k a : w_threads w !! i = Some (Do c k) -> store_method c = None -> controller_method c = None ->
    answer_ok (w_controller w) c a ->
    step w (mkWorld (w_disk w) (w_store w) (environment_effect c a (w_controller w)) (<[i := k a]> (w_threads w)) (w_log w ++ events c a))
| step_flush name : step w (mkWorld (flush name (w_disk w)) (w_store w) (w_controller w) (w_threads w) (w_log w))
| step_exit : step w (mkWorld (w_disk w) None NewController [] (w_log w))
| step_power_loss : step w (mkWorld (power_loss (w_disk w)) None NewController [] (w_log w)).

Definition steps : World -> World -> Prop := rtc step.
Definition reachable (w : World) : Prop := steps initial w.
End machine.
End SenderMachine.

(** ** Protocols: what a program may call, given what it was answered *)
Module Protocols.
Import Sender SenderEngine.

Record Protocol (G : Type) := mkProtocol {
  may : forall A, G -> Call A -> Prop;
  answers : forall A, Call A -> A -> Prop;
  next : forall A, G -> Call A -> A -> G }.
Arguments may {G} p {A} g c.
Arguments answers {G} p {A} c a.
Arguments next {G} p {A} g c a.

Section protocol.
Context {G : Type} (P : Protocol G).

(** The program follows the protocol from [g] on and ends in [Q]. *)
Fixpoint follows {R} (p : prog R) (g : G) (Q : R -> G -> Prop) : Prop :=
  match p with
  | Ret r => Q r g
  | Do c k => may P g c /\ forall a, answers P c a -> follows (k a) (next P g c a) Q
  end.

Lemma follows_mono {R} (p : prog R) g (Q Q' : R -> G -> Prop) :
  (forall r g', Q r g' -> Q' r g') -> follows p g Q -> follows p g Q'.
Proof.
  intros HQ. revert g. induction p as [r|A c k IH]; intros g; cbn; [apply HQ|].
  intros [Hm Hk]. split; [done|]. intros a Ha. by apply IH, Hk.
Qed.

Lemma follows_bind {R S} (p : prog R) (f : R -> prog S) g Q :
  follows p g (fun r g' => follows (f r) g' Q) -> follows (pbind p f) g Q.
Proof.
  revert g. induction p as [r|A c k IH]; intros g; cbn; [done|].
  intros [Hm Hk]. split; [done|]. intros a Ha. by apply IH, Hk.
Qed.

(** A program that follows the protocol from anywhere. *)
Definition always {R} (p : prog R) : Prop := forall g, follows p g (fun _ _ => True).

Lemma always_bind {R S} (p : prog R) (f : R -> prog S) : always p -> (forall r, always (f r)) -> always (pbind p f).
Proof. intros Hp Hf g. apply follows_bind. eapply follows_mono; [|apply Hp]. intros r g' _. apply Hf. Qed.

Lemma always_ret {R} (r : R) : always (Ret r).
Proof. done. Qed.

Lemma always_call {A} (c : Call A) : (forall g, may P g c) -> always (call c).
Proof. intros Hc g. split; [apply Hc|done]. Qed.
End protocol.
End Protocols.

(** ** The two protocols of the sender *)
Module SenderProtocols.
Import Sender SenderEngine Protocols.

(** What a goroutine knows: the prompt it recovered, the ASK it may prepare with
    the recipient, and the ASK it may send. *)
Record Ghost := mkGhost {
  g_prompt : option (string * string * string); g_permit : option (string * string * string);
  g_prepared : option (string * string) }.
Definition ghost0 : Ghost := mkGhost None None None.

(** Methods answer with the operation they were asked for. *)
Definition asked {A} (c : Call A) : A -> Prop :=
  match c in Call A return A -> Prop with
  | CGet p a | CMarkPreparing p a | CMarkPrepared p a _ | CMarkAdmitted p a _ =>
      fun r => forall o, r = Ok o -> o_ProjectID o = p /\ o_AskID o = a
  | _ => fun _ => True
  end.

(** Only a recovered prompt of a permitted ASK is prepared, only a durably
    prepared ASK is sent. *)
Definition permitted {A} (g : Ghost) (c : Call A) : Prop :=
  match c with
  | SPrepare p to kind id input =>
      kind = "ASK"%string /\ g_permit g = Some (p, id, to) /\
      exists prompt, g_prompt g = Some (p, id, prompt) /\ input = bytes_of prompt
  | SSend p a => g_prepared g = Some (p, a)
  | _ => True
  end.

(** MarkPreparing grants the permit, preparing uses it up. *)
Definition learn {A} (g : Ghost) (c : Call A) : A -> Ghost :=
  match c in Call A return A -> Ghost with
  | CRecoverPrompt p a => fun r =>
      match r with Ok s => mkGhost (Some (p, a, s)) (g_permit g) (g_prepared g) | Err _ => g end
  | CMarkPreparing p a => fun r =>
      match r with Ok o => mkGhost (g_prompt g) (Some (p, a, o_RecipientID o)) (g_prepared g) | Err _ => g end
  | SPrepare _ _ _ _ _ => fun _ => mkGhost (g_prompt g) None (g_prepared g)
  | CMarkPrepared p a _ => fun r =>
      match r with Ok o => mkGhost (g_prompt g) (g_permit g) (Some (p, a)) | Err _ => g end
  | _ => fun _ => g
  end.

Definition discipline : Protocol Ghost := mkProtocol Ghost (@permitted) (@asked) (@learn).

(** With a disabled store nothing is prepared and nothing sent. *)
Definition silent {A} (c : Call A) : Prop := match c with SPrepare _ _ _ _ _ | SSend _ _ => False | _ => True end.
Definition disabled_answers {A} (c : Call A) : A -> Prop :=
  match c in Call A return A -> Prop with
  | CEnabled => fun r => r <> Ok true
  | _ => fun _ => True
  end.
Definition fenced : Protocol unit := mkProtocol unit (fun A _ c => silent c) (@disabled_answers) (fun _ _ _ _ => tt).

Ltac walk_answer :=
  match goal with
  | Hf : forall o, Ok ?x = Ok o -> _ |- _ => specialize (Hf x eq_refl) as [? ?]
  end.
(** Follows every path of a concrete program. *)
Ltac walk := repeat first
  [ progress cbn | progress intros | progress walk_answer | done
  | match goal with
    | |- follows _ (match ?x with _ => _ end) _ _ => destruct x eqn:?
    | |- follows _ (pbind _ _) _ _ => apply follows_bind
    | |- _ /\ _ => split
    | |- exists _, _ = _ /\ _ = _ => eexists; split; [|reflexivity]
    | |- Some _ = Some _ => congruence
    end ].

Section programs.
Context `{Sha256, Uuid}.

Lemma Reconcile_disciplined conn o : conn = sdk_connection \/ conn = controllerConnection -> always discipline (Reconcile conn o).
Proof. intros [->| ->] g; unfold Reconcile, prepare_and_admit, obtain_prepared, admit_prepared, gate_error; walk. Qed.

Lemma Reconcile_fenced conn o : conn = sdk_connection \/ conn = controllerConnection -> always fenced (Reconcile conn o).
Proof.
  intros [->| ->] g; unfold Reconcile, prepare_and_admit, obtain_prepared, admit_prepared, gate_error; walk;
    repeat match goal with Hn : ?x <> Ok true |- _ => destruct x as [[]|]; simplify_eq end.
Qed.

(** Everything else follows from [Reconcile], for any protocol that leaves the
    other calls alone. *)
Context {G : Type} (P : Protocol G).
Context (Hplain : forall A g (c : Call A), silent c -> may P g c).
Context (Hreconcile : forall conn o, conn = sdk_connection \/ conn = controllerConnection -> always P (Reconcile conn o)).

Lemma always_plain {A} (c : Call A) : silent c -> always P (call c).
Proof. intros Hc. apply always_call. intros g. by apply Hplain. Qed.

Ltac stroll := repeat match goal with
  | |- always _ (pbind _ _) => apply always_bind; [|intros ?]
  | |- always _ (Ret _) => apply always_ret
  | |- always _ (call _) => apply always_plain; exact I
  | |- always _ (match ?x with _ => _ end) => destruct x
  end.

Lemma RecordReply_always principal m : always P (RecordReply principal m).
Proof. unfold RecordReply. stroll. Qed.

Lemma run_loop_always rounds conn o : conn = sdk_connection \/ conn = controllerConnection -> always P (run_loop rounds conn o).
Proof.
  intros Hc. revert o. induction rounds as [|rounds IH]; intros o; cbn [run_loop]; stroll; [by apply Hreconcile | apply IH..].
Qed.

Lemma Run_always rounds principal o : always P (Run rounds sdk_connection principal o).
Proof. unfold Run. cbn [sdk_connection conn_Receipt]. stroll. apply run_loop_always. by left. Qed.

Lemma authority_always p : always P (authority p).
Proof. unfold authority. stroll. Qed.

Lemma gate_enabled_always p : always P (gate_enabled p).
Proof. unfold gate_enabled. stroll. Qed.

Lemma Controller_ReserveWithID_always p r a t : always P (Controller_ReserveWithID p r a t).
Proof. unfold Controller_ReserveWithID. stroll. apply authority_always. Qed.

Lemma Controller_Get_always p a : always P (Controller_Get p a).
Proof. unfold Controller_Get. stroll. apply authority_always. Qed.

Lemma Controller_Wait_always rounds p a : always P (Controller_Wait rounds p a).
Proof. induction rounds as [|rounds IH]; cbn [Controller_Wait]; stroll; [apply Controller_Get_always | done]. Qed.

Lemma Controller_Revision_always p : always P (Controller_Revision p).
Proof. unfold Controller_Revision. stroll. apply authority_always. Qed.

Lemma Controller_WaitRevision_always rounds p after : always P (Controller_WaitRevision rounds p after).
Proof. induction rounds as [|rounds IH]; cbn [Controller_WaitRevision]; stroll; [apply Controller_Revision_always | done]. Qed.

Lemma operation_pass_always o : always P (operation_pass o).
Proof.
  unfold operation_pass, receipt_pass, report. stroll; try apply gate_enabled_always. apply Hreconcile. by right.
Qed.

Lemma pass_always os retry : always P (pass os retry).
Proof. revert retry. induction os as [|o os IH]; intros retry; cbn [pass]; stroll; [apply operation_pass_always | apply IH]. Qed.

Lemma controller_loop_always rounds retry delay : always P (controller_loop rounds retry delay).
Proof.
  revert retry delay. induction rounds as [|rounds IH]; intros retry delay; cbn [controller_loop]; stroll; try apply IH; apply pass_always.
Qed.

Lemma Controller_Run_always rounds principal : always P (Controller_Run rounds principal).
Proof. unfold Controller_Run. stroll; apply controller_loop_always. Qed.

Lemma HandleMessage_always principal m : always P (HandleMessage principal m).
Proof. unfold HandleMessage. stroll. apply RecordReply_always. Qed.

(** Whatever a process may start follows the protocol. *)
Lemma entry_always p : SenderMachine.entry p -> always P p.
Proof.
  intros [| | | | | | | | | | | | | | | | |]; unfold SenderMachine.go; (apply always_bind; [|intros; apply always_ret]).
  - by apply Hreconcile.
  - apply Run_always.
  - unfold run_callback. stroll. apply RecordReply_always.
  - apply Controller_Run_always.
  - apply HandleMessage_always.
  - unfold HandleReady. stroll.
  - apply Controller_ReserveWithID_always.
  - unfold Controller_Reserve. stroll. apply Controller_ReserveWithID_always.
  - apply Controller_Get_always.
  - unfold Controller_Resume. stroll. apply Controller_Get_always.
  - apply Controller_Wait_always.
  - unfold Controller_List. stroll. apply authority_always.
  - apply Controller_Revision_always.
  - apply Controller_WaitRevision_always.
  - by apply always_plain.
  - by apply always_plain.
  - by apply always_plain.
  - by apply always_plain.
Qed.
End programs.
End SenderProtocols.
