(* ===== verification/SenderProps.v ===== *)
(** * What the sender promises

    [SenderSafety] shows the invariant of every reachable world of
    [SenderMachine]; [SenderProps] has the properties: an ASK is prepared at most
    once, with the durable input; what the store acknowledged survives power
    loss; a disabled sender starts nothing. [SenderWitness] runs them. *)
From Stdlib Require Import Ascii Strings.Byte ZArith Lia.
From S2P Require Import Prelude GoStrings FabricRef SqlTx Ledger LedgerInv FileStore Sender SenderEngine SenderInv SenderMachine.
#[local] Open Scope Z_scope.

Module SenderSafety.
Import FileStore Sender SenderEngine SenderInv SenderMachine Protocols SenderProtocols.

(** ** Facts about the durable state *)
Definition stored_at (st : state) (project ask : string) (Q : storedOperation -> Prop) : Prop :=
  exists v, Operations st !! operationKey project ask = Some v /\ Q v.

(** The ASK entered preparation, for this recipient. *)
Definition preparing_for (to : string) (v : storedOperation) : Prop :=
  1 <= rank (o_Phase (so_Operation v)) /\ o_RecipientID (so_Operation v) = to.

Definition ghost_ok (st : state) (g : Ghost) : Prop :=
  (forall p a s, g_prompt g = Some (p, a, s) -> stored_at st p a (fun v => so_Prompt v = s)) /\
  (forall p a to, g_permit g = Some (p, a, to) -> stored_at st p a (preparing_for to)) /\
  (forall p a, g_prepared g = Some (p, a) -> stored_at st p a (fun v => 2 <= rank (o_Phase (so_Operation v)))).

Definition event_ok (st : state) (e : Event) : Prop :=
  match e with
  | EvPrepare p to kind id input => kind = "ASK"%string /\ stored_at st p id (fun v => preparing_for to v /\ input = bytes_of (so_Prompt v))
  | EvSend p a => stored_at st p a (fun v => 2 <= rank (o_Phase (so_Operation v)))
  | EvAcknowledged o => recorded st o
  | EvDisabled => Disabled st = true
  end.

Lemma stored_at_advances st st' p a (Q Q' : storedOperation -> Prop) : advances st st' ->
  (forall v v', stored_advances v v' -> Q v -> Q' v') -> stored_at st p a Q -> stored_at st' p a Q'.
Proof. intros (_ & Ho & _) HQ (v & Hv & Hq). destruct (Ho _ _ Hv) as (v' & Hv' & Ha). exists v'. eauto. Qed.

Lemma preparing_for_advances to v v' : stored_advances v v' -> preparing_for to v -> preparing_for to v'.
Proof. intros [[] _] [? ?]. split; [lia|congruence]. Qed.

Lemma ghost_ok_advances st st' g : advances st st' -> ghost_ok st g -> ghost_ok st' g.
Proof.
  intros Ha (H1 & H2 & H3). split_and!.
  - intros p a s Hg. eapply stored_at_advances; [exact Ha| |by apply H1]. cbn. intros v v' [_ Hp]. congruence.
  - intros p a to Hg. eapply stored_at_advances; [exact Ha| |by apply H2]. apply preparing_for_advances.
  - intros p a Hg. eapply stored_at_advances; [exact Ha| |by apply H3]. cbn. intros v v' [[] _]. lia.
Qed.

Lemma event_ok_advances st st' e : advances st st' -> event_ok st e -> event_ok st' e.
Proof.
  intros Ha. destruct e as [p to kind id input|p a|o|]; cbn.
  - intros [Hk Hs]. split; [done|]. eapply stored_at_advances; [exact Ha| |exact Hs]. cbn. intros v v' Hv [Hp Hi].
    split; [by eapply preparing_for_advances|]. by rewrite (proj2 Hv).
  - intros Hs. eapply stored_at_advances; [exact Ha| |exact Hs]. cbn. intros v v' [[] _]. lia.
  - by apply recorded_advances.
  - apply Ha.
Qed.

(** ** Counting preparations and permits *)
Definition prepares (p a : string) (e : Event) : bool :=
  match e with EvPrepare p' _ _ id _ => str_eqb p' p && str_eqb id a | _ => false end.
Definition holds_permit (p a : string) (g : Ghost) : bool :=
  match g_permit g with Some (p', a', _) => str_eqb p' p && str_eqb a' a | None => false end.
Definition count {A} (f : A -> bool) (l : list A) : nat := length (filter (fun x => f x = true) l).
Definition b2n (c : bool) : nat := if c then 1%nat else 0%nat.

Lemma tally_app {A} (f : A -> bool) l l' : count f (l ++ l') = (count f l + count f l')%nat.
Proof. unfold count. by rewrite filter_app, length_app. Qed.

Lemma tally_cons {A} (f : A -> bool) x l : count f (x :: l) = (b2n (f x) + count f l)%nat.
Proof. unfold count, b2n. rewrite filter_cons. by destruct (f x); case_decide. Qed.

Lemma tally_insert {A} (f : A -> bool) l i x y : l !! i = Some x -> (count f (<[i := y]> l) + b2n (f x) = count f l + b2n (f y))%nat.
Proof.
  revert i. induction l as [|z l IH]; intros [|i] Hi; try done.
  - injection Hi as ->. change (<[0%nat := y]> (x :: l)) with (y :: l). rewrite !tally_cons. lia.
  - change (<[S i := y]> (z :: l)) with (z :: <[i := y]> l). rewrite !tally_cons. specialize (IH i Hi). lia.
Qed.

Lemma tally_zero {A} (f : A -> bool) l : (forall x, x ∈ l -> f x = false) -> count f l = 0%nat.
Proof.
  induction l as [|x l IH]; intros Hl; [done|]. rewrite tally_cons, IH by (intros; apply Hl; by right).
  by rewrite Hl by left.
Qed.

Definition claims (p a : string) (log : list Event) (gs : list Ghost) : nat := (count (prepares p a) log + count (holds_permit p a) gs)%nat.

(** An ASK that is still reserved was never prepared and nobody may prepare it. *)
Lemma reserved_unclaimed st p a v log gs : Operations st !! operationKey p a = Some v -> o_Phase (so_Operation v) = Reserved ->
  Forall (event_ok st) log -> Forall (ghost_ok st) gs -> claims p a log gs = 0%nat.
Proof.
  intros Hv Hph Hlog Hgs. rewrite Forall_forall in Hlog. rewrite Forall_forall in Hgs.
  assert (Hno : forall to, ~ stored_at st p a (preparing_for to)).
  { intros to (v' & Hv' & Hr & _). simplify_eq. rewrite Hph in Hr. cbn in Hr. lia. }
  unfold claims. rewrite !tally_zero; [done| |].
  - intros g Hg. destruct (holds_permit p a g) eqn:Hh; [|done]. unfold holds_permit in Hh.
    destruct (g_permit g) as [[[p' a'] to]|] eqn:Hp; [|done]. apply andb_true_iff in Hh as [E1 E2].
    apply str_eqb_eq in E1, E2. subst. destruct (Hgs g Hg) as (_ & Hpm & _). by destruct (Hno to); apply Hpm.
  - intros e He. destruct (prepares p a e) eqn:Hp; [|done]. destruct e as [p' to kind id input|p' a'|o|]; try done. cbn in Hp.
    apply andb_true_iff in Hp as [E1 E2]. apply str_eqb_eq in E1, E2. subst.
    destruct (Hlog _ He) as [_ (v' & Hv' & Hpf & _)]. destruct (Hno to). by exists v'.
Qed.

Section safety.
Context `{Sha256, AesGcm, SenderJson, Uuid, UrlParser}.
Context `{!UuidLaws _, !AesGcmLaws _, !SenderJsonLaws _}.
Context (b : Binding) (Hb : normalizeBinding b = Ok b) (Hutf : binding_utf8 b = true).

(** A permit is granted for an ASK that was reserved. *)
Definition granted {A} (c : Call A) (st : state) : A -> Prop :=
  match c in Call A return A -> Prop with
  | CMarkPreparing p a => fun r => forall o, r = Ok o -> stored_at st p a (fun v => o_Phase (so_Operation v) = Reserved)
  | _ => fun _ => True
  end.

(** What a call of the store does, for all of its methods. *)
Definition store_post {A} (c : Call A) (std : state) (a : A) (std' : state) : Prop :=
  asked c a /\ Forall (event_ok std') (events c a) /\ (forall g, ghost_ok std' g -> ghost_ok std' (learn g c a)) /\
  granted c std a /\ (Disabled std = true -> disabled_answers c a).

(** A method of the store, with its answer for a failure. *)
Lemma store_call {X} (c : Call (result SendErr X)) (m : M X) (P : state -> X -> state -> Prop) :
  method b m P -> (forall std e, store_post c std (Err e) std) ->
  (forall std x std', P std x std' -> store_post c std (Ok x) std') ->
  forall key stv std s d io a s' d', range_ok io -> linked b key stv std s d -> m io s d = (a, (s', d')) ->
  exists stv' std', linked b key stv' std' s' d' /\ advances std std' /\ store_post c std a std'.
Proof.
  intros Hm Herr Hok key stv std s d io a s' d' Hio Hl Hrun.
  destruct (Hm _ _ _ _ _ _ _ _ _ Hio Hl Hrun) as (stv' & std' & Hl' & Hadv & HP). exists stv', std'. split_and!; [done|done|].
  destruct a as [x|e]; [by apply Hok, HP|].
  destruct (Herr std e) as (Ha & He & Hg & Hgr & Hd). destruct (Herr std' e) as (_ & He' & Hg' & _ & _). by split_and!.
Qed.

Lemma acknowledged_ok st o : recorded st o -> Forall (event_ok st) [EvAcknowledged o].
Proof. by rewrite Forall_singleton. Qed.

Lemma recorded_stored st o (Q : storedOperation -> Prop) : recorded st o ->
  (forall v, op_advances o (so_Operation v) -> Q v) -> stored_at st (o_ProjectID o) (o_AskID o) Q.
Proof. intros (v & Hv & Ho) HQ. exists v. auto. Qed.

Lemma store_call_ok {A} (c : Call A) m : store_method c = Some m ->
  forall key stv std s d io a s' d', range_ok io -> linked b key stv std s d -> m io s d = (a, (s', d')) ->
  exists stv' std', linked b key stv' std' s' d' /\ advances std std' /\ store_post c std a std'.
Proof.
  intros Hm. destruct c; try discriminate; injection Hm as <-;
    (eapply store_call; [first
      [ by apply ReserveWithID_method | by apply Get_method | by apply List_method | by apply RecoverPrompt_method
      | by apply MarkPreparing_method | by apply MarkPrepared_method | by apply MarkAdmitted_method
      | by apply RecordReply_method | by apply Enabled_method | by apply Disable_method | by apply Close_method ]
    | intros std e; unfold store_post; cbn; split_and!; try done; by constructor
    | intros std x std' HP; unfold store_post; cbn in *; split_and!; try done ]).
  - apply acknowledged_ok, HP.
  - intros o [= <-]. by split; apply HP.
  - apply acknowledged_ok, HP.
  - intros g (Hg1 & Hg2 & Hg3). split_and!; [|done|done]. cbn. intros p a s [= <- <- <-]. exact HP.
  - intros o [= <-]. by split; apply HP.
  - apply acknowledged_ok, HP.
  - destruct HP as (Hrec & <- & <- & Hph & _). intros g (Hg1 & Hg2 & Hg3). split_and!; [done| |done]. cbn. intros p a to [= <- <- <-].
    apply recorded_stored; [done|]. intros v Hv. pose proof (oa_rank _ _ Hv) as Hr. rewrite Hph in Hr.
    split; [cbn in Hr; lia | apply Hv].
  - intros o _. destruct HP as (_ & _ & _ & _ & v & Hv & Hph). by exists v.
  - intros o [= <-]. by split; apply HP.
  - apply acknowledged_ok, HP.
  - destruct HP as (Hrec & <- & <- & Hph & _). intros g (Hg1 & Hg2 & Hg3). split_and!; [done|done|]. cbn. intros p a [= <- <-].
    apply recorded_stored; [done|]. intros v Hv. pose proof (oa_rank _ _ Hv). lia.
  - intros o [= <-]. by split; apply HP.
  - apply acknowledged_ok, HP.
  - apply acknowledged_ok, HP.
  - intros Hd. rewrite HP, Hd. done.
  - by repeat constructor.
Qed.

(** ** The invariant of the machine, indexed by the durable state *)
Record threads_ok (std : state) (threads : list (prog unit)) (log : list Event) (gs : list Ghost) : Prop := {
  to_keeps : Forall2 (fun g p => follows discipline p g (fun _ _ => True)) gs threads;
  to_ghosts : Forall (ghost_ok std) gs;
  to_events : Forall (event_ok std) log;
  to_claims p a : (claims p a log gs <= 1)%nat;
}.

Inductive world_ok (w : World) : option state -> Prop :=
| world_blank : disk_ok b (w_disk w) None -> w_store w = None -> w_threads w = [] -> w_log w = [] -> world_ok w None
| world_closed std : disk_ok b (w_disk w) (Some std) -> w_store w = None -> w_threads w = [] ->
    threads_ok std [] (w_log w) [] -> world_ok w (Some std)
| world_open key stv std s gs : w_store w = Some s -> linked b key stv std s (w_disk w) ->
    threads_ok std (w_threads w) (w_log w) gs -> world_ok w (Some std).

Lemma threads_advance std std' threads log gs : advances std std' -> threads_ok std threads log gs -> threads_ok std' threads log gs.
Proof.
  intros Ha [Hk Hg He Hc]. split; try done.
  - eapply Forall_impl; [exact Hg|]. intros g. by apply ghost_ok_advances.
  - eapply Forall_impl; [exact He|]. intros e. by apply event_ok_advances.
Qed.

(** All goroutines end with the process. *)
Lemma threads_end std threads log gs : threads_ok std threads log gs -> threads_ok std [] log [].
Proof.
  intros [Hk Hg He Hc]. split; try done; [by constructor..|]. intros p a. specialize (Hc p a). unfold claims in *. cbn. lia.
Qed.

Lemma threads_none std : threads_ok std [] [] [].
Proof. split; by constructor. Qed.

(** The call that grants the permit for an ASK. *)
Definition grants {A} (p a : string) (c : Call A) : A -> bool :=
  match c in Call A return A -> bool with
  | CMarkPreparing p' a' => fun r => is_ok r && (str_eqb p' p && str_eqb a' a)
  | _ => fun _ => false
  end.

Lemma permit_learn {A} p a g (c : Call A) r : permitted g c ->
  (b2n (holds_permit p a (learn g c r)) + count (prepares p a) (events c r) <=
   b2n (holds_permit p a g) + b2n (grants p a c r))%nat.
Proof.
  intros Hp. assert (Hone : forall e, count (prepares p a) [e] = b2n (prepares p a e)) by (intros; rewrite tally_cons; cbn; lia).
  destruct c; try (destruct r as [x|e]); cbn [events acknowledgement learn grants is_ok andb]; rewrite ?Hone; try (unfold holds_permit; cbn; lia).
  - destruct Hp as (_ & Hg & _). unfold holds_permit. rewrite Hg. cbn. lia.
  - destruct Hp as (_ & Hg & _). unfold holds_permit. rewrite Hg. cbn. lia.
Qed.

Lemma granted_reserved {A} p a (c : Call A) st r : grants p a c r = true -> granted c st r ->
  stored_at st p a (fun v => o_Phase (so_Operation v) = Reserved).
Proof.
  destruct c; try done. destruct r as [o|e]; [|done]. cbn. intros Hg Hr. apply andb_true_iff in Hg as [E1 E2].
  apply str_eqb_eq in E1, E2. subst. by eapply Hr.
Qed.

(** A goroutine makes a call and is answered. *)
Lemma thread_step {A} std std' threads log gs i (c : Call A) k r : advances std std' ->
  threads_ok std threads log gs -> threads !! i = Some (Do c k) -> asked c r ->
  (forall g, permitted g c -> ghost_ok std' g -> Forall (event_ok std') (events c r) /\ ghost_ok std' (learn g c r)) ->
  granted c std r -> exists gs', threads_ok std' (<[i := k r]> threads) (log ++ events c r) gs'.
Proof.
  intros Hadv [Hk Hg He Hc] Hi Hasked Hpost Hgranted.
  destruct (Forall2_lookup_r _ _ _ _ _ Hk Hi) as (g & Hgi & Hkeeps). destruct Hkeeps as [Hmay Hnext]. cbn in Hmay, Hnext.
  pose proof (Forall_lookup_1 _ _ _ _ Hg Hgi) as Hgi_ok. pose proof (ghost_ok_advances _ _ _ Hadv Hgi_ok) as Hgi_ok'.
  destruct (Hpost g Hmay Hgi_ok') as [Hev Hgh]. exists (<[i := learn g c r]> gs). split.
  - apply Forall2_insert; [done|]. by apply Hnext.
  - apply Forall_insert; [|done]. eapply Forall_impl; [exact Hg|]. intros g'. by apply ghost_ok_advances.
  - apply Forall_app. split; [|done]. eapply Forall_impl; [exact He|]. intros e. by apply event_ok_advances.
  - intros p a. unfold claims. rewrite tally_app. pose proof (tally_insert (holds_permit p a) gs i g (learn g c r) Hgi) as Hci.
    pose proof (permit_learn p a g c r Hmay) as Hpl. specialize (Hc p a). unfold claims in Hc.
    destruct (grants p a c r) eqn:Hgr; [|cbn in Hpl; lia].
    destruct (granted_reserved _ _ _ _ _ Hgr Hgranted) as (v & Hv & Hph).
    pose proof (reserved_unclaimed _ _ _ _ log gs Hv Hph He Hg) as Hzero. unfold claims in Hzero. cbn in Hpl.
    assert (b2n (holds_permit p a g) <= 1)%nat by (destruct (holds_permit p a g); cbn; lia). lia.
Qed.

(** A call of the environment or of the controller. *)
Lemma environment_post {A} (c : Call A) : store_method c = None -> (forall r, asked c r) /\ (forall st r, granted c st r) /\
  forall st g r, permitted g c -> ghost_ok st g -> Forall (event_ok st) (events c r) /\ ghost_ok st (learn g c r).
Proof.
  intros Hm. destruct c; try discriminate; (split_and!; [done|done|]); cbn; intros st g r Hp Hg; try (by split; [constructor|]).
  - destruct Hp as (-> & Hpermit & prompt & Hprompt & ->). destruct Hg as (Hg1 & Hg2 & Hg3). split; [|by split_and!].
    apply Forall_singleton. split; [done|]. destruct (Hg2 _ _ _ Hpermit) as (v & Hv & Hpf).
    destruct (Hg1 _ _ _ Hprompt) as (v' & Hv' & Hpr). simplify_eq. by exists v.
  - split; [|done]. apply Forall_singleton. by apply Hg.
Qed.

Lemma controller_is_not_store {A} (c : Call A) f : controller_method c = Some f -> store_method c = None.
Proof. by destruct c. Qed.

Lemma linked_disk key stv std s d : linked b key stv std s d -> disk_ok b d (Some std).
Proof. intros [Hk _]. by eapply disk_kept. Qed.

Lemma discipline_plain A g (c : Call A) : silent c -> may discipline g c.
Proof. by destruct c. Qed.
Lemma fenced_plain A g (c : Call A) : silent c -> may fenced g c.
Proof. done. Qed.

Lemma entry_disciplined p : entry p -> always discipline p.
Proof. apply entry_always; [apply discipline_plain | apply Reconcile_disciplined]. Qed.

Lemma flush_linked name key stv std s d : linked b key stv std s d ->
  exists std', linked b key stv std' s (flush name d) /\ advances std std'.
Proof.
  intros [[Hlen Hv Hd Hokv Hokd Hadv] [Hkey Hdig Hbd Hfresh]].
  assert (Hl : forall n, durable (flush name d) !! n = if decide (n = name) then visible d !! n else durable d !! n).
  { intros n. cbn. destruct (decide (n = name)) as [->|]; [by rewrite lookup_partial_alter_eq | by rewrite lookup_partial_alter_ne]. }
  assert (Hk : durable (flush name d) !! "key"%string = Some key).
  { rewrite Hl. case_decide; [apply Hv|apply Hd]. }
  destruct (decide ("state"%string = name)) as [<-|Hne]; [exists stv | exists std].
  - split; [|done]. split; split; try done. split; [done|]. rewrite Hl, decide_True by done. apply Hv.
  - split; [|done]. split; split; try done. split; [done|]. rewrite Hl, decide_False by done. apply Hd.
Qed.

(** Opening the store. *)
Lemma open_step_ok w o io r d' : world_ok w o -> w_store w = None -> Open io b (w_disk w) = (r, d') ->
  exists o', world_ok (mkWorld d' (opened_store r) NewController [] (w_log w)) o' /\ later o o'.
Proof.
  intros Hw Hnone Hopen.
  assert (disk_ok b (w_disk w) o /\ (o = None -> w_log w = []) /\ forall std, o = Some std -> threads_ok std [] (w_log w) [])
    as (Hdisk & Hno & Hth).
  { destruct Hw as [? ? ? ?|std ? ? ? ?|? ? ? ? ? Hs]; [by split_and!| |congruence]. split_and!; [done|done|]. by intros ? [= <-]. }
  pose proof (Open_ok b Hb Hutf io _ _ _ _ Hdisk Hopen) as Hr.
  assert (Hnew : forall st, later o (Some st) -> threads_ok st [] (w_log w) []).
  { intros st Hl. destruct o as [st0|]; [|rewrite Hno by done; apply threads_none].
    destruct (Hl st0 eq_refl) as (st1 & [= <-] & Hadv). eapply threads_advance; [exact Hadv|]. by apply Hth. }
  destruct r as [s|e]; cbn in Hr.
  - destruct Hr as (key & st & Hl & Hlater). exists (Some st). split; [|done].
    eapply (world_open _ key st st s []); [done|done|]. by apply Hnew.
  - destruct Hr as ([st|] & Hd' & Hlater); eexists; (split; [|exact Hlater]).
    + apply world_closed; [done|done|done|]. by apply Hnew.
    + apply world_blank; [done|done|done|]. apply Hno. destruct o as [st0|]; [|done].
      by destruct (Hlater st0 eq_refl) as (? & ? & _).
Qed.

(** A new goroutine holds no permit. *)
Lemma start_threads std threads log gs p : entry p -> threads_ok std threads log gs ->
  threads_ok std (threads ++ [p]) log (gs ++ [ghost0]).
Proof.
  intros Hentry [Hk Hg He Hc]. split.
  - apply Forall2_app; [done|]. constructor; [|constructor]. by apply entry_disciplined.
  - apply Forall_app. split; [done|]. apply Forall_singleton. by split_and!.
  - done.
  - intros p' a. specialize (Hc p' a). unfold claims in *. rewrite tally_app.
    change (count (holds_permit p' a) [ghost0]) with 0%nat. lia.
Qed.

(** A call that the store does not answer. *)
Lemma environment_step_ok {A} w o i (c : Call A) k a ctl : world_ok w o -> w_threads w !! i = Some (Do c k) -> store_method c = None ->
  world_ok (mkWorld (w_disk w) (w_store w) ctl (<[i := k a]> (w_threads w)) (w_log w ++ events c a)) o.
Proof.
  intros Hw Hi Hm. destruct Hw as [? ? Ht|std ? ? Ht|key stv std s0 gs Hs0 Hl Hth]; [by rewrite Ht in Hi..|].
  destruct (environment_post _ Hm) as (Has & Hgr & Hpost).
  destruct (thread_step std std _ _ _ i c k a ltac:(done) Hth Hi (Has a)) as [gs' Hth']; [by eauto|done|].
  by eapply world_open.
Qed.

(** The file system persists an entry. *)
Lemma flush_step_ok w o name : world_ok w o ->
  exists o', world_ok (mkWorld (flush name (w_disk w)) (w_store w) (w_controller w) (w_threads w) (w_log w)) o' /\ later o o'.
Proof.
  intros Hw. destruct Hw as [Hd Hs Ht Hlog|std Hd Hs Ht Hth|key stv std s0 gs Hs0 Hl Hth].
  - destruct (flush_ok b name _ _ Hd) as (o' & Hd' & Hlater). exists o'. split; [|done]. destruct o' as [st|].
    + apply world_closed; try done. cbn. rewrite Hlog. apply threads_none.
    + by apply world_blank.
  - destruct (flush_ok b name _ _ Hd) as (o' & Hd' & Hlater).
    destruct (Hlater std eq_refl) as (std' & -> & Hadv). exists (Some std'). split; [|done].
    apply world_closed; try done. by eapply threads_advance.
  - destruct (flush_linked name _ _ _ _ _ Hl) as (std' & Hl' & Hadv). exists (Some std'). split; [|intros ? [= <-]; eauto].
    eapply world_open; [done|done|]. by eapply threads_advance.
Qed.

(** The process ends, perhaps with power loss. *)
Lemma end_step_ok w o d' : world_ok w o -> disk_ok b d' o -> world_ok (mkWorld d' None NewController [] (w_log w)) o.
Proof.
  intros Hw Hd'. destruct Hw as [Hd Hs Ht Hlog|std Hd Hs Ht Hth|key stv std s0 gs Hs0 Hl Hth].
  - by apply world_blank.
  - by apply world_closed.
  - apply world_closed; [done|done|done|]. by eapply threads_end.
Qed.

Lemma world_disk w o : world_ok w o -> disk_ok b (w_disk w) o.
Proof. intros []; [done|done|]. by eapply linked_disk. Qed.

Lemma step_ok w w' o : world_ok w o -> step b w w' -> exists o', world_ok w' o' /\ later o o'.
Proof.
  intros Hw Hstep. destruct Hstep as [io r d' Hnone Hopen|s p Hs Hentry|i A c k m io s a s' d' Hi Hm Hs Hio Hrun|i A c k f a c' Hi Hm Hf
    |i A c k a Hi Hm Hm' Ha|name| |].
  - by eapply open_step_ok.
  - destruct Hw as [|std|key stv std s0 gs Hs0 Hl Hth]; [congruence..|]. exists (Some std). split; [|apply later_refl].
    eapply (world_open _ key stv std s0 (gs ++ [ghost0])); [done|done|]. by apply start_threads.
  - destruct Hw as [|std|key stv std s0 gs Hs0 Hl Hth]; [congruence..|]. rewrite Hs in Hs0. injection Hs0 as <-.
    destruct (store_call_ok _ _ Hm _ _ _ _ _ _ _ _ _ Hio Hl Hrun) as (stv' & std' & Hl' & Hadv & Has & Hev & Hgh & Hgr & _).
    destruct (thread_step std std' _ _ _ i c k a Hadv Hth Hi Has) as [gs' Hth']; [by auto|done|].
    exists (Some std'). split; [by eapply world_open | intros ? [= <-]; eauto].
  - exists o. split; [|apply later_refl]. by eapply environment_step_ok, controller_is_not_store.
  - exists o. split; [|apply later_refl]. by eapply environment_step_ok.
  - by apply flush_step_ok.
  - exists o. split; [|apply later_refl]. by eapply end_step_ok, world_disk.
  - exists o. split; [|apply later_refl]. by eapply end_step_ok, power_loss_ok, world_disk.
Qed.

Lemma reachable_ok w : reachable b w -> exists o, world_ok w o.
Proof.
  intros Hr. assert (exists o, world_ok initial o) as Hi.
  { exists None. apply world_blank; try done. by apply disk_none. }
  induction Hr as [w|w w1 w2 Hstep _ IH]; [done|]. destruct Hi as [o Ho]. apply IH.
  destruct (step_ok _ _ _ Ho Hstep) as (o' & Ho' & _). eauto.
Qed.

(** ** Recovery *)

(** After power loss the store opens with its durable state. *)
Lemma recovery w std io : world_ok w (Some std) -> faultless_open io ->
  exists s d', Open io b (power_loss (w_disk w)) = (Ok s, d') /\ s_state s = std /\ s_failed s = false /\
    exists key, linked b key std std s d'.
Proof.
  intros Hw Hio. assert (exists key, kept b key std std (power_loss (w_disk w))) as [key Hk].
  { pose proof (world_disk _ _ Hw) as Hd. inversion Hd as [| |key stv std' Hk]; subst. exists key. destruct Hk. by split. }
  destruct (Open_reopens b Hb Hutf io _ _ _ _ Hk Hio) as [Hopen Hl]. eexists _, _. split; [exact Hopen|]. by eauto.
Qed.

Lemma logged_ok w o e : world_ok w o -> e ∈ w_log w -> exists std, o = Some std /\ event_ok std e.
Proof.
  intros Hw He. destruct Hw as [? ? ? Hlog|std ? ? ? Hth|key stv std s gs ? ? Hth].
  - rewrite Hlog in He. by apply not_elem_of_nil in He.
  - exists std. split; [done|]. by apply (proj1 (Forall_forall _ _) (to_events _ _ _ _ Hth)).
  - exists std. split; [done|]. by apply (proj1 (Forall_forall _ _) (to_events _ _ _ _ Hth)).
Qed.

Lemma prepared_once w o p a : world_ok w o -> (count (prepares p a) (w_log w) <= 1)%nat.
Proof.
  intros [? ? ? ->|std ? ? ? Hth|key stv std s gs ? ? Hth]; [cbn; lia|..]; pose proof (to_claims _ _ _ _ Hth p a); unfold claims in *; lia.
Qed.

(** ** A disabled sender *)
Definition leaves_sender (e : Event) : Prop := match e with EvPrepare _ _ _ _ _ | EvSend _ _ => True | _ => False end.

Definition fenced_threads (w : World) : Prop := Forall (fun p => follows fenced p tt (fun _ _ => True)) (w_threads w).

Lemma silent_events {A} (c : Call A) a e : silent c -> e ∈ events c a -> ~ leaves_sender e.
Proof.
  destruct c; try done; cbn; intros _ He; try destruct a as [?|?]; try (by apply not_elem_of_nil in He);
    apply list_elem_of_singleton in He; subst; cbn; tauto.
Qed.

Lemma fenced_call {A} (threads : list (prog unit)) i (c : Call A) k a : Forall (fun p => follows fenced p tt (fun _ _ => True)) threads ->
  threads !! i = Some (Do c k) -> disabled_answers c a ->
  silent c /\ Forall (fun p => follows fenced p tt (fun _ _ => True)) (<[i := k a]> threads).
Proof.
  intros Hf Hi Ha. pose proof (Forall_lookup_1 _ _ _ _ Hf Hi) as [Hs Hk]. split; [done|].
  apply Forall_insert; [done|]. by apply Hk.
Qed.

(** A step of a disabled sender prepares and sends nothing. *)
Lemma fenced_step w w' std : world_ok w (Some std) -> Disabled std = true -> fenced_threads w -> step b w w' ->
  fenced_threads w' /\ exists l, w_log w' = w_log w ++ l /\ forall e, e ∈ l -> ~ leaves_sender e.
Proof.
  intros Hw Hdis Hf Hstep.
  assert (Hcall : forall A i (c : Call A) k a d s ctl, w_threads w !! i = Some (Do c k) -> disabled_answers c a ->
    let w' := mkWorld d s ctl (<[i := k a]> (w_threads w)) (w_log w ++ events c a) in
    fenced_threads w' /\ exists l, w_log w' = w_log w ++ l /\ forall e, e ∈ l -> ~ leaves_sender e).
  { intros A i c k a d s ctl Hi Ha. destruct (fenced_call _ _ _ _ _ Hf Hi Ha) as [Hs Hf']. split; [done|].
    eexists. split; [done|]. intros e. by apply silent_events. }
  assert (Hnil : exists l, w_log w = w_log w ++ l /\ forall e, e ∈ l -> ~ leaves_sender e).
  { exists []. rewrite app_nil_r. split; [done|]. intros e He. by apply not_elem_of_nil in He. }
  destruct Hstep as [io r d' Hnone Hopen|s p Hs Hentry|i A c k m io s a s' d' Hi Hm Hs Hio Hrun|i A c k f a c' Hi Hm Hf'
    |i A c k a Hi Hm Hm' Ha|name| |]; try (by split; [constructor|]); try (by split).
  - split; [|done]. apply Forall_app. split; [done|]. apply Forall_singleton.
    by apply (entry_always fenced fenced_plain Reconcile_fenced).
  - inversion Hw as [| |key stv std' s0 gs Hs0 Hl Hth]; subst; [congruence|]. rewrite Hs in Hs0. injection Hs0 as <-.
    destruct (store_call_ok _ _ Hm _ _ _ _ _ _ _ _ _ Hio Hl Hrun) as (? & ? & _ & _ & _ & _ & _ & _ & Hans).
    by apply Hcall; [|apply Hans].
  - apply Hcall; [done|]. by destruct c.
  - apply Hcall; [done|]. by destruct c.
Qed.

Lemma fenced_steps w w' std : world_ok w (Some std) -> Disabled std = true -> fenced_threads w -> steps b w w' ->
  (exists std', world_ok w' (Some std') /\ advances std std') /\
  exists l, w_log w' = w_log w ++ l /\ forall e, e ∈ l -> ~ leaves_sender e.
Proof.
  intros Hw Hdis Hf Hsteps. revert std Hw Hdis Hf. induction Hsteps as [w|w w1 w2 Hstep _ IH]; intros std Hw Hdis Hf.
  - split; [by exists std|]. exists []. rewrite app_nil_r. split; [done|]. intros e He. by apply not_elem_of_nil in He.
  - destruct (fenced_step _ _ _ Hw Hdis Hf Hstep) as (Hf1 & l1 & Hl1 & Hq1).
    destruct (step_ok _ _ _ Hw Hstep) as (o1 & Hw1 & Hlater). destruct (Hlater std eq_refl) as (std1 & -> & Hadv).
    destruct (IH std1 Hw1 (proj1 Hadv Hdis) Hf1) as ((std2 & Hw2 & Hadv2) & l2 & Hl2 & Hq2). split.
    + exists std2. split; [done|]. by etrans.
    + exists (l1 ++ l2). rewrite Hl2, Hl1, app_assoc. split; [done|]. intros e [He|He]%elem_of_app; eauto.
Qed.
End safety.
End SenderSafety.

Module SenderProps.
Import FileStore Sender SenderEngine SenderInv SenderMachine SenderSafety.

Section props.
Context `{Sha256, AesGcm, SenderJson, Uuid, UrlParser}.
Context `{!UuidLaws _, !AesGcmLaws _, !SenderJsonLaws _}.
Context (b : Binding) (Hb : normalizeBinding b = Ok b) (Hutf : binding_utf8 b = true).

(** C19. An ASK is prepared at most once: in every world the sender can reach,
    with any interleaving of its goroutines, failing system calls, ambiguous
    writes, restarts and power loss, the SDK has been asked at most once to
    prepare any given ASK. It was asked with the recipient and prompt that the
    store, opened again after power loss, still holds for that ASK, which is then
    no longer reserved; and only an ASK whose prepared form was recorded is sent. *)
Theorem asks_are_prepared_at_most_once w : reachable b w ->
  (forall p a, (count (prepares p a) (w_log w) <= 1)%nat) /\
  (forall p to kind id input, EvPrepare p to kind id input ∈ w_log w -> kind = "ASK"%string /\
     forall io, faultless_open io -> exists s d' v, Open io b (power_loss (w_disk w)) = (Ok s, d') /\
       Operations (s_state s) !! operationKey p id = Some v /\ o_Phase (so_Operation v) <> Reserved /\
       o_RecipientID (so_Operation v) = to /\ bytes_of (so_Prompt v) = input) /\
  (forall p a, EvSend p a ∈ w_log w ->
     forall io, faultless_open io -> exists s d' v, Open io b (power_loss (w_disk w)) = (Ok s, d') /\
       Operations (s_state s) !! operationKey p a = Some v /\ 2 <= rank (o_Phase (so_Operation v))).
Proof.
  intros Hr. destruct (reachable_ok b Hb Hutf w Hr) as [o Hw]. split_and!.
  - intros p a. by eapply prepared_once.
  - intros p to kind id input He. destruct (logged_ok b _ _ _ Hw He) as (std & -> & Hk & v & Hv & [Hrank Hto] & ->).
    split; [done|]. intros io Hio. destruct (recovery b Hb Hutf _ _ _ Hw Hio) as (s & d' & Hopen & <- & _). exists s, d', v.
    split_and!; try done. intros Hph. rewrite Hph in Hrank. cbn in Hrank. lia.
  - intros p a He io Hio. destruct (logged_ok b _ _ _ Hw He) as (std & -> & v & Hv & Hrank).
    destruct (recovery b Hb Hutf _ _ _ Hw Hio) as (s & d' & Hopen & <- & _). exists s, d', v. by split_and!.
Qed.

(** C20. What the store acknowledged survives: whenever a method of the store has
    returned an operation without error, then from any later world, after power
    loss, the store opens, and Get returns a later version of that operation: the
    same input, a phase that has not gone back, the same wire digest once
    prepared, and the same receipt and reply once it had them. *)
Theorem acknowledged_operations_survive_power_loss w o : reachable b w -> EvAcknowledged o ∈ w_log w ->
  forall io io', faultless_open io -> faultless io' ->
  exists s d' o', Open io b (power_loss (w_disk w)) = (Ok s, d') /\
    (Get (o_ProjectID o) (o_AskID o) io' s d').1 = Ok o' /\ op_advances o o'.
Proof.
  intros Hr He io io' Hio Hio'. destruct (reachable_ok b Hb Hutf w Hr) as [os Hw].
  destruct (logged_ok b _ _ _ Hw He) as (std & -> & v & Hv & Hadv).
  destruct (recovery b Hb Hutf _ _ _ Hw Hio) as (s & d' & Hopen & Hst & Hf & key & Hl). exists s, d', (so_Operation v).
  split_and!; [done| |done].
  assert (state_ok b std) as Hok by apply Hl. pose proof (proj1 (stored_ok_facts b _ _) (ok_stored _ _ Hok _ _ Hv)) as Hfacts.
  eapply (Get_answers b Hb); try done.
  - rewrite <- (oa_project _ _ Hadv). apply Hfacts.
  - rewrite <- (oa_ask _ _ Hadv). apply Hfacts.
Qed.

(** C21. Disabling is final: once Disable has succeeded and no goroutine is in
    flight, whatever happens afterwards, restarts included, nothing is prepared,
    nothing is sent, and every operation the store returns is one that it held
    before. *)
Theorem disabled_sender_starts_nothing w w' : reachable b w -> EvDisabled ∈ w_log w -> w_threads w = [] -> steps b w w' ->
  exists l, w_log w' = w_log w ++ l /\
    (forall p to kind id input, ~ EvPrepare p to kind id input ∈ l) /\ (forall p a, ~ EvSend p a ∈ l) /\
    forall o, EvAcknowledged o ∈ l -> forall io, faultless_open io ->
      exists s d', Open io b (power_loss (w_disk w)) = (Ok s, d') /\
        is_Some (Operations (s_state s) !! operationKey (o_ProjectID o) (o_AskID o)).
Proof.
  intros Hr He Ht Hsteps. destruct (reachable_ok b Hb Hutf w Hr) as [os Hw]. destruct (logged_ok b _ _ _ Hw He) as (std & -> & Hdis).
  assert (fenced_threads w) as Hf by (unfold fenced_threads; by rewrite Ht).
  destruct (fenced_steps b Hb Hutf _ _ _ Hw Hdis Hf Hsteps) as ((std' & Hw' & _ & _ & Hfence) & l & Hl & Hquiet). exists l.
  split_and!; [done|..].
  - intros p to kind id input Hin. by apply (Hquiet _ Hin).
  - intros p a Hin. by apply (Hquiet _ Hin).
  - intros o Hin io Hio. destruct (recovery b Hb Hutf _ _ _ Hw Hio) as (s & d' & Hopen & <- & _). exists s, d'. split; [done|].
    apply Hfence; [done|]. destruct (logged_ok b w' (Some std') (EvAcknowledged o) Hw') as (? & [= <-] & v & Hv & _); [|by exists v].
    rewrite Hl. apply elem_of_app. by right.
Qed.
End props.
End SenderProps.

(** ** Runs of the machine *)
Module SenderWitness.
Import FileStore Sender SenderEngine SenderInv SenderMachine SenderSafety SenderProps.

#[local] Instance sender_sha : Sha256 := { sha256 raw := resize 32 x00 raw; sha256_length raw := length_resize _ _ _ }.
#[local] Instance sender_gcm : AesGcm :=
  { gcm _ := {| NonceSize := 12; aead_Seal _ plain _ := plain; aead_Open _ sealed _ := Some sealed |}; Overhead := 0 }.
#[local] Instance sender_uuid : Uuid :=
  { uuid_Parse id := if str_forallb uuid_char id then Some (mkUUID (str_eqb id "") true 7 id) else None }.
#[local] Instance sender_url : UrlParser :=
  { url_Parse s := if str_eqb s "https://h" then Some (mkURL "https" false "h" "h" "" "" "" "") else None; ToLower s := s }.

Definition me : Binding := mkBinding "https://h" "c0" "".
Definition ask_op (ph : Phase) (wire : string) (r : option Receipt) : storedOperation :=
  mkStored (mkOperation "a1" "a2" "a3" (digest (bytes_of "hi")) ph wire r None) "hi".
Definition wire_digest : string := digest (bytes_of "hi").
Definition toy_receipt : Receipt := mkReceipt "a2" 1 (sha256 (bytes_of "hi")) "pending" 5 None.
Definition at_phase (disabled : bool) (v : storedOperation) : state := mkState disabled 1 me {["a1/a2"%string := v]}.

(** The states of the runs, in the order of their encodings. *)
Definition table : list state :=
  [ mkState false 1 me ∅; at_phase false (ask_op Reserved "" None); at_phase false (ask_op Preparing "" None);
    at_phase false (ask_op Prepared wire_digest None); at_phase false (ask_op PhaseAdmitted wire_digest (Some toy_receipt));
    at_phase true (ask_op PhaseAdmitted wire_digest (Some toy_receipt)) ].

#[local] Instance stored_eq_dec : EqDecision storedOperation.
Proof. solve_decision. Defined.
#[local] Instance state_eq_dec : EqDecision state.
Proof. solve_decision. Defined.

Fixpoint index (n : nat) (st : state) (l : list state) : option (list byte) :=
  match l with
  | [] => None
  | st' :: l => if decide (st = st') then Some (replicate n x00) else index (S n) st l
  end.
#[local] Instance sender_json : SenderJson :=
  { marshal_state st := index 0 st table; unmarshal_state raw := option_map (fun st => (st, true)) (table !! length raw) }.

#[local] Instance sender_uuid_laws : UuidLaws sender_uuid.
Proof. intros id u. cbn. destruct (str_forallb uuid_char id) eqn:E; [|done]. by intros [= <-]. Qed.
#[local] Instance sender_gcm_laws : AesGcmLaws sender_gcm.
Proof. split; cbn; [intros key _; by split | intros; lia]. Qed.

Lemma index_lookup l n st raw : index n st l = Some raw -> (n <= length raw)%nat /\ l !! (length raw - n)%nat = Some st.
Proof.
  revert n. induction l as [|st' l IH]; intros n; cbn; [done|]. case_decide as E.
  - intros [= <-]. rewrite length_replicate, Nat.sub_diag. by subst.
  - intros Hi. destruct (IH _ Hi) as [Hle Hl]. split; [lia|].
    replace (length raw - n)%nat with (S (length raw - S n)) by lia. done.
Qed.
#[local] Instance sender_json_laws : SenderJsonLaws sender_json.
Proof.
  intros st raw Hm _ _. change (index 0 st table = Some raw) in Hm.
  change (option_map (fun st => (st, true)) (table !! length raw) = Some (st, true)).
  destruct (index_lookup _ _ _ _ Hm) as [_ Hl]. rewrite Nat.sub_0_r in Hl. by rewrite Hl.
Qed.

(** A cooperative SDK. *)
Definition cooperate {A} (c : Call A) : option A :=
  match c in Call A return option A with
  | SReceipt _ _ => Some (Err (mkSdkError true false false false false false None))
  | SStatus p => Some (Ok (mkProjectStatus p "active" true))
  | SPrepare _ _ _ id input => Some (Ok (mkPrepared id input))
  | SSend _ _ => Some (Ok toy_receipt)
  | _ => None
  end.

Inductive Move := MOpen | MReserve | MReconcile | MDisable | MStore (i : nat) | MAnswer (i : nat) | MLoss.

Definition op_io : OpIO := mkOpIO true true true (Some []) (write_ok "1") elements.
Definition open_io : OpenIO := mkOpenIO true true true true (Some []) (write_ok "2") op_io.
Definition move_entry (m : Move) : option (prog unit) :=
  match m with
  | MReserve => Some (go (call (CReserveWithID "a1" "a3" "a2" "hi")))
  | MReconcile => Some (go (Reconcile sdk_connection (so_Operation (ask_op Reserved "" None))))
  | MDisable => Some (go (call CDisable))
  | _ => None
  end.

Definition perform (m : Move) (w : World) : option World :=
  match m with
  | MOpen =>
      match w_store w with
      | Some _ => None
      | None => let '(r, d') := Open open_io me (w_disk w) in Some (mkWorld d' (opened_store r) NewController [] (w_log w))
      end
  | MLoss => Some (mkWorld (power_loss (w_disk w)) None NewController [] (w_log w))
  | MStore i =>
      match w_threads w !! i, w_store w with
      | Some (Do c k), Some s =>
          match store_method c with
          | Some f => let '(a, (s', d')) := f op_io s (w_disk w) in
                      Some (mkWorld d' (Some s') (w_controller w) (<[i := k a]> (w_threads w)) (w_log w ++ events c a))
          | None => None
          end
      | _, _ => None
      end
  | MAnswer i =>
      match w_threads w !! i with
      | Some (Do c k) =>
          match store_method c, controller_method c, cooperate c with
          | None, None, Some a =>
              Some (mkWorld (w_disk w) (w_store w) (w_controller w) (<[i := k a]> (w_threads w)) (w_log w ++ events c a))
          | _, _, _ => None
          end
      | _ => None
      end
  | _ =>
      match move_entry m, w_store w with
      | Some p, Some _ => Some (mkWorld (w_disk w) (w_store w) (w_controller w) (w_threads w ++ [p]) (w_log w))
      | _, _ => None
      end
  end.

Fixpoint play (ms : list Move) (w : World) : option World :=
  match ms with [] => Some w | m :: ms => match perform m w with Some w' => play ms w' | None => None end end.

Lemma cooperate_answers {A} k (c : Call A) a : cooperate c = Some a -> answer_ok k c a /\ environment_effect c a k = k.
Proof. by destruct c. Qed.

Lemma perform_step m w w' : perform m w = Some w' -> step me w w'.
Proof.
  assert (Hstart : forall p s, entry p -> w_store w = Some s ->
    step me w (mkWorld (w_disk w) (w_store w) (w_controller w) (w_threads w ++ [p]) (w_log w))).
  { intros p s Hp Hs. by eapply step_start. }
  destruct m; cbn [perform move_entry].
  - destruct (w_store w) eqn:Hs; [done|]. destruct (Open _ _ _) as [r d'] eqn:Ho. intros [= <-]. by eapply step_open.
  - destruct (w_store w) as [s|] eqn:Hs; [|done]. intros [= <-]. by eapply Hstart; [apply entry_store_reserve|].
  - destruct (w_store w) as [s|] eqn:Hs; [|done]. intros [= <-]. by eapply Hstart; [apply entry_reconcile; left|].
  - destruct (w_store w) as [s|] eqn:Hs; [|done]. intros [= <-]. by eapply Hstart; [apply entry_disable|].
  - destruct (w_threads w !! i) as [[|A c k]|] eqn:Hi; [done| |done]. destruct (w_store w) as [s|] eqn:Hs; [|done].
    destruct (store_method c) as [f|] eqn:Hf; [|done]. destruct (f op_io s (w_disk w)) as [a [s' d']] eqn:Hrun. intros [= <-].
    eapply (step_store _ _ _ _ c k f op_io s); try done. by intros X.
  - destruct (w_threads w !! i) as [[|A c k]|] eqn:Hi; [done| |done]. destruct (store_method c) eqn:Hf; [done|].
    destruct (controller_method c) eqn:Hc; [done|]. destruct (cooperate c) as [a|] eqn:Ha; [|done]. intros [= <-].
    destruct (cooperate_answers (w_controller w) c a Ha) as [Hok He]. rewrite <- He at 1. by eapply step_environment.
  - intros [= <-]. apply step_power_loss.
Qed.

Lemma play_steps ms w w' : play ms w = Some w' -> steps me w w'.
Proof.
  revert w. induction ms as [|m ms IH]; intros w; cbn; [by intros [= ->]; constructor|].
  destruct (perform m w) as [w1|] eqn:Hm; [|done]. intros Hp. eapply rtc_l; [by apply perform_step in Hm|]. by apply IH.
Qed.

(** Reserve, then reconcile until the ASK is prepared and admitted. *)
Definition run1 : list Move :=
  [MOpen; MReserve; MStore 0; MReconcile; MStore 1; MStore 1; MAnswer 1; MStore 1; MStore 1; MAnswer 1; MStore 1;
   MAnswer 1; MStore 1; MAnswer 1; MStore 1].
(** Disable, lose power, and open the store again. *)
Definition run2 : list Move := [MDisable; MStore 2; MLoss].
(** Another reconciliation of the disabled sender. *)
Definition run3 : list Move := [MOpen; MReconcile; MStore 0].

Definition world1 : World := match play run1 initial with Some w => w | None => initial end.
Definition world2 : World := match play run2 world1 with Some w => w | None => world1 end.
Definition world3 : World := match play run3 world2 with Some w => w | None => world2 end.

Lemma me_normal : normalizeBinding me = Ok me.
Proof. vm_compute. reflexivity. Qed.

Lemma play_from ms w : steps me w (match play ms w with Some w' => w' | None => w end).
Proof. destruct (play ms w) as [w'|] eqn:Hp; [by eapply play_steps | constructor]. Qed.

Lemma steps_trans w w1 w2 : steps me w1 w -> steps me w w2 -> steps me w1 w2.
Proof. unfold steps. intros. by etrans. Qed.

Definition asked_once : Event := EvPrepare "a1" "a3" "ASK" "a2" (bytes_of "hi").
Definition admitted_op : Operation := so_Operation (ask_op PhaseAdmitted wire_digest (Some toy_receipt)).

Example world1_log : filter (fun e => prepares "a1" "a2" e = true) (w_log world1) = [asked_once] /\
  last (w_log world1) = Some (EvAcknowledged admitted_op).
Proof. vm_compute. done. Qed.
Example world3_log : w_log world3 = w_log world2 ++ [EvAcknowledged admitted_op] /\ w_threads world2 = [].
Proof. vm_compute. done. Qed.

Lemma asks_prepared_witness : reachable me world1 /\ (count (prepares "a1" "a2") (w_log world1) <= 1)%nat /\
  asked_once ∈ w_log world1 /\ exists s d' v, Open open_io me (power_loss (w_disk world1)) = (Ok s, d') /\
    Operations (s_state s) !! operationKey "a1" "a2" = Some v /\ o_Phase (so_Operation v) <> Reserved /\
    o_RecipientID (so_Operation v) = "a3"%string /\ bytes_of (so_Prompt v) = bytes_of "hi".
Proof.
  assert (reachable me world1) as Hr by apply (play_from run1 initial).
  assert (asked_once ∈ w_log world1) as He by (apply (bool_decide_unpack _); vm_compute; exact I).
  destruct (asks_are_prepared_at_most_once me me_normal eq_refl world1 Hr) as (Hcount & Hprep & _).
  split; [exact Hr|]. split; [apply Hcount|]. split; [exact He|]. apply (Hprep _ _ _ _ _ He). by split_and!.
Defined.

Lemma acknowledged_witness : reachable me world2 /\ EvAcknowledged admitted_op ∈ w_log world2 /\
  exists s d' o', Open open_io me (power_loss (w_disk world2)) = (Ok s, d') /\
    (Get "a1" "a2" op_io s d').1 = Ok o' /\ op_advances admitted_op o'.
Proof.
  assert (reachable me world2) as Hr by (apply (steps_trans world1); [apply (play_from run1 initial) | apply (play_from run2 world1)]).
  assert (EvAcknowledged admitted_op ∈ w_log world2) as He by (apply (bool_decide_unpack _); vm_compute; exact I).
  split; [exact Hr|]. split; [exact He|].
  apply (acknowledged_operations_survive_power_loss me me_normal eq_refl world2 admitted_op Hr He open_io op_io); by split_and!.
Defined.

Lemma disabled_witness : reachable me world2 /\ EvDisabled ∈ w_log world2 /\
  exists l, w_log world3 = w_log world2 ++ l /\ (forall p to kind id input, ~ EvPrepare p to kind id input ∈ l).
Proof.
  assert (reachable me world2) as Hr by (apply (steps_trans world1); [apply (play_from run1 initial) | apply (play_from run2 world1)]).
  assert (EvDisabled ∈ w_log world2) as He by (apply (bool_decide_unpack _); vm_compute; exact I).
  split; [exact Hr|]. split; [exact He|].
  destruct (disabled_sender_starts_nothing me me_normal eq_refl world2 world3 Hr He ltac:(vm_compute; reflexivity)
    (play_from run3 world2)) as (l & Hl & Hno & _). exists l. split; [exact Hl|exact Hno].
Defined.
End SenderWitness.
