(* ===== verification/Authority.v ===== *)
(** * The native authority ledger (src/fabric/registry)

    native_authority.go, purpose_generation.go, native_authority_recovery.go and
    current_actor.go: a domain's root keeps keyed records, each revision signed
    by the root key and chained to the previous head by SHA-256. Callbacks run
    inside one SQL transaction ([AuthorityTx]) that can only read and
    compare-and-set; on reopen the whole signed history is replayed and compared
    with the materialized rows.

    A method of AuthorityTx is a computation of [AM]: it keeps its state on
    errors too, because callbacks may handle an error and go on. This file holds
    the records, their signatures, and the two mutations of the ledger: [cas] and
    the extension mutations with their intrinsic generation. Parameters: ed25519
    ([Ed25519]) and the JSON forms of the stored documents ([AuthorityJson]). *)
From Stdlib Require Import Ascii Strings.Byte ZArith Lia.
From S2P Require Import Prelude GoStrings FabricRef Framing Wire FabricModel SqlTx.
#[local] Open Scope Z_scope.

(** crypto/ed25519. *)
Class Ed25519 := {
  ed_NewKeyFromSeed : list byte -> list byte;
  ed_Public : list byte -> list byte;                          (** private key *)
  ed_Sign : list byte -> list byte -> list byte;               (** private key, message *)
  ed_Verify : list byte -> list byte -> list byte -> bool;     (** public key, message, signature *)
}.

Module Authority.
Import Ref Frames Wire.

(** A NativeAuthorityKind is a string: the constants, and any other text. *)
Inductive NativeAuthorityKind :=
| AuthorityController | AuthorityDeferredAdmission | AuthorityDeferredNotification | AuthorityPurposeGeneration
| AuthorityExtensionConfiguration | AuthorityNativeCheckpoint | AuthorityFederationPeer | AuthorityFederationExposure
| AuthorityFederationInvocation | AuthorityServiceBinding | AuthorityServiceInvocation | AuthorityLocalInstallation
| AuthorityDispatch | AuthorityBinding | AuthorityAdmission | AuthorityOrigin | AuthoritySource | AuthorityRetirement
| OtherKind (s : string).
#[export] Instance kind_eq_dec : EqDecision NativeAuthorityKind.
Proof. solve_decision. Defined.

Definition kind_string (k : NativeAuthorityKind) : string :=
  match k with
  | AuthorityController => "controller" | AuthorityDeferredAdmission => "deferred_admission"
  | AuthorityDeferredNotification => "deferred_notification" | AuthorityPurposeGeneration => "purpose_generation"
  | AuthorityExtensionConfiguration => "extension_configuration" | AuthorityNativeCheckpoint => "native_checkpoint"
  | AuthorityFederationPeer => "federation_peer" | AuthorityFederationExposure => "federation_exposure"
  | AuthorityFederationInvocation => "federation_invocation" | AuthorityServiceBinding => "service_binding"
  | AuthorityServiceInvocation => "service_invocation" | AuthorityLocalInstallation => "local_installation"
  | AuthorityDispatch => "dispatch" | AuthorityBinding => "binding" | AuthorityAdmission => "admission"
  | AuthorityOrigin => "origin" | AuthoritySource => "source" | AuthorityRetirement => "retirement"
  | OtherKind s => s
  end.

Definition validAuthorityKind (k : NativeAuthorityKind) : bool := match k with OtherKind _ => false | _ => true end.

Definition globalAuthorityKind (k : NativeAuthorityKind) : bool :=
  match k with
  | AuthorityDeferredNotification | AuthorityFederationExposure | AuthorityPurposeGeneration | AuthorityDeferredAdmission
  | AuthorityLocalInstallation | AuthorityServiceInvocation | AuthorityFederationInvocation | AuthorityFederationPeer
  | AuthorityController | AuthorityDispatch | AuthorityExtensionConfiguration | AuthorityNativeCheckpoint => true
  | _ => false
  end.

Record AuthorityIdentity := mkIdentity {
  ai_Namespace : string; ai_StoreID : string; ai_Owner : Principal; ai_PublicKey : list byte; ai_KeyRevision : Z }.

Record AuthorityScope := mkScope {
  sc_Endpoint : EndpointRef; sc_ExpectedRevision : string; sc_BindingID : string; sc_HistoryOnly : bool;
  sc_MaxOperations : Z; sc_Timeout : Duration }.

Record AuthorityKey := mkKey { k_Kind : NativeAuthorityKind; k_Endpoint : EndpointRef; k_ID : string }.
#[export] Instance key_eq_dec : EqDecision AuthorityKey.
Proof. solve_decision. Defined.

Definition NUL : ascii := "000".
Definition zero_ref : EndpointRef := mkRef "" "" "".

Definition key_string (k : AuthorityKey) : string :=
  kind_string (k_Kind k) ++ String NUL (ref_String (k_Endpoint k) ++ String NUL (k_ID k)).

(** registry's text. *)
Definition text (s : string) (max : Z) (optional : bool) : bool :=
  (optional || negb (str_eqb s "")) && (len s <=? max) && utf8_valid s &&
  negb (str_existsb (fun c => ceq c NUL || ceq c "010" || ceq c "013") s).

Definition key_valid (domain : string) (k : AuthorityKey) : bool :=
  validAuthorityKind (k_Kind k) && text (k_ID k) 256 false &&
  if globalAuthorityKind (k_Kind k) then str_eqb (ref_String (k_Endpoint k)) ""
  else str_eqb (offerID (k_Endpoint k)) "" && str_eqb (namespace (k_Endpoint k)) domain && negb (str_eqb (ref_String (k_Endpoint k)) "").

Record AuthorityRecord := mkRecord {
  ar_Format : Z; ar_Namespace : string; ar_StoreID : string; ar_KeyRevision : Z; ar_Key : AuthorityKey;
  ar_Revision : Z; ar_PreviousRevision : Z; ar_Sequence : Z; ar_PreviousHead : list byte; ar_Retired : bool;
  ar_Value : list byte; ar_Signature : list byte }.

Record nativeStatement := mkStatement {
  ns_Format : Z; ns_Namespace : string; ns_StoreID : string; ns_KeyRevision : Z; ns_Key : AuthorityKey;
  ns_Revision : Z; ns_PreviousRevision : Z; ns_Sequence : Z; ns_PreviousHead : list byte; ns_Retired : bool;
  ns_ValueDigest : list byte }.

Record purposeGeneration := mkPurpose { pg_Format : Z; pg_Purpose : string; pg_Generation : Z; pg_MutationSequence : Z }.

(** The descriptors of model.go the ledger consults. *)
Record BindingSummary := mkBinding {
  bs_ID : string; bs_Protocol : string; bs_Version : string; bs_Streaming : bool; bs_Cancellation : bool; bs_Idempotency : bool }.
Record EndpointDescriptor := mkEndpoint {
  ed_Ref : EndpointRef; ed_Revision : string; ed_Kind : string; ed_Name : string; ed_Description : string;
  ed_Bindings : list BindingSummary; ed_Metadata : list (string * list byte) }.
Record OfferDescriptor := mkOffer {
  of_Ref : EndpointRef; of_Revision : string; of_Name : string; of_Description : string; of_InputSchema : list byte;
  of_OutputSchema : list byte; of_Examples : list (list byte); of_Tags : list string; of_BindingID : string }.

(** The JSON forms: json.Marshal, and the decoders of the bounded boundary once
    the size bound has passed. *)
Class AuthorityJson := {
  marshal_statement : nativeStatement -> option (list byte);
  marshal_record : AuthorityRecord -> option (list byte);
  unmarshal_record : list byte -> option AuthorityRecord;
  marshal_purpose : purposeGeneration -> option (list byte);
  unmarshal_purpose : list byte -> option purposeGeneration;
  decode_endpoint : list byte -> option EndpointDescriptor;
  decode_offer : list byte -> option OfferDescriptor;
}.

(** Errors: the fabric's own, the driver's, and the context's. *)
Inductive AErr := AFabric (e : Error) | ADriver | AContext.
#[export] Instance aerr_eq_dec : EqDecision AErr.
Proof. solve_decision. Defined.

Definition invalid (m : string) : AErr := AFabric (NewError CodeInvalidInput m).
Definition conflict (m : string) : AErr := AFabric (NewError CodeStaleReference m).
Definition absent : AErr := AFabric (NewError CodeNotFound "Native authority record absent").
Definition isAuthorityNotFound (e : AErr) : bool :=
  match e with AFabric e => bool_decide (err_code e = CodeNotFound) | _ => false end.

(** An error of the JSON boundary. *)
Definition jsonError : AErr := AFabric (protocolError "JSON document does not match the requested shape.").

(** The tables. *)
Record StateRow := mkStateRow { sr_revision : Z; sr_retired : bool; sr_record : list byte }.
Record HeadRow := mkHead { hr_sequence : Z; hr_head : list byte; hr_records : Z; hr_bytes : Z }.
Record ObjectRow := mkObject {
  ob_parent : string; ob_kind : string; ob_revision : string; ob_retired : bool; ob_payload : list byte }.
Record NDB := mkNDB {
  nd_version : Z; nd_objects : gmap string ObjectRow; nd_head : option HeadRow;
  nd_log : gmap Z (list byte); nd_state : gmap string StateRow }.

Record Limits := mkLimits { MaxRecords : Z; MaxLedgerBytes : Z; MaxPayloadBytes : Z }.

(** The open root: its identity, private key and limits. *)
Record Root := mkRoot { rt_Identity : AuthorityIdentity; rt_Key : list byte; rt_Limits : Limits; rt_closed : bool }.

Definition zero32 : list byte := replicate 32 x00.

(** ** AuthorityTx *)
Record Env := mkEnv { e_root : Root; e_scope : AuthorityScope; e_stmt : nat -> bool; e_ctx : Z -> bool }.
(** [t_faulted] records that the driver failed a statement of the transaction. *)
Record TxState := mkTxState {
  t_db : NDB; t_stmt : nat; t_faulted : bool; t_active : bool; t_operations : Z; t_failure : option AErr }.

Definition AM (A : Type) : Type := Env -> TxState -> result AErr A * TxState.

Definition a_ret {A} (a : A) : AM A := fun _ t => (Ok a, t).
Definition a_err {A} (e : AErr) : AM A := fun _ t => (Err e, t).
Definition a_bind {A B} (c : AM A) (k : A -> AM B) : AM B :=
  fun env t => match c env t with (Ok a, t') => k a env t' | (Err e, t') => (Err e, t') end.
(** An error as a value, where the source inspects it. *)
Definition a_try {A} (c : AM A) : AM (result AErr A) := fun env t => let '(r, t') := c env t in (Ok r, t').
Definition a_lift {A} (r : result AErr A) : AM A := fun _ t => (r, t).
Definition a_guard (b : bool) (e : AErr) : AM unit := a_lift (guard b e).
Definition a_env : AM Env := fun env t => (Ok env, t).

Definition set_db (t : TxState) (d : NDB) : TxState :=
  mkTxState d (t_stmt t) (t_faulted t) (t_active t) (t_operations t) (t_failure t).
Definition tick (t : TxState) (fault : bool) : TxState :=
  mkTxState (t_db t) (S (t_stmt t)) (t_faulted t || fault) (t_active t) (t_operations t) (t_failure t).
Definition count_operation (t : TxState) : TxState :=
  mkTxState (t_db t) (t_stmt t) (t_faulted t) (t_active t) (t_operations t + 1) (t_failure t).
Definition fail_tx (t : TxState) (e : AErr) : TxState :=
  mkTxState (t_db t) (t_stmt t) (t_faulted t) (t_active t) (t_operations t) (Some e).

(** One statement; the driver may fail it. *)
Definition a_query {A} (f : NDB -> A) : AM A :=
  fun env t => if e_stmt env (t_stmt t) then (Ok (f (t_db t)), tick t false) else (Err ADriver, tick t true).
Definition a_exec (f : NDB -> option NDB) : AM unit :=
  fun env t => if e_stmt env (t_stmt t) then
                 match f (t_db t) with
                 | Some d => (Ok tt, set_db (tick t false) d)
                 | None => (Err ADriver, tick t true)
                 end
               else (Err ADriver, tick t true).

Notation "'let+' x ':=' c 'in' k" := (a_bind c (fun x => k))
  (at level 10, x name, c at level 100, k at level 200).

Section authority.
Context `{Sha256, JsonDecoder, Ed25519, AuthorityJson}.

(** (r AuthorityRecord) signingBytes. *)
Definition signingBytes (r : AuthorityRecord) : result AErr (list byte) :=
  let? _ := guard (negb (negb (ar_Format r =? 1) || negb (ar_KeyRevision r =? 1) || (ar_Revision r <? 1) ||
                         (max_int64 <? ar_Revision r) || (ar_Sequence r <? 1) || (max_int64 <? ar_Sequence r) ||
                         negb (ar_PreviousRevision r =? ar_Revision r - 1) ||
                         negb (key_valid (ar_Namespace r) (ar_Key r)) || negb (len (ar_StoreID r) =? 64)))
              (invalid "Invalid typed native authority record") in
  let? _ := guard (canonical_hex32 (ar_StoreID r)) (invalid "Invalid native authority store identity") in
  let h := mkStatement (ar_Format r) (ar_Namespace r) (ar_StoreID r) (ar_KeyRevision r) (ar_Key r) (ar_Revision r)
             (ar_PreviousRevision r) (ar_Sequence r) (ar_PreviousHead r) (ar_Retired r) (sha256 (ar_Value r)) in
  let? raw := of_option (marshal_statement h) (invalid "Native authority signing profile exceeds bound") in
  let? _ := guard (negb (MaxSigningFrameBytes <? blen raw)) (invalid "Native authority signing profile exceeds bound") in
  Ok (bytes_of ("pagnet.fabric.local-native-record." ++ kind_string (k_Kind (ar_Key r)) ++ ".v1") ++ [x00] ++ raw).

Definition VerifyAuthorityRecord (identity : AuthorityIdentity) (r : AuthorityRecord) : result AErr unit :=
  let? namespace := match DomainNamespace (ai_PublicKey identity) with
                    | Ok n => Ok n | Err _ => Err (invalid "Native authority issuer mismatch") end in
  let? _ := guard (negb (negb (str_eqb namespace (ai_Namespace identity)) || negb (ai_KeyRevision identity =? 1) ||
                         negb (str_eqb (ar_Namespace r) namespace) || negb (str_eqb (ar_StoreID r) (ai_StoreID identity)) ||
                         negb (ar_KeyRevision r =? ai_KeyRevision identity) || negb (blen (ar_Signature r) =? 64)))
              (invalid "Native authority issuer mismatch") in
  match signingBytes r with
  | Ok raw => guard (ed_Verify (ai_PublicKey identity) raw (ar_Signature r)) (invalid "Native authority record signature invalid")
  | Err _ => Err (invalid "Native authority record signature invalid")
  end.

(** The bound of one stored record. *)
Definition record_bound (s : Root) : Z := MaxPayloadBytes (rt_Limits s) * 2 + 65536.

(** decodeAuthority, and [SELECT CASE WHEN length(record)<=? THEN record END]. *)
Definition decodeAuthority (s : Root) (raw : list byte) : result AErr AuthorityRecord :=
  let? _ := guard (blen raw <=? record_bound s) jsonError in
  of_option (unmarshal_record raw) jsonError.
Definition bounded_record (s : Root) (raw : list byte) : list byte := if blen raw <=? record_bound s then raw else [].

(** (s *Store) decode: into [any], and into a descriptor. *)
Definition value_limits (s : Root) : WireLimits := Wire.mkLimits (MaxPayloadBytes (rt_Limits s) + 65536) 64 4096.
Definition decode_value (s : Root) (raw : list byte) : result AErr unit :=
  match DecodeJSONAny raw (value_limits s) with Ok u => Ok u | Err e => Err (AFabric e) end.
Definition decode_as {A} (s : Root) (raw : list byte) (parse : list byte -> option A) : result AErr A :=
  let? _ := guard (blen raw <=? MaxBytes (value_limits s)) jsonError in
  of_option (parse raw) jsonError.

(** (a *AuthorityTx) guard. *)
Definition guard_tx : AM unit := fun env t =>
  match t_failure t with
  | Some e => (Err e, t)
  | None =>
      if negb (t_active t) then (Err (invalid "Native authority transaction is closed"), t) else
      if negb (e_ctx env (t_operations t)) then (Err AContext, t) else
      let t := count_operation t in
      if sc_MaxOperations (e_scope env) <? t_operations t
      then (Err (invalid "Native authority transaction operation budget exceeded"), t) else (Ok tt, t)
  end.

(** (a *AuthorityTx) key. *)
Definition key_in_scope (env : Env) (k : AuthorityKey) : bool :=
  negb (negb (key_valid (ai_Namespace (rt_Identity (e_root env))) k) ||
        (negb (globalAuthorityKind (k_Kind k)) && negb (bool_decide (k_Endpoint k = sc_Endpoint (e_scope env))))).
Definition check_key (k : AuthorityKey) : AM unit :=
  let+ env := a_env in a_guard (key_in_scope env k) (invalid "Native authority key outside declared scope").

(** (a *AuthorityTx) get. *)
Definition get (k : AuthorityKey) : AM AuthorityRecord :=
  let+ env := a_env in
  let+ row := a_query (fun d => nd_state d !! key_string k) in
  match row with
  | None => a_err absent
  | Some row =>
      let+ r := a_lift (decodeAuthority (e_root env) (bounded_record (e_root env) (sr_record row))) in
      let+ _ := a_guard (bool_decide (ar_Key r = k)) (invalid "Native authority key mismatch") in
      a_ret r
  end.

Definition Get (k : AuthorityKey) : AM AuthorityRecord :=
  let+ _ := guard_tx in
  let+ _ := check_key k in
  get k.

(** The record a CAS signs, before its signature. *)
Definition next_record (s : Root) (k : AuthorityKey) (expected : Z) (value : list byte) (retire : bool) (h : HeadRow) : AuthorityRecord :=
  mkRecord 1 (ai_Namespace (rt_Identity s)) (ai_StoreID (rt_Identity s)) 1 k (expected + 1) expected (hr_sequence h + 1)
    (hr_head h) retire value [].
Definition set_signature (r : AuthorityRecord) (sig : list byte) : AuthorityRecord :=
  mkRecord (ar_Format r) (ar_Namespace r) (ar_StoreID r) (ar_KeyRevision r) (ar_Key r) (ar_Revision r)
    (ar_PreviousRevision r) (ar_Sequence r) (ar_PreviousHead r) (ar_Retired r) (ar_Value r) sig.

(** The three statements of a CAS. *)
Definition insert_log (sequence : Z) (raw : list byte) (d : NDB) : option NDB :=
  match nd_log d !! sequence with
  | Some _ => None
  | None => Some (mkNDB (nd_version d) (nd_objects d) (nd_head d) (<[sequence := raw]> (nd_log d)) (nd_state d))
  end.
Definition upsert_state (key : string) (row : StateRow) (d : NDB) : option NDB :=
  Some (mkNDB (nd_version d) (nd_objects d) (nd_head d) (nd_log d) (<[key := row]> (nd_state d))).
Definition advance_head (sequence : Z) (head : list byte) (n : Z) (d : NDB) : option NDB :=
  Some (mkNDB (nd_version d) (nd_objects d)
          (option_map (fun h => mkHead sequence head (hr_records h + 1) (hr_bytes h + n)) (nd_head d)) (nd_log d) (nd_state d)).

(** The part of [cas] that publishes a new revision: sign the next record within
    the quotas, then write it. *)
Definition sign_next (k : AuthorityKey) (expected : Z) (value : list byte) (retire : bool) : AM (AuthorityRecord * list byte) :=
  let+ env := a_env in
  let s := e_root env in
  let+ row := a_query nd_head in
  let+ h := a_lift (of_option row ADriver) in
  let+ _ := a_guard (negb ((hr_sequence h <? 0) || (max_int64 <=? hr_sequence h) || negb (blen (hr_head h) =? 32) ||
                           (hr_records h <? 0) || (hr_bytes h <? 0))) (invalid "Native authority head invalid") in
  let r := next_record s k expected value retire h in
  let+ sign := a_lift (signingBytes r) in
  let r := set_signature r (ed_Sign (rt_Key s) sign) in
  let+ raw := a_lift (of_option (marshal_record r) jsonError) in
  let+ _ := a_guard (negb ((MaxRecords (rt_Limits s) <=? hr_records h) || (MaxLedgerBytes (rt_Limits s) - hr_bytes h <? blen raw)))
              (invalid "Native authority ledger capacity reached") in
  a_ret (r, raw).

Definition write_record (r : AuthorityRecord) (raw : list byte) : AM AuthorityRecord :=
  let+ _ := a_exec (insert_log (ar_Sequence r) raw) in
  let+ _ := a_exec (upsert_state (key_string (ar_Key r)) (mkStateRow (ar_Revision r) (ar_Retired r) raw)) in
  let+ _ := a_exec (advance_head (ar_Sequence r) (sha256 raw) (blen raw)) in
  a_ret r.

Definition publish (k : AuthorityKey) (expected : Z) (value : list byte) (retire : bool) : AM AuthorityRecord :=
  let+ signed := sign_next k expected value retire in
  write_record signed.1 signed.2.

(** (a *AuthorityTx) cas. *)
Definition cas (k : AuthorityKey) (expected : Z) (value : list byte) (retire : bool) : AM AuthorityRecord :=
  let+ env := a_env in
  let s := e_root env in
  let+ _ := a_guard (negb (sc_HistoryOnly (e_scope env) && negb (bool_decide (k_Kind k = AuthoritySource)) &&
                           negb (bool_decide (k_Kind k = AuthorityRetirement))))
              (invalid "History-only scope cannot publish new native authority") in
  let+ _ := a_guard (negb ((max_int64 <=? expected) || (MaxPayloadBytes (rt_Limits s) <? blen value)))
              (invalid "Native authority mutation exceeds bounds") in
  let+ _ := a_lift (decode_value s value) in
  let+ found := a_try (get k) in
  match found with
  | Err e => 
      if negb (isAuthorityNotFound e) then a_err e else
      let+ _ := a_guard (negb (negb (expected =? 0) || retire)) (conflict "Native authority CAS or tombstone conflict") in
      publish k expected value retire
  | Ok old =>
      if (ar_PreviousRevision old =? expected) && eqb (ar_Retired old) retire && bool_decide (ar_Value old = value) then a_ret old else
      let+ _ := a_guard (negb (ar_Retired old || negb (ar_Revision old =? expected)))
                  (conflict "Native authority CAS or tombstone conflict") in
      publish k expected value retire
  end.

(** ** purpose_generation.go *)
Definition purposeGenerationKey : AuthorityKey :=
  mkKey AuthorityPurposeGeneration zero_ref (kind_string AuthorityExtensionConfiguration).

Definition validatePurposeGeneration (r : AuthorityRecord) : result AErr unit :=
  match unmarshal_purpose (ar_Value r) with
  | Some v =>
      guard (negb (negb (bool_decide (ar_Key r = purposeGenerationKey)) || ar_Retired r || negb (pg_Format v =? 1) ||
                   negb (str_eqb (pg_Purpose v) (kind_string AuthorityExtensionConfiguration)) ||
                   negb (pg_Generation v =? ar_Revision r) || (pg_MutationSequence v =? 0) ||
                   negb (wrapu64 (pg_MutationSequence v + 1) =? ar_Sequence r)))
        (invalid "Intrinsic purpose generation is invalid")
  | None => Err (invalid "Intrinsic purpose generation is invalid")
  end.

Definition ExtensionPurposeGeneration : AM AuthorityRecord :=
  let+ _ := guard_tx in
  let+ env := a_env in
  let+ r := get purposeGenerationKey in
  let+ _ := a_lift (VerifyAuthorityRecord (rt_Identity (e_root env)) r) in
  let+ _ := a_lift (validatePurposeGeneration r) in
  a_ret r.

(** The mutation and its generation, inside the savepoint. *)
Definition advance_generation (r : AuthorityRecord) : AM AuthorityRecord :=
  let+ previous := a_try (get purposeGenerationKey) in
  let+ generation := match previous with
                     | Ok previous => let+ _ := a_lift (validatePurposeGeneration previous) in a_ret (ar_Revision previous)
                     | Err e => if isAuthorityNotFound e then a_ret 0 else a_err e
                     end in
  let+ raw := a_lift (of_option (marshal_purpose
                (mkPurpose 1 (kind_string AuthorityExtensionConfiguration) (generation + 1) (ar_Sequence r))) jsonError) in
  let+ _ := cas purposeGenerationKey generation raw false in
  a_ret r.

Definition purpose_mutation (k : AuthorityKey) (expected : Z) (value : list byte) (retire : bool) : AM AuthorityRecord :=
  let+ old := a_try (get k) in
  let+ r := cas k expected value retire in
  if match old with Ok old => ar_Sequence old =? ar_Sequence r | Err _ => false end then a_ret r
  else advance_generation r.

(** The deferred end of the savepoint: release it, or roll back to [saved]; when
    that fails too the transaction is lost. *)
Definition end_savepoint (saved : NDB) (r : result AErr AuthorityRecord) : AM AuthorityRecord := fun env t =>
  let '(released, t) := match r with
                        | Ok _ => a_exec Some env t
                        | Err _ => (Err ADriver, t)
                        end in
  match r, released with
  | Ok r, Ok _ => (Ok r, t)
  | _, _ =>
      let e := match r with Ok _ => ADriver | Err e => e end in
      let '(rollback, t) := a_exec (fun _ => Some saved) env t in
      let '(release, t) := a_exec Some env t in
      (Err e, if is_ok rollback && is_ok release then t else fail_tx t e)
  end.

Definition casExtensionConfiguration (k : AuthorityKey) (expected : Z) (value : list byte) (retire : bool) : AM AuthorityRecord :=
  let+ _ := a_exec Some in
  fun env t => let '(r, t') := purpose_mutation k expected value retire env t in end_savepoint (t_db t) r env t'.

Definition CAS (k : AuthorityKey) (expected : Z) (value : list byte) (retire : bool) : AM AuthorityRecord :=
  let+ _ := guard_tx in
  let+ _ := check_key k in
  if bool_decide (k_Kind k = AuthorityPurposeGeneration)
  then a_err (invalid "Intrinsic purpose generation cannot be published by callers")
  else if negb (bool_decide (k_Kind k = AuthorityExtensionConfiguration)) then cas k expected value retire
  else casExtensionConfiguration k expected value retire.

End authority.
End Authority.
