(* ===== verification/AuthorityTx.v ===== *)
(** * Authority transactions (src/fabric/registry)

    The methods a callback of [WithNativeAuthority] has (native_target.go,
    original_dispatch.go, deferred_admission.go, current_native_caller.go,
    current_actor.go, native_authority.go), callbacks as programs over exactly those
    methods, the transaction itself, and the verification of the whole history on
    reopen (native_authority_recovery.go). *)
From Stdlib Require Import Ascii Strings.Byte ZArith Lia.
From S2P Require Import Prelude GoStrings FabricRef Framing Wire FabricModel SqlTx Encodings Authority.
#[local] Open Scope Z_scope.

Module AuthorityTx.
Import Ref Frames Wire Model Authority.Authority.

(** ** Documents *)

(** original_dispatch.go. *)
Record originalDispatchClaim := mkClaim {
  dc_Format : Z; dc_Principal : Principal; dc_InvocationID : string; dc_OriginalSHA : list byte; dc_FinalizedSHA : list byte;
  dc_Target : EndpointRef; dc_Revision : string; dc_EndpointRevision : string; dc_BindingID : string;
  dc_BindingSHA : list byte; dc_DispatchSHA : list byte }.

(** native_target.go; [pt_schema]: the compiled schema is present. *)
Record PreparedInvocationTarget := mkPrepared {
  pt_target : EndpointRef; pt_revision : string; pt_bindingID : string; pt_schemaDigest : list byte; pt_schema : bool;
  pt_payloadDigest : list byte }.

(** deferred_admission.go. *)
Record DeferredAdmission := mkDeferred {
  da_Version : Z; da_DeferralID : string; da_OriginalCaller : Principal; da_Provenance : Provenance;
  da_OriginalDigest : list byte; da_SnapshotCommitment : list byte; da_PlanRevision : string }.

(** current_native_caller.go. *)
Record NativeCallerAuthority := mkNativeCaller {
  nc_Principal : Principal; nc_Endpoint : EndpointRef; nc_DescriptorRevision : string; nc_BindingID : string;
  nc_NativeGeneration : string; nc_Controller : AuthorityRecord; nc_Binding : AuthorityRecord; nc_Origin : AuthorityRecord }.
Record nativeCallerScope := mkCallerScope { cs_Endpoint : EndpointRef; cs_DescriptorRevision : string; cs_BindingID : string }.
#[export] Instance caller_scope_eq_dec : EqDecision nativeCallerScope.
Proof. solve_decision. Defined.

(** The members of an origin record the check reads. *)
Record callerOrigin := mkOrigin {
  co_ID : string; co_Scope : nativeCallerScope; co_Worker : list byte; co_NativeGeneration : string;
  co_OriginalControllerEpoch : Z }.

(** json.Marshal and the bounded decoders of these documents. [deep_shape] is
    what reflect.DeepEqual sees of the compared fields of an envelope decoded from
    a document beyond their values: nil against empty slices, the location of a
    time. Where the source ignores an error of json.Marshal, the bytes are empty. *)
Class AuthorityDocuments := {
  marshal_claim : originalDispatchClaim -> option (list byte);
  marshal_claim_key : Principal -> string -> list byte;
  marshal_binding : BindingSummary -> option (list byte);
  marshal_deferred : DeferredAdmission -> option (list byte);
  unmarshal_deferred : list byte -> option DeferredAdmission;
  marshal_provenance : Provenance -> list byte;
  marshal_strings : list string -> list byte;
  decode_controller : list byte -> option nativeCallerScope;
  decode_caller_binding : list byte -> option (nativeCallerScope * list byte);
  decode_origin : list byte -> option callerOrigin;
  deep_shape : list byte -> list byte;
}.

Section methods.
Context `{Sha256, JsonDecoder, EnvelopeJson, Ed25519, AuthorityJson, AuthorityDocuments}.

Definition fabric {A} (r : result Error A) : result AErr A := match r with Ok a => Ok a | Err e => Err (AFabric e) end.

(** loadObject: [None] is sql.ErrNoRows. *)
Definition loadObject (ref : string) : AM (option ObjectRow) := a_query (fun d => nd_objects d !! ref).

Definition find_binding (id : string) (d : EndpointDescriptor) : option BindingSummary :=
  find (fun b => str_eqb (bs_ID b) id) (ed_Bindings d).

(** ** current_actor.go *)
Definition VerifyCurrentActorBinding (ref : EndpointRef) (revision binding : string) : AM unit :=
  let+ _ := guard_tx in
  let+ env := a_env in
  let+ _ := a_guard (negb (IsOffer ref || negb (str_eqb (Domain ref) (ai_Namespace (rt_Identity (e_root env)))) ||
                           str_eqb revision "" || str_eqb binding "")) (invalid "Current actor binding is incomplete") in
  let+ found := a_try (loadObject (ref_String ref)) in
  match found with
  | Ok (Some o) =>
      let+ _ := a_guard (negb (ob_retired o || negb (str_eqb (ob_revision o) revision)))
                  (conflict "Current actor descriptor is retired or stale") in
      let+ descriptor := a_lift (decode_as (e_root env) (ob_payload o) decode_endpoint) in
      a_guard (match find_binding binding descriptor with Some _ => true | None => false end)
        (invalid "Current actor binding is absent")
  | _ => a_err (conflict "Current actor descriptor is retired or stale")
  end.

(** ** native_target.go *)
Definition verify_offer (env : Env) (target : EndpointRef) (revision : string) (payload : list byte)
    (prepared : list (option PreparedInvocationTarget)) (o : ObjectRow) : result AErr (list byte) :=
  let sc := e_scope env in
  let? _ := guard (negb (ob_retired o || negb (str_eqb (ob_revision o) revision))) (conflict "Selected offer is retired or stale") in
  let? _ := guard (negb (negb (str_eqb (ob_kind o) "offer") || negb (str_eqb (ob_parent o) (ref_String (sc_Endpoint sc)))))
              (invalid "Selected offer has a different physical endpoint") in
  let? offer := decode_as (e_root env) (ob_payload o) decode_offer in
  let? _ := guard (negb (negb (bool_decide (of_Ref offer = target)) || negb (str_eqb (of_Revision offer) revision) ||
                         negb (str_eqb (of_BindingID offer) (sc_BindingID sc))))
              (invalid "Selected offer binding differs from native ownership") in
  if blen (of_InputSchema offer) =? 0 then Ok zero32 else
  let? p := of_option (match prepared with [Some p] => Some p | _ => None end) (invalid "Selected offer requires prepared schema") in
  let? _ := guard (negb (negb (bool_decide (pt_target p = target)) || negb (str_eqb (pt_revision p) revision) ||
                         negb (str_eqb (pt_bindingID p) (of_BindingID offer)) ||
                         negb (bool_decide (pt_schemaDigest p = sha256 (of_InputSchema offer))) || negb (pt_schema p) ||
                         negb (bool_decide (pt_payloadDigest p = sha256 payload))))
              (conflict "Prepared offer schema differs from current selection") in
  Ok (sha256 (of_InputSchema offer)).

Definition verifyInvocationTarget (target : EndpointRef) (revision : string) (payload : list byte)
    (prepared : list (option PreparedInvocationTarget)) : AM (list byte) :=
  let+ env := a_env in
  let sc := e_scope env in
  let+ _ := a_guard (negb (sc_HistoryOnly sc || str_eqb (ref_String target) "" ||
                           negb (bool_decide (Endpoint target = sc_Endpoint sc)) || str_eqb revision ""))
              (invalid "Selected invocation target outside current native scope") in
  if negb (IsOffer target) then
    let+ _ := a_guard (str_eqb revision (sc_ExpectedRevision sc)) (conflict "Selected endpoint revision is stale") in
    a_ret zero32
  else
    let+ found := loadObject (ref_String target) in
    let+ o := a_lift (of_option found (AFabric (NewError CodeNotFound "Selected offer unavailable"))) in
    a_lift (verify_offer env target revision payload prepared o).

Definition VerifyInvocationTarget (target : EndpointRef) (revision : string) (payload : list byte)
    (prepared : list (option PreparedInvocationTarget)) : AM (list byte) :=
  let+ _ := guard_tx in
  verifyInvocationTarget target revision payload prepared.

(** ** original_dispatch.go *)
Definition originalDispatchKey (principal : Principal) (invocation : string) : AuthorityKey :=
  mkKey AuthorityNativeCheckpoint zero_ref ("original-dispatch/" ++ hex_encode (sha256 (marshal_claim_key principal invocation))).

(** The claim of one dispatch under the current binding. *)
Definition dispatch_claim (c : ExecutionContext) (original finalized dispatch : list byte) (envelope : Envelope) (target : EndpointRef)
    (descriptor : EndpointDescriptor) (binding : BindingSummary) (encodedBinding : list byte) : originalDispatchClaim :=
  mkClaim 1 (ec_principal c) (v_ID envelope) (sha256 original) (sha256 finalized) target (v_ExpectedRevision envelope)
    (ed_Revision descriptor) (bs_ID binding) (sha256 encodedBinding) (sha256 dispatch).

(** Retain the claim, or find exactly the same one retained. *)
Definition retain_claim (key : AuthorityKey) (raw : list byte) : AM unit :=
  let+ env := a_env in
  let+ found := a_try (get key) in
  match found with
  | Ok old =>
      a_guard (negb (ar_Retired old || negb (is_ok (VerifyAuthorityRecord (rt_Identity (e_root env)) old)) ||
                     negb (bool_decide (ar_Value old = raw))))
        (conflict "Original invocation already selected a different dispatch")
  | Err e =>
      if negb (isAuthorityNotFound e) then a_err e else
      let+ _ := cas key 0 raw false in a_ret tt
  end.

Definition claimOriginalDispatch (c : ExecutionContext) (original finalized dispatch : list byte) (envelope : Envelope) : AM unit :=
  let+ env := a_env in
  let sc := e_scope env in
  let+ target := a_lift (of_option (if sc_HistoryOnly sc || str_eqb (sc_BindingID sc) "" then None else v_Target envelope)
                   (invalid "Original dispatch requires exact current executable binding")) in
  let+ found := a_try (loadObject (ref_String (sc_Endpoint sc))) in
  match found with
  | Ok (Some o) =>
      let+ _ := a_guard (negb (ob_retired o || negb (str_eqb (ob_revision o) (sc_ExpectedRevision sc))))
                  (conflict "Original dispatch endpoint is stale") in
      let+ descriptor := a_lift (decode_as (e_root env) (ob_payload o) decode_endpoint) in
      let+ binding := a_lift (of_option (find_binding (sc_BindingID sc) descriptor)
                        (invalid "Original dispatch executable binding is absent")) in
      let+ encodedBinding := a_lift (of_option (marshal_binding binding) jsonError) in
      let claim := dispatch_claim c original finalized dispatch envelope target descriptor binding encodedBinding in
      let+ raw := a_lift (of_option (marshal_claim claim) jsonError) in
      retain_claim (originalDispatchKey (dc_Principal claim) (dc_InvocationID claim)) raw
  | _ => a_err (conflict "Original dispatch endpoint is stale")
  end.

(** ** The two signatures *)
Definition authorityDeadline (e : Envelope) : string :=
  match x_Deadline (v_Context e) with None => "" | Some t => Stamp.format t end.

Definition SignCallerProof (c : ExecutionContext) (original : list byte) (f : CallerProofFrame) : AM (list byte) :=
  let+ _ := guard_tx in
  let+ env := a_env in
  let ns := ai_Namespace (rt_Identity (e_root env)) in
  let+ _ := a_guard (negb (sc_HistoryOnly (e_scope env))) (invalid "History-only scope cannot sign caller admission") in
  let+ e := a_lift (fabric (DecodeVerifiedEnvelope c original ns)) in
  let+ _ := a_guard (negb (negb (str_eqb (cf_SourceDomain f) ns) || negb (str_eqb (cf_AudienceDomain f) ns) ||
                           negb (cf_IssuerKeyRevision f =? 1) || negb (str_eqb (cf_CallerRef f) (p_Ref (ec_principal c))) ||
                           negb (str_eqb (cf_Operation f) (v_Operation e)) || negb (str_eqb (cf_OriginalEnvelopeID f) (v_ID e)) ||
                           negb (bool_decide (cf_OriginalEnvelopeDigest f = sha256 original)) ||
                           negb (str_eqb (cf_Deadline f) (authorityDeadline e))))
              (invalid "Original caller signing profile mismatch") in
  let+ frame := a_lift (fabric (Caller_SigningBytes f)) in
  a_ret (ed_Sign (rt_Key (e_root env)) frame).

(** The envelope with the members dispatch may change cleared. *)
Definition fixed_part (e : Envelope) : Envelope :=
  mkEnvelope (v_ProtocolVersion e) (v_ID e) (v_Operation e) (v_Principal e) (v_Source e) None "" (v_CreatedAt e) [] ∅
    (v_Context e) (v_Trace e) (v_RequiredFeatures e).

Definition decode_finalized (finalized : list byte) : option Envelope :=
  match DecodeJSON envelope_types finalized (Some 0%nat)
          (fun raw => match decode_envelope raw with Some _ => Decoded | None => ShapeMismatch end), decode_envelope finalized with
  | Ok _, Some e => if is_ok (Envelope_Validate e) then Some e else None
  | _, _ => None
  end.

Definition SignDispatchAdmission (c : ExecutionContext) (original finalized : list byte) (f : DispatchAdmissionFrame)
    (prepared : list (option PreparedInvocationTarget)) : AM (list byte) :=
  let+ _ := guard_tx in
  let+ env := a_env in
  let ns := ai_Namespace (rt_Identity (e_root env)) in
  let+ _ := a_guard (negb (sc_HistoryOnly (e_scope env))) (invalid "History-only scope cannot sign dispatch admission") in
  let+ before := a_lift (fabric (DecodeVerifiedEnvelope c original ns)) in
  let+ after := a_lift (of_option (decode_finalized finalized) (invalid "Finalized invocation malformed")) in
  let+ target := a_lift (of_option (if str_eqb (v_Operation after) OperationInvoke then v_Target after else None)
                   (invalid "Finalized target outside registered scope")) in
  let+ _ := verifyInvocationTarget target (v_ExpectedRevision after) (v_Payload after) prepared in
  let+ _ := a_guard (bool_decide (fixed_part before = fixed_part after) && bool_decide (deep_shape original = deep_shape finalized))
              (invalid "Finalized caller/system binding changed") in
  let+ _ := a_guard (negb (negb (str_eqb (af_SourceDomain f) ns) || negb (str_eqb (af_AudienceDomain f) ns) ||
                           negb (str_eqb (af_CallerRef f) (p_Ref (ec_principal c))) || negb (str_eqb (af_InvocationID f) (v_ID after)) ||
                           negb (bool_decide (af_FinalizedDispatchDigest f = sha256 finalized)) ||
                           negb (str_eqb (af_Deadline f) (authorityDeadline after))))
              (invalid "Finalized dispatch signing profile mismatch") in
  let+ frame := a_lift (fabric (Admission_SigningBytes f)) in
  let+ _ := claimOriginalDispatch c original finalized frame after in
  a_ret (ed_Sign (rt_Key (e_root env)) frame).

(** ** deferred_admission.go *)
Definition deferredKey (id : string) : result AErr AuthorityKey :=
  let? _ := guard (canonical_hex32 id) (invalid "Invalid durable deferral identity") in
  Ok (mkKey AuthorityDeferredAdmission zero_ref id).

Definition RecordDeferredAdmission (caller : ExecutionContext) (original : list byte) (v : DeferredAdmission) : AM AuthorityRecord :=
  let+ _ := guard_tx in
  let+ env := a_env in
  let+ key := a_lift (deferredKey (da_DeferralID v)) in
  let+ _ := a_guard (negb (negb (da_Version v =? 1) || str_eqb (da_PlanRevision v) "" || (256 <? len (da_PlanRevision v)) ||
                           bool_decide (da_OriginalDigest v = zero32) || bool_decide (da_SnapshotCommitment v = zero32) ||
                           negb (bool_decide (da_OriginalCaller v = ec_principal caller)) ||
                           negb (bool_decide (sha256 original = da_OriginalDigest v))))
              (invalid "Invalid deferred admission commitment") in
  let+ _ := a_lift (fabric (DecodeVerifiedEnvelope caller original (ai_Namespace (rt_Identity (e_root env))))) in
  let+ _ := a_guard (bool_decide (marshal_provenance (ec_provenance caller) = marshal_provenance (da_Provenance v)))
              (invalid "Deferred provenance differs") in
  let+ raw := a_lift (of_option (marshal_deferred v) (invalid "Deferred admission exceeds bound")) in
  let+ _ := a_guard (negb (MaxSigningFrameBytes <? blen raw)) (invalid "Deferred admission exceeds bound") in
  CAS key 0 raw false.

Definition VerifyDeferredAdmission (record : AuthorityRecord) (original commitment : list byte) : AM DeferredAdmission :=
  let+ _ := guard_tx in
  let+ _ := a_guard (negb (negb (bool_decide (k_Kind (ar_Key record) = AuthorityDeferredAdmission)) || ar_Retired record ||
                           negb (ar_Revision record =? 1) || (MaxSigningFrameBytes <? blen (ar_Value record))))
              (invalid "Invalid historical deferral record") in
  let+ retained := Get (ar_Key record) in
  let+ value := a_lift (of_option
                  (if bool_decide (default [] (marshal_record retained) = default [] (marshal_record record))
                   then unmarshal_deferred (ar_Value record) else None)
                  (invalid "Deferred admission not retained unchanged")) in
  let+ _ := a_guard (match deferredKey (da_DeferralID value) with
                     | Ok key => bool_decide (key = ar_Key record) && (da_Version value =? 1) &&
                                 bool_decide (sha256 original = da_OriginalDigest value) &&
                                 bool_decide (da_SnapshotCommitment value = commitment) && negb (str_eqb (da_PlanRevision value) "")
                     | Err _ => false
                     end) (invalid "Historical deferral commitment differs") in
  a_ret value.

(** ** current_native_caller.go *)
Definition nativeCallerKey (prefix : string) (parts : list string) : string :=
  prefix ++ hex_encode (sha256 (marshal_strings parts)).

Definition currentCallerRecord (provided : AuthorityRecord) (key : AuthorityKey) : AM unit :=
  let+ env := a_env in
  let+ _ := a_guard (negb (ar_Retired provided || negb (bool_decide (ar_Key provided = key)) ||
                           negb (is_ok (VerifyAuthorityRecord (rt_Identity (e_root env)) provided))))
              (invalid "Current native caller proof issuer or scope differs") in
  let+ actual := get key in
  a_guard (negb (ar_Retired actual || negb (bool_decide (default [] (marshal_record actual) = default [] (marshal_record provided)))))
    (conflict "Current native caller proof is stale or retired").

(** The decoded records describe one physical origin. *)
Definition caller_profile (f : NativeCallerAuthority) : result AErr callerOrigin :=
  match decode_controller (ar_Value (nc_Controller f)), decode_caller_binding (ar_Value (nc_Binding f)),
        decode_origin (ar_Value (nc_Origin f)) with
  | Some controller, Some (binding, worker), Some origin =>
      let scope := mkCallerScope (nc_Endpoint f) (nc_DescriptorRevision f) (nc_BindingID f) in
      let? _ := guard (negb (negb (bool_decide (controller = scope)) || negb (bool_decide (binding = scope)) ||
                             negb (bool_decide (cs_Endpoint (co_Scope origin) = nc_Endpoint f)) ||
                             negb (str_eqb (cs_BindingID (co_Scope origin)) (nc_BindingID f)) ||
                             negb (str_eqb (co_ID origin) (k_ID (ar_Key (nc_Origin f)))) ||
                             negb (str_eqb (co_NativeGeneration origin) (nc_NativeGeneration f)) ||
                             (co_OriginalControllerEpoch origin =? 0) ||
                             (ar_Revision (nc_Controller f) <? co_OriginalControllerEpoch origin) ||
                             negb (bool_decide (worker = co_Worker origin))))
                  (conflict "Current native caller physical origin differs") in
      Ok origin
  | _, _, _ => Err (invalid "Current native caller ledger profile malformed")
  end.

Definition VerifyCurrentNativeCaller (f : NativeCallerAuthority) : AM unit :=
  let+ _ := guard_tx in
  let+ env := a_env in
  let ns := ai_Namespace (rt_Identity (e_root env)) in
  let+ _ := a_guard (negb (IsOffer (nc_Endpoint f) || negb (str_eqb (Domain (nc_Endpoint f)) ns) ||
                           negb (str_eqb (p_Ref (nc_Principal f)) (ref_String (nc_Endpoint f))) ||
                           negb (str_eqb (p_Issuer (nc_Principal f)) ns) || str_eqb (nc_DescriptorRevision f) "" ||
                           negb (text (nc_BindingID f) 256 false) || negb (text (nc_NativeGeneration f) 256 false)))
              (invalid "Current native caller selection outside actual root") in
  let+ found := loadObject (ref_String (nc_Endpoint f)) in
  let+ o := a_lift (of_option found ADriver) in
  let+ _ := a_guard (negb (ob_retired o || negb (str_eqb (ob_kind o) "endpoint") || negb (str_eqb (ob_revision o) (nc_DescriptorRevision f))))
              (conflict "Current native caller descriptor is stale or retired") in
  let+ endpoint := a_lift (decode_as (e_root env) (ob_payload o) decode_endpoint) in
  let+ _ := a_guard (negb (negb (bool_decide (ed_Ref endpoint = nc_Endpoint f)) || negb (str_eqb (ed_Kind endpoint) (p_Kind (nc_Principal f)))))
              (invalid "Current native caller principal differs from registered source") in
  let+ _ := a_guard (match find_binding (nc_BindingID f) endpoint with Some _ => true | None => false end)
              (conflict "Current native caller binding unavailable") in
  let+ _ := currentCallerRecord (nc_Controller f)
              (mkKey AuthorityController zero_ref (nativeCallerKey "current:" [ref_String (nc_Endpoint f); nc_BindingID f])) in
  let+ _ := currentCallerRecord (nc_Binding f) (mkKey AuthorityBinding (nc_Endpoint f) (nc_BindingID f)) in
  let+ _ := a_guard (negb (negb (bool_decide (k_Kind (ar_Key (nc_Origin f)) = AuthorityOrigin)) ||
                           negb (bool_decide (k_Endpoint (ar_Key (nc_Origin f)) = nc_Endpoint f))))
              (invalid "Current native caller origin outside source") in
  let+ _ := currentCallerRecord (nc_Origin f) (ar_Key (nc_Origin f)) in
  let+ origin := a_lift (caller_profile f) in
  let+ retired := a_try (get (mkKey AuthorityRetirement (nc_Endpoint f) (nativeCallerKey "retired:" [co_ID origin]))) in
  match retired with
  | Ok _ => a_err (conflict "Current native caller origin retired")
  | Err e => a_guard (isAuthorityNotFound e) e
  end.
End methods.

(** ** Callbacks

    A callback is any program over the methods of the transaction it is given: it
    sees every result, errors included, and returns, or panics. *)
Inductive Call : Type -> Type :=
| CallGet (k : AuthorityKey) : Call AuthorityRecord
| CallCAS (k : AuthorityKey) (expected : Z) (value : list byte) (retire : bool) : Call AuthorityRecord
| CallPurposeGeneration : Call AuthorityRecord
| CallVerifyActor (ref : EndpointRef) (revision binding : string) : Call unit
| CallVerifyTarget (target : EndpointRef) (revision : string) (payload : list byte)
    (prepared : list (option PreparedInvocationTarget)) : Call (list byte)
| CallVerifyCaller (f : NativeCallerAuthority) : Call unit
| CallSignCaller (c : ExecutionContext) (original : list byte) (f : CallerProofFrame) : Call (list byte)
| CallSignDispatch (c : ExecutionContext) (original finalized : list byte) (f : DispatchAdmissionFrame)
    (prepared : list (option PreparedInvocationTarget)) : Call (list byte)
| CallRecordDeferred (caller : ExecutionContext) (original : list byte) (v : DeferredAdmission) : Call AuthorityRecord
| CallVerifyDeferred (record : AuthorityRecord) (original commitment : list byte) : Call DeferredAdmission.

Inductive Callback (A : Type) : Type :=
| Return (r : result AErr A)
| Panic
| Invoke (R : Type) (c : Call R) (k : result AErr R -> Callback A).
Arguments Return {A} r.
Arguments Panic {A}.
Arguments Invoke {A R} c k.

(** A dispatch admission signed for an original invocation. *)
Record Issued := mkIssued {
  is_Principal : Principal; is_original : list byte; is_finalized : list byte; is_frame : DispatchAdmissionFrame;
  is_signature : list byte }.

Definition issued {R} (c : Call R) : result AErr R -> list Issued :=
  match c in Call R return result AErr R -> list Issued with
  | CallSignDispatch c original finalized f _ => fun r =>
      match r with Ok signature => [mkIssued (ec_principal c) original finalized f signature] | Err _ => [] end
  | _ => fun _ => []
  end.

Section transaction.
Context `{Sha256, JsonDecoder, EnvelopeJson, Ed25519, AuthorityJson, AuthorityDocuments}.

Definition method {R} (c : Call R) : AM R :=
  match c in Call R return AM R with
  | CallGet k => Get k
  | CallCAS k expected value retire => CAS k expected value retire
  | CallPurposeGeneration => ExtensionPurposeGeneration
  | CallVerifyActor ref revision binding => VerifyCurrentActorBinding ref revision binding
  | CallVerifyTarget target revision payload prepared => VerifyInvocationTarget target revision payload prepared
  | CallVerifyCaller f => VerifyCurrentNativeCaller f
  | CallSignCaller c original f => SignCallerProof c original f
  | CallSignDispatch c original finalized f prepared => SignDispatchAdmission c original finalized f prepared
  | CallRecordDeferred caller original v => RecordDeferredAdmission caller original v
  | CallVerifyDeferred record original commitment => VerifyDeferredAdmission record original commitment
  end.

(** The callback's result, the state it leaves and the admissions it signed. *)
Fixpoint run_callback {A} (p : Callback A) (env : Env) (t : TxState) : result AErr A * TxState * list Issued :=
  match p with
  | Return r => (r, t, [])
  | Panic => (Err (AFabric (NewError CodeProtocolError "Native authority transaction panicked and rolled back")), t, [])
  | Invoke c k =>
      let '(r, t) := method c env t in
      let '(a, t, signed) := run_callback (k r) env t in
      (a, t, issued c r ++ signed)
  end.

(** ** WithNativeAuthority *)
(** (s *Store) authorize. *)
Definition authorize (s : Root) (c : ExecutionContext) : result AErr unit :=
  let? _ := guard (negb (rt_closed s)) ADriver in
  let? _ := fabric (VerifyAuthenticated c (ai_Namespace (rt_Identity s))) in
  guard (bool_decide (ec_principal c = ai_Owner (rt_Identity s)))
    (AFabric (NewError CodeUnauthenticated "registry owner does not match pinned local identity")).

Definition normal_scope (sc : AuthorityScope) : AuthorityScope :=
  mkScope (sc_Endpoint sc) (sc_ExpectedRevision sc) (sc_BindingID sc) (sc_HistoryOnly sc)
    (if sc_MaxOperations sc =? 0 then 128 else sc_MaxOperations sc)
    (if sc_Timeout sc =? 0 then 5 * time_Second else sc_Timeout sc).

(** The checks of an endpoint scope. *)
Definition check_scope : AM unit :=
  let+ env := a_env in
  let sc := e_scope env in
  if negb (str_eqb (ref_String (sc_Endpoint sc)) "") then
    let+ _ := a_guard (negb (IsOffer (sc_Endpoint sc) ||
                             negb (str_eqb (Domain (sc_Endpoint sc)) (ai_Namespace (rt_Identity (e_root env)))) ||
                             str_eqb (sc_ExpectedRevision sc) "" || str_eqb (sc_BindingID sc) ""))
                (invalid "Incomplete native authority endpoint scope") in
    let+ found := a_try (loadObject (ref_String (sc_Endpoint sc))) in
    match found with
    | Ok (Some o) =>
        let+ _ := a_guard (negb (negb (sc_HistoryOnly sc) && (ob_retired o || negb (str_eqb (ob_revision o) (sc_ExpectedRevision sc)))))
                    (conflict "Native authority endpoint retired or stale") in
        let+ descriptor := a_lift (decode_as (e_root env) (ob_payload o) decode_endpoint) in
        a_guard (match find_binding (sc_BindingID sc) descriptor with Some _ => true | None => false end || sc_HistoryOnly sc)
          (invalid "Native authority binding absent")
    | _ => a_err (conflict "Native authority endpoint retired or stale")
    end
  else a_guard (str_eqb (sc_ExpectedRevision sc) "" && str_eqb (sc_BindingID sc) "")
         (invalid "Global controller scope contains endpoint assertions").

(** nativeAuthoritySchema. *)
Definition create_schema (d : NDB) : option NDB :=
  Some (mkNDB 2 (nd_objects d) (Some (mkHead 0 zero32 0 0)) ∅ ∅).

Definition migrate : AM unit :=
  let+ version := a_query nd_version in
  if version =? 1 then a_exec create_schema
  else a_guard ((version =? 2) || (version =? 3)) (invalid "Unsupported native authority format").

(** The outcomes of one transaction: the driver's, with the outcome of the commit
    depending on whether a statement failed, and the context at each method call
    and at the end. *)
Record RootIO := mkRootIO {
  ro_begin : bool; ro_stmt : nat -> bool; ro_commit : bool -> commit_outcome; ro_ctx : Z -> bool; ro_end : bool }.

(** The result, the tables and the admissions that left with a commit. *)
Definition WithNativeAuthority {A} (s : Root) (io : RootIO) (owner : ExecutionContext) (scope : AuthorityScope)
    (callback : Callback A) (d : NDB) : result AErr A * NDB * list Issued :=
  let scope := normal_scope scope in
  if (sc_MaxOperations scope <? 1) || (4096 <? sc_MaxOperations scope) || (sc_Timeout scope <=? 0) || (time_Minute <? sc_Timeout scope)
  then (Err (invalid "Invalid native authority transaction bounds"), d, []) else
  match authorize s owner with
  | Err e => (Err e, d, [])
  | Ok _ =>
      if negb (ro_begin io) then (Err ADriver, d, []) else
      let env := mkEnv s scope (ro_stmt io) (ro_ctx io) in
      match (let+ _ := check_scope in migrate) env (mkTxState d 0 false true 0 None) with
      | (Err e, _) => (Err e, d, [])
      | (Ok _, t) =>
          let '(r, t, signed) := run_callback callback env t in
          match r with
          | Err e => (Err e, d, [])
          | Ok a =>
              match t_failure t with
              | Some e => (Err e, d, [])
              | None =>
                  if negb (ro_end io) then (Err AContext, d, []) else
                  match ro_commit io (t_faulted t) with
                  | Committed => (Ok a, t_db t, signed)
                  | CommitLost => (Err ADriver, d, [])
                  | CommitUnknown => (Err ADriver, t_db t, signed)
                  end
              end
          end
      end
  end.

(** ** native_authority_recovery.go *)

(** The scratch table and the variables of the replay. *)
Record Replay := mkReplay {
  rp_previous : list byte; rp_next : Z; rp_generation : Z; rp_pending : Z;
  rp_verified : gmap string (Z * bool * list byte) }.
Definition replay0 : Replay := mkReplay zero32 1 0 0 ∅.

(** The checks of one record of the history against the purpose generations. *)
Definition replay_purpose (v : Replay) (r : AuthorityRecord) : result AErr (Z * Z) :=
  let? _ := guard (negb (negb (rp_pending v =? 0) && negb (bool_decide (k_Kind (ar_Key r) = AuthorityPurposeGeneration))))
              (invalid "Extension mutation lacks intrinsic signed generation") in
  if bool_decide (k_Kind (ar_Key r) = AuthorityExtensionConfiguration) then Ok (rp_generation v, ar_Sequence r)
  else if bool_decide (k_Kind (ar_Key r) = AuthorityPurposeGeneration) then
    let? _ := guard (negb (negb (is_ok (validatePurposeGeneration r)) || (rp_pending v =? 0) ||
                           negb (ar_Sequence r =? rp_pending v + 1) || negb (ar_Revision r =? rp_generation v + 1)))
                (invalid "Intrinsic extension generation history mismatch") in
    Ok (rp_generation v + 1, 0)
  else Ok (rp_generation v, rp_pending v).

Definition replay_step (s : Root) (v : Replay) (row : Z * list byte) : result AErr Replay :=
  let raw := bounded_record s row.2 in
  let? r := decodeAuthority s raw in
  let? _ := guard (negb (negb (row.1 =? rp_next v) || negb (ar_Sequence r =? row.1) ||
                         negb (bool_decide (ar_PreviousHead r = rp_previous v)) ||
                         (MaxPayloadBytes (rt_Limits s) <? blen (ar_Value r)) ||
                         negb (is_ok (VerifyAuthorityRecord (rt_Identity s) r))))
              (invalid "Native authority signed history mismatch") in
  let? '(generation, pending) := replay_purpose v r in
  let? _ := decode_value s (ar_Value r) in
  let k := key_string (ar_Key r) in
  let? _ := match rp_verified v !! k with
            | None => guard (negb (negb (ar_PreviousRevision r =? 0) || ar_Retired r))
                        (invalid "Native authority history begins with invalid retirement/CAS")
            | Some (revision, retired, _) => guard (negb (retired || negb (revision =? ar_PreviousRevision r)))
                        (invalid "Native authority tombstone or CAS history violated")
            end in
  Ok (mkReplay (sha256 raw) (rp_next v + 1) generation pending
        (<[k := (ar_Revision r, ar_Retired r, sha256 raw)]> (rp_verified v))).

Fixpoint replay (s : Root) (v : Replay) (rows : list (Z * list byte)) : result AErr Replay :=
  match rows with
  | [] => Ok v
  | row :: rows => let? v := replay_step s v row in replay s v rows
  end.

(** SELECT ... FROM native_authority_log ORDER BY sequence. *)
Definition seq_le (a b : Z * list byte) : Prop := a.1 <= b.1.
#[export] Instance seq_le_dec a b : Decision (seq_le a b).
Proof. unfold seq_le. apply _. Defined.
Definition log_rows (d : NDB) : list (Z * list byte) := merge_sort seq_le (map_to_list (nd_log d)).

(** One materialized row against the replayed history. *)
Definition row_matches (s : Root) (verified : gmap string (Z * bool * list byte)) (key : string) (row : StateRow) : bool :=
  let raw := bounded_record s (sr_record row) in
  match verified !! key with
  | Some (revision, retired, digest) =>
      negb (blen raw =? 0) && (sr_revision row =? revision) && eqb (sr_retired row) retired && bool_decide (sha256 raw = digest)
  | None => false
  end.

Definition verifyNativeAuthority (s : Root) (d : NDB) : result AErr unit :=
  let count := Z.of_nat (size (nd_log d)) in
  let total := msum (fun _ raw => blen raw) (nd_log d) in
  let? h := of_option (nd_head d) ADriver in
  let? _ := guard (negb (negb (count =? hr_records h) || negb (count =? hr_sequence h) || negb (total =? hr_bytes h) ||
                         (MaxRecords (rt_Limits s) <? count) || (MaxLedgerBytes (rt_Limits s) <? total) ||
                         negb (blen (hr_head h) =? 32))) (invalid "Native authority head/quota mismatch") in
  let? v := replay s replay0 (log_rows d) in
  let? _ := guard (rp_pending v =? 0) (invalid "Extension mutation lacks intrinsic signed generation") in
  let? _ := guard (bool_decide (rp_previous v = hr_head h)) (invalid "Native authority head differs from signed history") in
  let? _ := guard (forallb (fun kv => row_matches s (rp_verified v) kv.1 kv.2) (map_to_list (nd_state d)))
              (invalid "Native authority materialized state differs from signed history") in
  guard (size (nd_state d) =? size (rp_verified v))%nat (invalid "Native authority materialized row count differs").
End transaction.
End AuthorityTx.
