(* ===== verification/AuthorityInv.v ===== *)
(** * Invariants of the native authority ledger

    The laws of the parameters, read-only computations, the extension of a
    verified history by one signed record, and the preservation of the invariant
    [LedgerOk] by every method of an authority transaction. *)
From Stdlib Require Import Ascii Strings.Byte ZArith Lia Sorting.Sorted.
From S2P Require Import Prelude GoStrings FabricRef Framing Wire FabricModel SqlTx Encodings Authority AuthorityTx.
#[local] Open Scope Z_scope.
#[local] Arguments str_eqb _ _ : simpl never.

Module AuthorityInv.
Import Ref Frames Wire Model Authority.Authority AuthorityTx.AuthorityTx.

(** ** What the ledger relies on *)

(** ed25519: a signature of a generated key has 64 bytes and verifies. *)
Class Ed25519Laws `{Ed25519} := {
  ed_sign_length : forall seed m, length seed = 32%nat -> blen (ed_Sign (ed_NewKeyFromSeed seed) m) = 64;
  ed_verify_sign : forall seed m, length seed = 32%nat ->
    ed_Verify (ed_Public (ed_NewKeyFromSeed seed)) m (ed_Sign (ed_NewKeyFromSeed seed) m) = true;
}.

(** encoding/json on the stored documents: a signable record of a canonical
    domain decodes to itself and is not much larger than its base64 value, the
    empty document is refused, and a generation decodes to itself. *)
Class AuthorityJsonLaws `{Sha256, AuthorityJson} := {
  record_round_trip : forall r m raw, signingBytes r = Ok m -> canonicalDomainNamespace (ar_Namespace r) = true ->
    blen (ar_PreviousHead r) = 32 -> marshal_record r = Some raw -> unmarshal_record raw = Some r;
  record_size : forall r m raw, signingBytes r = Ok m -> canonicalDomainNamespace (ar_Namespace r) = true ->
    blen (ar_Signature r) = 64 -> marshal_record r = Some raw -> 0 < blen raw <= blen (ar_Value r) * 2 + 65536;
  record_empty : unmarshal_record [] = None;
  purpose_round_trip : forall p raw, 0 <= pg_Generation p <= max_uint64 -> 0 <= pg_MutationSequence p <= max_uint64 ->
    marshal_purpose p = Some raw -> unmarshal_purpose raw = Some p;
}.

(** An open root: open checks that the key is generated from its seed and
    matches the pinned genesis, whose namespace is derived from the public key,
    and the limits have been validated. *)
Record root_ok `{Sha256, Ed25519} (s : Root) : Prop := {
  root_seed : exists seed, length seed = 32%nat /\ rt_Key s = ed_NewKeyFromSeed seed;
  root_public : ai_PublicKey (rt_Identity s) = ed_Public (rt_Key s);
  root_namespace : DomainNamespace (ai_PublicKey (rt_Identity s)) = Ok (ai_Namespace (rt_Identity s));
  root_revision : ai_KeyRevision (rt_Identity s) = 1;
  root_limits : 0 <= MaxRecords (rt_Limits s) /\ 0 <= MaxLedgerBytes (rt_Limits s);
}.

(** ** Computations *)
Lemma of_option_Some {E A} (o : option A) (e : E) a : of_option o e = Ok a <-> o = Some a.
Proof. destruct o; cbn; split; congruence. Qed.

Lemma a_bind_Ok {A B} (c : AM A) (k : A -> AM B) env t b t' :
  a_bind c k env t = (Ok b, t') <-> exists a t1, c env t = (Ok a, t1) /\ k a env t1 = (Ok b, t').
Proof.
  unfold a_bind. destruct (c env t) as [[a|e] t1]; split.
  - eauto.
  - by intros (? & ? & [= -> ->] & ?).
  - done.
  - by intros (? & ? & ? & ?).
Qed.

Lemma a_bind_cases {A B} (c : AM A) (k : A -> AM B) env t r t' :
  a_bind c k env t = (r, t') ->
  (exists e, c env t = (Err e, t') /\ r = Err e) \/ (exists a t1, c env t = (Ok a, t1) /\ k a env t1 = (r, t')).
Proof. unfold a_bind. destruct (c env t) as [[a|e] t1]; [right; eauto | intros [= <- <-]; left; eauto]. Qed.

Lemma a_ret_Ok {A} (a : A) env t b t' : a_ret a env t = (Ok b, t') -> b = a /\ t' = t.
Proof. by intros [= <- <-]. Qed.

Lemma a_lift_eq {A} (x : result AErr A) env t r t' : a_lift x env t = (r, t') <-> r = x /\ t' = t.
Proof. unfold a_lift. split; [by intros [= -> ->] | by intros [-> ->]]. Qed.

Lemma a_guard_Ok b e env t u t' : a_guard b e env t = (Ok u, t') <-> b = true /\ t' = t.
Proof.
  unfold a_guard, a_lift, guard. destruct b, u; split; try done.
  - by intros [= ->].
  - by intros [_ ->].
  - by intros [? _].
Qed.

Lemma a_query_Ok {A} (f : NDB -> A) env t a t' :
  a_query f env t = (Ok a, t') <-> e_stmt env (t_stmt t) = true /\ a = f (t_db t) /\ t' = tick t false.
Proof.
  unfold a_query. destruct (e_stmt env (t_stmt t)); split; try done.
  - by intros [= -> ->].
  - by intros (_ & -> & ->).
  - by intros (? & _).
Qed.

Lemma a_exec_Ok f env t u t' :
  a_exec f env t = (Ok u, t') <->
  e_stmt env (t_stmt t) = true /\ exists d, f (t_db t) = Some d /\ t' = set_db (tick t false) d.
Proof.
  unfold a_exec. destruct (e_stmt env (t_stmt t)); [|split; [done | by intros (? & _)]].
  destruct (f (t_db t)) as [d|], u; split; try done.
  - intros [= <-]. eauto.
  - by intros (_ & ? & [= ->] & ->).
  - by intros (_ & ? & ? & _).
Qed.

Lemma a_try_Ok {A} (c : AM A) env t x t' : a_try c env t = (Ok x, t') -> c env t = (x, t').
Proof. unfold a_try. destruct (c env t). by intros [= <- <-]. Qed.

(** Opens successful steps in the hypotheses. *)
Ltac ainv1 :=
  match goal with
  | H : a_bind a_env _ _ _ = _ |- _ => unfold a_bind at 1, a_env at 1 in H; cbv beta iota zeta in H
  | H : a_bind _ _ _ _ = (Ok _, _) |- _ =>
      let t := fresh "t" in apply a_bind_Ok in H as (? & t & ? & H); cbv beta zeta in H
  | H : a_ret _ _ _ = (Ok _, _) |- _ => apply a_ret_Ok in H as [? ?]
  | H : a_err _ _ _ = (Ok _, _) |- _ => discriminate H
  | H : a_guard _ _ _ _ = (Ok _, _) |- _ => apply a_guard_Ok in H as [? ?]
  | H : a_lift _ _ _ = (Ok _, _) |- _ => apply a_lift_eq in H as [? ?]
  | H : a_query _ _ _ = (Ok _, _) |- _ => apply a_query_Ok in H as (? & ? & ?)
  | H : a_exec _ _ _ = (Ok _, _) |- _ => apply a_exec_Ok in H as (? & ? & ? & ?)
  | H : a_try _ _ _ = (Ok _, _) |- _ => apply a_try_Ok in H
  | H : Ok _ = of_option _ _ |- _ => symmetry in H; apply of_option_Some in H
  end.
Ltac ainv := repeat (ainv1; subst; cbn [t_db t_stmt t_faulted t_active t_operations t_failure set_db tick] in * ).

(** *** Faults are remembered *)
Definition remembers {A} (c : AM A) : Prop :=
  forall env t r t', c env t = (r, t') -> t_faulted t' = false -> t_faulted t = false.

Lemma remembers_bind {A B} (c : AM A) (k : A -> AM B) :
  remembers c -> (forall a, remembers (k a)) -> remembers (a_bind c k).
Proof.
  intros Hc Hk env t r t' Hr Hf. apply a_bind_cases in Hr as [(e & He & _)|(a & t1 & Ha & Hr)]; [eauto|].
  apply (Hc _ _ _ _ Ha), (Hk _ _ _ _ _ Hr Hf).
Qed.
Lemma remembers_lift {A} (x : result AErr A) : remembers (a_lift x).
Proof. intros env t r t' [_ ->]%a_lift_eq. done. Qed.
Lemma remembers_query {A} (f : NDB -> A) : remembers (a_query f).
Proof.
  intros env t r t'. unfold a_query. destruct (e_stmt _ _); intros [= _ <-]; cbn; [by rewrite orb_false_r | by rewrite orb_true_r].
Qed.
Lemma remembers_exec f : remembers (a_exec f).
Proof.
  intros env t r t'. unfold a_exec.
  destruct (e_stmt _ _); [destruct (f _)|]; intros [= _ <-]; cbn; rewrite ?orb_false_r, ?orb_true_r; done.
Qed.

(** *** Reads leave the tables as they are *)
Definition reads {A} (c : AM A) : Prop :=
  forall env t r t', c env t = (r, t') -> t_db t' = t_db t /\ (t_faulted t' = false -> t_faulted t = false).

Lemma reads_ret {A} (a : A) : reads (a_ret a).
Proof. by intros env t r t' [= _ <-]. Qed.
Lemma reads_err {A} e : reads (@a_err A e).
Proof. by intros env t r t' [= _ <-]. Qed.
Lemma reads_env : reads a_env.
Proof. by intros env t r t' [= _ <-]. Qed.
Lemma reads_lift {A} (x : result AErr A) : reads (a_lift x).
Proof. by intros env t r t' [= _ <-]. Qed.
Lemma reads_guard b e : reads (a_guard b e).
Proof. apply reads_lift. Qed.
Lemma reads_query {A} (f : NDB -> A) : reads (a_query f).
Proof.
  intros env t r t' Hr. split; [|by eapply remembers_query].
  revert Hr. unfold a_query. destruct (e_stmt _ _); by intros [= _ <-].
Qed.
Lemma reads_bind {A B} (c : AM A) (k : A -> AM B) : reads c -> (forall a, reads (k a)) -> reads (a_bind c k).
Proof.
  intros Hc Hk env t r t' Hr. apply a_bind_cases in Hr as [(e & He & _)|(a & t1 & Ha & Hr)]; [eauto|].
  destruct (Hc _ _ _ _ Ha) as [E1 F1], (Hk _ _ _ _ _ Hr) as [E2 F2]. split; [congruence | auto].
Qed.
Lemma reads_try {A} (c : AM A) : reads c -> reads (a_try c).
Proof.
  intros Hc env t r t'. unfold a_try. destruct (c env t) as [x t1] eqn:E. intros [= _ <-]. by eapply Hc.
Qed.
Lemma reads_if {A} (b : bool) (x y : AM A) : reads x -> reads y -> reads (if b then x else y).
Proof. by destruct b. Qed.

Ltac reading :=
  repeat match goal with
  | |- reads (a_bind _ _) => apply reads_bind; [|intros ?]
  | |- reads (a_ret _) => apply reads_ret
  | |- reads (a_err _) => apply reads_err
  | |- reads a_env => apply reads_env
  | |- reads (a_lift _) => apply reads_lift
  | |- reads (a_guard _ _) => apply reads_guard
  | |- reads (a_query _) => apply reads_query
  | |- reads (a_try _) => apply reads_try
  | |- reads (let x := _ in _) => cbv zeta
  | |- reads (match ?x with _ => _ end) => destruct x
  | |- reads _ => solve [auto with authority_reads]
  end.
Create HintDb authority_reads.

Section readers.
Context `{Sha256, JsonDecoder, EnvelopeJson, Ed25519, AuthorityJson, AuthorityDocuments}.

Lemma reads_guard_tx : reads guard_tx.
Proof.
  intros env t r t'. unfold guard_tx. destruct (t_failure t); [by intros [= _ <-]|].
  destruct (negb _); [by intros [= _ <-]|]. destruct (negb _); [by intros [= _ <-]|].
  destruct (_ <? _); by intros [= _ <-].
Qed.
#[local] Hint Resolve reads_guard_tx : authority_reads.

Lemma reads_get k : reads (get k).
Proof. unfold get. reading. Qed.
#[local] Hint Resolve reads_get : authority_reads.

Lemma reads_check_key k : reads (check_key k).
Proof. unfold check_key. reading. Qed.
#[local] Hint Resolve reads_check_key : authority_reads.

Lemma reads_Get k : reads (Get k).
Proof. unfold Get. reading. Qed.
#[local] Hint Resolve reads_Get : authority_reads.

Lemma reads_generation : reads ExtensionPurposeGeneration.
Proof. unfold ExtensionPurposeGeneration. reading. Qed.

Lemma reads_load ref : reads (loadObject ref).
Proof. unfold loadObject. reading. Qed.
#[local] Hint Resolve reads_load : authority_reads.

Lemma reads_actor ref revision binding : reads (VerifyCurrentActorBinding ref revision binding).
Proof. unfold VerifyCurrentActorBinding. reading. Qed.

Lemma reads_target target revision payload prepared : reads (verifyInvocationTarget target revision payload prepared).
Proof. unfold verifyInvocationTarget. reading. Qed.
#[local] Hint Resolve reads_target : authority_reads.

Lemma reads_Target target revision payload prepared : reads (VerifyInvocationTarget target revision payload prepared).
Proof. unfold VerifyInvocationTarget. reading. Qed.

Lemma reads_current_record r k : reads (currentCallerRecord r k).
Proof. unfold currentCallerRecord. reading. Qed.
#[local] Hint Resolve reads_current_record : authority_reads.

Lemma reads_native_caller f : reads (VerifyCurrentNativeCaller f).
Proof. unfold VerifyCurrentNativeCaller. reading. Qed.

Lemma reads_caller_proof c original f : reads (SignCallerProof c original f).
Proof. unfold SignCallerProof. reading. Qed.

Lemma reads_deferred record original commitment : reads (VerifyDeferredAdmission record original commitment).
Proof. unfold VerifyDeferredAdmission. reading. Qed.

Lemma reads_check_scope : reads check_scope.
Proof. unfold check_scope. reading. Qed.
End readers.
#[export] Hint Resolve reads_guard_tx reads_get reads_check_key reads_Get reads_generation reads_load reads_actor reads_target
  reads_Target reads_current_record reads_native_caller reads_caller_proof reads_deferred reads_check_scope : authority_reads.

(** ** The history in order of its sequence numbers *)
#[export] Instance seq_le_trans : Transitive seq_le.
Proof. intros a b c. unfold seq_le. lia. Qed.
#[export] Instance seq_le_total : Total seq_le.
Proof. intros a b. unfold seq_le. lia. Qed.

Lemma log_rows_elem d i raw : (i, raw) ∈ log_rows d <-> nd_log d !! i = Some raw.
Proof. unfold log_rows. rewrite merge_sort_Permutation. apply elem_of_map_to_list. Qed.

Lemma sorted_snoc (l : list (Z * list byte)) x :
  StronglySorted seq_le l -> (forall y, y ∈ l -> seq_le y x) -> StronglySorted seq_le (l ++ [x]).
Proof.
  induction 1 as [|y l Hl IH Hy]; intros Hx; [repeat constructor|]. cbn. constructor.
  - apply IH. intros z Hz. apply Hx. by right.
  - apply Forall_app. split; [done|]. constructor; [|done]. apply Hx. left.
Qed.

(** Appending a record after every other one. *)
Lemma log_rows_snoc d d' i raw :
  nd_log d' = <[i := raw]> (nd_log d) -> (forall j x, nd_log d !! j = Some x -> j < i) ->
  log_rows d' = log_rows d ++ [(i, raw)].
Proof.
  intros Hd Hlt.
  assert (nd_log d !! i = None) as Hnone.
  { destruct (nd_log d !! i) as [x|] eqn:E; [|done]. apply Hlt in E. lia. }
  apply (StronglySorted_unique_strong seq_le).
  - intros [j x] [k y] Hx Hy. unfold seq_le. cbn. intros. assert (j = k) as -> by lia. f_equal.
    apply log_rows_elem in Hx. apply elem_of_app in Hy as [Hy|Hy].
    + apply log_rows_elem in Hy. rewrite Hd, lookup_insert_ne in Hx by (apply Hlt in Hy; lia). congruence.
    + apply list_elem_of_singleton in Hy as [= -> ->]. rewrite Hd, lookup_insert_eq in Hx. congruence.
  - apply (StronglySorted_merge_sort seq_le).
  - apply sorted_snoc; [apply (StronglySorted_merge_sort seq_le)|].
    intros [j x] Hx%log_rows_elem%Hlt. unfold seq_le. cbn. lia.
  - unfold log_rows. rewrite !merge_sort_Permutation, Hd, map_to_list_insert by done.
    apply Permutation_cons_append.
Qed.

(** ** Keys as text: a kind is recovered from the text of a valid key *)
Definition nul_free (s : string) : bool := str_forallb (fun c => negb (ceq c NUL)) s.

Lemma nul_split a a' b b' : nul_free a = true -> nul_free a' = true ->
  (a ++ String NUL b = a' ++ String NUL b')%string -> a = a' /\ b = b'.
Proof.
  unfold nul_free. revert a'. induction a as [|c a IH]; intros [|c' a'] Ha Ha' E; cbn in *.
  - injection E as ->. done.
  - injection E as <- _. done.
  - injection E as -> _. done.
  - injection E as -> E. rinv. destruct (IH a') as [-> ->]; done.
Qed.

Lemma kind_nul_free k : validAuthorityKind k = true -> nul_free (kind_string k) = true.
Proof. by destruct k. Qed.

Lemma kind_string_inj k k' : validAuthorityKind k = true -> validAuthorityKind k' = true ->
  kind_string k = kind_string k' -> k = k'.
Proof. destruct k, k'; cbn; done. Qed.

Lemma key_string_kind k k' : validAuthorityKind (k_Kind k) = true -> validAuthorityKind (k_Kind k') = true ->
  key_string k = key_string k' -> k_Kind k = k_Kind k'.
Proof.
  intros Hk Hk' E. apply nul_split in E as [E _]; [|by apply kind_nul_free..]. by apply kind_string_inj.
Qed.

Section ledger.
Context `{Sha256, JsonDecoder, EnvelopeJson, Ed25519, AuthorityJson, AuthorityDocuments}.
Context `{!Ed25519Laws, !AuthorityJsonLaws}.

Lemma replay_app s v l l' : replay s v (l ++ l') = rbind (replay s v l) (fun v => replay s v l').
Proof.
  revert v. induction l as [|x l IH]; intros v; [done|]. cbn. destruct (replay_step s v x); cbn; [apply IH | done].
Qed.

(** ** The invariant *)
Definition log_size (d : NDB) : Z := Z.of_nat (size (nd_log d)).
Definition log_bytes (d : NDB) : Z := msum (fun _ raw => blen raw) (nd_log d).

(** A materialized row and the record it holds agree with the replayed history. *)
Definition row_ok (s : Root) (n : Z) (key : string) (row : StateRow) (verified : Z * bool * list byte) : Prop :=
  verified = (sr_revision row, sr_retired row, sha256 (sr_record row)) /\ 0 < blen (sr_record row) <= record_bound s /\
  exists r, unmarshal_record (sr_record row) = Some r /\ key_string (ar_Key r) = key /\ ar_Revision r = sr_revision row /\
    ar_PreviousRevision r = ar_Revision r - 1 /\ ar_Retired r = sr_retired row /\ 1 <= ar_Sequence r <= n /\
    VerifyAuthorityRecord (rt_Identity s) r = Ok tt.

Definition rows_agree (s : Root) (n : Z) (key : string) (row : option StateRow) (verified : option (Z * bool * list byte)) : Prop :=
  match row, verified with
  | Some row, Some verified => row_ok s n key row verified
  | None, None => True
  | _, _ => False
  end.

(** The generation counter is the revision of the generation's own record. *)
Definition generation_ok (v : Replay) : Prop :=
  match rp_verified v !! key_string purposeGenerationKey with
  | None => rp_generation v = 0
  | Some (revision, retired, _) => revision = rp_generation v /\ retired = false /\ 0 < revision
  end.

Record LedgerOk (s : Root) (v : Replay) (d : NDB) : Prop := {
  lo_head : nd_head d = Some (mkHead (log_size d) (rp_previous v) (log_size d) (log_bytes d));
  lo_replay : replay s replay0 (log_rows d) = Ok v;
  lo_keys : forall i raw, nd_log d !! i = Some raw -> 1 <= i <= log_size d;
  lo_next : rp_next v = log_size d + 1;
  lo_records : log_size d <= MaxRecords (rt_Limits s);
  lo_bytes : log_bytes d <= MaxLedgerBytes (rt_Limits s);
  lo_previous : blen (rp_previous v) = 32;
  lo_state : forall key, rows_agree s (log_size d) key (nd_state d !! key) (rp_verified v !! key);
  lo_generation : generation_ok v;
}.

(** *** Publishing *)
Definition published (r : AuthorityRecord) (raw : list byte) (d : NDB) (h : HeadRow) : NDB :=
  mkNDB (nd_version d) (nd_objects d) (Some (mkHead (ar_Sequence r) (sha256 raw) (hr_records h + 1) (hr_bytes h + blen raw)))
    (<[ar_Sequence r := raw]> (nd_log d)) (<[key_string (ar_Key r) := mkStateRow (ar_Revision r) (ar_Retired r) raw]> (nd_state d)).

(** What a successful publication did. *)
Inductive publication (s : Root) (k : AuthorityKey) (expected : Z) (value : list byte) (retire : bool) (r : AuthorityRecord)
    (d d' : NDB) : Prop :=
| Publication (h : HeadRow) (sign raw : list byte)
    (Head : nd_head d = Some h) (Length : blen (hr_head h) = 32) (Sign : signingBytes r = Ok sign)
    (Signed : r = set_signature (next_record s k expected value retire h) (ed_Sign (rt_Key s) sign))
    (Raw : marshal_record r = Some raw) (Records : hr_records h < MaxRecords (rt_Limits s))
    (Bytes : hr_bytes h + blen raw <= MaxLedgerBytes (rt_Limits s)) (Tables : d' = published r raw d h).

Lemma publish_Ok k expected value retire env t r t' :
  publish k expected value retire env t = (Ok r, t') ->
  publication (e_root env) k expected value retire r (t_db t) (t_db t').
Proof.
  unfold publish, sign_next, write_record. intros Hp. ainv.
  match goal with Hh : nd_head _ = Some ?x |- _ => rename x into h; rename Hh into Hhead end.
  match goal with Hr : marshal_record _ = Some ?x |- _ => rename x into raw; rename Hr into Hraw end.
  match goal with Hs : Ok ?x = signingBytes _ |- _ => rename x into sign; rename Hs into Hsign end.
  rinv. unfold insert_log, upsert_state, advance_head in *. destruct (nd_log (t_db t) !! _) eqn:El; [done|].
  simplify_eq. cbn in *. rewrite Hhead in *.
  econstructor; try done; cbn in *; lia.
Qed.

(** A record the root has just signed verifies and decodes to itself. *)
Lemma root_canonical s : root_ok s -> canonicalDomainNamespace (ai_Namespace (rt_Identity s)) = true.
Proof.
  intros Hs. pose proof (root_namespace s Hs) as Hn. unfold DomainNamespace in Hn. rinv.
  rewrite <- Hn. apply (domain_ns_canonical (sha256 _)), sha256_length.
Qed.

Lemma publication_record s k expected value retire r d d' :
  root_ok s -> publication s k expected value retire r d d' -> blen value <= MaxPayloadBytes (rt_Limits s) ->
  exists raw h, nd_head d = Some h /\ d' = published r raw d h /\ marshal_record r = Some raw /\ unmarshal_record raw = Some r /\
    0 < blen raw <= record_bound s /\ VerifyAuthorityRecord (rt_Identity s) r = Ok tt /\
    ar_Key r = k /\ ar_Revision r = expected + 1 /\ ar_PreviousRevision r = expected /\ ar_Sequence r = hr_sequence h + 1 /\
    ar_PreviousHead r = hr_head h /\ ar_Retired r = retire /\ ar_Value r = value /\
    hr_records h < MaxRecords (rt_Limits s) /\ hr_bytes h + blen raw <= MaxLedgerBytes (rt_Limits s) /\
    1 <= ar_Revision r <= max_int64 /\ 1 <= ar_Sequence r <= max_int64.
Proof.
  intros Hs [h sign raw Hh Hlen Hsign Hr Hraw Hrec Hbytes ->] Hv. exists raw, h.
  destruct (root_seed s Hs) as (seed & Hseed & Hkey).
  assert (blen (ar_Signature r) = 64) as Hsig by (rewrite Hr, Hkey; by apply ed_sign_length).
  assert (canonicalDomainNamespace (ar_Namespace r) = true) as Hns by (rewrite Hr; by apply root_canonical).
  assert (ar_Value r = value) as Hval by by rewrite Hr.
  pose proof (record_size _ _ _ Hsign Hns Hsig Hraw) as Hsize. rewrite Hval in Hsize.
  assert (1 <= ar_Revision r <= max_int64 /\ 1 <= ar_Sequence r <= max_int64) as [? ?].
  { clear -Hsign. unfold signingBytes in Hsign. rinv. lia. }
  assert (VerifyAuthorityRecord (rt_Identity s) r = Ok tt) as Hverify.
  { unfold VerifyAuthorityRecord. rewrite (root_namespace s Hs), (root_revision s Hs). cbn [rbind].
    rewrite Hsig, Hsign, Hr. cbn. rewrite !str_eqb_refl. cbn.
    rewrite (root_public s Hs), Hkey, ed_verify_sign by done. done. }
  split_and!; try done; try (by rewrite Hr); try lia.
  - apply (record_round_trip r sign); try done. by rewrite Hr.
  - unfold record_bound. lia.
Qed.

(** The replay of a published record on top of its verified history. *)
Definition cas_allowed (v : Replay) (r : AuthorityRecord) : Prop :=
  match rp_verified v !! key_string (ar_Key r) with
  | None => ar_PreviousRevision r = 0 /\ ar_Retired r = false
  | Some (revision, retired, _) => retired = false /\ revision = ar_PreviousRevision r
  end.

Definition replayed (v : Replay) (r : AuthorityRecord) (raw : list byte) (g p : Z) : Replay :=
  mkReplay (sha256 raw) (rp_next v + 1) g p
    (<[key_string (ar_Key r) := (ar_Revision r, ar_Retired r, sha256 raw)]> (rp_verified v)).

Lemma replay_step_Ok s v i raw v' :
  replay_step s v (i, raw) = Ok v' <->
  exists r g p, blen raw <= record_bound s /\ unmarshal_record raw = Some r /\ i = rp_next v /\ ar_Sequence r = i /\
    ar_PreviousHead r = rp_previous v /\ blen (ar_Value r) <= MaxPayloadBytes (rt_Limits s) /\
    VerifyAuthorityRecord (rt_Identity s) r = Ok tt /\ replay_purpose v r = Ok (g, p) /\ decode_value s (ar_Value r) = Ok tt /\
    cas_allowed v r /\ v' = replayed v r raw g p.
Proof.
  unfold replay_step, decodeAuthority, bounded_record, cas_allowed, replayed. cbn [fst snd].
  destruct (Z.leb_spec (blen raw) (record_bound s)) as [Hb|Hb].
  - rewrite (proj2 (Z.leb_le _ _) Hb). cbn [guard rbind]. split.
    + intros Hs. apply rbind_Ok in Hs as (r & Hr%of_option_Some & Hs). apply rbind_Ok in Hs as ([] & Hg & Hs).
      apply rbind_Ok in Hs as ([g p] & Hp & Hs). apply rbind_Ok in Hs as ([] & Hv & Hs).
      apply rbind_Ok in Hs as ([] & Hc & Hs). rinv. exists r, g, p.
      destruct (VerifyAuthorityRecord _ _) as [[]|]; [|done].
      split_and!; try done; try lia. destruct (rp_verified v !! _) as [[[rev ret] dig]|]; rinv; split; try done; lia.
    + intros (r & g & p & _ & Hun & -> & Hseq & Hprev & Hval & Hver & Hp & Hv & Hc & ->). rewrite Hun. cbn [of_option rbind].
      rewrite Hver, Hseq, Z.eqb_refl, bool_decide_eq_true_2 by done. rewrite (proj2 (Z.ltb_ge _ _)) by lia. cbn [negb orb is_ok guard rbind].
      rewrite Hp. cbn [rbind]. rewrite Hv. cbn [rbind].
      destruct (rp_verified v !! _) as [[[rev ret] dig]|]; [destruct Hc as [-> ->] | destruct Hc as [-> ->]];
        rewrite ?Z.eqb_refl; done.
  - split; [|intros (? & ? & ? & ? & _); lia]. intros Hs. apply rbind_Ok in Hs as (r & Hr & _).
    apply rbind_Ok in Hr as (_ & _ & Hr). apply of_option_Some in Hr. rewrite record_empty in Hr. done.
Qed.

Lemma blen_nonneg (b : list byte) : 0 <= blen b.
Proof. unfold blen. lia. Qed.

(** Publishing extends the verified history by exactly the published record. *)
Lemma published_ok s v d r raw h g p :
  LedgerOk s v d -> nd_head d = Some h -> ar_Sequence r = hr_sequence h + 1 -> ar_PreviousHead r = hr_head h ->
  unmarshal_record raw = Some r -> 0 < blen raw <= record_bound s -> VerifyAuthorityRecord (rt_Identity s) r = Ok tt ->
  hr_records h < MaxRecords (rt_Limits s) -> hr_bytes h + blen raw <= MaxLedgerBytes (rt_Limits s) ->
  ar_PreviousRevision r = ar_Revision r - 1 -> blen (ar_Value r) <= MaxPayloadBytes (rt_Limits s) ->
  decode_value s (ar_Value r) = Ok tt -> cas_allowed v r -> replay_purpose v r = Ok (g, p) ->
  generation_ok (replayed v r raw g p) ->
  LedgerOk s (replayed v r raw g p) (published r raw d h).
Proof.
  intros Hok Hh Hseq Hprev Hun Hlen Hver Hrec Hbytes Hrev Hval Hdec Hcas Hpur Hgen.
  destruct Hok as [Hhead Hrep Hkeys Hnext Hrecs Hbs Hp32 Hstate _]. rewrite Hhead in Hh. injection Hh as <-. cbn in *.
  assert (nd_log d !! ar_Sequence r = None) as Hnone.
  { destruct (nd_log d !! ar_Sequence r) as [x|] eqn:E; [|done]. apply Hkeys in E. lia. }
  set (d' := published r raw d _).
  assert (log_size d' = log_size d + 1) as Hsz by (unfold log_size, d'; cbn; rewrite map_size_insert_None by done; lia).
  assert (log_bytes d' = log_bytes d + blen raw) as Hby by (unfold log_bytes, d'; cbn; rewrite msum_insert by done; lia).
  assert (log_rows d' = log_rows d ++ [(ar_Sequence r, raw)]) as Hrows.
  { apply log_rows_snoc; [done|]. intros j x Hj%Hkeys. lia. }
  constructor; cbn [replayed rp_previous rp_next rp_verified].
  - rewrite Hsz, Hby. cbn. repeat f_equal; lia.
  - rewrite Hrows, replay_app, Hrep. cbn [rbind replay].
    rewrite (proj2 (replay_step_Ok s v (ar_Sequence r) raw (replayed v r raw g p))); [done|].
    exists r, g, p. split_and!; try done; lia.
  - intros i x Hi. cbn in Hi. apply lookup_insert_Some in Hi as [[<- <-]|[_ Hi%Hkeys]]; rewrite Hsz; unfold log_size in *; lia.
  - lia.
  - lia.
  - lia.
  - unfold blen. by rewrite sha256_length.
  - intros key. rewrite Hsz. cbn. destruct (decide (key = key_string (ar_Key r))) as [->|Hne].
    + rewrite !lookup_insert_eq. split; [done|]. split; [done|]. exists r. cbn. split_and!; try done; unfold log_size in *; lia.
    + rewrite !lookup_insert_ne by congruence. specialize (Hstate key). revert Hstate. unfold rows_agree.
      destruct (nd_state d !! key), (rp_verified v !! key); try done.
      intros (? & ? & r' & ? & ? & ? & ? & ? & ? & ?). split; [done|]. split; [done|]. exists r'. split_and!; try done; lia.
  - done.
Qed.

(** *** Reading and comparing *)
Lemma decode_row s raw :
  blen raw <= record_bound s -> decodeAuthority s (bounded_record s raw) = of_option (unmarshal_record raw) jsonError.
Proof. intros Hb. unfold decodeAuthority, bounded_record. rewrite !(proj2 (Z.leb_le _ _) Hb). done. Qed.

Definition stored (s : Root) (d : NDB) (k : AuthorityKey) (r : AuthorityRecord) : Prop :=
  exists row, nd_state d !! key_string k = Some row /\ decodeAuthority s (bounded_record s (sr_record row)) = Ok r /\ ar_Key r = k.

Lemma get_Ok k env t r t' :
  get k env t = (Ok r, t') -> t_db t' = t_db t /\ stored (e_root env) (t_db t) k r.
Proof.
  unfold get. intros Hg. ainv. destruct (nd_state (t_db t) !! _) as [row|] eqn:E; [|ainv]. ainv. rinv.
  split; [done|]. exists row. by split_and!.
Qed.

Lemma get_absent k env t e t' :
  get k env t = (Err e, t') -> isAuthorityNotFound e = true -> nd_state (t_db t) !! key_string k = None.
Proof.
  unfold get, a_bind, a_env, a_query. destruct (e_stmt _ _); [|by intros [= <- _]].
  destruct (nd_state (t_db t) !! _) as [row|]; [|done]. unfold a_lift, decodeAuthority, a_guard, a_lift.
  destruct (guard (_ <=? _) _) as [u|x] eqn:Eg; cbn [rbind]; [|apply guard_Err in Eg as [_ ->]; by intros [= <- _]].
  destruct (unmarshal_record _) as [r|]; cbn [of_option]; [|by intros [= <- _]].
  destruct (bool_decide _); cbn; [done | by intros [= <- _]].
Qed.

(** A fault is the only way to lose part of a publication. *)
Lemma exec_fault f env t e t' : a_exec f env t = (Err e, t') -> t_faulted t' = true.
Proof.
  unfold a_exec. destruct (e_stmt _ _); [destruct (f _)|]; intros [= _ <-]; cbn; by rewrite orb_true_r.
Qed.

Lemma reads_sign_next k expected value retire : reads (sign_next k expected value retire).
Proof. unfold sign_next. reading. Qed.

Lemma remembers_write r raw : remembers (write_record r raw).
Proof.
  unfold write_record.
  repeat first [apply remembers_exec | (apply remembers_bind; [|intros ?]) | (intros ? ? ? ? [= _ <-]; done)].
Qed.

Lemma write_Err r raw env t e t' : write_record r raw env t = (Err e, t') -> t_faulted t' = true.
Proof.
  unfold write_record. intros Hp.
  do 3 (apply a_bind_cases in Hp as [(e' & Hp & _)|(? & ? & _ & Hp)]; [by eapply exec_fault|]). done.
Qed.

Lemma publish_Err k expected value retire env t e t' :
  publish k expected value retire env t = (Err e, t') -> t_faulted t' = false -> t_db t' = t_db t.
Proof.
  unfold publish. intros Hp Hf. apply a_bind_cases in Hp as [(e' & Hp & _)|(x & t1 & Hx & Hp)].
  - by apply reads_sign_next in Hp as [? _].
  - apply write_Err in Hp. congruence.
Qed.

Lemma remembers_reads {A} (c : AM A) : reads c -> remembers c.
Proof. intros Hc env t r t' Hr. by apply (Hc _ _ _ _ Hr). Qed.

Lemma remembers_publish k expected value retire : remembers (publish k expected value retire).
Proof.
  apply remembers_bind; [apply remembers_reads, reads_sign_next | intros ?; apply remembers_write].
Qed.

(** The outcomes of [cas] on a verified ledger: an exact repetition, a publication
    that replay accepts, or an error that leaves the tables alone. *)
Lemma cas_Ok s v k expected value retire env t r t' :
  LedgerOk s v (t_db t) -> e_root env = s -> cas k expected value retire env t = (Ok r, t') ->
  (t_db t' = t_db t /\ stored s (t_db t) k r /\ ar_PreviousRevision r = expected /\ ar_Retired r = retire /\ ar_Value r = value) \/
  (publication s k expected value retire r (t_db t) (t_db t') /\ cas_allowed v r /\ decode_value s value = Ok tt /\
    blen value <= MaxPayloadBytes (rt_Limits s)).
Proof.
  intros Hok <- Hc. unfold cas in Hc. ainv. 
  match goal with Hg : get k _ _ = (?x, ?y) |- _ => rename Hg into Eg, x into found, y into tg end.
  destruct (reads_get _ _ _ _ _ Eg) as [Hdb _].
  assert (publish k expected value retire env tg = (Ok r, t') -> cas_allowed v r ->
    publication (e_root env) k expected value retire r (t_db t) (t_db t') /\ cas_allowed v r /\
    decode_value (e_root env) value = Ok tt /\ blen value <= MaxPayloadBytes (rt_Limits (e_root env))) as Hpub.
  { intros Hp%publish_Ok Ha. rewrite Hdb in Hp. rinv. split_and!; try done. lia. }
  pose proof (lo_state _ _ _ Hok (key_string k)) as Hagree. destruct found as [old|e].
  - destruct (get_Ok _ _ _ _ _ Eg) as (_ & Hst). pose proof Hst as (row & Hrow & Hdec & _).
    destruct ((ar_PreviousRevision old =? expected) && _ && _) eqn:Esame.
    + left. ainv. rinv. clear Hpub. split_and!; try done; try lia; by apply eqb_prop.
    + right. ainv. apply Hpub; [done|]. rinv. unfold cas_allowed.
      match goal with Hp : publish _ _ _ _ _ _ = _ |- _ => apply publish_Ok in Hp as [h sign raw _ _ _ Hr _ _ _ _] end.
      rewrite Hr. cbn. rewrite Hrow in Hagree. unfold rows_agree in Hagree.
      destruct (rp_verified v !! key_string k) as [[[rev ret] dig]|]; [|done].
      destruct Hagree as ([= -> -> ->] & Hlen & r0 & Hun & _ & Hrev & _ & Hret & _).
      rewrite decode_row, Hun in Hdec by lia. injection Hdec as ->.
      split; [congruence | lia].
  - right. destruct (isAuthorityNotFound e) eqn:Ee; cbn [negb] in Hc; [|ainv]. ainv. apply Hpub; [done|]. rinv.
    apply get_absent in Eg; [|done]. unfold cas_allowed.
    match goal with Hp : publish _ _ _ _ _ _ = _ |- _ => apply publish_Ok in Hp as [h sign raw _ _ _ Hr _ _ _ _] end.
    rewrite Hr. cbn. rewrite Eg in Hagree. unfold rows_agree in Hagree.
    destruct (rp_verified v !! key_string k); [done|]. split; [lia | done].
Qed.

(** A computation whose errors, faults apart, come before its writes. *)
Definition clean {A} (c : AM A) : Prop :=
  forall env t e t', c env t = (Err e, t') -> t_faulted t' = false -> t_db t' = t_db t.

Lemma clean_reads {A} (c : AM A) : reads c -> clean c.
Proof. intros Hc env t e t' Hr _. by apply (Hc _ _ _ _ Hr). Qed.
Lemma clean_bind {A B} (c : AM A) (k : A -> AM B) : reads c -> (forall a, clean (k a)) -> clean (a_bind c k).
Proof.
  intros Hc Hk env t e t' Hr Hf. apply a_bind_cases in Hr as [(e' & He & _)|(a & t1 & Ha & Hr)].
  - by apply (Hc _ _ _ _ He).
  - rewrite (Hk _ _ _ _ _ Hr Hf). by apply (Hc _ _ _ _ Ha).
Qed.

Lemma cas_Err k expected value retire : clean (cas k expected value retire).
Proof.
  unfold cas. do 5 (apply clean_bind; [reading | intros ?]).
  match goal with |- clean (match ?x with _ => _ end) => destruct x end;
    (case_if; [by apply clean_reads; reading|]); apply clean_bind; [reading | | reading |];
    intros ? env t e' t'; apply publish_Err.
Qed.

Lemma remembers_cas k expected value retire : remembers (cas k expected value retire).
Proof.
  unfold cas. do 5 (apply remembers_bind; [apply remembers_reads; reading | intros ?]).
  match goal with |- remembers (match ?x with _ => _ end) => destruct x end;
    (case_if; [by apply remembers_reads; reading|]); apply remembers_bind;
    first [by apply remembers_reads; reading | intros ?; apply remembers_publish].
Qed.

(** ** Settled ledgers

    Outside an extension mutation no generation is pending. *)
Definition Settled (s : Root) (d : NDB) : Prop := exists v, LedgerOk s v d /\ rp_pending v = 0.

Lemma publication_valid s k expected value retire r d d' :
  publication s k expected value retire r d d' -> validAuthorityKind (k_Kind k) = true.
Proof.
  intros [h sign raw _ _ Hs Hr _ _ _ _]. rewrite Hr in Hs. unfold signingBytes in Hs. cbn in Hs.
  rinv. match goal with Hv : key_valid _ _ = true |- _ => unfold key_valid in Hv end. by rinv.
Qed.

(** Publishing on a verified ledger, given the outcome of the generation check. *)
Lemma publication_ok s v k expected value retire r d d' g p :
  root_ok s -> LedgerOk s v d -> publication s k expected value retire r d d' -> cas_allowed v r ->
  decode_value s value = Ok tt -> blen value <= MaxPayloadBytes (rt_Limits s) ->
  replay_purpose v r = Ok (g, p) ->
  (forall raw, generation_ok (replayed v r raw g p)) ->
  exists raw, LedgerOk s (replayed v r raw g p) d' /\ log_size d' = log_size d + 1 /\ unmarshal_record raw = Some r /\
    blen raw <= record_bound s /\ nd_state d' = <[key_string k := mkStateRow (expected + 1) retire raw]> (nd_state d).
Proof.
  intros Hs Hok Hp Hc Hd Hv Hr Hg.
  destruct (publication_record _ _ _ _ _ _ _ _ Hs Hp Hv)
    as (raw & h & Hh & -> & Hraw & Hun & Hb & Hver & Hk & Hrev & Hprev & Hseq & Hph & Hret & Hval & Hrec & Hby & ? & ?).
  exists raw. split_and!.
  - apply published_ok; try done; try lia; by rewrite Hval.
  - pose proof (lo_head _ _ _ Hok) as Hh'. rewrite Hh in Hh'. injection Hh' as ->. unfold log_size at 1. cbn.
    rewrite map_size_insert_None; [unfold log_size; lia|].
    destruct (nd_log d !! ar_Sequence r) eqn:E; [|done]. apply (lo_keys _ _ _ Hok) in E. cbn in Hseq. lia.
  - done.
  - lia.
  - cbn. by rewrite Hk, Hrev, Hret.
Qed.

Lemma generation_other v r raw p :
  generation_ok v -> validAuthorityKind (k_Kind (ar_Key r)) = true -> k_Kind (ar_Key r) <> AuthorityPurposeGeneration ->
  generation_ok (replayed v r raw (rp_generation v) p).
Proof.
  intros Hg Hv Hk. unfold generation_ok, replayed. cbn [rp_verified rp_generation].
  rewrite lookup_insert_ne; [done|]. intros E. apply Hk. by apply (key_string_kind (ar_Key r) purposeGenerationKey).
Qed.

Lemma publication_key s k expected value retire r d d' : publication s k expected value retire r d d' -> ar_Key r = k.
Proof. by intros [h sign raw _ _ _ -> _ _ _ _]. Qed.

(** A plain CAS keeps the ledger settled. *)
Lemma cas_settled s k expected value retire env t r t' :
  root_ok s -> k_Kind k <> AuthorityExtensionConfiguration -> k_Kind k <> AuthorityPurposeGeneration -> e_root env = s ->
  cas k expected value retire env t = (r, t') -> t_faulted t' = false -> Settled s (t_db t) -> Settled s (t_db t').
Proof.
  intros Hs Hk1 Hk2 He Hc Hf (v & Hok & Hp). destruct r as [r|e]; [|rewrite (cas_Err _ _ _ _ _ _ _ _ Hc Hf); by exists v].
  destruct (cas_Ok _ _ _ _ _ _ _ _ _ _ Hok He Hc) as [(-> & _)|(Hpub & Ha & Hd & Hv)]; [by exists v|].
  pose proof (publication_key _ _ _ _ _ _ _ _ Hpub) as Hk.
  edestruct (publication_ok s v) as (raw & Hok' & _); [done | done | exact Hpub | done | done | done | | |].
  - unfold replay_purpose. rewrite Hp, Hk. cbn [negb Z.eqb andb guard rbind].
    rewrite !bool_decide_eq_false_2 by done. done.
  - intros raw. apply generation_other; [apply (lo_generation _ _ _ Hok) | | by rewrite Hk].
    rewrite Hk. by eapply publication_valid.
  - exists (replayed v r raw (rp_generation v) 0). by split.
Qed.

(** *** Extension mutations and their generation *)

(** The record stored under a key of a verified ledger. *)
Lemma stored_row s v d k r : LedgerOk s v d -> stored s d k r ->
  exists row dig, nd_state d !! key_string k = Some row /\ unmarshal_record (sr_record row) = Some r /\
    rp_verified v !! key_string k = Some (ar_Revision r, ar_Retired r, dig) /\
    ar_PreviousRevision r = ar_Revision r - 1 /\ 1 <= ar_Sequence r <= log_size d /\
    VerifyAuthorityRecord (rt_Identity s) r = Ok tt.
Proof.
  intros Hok (row & Hrow & Hdec & _). pose proof (lo_state _ _ _ Hok (key_string k)) as Ha.
  rewrite Hrow in Ha. unfold rows_agree in Ha. destruct (rp_verified v !! key_string k) as [x|] eqn:E; [|done].
  destruct Ha as (-> & Hb & r0 & Hun & _ & <- & Hprev & <- & Hseq & Hver). rewrite decode_row, Hun in Hdec by lia.
  injection Hdec as ->. exists row, (sha256 (sr_record row)). split_and!; try done; lia.
Qed.

Lemma get_stored s k r env t x t' :
  e_root env = s -> stored s (t_db t) k r -> get k env t = (x, t') -> t_faulted t' = false -> x = Ok r.
Proof.
  intros <- (row & Hrow & Hdec & Hkey). unfold get, a_bind, a_env, a_query.
  destruct (e_stmt env (t_stmt t)).
  - rewrite Hrow. unfold a_lift. rewrite Hdec. unfold a_guard, a_lift, guard. rewrite bool_decide_eq_true_2 by done.
    by intros [= <- _].
  - intros [= _ <-]. cbn. by rewrite orb_true_r.
Qed.

(** The generation read back is the one the replay counts. *)
Lemma generation_read s v d env t x t1 g t2 :
  LedgerOk s v d -> t_db t = d -> e_root env = s -> get purposeGenerationKey env t = (x, t1) ->
  match x with
  | Ok previous => let+ _ := a_lift (validatePurposeGeneration previous) in a_ret (ar_Revision previous)
  | Err e => if isAuthorityNotFound e then a_ret 0 else a_err e
  end env t1 = (Ok g, t2) -> g = rp_generation v /\ t_db t2 = d.
Proof.
  intros Hok <- <- Hg Hr. destruct (reads_get _ _ _ _ _ Hg) as [Hdb _]. pose proof (lo_generation _ _ _ Hok) as Hgen.
  unfold generation_ok in Hgen. destruct x as [p|e].
  - destruct (get_Ok _ _ _ _ _ Hg) as [_ Hst]. destruct (stored_row _ _ _ _ _ Hok Hst) as (row & dig & _ & _ & Hv & _).
    rewrite Hv in Hgen. ainv. split; [by destruct Hgen | done].
  - destruct (isAuthorityNotFound e) eqn:Ee; ainv. split; [|done]. apply get_absent in Hg; [|done].
    pose proof (lo_state _ _ _ Hok (key_string purposeGenerationKey)) as Ha. rewrite Hg in Ha. unfold rows_agree in Ha.
    by destruct (rp_verified v !! _) as [[[] ]|].
Qed.

(** The generation that follows a pending extension mutation. *)
Lemma generation_settles s v env t raw r t' :
  root_ok s -> LedgerOk s v (t_db t) -> rp_pending v = log_size (t_db t) -> 0 < rp_pending v -> e_root env = s ->
  marshal_purpose (mkPurpose 1 (kind_string AuthorityExtensionConfiguration) (rp_generation v + 1) (rp_pending v)) = Some raw ->
  cas purposeGenerationKey (rp_generation v) raw false env t = (Ok r, t') -> Settled s (t_db t').
Proof.
  intros Hs Hok Hp Hpos He Hraw Hc. pose proof (lo_generation _ _ _ Hok) as Hgen. unfold generation_ok in Hgen.
  destruct (cas_Ok _ _ _ _ _ _ _ _ _ _ Hok He Hc) as [(_ & Hst & Hprev & _)|(Hpub & Ha & Hd & Hv)].
  { destruct (stored_row _ _ _ _ _ Hok Hst) as (row & dig & _ & _ & Hr & Hpr & _). rewrite Hr in Hgen. lia. }
  destruct (publication_record _ _ _ _ _ _ _ _ Hs Hpub Hv)
    as (_ & h & Hh & _ & _ & _ & _ & _ & Hk & Hrev & Hprev & Hseq & _ & Hret & Hval & _ & _ & Hr1 & Hs1).
  rewrite (lo_head _ _ _ Hok) in Hh. injection Hh as <-. cbn in Hseq.
  assert (validatePurposeGeneration r = Ok tt) as Hvalid.
  { unfold validatePurposeGeneration. rewrite Hval.
    assert (Hun := fun a b => purpose_round_trip _ raw a b Hraw). rewrite Hun by (cbn; unfold max_int64, max_uint64 in *; lia).
    cbn [pg_Format pg_Purpose pg_Generation pg_MutationSequence].
    rewrite bool_decide_eq_true_2 by done. rewrite Hret, str_eqb_refl, Hrev, !Z.eqb_refl.
    rewrite (proj2 (Z.eqb_neq (rp_pending v) 0)) by lia. unfold wrapu64. rewrite Z.mod_small by (unfold max_int64 in *; lia).
    rewrite (proj2 (Z.eqb_eq (rp_pending v + 1) (ar_Sequence r))) by lia. done. }
  edestruct (publication_ok s v) as (raw' & Hok' & _); [done | done | exact Hpub | done | done | done | | |].
  - unfold replay_purpose. rewrite Hk, Hvalid. cbn [purposeGenerationKey k_Kind].
    rewrite (bool_decide_eq_true_2 (AuthorityPurposeGeneration = AuthorityPurposeGeneration)) by done.
    rewrite (bool_decide_eq_false_2 (AuthorityPurposeGeneration = AuthorityExtensionConfiguration)) by done.
    cbn [negb]. rewrite andb_false_r. cbn [negb guard rbind is_ok orb].
    rewrite (proj2 (Z.eqb_neq (rp_pending v) 0)) by lia. rewrite (proj2 (Z.eqb_eq (ar_Sequence r) (rp_pending v + 1))) by lia.
    rewrite (proj2 (Z.eqb_eq (ar_Revision r) (rp_generation v + 1))) by lia. reflexivity.
  - intros raw'. unfold generation_ok, replayed. cbn [rp_verified rp_generation]. rewrite Hk, lookup_insert_eq.
    split; [lia|]. split; [done | lia].
  - eexists. split; [exact Hok' | done].
Qed.

Lemma remembers_advance r : remembers (advance_generation r).
Proof.
  unfold advance_generation. apply remembers_bind; [apply remembers_reads; reading | intros x].
  apply remembers_bind; [apply remembers_reads; reading | intros g].
  apply remembers_bind; [apply remembers_lift | intros raw].
  apply remembers_bind; [apply remembers_cas | intros ?]. apply remembers_reads. reading.
Qed.

Lemma advance_settled s v env t m r t' :
  root_ok s -> LedgerOk s v (t_db t) -> rp_pending v = log_size (t_db t) -> 0 < rp_pending v -> e_root env = s ->
  ar_Sequence m = rp_pending v -> advance_generation m env t = (Ok r, t') -> Settled s (t_db t').
Proof.
  intros Hs Hok Hp Hpos He Hm Hr. unfold advance_generation in Hr. ainv.
  match goal with Hg : get _ _ _ = _ |- _ => rename Hg into Hget end.
  match goal with Hg : match _ with _ => _ end _ _ = (Ok _, _) |- _ => rename Hg into Hgen end.
  match goal with Hc : cas _ _ _ _ _ _ = _ |- _ => rename Hc into Hcas end.
  destruct (generation_read _ _ _ _ _ _ _ _ _ Hok eq_refl eq_refl Hget Hgen) as [-> Hdb].
  rewrite <- Hdb in Hok, Hp. rewrite Hm in *. by eapply generation_settles.
Qed.

Lemma purpose_mutation_settled s k expected value retire env t r t' :
  root_ok s -> k_Kind k = AuthorityExtensionConfiguration -> e_root env = s ->
  purpose_mutation k expected value retire env t = (Ok r, t') -> t_faulted t' = false ->
  Settled s (t_db t) -> Settled s (t_db t').
Proof.
  intros Hs Hk He Hm Hf (v & Hok & Hp). unfold purpose_mutation in Hm. ainv.
  match goal with Hg : get k _ _ = (?x, ?y) |- _ => rename Hg into Hget, x into old, y into tg end.
  match goal with Hg : cas k _ _ _ _ _ = (Ok ?x, ?y) |- _ => rename Hg into Hcas, x into m, y into tc end.
  destruct (reads_get _ _ _ _ _ Hget) as [Hdb _]. rewrite <- Hdb in Hok.
  assert (t_faulted tg = false) as Hfg.
  { apply (remembers_cas _ _ _ _ _ _ _ _ Hcas). revert Hm. case_if; intros Hm; [by ainv|]. by apply (remembers_advance _ _ _ _ _ Hm). }
  destruct (cas_Ok _ _ _ _ _ _ _ _ _ _ Hok eq_refl Hcas) as [(Hdb' & Hst & _)|(Hpub & Ha & Hd & Hv)].
  - rewrite Hdb in Hst. rewrite (get_stored _ _ _ _ _ _ _ eq_refl Hst Hget Hfg), Z.eqb_refl in Hm. ainv.
    exists v. by rewrite Hdb'.
  - pose proof (publication_key _ _ _ _ _ _ _ _ Hpub) as Hkey.
    destruct (publication_record _ _ _ _ _ _ _ _ Hs Hpub Hv) as (_ & h & Hh & _ & _ & _ & _ & _ & _ & _ & _ & Hseq & _).
    rewrite (lo_head _ _ _ Hok) in Hh. injection Hh as <-. cbn in Hseq.
    edestruct (publication_ok (e_root env) v) as (raw & Hok' & Hsz & _ ); [done | done | exact Hpub | done | done | done | | |].
    + unfold replay_purpose. rewrite Hp, Hkey, Hk. cbn [negb Z.eqb andb guard rbind].
      rewrite bool_decide_eq_true_2 by done. reflexivity.
    + intros raw. apply generation_other; [apply (lo_generation _ _ _ Hok) | by rewrite Hkey, Hk | by rewrite Hkey, Hk].
    + destruct (match old with Ok _ => _ | Err _ => _ end) eqn:Eold.
      { destruct old as [old|]; [|done]. apply get_Ok in Hget as [_ Hst]. rewrite <- Hdb in Hst.
        destruct (stored_row _ _ _ _ _ Hok Hst) as (? & ? & _ & _ & _ & _ & Hle & _). lia. }
      eapply advance_settled; [done | exact Hok' | | | done | | exact Hm]; cbn [replayed rp_pending]; unfold log_size in *; lia.
Qed.

(** The savepoint undoes a failed mutation. *)
Lemma end_savepoint_cases saved m env t r t' :
  end_savepoint saved m env t = (r, t') -> t_faulted t' = false -> t_faulted t = false /\
  ((exists x, m = Ok x /\ r = Ok x /\ t_db t' = t_db t) \/ (exists e, m = Err e /\ r = Err e /\ t_db t' = saved)).
Proof.
  unfold end_savepoint, a_exec. intros He Hf. destruct m as [x|e], (e_stmt env (t_stmt t)); cbn in He.
  - injection He as <- <-. cbn in Hf. rewrite orb_false_r in Hf. eauto 7.
  - destruct (e_stmt env (S (t_stmt t))); cbn in He; case_if; cbn in He; injection He as <- <-; cbn in Hf;
      rewrite ?orb_true_r in Hf; done.
  - destruct (e_stmt env (S (t_stmt t))) eqn:E1; cbn in He; rewrite ?E1 in He; cbn in He; injection He as <- <-; cbn in Hf;
      rewrite ?orb_false_r, ?orb_true_r in Hf; [eauto 7 | done].
  - destruct (e_stmt env (S (t_stmt t))); cbn in He; injection He as <- <-; cbn in Hf; rewrite ?orb_true_r in Hf; done.
Qed.

Lemma extension_settled s k expected value retire env t r t' :
  root_ok s -> k_Kind k = AuthorityExtensionConfiguration -> e_root env = s ->
  casExtensionConfiguration k expected value retire env t = (r, t') -> t_faulted t' = false ->
  Settled s (t_db t) -> Settled s (t_db t').
Proof.
  intros Hs Hk He Hc Hf Hset. unfold casExtensionConfiguration in Hc.
  apply a_bind_cases in Hc as [(e & Hx & _)|(u & t1 & Hx & Hc)]; [apply exec_fault in Hx; congruence|].
  ainv. match goal with Hd : Some _ = Some ?x |- _ => injection Hd as <- end.
  destruct (purpose_mutation _ _ _ _ _ _) as [m t2] eqn:Em. cbn in Hc.
  destruct (end_savepoint_cases _ _ _ _ _ _ Hc Hf) as [Hf2 [(x & -> & _ & ->)|(e & _ & _ & ->)]]; [|done].
  by eapply (purpose_mutation_settled _ _ _ _ _ _ _ _ _ Hs Hk eq_refl Em Hf2).
Qed.
End ledger.
End AuthorityInv.
