(* ===== verification/AuthorityHistory.v ===== *)
(** * Histories of the native authority ledger

    Which rows each method of an authority transaction may change, the effect of
    every method on a settled ledger, and the machine of histories: transactions
    with arbitrary callbacks and driver outcomes, interleaved with the registry's
    own writes. *)
From Stdlib Require Import Ascii Strings.Byte ZArith Lia.
From S2P Require Import Prelude GoStrings FabricRef Framing Wire FabricModel SqlTx Encodings Authority AuthorityTx AuthorityInv.
#[local] Open Scope Z_scope.
#[local] Arguments str_eqb _ _ : simpl never.

Module AuthorityHistory.
Import Ref Frames Wire Model Authority.Authority AuthorityTx.AuthorityTx AuthorityInv.AuthorityInv.

(** ** Frames: the rows a computation may change *)
Definition same_outside (K : string -> Prop) (d d' : NDB) : Prop :=
  nd_version d' = nd_version d /\ forall key, ~ K key -> nd_state d' !! key = nd_state d !! key.

Lemma same_outside_refl K d : same_outside K d d.
Proof. by split. Qed.
Lemma same_outside_trans K d d' d'' : same_outside K d d' -> same_outside K d' d'' -> same_outside K d d''.
Proof. intros [E1 F1] [E2 F2]. split; [congruence|]. intros key Hk. by rewrite F2, F1. Qed.

Definition frames {A} (K : string -> Prop) (c : AM A) : Prop :=
  forall env t r t', c env t = (r, t') -> same_outside K (t_db t) (t_db t').

Lemma frames_reads {A} K (c : AM A) : reads c -> frames K c.
Proof. intros Hc env t r t' Hr. destruct (Hc _ _ _ _ Hr) as [-> _]. apply same_outside_refl. Qed.

Lemma frames_bind {A B} K (c : AM A) (k : A -> AM B) : frames K c -> (forall a, frames K (k a)) -> frames K (a_bind c k).
Proof.
  intros Hc Hk env t r t' Hr. apply a_bind_cases in Hr as [(e & He & _)|(a & t1 & Ha & Hr)]; [eauto|].
  eapply same_outside_trans; [by eapply Hc | by eapply Hk].
Qed.

Lemma frames_exec K f : (forall d d', f d = Some d' -> same_outside K d d') -> frames K (a_exec f).
Proof.
  intros Hf env t r t'. unfold a_exec.
  destruct (e_stmt _ _); [destruct (f _) eqn:E|]; intros [= _ <-]; cbn; eauto using same_outside_refl.
Qed.

Lemma frames_weaken {A} (K K' : string -> Prop) (c : AM A) : (forall key, K key -> K' key) -> frames K c -> frames K' c.
Proof. intros HK Hc env t r t' Hr. destruct (Hc _ _ _ _ Hr) as [E F]. split; [done|]. intros key Hn. apply F. auto. Qed.

Section frames.
Context `{Sha256, JsonDecoder, EnvelopeJson, Ed25519, AuthorityJson, AuthorityDocuments}.
Context `{!Ed25519Laws, !AuthorityJsonLaws}.

(** Every signed record bears the key it was asked for. *)
Lemma sign_next_key k expected value retire env t r raw t' :
  sign_next k expected value retire env t = (Ok (r, raw), t') -> ar_Key r = k.
Proof. unfold sign_next. intros Hs. ainv. simplify_eq. done. Qed.

Lemma frames_publish k expected value retire : frames (eq (key_string k)) (publish k expected value retire).
Proof.
  intros env t r t' Hp. unfold publish in Hp.
  apply a_bind_cases in Hp as [(e & He & _)|([x raw] & t1 & Hx & Hp)].
  - destruct (reads_sign_next _ _ _ _ _ _ _ _ He) as [-> _]. apply same_outside_refl.
  - destruct (reads_sign_next _ _ _ _ _ _ _ _ Hx) as [<- _]. apply sign_next_key in Hx as <-.
    revert env t1 r t' Hp. fold (frames (eq (key_string (ar_Key x))) (write_record x raw)).
    unfold write_record. apply frames_bind; [|intros _; apply frames_bind; [|intros _; apply frames_bind; [|intros _]]].
    + apply frames_exec. intros d d'. unfold insert_log. destruct (nd_log d !! _); [done|]. by intros [= <-].
    + apply frames_exec. intros d d' [= <-]. split; [done|]. intros key Hn. cbn. by rewrite lookup_insert_ne.
    + apply frames_exec. by intros d d' [= <-].
    + apply frames_reads. reading.
Qed.

Lemma frames_cas k expected value retire : frames (eq (key_string k)) (cas k expected value retire).
Proof.
  unfold cas. do 5 (apply frames_bind; [apply frames_reads; reading | intros ?]).
  match goal with |- frames _ (match ?x with _ => _ end) => destruct x end;
    (case_if; [by apply frames_reads; reading|]); apply frames_bind;
    first [by apply frames_reads; reading | intros ?; apply frames_publish].
Qed.

(** An extension mutation also advances the intrinsic generation. *)
Definition extension_rows (k : AuthorityKey) (key : string) : Prop :=
  key_string k = key \/ key_string purposeGenerationKey = key.

Lemma frames_advance r : frames (eq (key_string purposeGenerationKey)) (advance_generation r).
Proof.
  unfold advance_generation. do 3 (apply frames_bind; [apply frames_reads; reading | intros ?]).
  apply frames_bind; [apply frames_cas | intros ?; apply frames_reads; reading].
Qed.

Lemma frames_mutation k expected value retire : frames (extension_rows k) (purpose_mutation k expected value retire).
Proof.
  unfold purpose_mutation. apply frames_bind; [apply frames_reads; reading | intros old].
  apply frames_bind; [eapply frames_weaken; [|apply frames_cas]; by left | intros r].
  case_if; [apply frames_reads; reading|].
  eapply frames_weaken; [|apply frames_advance]. by right.
Qed.

Lemma frames_savepoint K saved m env t r t' :
  end_savepoint saved m env t = (r, t') -> same_outside K saved (t_db t) -> same_outside K saved (t_db t').
Proof.
  unfold end_savepoint, a_exec. intros He Hkey. destruct m as [x|e]; destruct (e_stmt env (t_stmt t)); cbn in He;
    repeat (case_if; cbn in He); injection He as _ <-; cbn; done.
Qed.

Lemma frames_extension k expected value retire : frames (extension_rows k) (casExtensionConfiguration k expected value retire).
Proof.
  unfold casExtensionConfiguration. apply frames_bind; [apply frames_exec; by intros d d' [= <-]|].
  intros _ env t r t' Hc. destruct (purpose_mutation _ _ _ _ _ _) as [m t1] eqn:Em.
  eapply frames_savepoint; [exact Hc|]. by eapply frames_mutation.
Qed.

Lemma frames_CAS k expected value retire :
  frames (fun key => key_string k = key \/ (k_Kind k = AuthorityExtensionConfiguration /\ key_string purposeGenerationKey = key))
    (CAS k expected value retire).
Proof.
  unfold CAS. do 2 (apply frames_bind; [apply frames_reads; reading | intros ?]).
  case_if; [apply frames_reads; reading|]. case_if; rinv.
  - eapply frames_weaken; [|apply frames_cas]. by left.
  - eapply frames_weaken; [|apply frames_extension]. intros key [?|?]; auto.
Qed.
End frames.

(** ** Settled ledgers stay settled *)
Section settles.
Context `{Sha256, JsonDecoder, EnvelopeJson, Ed25519, AuthorityJson, AuthorityDocuments}.
Context `{!Ed25519Laws, !AuthorityJsonLaws}.
Context (s : Root) (Hroot : root_ok s).

(** Without a driver fault, a settled ledger is left settled. *)
Definition settles {A} (c : AM A) : Prop :=
  forall env t r t', e_root env = s -> c env t = (r, t') -> t_faulted t' = false ->
  t_faulted t = false /\ (Settled s (t_db t) -> Settled s (t_db t')).

Lemma settles_reads {A} (c : AM A) : reads c -> settles c.
Proof. intros Hc env t r t' _ Hr Hf. destruct (Hc _ _ _ _ Hr) as [-> Hf']. auto. Qed.

Lemma settles_bind {A B} (c : AM A) (k : A -> AM B) : settles c -> (forall a, settles (k a)) -> settles (a_bind c k).
Proof.
  intros Hc Hk env t r t' He Hr Hf. apply a_bind_cases in Hr as [(e & Hx & _)|(a & t1 & Ha & Hr)]; [eauto|].
  destruct (Hk _ _ _ _ _ He Hr Hf) as [Hf1 Hst]. destruct (Hc _ _ _ _ He Ha Hf1). auto.
Qed.

Lemma settles_cas k expected value retire :
  k_Kind k <> AuthorityExtensionConfiguration -> k_Kind k <> AuthorityPurposeGeneration -> settles (cas k expected value retire).
Proof.
  intros Hk1 Hk2 env t r t' He Hr Hf. split; [by eapply remembers_cas|]. by eapply cas_settled.
Qed.

Lemma remembers_extension k expected value retire : remembers (casExtensionConfiguration k expected value retire).
Proof.
  unfold casExtensionConfiguration. apply remembers_bind; [apply remembers_exec|]. intros _ env t r t' Hc Hf.
  destruct (purpose_mutation _ _ _ _ _ _) as [m t1] eqn:Em.
  apply end_savepoint_cases in Hc as [Hf1 _]; [|done]. unfold purpose_mutation in Em. revert Em Hf1.
  assert (remembers (purpose_mutation k expected value retire)) as Hm.
  { unfold purpose_mutation. apply remembers_bind; [apply remembers_reads; reading | intros old].
    apply remembers_bind; [apply remembers_cas | intros x]. case_if; [apply remembers_reads; reading | apply remembers_advance]. }
  apply Hm.
Qed.

Lemma settles_CAS k expected value retire : settles (CAS k expected value retire).
Proof.
  unfold CAS. do 2 (apply settles_bind; [apply settles_reads; reading | intros ?]).
  case_if; [apply settles_reads; reading|]. case_if; rinv; [by apply settles_cas|].
  intros env t r t' He Hr Hf. split; [by eapply remembers_extension|]. by eapply extension_settled.
Qed.

Lemma settles_claim key raw : k_Kind key = AuthorityNativeCheckpoint -> settles (retain_claim key raw).
Proof.
  intros Hk. unfold retain_claim. do 2 (apply settles_bind; [apply settles_reads; reading | intros ?]).
  match goal with |- settles (match ?x with _ => _ end) => destruct x end; [apply settles_reads; reading|].
  case_if; [apply settles_reads; reading|].
  apply settles_bind; [apply settles_cas; by rewrite Hk | intros ?; apply settles_reads; reading].
Qed.

Lemma settles_dispatch c original finalized f prepared : settles (SignDispatchAdmission c original finalized f prepared).
Proof.
  unfold SignDispatchAdmission. do 10 (apply settles_bind; [apply settles_reads; reading | intros ?]).
  apply settles_bind; [|intros ?; apply settles_reads; reading].
  unfold claimOriginalDispatch. do 3 (apply settles_bind; [apply settles_reads; reading | intros ?]).
  match goal with |- settles (match ?x with _ => _ end) => destruct x as [[o|]|] end; [|apply settles_reads; reading..].
  do 5 (apply settles_bind; [apply settles_reads; reading | intros ?]). by apply settles_claim.
Qed.

Lemma settles_method {R} (c : Call R) : settles (method c).
Proof.
  destruct c; cbn [method]; try (apply settles_reads; solve [reading]).
  - apply settles_CAS.
  - apply settles_dispatch.
  - unfold RecordDeferredAdmission. do 8 (apply settles_bind; [apply settles_reads; reading | intros ?]). apply settles_CAS.
Qed.

Lemma run_callback_settled {A} (p : Callback A) : forall env t r t' signed,
  e_root env = s -> run_callback p env t = (r, t', signed) -> t_faulted t' = false ->
  t_faulted t = false /\ (Settled s (t_db t) -> Settled s (t_db t')).
Proof.
  induction p as [x| |R c k IH]; intros env t r t' signed He Hr Hf; cbn in Hr.
  - by injection Hr as _ <- _.
  - by injection Hr as _ <- _.
  - destruct (method c env t) as [x t1] eqn:Em, (run_callback (k x) env t1) as [[a t2] signed'] eqn:Ek.
    injection Hr as _ <- _. destruct (IH _ _ _ _ _ _ He Ek Hf) as [Hf1 Hst].
    destruct (settles_method _ _ _ _ _ He Em Hf1). auto.
Qed.

(** A new schema is settled. *)
Lemma schema_settled d d' : create_schema d = Some d' -> Settled s d'.
Proof.
  intros [= <-]. exists replay0. split; [|done]. pose proof (root_limits s Hroot).
  assert (log_size (mkNDB 2 (nd_objects d) (Some (mkHead 0 zero32 0 0)) ∅ ∅) = 0) as Hz by done.
  constructor; rewrite ?Hz; try done; try (cbn; lia). change (0 <= MaxLedgerBytes (rt_Limits s)). lia.
Qed.
End settles.

(** ** Histories *)

(** The keys of the dispatch claims, which only SignDispatchAdmission uses. *)
Definition claim_key (k : AuthorityKey) : bool :=
  bool_decide (k_Kind k = AuthorityNativeCheckpoint) && has_prefix (k_ID k) "original-dispatch/".

(** A callback that leaves the claims to SignDispatchAdmission. *)
Fixpoint respects {A} (p : Callback A) : Prop :=
  match p with
  | Return _ | Panic => True
  | Invoke c k => match c with CallCAS key _ _ _ => claim_key key = false | _ => True end /\ forall r, respects (k r)
  end.

Section history.
Context `{Sha256, JsonDecoder, EnvelopeJson, Ed25519, AuthorityJson, AuthorityDocuments}.

(** The registry's own writes leave the ledger alone; the adoption of reference
    handles raises the version, after the schema. *)
Definition same_ledger (d d' : NDB) : Prop :=
  nd_head d' = nd_head d /\ nd_log d' = nd_log d /\ nd_state d' = nd_state d /\
  (nd_version d' = nd_version d \/ (2 <= nd_version d /\ nd_version d' = 3)).

(** The tables and the admissions that left with a commit, after any number of
    transactions with any callbacks, contexts and driver outcomes. A transaction in
    which the driver failed a statement does not commit. With [guarded] the
    callbacks respect the dispatch claims. *)
Inductive history (s : Root) (guarded : bool) : NDB -> list Issued -> Prop :=
| HistoryNew d : nd_version d = 1 -> nd_state d = ∅ -> history s guarded d []
| HistoryRegistry d d' signed : history s guarded d signed -> same_ledger d d' -> history s guarded d' signed
| HistorySchema d d' signed :
    history s guarded d signed -> nd_version d = 1 -> create_schema d = Some d' -> history s guarded d' signed
| HistoryTx d d' signed (A : Type) (p : Callback A) io owner scope r new :
    history s guarded d signed -> ro_commit io true = CommitLost -> (guarded = true -> respects p) ->
    WithNativeAuthority s io owner scope p d = (r, d', new) -> history s guarded d' (signed ++ new).

(** The cases of a transaction: nothing, or the committed state of its callback. *)
Lemma authority_transaction_cases {A} s io owner scope (p : Callback A) d r d' new :
  WithNativeAuthority s io owner scope p d = (r, d', new) -> ro_commit io true = CommitLost ->
  (d' = d /\ new = []) \/
  exists env t1 t2 a, e_root env = s /\ (let+ _ := check_scope in migrate) env (mkTxState d 0 false true 0 None) = (Ok tt, t1) /\
    run_callback p env t1 = (Ok a, t2, new) /\ t_faulted t2 = false /\ d' = t_db t2.
Proof.
  unfold WithNativeAuthority. intros Hw Hcommit. cbv zeta in Hw.
  case_if; [injection Hw as _ <- <-; by left|]. destruct (authorize s owner); [|injection Hw as _ <- <-; by left].
  case_if; [injection Hw as _ <- <-; by left|].
  set (env := mkEnv s (normal_scope scope) (ro_stmt io) (ro_ctx io)) in *.
  destruct ((let+ _ := check_scope in migrate) env _) as [[[]|e] t1] eqn:E1; [|injection Hw as _ <- <-; by left].
  destruct (run_callback p env t1) as [[[x|e] t2] signed] eqn:E2; [|injection Hw as _ <- <-; by left].
  destruct (t_failure t2); [injection Hw as _ <- <-; by left|]. case_if; [injection Hw as _ <- <-; by left|].
  destruct (t_faulted t2) eqn:Ef; [rewrite Hcommit in Hw; injection Hw as _ <- <-; by left|].
  destruct (ro_commit io false); injection Hw as _ <- <-; [right | by left | right]; by exists env, t1, t2, x.
Qed.

Lemma migrate_cases env t u t' :
  (let+ _ := check_scope in migrate) env t = (Ok u, t') ->
  (t_db t' = t_db t /\ (nd_version (t_db t) = 2 \/ nd_version (t_db t) = 3)) \/
  (nd_version (t_db t) = 1 /\ create_schema (t_db t) = Some (t_db t')).
Proof.
  intros Hm. apply a_bind_Ok in Hm as ([] & t1 & Hc & Hm). destruct (reads_check_scope _ _ _ _ Hc) as [<- _].
  unfold migrate in Hm. apply a_bind_Ok in Hm as (version & t2 & Hv & Hm). ainv. case_if.
  - right. ainv. split; [by apply Z.eqb_eq | done].
  - left. ainv. split; [done|]. rinv. rewrite orb_true_iff, !Z.eqb_eq in *. lia.
Qed.
End history.

(** ** Dispatch claims are never replaced *)
Section claims.
Context `{Sha256, JsonDecoder, EnvelopeJson, Ed25519, AuthorityJson, AuthorityDocuments}.

Definition claim_text (principal : Principal) (invocation : string) : string := key_string (originalDispatchKey principal invocation).

Definition claims_kept (d d' : NDB) : Prop :=
  nd_version d' = nd_version d /\
  forall p id row, nd_state d !! claim_text p id = Some row -> nd_state d' !! claim_text p id = Some row.

Lemma claims_kept_refl d : claims_kept d d.
Proof. by split. Qed.
Lemma claims_kept_trans d d' d'' : claims_kept d d' -> claims_kept d' d'' -> claims_kept d d''.
Proof. intros [E1 F1] [E2 F2]. split; [congruence | eauto]. Qed.

Definition holds {A} (c : AM A) : Prop := forall env t r t', c env t = (r, t') -> claims_kept (t_db t) (t_db t').

Lemma holds_reads {A} (c : AM A) : reads c -> holds c.
Proof. intros Hc env t r t' Hr. destruct (Hc _ _ _ _ Hr) as [-> _]. apply claims_kept_refl. Qed.
Lemma holds_bind {A B} (c : AM A) (k : A -> AM B) : holds c -> (forall a, holds (k a)) -> holds (a_bind c k).
Proof.
  intros Hc Hk env t r t' Hr. apply a_bind_cases in Hr as [(e & He & _)|(a & t1 & Ha & Hr)]; [eauto|].
  eapply claims_kept_trans; [by eapply Hc | by eapply Hk].
Qed.

Lemma holds_lift {A B} (x : result AErr A) (k : A -> AM B) : (forall a, x = Ok a -> holds (k a)) -> holds (a_bind (a_lift x) k).
Proof.
  intros Hk env t r t'. unfold a_bind, a_lift. destruct x as [a|e]; [by apply Hk|]. intros [= _ <-]. apply claims_kept_refl.
Qed.

Lemma kept_outside K d d' : same_outside K d d' -> (forall p id, ~ K (claim_text p id)) -> claims_kept d d'.
Proof. intros [E F] HK. split; [done|]. intros p id row Hr. by rewrite F. Qed.

(** Only a claim key has the text of a claim. *)
Lemma claim_text_key domain k p id : key_valid domain k = true -> key_string k = claim_text p id -> claim_key k = true.
Proof.
  unfold key_valid. intros Hv E. rinv. pose proof (key_string_kind k (originalDispatchKey p id) ltac:(eassumption) eq_refl E) as Hk. cbn in Hk.
  rewrite Hk in *. cbn [globalAuthorityKind] in *.
  match goal with Hr : str_eqb (ref_String _) "" = true |- _ => apply str_eqb_eq in Hr; rename Hr into Href end.
  unfold claim_text, key_string in E. rewrite Hk, Href in E. cbn in E. simplify_eq.
  unfold claim_key. rewrite Hk, bool_decide_eq_true_2 by done. cbn [andb].
  match goal with Hid : k_ID k = _ |- _ => rewrite Hid end. apply (has_prefix_append "original-dispatch/").
Qed.

Lemma holds_CAS k expected value retire : claim_key k = false -> holds (CAS k expected value retire).
Proof.
  intros Hk env t r t' Hc. destruct (key_in_scope env k) eqn:Es.
  - eapply kept_outside; [by eapply frames_CAS|]. unfold key_in_scope in Es. rinv.
    match goal with Hv : key_valid _ k = true |- _ => rename Hv into Hvalid end.
    intros p id [E|[Hx E]].
    + apply (claim_text_key _ _ _ _ Hvalid) in E. congruence.
    + apply key_string_kind in E; done.
  - apply (holds_reads (A := AuthorityRecord)) with (c := let+ _ := guard_tx in let+ _ := check_key k in a_err ADriver) (env := env) (r := r);
      [reading|]. unfold CAS, a_bind in Hc |- *. destruct (guard_tx env t) as [[[]|] t1]; [|done].
    unfold check_key, a_bind, a_env, a_guard, a_lift in *. rewrite Es in *. done.
Qed.

Lemma holds_claim p id raw : holds (retain_claim (originalDispatchKey p id) raw).
Proof.
  intros env t r t' Hr. unfold retain_claim in Hr.
  apply a_bind_cases in Hr as [(e & He & _)|(x & t1 & Hx & Hr)]; [done|]. unfold a_env in Hx. injection Hx as <- <-.
  apply a_bind_cases in Hr as [(e & He & _)|(found & t1 & Hx & Hr)].
  { destruct (reads_try _ (reads_get _) _ _ _ _ He) as [-> _]. apply claims_kept_refl. }
  apply a_try_Ok in Hx. destruct (reads_get _ _ _ _ _ Hx) as [Hdb _]. rewrite <- Hdb.
  destruct found as [old|e]; [by eapply holds_reads; [|exact Hr]; reading|].
  destruct (negb _) eqn:Ee; [by eapply holds_reads; [|exact Hr]; reading|]. rinv.
  apply get_absent in Hx; [|done]. rewrite <- Hdb in Hx.
  assert (same_outside (eq (claim_text p id)) (t_db t1) (t_db t')) as [E F].
  { eapply (frames_bind (eq (claim_text p id))); [apply frames_cas | | exact Hr]. intros ?. apply frames_reads. reading. }
  split; [done|]. intros p' id' row Hrow. destruct (decide (claim_text p' id' = claim_text p id)) as [Heq|Hne].
  - rewrite Heq in Hrow. unfold claim_text in Hrow. congruence.
  - by rewrite F.
Qed.

Lemma holds_dispatch c original finalized f prepared : holds (SignDispatchAdmission c original finalized f prepared).
Proof.
  unfold SignDispatchAdmission. do 10 (apply holds_bind; [apply holds_reads; reading | intros ?]).
  apply holds_bind; [|intros ?; apply holds_reads; reading].
  unfold claimOriginalDispatch. do 3 (apply holds_bind; [apply holds_reads; reading | intros ?]).
  match goal with |- holds (match ?x with _ => _ end) => destruct x as [[o|]|] end; [|apply holds_reads; reading..].
  do 5 (apply holds_bind; [apply holds_reads; reading | intros ?]). apply holds_claim.
Qed.

Lemma holds_deferred caller original v : holds (RecordDeferredAdmission caller original v).
Proof.
  unfold RecordDeferredAdmission. do 2 (apply holds_bind; [apply holds_reads; reading | intros ?]).
  apply holds_lift. intros key Hk. unfold deferredKey in Hk. rinv.
  do 5 (apply holds_bind; [apply holds_reads; reading | intros ?]). by apply holds_CAS.
Qed.

Lemma run_callback_version {A} (p : Callback A) : forall env t r t' signed,
  run_callback p env t = (r, t', signed) -> nd_version (t_db t') = nd_version (t_db t).
Proof.
  induction p as [x| |R c k IH]; intros env t r t' signed Hr; cbn in Hr; [by injection Hr as _ <- _..|].
  destruct (method c env t) as [x t1] eqn:Em, (run_callback (k x) env t1) as [[a t2] signed'] eqn:Ek.
  injection Hr as _ <- _. rewrite (IH _ _ _ _ _ _ Ek). revert Em.
  destruct c; cbn [method]; intros Em; try (by eapply (frames_reads (fun _ => True)); [|exact Em]; solve [reading]).
  - by eapply frames_CAS.
  - by eapply holds_dispatch.
  - by eapply holds_deferred.
Qed.

Lemma run_callback_holds {A} (p : Callback A) : respects p ->
  forall env t r t' signed, run_callback p env t = (r, t', signed) -> claims_kept (t_db t) (t_db t').
Proof.
  induction p as [x| |R c k IH]; intros Hp env t r t' signed Hr; cbn in Hr.
  - injection Hr as _ <- _. apply claims_kept_refl.
  - injection Hr as _ <- _. apply claims_kept_refl.
  - destruct Hp as [Hc Hk], (method c env t) as [x t1] eqn:Em, (run_callback (k x) env t1) as [[a t2] signed'] eqn:Ek.
    injection Hr as _ <- _. eapply claims_kept_trans; [|by eapply IH]. revert Em.
    destruct c; cbn [method]; intros Em; try (by eapply holds_reads; [|exact Em]; solve [reading]).
    + by eapply holds_CAS.
    + by eapply holds_dispatch.
    + by eapply holds_deferred.
Qed.
End claims.

(** ** Reopening *)
Section reopen.
Context `{Sha256, JsonDecoder, EnvelopeJson, Ed25519, AuthorityJson, AuthorityDocuments}.
Context `{!Ed25519Laws, !AuthorityJsonLaws}.
Context (s : Root) (Hroot : root_ok s).

Definition ledger_state (d : NDB) : Prop :=
  (nd_version d = 1 /\ nd_state d = ∅) \/ (2 <= nd_version d <= 3 /\ Settled s d).

Lemma settled_same d d' : nd_head d' = nd_head d -> nd_log d' = nd_log d -> nd_state d' = nd_state d -> Settled s d -> Settled s d'.
Proof.
  intros Hh Hl Hs (v & Hok & Hp). exists v. split; [|done]. destruct Hok as [h1 h2 h3 h4 h5 h6 h7 h8 h9].
  unfold log_size, log_bytes, log_rows in *.
  constructor; unfold log_size, log_bytes, log_rows; rewrite ?Hh, ?Hl, ?Hs; done.
Qed.

(** A successful CAS leaves its record stored. *)
Lemma cas_stored k expected value retire env t r t' v :
  LedgerOk s v (t_db t) -> e_root env = s -> cas k expected value retire env t = (Ok r, t') ->
  stored s (t_db t') k r /\ ar_Value r = value /\ ar_Retired r = retire /\ ar_PreviousRevision r = expected.
Proof.
  intros Hok He Hc. destruct (cas_Ok _ _ _ _ _ _ _ _ _ _ Hok He Hc) as [(-> & Hst & ? & ? & ?)|(Hpub & _ & _ & Hv)]; [done|].
  destruct (publication_record _ _ _ _ _ _ _ _ Hroot Hpub Hv)
    as (raw & h & _ & -> & _ & Hun & Hb & _ & Hk & _ & Hprev & _ & _ & Hret & Hval & _).
  split; [|done]. eexists. rewrite <- Hk. split; [apply lookup_insert_eq|]. cbn. by rewrite decode_row, Hun by lia.
Qed.

Lemma retain_stored key raw env t t' : Settled s (t_db t) -> e_root env = s ->
  retain_claim key raw env t = (Ok tt, t') -> exists r, stored s (t_db t') key r /\ ar_Value r = raw.
Proof.
  intros (v & Hok & _) He Hr. revert He. unfold retain_claim in Hr. ainv. intros He.
  match goal with Hg : get key _ _ = (?x, ?y) |- _ => rename Hg into Hget, x into found, y into tg end.
  destruct (reads_get _ _ _ _ _ Hget) as [Hdb _]. destruct found as [old|e].
  - destruct (get_Ok _ _ _ _ _ Hget) as [_ Hst]. rewrite He in Hst. clear He. ainv. rinv. exists old. rewrite Hdb. done.
  - case_if; [done|]. revert He. ainv. intros He. match goal with Hc : cas _ _ _ _ _ _ = _ |- _ => rename Hc into Hcas end.
    rewrite <- Hdb in Hok. destruct (cas_stored _ _ _ _ _ _ _ _ _ Hok He Hcas) as (Hst & Hval & _). by eexists.
Qed.

(** ** The admissions that left are backed by their claims *)
Definition claimed (d : NDB) (i : Issued) : Prop :=
  exists r claim frame, stored s d (originalDispatchKey (is_Principal i) (af_InvocationID (is_frame i))) r /\
    marshal_claim claim = Some (ar_Value r) /\ dc_OriginalSHA claim = sha256 (is_original i) /\
    dc_FinalizedSHA claim = sha256 (is_finalized i) /\ Admission_SigningBytes (is_frame i) = Ok frame /\
    dc_DispatchSHA claim = sha256 frame /\ is_signature i = ed_Sign (rt_Key s) frame /\
    af_FinalizedDispatchDigest (is_frame i) = sha256 (is_finalized i).

Lemma claimed_kept d d' i : claims_kept d d' -> claimed d i -> claimed d' i.
Proof.
  intros [_ Hk] (r & claim & frame & (row & Hrow & Hst) & Hc). exists r, claim, frame. split; [|done]. exists row.
  split; [|done]. by apply Hk.
Qed.

Lemma claim_stored c original finalized dispatch e env t t' :
  Settled s (t_db t) -> e_root env = s -> claimOriginalDispatch c original finalized dispatch e env t = (Ok tt, t') ->
  exists r claim, stored s (t_db t') (originalDispatchKey (ec_principal c) (v_ID e)) r /\ marshal_claim claim = Some (ar_Value r) /\
    dc_OriginalSHA claim = sha256 original /\ dc_FinalizedSHA claim = sha256 finalized /\ dc_DispatchSHA claim = sha256 dispatch.
Proof.
  intros Hset He Hr. revert He. unfold claimOriginalDispatch in Hr. ainv.
  match goal with Hl : loadObject _ _ _ = (?x, ?y) |- _ => apply reads_load in Hl as [Hdb _]; rename x into found, y into tl end.
  rewrite <- Hdb in Hset. destruct found as [[o|]|]; [|ainv..]. ainv. intros He.
  match goal with Hc : retain_claim _ _ _ _ = _ |- _ => destruct (retain_stored _ _ _ _ _ Hset He Hc) as (r & Hst & <-) end.
  eexists r, _. by split_and!.
Qed.

Lemma dispatch_claimed c original finalized f prepared env t signature t' :
  Settled s (t_db t) -> e_root env = s ->
  SignDispatchAdmission c original finalized f prepared env t = (Ok signature, t') ->
  claimed (t_db t') (mkIssued (ec_principal c) original finalized f signature).
Proof.
  intros Hset He Hr. unfold SignDispatchAdmission in Hr.
  apply a_bind_Ok in Hr as ([] & t1 & Hg & Hr). apply reads_guard_tx in Hg as [E1 _]. rewrite <- E1 in Hset. clear E1.
  revert He. ainv. intros He.
  match goal with Hv : verifyInvocationTarget _ _ _ _ _ _ = _ |- _ => apply reads_target in Hv as [Hdb _]; rewrite <- Hdb in Hset end.
  match goal with Hc : claimOriginalDispatch _ _ _ ?x ?e _ _ = (Ok ?u, _) |- _ =>
    destruct u, (claim_stored _ _ _ _ _ _ _ _ Hset He Hc) as (r & claim & Hst & Hm & Ho & Hf & Hd); rename x into frame, e into after end.
  assert (af_InvocationID f = v_ID after /\ af_FinalizedDispatchDigest f = sha256 finalized) as [Hid Hdigest]
    by (rinv; split; [by apply str_eqb_eq | done]).
  match goal with Hs : Ok frame = fabric _ |- _ => unfold fabric in Hs; destruct (Admission_SigningBytes f) eqn:Ef; [|done]; injection Hs as <- end.
  exists r, claim, frame. cbn. rewrite Hid, He. by split_and!.
Qed.

Lemma run_callback_claimed {A} (p : Callback A) : respects p -> forall env t r t' signed,
  e_root env = s -> run_callback p env t = (r, t', signed) -> t_faulted t' = false -> Settled s (t_db t) ->
  Forall (claimed (t_db t')) signed.
Proof.
  induction p as [x| |R c k IH]; intros Hp env t r t' signed He Hr Hf Hset; cbn in Hr.
  - injection Hr as _ _ <-. constructor.
  - injection Hr as _ _ <-. constructor.
  - destruct Hp as [Hc Hk], (method c env t) as [x t1] eqn:Em, (run_callback (k x) env t1) as [[a t2] signed'] eqn:Ek.
    injection Hr as _ <- <-. destruct (run_callback_settled s Hroot _ _ _ _ _ _ He Ek Hf) as [Hf1 _].
    destruct (settles_method s Hroot _ _ _ _ _ He Em Hf1) as [_ Hset1].
    pose proof (run_callback_holds _ (Hk x) _ _ _ _ _ Ek) as Hkept.
    apply Forall_app. split; [|eapply IH; eauto]. destruct c; try constructor. cbn in *. destruct x as [sig|]; [|constructor].
    constructor; [|constructor]. eapply claimed_kept; [exact Hkept|]. by eapply dispatch_claimed.
Qed.

(** ** The invariant of histories *)
Lemma new_unclaimed d i : ledger_state d -> nd_version d = 1 -> claimed d i -> False.
Proof.
  intros [[_ Hs]|[? _]] Hv; [|lia]. intros (x & claim & frame & (row & Hrow & _) & _).
  by rewrite Hs, lookup_empty in Hrow.
Qed.

Lemma authority_history_ok guarded d signed : history s guarded d signed ->
  ledger_state d /\ (guarded = true -> Forall (claimed d) signed).
Proof.
  induction 1 as [d Hv Hs|d d' signed Hh [IH1 IH2] (Hh' & Hl & Hs & Hv)|d d' signed Hh [IH1 IH2] Hv Hc
                 |d d' signed A p io owner scope r new Hh [IH1 IH2] Hio Hp Hw].
  - split; [by left | by constructor].
  - split.
    + destruct IH1 as [[E1 E2]|[E1 E2]]; [left | right].
      * split; [lia | congruence].
      * split; [lia|]. by apply (settled_same d).
    + intros Hg. eapply Forall_impl; [by apply IH2|]. intros i (x & claim & frame & (row & Hrow & Hst) & Hc).
      exists x, claim, frame. split; [|done]. exists row. by rewrite Hs.
  - split; [right; split; [by injection Hc as <-; cbn; lia | by eapply schema_settled]|].
    intros Hg. eapply Forall_impl; [by apply IH2|]. intros i Hi. exfalso. by eapply new_unclaimed.
  - destruct (authority_transaction_cases _ _ _ _ _ _ _ _ _ Hw Hio) as [[-> ->]|(env & t1 & t2 & a & He & Hm & Hr & Hf & ->)];
      [by rewrite app_nil_r|].
    assert (2 <= nd_version (t_db t1) <= 3 /\ Settled s (t_db t1) /\ forall i, claimed d i -> claimed (t_db t1) i) as (Hv & Hset & Hcl).
    { apply migrate_cases in Hm as [(-> & Hv)|(Hv & Hc)]; cbn [t_db] in *.
      - destruct IH1 as [[? _]|[? ?]]; [lia | done].
      - split; [by injection Hc as <-; cbn; lia|]. split; [by eapply schema_settled|]. intros i Hi. exfalso. by eapply new_unclaimed. }
    pose proof (run_callback_version _ _ _ _ _ _ Hr) as Hv2. split.
    + right. split; [lia|]. by eapply run_callback_settled.
    + intros Hg. apply Forall_app. split; [|by eapply run_callback_claimed; eauto].
      eapply Forall_impl; [by apply IH2|]. intros i Hi. eapply claimed_kept; [by eapply run_callback_holds; eauto | auto].
Qed.
End reopen.
End AuthorityHistory.
