(* ===== verification/AuthorityProps.v ===== *)
(** * The native authority ledger: what it guarantees

    Reopening accepts every history, an original invocation has at most one signed
    dispatch, two ledgers with the same head have the same history, and [CAS]
    refines a map of revisions with final tombstones. *)
From Stdlib Require Import Ascii Strings.Byte ZArith Lia.
From S2P Require Import Prelude GoStrings FabricRef Framing Wire FabricModel SqlTx Encodings Authority AuthorityTx AuthorityInv AuthorityHistory.
#[local] Open Scope Z_scope.
#[local] Arguments str_eqb _ _ : simpl never.

Module AuthorityProps.
Import Ref Frames FrameLaws FrameProps Wire Model Authority.Authority AuthorityTx.AuthorityTx AuthorityInv.AuthorityInv AuthorityHistory.AuthorityHistory.

(** json.Marshal of a claim writes each digest as an array of 32 numbers, so the
    text determines them. *)
Class ClaimLaws `{AuthorityDocuments} :=
  claim_digests : forall c c' raw,
    (length (dc_OriginalSHA c) = 32 /\ length (dc_FinalizedSHA c) = 32 /\ length (dc_DispatchSHA c) = 32)%nat ->
    (length (dc_OriginalSHA c') = 32 /\ length (dc_FinalizedSHA c') = 32 /\ length (dc_DispatchSHA c') = 32)%nat ->
    marshal_claim c = Some raw -> marshal_claim c' = Some raw ->
    dc_OriginalSHA c = dc_OriginalSHA c' /\ dc_FinalizedSHA c = dc_FinalizedSHA c' /\ dc_DispatchSHA c = dc_DispatchSHA c'.

Section props.
Context `{Sha256, JsonDecoder, EnvelopeJson, Ed25519, AuthorityJson, AuthorityDocuments}.
Context `{!Ed25519Laws, !AuthorityJsonLaws, !ClaimLaws}.

(** ** Reopening *)
Lemma row_ok_matches s n key row v : row_ok s n key row v -> row_matches s {[key := v]} key row = true.
Proof.
  intros (-> & Hb & _). unfold row_matches, bounded_record. rewrite (proj2 (Z.leb_le _ _)) by lia.
  rewrite lookup_singleton_eq. rewrite (proj2 (Z.eqb_neq _ _)), Z.eqb_refl, eqb_reflx, bool_decide_eq_true_2 by (done || lia).
  done.
Qed.

Lemma row_matches_lookup s m key row :
  row_matches s m key row = match m !! key with Some v => row_matches s {[key := v]} key row | None => false end.
Proof. unfold row_matches. destruct (m !! key); [by rewrite lookup_singleton_eq | done]. Qed.

Lemma settled_verified s d : Settled s d -> verifyNativeAuthority s d = Ok tt.
Proof.
  intros (v & [Hh Hr Hk Hn Hrec Hby Hp Hst _] & Hpend). unfold verifyNativeAuthority. rewrite Hh. cbn [of_option rbind hr_records hr_sequence hr_bytes hr_head].
  fold (log_size d). fold (log_bytes d). rewrite !Z.eqb_refl, Hp, !(proj2 (Z.ltb_ge _ _)) by done. cbn [negb orb guard rbind].
  rewrite Hr. cbn [rbind]. rewrite Hpend, bool_decide_eq_true_2 by done. cbn [Z.eqb guard rbind].
  assert (forallb (fun kv => row_matches s (rp_verified v) kv.1 kv.2) (map_to_list (nd_state d)) = true) as ->.
  { apply forallb_forall. intros [key row] Hin%list_elem_of_In%elem_of_map_to_list. cbn. specialize (Hst key).
    rewrite Hin in Hst. rewrite row_matches_lookup. unfold rows_agree in Hst.
    destruct (rp_verified v !! key); [by eapply row_ok_matches | done]. }
  cbn [guard rbind]. assert (size (nd_state d) = size (rp_verified v)) as ->; [|by rewrite Nat.eqb_refl].
  rewrite <- !size_dom. f_equal. apply set_eq. intros key. rewrite !elem_of_dom. specialize (Hst key). unfold rows_agree in Hst.
  destruct (nd_state d !! key), (rp_verified v !! key); try done; split; intros []; done.
Qed.

(** C12. Whatever sequence of authority transactions a root has run, with any
    callbacks (that handle or ignore errors, or panic), any context expirations, any
    failed statements and any failed or ambiguous commits, provided that a transaction in
    which the driver failed a statement was not committed ([history]; what happens
    otherwise is shown by [ignored_read_error_breaks_ledger]), reopening accepts its
    ledger: the whole signed history replays, every signature verifies, every extension
    mutation has its generation, and the head, the quotas and the materialized rows are
    exactly those of the history. *)
Theorem reopen_accepts_every_history (s : Root) (guarded : bool) (d : NDB) (signed : list Issued) :
  root_ok s -> history s guarded d signed -> 2 <= nd_version d -> verifyNativeAuthority s d = Ok tt.
Proof.
  intros Hs Hh Hv. destruct (authority_history_ok s Hs guarded d signed Hh) as [[[? _]|[_ Hset]] _]; [lia | by apply settled_verified].
Qed.

(** ** One dispatch per original invocation *)
Lemma stored_fun s d k r r' : stored s d k r -> stored s d k r' -> r = r'.
Proof. intros (row & Hr & Hd & _) (row' & Hr' & Hd' & _). congruence. Qed.

(** C11. An original invocation is dispatched at most once. In any history of
    transactions whose callbacks leave the original-dispatch keys to
    SignDispatchAdmission, and in which no transaction with a failed statement was
    committed, two dispatch admissions signed for the same principal and invocation name
    the same original and the same finalized request (by SHA-256), and their signing frames
    have the same digest: unless the two frames are a SHA-256 collision, they are the same
    admission with the same signature. *)
Theorem one_dispatch_per_invocation (s : Root) (d : NDB) (signed : list Issued) (i j : Issued) :
  root_ok s -> history s true d signed -> i ∈ signed -> j ∈ signed ->
  is_Principal i = is_Principal j -> af_InvocationID (is_frame i) = af_InvocationID (is_frame j) ->
  sha256 (is_original i) = sha256 (is_original j) /\ sha256 (is_finalized i) = sha256 (is_finalized j) /\
  exists fi fj, Admission_SigningBytes (is_frame i) = Ok fi /\ Admission_SigningBytes (is_frame j) = Ok fj /\
    sha256 fi = sha256 fj /\ (fi = fj -> is_frame i = is_frame j /\ is_signature i = is_signature j).
Proof.
  intros Hs Hh Hi Hj Hp Hid. destruct (authority_history_ok s Hs true d signed Hh) as [_ Hc]. specialize (Hc eq_refl).
  rewrite Forall_forall in Hc.
  destruct (Hc _ Hi) as (r & c & fi & Hst & Hm & Ho & Hf & Hfi & Hd & Hsig & Hdig).
  destruct (Hc _ Hj) as (r' & c' & fj & Hst' & Hm' & Ho' & Hf' & Hfj & Hd' & Hsig' & Hdig').
  rewrite Hp, Hid in Hst. pose proof (stored_fun _ _ _ _ _ Hst Hst') as <-.
  destruct (claim_digests c c' (ar_Value r)) as (E1 & E2 & E3);
    [rewrite Ho, Hf, Hd, !sha256_length; done | rewrite Ho', Hf', Hd', !sha256_length; done | done | done |].
  rewrite Ho, Ho' in E1. rewrite Hf, Hf' in E2. rewrite Hd, Hd' in E3. split; [done|]. split; [done|].
  exists fi, fj. split_and!; try done. intros <-. split; [|congruence].
  assert (forall x, af_FinalizedDispatchDigest (is_frame x) = sha256 (is_finalized x) -> admission_ok (is_frame x)) as Hok.
  { intros x Hx. unfold admission_ok, arr32. rewrite Hx. apply sha256_length. }
  pose proof (admission_round _ _ (Hok _ Hdig) Hfi). pose proof (admission_round _ _ (Hok _ Hdig') Hfj). congruence.
Qed.

(** ** The head determines the history *)

(** A record one of the tables retains. *)
Definition retained (d : NDB) (raw : list byte) : Prop :=
  (exists i, nd_log d !! i = Some raw) \/ (exists key row, nd_state d !! key = Some row /\ sr_record row = raw).

(** Two retained records that collide under SHA-256. *)
Definition collision (d d' : NDB) : Prop :=
  exists raw raw', retained d raw /\ retained d' raw' /\ raw <> raw' /\ sha256 raw = sha256 raw'.

Lemma replay_snoc s v l x w : replay s v (l ++ [x]) = Ok w ->
  exists u, replay s v l = Ok u /\ replay_step s u x = Ok w.
Proof.
  rewrite replay_app. intros (u & Hu & Hx)%rbind_Ok. exists u. split; [done|]. cbn in Hx.
  apply rbind_Ok in Hx as (w' & Hw & [= <-]). done.
Qed.

Lemma replay_head_inj s l : forall l' v v', length l = length l' -> replay s replay0 l = Ok v -> replay s replay0 l' = Ok v' ->
  rp_previous v = rp_previous v' ->
  l = l' \/ exists x x', x ∈ l /\ x' ∈ l' /\ x.2 <> x'.2 /\ sha256 x.2 = sha256 x'.2.
Proof.
  induction l as [|[i raw] l IH] using rev_ind; intros l' v v' Hlen Hr Hr' Hp.
  - destruct l'; [by left | done].
  - destruct l' as [|[i' raw'] l' _] using rev_ind; [rewrite length_app in Hlen; cbn in Hlen; lia|].
    rewrite !length_app in Hlen. cbn in Hlen.
    apply replay_snoc in Hr as (u & Hu & Hx). apply replay_snoc in Hr' as (u' & Hu' & Hx').
    apply replay_step_Ok in Hx as (r & g & p & _ & Hun & _ & Hi & Hprev & _ & _ & _ & _ & _ & ->).
    apply replay_step_Ok in Hx' as (r' & g' & p' & _ & Hun' & _ & Hi' & Hprev' & _ & _ & _ & _ & _ & ->).
    cbn in Hp. destruct (decide (raw = raw')) as [<-|Hne].
    + rewrite Hun in Hun'. injection Hun' as <-. destruct (IH l' u u') as [->|(x & x' & Hx & Hx' & Hc)]; [lia | done | done | congruence | |].
      * left. by rewrite <- Hi, <- Hi'.
      * right. exists x, x'. rewrite !elem_of_app. auto.
    + right. exists (i, raw), (i', raw'). rewrite !elem_of_app, !list_elem_of_singleton. auto.
Qed.

(** What a verified ledger consists of. *)
Lemma verified_parts s d : verifyNativeAuthority s d = Ok tt ->
  exists h v, nd_head d = Some h /\ log_size d = hr_sequence h /\ replay s replay0 (log_rows d) = Ok v /\
    rp_previous v = hr_head h /\
    (forall key row, nd_state d !! key = Some row -> row_matches s (rp_verified v) key row = true) /\
    size (nd_state d) = size (rp_verified v).
Proof.
  unfold verifyNativeAuthority. intros Hv. fold (log_size d) in Hv. apply rbind_Ok in Hv as (h & Hh%of_option_Some & Hv).
  apply rbind_Ok in Hv as ([] & Hg & Hv). apply rbind_Ok in Hv as (v & Hr & Hv). do 3 apply rbind_Ok in Hv as ([] & ? & Hv). rinv.
  exists h, v. split_and!; try done; try lia.
  - intros key row Hk. match goal with Hf : forallb _ _ = true |- _ => rewrite forallb_forall in Hf; apply (Hf (key, row)) end.
    by apply list_elem_of_In, elem_of_map_to_list.
Qed.

Lemma length_log_rows d : Z.of_nat (length (log_rows d)) = log_size d.
Proof. unfold log_rows, log_size. rewrite merge_sort_Permutation, length_map_to_list. done. Qed.

Lemma log_rows_inj d d' : log_rows d = log_rows d' -> nd_log d = nd_log d'.
Proof.
  intros E. apply map_eq. intros i. apply option_eq. intros raw. by rewrite <- !log_rows_elem, E.
Qed.

#[local] Instance state_row_eq_dec : EqDecision StateRow.
Proof. solve_decision. Defined.

Lemma state_differs (m m' : gmap string StateRow) : m <> m' -> exists k, m !! k <> m' !! k.
Proof.
  intros Hne. destruct (decide (set_Forall (fun k => m !! k = m' !! k) (dom m ∪ dom m'))) as [Hall|Hn].
  - exfalso. apply Hne, map_eq. intros k. destruct (decide (k ∈ dom m ∪ dom m')) as [Hk|Hk]; [by apply Hall|].
    apply not_elem_of_union in Hk as [Hk1%not_elem_of_dom Hk2%not_elem_of_dom]. congruence.
  - apply not_set_Forall_Exists in Hn; [|apply _]. destruct Hn as (k & _ & Hk). eauto.
Qed.

(** Rows that match one replayed history agree, or collide. *)
Lemma rows_match_agree s m key row row' :
  row_matches s m key row = true -> row_matches s m key row' = true ->
  row = row' \/ (sr_record row <> sr_record row' /\ sha256 (sr_record row) = sha256 (sr_record row')).
Proof.
  unfold row_matches, bounded_record. destruct (m !! key) as [[[rev ret] dig]|]; [|done].
  destruct (blen (sr_record row) <=? _), (blen (sr_record row') <=? _); try done. intros Hr Hr'. rinv.
  destruct row as [a b c], row' as [a' b' c']. cbn in *.
  destruct (decide (c = c')) as [->|Hne]; [left | right; split; [done | congruence]].
  repeat match goal with Hb : eqb _ _ = true |- _ => apply eqb_prop in Hb end. f_equal; [lia | congruence].
Qed.

(** C13. The head of a ledger determines everything it retains: two databases that
    pass verification with the same head row have the same signed history and the
    same materialized rows, or among the records they retain are two different ones
    with the same SHA-256. Nothing signed can be dropped, reordered, replaced or
    rolled back under a known head. *)
Theorem head_determines_ledger (s : Root) (d d' : NDB) :
  verifyNativeAuthority s d = Ok tt -> verifyNativeAuthority s d' = Ok tt -> nd_head d = nd_head d' ->
  (nd_log d = nd_log d' /\ nd_state d = nd_state d') \/ collision d d'.
Proof.
  intros Hv Hv' Hhead. apply verified_parts in Hv as (h & v & Hh & Hn & Hr & Hp & Hst & Hsz).
  apply verified_parts in Hv' as (h' & v' & Hh' & Hn' & Hr' & Hp' & Hst' & Hsz').
  rewrite Hh, Hh' in Hhead. injection Hhead as <-.
  destruct (replay_head_inj s (log_rows d) (log_rows d') v v') as [E|([i x] & [j x'] & Hx & Hx' & Hne & Hsha)]; try done.
  { pose proof (length_log_rows d). pose proof (length_log_rows d'). lia. }
  { congruence. }
  - rewrite E in Hr. assert (v = v') as <- by congruence. apply log_rows_inj in E.
    destruct (decide (nd_state d = nd_state d')) as [Es|Es]; [by left|]. right.
    apply state_differs in Es as [key Hkey].
    assert (forall x : NDB, (forall key row, nd_state x !! key = Some row -> row_matches s (rp_verified v) key row = true) ->
      size (nd_state x) = size (rp_verified v) -> dom (nd_state x) = dom (rp_verified v)) as Hdom.
    { intros x Hm Hs. apply set_eq. apply set_subseteq_size_equiv; [|by rewrite !size_dom, Hs].
      intros k [row Hk]%elem_of_dom. apply Hm in Hk. unfold row_matches in Hk. apply elem_of_dom.
      by destruct (rp_verified v !! k). }
    assert (dom (nd_state d) = dom (nd_state d')) as Hd by (rewrite !Hdom; done).
    destruct (nd_state d !! key) as [row|] eqn:E1, (nd_state d' !! key) as [row'|] eqn:E2; [| | |done].
    + destruct (rows_match_agree s (rp_verified v) key row row') as [->|[? ?]]; [by apply Hst | by apply Hst' | done |].
      exists (sr_record row), (sr_record row'). split_and!; [right; eauto | right; eauto | done | done].
    + apply not_elem_of_dom in E2. rewrite <- Hd in E2. by apply elem_of_dom_2 in E1.
    + apply not_elem_of_dom in E1. rewrite Hd in E1. by apply elem_of_dom_2 in E2.
  - right. apply log_rows_elem in Hx, Hx'. exists x, x'. split_and!; [left; eauto | left; eauto | done | done].
Qed.

(** ** CAS refines a map of revisions *)

(** The revision, tombstone and value a key currently has. *)
Definition current (s : Root) (d : NDB) (k : AuthorityKey) : option (Z * bool * list byte) :=
  match nd_state d !! key_string k with
  | None => None
  | Some row =>
      match decodeAuthority s (bounded_record s (sr_record row)) with
      | Ok r => Some (ar_Revision r, ar_Retired r, ar_Value r)
      | Err _ => None
      end
  end.

(** The specification: create revision 1, repeat an applied change exactly, or
    replace a live revision by the next one; [None] is a conflict. *)
Definition spec_cas (cur : option (Z * bool * list byte)) (expected : Z) (value : list byte) (retire : bool) :
    option (Z * bool * list byte) :=
  match cur with
  | None => if (expected =? 0) && negb retire then Some (1, false, value) else None
  | Some (revision, retired, old) =>
      if (revision =? expected + 1) && eqb retired retire && bool_decide (old = value) then cur
      else if negb retired && (revision =? expected) then Some (revision + 1, retire, value) else None
  end.

Lemma stored_current s d k r : stored s d k r -> current s d k = Some (ar_Revision r, ar_Retired r, ar_Value r).
Proof. intros (row & Hrow & Hdec & _). unfold current. by rewrite Hrow, Hdec. Qed.

Lemma cas_spec s v k expected value retire env t r t' :
  root_ok s -> LedgerOk s v (t_db t) -> e_root env = s -> cas k expected value retire env t = (Ok r, t') ->
  current s (t_db t') k = Some (ar_Revision r, ar_Retired r, ar_Value r) /\
  spec_cas (current s (t_db t) k) expected value retire = current s (t_db t') k.
Proof.
  intros Hs Hok He Hc. destruct (cas_stored s Hs _ _ _ _ _ _ _ _ _ Hok He Hc) as (Hst & Hval & Hret & Hprev).
  pose proof (stored_current _ _ _ _ Hst) as Hcur. split; [done|]. rewrite Hcur.
  destruct (cas_Ok _ _ _ _ _ _ _ _ _ _ Hok He Hc) as [(Hdb & Hst' & _)|(Hpub & Ha & _ & Hv)].
  - rewrite (stored_current _ _ _ _ Hst'). cbn. destruct (stored_row _ _ _ _ _ Hok Hst') as (_ & _ & _ & _ & _ & Hp & _).
    rewrite (proj2 (Z.eqb_eq _ _)) by lia. rewrite Hret, Hval, eqb_reflx, bool_decide_eq_true_2 by done. done.
  - destruct (publication_record _ _ _ _ _ _ _ _ Hs Hpub Hv) as (_ & h & _ & _ & _ & _ & _ & _ & Hk & Hrev & _).
    unfold cas_allowed in Ha. rewrite Hk in Ha. pose proof (lo_state _ _ _ Hok (key_string k)) as Hag.
    unfold current, rows_agree in *. destruct (nd_state (t_db t) !! key_string k) as [row|], (rp_verified v !! key_string k) as [[[rev ret] dig]|];
      try done.
    + destruct Hag as ([= -> -> ->] & Hb & r0 & Hun & _ & Hr0 & _ & Ht0 & _). rewrite decode_row, Hun by lia. cbn.
      destruct Ha as [Hlive Heq]. rewrite Ht0, Hlive, Hr0, Heq, Hprev.
      rewrite (proj2 (Z.eqb_neq expected (expected + 1))) by lia. cbn. rewrite Z.eqb_refl. by rewrite Hrev, Hret, Hval.
    + destruct Ha as [Hz Hnr]. cbn. rewrite Hprev in Hz. rewrite Hret in Hnr. rewrite Hz, Hnr. cbn.
      rewrite Hrev, Hval, Hret, Hz, Hnr. done.
Qed.

Lemma current_outside s K d d' k : same_outside K d d' -> ~ K (key_string k) -> current s d' k = current s d k.
Proof. intros [_ F] Hn. unfold current. by rewrite F. Qed.

(** The extension mutation: the generation leaves the mutated key alone. *)
Lemma mutation_spec s v k expected value retire env t r t' :
  root_ok s -> LedgerOk s v (t_db t) -> e_root env = s -> k_Kind k = AuthorityExtensionConfiguration ->
  purpose_mutation k expected value retire env t = (Ok r, t') ->
  current s (t_db t') k = Some (ar_Revision r, ar_Retired r, ar_Value r) /\
  spec_cas (current s (t_db t) k) expected value retire = current s (t_db t') k.
Proof.
  intros Hs Hok He Hk Hm. unfold purpose_mutation in Hm.
  apply a_bind_Ok in Hm as (old & tg & Hg%a_try_Ok & Hm). destruct (reads_get _ _ _ _ _ Hg) as [Hdb _].
  rewrite <- Hdb in Hok. apply a_bind_Ok in Hm as (m & tc & Hc & Hm).
  destruct (cas_spec _ _ _ _ _ _ _ _ _ _ Hs Hok He Hc) as [Hcur Hspec]. rewrite Hdb in Hspec.
  destruct (match old with Ok _ => _ | Err _ => _ end).
  - apply a_ret_Ok in Hm as [-> ->]. done.
  - assert (current s (t_db t') k = current s (t_db tc) k) as ->.
    { eapply current_outside; [by eapply frames_advance|]. intros E. apply key_string_kind in E; [|done | by rewrite Hk].
      by rewrite Hk in E. }
    assert (r = m) as -> by (unfold advance_generation in Hm; ainv; done). done.
Qed.

Lemma CAS_spec s v k expected value retire env t r t' :
  root_ok s -> LedgerOk s v (t_db t) -> e_root env = s -> CAS k expected value retire env t = (Ok r, t') -> t_faulted t' = false ->
  current s (t_db t') k = Some (ar_Revision r, ar_Retired r, ar_Value r) /\
  spec_cas (current s (t_db t) k) expected value retire = current s (t_db t') k.
Proof.
  intros Hs Hok He Hc Hf. unfold CAS in Hc. apply a_bind_Ok in Hc as ([] & t1 & Hg & Hc). apply a_bind_Ok in Hc as ([] & t2 & Hk & Hc).
  apply reads_guard_tx in Hg as [E1 _]. apply reads_check_key in Hk as [E2 _]. rewrite <- E1, <- E2 in Hok |- *.
  case_if; [done|]. case_if; [by eapply cas_spec|].
  match goal with Hb : negb (bool_decide (_ = AuthorityExtensionConfiguration)) = false |- _ =>
    apply negb_false_iff, bool_decide_eq_true_1 in Hb; rename Hb into Hkind end.
  unfold casExtensionConfiguration in Hc.
  apply a_bind_Ok in Hc as ([] & t3 & Hx & Hc). apply a_exec_Ok in Hx as (_ & d & [= <-] & ->).
  destruct (purpose_mutation _ _ _ _ _ _) as [m t4] eqn:Em.
  destruct (end_savepoint_cases _ _ _ _ _ _ Hc Hf) as [_ [(x & -> & [= <-] & ->)|(? & _ & ? & _)]]; [|done].
  exact (mutation_spec s v _ _ _ _ _ (set_db (tick t2 false) (t_db t2)) _ _ Hs Hok He Hkind Em).
Qed.

(** An error leaves the tables alone. *)
Lemma CAS_Err k expected value retire env t e t' :
  CAS k expected value retire env t = (Err e, t') -> t_faulted t' = false -> t_db t' = t_db t.
Proof.
  intros Hc Hf. unfold CAS in Hc. apply a_bind_cases in Hc as [(e' & Hg & _)|([] & t1 & Hg & Hc)];
    [by apply reads_guard_tx in Hg as [? _]|].
  apply reads_guard_tx in Hg as [<- _]. apply a_bind_cases in Hc as [(e' & Hg & _)|([] & t2 & Hg & Hc)];
    [by apply reads_check_key in Hg as [? _]|]. apply reads_check_key in Hg as [<- _].
  case_if; [by injection Hc as _ <-|]. case_if; [by eapply cas_Err|]. unfold casExtensionConfiguration in Hc.
  apply a_bind_cases in Hc as [(e' & Hx & _)|([] & t3 & Hx & Hc)]; [apply exec_fault in Hx; congruence|].
  apply a_exec_Ok in Hx as (_ & d & [= <-] & ->). destruct (purpose_mutation _ _ _ _ _ _) as [m t4].
  by destruct (end_savepoint_cases _ _ _ _ _ _ Hc Hf) as [_ [(? & _ & ? & _)|(? & _ & _ & ->)]].
Qed.

(** ** When CAS refuses *)

(** Why the next record cannot be appended to a ledger with head [h]. *)
Inductive unpublishable (s : Root) (h : HeadRow) (r : AuthorityRecord) : AErr -> Prop :=
| Exhausted : max_int64 <= hr_sequence h -> unpublishable s h r (invalid "Native authority head invalid")
| Unsigned e : signingBytes r = Err e -> unpublishable s h r e
| Unencoded sign : signingBytes r = Ok sign -> marshal_record (set_signature r (ed_Sign (rt_Key s) sign)) = None ->
    unpublishable s h r jsonError
| Full sign raw : signingBytes r = Ok sign -> marshal_record (set_signature r (ed_Sign (rt_Key s) sign)) = Some raw ->
    MaxRecords (rt_Limits s) <= hr_records h \/ MaxLedgerBytes (rt_Limits s) - hr_bytes h < blen raw ->
    unpublishable s h r (invalid "Native authority ledger capacity reached").

(** Why a change of the key [k] is refused on the tables [d]. *)
Inductive refused (s : Root) (env : Env) (d : NDB) (k : AuthorityKey) (expected : Z) (value : list byte) (retire : bool) :
    AErr -> Prop :=
| RefusedHistory : sc_HistoryOnly (e_scope env) = true -> k_Kind k ∉ [AuthoritySource; AuthorityRetirement] ->
    refused s env d k expected value retire (invalid "History-only scope cannot publish new native authority")
| RefusedBounds : max_int64 <= expected \/ MaxPayloadBytes (rt_Limits s) < blen value ->
    refused s env d k expected value retire (invalid "Native authority mutation exceeds bounds")
| RefusedValue e : decode_value s value = Err e -> refused s env d k expected value retire e
| RefusedForeign row r : nd_state d !! key_string k = Some row -> unmarshal_record (sr_record row) = Some r -> ar_Key r <> k ->
    refused s env d k expected value retire (invalid "Native authority key mismatch")
| RefusedConflict : spec_cas (current s d k) expected value retire = None ->
    refused s env d k expected value retire (conflict "Native authority CAS or tombstone conflict")
| RefusedPublication h e : spec_cas (current s d k) expected value retire = Some (expected + 1, retire, value) ->
    nd_head d = Some h -> unpublishable s h (next_record s k expected value retire h) e ->
    refused s env d k expected value retire e.

(** Why the method refuses: the transaction is over, the key is not the caller's, the
    change itself, or the generation that belongs to an extension's change. *)
Inductive CAS_refused (s : Root) (env : Env) (t : TxState) (k : AuthorityKey) (expected : Z) (value : list byte) (retire : bool) :
    AErr -> Prop :=
| RefusedFailed e : t_failure t = Some e -> CAS_refused s env t k expected value retire e
| RefusedClosed : t_active t = false ->
    CAS_refused s env t k expected value retire (invalid "Native authority transaction is closed")
| RefusedContext : e_ctx env (t_operations t) = false -> CAS_refused s env t k expected value retire AContext
| RefusedBudget : sc_MaxOperations (e_scope env) <= t_operations t ->
    CAS_refused s env t k expected value retire (invalid "Native authority transaction operation budget exceeded")
| RefusedScope : key_in_scope env k = false ->
    CAS_refused s env t k expected value retire (invalid "Native authority key outside declared scope")
| RefusedIntrinsic : k_Kind k = AuthorityPurposeGeneration ->
    CAS_refused s env t k expected value retire (invalid "Intrinsic purpose generation cannot be published by callers")
| RefusedChange e : refused s env (t_db t) k expected value retire e -> CAS_refused s env t k expected value retire e
| RefusedGeneration t0 m t1 e t2 : k_Kind k = AuthorityExtensionConfiguration -> t_db t0 = t_db t ->
    cas k expected value retire env t0 = (Ok m, t1) -> advance_generation m env t1 = (Err e, t2) -> t_faulted t2 = false ->
    CAS_refused s env t k expected value retire e.

Lemma query_fault {A} (f : NDB -> A) env t e t' : a_query f env t = (Err e, t') -> t_faulted t' = true.
Proof. unfold a_query. destruct (e_stmt _ _); intros [= _ <-]; cbn; by rewrite orb_true_r. Qed.

Lemma a_guard_eq b e env t r t' : a_guard b e env t = (r, t') <-> r = guard b e /\ t' = t.
Proof. apply a_lift_eq. Qed.

Lemma log_bytes_nonneg d : 0 <= log_bytes d.
Proof. apply msum_nonneg. intros i raw _. apply blen_nonneg. Qed.

Lemma sign_next_Err s v k expected value retire env t e t' :
  LedgerOk s v (t_db t) -> e_root env = s -> sign_next k expected value retire env t = (Err e, t') -> t_faulted t' = false ->
  exists h, nd_head (t_db t) = Some h /\ unpublishable s h (next_record s k expected value retire h) e.
Proof.
  intros Hok <- Hr Hf. unfold sign_next in Hr. unfold a_bind at 1, a_env at 1 in Hr. cbv beta iota zeta in Hr.
  apply a_bind_cases in Hr as [(e' & Hq & _)|(row & t1 & Hq & Hr)]; [apply query_fault in Hq; congruence|].
  apply a_query_Ok in Hq as (_ & -> & ->). rewrite (lo_head _ _ _ Hok) in Hr |- *. eexists. split; [done|].
  unfold a_lift at 1, a_bind at 1, of_option at 1 in Hr.
  apply a_bind_cases in Hr as [(e' & [Hg ->]%a_guard_eq & [= <-])|([] & t2 & [_ ->]%a_guard_eq & Hr)].
  { symmetry in Hg. apply guard_Err in Hg as [Hg ->]. constructor. cbn in Hg |- *. rewrite (lo_previous _ _ _ Hok) in Hg.
    pose proof (log_bytes_nonneg (t_db t)). unfold log_size in *. rinv. lia. }
  cbv zeta in Hr.
  apply a_bind_cases in Hr as [(e' & [Hs ->]%a_lift_eq & [= <-])|(sign & t3 & [Hs ->]%a_lift_eq & Hr)]; [by apply Unsigned|].
  apply a_bind_cases in Hr as [(e' & [Hm ->]%a_lift_eq & [= <-])|(raw & t3 & [Hm ->]%a_lift_eq & Hr)].
  { destruct (marshal_record _) eqn:Em; [done|]. injection Hm as ->. by eapply Unencoded. }
  symmetry in Hm. apply of_option_Some in Hm.
  apply a_bind_cases in Hr as [(e' & [Hg ->]%a_guard_eq & [= <-])|([] & t3 & _ & Hr)]; [|done].
  symmetry in Hg. apply guard_Err in Hg as [Hg ->]. eapply Full; [done..|]. cbn in Hg |- *. rinv.
  apply orb_true_iff in Hg as [?|?]; lia.
Qed.

Lemma publish_refused s v k expected value retire env t e t' :
  LedgerOk s v (t_db t) -> e_root env = s -> publish k expected value retire env t = (Err e, t') -> t_faulted t' = false ->
  spec_cas (current s (t_db t) k) expected value retire = Some (expected + 1, retire, value) ->
  refused s env (t_db t) k expected value retire e.
Proof.
  intros Hok He Hp Hf Hspec. unfold publish in Hp. apply a_bind_cases in Hp as [(e' & Hp & [= <-])|(x & t1 & _ & Hp)].
  - destruct (sign_next_Err _ _ _ _ _ _ _ _ _ _ Hok He Hp Hf) as (h & Hh & Hu). by eapply RefusedPublication.
  - apply write_Err in Hp. congruence.
Qed.

(** What a read of a verified ledger finds. *)
Lemma get_found s v k env t x t' :
  LedgerOk s v (t_db t) -> e_root env = s -> get k env t = (x, t') -> t_faulted t' = false ->
  match x with
  | Ok r => current s (t_db t) k = Some (ar_Revision r, ar_Retired r, ar_Value r) /\ ar_PreviousRevision r = ar_Revision r - 1
  | Err e => (e = absent /\ current s (t_db t) k = None) \/
      (e = invalid "Native authority key mismatch" /\ exists row r, nd_state (t_db t) !! key_string k = Some row /\
         unmarshal_record (sr_record row) = Some r /\ ar_Key r <> k)
  end.
Proof.
  intros Hok <- Hg Hf. destruct x as [r|e].
  { destruct (get_Ok _ _ _ _ _ Hg) as [_ Hst]. destruct (stored_row _ _ _ _ _ Hok Hst) as (_ & _ & _ & _ & _ & Hp & _).
    split; [by apply stored_current | done]. }
  unfold get in Hg. unfold a_bind at 1, a_env at 1 in Hg. cbv beta iota zeta in Hg.
  apply a_bind_cases in Hg as [(e' & Hq & _)|(row & t1 & Hq & Hg)]; [apply query_fault in Hq; congruence|].
  apply a_query_Ok in Hq as (_ & -> & ->). pose proof (lo_state _ _ _ Hok (key_string k)) as Ha. unfold current.
  destruct (nd_state (t_db t) !! key_string k) as [row|]; [|left; by injection Hg as <- _].
  unfold rows_agree in Ha. destruct (rp_verified v !! key_string k) as [x|]; [|done].
  destruct Ha as (_ & Hb & r0 & Hun & _). rewrite decode_row, Hun in Hg by lia.
  unfold a_lift at 1, a_bind at 1, of_option at 1 in Hg.
  apply a_bind_cases in Hg as [(e' & [Hg' ->]%a_guard_eq & [= <-])|([] & t2 & _ & Hg)]; [|done].
  symmetry in Hg'. apply guard_Err in Hg' as [Hk ->]. apply bool_decide_eq_false_1 in Hk. right. eauto 6.
Qed.

Lemma cas_refused s v k expected value retire env t e t' :
  LedgerOk s v (t_db t) -> e_root env = s -> cas k expected value retire env t = (Err e, t') -> t_faulted t' = false ->
  refused s env (t_db t) k expected value retire e.
Proof.
  intros Hok <- Hc Hf. unfold cas in Hc. unfold a_bind at 1, a_env at 1 in Hc. cbv beta iota zeta in Hc.
  apply a_bind_cases in Hc as [(e' & [Hg ->]%a_guard_eq & [= <-])|([] & t1 & [_ ->]%a_guard_eq & Hc)].
  { symmetry in Hg. apply guard_Err in Hg as [Hg ->]. rinv. apply RefusedHistory; [done|]. set_solver. }
  apply a_bind_cases in Hc as [(e' & [Hg ->]%a_guard_eq & [= <-])|([] & t1 & [_ ->]%a_guard_eq & Hc)].
  { symmetry in Hg. apply guard_Err in Hg as [Hg ->]. apply RefusedBounds. rinv. apply orb_true_iff in Hg as [?|?]; lia. }
  apply a_bind_cases in Hc as [(e' & [Hd ->]%a_lift_eq & [= <-])|(u & t1 & [_ ->]%a_lift_eq & Hc)]; [by apply RefusedValue|].
  apply a_bind_cases in Hc as [(e' & Hx & _)|(found & tg & Hget%a_try_Ok & Hc)];
    [unfold a_try in Hx; by destruct (get k env t)|].
  destruct (reads_get _ _ _ _ _ Hget) as [Hdb _].
  assert (t_faulted tg = false) as Hfg.
  { destruct found as [old|e']; [destruct (_ && _) in Hc; [discriminate Hc|] | destruct (negb _) in Hc; [by injection Hc as _ ->|]];
      exact (remembers_bind _ _ (remembers_lift _) (fun _ => remembers_publish _ _ _ _) _ _ _ _ Hc Hf). }
  pose proof (get_found _ _ _ _ _ _ _ Hok eq_refl Hget Hfg) as Hfound. rewrite <- Hdb in Hok.
  destruct found as [old|e'].
  - destruct Hfound as [Hcur Hprev].
    destruct ((ar_PreviousRevision old =? expected) && eqb (ar_Retired old) retire && bool_decide (ar_Value old = value)) eqn:Hsame; [done|].
    assert ((ar_Revision old =? expected + 1) = (ar_PreviousRevision old =? expected)) as Heq.
    { apply eq_true_iff_eq. rewrite !Z.eqb_eq. lia. }
    apply a_bind_cases in Hc as [(e' & [Hg ->]%a_guard_eq & [= <-])|([] & t1 & [Hg ->]%a_guard_eq & Hc)];
      symmetry in Hg; [apply guard_Err in Hg as [Hg ->]|apply guard_Ok in Hg].
    + apply RefusedConflict. rewrite Hcur. cbn. rewrite Heq, Hsame. apply negb_false_iff in Hg.
      by destruct (ar_Retired old), (ar_Revision old =? expected).
    + rewrite <- Hdb. eapply publish_refused; [done..|]. rewrite Hdb, Hcur. cbn. rewrite Heq, Hsame. rinv.
      match goal with Hr : ar_Retired old = false, He : (ar_Revision old =? expected) = true |- _ =>
        rewrite Hr, He; apply Z.eqb_eq in He as -> end. done.
  - destruct Hfound as [[-> Hcur]|(-> & row & r & Hrow & Hun & Hk)].
    2:{ cbn in Hc. injection Hc as <- _. by eapply RefusedForeign. }
    cbn [isAuthorityNotFound absent negb] in Hc.
    rewrite bool_decide_eq_true_2 in Hc by done. cbn [negb] in Hc.
    apply a_bind_cases in Hc as [(e' & [Hg ->]%a_guard_eq & [= <-])|([] & t1 & [Hg ->]%a_guard_eq & Hc)];
      symmetry in Hg; [apply guard_Err in Hg as [Hg ->]|apply guard_Ok in Hg].
    + apply RefusedConflict. rewrite Hcur. cbn. apply negb_false_iff in Hg. by destruct (expected =? 0), retire.
    + rewrite <- Hdb. eapply publish_refused; [done..|]. rewrite Hdb, Hcur. cbn. rinv.
      match goal with He : (expected =? 0) = true |- _ => rewrite He; apply Z.eqb_eq in He as -> end. done.
Qed.

Lemma guard_tx_cases env t r t' : guard_tx env t = (r, t') ->
  t_db t' = t_db t /\
  match r with
  | Ok _ => True
  | Err e => t_failure t = Some e \/ (t_active t = false /\ e = invalid "Native authority transaction is closed") \/
      (e_ctx env (t_operations t) = false /\ e = AContext) \/
      (sc_MaxOperations (e_scope env) <= t_operations t /\ e = invalid "Native authority transaction operation budget exceeded")
  end.
Proof.
  unfold guard_tx. destruct (t_failure t) as [e|]; [intros [= <- <-]; eauto|].
  destruct (t_active t); cbn [negb]; [|intros [= <- <-]; eauto].
  destruct (e_ctx env (t_operations t)); cbn [negb]; [|intros [= <- <-]; eauto 7].
  cbn [t_operations count_operation]. destruct (Z.ltb_spec (sc_MaxOperations (e_scope env)) (t_operations t + 1)); intros [= <- <-];
    [|done]. split; [done|]. do 3 right. split; [lia | done].
Qed.

Lemma mutation_refused s v k expected value retire env t e t' :
  LedgerOk s v (t_db t) -> e_root env = s -> k_Kind k = AuthorityExtensionConfiguration ->
  purpose_mutation k expected value retire env t = (Err e, t') -> t_faulted t' = false ->
  refused s env (t_db t) k expected value retire e \/
  exists t0 m t1, t_db t0 = t_db t /\ cas k expected value retire env t0 = (Ok m, t1) /\ advance_generation m env t1 = (Err e, t').
Proof.
  intros Hok He Hk Hm Hf. unfold purpose_mutation in Hm.
  apply a_bind_cases in Hm as [(e' & Hx & _)|(old & tg & Hg%a_try_Ok & Hm)]; [unfold a_try in Hx; by destruct (get k env t)|].
  destruct (reads_get _ _ _ _ _ Hg) as [Hdb _]. rewrite <- Hdb in Hok.
  apply a_bind_cases in Hm as [(e' & Hc & [= <-])|(m & tc & Hc & Hm)].
  - left. rewrite <- Hdb. by eapply cas_refused.
  - right. destruct (match old with Ok _ => _ | Err _ => _ end); [done|]. by exists tg, m, tc.
Qed.

(** A call that the driver does not fail refuses for one of the reasons above. *)
Lemma CAS_Err_refused s v k expected value retire env t e t' :
  LedgerOk s v (t_db t) -> e_root env = s -> CAS k expected value retire env t = (Err e, t') -> t_faulted t' = false ->
  CAS_refused s env t k expected value retire e.
Proof.
  intros Hok He Hc Hf. unfold CAS in Hc. apply a_bind_cases in Hc as [(e' & Hg & [= <-])|([] & t1 & Hg & Hc)];
    apply guard_tx_cases in Hg as [Hdb Hg].
  { destruct Hg as [?|[[? ->]|[[? ->]|[? ->]]]]; by constructor. }
  apply a_bind_cases in Hc as [(e' & Hk & [= <-])|([] & t2 & Hk & Hc)];
    unfold check_key in Hk; unfold a_bind at 1, a_env at 1 in Hk; cbv beta iota zeta in Hk; apply a_guard_eq in Hk as [Hk ->].
  { symmetry in Hk. apply guard_Err in Hk as [Hk ->]. by apply RefusedScope. }
  case_if; [injection Hc as <- _; apply RefusedIntrinsic; by rinv|]. rewrite <- Hdb in Hok.
  case_if.
  { apply RefusedChange. rewrite <- Hdb. by eapply cas_refused. }
  rinv. unfold casExtensionConfiguration in Hc.
  apply a_bind_cases in Hc as [(e' & Hx & _)|([] & t3 & Hx & Hc)]; [apply exec_fault in Hx; congruence|].
  apply a_exec_Ok in Hx as (_ & d & [= <-] & ->). destruct (purpose_mutation _ _ _ _ _ _) as [m t4] eqn:Em.
  destruct (end_savepoint_cases _ _ _ _ _ _ Hc Hf) as [Hf4 [(? & _ & ? & _)|(e4 & -> & [= <-] & _)]]; [done|].
  match goal with Hkind : k_Kind k = AuthorityExtensionConfiguration |- _ =>
    destruct (mutation_refused _ v _ _ _ _ _ (set_db (tick t1 false) (t_db t1)) _ _ Hok eq_refl Hkind Em Hf4)
      as [Href|(t0 & m & t5 & Hdb0 & Hcas & Hadv)] end.
  - apply RefusedChange. by rewrite <- Hdb.
  - eapply RefusedGeneration; [done| |exact Hcas|exact Hadv|done]. by rewrite Hdb0.
Qed.

(** C14. Compare-and-set is exactly that. On a settled ledger (as every history leaves
    it), a CAS call during which the driver fails no statement leaves a settled ledger, and
    either succeeds or refuses. A success returns the record that is now current, with the
    revision, tombstone and value the specification prescribes from what was current
    before: revision 1 for a new key, the next revision of a live one, or an exact
    repetition; no other key changes, except the intrinsic generation when the key is an
    extension's configuration. A refusal changes nothing, even when the generation of an
    extension fails after its mutation, and has one of the listed reasons, with its error:
    a transaction that failed, is closed, out of time or out of operations, a key outside
    the scope or reserved, a history-only scope, an oversized or malformed value, a change
    the specification calls a conflict, or a next record that cannot be signed, encoded or
    stored within the quotas. *)
Theorem cas_refines_revision_map (s : Root) (env : Env) (t t' : TxState) (k : AuthorityKey) (expected : Z) (value : list byte)
    (retire : bool) (r : result AErr AuthorityRecord) :
  root_ok s -> e_root env = s -> Settled s (t_db t) -> CAS k expected value retire env t = (r, t') -> t_faulted t' = false ->
  Settled s (t_db t') /\
  match r with
  | Ok r =>
      spec_cas (current s (t_db t) k) expected value retire = current s (t_db t') k /\
      current s (t_db t') k = Some (ar_Revision r, ar_Retired r, ar_Value r) /\
      forall k', key_string k' <> key_string k ->
        (k_Kind k = AuthorityExtensionConfiguration -> key_string k' <> key_string purposeGenerationKey) ->
        current s (t_db t') k' = current s (t_db t) k'
  | Err e => t_db t' = t_db t /\ CAS_refused s env t k expected value retire e
  end.
Proof.
  intros Hs He Hset Hc Hf. split; [by eapply (settles_CAS s Hs)|]. destruct Hset as (v & Hok & _).
  destruct r as [r|e]; [|split; [by eapply CAS_Err | by eapply CAS_Err_refused]].
  destruct (CAS_spec _ _ _ _ _ _ _ _ _ _ Hs Hok He Hc Hf) as [Hcur Hspec].
  split; [done|]. split; [done|]. intros k' Hk Hg.
  eapply current_outside; [by eapply frames_CAS|]. intros [E|[Hkind E]]; [congruence|]. by apply (Hg Hkind).
Qed.
End props.
End AuthorityProps.

(** A root with one extension mutation and one dispatched invocation. *)
Module AuthorityWitness.
Import Ref Frames Wire Model RefWitness WireWitness ModelWitness.
Import Authority.Authority AuthorityTx.AuthorityTx AuthorityInv.AuthorityInv AuthorityHistory.AuthorityHistory AuthorityProps.

#[local] Instance w_ed : Ed25519 :=
  {| ed_NewKeyFromSeed seed := seed ++ seed; ed_Public key := take 32 key; ed_Sign _ _ := replicate 64 x01;
     ed_Verify _ _ signature := Nat.eqb (length signature) 64 |}.
#[local] Instance w_ed_laws : Ed25519Laws.
Proof. split; intros; reflexivity. Qed.

Definition w_seed : list byte := replicate 32 x05.
Definition w_ns : string := match DomainNamespace w_seed with Ok ns => ns | Err _ => "" end.
Definition w_store : string := hex_encode (replicate 32 x07).
Definition w_owner : Principal := mkPrincipal "user:owner" "user.human" "issuer".
Definition w_root : Root :=
  mkRoot (mkIdentity w_ns w_store w_owner w_seed 1) (w_seed ++ w_seed) (mkLimits 100 100000 1000) false.

Definition w_endpoint : EndpointRef := mkRef w_ns (Base32.EncodeToString (replicate 32 x09)) "".
Definition w_envelope : Envelope :=
  mkEnvelope "1.0" "env-1" "invoke" sample_principal "user:ann" (Some w_endpoint) "r1" 1 [x7b; x7d] ∅
    (mkEnvContext "" "user:ann" [] 0 None "" [] []) (mkTrace "" "" "") [].
#[local] Instance w_envelope_json : EnvelopeJson :=
  {| decode_envelope _ := Some w_envelope; marshal_envelope _ := Some [] |}.

#[local] Instance w_documents : AuthorityDocuments :=
  {| marshal_claim c := Some (dc_OriginalSHA c ++ dc_FinalizedSHA c ++ dc_DispatchSHA c); marshal_claim_key _ _ := [];
     marshal_binding _ := Some []; marshal_deferred _ := None; unmarshal_deferred _ := None; marshal_provenance _ := [];
     marshal_strings _ := []; decode_controller _ := None; decode_caller_binding _ := None; decode_origin _ := None;
     deep_shape _ := [] |}.
#[local] Instance w_claim_laws : ClaimLaws.
Proof.
  intros c c' raw (L1 & L2 & L3) (L1' & L2' & L3') [= <-] [= E]. apply app_inj_1 in E as [-> E]; [|congruence].
  by apply app_inj_1 in E as [-> ->]; [|congruence].
Qed.

(** The documents of the run, in the order of their encodings. *)
Definition w_raw (n : nat) : list byte := replicate n x01.
Definition w_record (k : AuthorityKey) (sequence : Z) (previous value : list byte) : AuthorityRecord :=
  mkRecord 1 w_ns w_store 1 k 1 0 sequence previous false value (replicate 64 x01).
Definition w_purpose : purposeGeneration := mkPurpose 1 "extension_configuration" 1 1.
Definition w_purpose2 : purposeGeneration := mkPurpose 1 "extension_configuration" 2 1.
Definition w_frame : DispatchAdmissionFrame :=
  mkAdmission w_ns "user:ann" w_ns "env-1" "attempt" "replay" (sha256 [x02]) "".
Definition w_claim : list byte :=
  sha256 [x01] ++ sha256 [x02] ++ match Admission_SigningBytes w_frame with Ok raw => sha256 raw | Err _ => [] end.
Definition w_key : AuthorityKey := mkKey AuthorityExtensionConfiguration zero_ref "e".
Definition w_table : list AuthorityRecord :=
  [ w_record w_key 1 zero32 [x31]; w_record purposeGenerationKey 2 (sha256 (w_raw 1)) [x70];
    w_record (originalDispatchKey sample_principal "env-1") 3 (sha256 (w_raw 2)) w_claim;
    mkRecord 1 w_ns w_store 1 purposeGenerationKey 2 1 3 (sha256 (w_raw 2)) false [x71] (replicate 64 x01) ].

#[local] Instance record_eq_dec : EqDecision AuthorityRecord.
Proof. solve_decision. Defined.
#[local] Instance purpose_eq_dec : EqDecision purposeGeneration.
Proof. solve_decision. Defined.

Fixpoint encode_record (n : nat) (r : AuthorityRecord) (l : list AuthorityRecord) : option (list byte) :=
  match l with
  | [] => None
  | r' :: l => if decide (r = r') then Some (w_raw n) else encode_record (S n) r l
  end.
Definition w_descriptor : EndpointDescriptor :=
  mkEndpoint w_endpoint "r1" "agent.unit" "unit" "" [mkBinding "b1" "pagnet.native" "1" false false false] [].
#[local] Instance w_json : AuthorityJson :=
  {| marshal_statement _ := Some []; marshal_record r := encode_record 1 r w_table;
     unmarshal_record raw := match raw with [] => None | _ :: raw => w_table !! length raw end;
     marshal_purpose p := if decide (p = w_purpose) then Some [x70] else if decide (p = w_purpose2) then Some [x71] else None;
     unmarshal_purpose raw :=
       if decide (raw = [x70]) then Some w_purpose else if decide (raw = [x71]) then Some w_purpose2 else None;
     decode_endpoint _ := Some w_descriptor; decode_offer _ := None |}.

Lemma encode_record_Some l n r raw : encode_record n r l = Some raw ->
  (n <= length raw < n + length l)%nat /\ l !! (length raw - n)%nat = Some r.
Proof.
  revert n. induction l as [|r' l IH]; intros n; cbn; [done|]. case_decide as E.
  - intros [= <-]. unfold w_raw. rewrite length_replicate, Nat.sub_diag. subst. split; [lia | done].
  - intros Hi. destruct (IH _ Hi) as [Hle Hl]. split; [lia|].
    replace (length raw - n)%nat with (S (length raw - S n)) by lia. done.
Qed.

#[local] Instance w_json_laws : AuthorityJsonLaws.
Proof.
  split.
  - intros r m raw _ _ _ Hm. apply encode_record_Some in Hm as [Hlen Hl]. destruct raw as [|b raw]; [cbn in Hlen; lia|].
    cbn [unmarshal_record w_json]. rewrite <- Hl. f_equal. cbn. lia.
  - intros r m raw _ _ _ Hm. apply encode_record_Some in Hm as [Hlen _]. unfold blen. cbn [length w_table] in Hlen. lia.
  - reflexivity.
  - intros p raw _ _. cbn. case_decide as E; [intros [= <-]; by subst|]. case_decide as E2; [|done]. intros [= <-]. by subst.
Qed.

Lemma w_root_ok : root_ok w_root.
Proof.
  split; [exists w_seed; by split | reflexivity | by vm_compute | reflexivity | cbn; lia].
Qed.

(** The database of a new root, and a history of two transactions. *)
Definition w_new : NDB :=
  mkNDB 1 {[ref_String w_endpoint := mkObject "" "endpoint" "r1" false [x01]]} None ∅ ∅.
Definition w_io : RootIO :=
  mkRootIO true (fun _ => true) (fun faulted => if faulted then CommitLost else Committed) (fun _ => true) true.
Definition w_context (p : Principal) : ExecutionContext :=
  mkContext None p w_ns (sha256 [x01]) true (mkProvenance (p_Ref p) "" [] 0 [] []).
Definition w_mutation : Callback AuthorityRecord := Invoke (CallCAS w_key 0 [x31] false) Return.
(** The dispatch is signed, and its signing repeated. *)
Definition w_dispatch : Callback (list byte) :=
  Invoke (CallSignDispatch (w_context sample_principal) [x01] [x02] w_frame [])
    (fun _ => Invoke (CallSignDispatch (w_context sample_principal) [x01] [x02] w_frame []) Return).

Definition w_first := WithNativeAuthority w_root w_io (w_context w_owner) (mkScope zero_ref "" "" false 0 0) w_mutation w_new.
Definition w_second :=
  WithNativeAuthority w_root w_io (w_context w_owner) (mkScope w_endpoint "r1" "b1" false 0 0) w_dispatch w_first.1.2.
Definition w_issued : Issued := mkIssued sample_principal [x01] [x02] w_frame (replicate 64 x01).

Lemma w_ledger_history : history w_root true w_second.1.2 [w_issued; w_issued].
Proof.
  change [w_issued; w_issued] with ([] ++ [w_issued; w_issued]).
  eapply (HistoryTx w_root true w_first.1.2 _ _ _ w_dispatch w_io (w_context w_owner) (mkScope w_endpoint "r1" "b1" false 0 0)
            w_second.1.1).
  - change [] with (@nil Issued ++ []).
    eapply (HistoryTx w_root true w_new _ _ _ w_mutation w_io (w_context w_owner) (mkScope zero_ref "" "" false 0 0) w_first.1.1).
    + by apply HistoryNew.
    + reflexivity.
    + intros _. by vm_compute.
    + replace [] with w_first.2 by (vm_compute; reflexivity). fold w_first. by destruct w_first as [[? ?] ?].
  - reflexivity.
  - by intros _.
  - replace [w_issued; w_issued] with w_second.2 by (vm_compute; reflexivity). fold w_second. by destruct w_second as [[? ?] ?].
Qed.

Lemma reopen_witness :
  nd_version w_second.1.2 = 2 /\ size (nd_log w_second.1.2) = 3%nat /\ verifyNativeAuthority w_root w_second.1.2 = Ok tt.
Proof.
  assert (nd_version w_second.1.2 = 2) as Hv by (vm_compute; reflexivity).
  split; [exact Hv|]. split; [vm_compute; reflexivity|].
  apply (reopen_accepts_every_history w_root true w_second.1.2 [w_issued; w_issued]); [exact w_root_ok | exact w_ledger_history |].
  rewrite Hv. discriminate.
Defined.

Lemma one_dispatch_witness :
  w_issued ∈ [w_issued; w_issued] /\
  exists fi fj, Admission_SigningBytes w_frame = Ok fi /\ Admission_SigningBytes w_frame = Ok fj /\ sha256 fi = sha256 fj.
Proof.
  assert (w_issued ∈ [w_issued; w_issued]) as Hi by left. split; [exact Hi|].
  destruct (one_dispatch_per_invocation w_root w_second.1.2 [w_issued; w_issued] w_issued w_issued w_root_ok w_ledger_history Hi Hi eq_refl eq_refl)
    as (_ & _ & fi & fj & E1 & E2 & E3 & _).
  exists fi, fj. split; [exact E1|]. split; [exact E2 | exact E3].
Defined.

(** The same ledger in a root whose descriptors have been replaced. *)
Definition w_other : NDB := mkNDB 3 ∅ (nd_head w_second.1.2) (nd_log w_second.1.2) (nd_state w_second.1.2).

Lemma head_determines_witness :
  verifyNativeAuthority w_root w_other = Ok tt /\
  ((nd_log w_second.1.2 = nd_log w_other /\ nd_state w_second.1.2 = nd_state w_other) \/ collision w_second.1.2 w_other).
Proof.
  assert (verifyNativeAuthority w_root w_other = Ok tt) as Hv by (vm_compute; reflexivity).
  split; [exact Hv|]. apply (head_determines_ledger w_root); [vm_compute; reflexivity | exact Hv | reflexivity].
Defined.

(** The first mutation of a new ledger, as a single call. *)
Definition w_env : Env := mkEnv w_root (normal_scope (mkScope zero_ref "" "" false 0 0)) (fun _ => true) (fun _ => true).
Definition w_schema : NDB := mkNDB 2 (nd_objects w_new) (Some (mkHead 0 zero32 0 0)) ∅ ∅.
Definition w_start : TxState := mkTxState w_schema 0 false true 0 None.
Definition w_cas := CAS w_key 0 [x31] false w_env w_start.

Lemma cas_refines_witness :
  is_ok w_cas.1 = true /\ spec_cas (current w_root w_schema w_key) 0 [x31] false = Some (1, false, [x31]) /\
  current w_root (t_db w_cas.2) w_key = Some (1, false, [x31]).
Proof.
  split; [vm_compute; reflexivity|]. split; [vm_compute; reflexivity|].
  destruct (cas_refines_revision_map w_root w_env w_start w_cas.2 w_key 0 [x31] false w_cas.1) as [_ Hr];
    [exact w_root_ok | reflexivity | apply (schema_settled w_root w_root_ok w_new); reflexivity | apply surjective_pairing
    | vm_compute; reflexivity |].
  destruct w_cas.1 as [r|e] eqn:Er.
  - destruct Hr as (Hs & _ & _). rewrite <- Hs. vm_compute. reflexivity.
  - vm_compute in Er. discriminate.
Defined.

(** The savepoint does not cover an ignored read. casExtensionConfiguration drops
    the error of its first read: when only that read fails, repeating an applied
    mutation publishes a second generation for it, the transaction commits, and the
    ledger no longer verifies. *)
Definition w_fault_io : RootIO :=
  mkRootIO true (fun n => negb (Nat.eqb n 2)) (fun _ => Committed) (fun _ => true) true.
Definition w_faulted :=
  WithNativeAuthority w_root w_fault_io (w_context w_owner) (mkScope zero_ref "" "" false 0 0) w_mutation w_first.1.2.

Example ignored_read_error_breaks_ledger :
  verifyNativeAuthority w_root w_first.1.2 = Ok tt /\ is_ok w_faulted.1.1 = true /\
  verifyNativeAuthority w_root w_faulted.1.2 = Err (invalid "Intrinsic extension generation history mismatch").
Proof. vm_compute. auto. Qed.
End AuthorityWitness.
