(* ===== verification/AuthorityClients.v ===== *)
(** * What clients of the native authority ledger rely on

    Which keys each method of a transaction may write, and what follows for any
    callback: rows never disappear, and rows whose keys a callback does not write
    stay as they are. *)
From Stdlib Require Import Ascii Strings.Byte ZArith Lia.
From S2P Require Import Prelude GoStrings FabricRef Framing Wire FabricModel SqlTx Encodings Authority AuthorityTx AuthorityInv AuthorityHistory.
#[local] Open Scope Z_scope.
#[local] Arguments str_eqb _ _ : simpl never.

Module AuthorityClients.
Import Ref Wire Model Authority.Authority AuthorityTx.AuthorityTx AuthorityInv.AuthorityInv AuthorityHistory.AuthorityHistory.

(** The keys a method call may write. *)
Definition writes `{Sha256, AuthorityDocuments} {R} (c : Call R) (k : AuthorityKey) : Prop :=
  match c with
  | CallCAS k' _ _ _ => k = k' \/ (k_Kind k' = AuthorityExtensionConfiguration /\ k = purposeGenerationKey)
  | CallSignDispatch _ _ _ _ _ => exists p id, k = originalDispatchKey p id
  | CallRecordDeferred _ _ _ => k_Kind k = AuthorityDeferredAdmission
  | _ => False
  end.

(** The keys a callback may write, whatever results it is given. *)
Fixpoint may_write `{Sha256, AuthorityDocuments} {A} (p : Callback A) (k : AuthorityKey) : Prop :=
  match p with
  | Return _ | Panic => False
  | Invoke c next => writes c k \/ exists r, may_write (next r) k
  end.

(** ** Relations that hold along a computation *)
Section along.
Context `{Sha256, JsonDecoder, EnvelopeJson, Ed25519, AuthorityJson, AuthorityDocuments}.
Context (R : NDB -> NDB -> Prop) `{!PreOrder R}.

Definition along {A} (c : AM A) : Prop := forall env t r t', c env t = (r, t') -> R (t_db t) (t_db t').

Lemma along_reads {A} (c : AM A) : reads c -> along c.
Proof. intros Hc env t r t' Hr. destruct (Hc _ _ _ _ Hr) as [-> _]. reflexivity. Qed.

Lemma along_bind {A B} (c : AM A) (k : A -> AM B) : along c -> (forall a, along (k a)) -> along (a_bind c k).
Proof.
  intros Hc Hk env t r t' Hr. apply a_bind_cases in Hr as [(e & He & _)|(a & t1 & Ha & Hr)]; [eauto|].
  etrans; [by eapply Hc | by eapply Hk].
Qed.

Lemma along_lift {A B} (x : result AErr A) (k : A -> AM B) : (forall a, x = Ok a -> along (k a)) -> along (a_bind (a_lift x) k).
Proof. intros Hk env t r t'. unfold a_bind, a_lift. destruct x as [a|e]; [by apply Hk|]. intros [= _ <-]. reflexivity. Qed.

Context (W : AuthorityKey -> Prop) (cas_along : forall k expected value retire, W k -> along (cas k expected value retire)).

Lemma along_mutation k expected value retire : W k -> W purposeGenerationKey -> along (purpose_mutation k expected value retire).
Proof.
  intros Hk Hg. unfold purpose_mutation, advance_generation. apply along_bind; [apply along_reads; reading | intros old].
  apply along_bind; [by apply cas_along | intros x]. case_if; [apply along_reads; reading|].
  do 3 (apply along_bind; [apply along_reads; reading | intros ?]).
  apply along_bind; [by apply cas_along | intros ?; apply along_reads; reading].
Qed.

Lemma along_extension k expected value retire : W k -> W purposeGenerationKey -> along (casExtensionConfiguration k expected value retire).
Proof.
  intros Hk Hg. unfold casExtensionConfiguration. apply along_bind.
  - intros env t r t'. unfold a_exec. destruct (e_stmt _ _); intros [= _ <-]; reflexivity.
  - intros _ env t r t' Hc. destruct (purpose_mutation _ _ _ _ _ _) as [m t1] eqn:Em.
    apply (along_mutation _ _ _ _ Hk Hg) in Em. unfold end_savepoint, a_exec in Hc.
    destruct m as [x|e]; destruct (e_stmt env (t_stmt t1)); cbn in Hc;
      repeat (case_if; cbn in Hc); injection Hc as _ <-; cbn; done.
Qed.

Lemma along_CAS k expected value retire :
  W k -> (k_Kind k = AuthorityExtensionConfiguration -> W purposeGenerationKey) -> along (CAS k expected value retire).
Proof.
  intros Hk Hg. unfold CAS. do 2 (apply along_bind; [apply along_reads; reading | intros ?]).
  case_if; [apply along_reads; reading|]. case_if; rinv; [by apply cas_along | apply along_extension; auto].
Qed.

Lemma along_dispatch c original finalized f prepared :
  (forall p id, W (originalDispatchKey p id)) -> along (SignDispatchAdmission c original finalized f prepared).
Proof.
  intros Hw. unfold SignDispatchAdmission. do 10 (apply along_bind; [apply along_reads; reading | intros ?]).
  apply along_bind; [|intros ?; apply along_reads; reading].
  unfold claimOriginalDispatch. do 3 (apply along_bind; [apply along_reads; reading | intros ?]).
  match goal with |- along (match ?x with _ => _ end) => destruct x as [[o|]|] end; [|apply along_reads; reading..].
  do 5 (apply along_bind; [apply along_reads; reading | intros ?]).
  unfold retain_claim. do 2 (apply along_bind; [apply along_reads; reading | intros ?]).
  match goal with |- along (match ?x with _ => _ end) => destruct x end; [apply along_reads; reading|].
  case_if; [apply along_reads; reading|].
  apply along_bind; [by apply cas_along | intros ?; apply along_reads; reading].
Qed.

Lemma along_deferred caller original v :
  (forall k, k_Kind k = AuthorityDeferredAdmission -> W k) -> along (RecordDeferredAdmission caller original v).
Proof.
  intros Hw. unfold RecordDeferredAdmission. do 2 (apply along_bind; [apply along_reads; reading | intros ?]).
  apply along_lift. intros key Hk. unfold deferredKey in Hk. rinv.
  do 5 (apply along_bind; [apply along_reads; reading | intros ?]). by apply along_CAS; [apply Hw|].
Qed.

Lemma along_method {A} (c : Call A) : (forall k, writes c k -> W k) -> along (method c).
Proof.
  destruct c; cbn [method writes]; intros Hw; try (apply along_reads; solve [reading]).
  - apply along_CAS; auto.
  - apply along_dispatch. eauto.
  - by apply along_deferred.
Qed.

Lemma along_callback {A} (p : Callback A) : (forall k, may_write p k -> W k) ->
  forall env t r t' signed, run_callback p env t = (r, t', signed) -> R (t_db t) (t_db t').
Proof.
  induction p as [x| |T c k IH]; intros Hw env t r t' signed Hr; cbn in Hr, Hw; [injection Hr as _ <- _; reflexivity..|].
  destruct (method c env t) as [x t1] eqn:Em, (run_callback (k x) env t1) as [[a t2] signed'] eqn:Ek.
  injection Hr as _ <- _. transitivity (t_db t1).
  - eapply along_method; [|exact Em]. auto.
  - eapply IH; [|exact Ek]. eauto.
Qed.
End along.

(** ** Rows never disappear *)
Definition grows (d d' : NDB) : Prop :=
  nd_version d' = nd_version d /\ forall key, is_Some (nd_state d !! key) -> is_Some (nd_state d' !! key).

#[export] Instance grows_preorder : PreOrder grows.
Proof.
  split; [by split|]. intros d d' d'' [E1 F1] [E2 F2]. split; [congruence | auto].
Qed.

Section rows.
Context `{Sha256, JsonDecoder, EnvelopeJson, Ed25519, AuthorityJson, AuthorityDocuments}.

Lemma along_exec (R : NDB -> NDB -> Prop) `{!PreOrder R} f : (forall d d', f d = Some d' -> R d d') -> along R (a_exec f).
Proof.
  intros Hf env t r t'. unfold a_exec.
  destruct (e_stmt _ _); [destruct (f _) eqn:E|]; intros [= _ <-]; cbn; eauto; reflexivity.
Qed.

(** Writing a record adds its row. *)
Lemma write_record_grows x raw : along grows (write_record x raw).
Proof.
  unfold write_record. apply along_bind; [apply _| |intros _; apply along_bind; [apply _| |intros _; apply along_bind; [apply _| |intros _]]].
  - apply along_exec; [apply _|]. intros d d'. unfold insert_log. destruct (nd_log d !! _); [done|]. by intros [= <-].
  - apply along_exec; [apply _|]. intros d d' [= <-]. split; [done|]. intros key Hk. cbn.
    destruct (decide (key = key_string (ar_Key x))) as [->|Hne]; [by rewrite lookup_insert_eq | by rewrite lookup_insert_ne].
  - apply along_exec; [apply _|]. by intros d d' [= <-].
  - apply along_reads; [apply _ | reading].
Qed.

Lemma cas_grows k expected value retire : along grows (cas k expected value retire).
Proof.
  unfold cas. do 5 (apply along_bind; [apply _ | apply along_reads; [apply _ | reading] | intros ?]).
  assert (along grows (publish k expected value retire)) as Hp.
  { unfold publish. apply along_bind; [apply _ | apply along_reads; [apply _ | apply reads_sign_next] | intros []; apply write_record_grows]. }
  match goal with |- along _ (match ?x with _ => _ end) => destruct x end;
    (case_if; [by apply along_reads; [apply _ | reading]|]); apply along_bind;
    first [by apply _ | by apply along_reads; [apply _ | reading] | intros ?; apply Hp].
Qed.

(** A successful change of a key leaves a row for it. *)
Lemma cas_present k expected value retire env t r t' :
  cas k expected value retire env t = (Ok r, t') -> is_Some (nd_state (t_db t') !! key_string k).
Proof.
  unfold cas. intros Hc. ainv.
  match goal with Hg : get k _ _ = (?x, ?y) |- _ => rename Hg into Eg, x into found, y into tg end.
  assert (forall u, publish k expected value retire env u = (Ok r, t') -> is_Some (nd_state (t_db t') !! key_string k)) as Hp.
  { intros u Hu%publish_Ok. destruct Hu as [h sign raw _ _ _ -> _ _ _ ->]. cbn. rewrite lookup_insert_eq. by eexists. }
  destruct found as [old|e].
  - destruct (get_Ok _ _ _ _ _ Eg) as [Hdb (row & Hrow & _)]. case_if; ainv; [rewrite Hdb; by eexists | eauto].
  - case_if; [done|]. ainv. eauto.
Qed.

Lemma CAS_present k expected value retire env t r t' : k_Kind k <> AuthorityExtensionConfiguration ->
  CAS k expected value retire env t = (Ok r, t') -> is_Some (nd_state (t_db t') !! key_string k).
Proof.
  intros Hk Hc. unfold CAS in Hc. ainv. case_if; [done|]. case_if; rinv; by eapply cas_present.
Qed.

(** A read that found nothing, in a transaction that still works. *)
Lemma Get_absent k e env t t1 :
  Get k env t = (Err e, t1) -> isAuthorityNotFound e = true -> t_failure t1 = None -> nd_state (t_db t) !! key_string k = None.
Proof.
  intros Eg En Hlive. unfold Get in Eg. apply a_bind_cases in Eg as [(e1 & Hg & [= <-])|([] & t3 & Hg & Eg)].
  { unfold guard_tx in Hg. destruct (t_failure t) eqn:Ef; [injection Hg as _ <-; congruence | by repeat case_if; simplify_eq]. }
  apply reads_guard_tx in Hg as [<- _]. apply a_bind_cases in Eg as [(e1 & Hk & [= <-])|([] & t4 & Hk & Eg)].
  { unfold check_key, a_bind, a_env, a_guard, a_lift in Hk. destruct (key_in_scope env k); [done|]. by injection Hk as <- _. }
  apply reads_check_key in Hk as [<- _]. by eapply get_absent.
Qed.

Lemma not_found_absent k e k' expected value retire env t r t1 t2 :
  Get k env t = (Err e, t1) -> isAuthorityNotFound e = true -> CAS k' expected value retire env t1 = (Ok r, t2) ->
  nd_state (t_db t) !! key_string k = None.
Proof.
  intros Eg En Ec. eapply Get_absent; [done..|]. destruct (t_failure t1) eqn:Ef; [|done].
  unfold CAS, a_bind, guard_tx in Ec. by rewrite Ef in Ec.
Qed.

Lemma Get_stored k env t r t1 : Get k env t = (Ok r, t1) -> stored (e_root env) (t_db t) k r.
Proof.
  intros Eg. unfold Get in Eg. apply a_bind_Ok in Eg as ([] & u1 & Hg & Eg). apply reads_guard_tx in Hg as [<- _].
  apply a_bind_Ok in Eg as ([] & u2 & Hg & Eg). apply reads_check_key in Hg as [<- _]. by apply get_Ok in Eg as [_ Hst].
Qed.

Lemma callback_grows {A} (p : Callback A) env t r t' signed :
  run_callback p env t = (r, t', signed) -> grows (t_db t) (t_db t').
Proof. by apply (along_callback grows (fun _ => True)); [intros; apply cas_grows|]. Qed.

(** ** Rows that are not written stay *)
#[export] Instance same_outside_preorder K : PreOrder (same_outside K).
Proof. split; [intros d; apply same_outside_refl | intros d d' d'' H1' H2'; by eapply same_outside_trans]. Qed.

Lemma callback_frames {A} (p : Callback A) (K : string -> Prop) env t r t' signed :
  (forall k, may_write p k -> K (key_string k)) ->
  run_callback p env t = (r, t', signed) -> same_outside K (t_db t) (t_db t').
Proof.
  intros Hw. eapply (along_callback (same_outside K) (fun k => K (key_string k))); [|exact Hw].
  intros k expected value retire Hk. eapply frames_weaken; [|apply frames_cas]. by intros key <-.
Qed.

(** ** Transactions *)

(** Nothing, or the state of the callback on the migrated database. *)
Lemma transaction_outcome {A} s io owner scope (p : Callback A) d r d' new :
  WithNativeAuthority s io owner scope p d = (r, d', new) ->
  (d' = d /\ is_ok r = false) \/
  exists env t1 t2 a, e_root env = s /\ (let+ _ := check_scope in migrate) env (mkTxState d 0 false true 0 None) = (Ok tt, t1) /\
    run_callback p env t1 = (Ok a, t2, new) /\ d' = t_db t2 /\ (is_ok r = true -> r = Ok a) /\
    (ro_commit io true = CommitLost -> t_faulted t2 = false) /\ t_failure t2 = None.
Proof.
  unfold WithNativeAuthority. intros Hw. cbv zeta in Hw.
  case_if; [injection Hw as <- <- <-; by left|]. destruct (authorize s owner); [|injection Hw as <- <- <-; by left].
  case_if; [injection Hw as <- <- <-; by left|].
  set (env := mkEnv s (normal_scope scope) (ro_stmt io) (ro_ctx io)) in *.
  destruct ((let+ _ := check_scope in migrate) env _) as [[[]|e] t1] eqn:E1; [|injection Hw as <- <- <-; by left].
  destruct (run_callback p env t1) as [[[x|e] t2] signed] eqn:E2; [|injection Hw as <- <- <-; by left].
  destruct (t_failure t2) eqn:Efail; [injection Hw as <- <- <-; by left|]. case_if; [injection Hw as <- <- <-; by left|].
  assert (ro_commit io true = CommitLost -> ro_commit io (t_faulted t2) <> CommitLost -> t_faulted t2 = false) as Hfault
    by (destruct (t_faulted t2); done).
  destruct (ro_commit io _); injection Hw as <- <- <-; [right | by left | right]; exists env, t1, t2, x; split_and!; try done; intros Hlost;
    by apply Hfault.
Qed.

(** A new database has no rows yet. *)
Definition fresh_empty (d : NDB) : Prop := nd_version d = 1 -> nd_state d = ∅.

Lemma transaction_grows {A} s io owner scope (p : Callback A) d r d' new :
  WithNativeAuthority s io owner scope p d = (r, d', new) -> fresh_empty d ->
  fresh_empty d' /\ forall key, is_Some (nd_state d !! key) -> is_Some (nd_state d' !! key).
Proof.
  intros Hw Hd. destruct (transaction_outcome _ _ _ _ _ _ _ _ _ Hw) as [[-> _]|(env & t1 & t2 & a & _ & Hm & Hr & -> & _)]; [done|].
  apply callback_grows in Hr as [Ev Hg].
  apply migrate_cases in Hm as [[Hdb Hv]|[Hv Hc]]; cbn [t_db] in *.
  - rewrite Hdb in *. split; [|done]. intros E. lia.
  - split; [intros E; injection Hc as Hc; rewrite <- Hc in Ev; cbn in Ev; lia|]. intros key [row Hrow]. rewrite (Hd Hv), lookup_empty in Hrow. done.
Qed.
End rows.
End AuthorityClients.
