(* ===== verification/Control.v ===== *)
(** * Controllers and worker bindings (src/fabric/identity/controller.go,
    src/fabric/identity/current.go and the records, keys and checks of types.go)

    A client of the native authority ledger: whoever controls the worker of an
    endpoint holds a signed epoch, the revision of the slot's control record, and
    every operation rechecks that proof against the current record. A callback of
    the source is a program over the methods of its transaction; a helper that is
    given the transaction takes the rest of the callback as a continuation.
    Parameters: the JSON forms ([ControlJson]). *)
From Stdlib Require Import Ascii Strings.Byte ZArith Lia.
From S2P Require Import Prelude GoStrings FabricRef Framing Wire FabricModel SqlTx Authority AuthorityTx.
#[local] Open Scope Z_scope.
#[local] Arguments str_eqb _ _ : simpl never.

Module Control.
Import Ref Wire Model Authority.Authority AuthorityTx.AuthorityTx.

(** ** types.go *)
Record Scope := mkIdScope { is_Endpoint : EndpointRef; is_DescriptorRevision : string; is_BindingID : string }.
Record WorkerBinding := mkWorker {
  wb_WorkerID : string; wb_StateDirectoryID : string; wb_OwnershipGeneration : string; wb_ActualRuntime : string;
  wb_ProfileDigest : list byte }.
Record Controller := mkController {
  ct_Scope : Scope; ct_ControllerID : string; ct_RequestID : string; ct_ExpectedEpoch : Z; ct_Proof : AuthorityRecord }.
Record Binding := mkWorkerSlot { bd_Scope : Scope; bd_Worker : WorkerBinding; bd_Proof : AuthorityRecord }.
Record controlRequestReceipt := mkReceipt { cr_RequestDigest : list byte; cr_Controller : Controller }.

#[export] Instance id_scope_eq_dec : EqDecision Scope.
Proof. solve_decision. Defined.
#[export] Instance worker_eq_dec : EqDecision WorkerBinding.
Proof. solve_decision. Defined.

Definition Epoch (c : Controller) : Z := ar_Revision (ct_Proof c).
Definition zero_record : AuthorityRecord := mkRecord 0 "" "" 0 (mkKey (OtherKind "") zero_ref "") 0 0 0 zero32 false [] [].
Definition set_controller_proof (c : Controller) (r : AuthorityRecord) : Controller :=
  mkController (ct_Scope c) (ct_ControllerID c) (ct_RequestID c) (ct_ExpectedEpoch c) r.
Definition set_binding_proof (b : Binding) (r : AuthorityRecord) : Binding := mkWorkerSlot (bd_Scope b) (bd_Worker b) r.

(** encoding/json of these documents, and of an object as its members. *)
Class ControlJson := {
  marshal_controller : Controller -> option (list byte);
  unmarshal_controller : list byte -> option Controller;
  marshal_worker_slot : Binding -> option (list byte);
  unmarshal_worker_slot : list byte -> option Binding;
  marshal_receipt : controlRequestReceipt -> option (list byte);
  unmarshal_receipt : list byte -> option controlRequestReceipt;
  unmarshal_members : list byte -> option (gmap string (list byte));
  marshal_members : gmap string (list byte) -> option (list byte);
}.

Definition id_invalid (m : string) : AErr := AFabric (NewError CodeInvalidInput m).
Definition id_conflict (m : string) : AErr := AFabric (NewError CodeStaleReference m).
Definition id_text (s : string) : bool := negb (str_eqb s "") && (len s <=? 256) && utf8_valid s.

Section control.
Context `{Sha256, JsonDecoder, EnvelopeJson, Ed25519, AuthorityJson, AuthorityDocuments, ControlJson}.

(** [digest] with its error ignored. *)
Definition digest {V} (marshal : V -> option (list byte)) (v : V) : list byte := sha256 (default [] (marshal v)).

Definition keyID (prefix : string) (fields : list string) : string := prefix ++ hex_encode (sha256 (marshal_strings fields)).

Definition scope_tx (s : Scope) (history : bool) : AuthorityScope :=
  Authority.mkScope (is_Endpoint s) (is_DescriptorRevision s) (is_BindingID s) history 0 0.

Definition transact {A} (a : Root) (io : RootIO) (owner : ExecutionContext) (s : Scope) (history : bool) (fn : Callback A) (d : NDB) :
    result AErr A * NDB :=
  if str_eqb (ref_String (is_Endpoint s)) "" || IsOffer (is_Endpoint s) ||
     negb (str_eqb (Domain (is_Endpoint s)) (ai_Namespace (rt_Identity a))) || str_eqb (is_DescriptorRevision s) "" ||
     negb (id_text (is_BindingID s))
  then (Err (id_invalid "Incomplete local authority endpoint scope"), d)
  else let '(r, d, _) := WithNativeAuthority a io owner (scope_tx s history) fn d in (r, d).

Definition controllerKey (s : Scope) : AuthorityKey :=
  mkKey AuthorityController zero_ref (keyID "current:" [ref_String (is_Endpoint s); is_BindingID s]).
Definition bindingKey (s : Scope) : AuthorityKey := mkKey AuthorityBinding (is_Endpoint s) (is_BindingID s).
Definition receiptKey (s : Scope) (requestID : string) : AuthorityKey :=
  mkKey AuthorityController zero_ref (keyID "request:" [ref_String (is_Endpoint s); requestID]).

Definition exactRecord {A} (root : AuthorityIdentity) (provided : AuthorityRecord) (key : AuthorityKey)
    (k : result AErr AuthorityRecord -> Callback A) : Callback A :=
  if negb (bool_decide (ar_Key provided = key)) || negb (is_ok (VerifyAuthorityRecord root provided))
  then k (Err (id_invalid "Local authority proof scope or issuer mismatch"))
  else Invoke (CallGet key) (fun current =>
    match current with
    | Err e => k (Err e)
    | Ok current =>
        if negb (bool_decide (digest marshal_record provided = digest marshal_record current)) || ar_Retired current
        then k (Err (id_conflict "Local authority proof stale or retired"))
        else k (Ok current)
    end).

(** The value of a record: the document without its proof. *)
Definition storedValue {V} (marshal : V -> option (list byte)) (v : V) : result AErr (list byte) :=
  let? raw := of_option (marshal v) jsonError in
  let? fields := of_option (unmarshal_members raw) jsonError in
  of_option (marshal_members (delete "proof" fields)) jsonError.

(** ** controller.go *)
Definition request_of (s : Scope) (expectedEpoch : Z) (requestID controllerID : string) : Controller :=
  mkController s controllerID requestID expectedEpoch zero_record.

(** The controller, and whether it was granted by this call. *)
Definition acquire_callback (a : Root) (request : Controller) (commitment : list byte) : Callback (Controller * bool) :=
  let s := ct_Scope request in
  Invoke (CallGet (receiptKey s (ct_RequestID request))) (fun existing =>
    match existing with
    | Ok existing =>
        Return (let? receipt := of_option (unmarshal_receipt (ar_Value existing)) jsonError in
                let? _ := guard (bool_decide (cr_RequestDigest receipt = commitment) &&
                                 is_ok (VerifyAuthorityRecord (rt_Identity a) (ct_Proof (cr_Controller receipt))))
                            (id_conflict "Controller request identity reused with changed input") in
                Ok (cr_Controller receipt, false))
    | Err e =>
        if negb (isAuthorityNotFound e) then Return (Err e) else
        match storedValue marshal_controller request with
        | Err e => Return (Err e)
        | Ok raw =>
            Invoke (CallCAS (controllerKey s) (ct_ExpectedEpoch request) raw false) (fun r =>
              match r with
              | Err e => Return (Err e)
              | Ok r =>
                  let result := set_controller_proof request r in
                  match marshal_receipt (mkReceipt commitment result) with
                  | None => Return (Err jsonError)
                  | Some raw =>
                      Invoke (CallCAS (receiptKey s (ct_RequestID request)) 0 raw false)
                        (fun r => Return (let? _ := r in Ok (result, true)))
                  end
              end)
        end
    end).

Definition acquire (a : Root) (io : RootIO) (owner : ExecutionContext) (s : Scope) (expectedEpoch : Z) (requestID controllerID : string)
    (d : NDB) : result AErr (Controller * bool) * NDB :=
  if negb (id_text requestID) || negb (id_text controllerID) then (Err (id_invalid "Invalid local controller request"), d) else
  let request := request_of s expectedEpoch requestID controllerID in
  match marshal_controller request with
  | None => (Err jsonError, d)
  | Some raw => transact a io owner s false (acquire_callback a request (sha256 raw)) d
  end.

Definition AcquireController (a : Root) (io : RootIO) (owner : ExecutionContext) (s : Scope) (expectedEpoch : Z)
    (requestID controllerID : string) (d : NDB) : result AErr Controller * NDB :=
  let '(r, d) := acquire a io owner s expectedEpoch requestID controllerID d in (let? '(c, _) := r in Ok c, d).

Definition currentController {A} (a : Root) (c : Controller) (k : result AErr unit -> Callback A) : Callback A :=
  exactRecord (rt_Identity a) (ct_Proof c) (controllerKey (ct_Scope c)) (fun r =>
    k (let? r := r in
       let? stored := of_option (unmarshal_controller (ar_Value r)) jsonError in
       guard (bool_decide (digest marshal_controller c = digest marshal_controller (set_controller_proof stored r)))
         (id_invalid "Controller proof and fields differ"))).

Definition currentBinding {A} (a : Root) (b : Binding) (k : result AErr unit -> Callback A) : Callback A :=
  exactRecord (rt_Identity a) (bd_Proof b) (bindingKey (bd_Scope b)) (fun r =>
    k (let? r := r in
       let? stored := of_option (unmarshal_worker_slot (ar_Value r)) jsonError in
       guard (bool_decide (digest marshal_worker_slot b = digest marshal_worker_slot (set_binding_proof stored r)))
         (id_invalid "Worker binding proof and fields differ"))).

(** The slot is written with the binding's value. *)
Definition put_binding (result : Binding) (expected : Z) : Callback Binding :=
  match storedValue marshal_worker_slot result with
  | Err e => Return (Err e)
  | Ok raw =>
      Invoke (CallCAS (bindingKey (bd_Scope result)) expected raw false)
        (fun r => Return (let? r := r in Ok (set_binding_proof result r)))
  end.

Definition BindWorker (a : Root) (io : RootIO) (owner : ExecutionContext) (c : Controller) (expectedRevision : Z) (worker : WorkerBinding)
    (d : NDB) : result AErr Binding * NDB :=
  if negb (id_text (wb_WorkerID worker)) || negb (id_text (wb_StateDirectoryID worker)) || negb (id_text (wb_OwnershipGeneration worker)) ||
     negb (id_text (wb_ActualRuntime worker)) || bool_decide (wb_ProfileDigest worker = zero32)
  then (Err (id_invalid "Incomplete native worker ownership binding"), d)
  else transact a io owner (ct_Scope c) false
         (currentController a c (fun checked =>
            match checked with
            | Err e => Return (Err e)
            | Ok _ => put_binding (mkWorkerSlot (ct_Scope c) worker zero_record) expectedRevision
            end)) d.

(** The answer to a renewal whose original binding is no longer current: the
    renewed binding, when it is the next revision of the same worker, or [e]. *)
Definition recover_renewal (a : Root) (c : Controller) (original : Binding) (e : AErr) : Callback Binding :=
  if ar_Retired (bd_Proof original) || negb (bool_decide (ar_Key (bd_Proof original) = bindingKey (bd_Scope original))) ||
     negb (is_ok (VerifyAuthorityRecord (rt_Identity a) (bd_Proof original)))
  then Return (Err e) else
  match unmarshal_worker_slot (ar_Value (bd_Proof original)) with
  | None => Return (Err e)
  | Some previous =>
      if negb (bool_decide (digest marshal_worker_slot (set_binding_proof previous (bd_Proof original)) = digest marshal_worker_slot original))
      then Return (Err e) else
      Invoke (CallGet (bindingKey (ct_Scope c))) (fun current =>
        match current with
        | Err _ => Return (Err e)
        | Ok current =>
            if ar_Retired current || negb (is_ok (VerifyAuthorityRecord (rt_Identity a) current)) ||
               negb (ar_Revision current =? (ar_Revision (bd_Proof original) + 1) mod 2 ^ 64)
            then Return (Err e) else
            match unmarshal_worker_slot (ar_Value current) with
            | None => Return (Err e)
            | Some recovered =>
                if negb (bool_decide (bd_Scope recovered = ct_Scope c)) || negb (bool_decide (bd_Worker recovered = bd_Worker original))
                then Return (Err e) else Return (Ok (set_binding_proof recovered current))
            end
        end)
  end.

Definition renew_callback (a : Root) (c : Controller) (original : Binding) : Callback Binding :=
  currentController a c (fun checked =>
    match checked with
    | Err e => Return (Err e)
    | Ok _ =>
        currentBinding a original (fun checked =>
          match checked with
          | Err e => recover_renewal a c original e
          | Ok _ =>
              if bool_decide (bd_Scope original = ct_Scope c) then Return (Ok original)
              else put_binding (mkWorkerSlot (ct_Scope c) (bd_Worker original) zero_record) (ar_Revision (bd_Proof original))
          end)
    end).

Definition RenewWorkerBinding (a : Root) (io : RootIO) (owner : ExecutionContext) (c : Controller) (original : Binding) (d : NDB) :
    result AErr Binding * NDB :=
  if negb (bool_decide (is_Endpoint (ct_Scope c) = is_Endpoint (bd_Scope original))) ||
     negb (str_eqb (is_BindingID (ct_Scope c)) (is_BindingID (bd_Scope original)))
  then (Err (id_invalid "Physical binding renewal endpoint or binding identity changed"), d)
  else transact a io owner (ct_Scope c) false (renew_callback a c original) d.

(** ** current.go *)
Definition current_callback (a : Root) (scope : Scope) : Callback (Controller * Binding) :=
  Invoke (CallGet (controllerKey scope)) (fun c =>
    match (let? c := c in
           let? controller := of_option (if ar_Retired c then None else unmarshal_controller (ar_Value c))
                                (id_conflict "Current native controller does not match selected descriptor") in
           let? _ := guard (bool_decide (ct_Scope controller = scope))
                       (id_conflict "Current native controller does not match selected descriptor") in
           Ok (set_controller_proof controller c)) with
    | Err e => Return (Err e)
    | Ok controller =>
        Invoke (CallGet (bindingKey scope)) (fun b =>
          match (let? b := b in
                 let? binding := of_option (if ar_Retired b then None else unmarshal_worker_slot (ar_Value b))
                                   (id_conflict "Current native worker does not match selected descriptor") in
                 let? _ := guard (bool_decide (bd_Scope binding = scope))
                             (id_conflict "Current native worker does not match selected descriptor") in
                 Ok (set_binding_proof binding b)) with
          | Err e => Return (Err e)
          | Ok binding =>
              currentController a controller (fun checked =>
                match checked with
                | Err e => Return (Err e)
                | Ok _ => currentBinding a binding (fun checked => Return (let? _ := checked in Ok (controller, binding)))
                end)
          end)
    end).

Definition CurrentNativeState (a : Root) (io : RootIO) (owner : ExecutionContext) (scope : Scope) (d : NDB) :
    result AErr (Controller * Binding) * NDB :=
  transact a io owner scope false (current_callback a scope) d.
End control.
End Control.
