(* ===== verification/ControlProps.v ===== *)
(** * Controllers: fencing by epochs

    The machine of control: grants, worker bindings and renewals, interleaved with
    any other transaction of the ledger. Granted epochs strictly increase, and
    nothing is done under an epoch that was replaced. *)
From Stdlib Require Import Ascii Strings.Byte ZArith Lia.
From S2P Require Import Prelude GoStrings FabricRef Framing Wire FabricModel SqlTx Encodings Authority AuthorityTx AuthorityInv AuthorityHistory AuthorityProps AuthorityClients Control.
#[local] Open Scope Z_scope.
#[local] Arguments str_eqb _ _ : simpl never.

Module ControlProps.
Import Ref Wire Model Authority.Authority AuthorityTx.AuthorityTx AuthorityInv.AuthorityInv AuthorityHistory.AuthorityHistory.
Import AuthorityProps.AuthorityProps AuthorityClients.AuthorityClients Control.Control.

(** encoding/json: a decoded record can be encoded again, [32]byte members have 32
    bytes, and the stored form of a request determines its endpoint and its
    request identity (a UTF-8 string). *)
Class ControlLaws `{Sha256, AuthorityJson, ControlJson} := {
  record_marshals : forall raw r, unmarshal_record raw = Some r -> is_Some (marshal_record r);
  record_head : forall raw r, unmarshal_record raw = Some r -> blen (ar_PreviousHead r) = 32;
  request_determined : forall c c' raw, utf8_valid (ct_RequestID c) = true -> utf8_valid (ct_RequestID c') = true ->
    storedValue marshal_controller c = Ok raw -> storedValue marshal_controller c' = Ok raw ->
    ct_RequestID c = ct_RequestID c' /\ is_Endpoint (ct_Scope c) = is_Endpoint (ct_Scope c');
}.

Inductive Event := Grant (c : Controller) | Effect (c : Controller).

Section machine.
Context `{Sha256, JsonDecoder, EnvelopeJson, Ed25519, AuthorityJson, AuthorityDocuments, ControlJson}.

Definition granted (r : result AErr (Controller * bool)) : list Event :=
  match r with Ok (c, true) => [Grant c] | _ => [] end.
Definition effect (c : Controller) (r : result AErr Binding) : list Event :=
  match r with Ok _ => [Effect c] | Err _ => [] end.

(** The grants and the effects that were acknowledged, in order. *)
Inductive controlled (s : Root) : NDB -> list Event -> Prop :=
| ControlledNew d : nd_version d = 1 -> nd_state d = ∅ -> controlled s d []
| ControlledRegistry d d' log : controlled s d log -> same_ledger d d' -> controlled s d' log
| ControlledSchema d d' log : controlled s d log -> nd_version d = 1 -> create_schema d = Some d' -> controlled s d' log
| ControlledTx d d' log (A : Type) (p : Callback A) io owner scope r new :
    controlled s d log -> ro_commit io true = CommitLost ->
    WithNativeAuthority s io owner scope p d = (r, d', new) -> controlled s d' log
| ControlledAcquire d d' log io owner scope expectedEpoch requestID controllerID r :
    controlled s d log -> ro_commit io true = CommitLost ->
    acquire s io owner scope expectedEpoch requestID controllerID d = (r, d') -> controlled s d' (log ++ granted r)
| ControlledBind d d' log io owner c expectedRevision worker r :
    controlled s d log -> ro_commit io true = CommitLost -> blen (ar_PreviousHead (ct_Proof c)) = 32 ->
    BindWorker s io owner c expectedRevision worker d = (r, d') -> controlled s d' (log ++ effect c r)
| ControlledRenew d d' log io owner c original r :
    controlled s d log -> ro_commit io true = CommitLost -> blen (ar_PreviousHead (ct_Proof c)) = 32 ->
    RenewWorkerBinding s io owner c original d = (r, d') -> controlled s d' (log ++ effect c r).

(** Two signed records with different JSON forms of the same SHA-256. *)
Definition record_collision (s : Root) : Prop :=
  exists r r', VerifyAuthorityRecord (rt_Identity s) r = Ok tt /\ VerifyAuthorityRecord (rt_Identity s) r' = Ok tt /\
    default [] (marshal_record r) <> default [] (marshal_record r') /\ digest marshal_record r = digest marshal_record r'.
End machine.

(** ** Control records only advance *)
Section advance.
Context `{Sha256, JsonDecoder, EnvelopeJson, Ed25519, AuthorityJson, AuthorityDocuments}.
Context `{!Ed25519Laws, !AuthorityJsonLaws}.
Context (s : Root) (Hroot : root_ok s).

(** A later state of a key: the same revision, or a higher one. *)
Definition advances (before after : option (Z * bool * list byte)) : Prop :=
  match before, after with
  | None, _ => True
  | Some (rev, ret, v), Some (rev', ret', v') => rev < rev' \/ (rev = rev' /\ ret = ret' /\ v = v')
  | Some _, None => False
  end.
#[export] Instance advances_preorder : PreOrder advances.
Proof.
  split.
  - intros [[[rev ret] v]|]; cbn; auto.
  - intros [[[r1 t1] v1]|] [[[r2 t2] v2]|] [[[r3 t3] v3]|]; cbn; try done.
    intros [?|(-> & -> & ->)] [?|(<- & <- & <-)]; [left; lia | by left | by left | by right].
Qed.

Lemma spec_advances cur expected value retire after :
  spec_cas cur expected value retire = after -> is_Some after -> advances cur after.
Proof.
  intros <- Hs. destruct cur as [[[rev ret] v]|]; cbn in *; [|done]. case_if; [by right|]. case_if; [left; lia | by destruct Hs].
Qed.

(** The key's kind is written by CAS only. *)
Definition plain_kind (k : AuthorityKey) : Prop :=
  validAuthorityKind (k_Kind k) = true /\ k_Kind k <> AuthorityNativeCheckpoint /\ k_Kind k <> AuthorityDeferredAdmission /\
  k_Kind k <> AuthorityPurposeGeneration.

Lemma other_key k k' : plain_kind k -> validAuthorityKind (k_Kind k') = true -> k_Kind k' <> k_Kind k -> key_string k' <> key_string k.
Proof. intros (Hv & _) Hv' Hne E. apply Hne. by apply key_string_kind. Qed.

Lemma CAS_advances k k' expected value retire env t r t' :
  plain_kind k -> e_root env = s -> Settled s (t_db t) -> CAS k' expected value retire env t = (r, t') -> t_faulted t' = false ->
  advances (current s (t_db t) k) (current s (t_db t') k).
Proof.
  intros Hk He (v & Hok & _) Hc Hf. destruct r as [r|e]; [|by rewrite (CAS_Err _ _ _ _ _ _ _ _ Hc Hf)].
  destruct (CAS_spec _ _ _ _ _ _ _ _ _ _ Hroot Hok He Hc Hf) as [Hcur Hspec].
  destruct (decide (key_string k' = key_string k)) as [E|E].
  - assert (forall d, current s d k' = current s d k) as Ec by (intros d; unfold current; by rewrite E).
    rewrite !Ec in *. eapply spec_advances; [exact Hspec|]. rewrite Hcur. by eexists.
  - replace (current s (t_db t') k) with (current s (t_db t) k); [reflexivity|]. symmetry.
    eapply current_outside; [by eapply frames_CAS|]. intros [?|[_ E']]; [done|]. revert E'. apply (other_key k); [done..|].
    destruct Hk as (_ & _ & _ & Hp). cbn. congruence.
Qed.

Lemma method_advances {R} (c : Call R) k env t r t' :
  plain_kind k -> e_root env = s -> Settled s (t_db t) -> method c env t = (r, t') -> t_faulted t' = false ->
  advances (current s (t_db t) k) (current s (t_db t') k).
Proof.
  intros Hk He Hset Hm Hf.
  assert ((forall k', writes c k' -> validAuthorityKind (k_Kind k') = true /\ k_Kind k' <> k_Kind k) ->
    advances (current s (t_db t) k) (current s (t_db t') k)) as Hframe.
  { intros Hw. replace (current s (t_db t') k) with (current s (t_db t) k); [reflexivity|]. symmetry.
    eapply (current_outside s (fun key => exists k', writes c k' /\ key_string k' = key)).
    - eapply (along_method (same_outside _) (fun k' => writes c k')); [| |exact Hm]; [|auto].
      intros k' expected value retire Hk'. eapply frames_weaken; [|apply frames_cas]. intros key <-. by exists k'.
    - intros (k' & Hk' & E). destruct (Hw _ Hk'). by eapply other_key. }
  destruct Hk as (Hv & Hn1 & Hn2 & Hn3). destruct c; cbn [writes] in Hframe; try (by apply Hframe).
  - by eapply CAS_advances.
  - apply Hframe. intros k' (p & id & ->). split; [done|]. cbn. congruence.
  - apply Hframe. intros k' ->. split; [done | congruence].
Qed.

Lemma callback_advances {A} (p : Callback A) k : plain_kind k -> forall env t r t' signed,
  e_root env = s -> Settled s (t_db t) -> run_callback p env t = (r, t', signed) -> t_faulted t' = false ->
  advances (current s (t_db t) k) (current s (t_db t') k).
Proof.
  intros Hk. induction p as [x| |R c next IH]; intros env t r t' signed He Hset Hr Hf; cbn in Hr;
    [injection Hr as _ <- _; reflexivity..|].
  destruct (method c env t) as [x t1] eqn:Em, (run_callback (next x) env t1) as [[a t2] signed'] eqn:Ek.
  injection Hr as _ <- _. destruct (run_callback_settled s Hroot _ _ _ _ _ _ He Ek Hf) as [Hf1 _].
  destruct (settles_method s Hroot _ _ _ _ _ He Em Hf1) as [_ Hset1].
  transitivity (current s (t_db t1) k); [by eapply method_advances | by eapply IH; eauto].
Qed.
End advance.

(** ** Grants and effects *)
Section events.
Context `{Sha256, JsonDecoder, EnvelopeJson, Ed25519, AuthorityJson, AuthorityDocuments, ControlJson}.
Context `{!Ed25519Laws, !AuthorityJsonLaws, !ControlLaws}.
Context (s : Root) (Hroot : root_ok s).

Notation slot_state d c := (current s d (controllerKey (ct_Scope c))).
Definition receipt_row (c : Controller) : string := key_string (receiptKey (ct_Scope c) (ct_RequestID c)).

Lemma controller_plain sc : plain_kind (controllerKey sc).
Proof. by split_and!. Qed.

Lemma receipt_other sc sc' id : key_string (receiptKey sc id) <> key_string (controllerKey sc').
Proof. intros E. unfold key_string, receiptKey, controllerKey, keyID in E. cbn in E. change (ref_String zero_ref) with "" in E. by simplify_eq. Qed.

Lemma transact_cases {A} io owner sc history (fn : Callback A) d r d' :
  transact s io owner sc history fn d = (r, d') -> ro_commit io true = CommitLost ->
  (d' = d /\ is_ok r = false) \/
  exists env t1 t2 a new, e_root env = s /\ (let+ _ := check_scope in migrate) env (mkTxState d 0 false true 0 None) = (Ok tt, t1) /\
    run_callback fn env t1 = (Ok a, t2, new) /\ t_faulted t2 = false /\ d' = t_db t2 /\ (is_ok r = true -> r = Ok a).
Proof.
  unfold transact. intros Ht Hio. case_if; [injection Ht as <- <-; by left|].
  destruct (WithNativeAuthority _ _ _ _ _ _) as [[x d1] new] eqn:Ew. injection Ht as <- <-.
  destruct (transaction_outcome _ _ _ _ _ _ _ _ _ Ew) as [?|(env & t1 & t2 & a & He & Hm & Hr & Hd & Hok & Hf & _)]; [by left|].
  right. exists env, t1, t2, a, new. split_and!; auto.
Qed.

(** A fresh grant. *)
Lemma acquire_run request commitment c env t t' signed :
  e_root env = s -> Settled s (t_db t) -> run_callback (acquire_callback s request commitment) env t = (Ok (c, true), t', signed) ->
  t_faulted t' = false ->
  exists raw, storedValue marshal_controller request = Ok raw /\ c = set_controller_proof request (ct_Proof c) /\
    nd_state (t_db t) !! receipt_row c = None /\ is_Some (nd_state (t_db t') !! receipt_row c) /\
    slot_state (t_db t') c = Some (Epoch c, false, raw) /\
    spec_cas (slot_state (t_db t) c) (ct_ExpectedEpoch request) raw false = Some (Epoch c, false, raw).
Proof.
  intros He Hset Hr Hf. cbn [acquire_callback run_callback method] in Hr.
  destruct (Get _ env t) as [[x|e] t1] eqn:Eg.
  { cbn [run_callback] in Hr. injection Hr as Hr _ _. exfalso. rinv. }
  destruct (isAuthorityNotFound e) eqn:En; [|done]. cbn [negb] in Hr.
  destruct (storedValue marshal_controller request) as [raw|e1] eqn:Es; [|done]. cbn [run_callback method] in Hr.
  destruct (CAS _ _ _ _ env t1) as [[r|e1] t2] eqn:Ec; [|done]. cbv zeta in Hr.
  destruct (marshal_receipt _) as [raw2|]; [|done]. cbn [run_callback method] in Hr.
  destruct (CAS _ _ _ _ env t2) as [[r2|e1] t3] eqn:Ec2; [|done]. cbn in Hr. injection Hr as <- <- _.
  pose proof (not_found_absent _ _ _ _ _ _ _ _ _ _ _ Eg En Ec) as Habs.
  destruct (reads_Get _ _ _ _ _ Eg) as [Hdb _]. rewrite <- Hdb in Hset |- *. rewrite <- Hdb in Habs.
  destruct (settles_CAS s Hroot _ _ _ _ _ _ _ _ He Ec2 Hf) as [Hf2 _].
  destruct Hset as (v & Hok & _). destruct (CAS_spec _ _ _ _ _ _ _ _ _ _ Hroot Hok He Ec Hf2) as [Hcur Hspec].
  exists raw. cbn [ct_Scope ct_RequestID ct_Proof set_controller_proof receipt_row]. unfold receipt_row, Epoch. cbn [ct_Scope ct_RequestID ct_Proof set_controller_proof].
  assert (ar_Value r = raw /\ ar_Retired r = false) as [Hval Hret].
  { rewrite Hcur in Hspec. unfold spec_cas in Hspec. destruct (current s (t_db t1) _) as [[[rev ret] old]|]; repeat case_if; try done; simplify_eq; rinv; try done.
    match goal with Hb : eqb _ _ = true |- _ => apply eqb_prop in Hb end. done. }
  rewrite Hval, Hret in Hcur. split_and!; try done.
  - eapply CAS_present; [|exact Ec2]. done.
  - rewrite <- Hcur. eapply current_outside; [by eapply frames_CAS|]. intros [E|[? _]]; [|done]. by apply receipt_other in E.
  - congruence.
Qed.

(** Passing the check of the current controller. *)
Lemma current_controller_run {A} c (k : result AErr unit -> Callback A) env t x t' signed :
  (forall e, k (Err e) = Return (Err e)) -> e_root env = s ->
  run_callback (currentController s c k) env t = (Ok x, t', signed) ->
  exists r, stored s (t_db t) (controllerKey (ct_Scope c)) r /\ VerifyAuthorityRecord (rt_Identity s) (ct_Proof c) = Ok tt /\
    digest marshal_record (ct_Proof c) = digest marshal_record r.
Proof.
  intros Hk He Hr. unfold currentController, exactRecord in Hr.
  destruct (negb (bool_decide _) || _) eqn:Ev; [cbn [rbind] in Hr; rewrite Hk in Hr; done|].
  cbn [run_callback method] in Hr. destruct (Get _ env t) as [[r|e] t1] eqn:Eg; [|cbn [rbind] in Hr; rewrite Hk in Hr; done].
  destruct (negb (bool_decide _) || _) eqn:Ed in Hr; [cbn [rbind] in Hr; rewrite Hk in Hr; done|].
  exists r. split; [|rinv; split; [|done]].
  - apply Get_stored in Eg. by rewrite He in Eg.
  - destruct (VerifyAuthorityRecord _ (ct_Proof c)) as [[]|]; done.
Qed.

Lemma verified_signable r : VerifyAuthorityRecord (rt_Identity s) r = Ok tt ->
  exists m, signingBytes r = Ok m /\ canonicalDomainNamespace (ar_Namespace r) = true /\ blen (ar_Signature r) = 64.
Proof.
  unfold VerifyAuthorityRecord. rewrite (root_namespace s Hroot). cbn [rbind]. intros Hv. rinv.
  destruct (signingBytes r) as [m|]; [|done]. exists m. split; [done|]. split; [|lia].
  assert (ar_Namespace r = ai_Namespace (rt_Identity s)) as -> by (by apply str_eqb_eq). by apply root_canonical.
Qed.

(** A verified proof with the digest of the stored record is that record. *)
Lemma same_record d k r provided : Settled s d -> stored s d k r -> VerifyAuthorityRecord (rt_Identity s) provided = Ok tt ->
  blen (ar_PreviousHead provided) = 32 -> digest marshal_record provided = digest marshal_record r ->
  provided = r \/ record_collision s.
Proof.
  intros (v & Hok & _) Hst Hver Hlen Hdig. destruct (stored_row _ _ _ _ _ Hok Hst) as (row & dig & _ & Hun & _ & _ & _ & Hver').
  destruct (verified_signable _ Hver) as (m & Hm & Hc & _), (verified_signable _ Hver') as (m' & Hm' & Hc' & Hsig).
  destruct (decide (default [] (marshal_record provided) = default [] (marshal_record r))) as [E|Hne];
    [left | right; by exists provided, r].
  destruct (record_marshals _ _ Hun) as [raw Hraw]. pose proof (record_size _ _ _ Hm' Hc' Hsig Hraw) as [Hpos _].
  rewrite Hraw in E. cbn in E. destruct (marshal_record provided) as [raw'|] eqn:Hraw'; cbn in E; [|by rewrite <- E in Hpos].
  subst raw'. pose proof (record_round_trip _ _ _ Hm Hc Hlen Hraw'). pose proof (record_round_trip _ _ _ Hm' Hc' (record_head _ _ Hun) Hraw).
  congruence.
Qed.

(** ** The invariant *)
Definition subject (e : Event) : Controller := match e with Grant c | Effect c => c end.
Definition same_slot (c c' : Controller) : Prop := controllerKey (ct_Scope c) = controllerKey (ct_Scope c').
Definition follows (c : Controller) (e : Event) : Prop :=
  match e with Grant c' => Epoch c < Epoch c' | Effect c' => Epoch c <= Epoch c' \/ record_collision s end.
Definition ordered (log : list Event) : Prop :=
  forall i j c e, (i < j)%nat -> log !! i = Some (Grant c) -> log !! j = Some e -> same_slot c (subject e) -> follows c e.

(** The slot of a grant is at its epoch or beyond, and its receipt is kept. *)
Definition grant_ok (d : NDB) (c : Controller) : Prop :=
  exists raw, storedValue marshal_controller (set_controller_proof c zero_record) = Ok raw /\ utf8_valid (ct_RequestID c) = true /\
    is_Some (nd_state d !! receipt_row c) /\ advances (Some (Epoch c, false, raw)) (slot_state d c).

Lemma ordered_snoc log e : ordered log -> (forall c, Grant c ∈ log -> same_slot c (subject e) -> follows c e) -> ordered (log ++ [e]).
Proof.
  intros Ho He i j c e' Hij Hi Hj Hs. destruct (decide (j < length log)%nat) as [Hlt|Hge].
  - rewrite lookup_app_l in Hi, Hj by lia. exact (Ho i j c e' Hij Hi Hj Hs).
  - rewrite lookup_app_r in Hj by lia. apply list_lookup_singleton_Some in Hj as [Hj <-].
    rewrite lookup_app_l in Hi by lia. apply He; [by eapply list_elem_of_lookup_2 | done].
Qed.

(** Grants in an unmigrated or a changed database. *)
Lemma grant_state d d' c : nd_state d' = nd_state d -> grant_ok d c -> grant_ok d' c.
Proof. intros Hs (raw & Hc). exists raw. unfold current in *. by rewrite Hs. Qed.

Lemma new_no_grant d c : nd_state d = ∅ -> ~ grant_ok d c.
Proof. intros Hs (raw & _ & _ & [row Hrow] & _). by rewrite Hs, lookup_empty in Hrow. Qed.

Lemma tx_grants {A} (p : Callback A) d env t1 t2 a new : ledger_state s d -> e_root env = s ->
  (let+ _ := check_scope in migrate) env (mkTxState d 0 false true 0 None) = (Ok tt, t1) ->
  run_callback p env t1 = (Ok a, t2, new) -> t_faulted t2 = false ->
  ledger_state s (t_db t2) /\ Settled s (t_db t1) /\ forall c, grant_ok d c -> grant_ok (t_db t1) c /\ grant_ok (t_db t2) c.
Proof.
  intros Hd He Hm Hr Hf.
  assert (2 <= nd_version (t_db t1) <= 3 /\ Settled s (t_db t1) /\ forall c, grant_ok d c -> grant_ok (t_db t1) c) as (Hv & Hset & Hg).
  { apply migrate_cases in Hm as [(-> & Hv)|(Hv & Hc)]; cbn [t_db] in *.
    - destruct Hd as [[? _]|[? ?]]; [lia | done].
    - split; [by injection Hc as <-; cbn; lia|]. split; [by eapply schema_settled|]. intros c Hc'. exfalso.
      destruct Hd as [[_ Hs]|[? _]]; [by eapply new_no_grant | lia]. }
  split; [right; split; [by rewrite (run_callback_version _ _ _ _ _ _ Hr) | by eapply run_callback_settled]|].
  split; [done|]. intros c Hc. split; [auto|]. destruct (Hg _ Hc) as (raw & H1' & H2' & Hrec & Hadv). exists raw. split_and!; try done.
  - apply callback_grows in Hr as [_ Hr]. auto.
  - etrans; [exact Hadv|]. by eapply (callback_advances s Hroot); [apply controller_plain | ..].
Qed.

Record control_inv (d : NDB) (log : list Event) : Prop := {
  ci_ledger : ledger_state s d;
  ci_grants : forall c, Grant c ∈ log -> grant_ok d c;
  ci_ordered : ordered log;
}.

(** A grant beyond an earlier one of its slot. *)
Lemma grant_follows c0 c raw expected d :
  grant_ok d c0 -> same_slot c0 c -> nd_state d !! receipt_row c = None -> utf8_valid (ct_RequestID c) = true ->
  storedValue marshal_controller (set_controller_proof c zero_record) = Ok raw ->
  spec_cas (slot_state d c) expected raw false = Some (Epoch c, false, raw) -> Epoch c0 < Epoch c.
Proof.
  intros (raw0 & Hs0 & Hu0 & Hrec & Hadv) Hslot Habs Hu Hs Hspec. unfold same_slot in Hslot. rewrite Hslot in Hadv. unfold advances in Hadv.
  destruct (slot_state d c) as [[[rev ret] old]|]; [|done]. unfold spec_cas in Hspec. case_if.
  - injection Hspec as -> -> ->. destruct Hadv as [?|(_ & _ & <-)]; [done|]. exfalso.
    destruct (request_determined (set_controller_proof c zero_record) (set_controller_proof c0 zero_record) raw0 Hu Hu0 Hs Hs0) as [Hid Hend]. cbn in Hid, Hend.
    unfold receipt_row, receiptKey in *. rewrite Hid, Hend in Habs. rewrite Habs in Hrec. by destruct Hrec.
  - case_if; [|done]. simplify_eq. rinv. lia.
Qed.

Lemma acquire_step d log io owner sc expected requestID controllerID r d' :
  control_inv d log -> ro_commit io true = CommitLost -> acquire s io owner sc expected requestID controllerID d = (r, d') ->
  control_inv d' (log ++ granted r).
Proof.
  intros Hinv Hio Ha. unfold acquire in Ha. case_if; [injection Ha as <- <-; by rewrite app_nil_r|]. cbv zeta in Ha.
  destruct (marshal_controller _) as [m|]; [|injection Ha as <- <-; by rewrite app_nil_r].
  destruct (transact_cases _ _ _ _ _ _ _ _ Ha Hio) as [[-> Hr]|(env & t1 & t2 & a & new & He & Hm & Hrun & Hf & -> & Hr)].
  { destruct r; [done|]. by rewrite app_nil_r. }
  destruct Hinv as [Hl Hg Ho]. destruct (tx_grants _ _ _ _ _ _ _ Hl He Hm Hrun Hf) as (Hl2 & Hset & Hk).
  assert (control_inv (t_db t2) log) as Hkeep by (split; [done | intros c Hc; by apply Hk, Hg | done]).
  destruct r as [[c fresh]|e]; [|by rewrite app_nil_r]. specialize (Hr eq_refl). injection Hr as <-.
  destruct fresh; [|by rewrite app_nil_r]. cbn [granted].
  destruct (acquire_run _ _ _ _ _ _ _ He Hset Hrun Hf) as (raw & Hs & Hc & Habs & Hrec & Hcur & Hspec).
  assert (set_controller_proof c zero_record = request_of sc expected requestID controllerID) as Hreq by (by rewrite Hc).
  assert (utf8_valid (ct_RequestID c) = true) as Hu.
  { rewrite Hc. cbn. match goal with Hb : negb (id_text requestID) || _ = false |- _ => apply orb_false_iff in Hb as [Hid _] end. unfold id_text in Hid. rinv. done. }
  split; [done| |].
  - intros c0 [Hc0|Hc0]%elem_of_app; [by apply Hk, Hg|]. apply list_elem_of_singleton in Hc0 as [= ->].
    exists raw. rewrite Hreq, Hcur. by split_and!; [..|right].
  - apply ordered_snoc; [done|]. intros c0 Hc0 Hslot. eapply (grant_follows c0 c raw _ (t_db t1)); try done; [by apply Hk, Hg | by rewrite Hreq].
Qed.

Lemma effect_step d log io owner c (k : result AErr unit -> Callback Binding) r d' :
  (forall e, k (Err e) = Return (Err e)) -> blen (ar_PreviousHead (ct_Proof c)) = 32 ->
  control_inv d log -> ro_commit io true = CommitLost ->
  transact s io owner (ct_Scope c) false (currentController s c k) d = (r, d') -> control_inv d' (log ++ effect c r).
Proof.
  intros Hk Hlen Hinv Hio Ht.
  destruct (transact_cases _ _ _ _ _ _ _ _ Ht Hio) as [[-> Hr]|(env & t1 & t2 & a & new & He & Hm & Hrun & Hf & -> & Hr)].
  { destruct r; [done|]. by rewrite app_nil_r. }
  destruct Hinv as [Hl Hg Ho]. destruct (tx_grants _ _ _ _ _ _ _ Hl He Hm Hrun Hf) as (Hl2 & Hset & Hgr).
  destruct r as [b|e]; cbn [effect]; [|rewrite app_nil_r; split; [done | intros c0 Hc0; by apply Hgr, Hg | done]].
  destruct (current_controller_run _ _ _ _ _ _ _ Hk He Hrun) as (x & Hst & Hver & Hdig).
  split; [done| |].
  - intros c0 [Hc0|Hc0]%elem_of_app; [by apply Hgr, Hg|]. by apply list_elem_of_singleton in Hc0.
  - apply ordered_snoc; [done|]. intros c0 Hc0 Hslot. cbn [follows subject] in *.
    destruct (same_record _ _ _ _ Hset Hst Hver Hlen Hdig) as [Hsame|]; [left | by right].
    destruct (Hgr _ (Hg _ Hc0)) as [(raw & _ & _ & _ & Hadv) _]. unfold same_slot in Hslot. rewrite Hslot, (stored_current _ _ _ _ Hst) in Hadv.
    cbn in Hadv. unfold Epoch in *. rewrite Hsame. lia.
Qed.

Lemma controlled_inv d log : controlled s d log -> control_inv d log.
Proof.
  induction 1 as [d Hv Hs|d d' log Hc [Hl Hg Ho] (Hh & Hlog & Hst & Hv)|d d' log Hc [Hl Hg Ho] Hv Hsch|d d' log A p io owner scope r new Hc [Hl Hg Ho] Hio Hw
    |d d' log io owner sc expected rid cid r Hc IH Hio Ha|d d' log io owner c rev worker r Hc IH Hio Hlen Hb|d d' log io owner c original r Hc IH Hio Hlen Hb].
  - split; [by left | by intros c ?%not_elem_of_nil | by intros i j c e _ ?].
  - split; [|intros c Hc'; eapply grant_state; eauto | done]. destruct Hl as [[E1 E2]|[E1 E2]]; [left | right].
    + split; [lia | congruence].
    + split; [lia|]. by apply (settled_same s d).
  - split; [right; split; [by injection Hsch as <-; cbn; lia | by eapply schema_settled] | | done].
    intros c Hc'. destruct Hl as [[_ Hs]|[? _]]; [|lia]. exfalso. by eapply new_no_grant; eauto.
  - destruct (authority_transaction_cases _ _ _ _ _ _ _ _ _ Hw Hio) as [[-> _]|(env & t1 & t2 & a & He & Hm & Hr & Hf & ->)]; [done|].
    destruct (tx_grants _ _ _ _ _ _ _ Hl He Hm Hr Hf) as (Hl2 & _ & Hk). split; [done | intros c Hc'; by apply Hk, Hg | done].
  - by eapply acquire_step.
  - unfold BindWorker in Hb. case_if; [injection Hb as <- <-; by rewrite app_nil_r|]. eapply effect_step; [..|exact Hb]; done.
  - unfold RenewWorkerBinding in Hb. case_if; [injection Hb as <- <-; by rewrite app_nil_r|]. eapply effect_step; [..|exact Hb]; done.
Qed.

(** C15. Control of a worker slot is fenced by epochs. In any history of grants,
    worker bindings, renewals and other transactions of a root's ledger, in which no
    transaction with a failed statement was committed, the epoch of every
    newly granted controller is higher than the epochs of all controllers granted before for its slot, and a binding or renewal only ever succeeds under
    the epoch of the latest grant or a later one: a replaced controller never takes
    effect again (unless two different signed records collide under SHA-256). *)
Theorem replaced_controllers_are_fenced (d : NDB) (log : list Event) (i j : nat) (c : Controller) (e : Event) :
  controlled s d log -> (i < j)%nat -> log !! i = Some (Grant c) -> log !! j = Some e -> same_slot c (subject e) ->
  match e with
  | Grant c' => Epoch c < Epoch c'
  | Effect c' => Epoch c <= Epoch c' \/ record_collision s
  end.
Proof.
  intros Hc Hij Hi Hj Hs. exact (ci_ordered _ _ (controlled_inv _ _ Hc) i j c e Hij Hi Hj Hs).
Qed.
End events.
End ControlProps.

(** A slot that changes hands: each controller binds the worker while it is
    current, and the first one is refused after its replacement. *)
Module ControlWitness.
Import Ref Wire Model RefWitness WireWitness ModelWitness.
Import Authority.Authority AuthorityTx.AuthorityTx AuthorityInv.AuthorityInv AuthorityHistory.AuthorityHistory AuthorityProps.AuthorityWitness.
Import Control.Control ControlProps.

#[local] Existing Instance w_ed.
#[local] Existing Instance w_ed_laws.
#[local] Existing Instance w_envelope_json.
#[local] Instance k_documents : AuthorityDocuments :=
  {| marshal_claim _ := None; marshal_claim_key _ _ := []; marshal_binding _ := None; marshal_deferred _ := None;
     unmarshal_deferred _ := None; marshal_provenance _ := []; marshal_strings l := bytes_of (List.last l ""); decode_controller _ := None;
     decode_caller_binding _ := None; decode_origin _ := None; deep_shape _ := [] |}.

Definition k_scope : Scope := mkIdScope w_endpoint "r1" "b1".
Definition k_worker : WorkerBinding := mkWorker "w1" "state" "g1" "codex" (replicate 32 x02).

(** The records of the run, in the order of their encodings. *)
Definition k_record (k : AuthorityKey) (revision sequence : Z) (previous value : list byte) : AuthorityRecord :=
  mkRecord 1 w_ns w_store 1 k revision (revision - 1) sequence previous false value (replicate 64 x01).
Definition k_table : list AuthorityRecord :=
  [ k_record (controllerKey k_scope) 1 1 zero32 (bytes_of "first");
    k_record (receiptKey k_scope "first") 1 2 (sha256 (w_raw 1)) [x72];
    k_record (bindingKey k_scope) 1 3 (sha256 (w_raw 2)) [x62];
    k_record (controllerKey k_scope) 2 4 (sha256 (w_raw 3)) (bytes_of "second");
    k_record (receiptKey k_scope "second") 1 5 (sha256 (w_raw 4)) [x72];
    k_record (bindingKey k_scope) 2 6 (sha256 (w_raw 5)) [x62] ].
#[local] Instance k_json : AuthorityJson :=
  {| marshal_statement _ := Some []; marshal_record r := encode_record 1 r k_table;
     unmarshal_record raw := match raw with [] => None | _ :: raw => k_table !! length raw end;
     marshal_purpose p := None; unmarshal_purpose raw := None; decode_endpoint _ := Some w_descriptor; decode_offer _ := None |}.

#[local] Instance k_json_laws : AuthorityJsonLaws.
Proof.
  split.
  - intros r m raw _ _ _ Hm. apply encode_record_Some in Hm as [Hlen Hl]. destruct raw as [|b raw]; [cbn in Hlen; lia|].
    cbn [unmarshal_record k_json]. rewrite <- Hl. f_equal. cbn. lia.
  - intros r m raw _ _ _ Hm. apply encode_record_Some in Hm as [Hlen _]. unfold blen. cbn [length k_table] in Hlen. lia.
  - reflexivity.
  - done.
Qed.

(** Requests of the endpoint are stored by their identities. *)
#[local] Instance k_control_json : ControlJson :=
  {| marshal_controller c := if decide (is_Endpoint (ct_Scope c) = w_endpoint) then Some (bytes_of (ct_RequestID c)) else None;
     unmarshal_controller raw := Some (mkController k_scope "" (string_of raw) 0 zero_record);
     marshal_worker_slot _ := Some [x62]; unmarshal_worker_slot _ := None; marshal_receipt _ := Some [x72];
     unmarshal_receipt _ := None; unmarshal_members raw := Some {["v" := raw]}; marshal_members m := m !! "v" |}.

Lemma encode_record_elem r l : r ∈ l -> forall n, is_Some (encode_record n r l).
Proof.
  induction 1 as [r l|r r' l _ IH]; intros n; cbn; [by rewrite decide_True|]. case_decide; [by eexists | apply IH].
Qed.

#[local] Instance k_control_laws : ControlLaws.
Proof.
  split.
  - intros [|b raw] r Hr; [done|]. apply (encode_record_elem r k_table). exact (list_elem_of_lookup_2 _ (length raw) _ Hr).
  - intros [|b raw] r Hr; [done|]. change (k_table !! length raw = Some r) in Hr.
    assert (Forall (fun r => blen (ar_PreviousHead r) = 32) k_table) as Hall by (repeat constructor).
    by eapply Forall_lookup_1 in Hall.
  - intros c c' raw _ _. unfold storedValue. cbn [marshal_controller k_control_json].
    destruct (decide (is_Endpoint (ct_Scope c) = _)) as [E|]; [|done]. destruct (decide (is_Endpoint (ct_Scope c') = _)) as [E'|]; [|done].
    cbn. rewrite !lookup_delete_ne, !lookup_singleton_eq by done. cbn. intros [= <-] [= Hid].
    split; [symmetry; by apply bytes_of_inj | congruence].
Qed.

Definition k_granted (r : result AErr (Controller * bool)) : Controller :=
  match r with Ok (c, _) => c | Err _ => request_of k_scope 0 "" "" end.
Definition k_tx1 := acquire w_root w_io (w_context w_owner) k_scope 0 "first" "A" w_new.
Definition k_first : Controller := k_granted k_tx1.1.
Definition k_tx2 := BindWorker w_root w_io (w_context w_owner) k_first 0 k_worker k_tx1.2.
Definition k_tx3 := acquire w_root w_io (w_context w_owner) k_scope 1 "second" "B" k_tx2.2.
Definition k_second : Controller := k_granted k_tx3.1.
(** The replaced controller tries first. *)
Definition k_tx4 := BindWorker w_root w_io (w_context w_owner) k_first 1 k_worker k_tx3.2.
Definition k_tx5 := BindWorker w_root w_io (w_context w_owner) k_second 1 k_worker k_tx4.2.
Definition k_log : list Event := ((([] ++ granted k_tx1.1) ++ effect k_first k_tx2.1) ++ granted k_tx3.1) ++ effect k_first k_tx4.1.

Lemma k_controlled : controlled w_root k_tx5.2 (k_log ++ effect k_second k_tx5.1).
Proof.
  unfold k_log.
  eapply (ControlledBind w_root k_tx4.2 _ _ w_io (w_context w_owner)); [|reflexivity| |apply surjective_pairing]; [|vm_compute; reflexivity].
  eapply (ControlledBind w_root k_tx3.2 _ _ w_io (w_context w_owner)); [|reflexivity| |apply surjective_pairing]; [|vm_compute; reflexivity].
  eapply (ControlledAcquire w_root k_tx2.2 _ _ w_io (w_context w_owner)); [|reflexivity|apply surjective_pairing].
  eapply (ControlledBind w_root k_tx1.2 _ _ w_io (w_context w_owner)); [|reflexivity| |apply surjective_pairing]; [|vm_compute; reflexivity].
  eapply (ControlledAcquire w_root w_new _ _ w_io (w_context w_owner)); [|reflexivity|apply surjective_pairing].
  by apply ControlledNew.
Qed.

Lemma fenced_witness :
  k_log ++ effect k_second k_tx5.1 = [Grant k_first; Effect k_first; Grant k_second; Effect k_second] /\
  is_ok k_tx4.1 = false /\ Epoch k_first < Epoch k_second.
Proof.
  assert (k_log ++ effect k_second k_tx5.1 = [Grant k_first; Effect k_first; Grant k_second; Effect k_second]) as Hlog
    by (vm_compute; reflexivity).
  split; [exact Hlog|]. split; [vm_compute; reflexivity|].
  apply (replaced_controllers_are_fenced w_root w_root_ok k_tx5.2 (k_log ++ effect k_second k_tx5.1) 0 2 k_first (Grant k_second));
    [exact k_controlled | lia | rewrite Hlog; reflexivity | rewrite Hlog; reflexivity | vm_compute; reflexivity].
Defined.
End ControlWitness.
