(* ===== verification/Launch.v ===== *)
(** * Native worker launches (src/internal/fabricnative/launch_claim.go,
    src/internal/nativeauthority/scope.go)

    A client of the native authority ledger: before a worker process is started
    its launch is claimed in the ledger, once per physical ownership slot; the
    claim yields a ticket that starts one process, and is later completed with the
    kernel identity of the observed worker. The worker's private channel and the
    launch itself are arguments. Parameters: net/url ([UrlParser]), the data
    protector ([DataProtector]) and the JSON forms ([ControlJson], [LaunchJson]). *)
From Stdlib Require Import Ascii Strings.Byte ZArith Lia.
From S2P Require Import Prelude GoStrings FabricRef Framing Wire FabricModel SqlTx Durable Sender Authority AuthorityTx Control.
#[local] Open Scope Z_scope.
#[local] Arguments str_eqb _ _ : simpl never.

(** ** scope.go *)
Module NativeScope.
Import Names Ref.

Inductive Kind := Cloud | Local | NoKind.
Record CloudScope := mkCloud {
  cl_ServerURL : string; cl_TenantID : string; cl_AccountID : string; cl_HostID : string; cl_InstanceID : string; cl_Generation : string }.
Record LocalScope := mkLocal {
  lo_Namespace : string; lo_StoreID : string; lo_KeyRevision : Z; lo_PublicKey : list byte; lo_Owner : Principal;
  lo_Endpoint : EndpointRef; lo_DescriptorRevision : string; lo_BindingID : string; lo_BindingDigest : list byte;
  lo_StateDirectoryID : string; lo_WorkerID : string; lo_OwnershipGeneration : string; lo_ActualRuntime : string;
  lo_ProfileDigest : list byte }.
Record Scope := mkScope { s_kind : Kind; s_cloud : CloudScope; s_local : LocalScope }.

#[export] Instance kind_eq_dec : EqDecision Kind.
Proof. solve_decision. Defined.
#[export] Instance cloud_eq_dec : EqDecision CloudScope.
Proof. solve_decision. Defined.
#[export] Instance local_eq_dec : EqDecision LocalScope.
Proof. solve_decision. Defined.
#[export] Instance scope_eq_dec : EqDecision Scope.
Proof. solve_decision. Defined.

Definition zero_digest : list byte := replicate 32 x00.
Definition zero_cloud : CloudScope := mkCloud "" "" "" "" "" "".
Definition zero_local : LocalScope :=
  mkLocal "" "" 0 zero_digest (mkPrincipal "" "" "") (mkRef "" "" "") "" "" zero_digest "" "" "" "" zero_digest.

Definition scope_text (s : string) (max : Z) : bool := negb (str_eqb s "") && (len s <=? max) && utf8_valid s.

Definition local_scope (l : LocalScope) : Scope := mkScope Local zero_cloud l.

Definition scope_WorkerID (s : Scope) : string :=
  match s_kind s with Cloud => cl_InstanceID (s_cloud s) | Local => lo_WorkerID (s_local s) | NoKind => "" end.
Definition scope_OwnershipGeneration (s : Scope) : string :=
  match s_kind s with Cloud => cl_Generation (s_cloud s) | Local => lo_OwnershipGeneration (s_local s) | NoKind => "" end.
Definition scope_Local (s : Scope) : option LocalScope := match s_kind s with Local => Some (s_local s) | _ => None end.

Section validate.
Context `{Sha256, UrlParser}.

Definition Cloud_Validate (c : CloudScope) : bool :=
  match url_Parse (cl_ServerURL c) with
  | None => false
  | Some u =>
      (str_eqb (u_Scheme u) "https" || str_eqb (u_Scheme u) "http") && negb (str_eqb (u_Host u) "") && negb (u_HasUser u) &&
      str_eqb (u_RawQuery u) "" && str_eqb (u_Fragment u) "" && scope_text (cl_ServerURL c) 2048 && scope_text (cl_TenantID c) 256 &&
      scope_text (cl_AccountID c) 256 && scope_text (cl_HostID c) 256 && scope_text (cl_InstanceID c) 256 && scope_text (cl_Generation c) 256
  end.

Definition Local_Validate (l : LocalScope) : bool :=
  match DomainNamespace (lo_PublicKey l) with
  | Err _ => false
  | Ok namespace =>
      canonical_hex32 (lo_StoreID l) && str_eqb namespace (lo_Namespace l) && str_eqb (Domain (lo_Endpoint l)) namespace &&
      negb (IsOffer (lo_Endpoint l)) && (lo_KeyRevision l =? 1) && scope_text (lo_StoreID l) 64 && (len (lo_StoreID l) =? 64) &&
      scope_text (lo_DescriptorRevision l) 256 && scope_text (lo_BindingID l) 256 && scope_text (lo_StateDirectoryID l) 256 &&
      scope_text (lo_WorkerID l) 256 && scope_text (lo_OwnershipGeneration l) 256 && scope_text (lo_ActualRuntime l) 256 &&
      negb (bool_decide (lo_ProfileDigest l = zero_digest)) && negb (bool_decide (lo_BindingDigest l = zero_digest)) &&
      scope_text (p_Ref (lo_Owner l)) 4096 && scope_text (p_Issuer (lo_Owner l)) 4096 && ValidNamespacedName (p_Kind (lo_Owner l))
  end.

Definition Scope_Validate (s : Scope) : bool :=
  match s_kind s with
  | Cloud => bool_decide (s_local s = zero_local) && Cloud_Validate (s_cloud s)
  | Local => bool_decide (s_cloud s = zero_cloud) && Local_Validate (s_local s)
  | NoKind => false
  end.

(** The local scope without what an explicit renewal may change. *)
Definition physical (l : LocalScope) : LocalScope :=
  mkLocal (lo_Namespace l) (lo_StoreID l) (lo_KeyRevision l) (lo_PublicKey l) (lo_Owner l) (lo_Endpoint l) "" (lo_BindingID l)
    zero_digest (lo_StateDirectoryID l) (lo_WorkerID l) (lo_OwnershipGeneration l) (lo_ActualRuntime l) (lo_ProfileDigest l).

Definition SamePhysical (s other : Scope) : bool :=
  Scope_Validate s && Scope_Validate other && bool_decide (s_kind s = s_kind other) &&
  match s_kind s with
  | Cloud => bool_decide (s_cloud s = s_cloud other)
  | _ => bool_decide (physical (s_local s) = physical (s_local other))
  end.
Definition NewCloudScope (cloud : CloudScope) : option Scope :=
  if Cloud_Validate cloud then Some (mkScope Cloud cloud zero_local) else None.
End validate.

Section binding.
Import Authority.Authority Control.Control.
Context `{Sha256, Ed25519, AuthorityJson, ControlJson, UrlParser}.

Definition local_of (root : AuthorityIdentity) (binding : Binding) (supplied : list byte) : LocalScope :=
  let w := bd_Worker binding in
  mkLocal (ai_Namespace root) (ai_StoreID root) (ai_KeyRevision root) (resize 32 x00 (ai_PublicKey root)) (ai_Owner root)
    (is_Endpoint (bd_Scope binding)) (is_DescriptorRevision (bd_Scope binding)) (is_BindingID (bd_Scope binding)) (sha256 supplied)
    (wb_StateDirectoryID w) (wb_WorkerID w) (wb_OwnershipGeneration w) (wb_ActualRuntime w) (wb_ProfileDigest w).

Definition NewLocalScope (root : AuthorityIdentity) (binding : Binding) : option NativeScope.Scope :=
  let proof := bd_Proof binding in
  if negb (is_ok (VerifyAuthorityRecord root proof)) || ar_Retired proof || negb (bool_decide (k_Kind (ar_Key proof) = AuthorityBinding)) ||
     negb (bool_decide (k_Endpoint (ar_Key proof) = is_Endpoint (bd_Scope binding))) ||
     negb (str_eqb (k_ID (ar_Key proof)) (is_BindingID (bd_Scope binding)))
  then None else
  match unmarshal_worker_slot (ar_Value proof), marshal_worker_slot binding with
  | Some stored, Some supplied =>
      match marshal_worker_slot (set_binding_proof stored proof) with
      | Some canonical =>
          if negb (bool_decide (supplied = canonical)) then None else
          let local := local_of root binding supplied in
          if Local_Validate local then Some (local_scope local) else None
      | None => None
      end
  | _, _ => None
  end.
End binding.
End NativeScope.

(** ** launch_claim.go *)
Module Launch.
Import Ref Wire Model Authority.Authority AuthorityTx.AuthorityTx NativeScope.

Record ProcessSnapshot := mkProcess { ps_PID : Z; ps_Parent : Z; ps_UID : Z; ps_Start : Z }.
#[export] Instance process_eq_dec : EqDecision ProcessSnapshot.
Proof. solve_decision. Defined.

#[export] Instance key_reference_eq_dec : EqDecision Durable.KeyReference.
Proof. solve_decision. Defined.

Definition launch_version : string := "pagnet.native.launch-claim.v2".
Record launchClaim := mkLaunch {
  lc_Version : string; lc_Ownership : Scope; lc_Attempt : string; lc_Phase : string; lc_Process : option ProcessSnapshot;
  lc_Directory : list byte; lc_Key : Durable.KeyReference }.
Record LaunchState := mkLaunchState {
  ls_Exists : bool; ls_Ownership : Scope; ls_Observed : option ProcessSnapshot; ls_Directory : string }.
Definition no_launch : LaunchState := mkLaunchState false (NativeScope.mkScope NoKind zero_cloud zero_local) None "".

Record Checkpoints := mkCheckpoints { ck_owner : ExecutionContext; ck_root : AuthorityIdentity; ck_key : Durable.KeyReference }.

Class LaunchJson := {
  marshal_local : LocalScope -> option (list byte);
  marshal_launch : launchClaim -> option (list byte);
  decode_launch : list byte -> option launchClaim;      (** decodeCheckpoint *)
  marshal_directory : string -> option (list byte);
  decode_directory : list byte -> option string;
  marshal_launch_aad : string -> string -> string -> string -> Durable.KeyReference -> list byte;
}.

Definition checkpointDenied : AErr := AFabric (NewError CodeProtocolError "Original native checkpoint unavailable or changed").
Definition unavailable (m : string) : AErr := AFabric (NewError CodeTargetUnavailable m).

(** filepath.IsAbs and filepath.Clean(directory) == directory on Unix: "/", or
    rooted without empty, "." or ".." elements. *)
Definition clean_absolute (directory : string) : bool :=
  match directory with
  | String c rest =>
      ceq c "/" && (str_eqb rest "" ||
        forallb (fun e => negb (str_eqb e "" || str_eqb e "." || str_eqb e "..")) (split_on "/" rest))
  | EmptyString => false
  end.
Definition validLaunchDirectory (directory : string) : bool :=
  negb (str_eqb directory "") && (len directory <=? 4096) && utf8_valid directory && clean_absolute directory.

Section launch.
Context `{Sha256, JsonDecoder, EnvelopeJson, Ed25519, AuthorityJson, AuthorityDocuments, UrlParser, LaunchJson, Durable.DataProtector}.

Definition launchClaimKey (scope : Scope) : result AErr AuthorityKey :=
  let? local := of_option (if Scope_Validate scope then scope_Local scope else None) checkpointDenied in
  let? raw := of_option (marshal_local (physical local)) jsonError in
  Ok (mkKey AuthorityNativeCheckpoint zero_ref ("launch/" ++ hex_encode (sha256 raw))).

Definition launchAAD (c : Checkpoints) (key : AuthorityKey) : list byte :=
  marshal_launch_aad "pagnet.native.launch-directory.v1" (ai_Namespace (ck_root c)) (ai_StoreID (ck_root c)) (k_ID key) (ck_key c).

(** The slot belongs to the root of the checkpoints. *)
Definition own_root (c : Checkpoints) (scope : Scope) : result AErr unit :=
  let? local := of_option (scope_Local scope) checkpointDenied in
  guard (str_eqb (lo_Namespace local) (ai_Namespace (ck_root c)) && str_eqb (lo_StoreID local) (ai_StoreID (ck_root c)) &&
         bool_decide (lo_Owner local = ai_Owner (ck_root c))) checkpointDenied.

Definition global_scope : AuthorityScope := Authority.mkScope zero_ref "" "" false 0 0.
Definition valid_attempt (attempt : string) : bool := negb (str_eqb attempt "" || (256 <? len attempt) || negb (utf8_valid attempt)).

(** *** LookupLaunch *)
Definition launch_phase_ok (claim : launchClaim) : bool :=
  if str_eqb (lc_Phase claim) "launching" then match lc_Process claim with None => true | Some _ => false end
  else if str_eqb (lc_Phase claim) "observed"
  then match lc_Process claim with Some p => negb ((ps_PID p <=? 0) || (ps_Start p <=? 0)) | None => false end
  else false.

Definition retained_launch (c : Checkpoints) (scope : Scope) (record : AuthorityRecord) : result AErr launchClaim :=
  let? claim := of_option (if ar_Retired record then None else decode_launch (ar_Value record)) checkpointDenied in
  let? _ := guard (str_eqb (lc_Version claim) launch_version && Scope_Validate (lc_Ownership claim) &&
                   SamePhysical (lc_Ownership claim) scope && valid_attempt (lc_Attempt claim)) checkpointDenied in
  let? _ := guard (launch_phase_ok claim) checkpointDenied in
  let? _ := guard (bool_decide (lc_Key claim = ck_key c) && negb (blen (lc_Directory claim) =? 0) &&
                   (blen (lc_Directory claim) <=? 16 * 1024)) checkpointDenied in
  Ok claim.

Definition lookup_callback (c : Checkpoints) (scope : Scope) (key : AuthorityKey) : Callback (option launchClaim) :=
  Invoke (CallGet key) (fun r =>
    match r with
    | Err e => Return (if isAuthorityNotFound e then Ok None else Err e)
    | Ok record => Return (let? claim := retained_launch c scope record in Ok (Some claim))
    end).

Definition LookupLaunch (s : Root) (c : Checkpoints) (io : RootIO) (scope : Scope) (d : NDB) : result AErr LaunchState * NDB :=
  match (let? _ := own_root c scope in launchClaimKey scope) with
  | Err e => (Err e, d)
  | Ok key =>
      let '(r, d, _) := WithNativeAuthority s io (ck_owner c) global_scope (lookup_callback c scope key) d in
      (let? found := r in
       match found with
       | None => Ok no_launch
       | Some claim =>
           let? raw := of_option (Durable.Open (launchAAD c key) (lc_Directory claim)) checkpointDenied in
           let? directory := of_option (decode_directory raw) checkpointDenied in
           let? _ := guard (validLaunchDirectory directory) checkpointDenied in
           Ok (mkLaunchState true (lc_Ownership claim) (lc_Process claim) directory)
       end, d)
  end.

(** *** LaunchTicket *)
Record LaunchTicket := mkTicket { lt_used : bool; lt_committed : bool }.

(** The third component: whether the launch was called. *)
Definition Run (t : LaunchTicket) (alive : bool) (launch : option AErr) : option AErr * LaunchTicket * bool :=
  if negb (lt_committed t) || lt_used t
  then (Some (unavailable "Native launch already attempted; recover the original worker"), t, false)
  else
    let t := mkTicket true (lt_committed t) in
    if negb alive then (Some AContext, t, false) else (launch, t, true).

(** *** BeginLaunch *)
Definition begin_callback (key : AuthorityKey) (raw : list byte) : Callback unit :=
  Invoke (CallGet key) (fun r =>
    match r with
    | Ok _ => Return (Err (unavailable "Native launch outcome requires original worker recovery"))
    | Err e =>
        if negb (isAuthorityNotFound e) then Return (Err e)
        else Invoke (CallCAS key 0 raw false) (fun r => Return (let? _ := r in Ok tt))
    end).

Definition begin_claim (c : Checkpoints) (nonce : list byte) (ownership : Scope) (attempt directory : string) :
    result AErr (AuthorityKey * list byte) :=
  let? _ := guard (valid_attempt attempt && validLaunchDirectory directory) checkpointDenied in
  let? _ := own_root c ownership in
  let? key := launchClaimKey ownership in
  let? plain := of_option (marshal_directory directory) jsonError in
  let? sealed := of_option (Durable.Seal nonce (launchAAD c key) plain) checkpointDenied in
  let? _ := guard (negb (blen sealed =? 0) && (blen sealed <=? 16 * 1024)) checkpointDenied in
  let? raw := of_option (marshal_launch (mkLaunch launch_version ownership attempt "launching" None sealed (ck_key c))) jsonError in
  Ok (key, raw).

Definition BeginLaunch (s : Root) (c : Checkpoints) (io : RootIO) (nonce : list byte) (ownership : Scope) (attempt directory : string)
    (d : NDB) : result AErr LaunchTicket * NDB :=
  match begin_claim c nonce ownership attempt directory with
  | Err e => (Err e, d)
  | Ok (key, raw) =>
      let '(r, d, _) := WithNativeAuthority s io (ck_owner c) global_scope (begin_callback key raw) d in
      (let? _ := r in Ok (mkTicket false true), d)
  end.

(** *** ObserveLaunched *)

(** The answers of the worker's private channel: its owner process, the authority
    of its snapshot, and its owner process again. *)
Record WorkerIPC := mkIPC { ip_first : result AErr ProcessSnapshot; ip_snapshot : option Scope; ip_second : result AErr ProcessSnapshot }.

Definition observe_callback (c : Checkpoints) (ownership : Scope) (key : AuthorityKey) (process : ProcessSnapshot) : Callback unit :=
  Invoke (CallGet key) (fun r =>
    match r with
    | Err e => Return (Err e)
    | Ok record =>
        match (if ar_Retired record then None else decode_launch (ar_Value record)) with
        | None => Return (Err checkpointDenied)
        | Some claim =>
            if negb (str_eqb (lc_Version claim) launch_version && bool_decide (lc_Ownership claim = ownership) &&
                     negb (str_eqb (lc_Attempt claim) "") && bool_decide (lc_Key claim = ck_key c) &&
                     negb (blen (lc_Directory claim) =? 0) && (blen (lc_Directory claim) <=? 16 * 1024))
            then Return (Err checkpointDenied)
            else if str_eqb (lc_Phase claim) "observed" then
              Return (match lc_Process claim with
                      | Some p => guard ((ps_PID p =? ps_PID process) && (ps_UID p =? ps_UID process) && (ps_Start p =? ps_Start process))
                                    checkpointDenied
                      | None => Err checkpointDenied
                      end)
            else if negb (str_eqb (lc_Phase claim) "launching") || bool_decide (is_Some (lc_Process claim))
            then Return (Err checkpointDenied)
            else
              match marshal_launch (mkLaunch (lc_Version claim) (lc_Ownership claim) (lc_Attempt claim) "observed" (Some process)
                                      (lc_Directory claim) (lc_Key claim)) with
              | None => Return (Err jsonError)
              | Some raw => Invoke (CallCAS key (ar_Revision record) raw false) (fun r => Return (let? _ := r in Ok tt))
              end
        end
    end).

Definition ObserveLaunched (s : Root) (c : Checkpoints) (io : RootIO) (ipc : WorkerIPC) (ownership : Scope) (d : NDB) :
    result AErr ProcessSnapshot * NDB :=
  match (let? key := launchClaimKey ownership in
         let? process := ip_first ipc in
         let? _ := guard (bool_decide (ip_snapshot ipc = Some ownership)) checkpointDenied in
         let? _ := guard (match ip_second ipc with Ok fresh => bool_decide (fresh = process) | Err _ => false end) checkpointDenied in
         Ok (key, process)) with
  | Err e => (Err e, d)
  | Ok (key, process) =>
      let '(r, d, _) := WithNativeAuthority s io (ck_owner c) global_scope (observe_callback c ownership key process) d in
      (let? _ := r in Ok process, d)
  end.
End launch.
End Launch.
