(* ===== verification/LaunchProps.v ===== *)
(** * Native worker launches: at most one process per ownership slot

    The machine of launches: claims, tickets, observations and lookups, any other
    transaction of the same ledger, and restarts that forget every ticket. *)
From Stdlib Require Import Ascii Strings.Byte ZArith Lia.
From S2P Require Import Prelude GoStrings FabricRef Framing Wire FabricModel SqlTx Durable Sender Authority AuthorityTx AuthorityInv AuthorityHistory AuthorityClients AuthorityProps Control Launch.
#[local] Open Scope Z_scope.
#[local] Arguments str_eqb _ _ : simpl never.

Module LaunchProps.
Import Ref Wire Model Authority.Authority AuthorityTx.AuthorityTx AuthorityInv.AuthorityInv AuthorityHistory.AuthorityHistory.
Import AuthorityClients.AuthorityClients NativeScope Launch.Launch.

(** The ledger, the tickets of the running process and the launches called. *)
Record World := mkWorld { w_db : NDB; w_tickets : list (Scope * LaunchTicket); w_launched : list Scope }.

Section machine.
Context `{Sha256, JsonDecoder, EnvelopeJson, Ed25519, AuthorityJson, AuthorityDocuments, UrlParser, LaunchJson, Durable.DataProtector}.

Definition issue (ownership : Scope) (r : result AErr LaunchTicket) : list (Scope * LaunchTicket) :=
  match r with Ok t => [(ownership, t)] | Err _ => [] end.

Inductive step (s : Root) (w : World) : World -> Prop :=
| StepBegin c io nonce ownership attempt directory r d :
    BeginLaunch s c io nonce ownership attempt directory (w_db w) = (r, d) ->
    step s w (mkWorld d (w_tickets w ++ issue ownership r) (w_launched w))
| StepRun i ownership t alive launch e t' called :
    w_tickets w !! i = Some (ownership, t) -> Run t alive launch = (e, t', called) ->
    step s w (mkWorld (w_db w) (<[i := (ownership, t')]> (w_tickets w)) (w_launched w ++ if called : bool then [ownership] else []))
| StepObserve c io ipc ownership r d :
    ObserveLaunched s c io ipc ownership (w_db w) = (r, d) -> step s w (mkWorld d (w_tickets w) (w_launched w))
| StepLookup c io scope r d :
    LookupLaunch s c io scope (w_db w) = (r, d) -> step s w (mkWorld d (w_tickets w) (w_launched w))
| StepTransaction (A : Type) (p : Callback A) io owner scope r d new :
    WithNativeAuthority s io owner scope p (w_db w) = (r, d, new) -> step s w (mkWorld d (w_tickets w) (w_launched w))
| StepRegistry d : same_ledger (w_db w) d -> step s w (mkWorld d (w_tickets w) (w_launched w))
| StepSchema d :
    nd_version (w_db w) = 1 -> create_schema (w_db w) = Some d -> step s w (mkWorld d (w_tickets w) (w_launched w))
| StepRestart : step s w (mkWorld (w_db w) [] (w_launched w)).

Inductive reachable (s : Root) : World -> Prop :=
| ReachNew d : nd_version d = 1 -> nd_state d = ∅ -> reachable s (mkWorld d [] [])
| ReachStep w w' : reachable s w -> step s w w' -> reachable s w'.

(** ** Slots *)
Definition slot (scope : Scope) : option string :=
  match launchClaimKey scope with Ok k => Some (key_string k) | Err _ => None end.

Lemma same_physical_key a b key : launchClaimKey a = Ok key -> SamePhysical a b = true -> launchClaimKey b = Ok key.
Proof.
  unfold launchClaimKey, scope_Local, SamePhysical. intros Hkey [Hs Hm]%andb_true_iff. revert Hkey Hm. rinv.
  match goal with Hk : s_kind a = s_kind b |- _ => rename Hk into Ekind end. rewrite <- Ekind.
  repeat match goal with Hv : Scope_Validate _ = true |- _ => rewrite Hv in *; clear Hv end.
  destruct (s_kind a); [done | | done]. intros Hkey Ep%bool_decide_eq_true. cbn [of_option rbind] in *. by rewrite <- Ep.
Qed.

Lemma same_physical_slot a b : is_Some (slot a) -> SamePhysical a b = true -> slot a = slot b.
Proof.
  unfold slot. destruct (launchClaimKey a) as [key|] eqn:Ea; [|by intros []]. intros _ Hs. by rewrite (same_physical_key _ _ _ Ea Hs).
Qed.

(** Scopes with a ticket that has not run. *)
Definition permit (x : Scope * LaunchTicket) : option Scope :=
  if lt_committed x.2 && negb (lt_used x.2) then Some x.1 else None.
Definition held (w : World) : list Scope := omap permit (w_tickets w) ++ w_launched w.

Definition claimed_slot (d : NDB) (scope : Scope) : Prop := exists key, slot scope = Some key /\ is_Some (nd_state d !! key).

Record launch_inv (w : World) : Prop := {
  inv_fresh : fresh_empty (w_db w);
  inv_claimed : Forall (claimed_slot (w_db w)) (held w);
  inv_once : NoDup (slot <$> held w);
}.

Lemma claimed_grows d d' l : (forall key, is_Some (nd_state d !! key) -> is_Some (nd_state d' !! key)) ->
  Forall (claimed_slot d) l -> Forall (claimed_slot d') l.
Proof. intros Hg Hl. eapply Forall_impl; [exact Hl|]. intros x (key & Hk & Hr). exists key. auto. Qed.

(** Changes of the ledger alone. *)
Lemma inv_db w d : launch_inv w -> fresh_empty d -> (forall key, is_Some (nd_state (w_db w) !! key) -> is_Some (nd_state d !! key)) ->
  launch_inv (mkWorld d (w_tickets w) (w_launched w)).
Proof. intros [h1 h2 h3] Hd Hg. split; [done | by eapply claimed_grows | done]. Qed.

(** ** A ticket means that the slot was empty *)
Lemma begin_absent key raw env t t' signed :
  k_Kind key = AuthorityNativeCheckpoint ->
  run_callback (begin_callback key raw) env t = (Ok tt, t', signed) ->
  nd_state (t_db t) !! key_string key = None /\ is_Some (nd_state (t_db t') !! key_string key).
Proof.
  intros Hkind. cbn [begin_callback run_callback method]. destruct (Get key env t) as [[x|e] t1] eqn:Eg; [done|].
  destruct (isAuthorityNotFound e) eqn:En; [|done]. cbn [negb run_callback method].
  destruct (CAS key 0 raw false env t1) as [[x|e'] t2] eqn:Ec; [|done]. intros [= <- _].
  split; [by eapply not_found_absent|]. eapply CAS_present; [by rewrite Hkind | exact Ec].
Qed.
(** What a successful claim did. *)
Lemma begin_launch_Ok s c io nonce ownership attempt directory d t d' :
  BeginLaunch s c io nonce ownership attempt directory d = (Ok t, d') -> fresh_empty d ->
  t = mkTicket false true /\ exists key, slot ownership = Some key /\ nd_state d !! key = None /\ is_Some (nd_state d' !! key).
Proof.
  unfold BeginLaunch. intros Hb Hd. destruct (begin_claim _ _ _ _ _) as [[key raw]|e] eqn:Ec; [|done].
  destruct (WithNativeAuthority _ _ _ _ _ _) as [[r d1] new] eqn:Ew. destruct r as [[]|e]; [|done].
  injection Hb as <- <-. split; [done|].
  assert (launchClaimKey ownership = Ok key) as Hkey.
  { unfold begin_claim in Ec. do 2 apply rbind_Ok in Ec as ([] & _ & Ec). apply rbind_Ok in Ec as (key' & Hk & Ec).
    do 4 apply rbind_Ok in Ec as (? & _ & Ec). congruence. }
  assert (k_Kind key = AuthorityNativeCheckpoint) as Hkind by (unfold launchClaimKey in Hkey; rinv; done).
  exists (key_string key). split; [by unfold slot; rewrite Hkey|].
  destruct (transaction_outcome _ _ _ _ _ _ _ _ _ Ew) as [[_ ?]|(env & t1 & t2 & [] & _ & Hm & Hr & -> & _)]; [done|].
  destruct (begin_absent _ _ _ _ _ _ Hkind Hr) as [Habs Hrow]. split; [|done].
  apply migrate_cases in Hm as [[Hdb _]|[Hv _]]; cbn [t_db] in *; [by rewrite <- Hdb|]. by rewrite (Hd Hv), lookup_empty.
Qed.

Lemma begin_launch_grows s c io nonce ownership attempt directory d r d' :
  BeginLaunch s c io nonce ownership attempt directory d = (r, d') -> fresh_empty d ->
  fresh_empty d' /\ forall key, is_Some (nd_state d !! key) -> is_Some (nd_state d' !! key).
Proof.
  unfold BeginLaunch. destruct (begin_claim _ _ _ _ _) as [[key raw]|e]; [|by intros [= _ <-]].
  destruct (WithNativeAuthority _ _ _ _ _ _) as [[x d1] new] eqn:Ew. intros [= _ <-]. by eapply transaction_grows.
Qed.

Lemma observe_grows s c io ipc ownership d r d' :
  ObserveLaunched s c io ipc ownership d = (r, d') -> fresh_empty d ->
  fresh_empty d' /\ forall key, is_Some (nd_state d !! key) -> is_Some (nd_state d' !! key).
Proof.
  unfold ObserveLaunched. match goal with |- context [match ?x with _ => _ end] => destruct x as [[key process]|e] end; [|by intros [= _ <-]].
  destruct (WithNativeAuthority _ _ _ _ _ _) as [[x d1] new] eqn:Ew. intros [= _ <-]. by eapply transaction_grows.
Qed.

Lemma lookup_grows s c io scope d r d' :
  LookupLaunch s c io scope d = (r, d') -> fresh_empty d ->
  fresh_empty d' /\ forall key, is_Some (nd_state d !! key) -> is_Some (nd_state d' !! key).
Proof.
  unfold LookupLaunch. match goal with |- context [match ?x with _ => _ end] => destruct x as [key|e] end; [|by intros [= _ <-]].
  destruct (WithNativeAuthority _ _ _ _ _ _) as [[x d1] new] eqn:Ew. intros [= _ <-]. by eapply transaction_grows.
Qed.

(** ** Tickets *)

(** A call uses up the permit of its ticket. *)
Lemma held_run w i ownership t alive launch e t' called :
  w_tickets w !! i = Some (ownership, t) -> Run t alive launch = (e, t', called) ->
  exists dropped, held w ≡ₚ dropped ++
    held (mkWorld (w_db w) (<[i := (ownership, t')]> (w_tickets w)) (w_launched w ++ if called : bool then [ownership] else [])).
Proof.
  intros Hi. unfold held. cbn [w_tickets w_launched]. apply list_elem_of_split_length in Hi as (l1 & l2 & -> & ->).
  rewrite (insert_app_r_alt l1 _ (length l1)), Nat.sub_diag, !omap_app by done. cbn [insert list_insert omap list_omap]. unfold Run.
  destruct (negb (lt_committed t) || lt_used t) eqn:Eu.
  - intros [= _ <- <-]. exists []. by rewrite app_nil_r.
  - apply orb_false_iff in Eu as [Ec%negb_false_iff Eu]. unfold permit. cbn [fst snd].
    destruct alive; intros [= _ <- <-]; cbn; rewrite Ec, Eu; cbn.
    + exists []. cbn. solve_Permutation.
    + exists [ownership]. rewrite app_nil_r. solve_Permutation.
Qed.

Lemma launch_inv_drop w w' dropped : held w ≡ₚ dropped ++ held w' -> w_db w' = w_db w -> launch_inv w -> launch_inv w'.
Proof.
  intros Hp Hdb [h1 h2 h3]. rewrite Hp in h2, h3. rewrite fmap_app in h3. apply Forall_app in h2 as [_ h2]. apply NoDup_app in h3 as (_ & _ & h3).
  split; by rewrite ?Hdb.
Qed.

Lemma held_begin w d ownership t : t = mkTicket false true ->
  held (mkWorld d (w_tickets w ++ [(ownership, t)]) (w_launched w)) ≡ₚ ownership :: held w.
Proof. intros ->. unfold held. cbn [w_tickets w_launched]. rewrite omap_app. cbn. solve_Permutation. Qed.

Lemma step_launch_inv s w w' : step s w w' -> launch_inv w -> launch_inv w'.
Proof.
  intros Hs Hw. pose proof (inv_fresh _ Hw) as Hf. destruct Hs.
  - match goal with Hb : BeginLaunch _ _ _ _ _ _ _ _ = _ |- _ => rename Hb into Hb0; pose proof (begin_launch_grows _ _ _ _ _ _ _ _ _ _ Hb0 Hf) as [Hd Hg] end.
    destruct r as [t|e]; cbn [issue]; [|rewrite app_nil_r; by apply inv_db].
    destruct (begin_launch_Ok _ _ _ _ _ _ _ _ _ _ Hb0 Hf) as [Ht (key & Hslot & Habs & Hrow)].
    destruct Hw as [h1 h2 h3]. pose proof (held_begin w d ownership t Ht) as Hp. split; [done | |].
    + rewrite Hp. constructor; [by exists key|]. by eapply claimed_grows.
    + rewrite Hp. cbn. constructor; [|done]. rewrite Hslot. intros (x & Hx & Hin)%list_elem_of_fmap.
      rewrite Forall_forall in h2. destruct (h2 _ Hin) as (key' & Hk' & [row Hrow']). congruence.
  - edestruct held_run as [dropped Hp]; [done..|]. by eapply launch_inv_drop.
  - edestruct observe_grows; [done..|]. by apply inv_db.
  - edestruct lookup_grows; [done..|]. by apply inv_db.
  - edestruct @transaction_grows; [done..|]. by apply inv_db.
  - match goal with Hl : same_ledger _ _ |- _ => destruct Hl as (_ & _ & Hst & Hv) end. apply inv_db; [done| |by rewrite Hst].
    intros E. rewrite Hst. apply Hf. lia.
  - match goal with Hc : create_schema _ = _ |- _ => injection Hc as <- end. apply inv_db; [done | by intros E|].
    intros key [row Hrow]. by rewrite Hf, lookup_empty in Hrow.
  - by apply (launch_inv_drop w _ (omap permit (w_tickets w))).
Qed.

Lemma reachable_launch_inv s w : reachable s w -> launch_inv w.
Proof.
  induction 1; [|by eapply step_launch_inv]. split; [by intros ? | constructor | constructor].
Qed.

(** C16. A worker of a physical ownership slot is launched at most once. Whatever
    happens to the ledger (claims, observations, lookups and any other transaction,
    with failed, ambiguous or partly faulted commits, and process restarts that
    forget every ticket), two launches that were actually called are never for
    scopes that name the same physical slot, descriptor renewals included. *)
Theorem launched_at_most_once (s : Root) (w : World) (i j : nat) (a b : Scope) :
  reachable s w -> w_launched w !! i = Some a -> w_launched w !! j = Some b -> i <> j -> SamePhysical a b = false.
Proof.
  intros Hr Hi Hj Hne. destruct (reachable_launch_inv _ _ Hr) as [_ Hc Hn]. apply not_true_iff_false. intros Hs.
  unfold held in Hc, Hn. rewrite fmap_app in Hn. apply NoDup_app in Hn as (_ & _ & Hn). apply Forall_app in Hc as [_ Hc].
  rewrite Forall_forall in Hc. destruct (Hc a ltac:(by eapply list_elem_of_lookup_2)) as (key & Hk & _).
  apply same_physical_slot in Hs; [|by eexists]. apply Hne. eapply (NoDup_lookup _ i j (slot a) Hn).
  - by rewrite list_lookup_fmap, Hi.
  - by rewrite list_lookup_fmap, Hj, Hs.
Qed.
End machine.

(** ** Renewals *)
Section renewal.
Import Control.Control.
Context `{Sha256, JsonDecoder, EnvelopeJson, Ed25519, AuthorityJson, AuthorityDocuments, UrlParser, ControlJson, LaunchJson}.

Lemma exact_run {A} root provided key (k : result AErr AuthorityRecord -> Callback A) env t x t' signed :
  run_callback (exactRecord root provided key k) env t = (x, t', signed) ->
  exists r t1 signed', run_callback (k r) env t1 = (x, t', signed').
Proof.
  unfold exactRecord. case_if; [by eauto|]. cbn [run_callback]. destruct (method _ env t) as [[r|e] t1].
  - case_if; intros Hr; match type of Hr with context [run_callback (k ?y) env t1] => exists y, t1 end;
      destruct (run_callback (k _) env t1) as [[? ?] ?]; injection Hr as <- <- _; by eexists.
  - intros Hr. exists (Err e), t1. destruct (run_callback (k _) env t1) as [[? ?] ?]. injection Hr as <- <- _. by eexists.
Qed.

Lemma put_binding_run result expected env t b t' signed :
  run_callback (put_binding result expected) env t = (Ok b, t', signed) -> bd_Worker b = bd_Worker result /\ bd_Scope b = bd_Scope result.
Proof.
  unfold put_binding. destruct (storedValue _ _); [|done]. cbn [run_callback]. destruct (method _ env t) as [[r|e] t1]; [|done].
  cbn. by intros [= <- _ _].
Qed.

(** A renewed binding is the same worker, under the controller's scope. *)
Lemma renew_run a c original env t b t' signed :
  run_callback (renew_callback a c original) env t = (Ok b, t', signed) -> bd_Worker b = bd_Worker original /\ bd_Scope b = ct_Scope c.
Proof.
  unfold renew_callback, currentController. intros (r & t1 & s1 & Hr)%exact_run.
  match type of Hr with run_callback (match ?x with _ => _ end) _ _ = _ => destruct x as [u|e] end; [|done].
  unfold currentBinding in Hr. apply exact_run in Hr as (r2 & t2 & s2 & Hr).
  match type of Hr with run_callback (match ?x with _ => _ end) _ _ = _ => destruct x as [u2|e] end.
  - case_if; [|by apply put_binding_run in Hr]. cbn in Hr. injection Hr as <- _ _. rinv. done.
  - unfold recover_renewal in Hr. case_if; [done|]. destruct (unmarshal_worker_slot _) as [previous|]; [|done]. case_if; [done|].
    cbn [run_callback] in Hr. destruct (method _ env t2) as [[current|e2] t3]; [|done].
    destruct (ar_Retired current || _ || _); [done|]. destruct (unmarshal_worker_slot _) as [recovered|]; [|done].
    destruct (negb (bool_decide (bd_Scope recovered = _)) || _) eqn:Eb; [done|]. cbn in Hr. injection Hr as <- _ _. rinv. done.
Qed.

Lemma new_local_scope_Some root binding sc : NewLocalScope root binding = Some sc ->
  exists supplied, sc = local_scope (local_of root binding supplied) /\ Scope_Validate sc = true.
Proof.
  unfold NewLocalScope. cbv zeta. case_if; [done|]. destruct (unmarshal_worker_slot _) as [stored|]; [|done].
  destruct (marshal_worker_slot binding) as [supplied|]; [|done]. destruct (marshal_worker_slot _) as [canonical|]; [|done].
  case_if; [done|]. destruct (Local_Validate _) eqn:Hv; [|done]. intros [= <-]. exists supplied. split; [done|].
  unfold Scope_Validate, local_scope. cbn [s_kind s_cloud s_local]. by rewrite bool_decide_eq_true_2.
Qed.

(** C18. Renewing a worker's binding for a new descriptor keeps its launch slot: the
    scope derived from the renewed binding (also when the renewal is recovered
    after a lost acknowledgement) names the same physical worker as the scope of the
    original binding and has the same launch claim, so that a renewal can never
    start a second process. *)
Theorem renewal_keeps_launch_slot (a : Root) (io : RootIO) (owner : ExecutionContext) (c : Controller) (original renewed : Binding)
    (d d' : NDB) (before after : NativeScope.Scope) :
  RenewWorkerBinding a io owner c original d = (Ok renewed, d') ->
  NewLocalScope (rt_Identity a) original = Some before -> NewLocalScope (rt_Identity a) renewed = Some after ->
  bd_Scope renewed = ct_Scope c /\ SamePhysical before after = true /\ launchClaimKey before = launchClaimKey after.
Proof.
  intros Hr Hb Ha. unfold RenewWorkerBinding in Hr. destruct (_ || _) eqn:Eg in Hr; [done|]. unfold transact in Hr.
  destruct (_ || _) in Hr; [done|]. destruct (WithNativeAuthority _ _ _ _ _ _) as [[r d1] new] eqn:Ew. injection Hr as -> <-.
  destruct (transaction_outcome _ _ _ _ _ _ _ _ _ Ew) as [[_ ?]|(env & t1 & t2 & b & _ & _ & Hrun & _ & Hb' & _)]; [done|].
  specialize (Hb' eq_refl). injection Hb' as ->. apply renew_run in Hrun as [Hw Hs]. rinv.
  match goal with Hid : str_eqb _ _ = true |- _ => apply str_eqb_eq in Hid; rename Hid into Eid end.
  match goal with He : is_Endpoint _ = is_Endpoint _ |- _ => rename He into Eend end.
  destruct (new_local_scope_Some _ _ _ Hb) as (x & Ex & Hv), (new_local_scope_Some _ _ _ Ha) as (y & Ey & Hv').
  assert (physical (s_local before) = physical (s_local after)) as Hp.
  { rewrite Ex, Ey. unfold physical, local_of, local_scope. cbn. by rewrite Hw, Hs, Eid, Eend. }
  split; [done|]. split.
  - unfold SamePhysical. rewrite Hv, Hv', Ex, Ey in *. cbn in *. by rewrite !bool_decide_eq_true_2.
  - unfold launchClaimKey. rewrite Hv, Hv', Ex, Ey in *. cbn [scope_Local local_scope s_kind s_local of_option rbind] in *. by rewrite Hp.
Qed.
End renewal.
End LaunchProps.

(** Two workers of one root: the second claim of a slot is refused, also after a
    restart. *)
Module LaunchWitness.
Import Ref Wire Model RefWitness WireWitness Authority.Authority AuthorityTx.AuthorityTx NativeScope Launch.Launch LaunchProps.

#[local] Instance l_ed : Ed25519 :=
  {| ed_NewKeyFromSeed seed := seed ++ seed; ed_Public key := take 32 key; ed_Sign _ _ := replicate 64 x01;
     ed_Verify _ _ signature := Nat.eqb (length signature) 64 |}.
#[local] Instance l_envelope : EnvelopeJson := {| decode_envelope _ := None; marshal_envelope _ := None |}.
#[local] Instance l_documents : AuthorityDocuments :=
  {| marshal_claim _ := None; marshal_claim_key _ _ := []; marshal_binding _ := None; marshal_deferred _ := None;
     unmarshal_deferred _ := None; marshal_provenance _ := []; marshal_strings _ := []; decode_controller _ := None;
     decode_caller_binding _ := None; decode_origin _ := None; deep_shape _ := [] |}.

Definition l_seed : list byte := replicate 32 x05.
Definition l_ns : string := match DomainNamespace l_seed with Ok ns => ns | Err _ => "" end.
Definition l_store : string := hex_encode (replicate 32 x07).
Definition l_owner : Principal := mkPrincipal "user:owner" "user.human" "issuer".
Definition l_root : Root :=
  mkRoot (mkIdentity l_ns l_store l_owner l_seed 1) (l_seed ++ l_seed) (mkLimits 100 100000 1000) false.
Definition l_endpoint : EndpointRef := mkRef l_ns (Base32.EncodeToString (replicate 32 x09)) "".

(** The physical slot of a worker, under a descriptor revision. *)
Definition l_scope (worker revision : string) : Scope :=
  NativeScope.mkScope Local zero_cloud
    (mkLocal l_ns l_store 1 l_seed l_owner l_endpoint revision "b1" (replicate 32 x01) "state" worker "g1" "codex" (replicate 32 x02)).

(** Every record is read as the first claim of the slot of "w1". *)
Definition l_record (k : AuthorityKey) : AuthorityRecord := mkRecord 1 l_ns l_store 1 k 1 0 1 zero32 false [] [].
#[local] Instance l_launch_json : LaunchJson :=
  {| marshal_local l := Some (bytes_of (lo_WorkerID l)); marshal_launch _ := Some [x31]; decode_launch _ := None;
     marshal_directory d := Some (bytes_of d); decode_directory _ := None; marshal_launch_aad _ _ _ _ _ := [] |}.
#[local] Instance l_url : UrlParser := {| url_Parse _ := None; ToLower s := s |}.
#[local] Instance l_json : AuthorityJson :=
  {| marshal_statement _ := Some []; marshal_record r := Some [x01];
     unmarshal_record raw := match launchClaimKey (l_scope "w1" "r1") with Ok k => Some (l_record k) | Err _ => None end;
     marshal_purpose p := None; unmarshal_purpose raw := None; decode_endpoint _ := None; decode_offer _ := None |}.
#[local] Instance l_protector : Durable.DataProtector :=
  {| Durable.Reference := Durable.mkKeyRef "key" "1"; Durable.Seal _ _ plain := Some plain; Durable.Open _ c := Some c |}.

Definition l_context : ExecutionContext :=
  mkContext None l_owner l_ns (sha256 [x01]) true (mkProvenance "user:owner" "" [] 0 [] []).
Definition l_checkpoints : Checkpoints := mkCheckpoints l_context (rt_Identity l_root) (Durable.mkKeyRef "key" "1").
Definition l_io : RootIO :=
  mkRootIO true (fun _ => true) (fun faulted => if faulted then CommitLost else Committed) (fun _ => true) true.

Definition l_begin (worker revision : string) (w : World) : World :=
  let '(r, d) := BeginLaunch l_root l_checkpoints l_io [] (l_scope worker revision) "attempt" "/var/lib/w" (w_db w) in
  mkWorld d (w_tickets w ++ issue (l_scope worker revision) r) (w_launched w).
Definition l_run (i : nat) (worker revision : string) (t : LaunchTicket) (w : World) : World :=
  let '(_, t, called) := Run t true None in
  mkWorld (w_db w) (<[i := (l_scope worker revision, t)]> (w_tickets w)) (w_launched w ++ if called : bool then [l_scope worker revision] else []).

Lemma l_begin_step worker revision w : step l_root w (l_begin worker revision w).
Proof.
  unfold l_begin. destruct (BeginLaunch _ _ _ _ _ _ _ _) as [r d] eqn:E. by eapply StepBegin.
Qed.
Lemma l_run_step i worker revision t w : w_tickets w !! i = Some (l_scope worker revision, t) -> step l_root w (l_run i worker revision t w).
Proof. intros Hi. unfold l_run. destruct (Run t true None) as [[e t'] called] eqn:E. by eapply StepRun. Qed.

Definition l_world0 : World := mkWorld (mkNDB 1 ∅ None ∅ ∅) [] [].
Definition l_world1 : World := l_run 0 "w1" "r1" (mkTicket false true) (l_begin "w1" "r1" l_world0).
(** The slot is claimed again under a renewed descriptor, before and after a restart. *)
Definition l_world2 : World := l_begin "w1" "r2" l_world1.
Definition l_world3 : World := l_begin "w1" "r2" (mkWorld (w_db l_world2) [] (w_launched l_world2)).
Definition l_world4 : World := l_run 0 "w2" "r1" (mkTicket false true) (l_begin "w2" "r1" l_world3).

Lemma l_reachable : reachable l_root l_world4.
Proof.
  unfold l_world4. eapply ReachStep; [|apply l_run_step; vm_compute; reflexivity].
  eapply ReachStep; [|apply l_begin_step]. unfold l_world3. eapply ReachStep; [|apply l_begin_step].
  eapply ReachStep; [|apply StepRestart]. unfold l_world2. eapply ReachStep; [|apply l_begin_step].
  unfold l_world1. eapply ReachStep; [|apply l_run_step; vm_compute; reflexivity].
  eapply ReachStep; [|apply l_begin_step]. by apply ReachNew.
Qed.

Lemma launched_once_witness :
  w_launched l_world4 = [l_scope "w1" "r1"; l_scope "w2" "r1"] /\ length (w_tickets l_world2) = 1%nat /\ w_tickets l_world3 = [] /\
  SamePhysical (l_scope "w1" "r1") (l_scope "w1" "r2") = true /\ SamePhysical (l_scope "w1" "r1") (l_scope "w2" "r1") = false.
Proof.
  split; [vm_compute; reflexivity|]. split; [vm_compute; reflexivity|]. split; [vm_compute; reflexivity|].
  split; [vm_compute; reflexivity|].
  apply (launched_at_most_once l_root l_world4 0 1); [exact l_reachable | vm_compute; reflexivity | vm_compute; reflexivity | discriminate].
Defined.
End LaunchWitness.

(** A worker bound under descriptor r1 and renewed for r2 by the next controller. *)
Module RenewalWitness.
Import Ref Wire Model RefWitness WireWitness Authority.Authority AuthorityTx.AuthorityTx AuthorityProps.AuthorityWitness.
Import Control.Control NativeScope Launch.Launch LaunchProps.

#[local] Existing Instance w_ed.
#[local] Existing Instance w_envelope_json.
#[local] Instance v_documents : AuthorityDocuments :=
  {| marshal_claim _ := None; marshal_claim_key _ _ := []; marshal_binding _ := None; marshal_deferred _ := None;
     unmarshal_deferred _ := None; marshal_provenance _ := []; marshal_strings l := bytes_of (List.last l ""); decode_controller _ := None;
     decode_caller_binding _ := None; decode_origin _ := None; deep_shape _ := [] |}.
#[local] Instance v_url : UrlParser := {| url_Parse _ := None; ToLower s := s |}.

Definition v_scope (revision : string) : Control.Scope := mkIdScope w_endpoint revision "b1".
Definition v_worker : WorkerBinding := mkWorker "w1" "state" "g1" "codex" (replicate 32 x02).
Definition v_record (k : AuthorityKey) (revision sequence : Z) (previous value : list byte) : AuthorityRecord :=
  mkRecord 1 w_ns w_store 1 k revision (revision - 1) sequence previous false value (replicate 64 x01).
Definition v_table : list AuthorityRecord :=
  [ v_record (controllerKey (v_scope "r1")) 1 1 zero32 (bytes_of "first");
    v_record (receiptKey (v_scope "r1") "first") 1 2 (sha256 (w_raw 1)) [x72];
    v_record (bindingKey (v_scope "r1")) 1 3 (sha256 (w_raw 2)) (bytes_of "r1");
    v_record (controllerKey (v_scope "r1")) 2 4 (sha256 (w_raw 3)) (bytes_of "second");
    v_record (receiptKey (v_scope "r1") "second") 1 5 (sha256 (w_raw 4)) [x72];
    v_record (bindingKey (v_scope "r1")) 2 6 (sha256 (w_raw 5)) (bytes_of "r2") ].
#[local] Instance v_json : AuthorityJson :=
  {| marshal_statement _ := Some []; marshal_record r := encode_record 1 r v_table;
     unmarshal_record raw := match raw with [] => None | _ :: raw => v_table !! length raw end;
     marshal_purpose p := None; unmarshal_purpose raw := None; decode_endpoint _ := Some w_descriptor; decode_offer _ := None |}.
#[local] Instance v_control_json : ControlJson :=
  {| marshal_controller c := Some (bytes_of (ct_RequestID c));
     unmarshal_controller raw := Some (mkController (v_scope "r1") "" (string_of raw) 0 zero_record);
     marshal_worker_slot b := Some (bytes_of (is_DescriptorRevision (bd_Scope b)));
     unmarshal_worker_slot raw := Some (mkWorkerSlot (v_scope (string_of raw)) v_worker zero_record);
     marshal_receipt _ := Some [x72]; unmarshal_receipt _ := None; unmarshal_members raw := Some {["v" := raw]};
     marshal_members m := m !! "v" |}.
#[local] Instance v_launch_json : LaunchJson :=
  {| marshal_local l := Some (bytes_of (lo_WorkerID l)); marshal_launch _ := None; decode_launch _ := None;
     marshal_directory d := None; decode_directory _ := None; marshal_launch_aad _ _ _ _ _ := [] |}.

Definition v_none : Controller := request_of (v_scope "") 0 "" "".
Definition v_granted (r : result AErr Controller) : Controller := match r with Ok c => c | Err _ => v_none end.
Definition v_bound (r : result AErr Binding) : Binding :=
  match r with Ok b => b | Err _ => mkWorkerSlot (v_scope "") v_worker zero_record end.
Definition v_tx1 := AcquireController w_root w_io (w_context w_owner) (v_scope "r1") 0 "first" "A" w_new.
Definition v_tx2 := BindWorker w_root w_io (w_context w_owner) (v_granted v_tx1.1) 0 v_worker v_tx1.2.
(** The descriptor is revised. *)
Definition v_revised : NDB :=
  mkNDB (nd_version v_tx2.2) {[ref_String w_endpoint := mkObject "" "endpoint" "r2" false [x01]]} (nd_head v_tx2.2) (nd_log v_tx2.2)
    (nd_state v_tx2.2).
Definition v_tx3 := AcquireController w_root w_io (w_context w_owner) (v_scope "r2") 1 "second" "B" v_revised.
Definition v_tx4 := RenewWorkerBinding w_root w_io (w_context w_owner) (v_granted v_tx3.1) (v_bound v_tx2.1) v_tx3.2.

Definition v_local (b : Binding) : NativeScope.Scope := default (local_scope zero_local) (NewLocalScope (rt_Identity w_root) b).
Definition v_before : NativeScope.Scope := v_local (v_bound v_tx2.1).
Definition v_after : NativeScope.Scope := v_local (v_bound v_tx4.1).

Lemma renewal_witness :
  is_DescriptorRevision (bd_Scope (v_bound v_tx4.1)) = "r2" /\ bool_decide (v_before = v_after) = false /\ SamePhysical v_before v_after = true.
Proof.
  split; [vm_compute; reflexivity|]. split; [vm_compute; reflexivity|].
  apply (renewal_keeps_launch_slot w_root w_io (w_context w_owner) (v_granted v_tx3.1) (v_bound v_tx2.1) (v_bound v_tx4.1)
    v_tx3.2 v_tx4.2 v_before v_after); [|vm_compute; reflexivity | vm_compute; reflexivity].
  assert (v_tx4.1 = Ok (v_bound v_tx4.1)) as E by (vm_compute; reflexivity). rewrite <- E. apply surjective_pairing.
Defined.
End RenewalWitness.
