(* ===== verification/LaunchMemory.v ===== *)
(** * Native worker launches: what is remembered

    A launch that was claimed is found again with the ownership and the directory it
    was claimed with, and an observed worker stays the observed worker, for as long
    as other transactions leave the claims of launches alone. *)
From Stdlib Require Import Ascii Strings.Byte ZArith Lia.
From S2P Require Import Prelude GoStrings FabricRef Framing Wire FabricModel SqlTx Durable Sender Authority AuthorityTx AuthorityInv AuthorityHistory AuthorityProps AuthorityClients Control ControlProps Launch LaunchProps.
#[local] Open Scope Z_scope.
#[local] Arguments str_eqb _ _ : simpl never.

Module LaunchMemory.
Import Ref Wire Model Authority.Authority AuthorityTx.AuthorityTx AuthorityInv.AuthorityInv AuthorityHistory.AuthorityHistory.
Import AuthorityProps.AuthorityProps AuthorityClients.AuthorityClients NativeScope Launch.Launch LaunchProps.LaunchProps.

(** The values Go's types allow. *)
Definition process_ok (p : ProcessSnapshot) : Prop :=
  - 2 ^ 63 <= ps_PID p < 2 ^ 63 /\ - 2 ^ 63 <= ps_Parent p < 2 ^ 63 /\ 0 <= ps_UID p < 2 ^ 32 /\ - 2 ^ 63 <= ps_Start p < 2 ^ 63.
Definition key_text (k : Durable.KeyReference) : Prop :=
  utf8_valid (Durable.kr_ID k) = true /\ utf8_valid (Durable.kr_Version k) = true.
Definition claim_text_ok (c : launchClaim) : Prop :=
  utf8_valid (lc_Version c) = true /\ utf8_valid (lc_Attempt c) = true /\ utf8_valid (lc_Phase c) = true /\ key_text (lc_Key c).

(** encoding/json: decoded strings are UTF-8, and a claim or a directory made of
    UTF-8 strings decodes to itself. *)
Class LaunchJsonLaws `{Sha256, UrlParser, LaunchJson} := {
  launch_decoded : forall raw c, decode_launch raw = Some c -> claim_text_ok c;
  launch_round_trip : forall c raw, claim_text_ok c -> Scope_Validate (lc_Ownership c) = true ->
    match lc_Process c with Some p => process_ok p | None => True end -> marshal_launch c = Some raw -> decode_launch raw = Some c;
  directory_round_trip : forall d raw, utf8_valid d = true -> marshal_directory d = Some raw -> decode_directory raw = Some d;
}.

Inductive Event := Began (a : Scope) (directory : string) | Saw (a : Scope) (p : ProcessSnapshot).

(** The rows of launch claims. *)
Definition launch_row (key : string) : bool := has_prefix key (key_string (mkKey AuthorityNativeCheckpoint zero_ref "launch/")).

Section memory.
Context `{Sha256, JsonDecoder, EnvelopeJson, Ed25519, AuthorityJson, AuthorityDocuments, UrlParser, LaunchJson, P : Durable.DataProtector}.

Definition began (a : Scope) (directory : string) (r : result AErr LaunchTicket) : list Event :=
  match r with Ok _ => [Began a directory] | Err _ => [] end.
Definition saw (a : Scope) (r : result AErr ProcessSnapshot) : list Event := match r with Ok p => [Saw a p] | Err _ => [] end.

(** The acknowledged claims and observations. *)
Inductive launches (s : Root) (c : Checkpoints) : NDB -> list Event -> Prop :=
| LaunchesNew d : nd_version d = 1 -> nd_state d = ∅ -> launches s c d []
| LaunchesRegistry d d' log : launches s c d log -> same_ledger d d' -> launches s c d' log
| LaunchesSchema d d' log : launches s c d log -> nd_version d = 1 -> create_schema d = Some d' -> launches s c d' log
| LaunchesTx d d' log (A : Type) (p : Callback A) io owner scope r new :
    launches s c d log -> ro_commit io true = CommitLost -> (forall k, may_write p k -> launch_row (key_string k) = false) ->
    WithNativeAuthority s io owner scope p d = (r, d', new) -> launches s c d' log
| LaunchesBegin d d' log io nonce ownership attempt directory r :
    launches s c d log -> ro_commit io true = CommitLost ->
    BeginLaunch s c io nonce ownership attempt directory d = (r, d') -> launches s c d' (log ++ began ownership directory r)
| LaunchesObserve d d' log io ipc ownership r :
    launches s c d log -> ro_commit io true = CommitLost -> (forall p, ip_first ipc = Ok p -> process_ok p) ->
    ObserveLaunched s c io ipc ownership d = (r, d') -> launches s c d' (log ++ saw ownership r)
| LaunchesLookup d d' log io scope r :
    launches s c d log -> ro_commit io true = CommitLost ->
    LookupLaunch s c io scope d = (r, d') -> launches s c d' log.

(** ** Keys *)
Lemma launch_key_shape a key : launchClaimKey a = Ok key ->
  exists id, key = mkKey AuthorityNativeCheckpoint zero_ref ("launch/" ++ id) /\ Scope_Validate a = true.
Proof.
  unfold launchClaimKey. intros Hk. destruct (Scope_Validate a); [|done]. apply rbind_Ok in Hk as (l & _ & Hk).
  apply rbind_Ok in Hk as (raw & _ & [= <-]). by eexists.
Qed.

Lemma launch_key_inj a b k k' : launchClaimKey a = Ok k -> launchClaimKey b = Ok k' -> key_string k = key_string k' -> k = k'.
Proof.
  intros (id & -> & _)%launch_key_shape (id' & -> & _)%launch_key_shape E. unfold key_string in E. cbn in E.
  change (ref_String zero_ref) with "" in E. by simplify_eq.
Qed.

Lemma launch_key_row a key : launchClaimKey a = Ok key -> launch_row (key_string key) = true.
Proof.
  intros (id & -> & _)%launch_key_shape.
  exact (has_prefix_append (key_string (mkKey AuthorityNativeCheckpoint zero_ref "launch/")) id).
Qed.

(** ** Migration and frames *)
Context `{!Ed25519Laws, !AuthorityJsonLaws, !LaunchJsonLaws, !Durable.DataProtectorLaws P}.
Context (s : Root) (Hroot : root_ok s) (c : Checkpoints) (Hkey : key_text (ck_key c)).

(** The claim a slot holds. *)
Definition holds_claim (d : NDB) (key : AuthorityKey) (claim : launchClaim) : Prop :=
  exists rev value, current s d key = Some (rev, false, value) /\ decode_launch value = Some claim.

Definition opens_to (key : AuthorityKey) (claim : launchClaim) (directory : string) : Prop :=
  exists plain, Durable.Open (launchAAD c key) (lc_Directory claim) = Some plain /\ decode_directory plain = Some directory.

Definition same_process (p q : ProcessSnapshot) : Prop := ps_PID p = ps_PID q /\ ps_UID p = ps_UID q /\ ps_Start p = ps_Start q.

(** The claim of a slot bears an event out. *)
Definition bears (key : AuthorityKey) (claim : launchClaim) (e : Event) : Prop :=
  match e with
  | Began a directory => launchClaimKey a = Ok key /\ lc_Ownership claim = a /\ opens_to key claim directory
  | Saw a p => launchClaimKey a = Ok key /\ lc_Phase claim = "observed" /\ exists q, lc_Process claim = Some q /\ same_process q p
  end.
Definition event_ok (d : NDB) (e : Event) : Prop := exists key claim, holds_claim d key claim /\ bears key claim e.

Lemma bears_key key claim e : bears key claim e -> exists a, launchClaimKey a = Ok key.
Proof. destruct e; intros [? _]; eauto. Qed.

Lemma no_event d e : nd_state d = ∅ -> ~ event_ok d e.
Proof.
  intros Hs (key & claim & (rev & v & Hc & _) & _). unfold current in Hc. by rewrite Hs, lookup_empty in Hc.
Qed.

(** The state in which a committed callback starts. *)
Lemma tx_start d env t1 : ledger_state s d -> (let+ _ := check_scope in migrate) env (mkTxState d 0 false true 0 None) = (Ok tt, t1) ->
  2 <= nd_version (t_db t1) <= 3 /\ Settled s (t_db t1) /\ forall e, event_ok d e -> event_ok (t_db t1) e.
Proof.
  intros Hd Hm. apply migrate_cases in Hm as [(-> & Hv)|(Hv & Hc)]; cbn [t_db] in *.
  - destruct Hd as [[? _]|[? ?]]; [lia | done].
  - split; [by injection Hc as <-; cbn; lia|]. split; [by eapply schema_settled|]. intros e He. exfalso.
    destruct Hd as [[_ Hs]|[? _]]; [by eapply no_event | lia].
Qed.

Lemma tx_end {A} (p : Callback A) env t1 t2 a new : e_root env = s -> 2 <= nd_version (t_db t1) <= 3 -> Settled s (t_db t1) ->
  run_callback p env t1 = (Ok a, t2, new) -> t_faulted t2 = false -> ledger_state s (t_db t2).
Proof.
  intros He Hv Hset Hr Hf. right. split; [by rewrite (run_callback_version _ _ _ _ _ _ Hr) | by eapply run_callback_settled].
Qed.

(** Rows outside those written. *)
Lemma claim_framed {A} (p : Callback A) env t1 t2 a new key claim :
  (forall k, may_write p k -> key_string k <> key_string key) -> run_callback p env t1 = (Ok a, t2, new) ->
  holds_claim (t_db t1) key claim -> holds_claim (t_db t2) key claim.
Proof.
  intros Hw Hr (rev & v & Hc & Hd). exists rev, v. split; [|done]. rewrite <- Hc.
  eapply (current_outside s (fun k => k <> key_string key)); [|by intros []].
  eapply callback_frames; [|exact Hr]. auto.
Qed.

(** ** Claims *)
Lemma begin_writes key raw k : k_Kind key = AuthorityNativeCheckpoint -> may_write (begin_callback key raw) k -> k = key.
Proof.
  intros Hk. cbn. intros [[]|([x|e] & Hw)]; [done|]. destruct (negb _); cbn in Hw; [done|].
  destruct Hw as [[->|[Hx _]]|([?|?] & [])]; [done | congruence].
Qed.

Lemma begin_run key raw env t1 t2 new : e_root env = s -> Settled s (t_db t1) -> k_Kind key = AuthorityNativeCheckpoint ->
  run_callback (begin_callback key raw) env t1 = (Ok tt, t2, new) -> t_faulted t2 = false ->
  current s (t_db t1) key = None /\ current s (t_db t2) key = Some (1, false, raw).
Proof.
  intros He Hset Hkind Hr Hf. destruct (begin_absent _ _ _ _ _ _ Hkind Hr) as [Habs _].
  assert (current s (t_db t1) key = None) as Hn by (unfold current; by rewrite Habs). split; [done|].
  cbn [begin_callback run_callback method] in Hr. destruct (Get key env t1) as [[x|e] u] eqn:Eg; [done|].
  destruct (isAuthorityNotFound e); [|done]. cbn [negb run_callback method] in Hr.
  destruct (CAS key 0 raw false env u) as [[x|e'] u2] eqn:Ec; [|done]. injection Hr as <- _.
  destruct (reads_Get _ _ _ _ _ Eg) as [Hdb _]. rewrite <- Hdb in Hset, Hn. destruct Hset as (v & Hok & _).
  destruct (CAS_spec _ _ _ _ _ _ _ _ _ _ Hroot Hok He Ec Hf) as [_ Hspec]. by rewrite Hn in Hspec.
Qed.

(** What is claimed. *)
Lemma begin_claim_Ok nonce ownership attempt directory key raw : begin_claim c nonce ownership attempt directory = Ok (key, raw) ->
  launchClaimKey ownership = Ok key /\
  exists claim, decode_launch raw = Some claim /\ lc_Ownership claim = ownership /\ opens_to key claim directory.
Proof.
  unfold begin_claim. intros Hb. apply rbind_Ok in Hb as ([] & Hg%guard_Ok & Hb). apply rbind_Ok in Hb as ([] & _ & Hb).
  apply rbind_Ok in Hb as (k & Hk & Hb). apply rbind_Ok in Hb as (plain & Hp%of_option_Some & Hb).
  apply rbind_Ok in Hb as (sealed & Hs%of_option_Some & Hb). apply rbind_Ok in Hb as ([] & _ & Hb).
  apply rbind_Ok in Hb as (raw' & Hm%of_option_Some & [= <- <-]). split; [done|].
  destruct (launch_key_shape _ _ Hk) as (id & _ & Hval). apply andb_true_iff in Hg as [Hatt Hdir].
  assert (utf8_valid attempt = true) as Hu.
  { unfold valid_attempt in Hatt. destruct (utf8_valid attempt); [done|]. by rewrite !orb_true_r in Hatt. }
  assert (utf8_valid directory = true) as Hud by (unfold validLaunchDirectory in Hdir; rinv; done).
  exists (mkLaunch launch_version ownership attempt "launching" None sealed (ck_key c)).
  split; [apply launch_round_trip; [by split_and! | done | done | exact Hm]|]. split; [done|].
  exists plain. cbn. split; [by eapply Durable.Open_Seal | by eapply directory_round_trip].
Qed.

(** ** Observations *)
Definition observed (claim : launchClaim) (p : ProcessSnapshot) : launchClaim :=
  mkLaunch (lc_Version claim) (lc_Ownership claim) (lc_Attempt claim) "observed" (Some p) (lc_Directory claim) (lc_Key claim).

Lemma observe_writes ownership key process k : k_Kind key = AuthorityNativeCheckpoint ->
  may_write (observe_callback c ownership key process) k -> k = key.
Proof.
  intros Hk. cbn. intros [[]|([x|e] & Hw)]; [|done]. destruct (if ar_Retired x then _ else _); [|done].
  repeat (match type of Hw with context [if ?b then _ else _] => destruct b end; [done|]).
  destruct (marshal_launch _); cbn in Hw; [|done]. destruct Hw as [[->|[Hx _]]|([?|?] & [])]; [done | congruence].
Qed.

Lemma observe_run ownership key process env t1 t2 new : e_root env = s -> Settled s (t_db t1) -> k_Kind key = AuthorityNativeCheckpoint ->
  run_callback (observe_callback c ownership key process) env t1 = (Ok tt, t2, new) -> t_faulted t2 = false ->
  exists claim, holds_claim (t_db t1) key claim /\ lc_Ownership claim = ownership /\
    ((t_db t2 = t_db t1 /\ lc_Phase claim = "observed" /\ exists q, lc_Process claim = Some q /\ same_process q process) \/
     (lc_Phase claim = "launching" /\ exists rev raw, marshal_launch (observed claim process) = Some raw /\
        current s (t_db t2) key = Some (rev, false, raw))).
Proof.
  intros He Hset Hkind Hr Hf. cbn [observe_callback run_callback method] in Hr.
  destruct (Get key env t1) as [[r|e] u] eqn:Eg; [|done]. destruct (reads_Get _ _ _ _ _ Eg) as [Hdb _].
  assert (current s (t_db t1) key = Some (ar_Revision r, ar_Retired r, ar_Value r)) as Hcur.
  { apply stored_current. rewrite <- He. by eapply Get_stored. }
  destruct (ar_Retired r); [done|]. destruct (decode_launch (ar_Value r)) as [claim|] eqn:Ed; [|done].
  exists claim. split; [by exists (ar_Revision r), (ar_Value r)|].
  destruct (negb _) eqn:Eg2 in Hr; [done|]. split; [rinv; done|].
  destruct (str_eqb (lc_Phase claim) "observed") eqn:Eo.
  - left. cbn in Hr. destruct (lc_Process claim) as [q|]; [|done]. injection Hr as Hg <- _. apply guard_Ok in Hg.
    apply str_eqb_eq in Eo. split; [done|]. split; [done|]. exists q. split; [done|]. rewrite !andb_true_iff, !Z.eqb_eq in Hg. split_and!; lia.
  - right. destruct (negb (str_eqb (lc_Phase claim) "launching") || _) eqn:El in Hr; [done|].
    apply orb_false_iff in El as [El _]. apply negb_false_iff, str_eqb_eq in El. split; [done|].
    fold (observed claim process) in Hr. destruct (marshal_launch (observed claim process)) as [raw|]; [|done].
    cbn [run_callback method] in Hr. destruct (CAS key (ar_Revision r) raw false env u) as [[x|e'] u2] eqn:Ec; [|done].
    injection Hr as <- _. rewrite <- Hdb in Hset, Hcur. destruct Hset as (v & Hok & _).
    destruct (CAS_spec _ _ _ _ _ _ _ _ _ _ Hroot Hok He Ec Hf) as [_ Hspec]. rewrite Hcur in Hspec.
    exists (ar_Revision r + 1), raw. split; [done|]. rewrite <- Hspec. cbn.
    rewrite (proj2 (Z.eqb_neq (ar_Revision r) (ar_Revision r + 1))) by lia. cbn. by rewrite Z.eqb_refl.
Qed.

(** ** The invariant *)
Definition memory_inv (d : NDB) (log : list Event) : Prop := ledger_state s d /\ Forall (event_ok d) log.

Lemma holds_claim_fun d key claim claim' : holds_claim d key claim -> holds_claim d key claim' -> claim = claim'.
Proof. intros (rev & v & Hc & Hd) (rev' & v' & Hc' & Hd'). congruence. Qed.

(** A transaction that writes no launch claim. *)
Lemma tx_memory {A} (p : Callback A) io owner scope d r d' new log : ro_commit io true = CommitLost ->
  (forall k, may_write p k -> launch_row (key_string k) = false) -> WithNativeAuthority s io owner scope p d = (r, d', new) ->
  memory_inv d log -> memory_inv d' log.
Proof.
  intros Hio Hw Ht [Hl He].
  destruct (transaction_outcome _ _ _ _ _ _ _ _ _ Ht) as [[-> _]|(env & t1 & t2 & a & Henv & Hm & Hr & -> & _ & Hf & _)]; [done|].
  specialize (Hf Hio). destruct (tx_start _ _ _ Hl Hm) as (Hv & Hset & Hk). split; [by eapply tx_end|].
  eapply Forall_impl; [exact He|]. intros e (key & claim & Hc & Hb)%Hk. exists key, claim. split; [|done].
  destruct (bears_key _ _ _ Hb) as [x Hx]. eapply claim_framed; [|exact Hr|exact Hc]. intros k Hkw E. apply Hw in Hkw.
  apply launch_key_row in Hx. congruence.
Qed.

(** A transaction that writes one slot. *)
Lemma slot_memory {A} (p : Callback A) a0 key env t1 t2 a new e : launchClaimKey a0 = Ok key ->
  (forall k, may_write p k -> k = key) -> run_callback p env t1 = (Ok a, t2, new) ->
  (forall claim, holds_claim (t_db t1) key claim -> bears key claim e -> event_ok (t_db t2) e) ->
  event_ok (t_db t1) e -> event_ok (t_db t2) e.
Proof.
  intros Ha Hw Hr Hsame (k & claim & Hc & Hb). destruct (bears_key _ _ _ Hb) as [x Hx].
  destruct (decide (key_string k = key_string key)) as [E|E].
  - rewrite (launch_key_inj _ _ _ _ Hx Ha E) in Hc, Hb. by eapply Hsame.
  - exists k, claim. split; [|done]. eapply claim_framed; [|exact Hr|exact Hc]. intros k' ->%Hw. congruence.
Qed.

Lemma begin_memory d log io nonce ownership attempt directory r d' : memory_inv d log -> ro_commit io true = CommitLost ->
  BeginLaunch s c io nonce ownership attempt directory d = (r, d') -> memory_inv d' (log ++ began ownership directory r).
Proof.
  intros [Hl He] Hio Hb. unfold BeginLaunch in Hb. destruct (begin_claim _ _ _ _ _) as [[key raw]|e] eqn:Ec;
    [|injection Hb as <- <-; by rewrite app_nil_r].
  destruct (WithNativeAuthority _ _ _ _ _ _) as [[x d1] new] eqn:Ew. injection Hb as <- <-.
  destruct (begin_claim_Ok _ _ _ _ _ _ Ec) as (Hk & claim & Hdec & Hown & Hopen).
  assert (k_Kind key = AuthorityNativeCheckpoint) as Hkind by (destruct (launch_key_shape _ _ Hk) as (id & -> & _); done).
  destruct (transaction_outcome _ _ _ _ _ _ _ _ _ Ew) as [[-> Hx]|(env & t1 & t2 & [] & Henv & Hm & Hr & -> & _ & Hf & _)].
  { destruct x; [done|]. by rewrite app_nil_r. }
  specialize (Hf Hio). destruct (tx_start _ _ _ Hl Hm) as (Hv & Hset & Hkeep).
  destruct (begin_run _ _ _ _ _ _ Henv Hset Hkind Hr Hf) as [Hbefore Hafter].
  split; [by eapply tx_end|]. apply Forall_app. split.
  - eapply Forall_impl; [exact He|]. intros e Hev. eapply slot_memory; [exact Hk | | exact Hr | | by apply Hkeep].
    + intros k. by apply begin_writes.
    + intros y (rev & v & Hc & _) _. congruence.
  - destruct x as [u|]; [|constructor]. constructor; [|constructor]. exists key, claim. split; [by exists 1, raw | done].
Qed.

Lemma observe_memory d log io ipc ownership r d' : memory_inv d log -> ro_commit io true = CommitLost ->
  (forall p, ip_first ipc = Ok p -> process_ok p) ->
  ObserveLaunched s c io ipc ownership d = (r, d') -> memory_inv d' (log ++ saw ownership r).
Proof.
  intros [Hl He] Hio Hp Ho. unfold ObserveLaunched in Ho.
  match type of Ho with match ?x with _ => _ end = _ => destruct x as [[key process]|e] eqn:Ec end;
    [|injection Ho as <- <-; by rewrite app_nil_r].
  destruct (WithNativeAuthority _ _ _ _ _ _) as [[x d1] new] eqn:Ew. injection Ho as <- <-.
  apply rbind_Ok in Ec as (key' & Hk & Ec). apply rbind_Ok in Ec as (p & Hfirst & Ec). do 2 apply rbind_Ok in Ec as ([] & _ & Ec).
  injection Ec as -> ->. destruct (launch_key_shape _ _ Hk) as (id & Hshape & Hval).
  assert (k_Kind key = AuthorityNativeCheckpoint) as Hkind by (by rewrite Hshape).
  destruct (transaction_outcome _ _ _ _ _ _ _ _ _ Ew) as [[-> Hx]|(env & t1 & t2 & [] & Henv & Hm & Hr & -> & _ & Hf & _)].
  { destruct x; [done|]. by rewrite app_nil_r. }
  specialize (Hf Hio). destruct (tx_start _ _ _ Hl Hm) as (Hv & Hset & Hkeep).
  destruct (observe_run _ _ _ _ _ _ _ Henv Hset Hkind Hr Hf) as (claim & Hc & Hown & Hcase).
  assert (Forall (event_ok (t_db t2)) log /\ event_ok (t_db t2) (Saw ownership process)) as [Hlog Hnew].
  { destruct Hcase as [(Hdb & Hph & q & Hq & Hsame)|(Hph & rev & raw & Hraw & Hcur)].
    - rewrite Hdb. split; [eapply Forall_impl; [exact He | apply Hkeep]|]. exists key, claim. split; [done|]. by split_and!; [..|exists q].
    - assert (holds_claim (t_db t2) key (observed claim process)) as Hc2.
      { exists rev, raw. split; [done|]. destruct Hc as (? & v & _ & Hdec). destruct (launch_decoded _ _ Hdec) as (H1' & H2' & _ & H4').
        apply launch_round_trip; [by split_and! | by cbn; rewrite Hown | cbn; by apply Hp | done]. }
      split; [|exists key, (observed claim process); split; [done|]; by split_and!; [..|exists process]].
      eapply Forall_impl; [exact He|]. intros e Hev. eapply slot_memory; [exact Hk | | exact Hr | | by apply Hkeep].
      + intros k. by apply observe_writes.
      + intros y Hy Hb. rewrite (holds_claim_fun _ _ _ _ Hy Hc) in Hb. exists key, (observed claim process). split; [done|].
        destruct e; [done|]. destruct Hb as (_ & Hob & _). congruence. }
  split; [by eapply tx_end|]. apply Forall_app. split; [done|]. destruct x as [u|]; [|constructor]. by constructor.
Qed.

Lemma lookup_writes scope key k : ~ may_write (lookup_callback c scope key) k.
Proof. cbn. intros [[]|([x|e] & [])]. Qed.

Lemma launches_inv d log : launches s c d log -> memory_inv d log.
Proof.
  induction 1 as [d Hv Hs|d d' log Hc [Hl He] (Hh & Hlog & Hst & Hv)|d d' log Hc [Hl He] Hv Hsch|d d' log A p io owner scope r new Hc IH Hio Hw Ht
    |d d' log io nonce a att dir r Hc IH Hio Hb|d d' log io ipc a r Hc IH Hio Hp Ho|d d' log io sc r Hc IH Hio Hb].
  - split; [by left | constructor].
  - split.
    + destruct Hl as [[E1 E2]|[E1 E2]]; [left | right].
      * split; [lia | congruence].
      * split; [lia|]. by apply (settled_same s d).
    + eapply Forall_impl; [exact He|]. intros e (key & claim & (rev & v & Hcu & Hd) & Hb). exists key, claim. split; [|done].
      exists rev, v. unfold current in *. by rewrite Hst.
  - split; [right; split; [by injection Hsch as <-; cbn; lia | by eapply schema_settled]|].
    eapply Forall_impl; [exact He|]. intros e Hev. destruct Hl as [[_ Hs]|[? _]]; [|lia]. exfalso. by eapply no_event.
  - by eapply tx_memory.
  - by eapply begin_memory.
  - by eapply observe_memory.
  - unfold LookupLaunch in Hb. match type of Hb with match ?x with _ => _ end = _ => destruct x as [key|e] end; [|by injection Hb as _ <-].
    destruct (WithNativeAuthority _ _ _ _ _ _) as [[x d1] new] eqn:Ew. injection Hb as _ <-.
    eapply tx_memory; [done | | exact Ew | done]. intros k Hk. by apply lookup_writes in Hk.
Qed.

(** ** Lookups *)
Lemma lookup_run scope key env t1 t2 found new : e_root env = s -> t_failure t2 = None ->
  run_callback (lookup_callback c scope key) env t1 = (Ok found, t2, new) ->
  match found with
  | Some claim => holds_claim (t_db t1) key claim
  | None => current s (t_db t1) key = None
  end.
Proof.
  intros He Hf Hr. cbn [lookup_callback run_callback method] in Hr. destruct (Get key env t1) as [[r|e] u] eqn:Eg.
  - injection Hr as Hr _ _. apply rbind_Ok in Hr as (claim & Hc & [= <-]). unfold retained_launch in Hc.
    apply rbind_Ok in Hc as (x & Hx%of_option_Some & Hc). do 3 apply rbind_Ok in Hc as ([] & _ & Hc). injection Hc as ->.
    apply Get_stored in Eg. rewrite He in Eg. apply stored_current in Eg. destruct (ar_Retired r); [done|].
    by exists (ar_Revision r), (ar_Value r).
  - injection Hr as Hr <- _. destruct (isAuthorityNotFound e) eqn:En; [|done]. injection Hr as <-.
    unfold current. by rewrite (Get_absent _ _ _ _ _ Eg En Hf).
Qed.

(** C17. What was launched is remembered. Take any history of launches, observations (of
    processes with valid identities), lookups and other transactions, with failing and
    ambiguous commits, such that the other transactions write no launch claims and no
    transaction in which the driver failed a statement was committed. A lookup that succeeds
    for a scope with the physical slot of a launch finds it: with the ownership and the
    private directory it was claimed with, and, once a worker was observed, with the process
    identity of that worker (its parent may have changed). *)
Theorem launches_are_remembered (d : NDB) (log : list Event) (io : RootIO) (scope : Scope) (st : LaunchState) (d' : NDB) (e : Event) :
  launches s c d log -> LookupLaunch s c io scope d = (Ok st, d') -> e ∈ log ->
  match e with
  | Began a directory => SamePhysical a scope = true -> st = mkLaunchState true a (ls_Observed st) directory
  | Saw a p => SamePhysical a scope = true -> exists q, ls_Observed st = Some q /\ same_process q p
  end.
Proof.
  intros Hl Hlook Hin. destruct (launches_inv _ _ Hl) as [Hled Hall]. rewrite Forall_forall in Hall. specialize (Hall _ Hin).
  unfold LookupLaunch in Hlook. match type of Hlook with match ?x with _ => _ end = _ => destruct x as [key|?] eqn:Ek end; [|done].
  apply rbind_Ok in Ek as ([] & _ & Ek).
  destruct (WithNativeAuthority _ _ _ _ _ _) as [[r d1] new] eqn:Ew. injection Hlook as Hr <-. apply rbind_Ok in Hr as (found & -> & Hr).
  destruct (transaction_outcome _ _ _ _ _ _ _ _ _ Ew) as [[_ ?]|(env & t1 & t2 & x & Henv & Hm & Hrun & _ & Hx & _ & Hfail)]; [done|].
  specialize (Hx eq_refl). injection Hx as <-. destruct (tx_start _ _ _ Hled Hm) as (_ & _ & Hk).
  apply Hk in Hall as (key' & claim & Hc & Hb). pose proof (lookup_run _ _ _ _ _ _ _ Henv Hfail Hrun) as Hf.
  assert (forall a, launchClaimKey a = Ok key' -> SamePhysical a scope = true -> key' = key) as Hsame.
  { intros a Ha Hs. pose proof (same_physical_key _ _ _ Ha Hs). congruence. }
  assert (key' = key -> exists y plain, found = Some y /\ y = claim /\ Durable.Open (launchAAD c key) (lc_Directory y) = Some plain /\
    decode_directory plain = Some (ls_Directory st) /\ st = mkLaunchState true (lc_Ownership y) (lc_Process y) (ls_Directory st)) as Hst.
  { intros ->. destruct found as [y|]; [|destruct Hc as (? & ? & Hc & _); congruence]. pose proof (holds_claim_fun _ _ _ _ Hf Hc) as ->.
    apply rbind_Ok in Hr as (plain & Hp%of_option_Some & Hr). apply rbind_Ok in Hr as (dir & Hd%of_option_Some & Hr).
    apply rbind_Ok in Hr as ([] & _ & [= <-]). by exists claim, plain. }
  destruct e as [a directory|a p].
  - destruct Hb as (Ha & Hown & plain & Hop & Hdec). intros Hs. pose proof (Hsame _ Ha Hs) as ->.
    destruct (Hst eq_refl) as (y & plain' & _ & -> & Hop' & Hdec' & ->). cbn in *. congruence.
  - destruct Hb as (Ha & _ & q & Hq & Hqp). intros Hs. pose proof (Hsame _ Ha Hs) as ->.
    destruct (Hst eq_refl) as (y & plain' & _ & -> & _ & _ & ->). by exists q.
Qed.
End memory.
End LaunchMemory.

(** A worker launched under descriptor r1, observed, and found under r2. *)
Module MemoryWitness.
Import Ref Wire Model RefWitness WireWitness Authority.Authority AuthorityTx.AuthorityTx AuthorityInv.AuthorityInv AuthorityProps.AuthorityWitness.
Import NativeScope Launch.Launch LaunchMemory.

#[local] Existing Instance w_ed.
#[local] Existing Instance w_ed_laws.
#[local] Existing Instance w_envelope_json.
#[local] Existing Instance w_documents.
#[local] Instance m_url : UrlParser := {| url_Parse _ := None; ToLower s := s |}.
#[local] Instance m_protector : Durable.DataProtector :=
  {| Durable.Reference := Durable.mkKeyRef "key" "1"; Durable.Seal _ _ plain := Some plain; Durable.Open _ c := Some c |}.
#[local] Instance m_protector_laws : Durable.DataProtectorLaws m_protector.
Proof. by constructor; intros ? ? ? ? [= ->]. Qed.

Definition m_scope (revision : string) : Scope :=
  local_scope (mkLocal w_ns w_store 1 w_seed w_owner w_endpoint revision "b1" (replicate 32 x01) "state" "w1" "g1" "codex" (replicate 32 x02)).
Definition m_directory : string := "/var/lib/w".
Definition m_process : ProcessSnapshot := mkProcess 42 1 1000 7.
Definition m_claim (phase : string) (p : option ProcessSnapshot) : launchClaim :=
  mkLaunch launch_version (m_scope "r1") "attempt" phase p (bytes_of m_directory) (Durable.mkKeyRef "key" "1").

#[local] Instance launch_claim_eq_dec : EqDecision launchClaim.
Proof. solve_decision. Defined.
#[local] Instance m_launch_json : LaunchJson :=
  {| marshal_local l := Some (bytes_of (lo_WorkerID l));
     marshal_launch c := if decide (c = m_claim "launching" None) then Some [x31]
                         else if decide (c = m_claim "observed" (Some m_process)) then Some [x32] else None;
     decode_launch raw := if decide (raw = [x31]) then Some (m_claim "launching" None)
                          else if decide (raw = [x32]) then Some (m_claim "observed" (Some m_process)) else None;
     marshal_directory d := Some (bytes_of d); decode_directory raw := Some (string_of raw); marshal_launch_aad _ _ _ _ _ := [] |}.
#[local] Instance m_launch_laws : LaunchJsonLaws.
Proof.
  split.
  - intros raw c. cbn. do 2 (case_decide; [intros [= <-]; by split_and!|]). done.
  - intros c raw _ _ _. cbn. case_decide as E; [intros [= <-]; by subst|]. case_decide as E2; [|done]. intros [= <-]. by subst.
  - intros d raw _ [= <-]. cbn. by rewrite string_of_bytes_of.
Qed.

Definition m_key : AuthorityKey := match launchClaimKey (m_scope "r1") with Ok k => k | Err _ => w_key end.
Definition m_record (revision sequence : Z) (previous value : list byte) : AuthorityRecord :=
  mkRecord 1 w_ns w_store 1 m_key revision (revision - 1) sequence previous false value (replicate 64 x01).
Definition m_table : list AuthorityRecord := [m_record 1 1 zero32 [x31]; m_record 2 2 (sha256 (w_raw 1)) [x32]].
#[local] Instance m_json : AuthorityJson :=
  {| marshal_statement _ := Some []; marshal_record r := encode_record 1 r m_table;
     unmarshal_record raw := match raw with [] => None | _ :: raw => m_table !! length raw end;
     marshal_purpose p := None; unmarshal_purpose raw := None; decode_endpoint _ := None; decode_offer _ := None |}.
#[local] Instance m_json_laws : AuthorityJsonLaws.
Proof.
  split.
  - intros r m raw _ _ _ Hm. apply encode_record_Some in Hm as [Hlen Hl]. destruct raw as [|b raw]; [cbn in Hlen; lia|].
    cbn [unmarshal_record m_json]. rewrite <- Hl. f_equal. cbn. lia.
  - intros r m raw _ _ _ Hm. apply encode_record_Some in Hm as [Hlen _]. unfold blen. cbn [length m_table] in Hlen. lia.
  - reflexivity.
  - done.
Qed.

Definition m_checkpoints : Checkpoints := mkCheckpoints (w_context w_owner) (rt_Identity w_root) (Durable.mkKeyRef "key" "1").
Definition m_begin := BeginLaunch w_root m_checkpoints w_io [] (m_scope "r1") "attempt" m_directory w_new.
Definition m_ipc : WorkerIPC := mkIPC (Ok m_process) (Some (m_scope "r1")) (Ok m_process).
Definition m_observe := ObserveLaunched w_root m_checkpoints w_io m_ipc (m_scope "r1") m_begin.2.
Definition m_lookup := LookupLaunch w_root m_checkpoints w_io (m_scope "r2") m_observe.2.
Definition m_state : LaunchState := match m_lookup.1 with Ok st => st | Err _ => no_launch end.
Definition m_log : list Event := ([] ++ began (m_scope "r1") m_directory m_begin.1) ++ saw (m_scope "r1") m_observe.1.

Lemma m_launches : launches w_root m_checkpoints m_observe.2 m_log.
Proof.
  unfold m_log. eapply (LaunchesObserve w_root m_checkpoints m_begin.2 _ _ w_io m_ipc); [|reflexivity| |apply surjective_pairing].
  - eapply (LaunchesBegin w_root m_checkpoints w_new _ _ w_io []); [|reflexivity|apply surjective_pairing]. by apply LaunchesNew.
  - intros p [= <-]. unfold process_ok. cbn. lia.
Qed.

Lemma remembered_witness :
  m_log = [Began (m_scope "r1") m_directory; Saw (m_scope "r1") m_process] /\
  m_state = mkLaunchState true (m_scope "r1") (ls_Observed m_state) m_directory.
Proof.
  assert (m_log = [Began (m_scope "r1") m_directory; Saw (m_scope "r1") m_process]) as Hlog by (vm_compute; reflexivity).
  assert (m_lookup.1 = Ok m_state) as Hst by (vm_compute; reflexivity).
  split; [exact Hlog|].
  apply (launches_are_remembered w_root w_root_ok m_checkpoints ltac:(split; vm_compute; reflexivity) m_observe.2 m_log w_io (m_scope "r2")
    m_state m_lookup.2 (Began (m_scope "r1") m_directory)).
  - exact m_launches.
  - rewrite <- Hst. apply surjective_pairing.
  - rewrite Hlog. left.
  - vm_compute. reflexivity.
Defined.
End MemoryWitness.
